(* ===== verification/_CoqProject ===== *)
-Q . S2P
Prelude.v
GoText.v
GoUnicode.v
GoNet.v
Arbiter.v
ArbiterProofs.v
ArbiterTheorems.v
MbimWire.v
MbimStream.v
MbimInfo.v
MbimRecords.v
MbimRecordsProofs.v
MbimQmi.v
MbimDevice.v
MbimDeviceProofs.v
MbimDeviceTheorems.v
SmsCodec.v
SmsCodecProofs.v
Lines.v
SmsReassembly.v
SmsWbxml.v
SmsWbxmlProofs.v
SmsBinary.v
SmsBinaryProofs.v
SimIdentity.v
Outbound.v
OutboundProofs.v
G711.v
Jitter.v
JitterProofs.v
Interaction.v
SimAka.v
SimAkaProofs.v
SimAid.v
SimAidProofs.v
ModemVoice.v
ModemVoiceProofs.v
DeviceHealth.v
Automation.v
AutomationProofs.v
VolteCalls.v
VolteCallsProofs.v
VolteControl.v
EsimErrors.v
EsimSwitch.v
EsimSwitchProofs.v
EsimLock.v
EsimScan.v
EsimScanProofs.v
EsimCache.v
EsimTransport.v
EsimProfiles.v
EsimProfilesProofs.v
SimAuthGate.v
DeviceIdentity.v
DeviceSwitch.v
DeviceSwitchProofs.v
SimFiles.v
SimFilesProofs.v
AtParse.v
AtParseProofs.v
AtPort.v
AtPortProofs.v
Mbn.v
MbnProofs.v
MbnServiceProofs.v
Provision.v
ProvisionProofs.v
Udev.v
UdevProofs.v
