(* ===== verification/Prelude.v ===== *)
(** * HiDeck: a verification library for the core logic of the modem console

    HiDeck drives cellular modems: it talks MBIM, QMI and AT commands to them,
    shares the SIM card among its own tasks, sends and receives messages and
    calls, and keeps the devices alive.  The library models the parts of the Go
    code (src/internal, src/pkg) that decide something on their own, and proves
    what they promise.

    ** Files, in the order of their dependencies

    - Prelude: outcomes of Go calls ([go]: value, error or panic), byte lists,
      slices and indexes that panic out of range, machine integers, searching in
      lists, the tactics and hint databases.
    - GoText, GoUnicode, GoNet: what the code uses of packages strings, unicode
      and net.  Strings are byte sequences.
    - Arbiter, ArbiterProofs, ArbiterTheorems: internal/apduarbiter.  The state
      of [Arbiter] is the record [state] of the queue, leases, barriers and
      counters; each critical section under the mutex is a function, and [step]
      interleaves callers, timers and releases.  Proved: exclusion, refinement
      of an abstract lock table, progress, fences, bounded overtaking.
    - MbimWire, MbimStream, MbimInfo, MbimRecords (and its proofs), MbimQmi,
      MbimDevice (with proofs and theorems): pkg/mbim.  Wire format and
      fragments; the byte stream; information buffers; one exchange per query or
      set; QMI tunnelled to the card; and the device shared by callers, read
      loop and timers.  MbimDevice uses the collector of MbimWire and the
      exchanges of MbimRecords go through it.
    - SmsCodec, SmsReassembly, SmsWbxml, SmsBinary (with proofs): pkg/smscodec.
      RP messages and TPDU trimming; long messages; the WBXML decoder of
      provisioning messages; the classifier of binary messages, which calls the
      decoder.
    - SimIdentity: pkg/simidentity.  Outbound: internal/outbound, keyed by the
      canonical ICCID.  G711: pkg/g711.  Jitter: internal/volte/pcm_jitter.go.
    - Interaction: programs that make requests to a device and go on with
      arbitrary answers ([prog]), their runs ([exec]), and monitors of a run
      with a Hoare triple ([triple]).  SimAka (internal/sim), SimAid
      (internal/simaid), ModemVoice (internal/modemvoice), Automation
      (internal/automation, runner.go and the validation of types.go) and the
      operations of internal/esim below are such programs:
      a theorem about [exec] holds for every modem, card and failure, and its
      witness runs the program on a concrete one ([run_on]).
    - DeviceHealth: transport_recovery_controller.go, lifecycle.go and
      health_watchdog.go of internal/device.
    - VolteCalls and its proofs, VolteControl: internal/volte, voice.go and
      retire.go (the calls of one device), dtmf.go and mux.go (the keys of a
      call, and which backend has it).
    - internal/esim: EsimErrors (errors.go, download_error.go and the errors of
      qmi_channel.go); EsimLock (the lock of write operations), EsimScan (the
      search for chips), EsimCache (the overview), EsimSwitch (switching and
      disabling) and EsimProfiles (downloading, deleting, renaming and
      notifications), all of manager.go; EsimTransport (apdu_coordinator.go,
      qmi_uim_transport.go, mbim_apdu_transport.go and qmi_channel.go).  The
      card, the LPA library, the arbiter and the callbacks answer requests; the
      operations of EsimSwitch, EsimScan and EsimProfiles hold the lock that
      EsimLock models, and their channels are those of EsimTransport.
    - internal/device around a switch of the card: DeviceIdentity (the identity
      of the card, the record of the switches that run, and the owner of a
      policy: pool_state.go, pool_esim_switch.go, policy_owner.go and part of
      pool.go), and DeviceSwitch with its proofs (the callbacks that EsimSwitch
      calls: pool_esim_switch.go, post_switch_convergence.go, switch_reinit.go
      and part of policy_projection.go), whose requests are the sections of
      DeviceIdentity and the gate of SimAuthGate
      (internal/apduarbiter/simauth_ready.go).
    - internal/modem: SimFiles and its proofs (sim_metadata.go, spn.go and the
      BCD digits: the files of the card), AtParse and its proofs (at_parse.go,
      urc_format.go, operator_name.go, at_redaction.go and the identity of
      at_identity_probe.go: what the modem answers), AtPort and its proofs
      (readLoop and handleCommand of manager.go, file_upload.go: the lines that
      the parsers get, and the transfer of a file).  Lines has what the parsers
      of answers share.  SimFiles fills the records of DeviceIdentity.
    - internal/mbn: Mbn (all of it but the database and the files on disk), a
      program per operation over the store, the session of the modem and the
      contexts; MbnProofs follows one operation, MbnServiceProofs the service
      that starts them, and the list of profiles.  Its file upload is that of
      AtPort; its fields are read as in ModemVoice.
    - Provision and its proofs: internal/volte, at.go, at_exec.go, profile.go and
      provision.go, a program over the commands of the modem, the store of
      snapshots and the wait for a restart.  It reads the list of profiles with
      the parser of Mbn.
    - Udev and its proofs: internal/device, udev_debounce.go and the events of
      udev.go, as a scheduler with its timers, goroutines and scans.

    Names are those of the code.  A name that Rocq reserves or that clashes
    carries a prefix or an underscore; a loop or a closure inside a function is
    a definition of its own, mapped to its lines.

    ** How the code is modelled

    - Errors are values without their text, except where the text is part of
      the result.  Logging is left out.
    - A critical section is one step, and goroutines interleave between critical
      sections.  In MbimDevice a write is joined with the test of the shared
      state next to it, because the log of writes only changes under [writeMu];
      [w_reports] lists the reports that were attempted, before the queue of
      protocol errors drops any.
    - [int] has the width of the build: the parsers take it as a parameter
      ([IntSize]) and the panics of the 32-bit build are stated; MbimWire,
      MbimStream, SmsCodec and ModemVoice assume 64 bits where a length or a
      decimal is read.  Fixed-width arithmetic wraps ([u8], [u16], [u32], [u64],
      [signed]).
    - The order in which Go walks a map is a parameter: a permutation, named in
      the theorems that hold for all of them.
    - Contexts, channels of capacity one and clocks are requests or arguments, and
      so is how often a loop goes round before its deadline.
      The clock does not go back where a theorem says so.  The zero time is 0 or
      [None], as the file says.
    - Code of other packages is a parameter: the alphabet and the GSM codec of
      the SMS package, Unicode case tables outside ASCII, the store of the
      limits (a read-modify-write at a time).

    ** Bounds and fuel

    Recursion that is not structural has fuel, and a theorem or lemma shows
    that the amount is enough: [wbxml_fuel] is twice the length of the buffer
    plus two, since every element and every turn of a content reads a byte;
    [CollectTLVValues] has one more than the length of the data, [fcp_loop] one
    more than the length of the template, [csv_fields] one more than the length
    of the line; the loops of SimFiles over the elements of a record have its length,
    and [quoted_fields], [split_loop] and [complete_lines] that of the text, and
    [writeUploadBytes] that of the data, [fields_loop] that of the text; [trim_loop] of the jitter buffer has 64 turns, since a
    packet that is held is less than 64 numbers ahead of the expected one; a run
    of an automatic task has one attempt more than its retries; the length of a multi-byte integer of WBXML is at most
    five bytes; the arbiter and the device need none.  The counter of tracked
    calls and the sums of outbound units stay below 2^64 and 2^63 in the theorems
    that say so, and so do the counters of native calls and the generations of the
    overview.  [retryWithBackoff], the loops over attempts and the searches of
    internal/esim recurse on the attempts that are left or on the list.

    ** What the theorems show

    The arbiter excludes, progresses and ages; fragments and messages survive
    the wire and any cutting of the stream; a call on the device gets its own
    answer, once, and is always woken; limits hold in every window and a refusal
    says when to come back; the jitter buffer plays each packet once and in order
    between two restarts, and counts what it loses; long messages come out whole; an automatic run is retried within
    its limits and ends with the result of its last attempt; provisioning documents decode to
    what was encoded, and on the 64-bit builds every input is decoded or refused
    within the fuel; a logical channel is
    closed in every run and a synchronisation failure is final; a directory is
    read to its end; the changes of the call tracker rebuild its state and a
    session commands only the call that a fresh report shows; a native call has
    one life unless a report overtakes the answer to its hang-up, hold or dial, and
    its keys and requests go to the backend that has it; rebuilds
    are capped.  An operation on an eSIM takes the lock, the lease, one client and
    the barrier, gives all of them back however it ends, changes the card as often
    as it may and reports what happened; a search opens each application once; an
    overview that was read before a change is not kept; an APDU goes to an open
    channel under its lease.  After a switch the device is finished only for the
    switch that is current, in a bounded number of readings, and a policy is
    applied only while the device records the card that it was decided for.  The
    answers of a modem, in whatever pieces the port delivers them, and the files of
    a card are read back as they were written, apart from lines with a prompt and
    names that end like padding; a file is uploaded whole or reported as not.
    An operation on the carrier profiles writes only what is recorded before and
    read back after, one at a time on a modem; the settings for voice are changed
    only once the original ones are saved.  A hotplug event that is not
    dropped is followed by a scan, one at a time, when timers are on time and no
    event of the other kind ends its wave.
    Defects that modelling showed are the lemmas [proxy_timeout_lost],
    [armv7_parsers_panic], [wbxml_armv7_crash], [sl_reported_as_si],
    [fcp_length_overflow], [hangup_ends_twice], [hold_revives],
    [dialling_resets], [ims_call_misrouted], [double_close_panics],
    [wakeup_missed], [deprecated_never_tried], [refresh_outlives_reset],
    [switch_shows_old_profile], [reset_lets_two_in], [failed_close_unbinds],
    [late_store_ends_transition], [second_switch_grounded],
    [degraded_reported_done], [name_ending_in_zero_lost],
    [opl_without_name_refused], [last_operator_act_lost],
    [comma_in_name_shifts_fields], [cut_iccid_accepted], [imsi_taken_for_imei],
    [not_ready_is_inserted], [marked_code_lost], [cut_after_mark],
    [late_answer_taken], [stopped_trial_unnoticed], [restore_twice],
    [original_lost], [refused_after_saving], [card_back_unseen],
    [scan_put_off] and [second_removal_missed].

    ** Plan, and what is not modelled

    Next: the reconciliation of policies and of the registration
    (internal/device), the snapshots of internal/mbim, and the activation codes of
    internal/esim.  Not
    modelled: the orchestration of devices (internal/device, apart from the
    files above), which is goroutines, timers and operating system events
    around the drivers; the adapters of internal/backend and internal/qmi to
    third-party drivers; the database, HTTP handlers, notifications and proxies,
    which are calls of libraries and services; the watch loops and the closing of
    voice sessions; the web interface, which is not Go; and the text of errors
    and logs. *)

From stdpp Require Export base numbers list gmap strings.
From Stdlib Require Export ZArith Lia.

Declare Scope go_scope.
Delimit Scope go_scope with go.

#[global] Open Scope Z_scope.

(** ** The outcome of a Go call

    [Ok] is a normal return with a nil error, [Err] a return with a non-nil
    error, [Panic] a run-time panic (index or slice bounds out of range). *)
Inductive go (E A : Type) : Type :=
  | Ok (a : A)
  | Err (e : E)
  | Panic.
Arguments Ok {E A} a.
Arguments Err {E A} e.
Arguments Panic {E A}.

#[global] Instance go_ret E : MRet (go E) := λ A a, Ok a.

#[global] Instance go_bind E : MBind (go E) := λ A B k m,
  match m with
  | Ok a => k a
  | Err e => Err e
  | Panic => Panic
  end.

(** [v, _ := f()]: the error is dropped and the zero value [d] is kept. *)
Definition go_ignore {E F A} (d : A) (m : go E A) : go F A :=
  match m with
  | Ok a => Ok a
  | Err _ => Ok d
  | Panic => Panic
  end.

(** Wrapping an error, as [fmt.Errorf("...: %w", err)] does. *)
Definition go_wrap {E F A} (f : E → F) (m : go E A) : go F A :=
  match m with
  | Ok a => Ok a
  | Err e => Err (f e)
  | Panic => Panic
  end.

(** A call is safe when it does not panic. *)
Definition safe {E A} (m : go E A) : Prop := m ≠ Panic.

(** ** Machine integers *)

Definition u8 (x : Z) : Z := x `mod` 2 ^ 8.
Definition u16 (x : Z) : Z := x `mod` 2 ^ 16.
Definition u32 (x : Z) : Z := x `mod` 2 ^ 32.
Definition u64 (x : Z) : Z := x `mod` 2 ^ 64.

(** Two's-complement wrap-around of a [w]-bit signed integer. *)
Definition signed (w x : Z) : Z :=
  (x + 2 ^ (w - 1)) `mod` 2 ^ w - 2 ^ (w - 1).
Definition i16 (x : Z) : Z := signed 16 x.
Definition i64 (x : Z) : Z := signed 64 x.

(** The width of Go's [int]: 64 bits on amd64 and arm64, 32 bits on the armv7
    build.  [int x] is the conversion [int(x)], and the result of a computation
    in [int]: [int (a + int b)] and [int (a + b)] agree. *)
Class IntSize := int_bits : Z.
Definition int `{IntSize} (x : Z) : Z := signed int_bits x.
Definition max_int `{IntSize} : Z := 2 ^ (int_bits - 1) - 1.
Definition amd64 : IntSize := 64.
Definition armv7 : IntSize := 32.

(** ** Byte slices

    A [[]byte] is a list of integers; [bytes_ok] says that each is a byte. *)
Abbreviation bytes := (list Z).

Definition byte_ok (b : Z) : Prop := 0 ≤ b < 256.
Definition bytes_ok (b : bytes) : Prop := Forall byte_ok b.

#[global] Instance byte_ok_dec b : Decision (byte_ok b).
Proof. unfold byte_ok. apply _. Defined.

#[global] Instance bytes_ok_dec b : Decision (bytes_ok b).
Proof. unfold bytes_ok. apply _. Defined.

Definition len {A} (l : list A) : Z := Z.of_nat (length l).

(** [b[i]] *)
Definition idx {E A} (l : list A) (i : Z) : go E A :=
  if bool_decide (0 ≤ i < len l) then
    match l !! Z.to_nat i with Some a => Ok a | None => Panic end
  else Panic.

(** [b[i:j]] *)
Definition slice {E A} (l : list A) (i j : Z) : go E (list A) :=
  if bool_decide (0 ≤ i ≤ j ∧ j ≤ len l) then
    Ok (take (Z.to_nat (j - i)) (drop (Z.to_nat i) l))
  else Panic.

(** [b[i:]] *)
Definition slice_from {E A} (l : list A) (i : Z) : go E (list A) :=
  slice l i (len l).

(** The capacity of [make([]T, 0, n)] must be an [int], or the call panics. *)
Definition make_cap `{IntSize} {E} (n : Z) : go E unit :=
  if bool_decide (0 ≤ n ≤ max_int) then Ok tt else Panic.

(** [make([]byte, n)] *)
Definition make_bytes (n : Z) : bytes := replicate (Z.to_nat n) 0.

(** [copy(b[off:], src)] *)
Definition blit (off : Z) (src b : bytes) : bytes :=
  let o := Z.to_nat off in
  take o b ++ take (length b - o) src ++ drop (o + length src) b.

(** Little-endian fields, as [encoding/binary] reads and writes them. *)
Fixpoint le_bytes (n : nat) (v : Z) : bytes :=
  match n with
  | O => []
  | S n => v `mod` 256 :: le_bytes n (v / 256)
  end.

Fixpoint le_val (b : bytes) : Z :=
  match b with
  | [] => 0
  | x :: b => x + 256 * le_val b
  end.

Definition le_u16 {E} (b : bytes) : go E Z :=
  if bool_decide (len b < 2) then Panic else Ok (le_val (take 2 b)).
Definition le_u32 {E} (b : bytes) : go E Z :=
  if bool_decide (len b < 4) then Panic else Ok (le_val (take 4 b)).
Definition le_u64 {E} (b : bytes) : go E Z :=
  if bool_decide (len b < 8) then Panic else Ok (le_val (take 8 b)).

Definition put_u16 (off v : Z) (b : bytes) : bytes := blit off (le_bytes 2 (u16 v)) b.
Definition put_u32 (off v : Z) (b : bytes) : bytes := blit off (le_bytes 4 (u32 v)) b.

(** [for i := uint32(0); i < n; i++ { body }], the loop state passed along. *)
Fixpoint for_from {E S} (n : nat) (i : Z) (body : Z → S → go E S) (s : S) : go E S :=
  match n with
  | O => Ok s
  | Datatypes.S n => s ← body i s; for_from n (i + 1) body s
  end.
Definition for_u32 {E S} (n : Z) (body : Z → S → go E S) (s : S) : go E S :=
  for_from (Z.to_nat n) 0 body s.

(** ** Lemmas on outcomes *)

Lemma bind_Ok {E A B} (m : go E A) (k : A → go E B) b :
  (m ≫= k) = Ok b ↔ ∃ a, m = Ok a ∧ k a = Ok b.
Proof. destruct m; cbn; naive_solver. Qed.

Lemma safe_bind {E A B} (m : go E A) (k : A → go E B) :
  safe m → (∀ a, m = Ok a → safe (k a)) → safe (m ≫= k).
Proof. unfold safe. destruct m; cbn; naive_solver. Qed.

Lemma safe_Ok {E A} (a : A) : safe (E:=E) (Ok a).
Proof. done. Qed.

Lemma safe_Err {E A} (e : E) : safe (A:=A) (Err e).
Proof. done. Qed.

Lemma safe_ignore {E F A} (d : A) (m : go E A) :
  safe m → safe (go_ignore (F:=F) d m).
Proof. unfold safe. by destruct m. Qed.

Lemma safe_wrap {E F A} (f : E → F) (m : go E A) : safe m → safe (go_wrap f m).
Proof. unfold safe. by destruct m. Qed.

Lemma safe_match {E F A B} (m : go E A) (k : A → go F B) (h : E → go F B) :
  safe m → (∀ a, m = Ok a → safe (k a)) → (∀ e, safe (h e)) →
  safe (match m with Ok a => k a | Err e => h e | Panic => Panic end).
Proof. unfold safe. destruct m; naive_solver. Qed.

Lemma safe_for_from {E S} n i (body : Z → S → go E S) s :
  (∀ j s, i ≤ j < i + Z.of_nat n → safe (body j s)) → safe (for_from n i body s).
Proof.
  revert i s. induction n as [|n IH]; intros i s Hb; cbn; [done|].
  apply safe_bind; [apply Hb; lia|]. intros s' _. apply IH. intros j s'' Hj. apply Hb. lia.
Qed.

Lemma safe_for_u32 {E S} n (body : Z → S → go E S) s :
  (∀ j s, 0 ≤ j < n → safe (body j s)) → safe (for_u32 n body s).
Proof. intros Hb. apply safe_for_from. intros j s' Hj. apply Hb. lia. Qed.

Lemma signed_id w x : 0 < w → - 2 ^ (w - 1) ≤ x < 2 ^ (w - 1) → signed w x = x.
Proof.
  intros Hw Hx. unfold signed. rewrite Z.mod_small; [lia|].
  replace (2 ^ w) with (2 * 2 ^ (w - 1)); [lia|].
  rewrite <-Z.pow_succ_r by lia. f_equal. lia.
Qed.

Lemma int64_id {H : IntSize} x : int_bits = 64 → - 2 ^ 63 ≤ x < 2 ^ 63 → int x = x.
Proof. intros Hb Hx. unfold int. rewrite Hb. by apply signed_id. Qed.

Lemma int_id {H : IntSize} x : 0 < int_bits → 0 ≤ x ≤ max_int → int x = x.
Proof.
  intros Hb Hx. unfold max_int in Hx. unfold int. apply (signed_id int_bits); [done|].
  pose proof (Z.pow_nonneg 2 (int_bits - 1) ltac:(done)). lia.
Qed.

Lemma max_int_31 {H : IntSize} : 32 ≤ int_bits → 2 ^ 31 - 1 ≤ max_int.
Proof.
  intros. unfold max_int. pose proof (Z.pow_le_mono_r 2 31 (int_bits - 1)). lia.
Qed.

Lemma safe_make_cap {H : IntSize} {E} n :
  int_bits = 64 → 0 ≤ n < 2 ^ 32 → safe (make_cap (E:=E) n).
Proof.
  intros Hb Hn. unfold make_cap, max_int. rewrite Hb.
  by rewrite bool_decide_eq_true_2 by lia.
Qed.

Ltac bsolve := repeat first
  [ rewrite bool_decide_eq_true_2 by lia | rewrite bool_decide_eq_false_2 by lia ].
Ltac zdiv := Z.to_euclidean_division_equations; lia.

Create HintDb go discriminated.
Create Rewrite HintDb len.
#[export] Hint Resolve safe_Ok safe_Err safe_ignore safe_wrap : go.

(** ** Lemmas on lengths, indices and slices *)

Lemma len_nonneg {A} (l : list A) : 0 ≤ len l.
Proof. unfold len. lia. Qed.

Lemma len_pos {A} (l : list A) : l ≠ [] → 0 < len l.
Proof. destruct l; [done|]. unfold len. cbn. lia. Qed.

Lemma len_0_nil {A} (l : list A) : len l ≤ 0 → l = [].
Proof. destruct l; [done|]. unfold len. cbn. lia. Qed.

Lemma len_nil {A} : len (@nil A) = 0.
Proof. done. Qed.

Lemma len_cons {A} (x : A) l : len (x :: l) = 1 + len l.
Proof. unfold len. cbn. lia. Qed.

Lemma len_app {A} (l k : list A) : len (l ++ k) = len l + len k.
Proof. unfold len. rewrite length_app. lia. Qed.

Lemma len_replicate {A} n (x : A) : len (replicate n x) = Z.of_nat n.
Proof. unfold len. by rewrite length_replicate. Qed.

Lemma len_make n : 0 ≤ n → len (make_bytes n) = n.
Proof. intros. unfold make_bytes. rewrite len_replicate. lia. Qed.

Lemma len_take {A} n (l : list A) : len (take n l) = Z.min (Z.of_nat n) (len l).
Proof. unfold len. rewrite length_take. lia. Qed.

Lemma len_drop {A} n (l : list A) : len (drop n l) = Z.max 0 (len l - Z.of_nat n).
Proof. unfold len. rewrite length_drop. lia. Qed.

Lemma len_fmap {A B} (f : A → B) l : len (f <$> l) = len l.
Proof. unfold len. by rewrite length_fmap. Qed.

#[export] Hint Rewrite @len_nil @len_cons @len_app @len_replicate @len_take
  @len_drop @len_fmap : len.

Lemma length_len {A} (l : list A) : length l = Z.to_nat (len l).
Proof. unfold len. lia. Qed.

Lemma idx_Ok {E A} (l : list A) i :
  0 ≤ i < len l → ∃ a, l !! Z.to_nat i = Some a ∧ idx (E:=E) l i = Ok a.
Proof.
  intros Hi. unfold idx. rewrite bool_decide_eq_true_2 by done.
  destruct (lookup_lt_is_Some_2 l (Z.to_nat i)) as [a Ha];
    [unfold len in Hi; lia|]. rewrite Ha. eauto.
Qed.

Lemma idx_lookup {E A} (l : list A) i a : idx (E:=E) l i = Ok a → l !! Z.to_nat i = Some a.
Proof. unfold idx. case_bool_decide; [|done]. destruct (l !! _); naive_solver. Qed.

Lemma idx_byte {E} b i a : bytes_ok b → idx (E:=E) b i = Ok a → 0 ≤ a < 256.
Proof. intros Hb Hi%idx_lookup. by apply (Forall_lookup_1 _ _ _ _ Hb Hi). Qed.

Lemma safe_idx {E A} (l : list A) i : 0 ≤ i < len l → safe (idx (E:=E) l i).
Proof. intros Hi. destruct (idx_Ok (E:=E) l i Hi) as (a & _ & ->). done. Qed.

Lemma slice_Ok {E A} (l : list A) i j :
  0 ≤ i ≤ j → j ≤ len l →
  slice (E:=E) l i j = Ok (take (Z.to_nat (j - i)) (drop (Z.to_nat i) l)).
Proof. intros. unfold slice. by rewrite bool_decide_eq_true_2. Qed.

(** What stands between two parts of known length. *)
Lemma slice_mid {E A} (l v r : list A) i j :
  i = len l → j = len l + len v → slice (E:=E) (l ++ v ++ r) i j = Ok v.
Proof.
  intros -> ->. pose proof (len_nonneg l). pose proof (len_nonneg v). pose proof (len_nonneg r).
  rewrite slice_Ok by (rewrite ?len_app; lia). f_equal.
  replace (Z.to_nat (len l)) with (length l) by (unfold len; lia). rewrite drop_app_length.
  replace (Z.to_nat (len l + len v - len l)) with (length v) by (unfold len; lia). apply take_app_length.
Qed.

Lemma idx_mid {E A} (l : list A) (x : A) (r : list A) i :
  i = len l → idx (E:=E) (l ++ x :: r) i = Ok x.
Proof.
  intros ->. unfold idx. rewrite len_app, len_cons. pose proof (len_nonneg l). pose proof (len_nonneg r).
  rewrite bool_decide_eq_true_2 by lia. unfold len. rewrite Nat2Z.id.
  by rewrite lookup_app_r, Nat.sub_diag by lia.
Qed.

Lemma slice_inv {E A} (l : list A) i j r :
  slice (E:=E) l i j = Ok r →
  (0 ≤ i ≤ j ∧ j ≤ len l) ∧ r = take (Z.to_nat (j - i)) (drop (Z.to_nat i) l).
Proof. unfold slice. case_bool_decide; naive_solver. Qed.

Lemma slice_len {E A} (l : list A) i j r : slice (E:=E) l i j = Ok r → len r = j - i.
Proof. intros [? ->]%slice_inv. rewrite len_take, len_drop. lia. Qed.

Lemma safe_slice {E A} (l : list A) i j :
  0 ≤ i ≤ j → j ≤ len l → safe (slice (E:=E) l i j).
Proof. intros. rewrite slice_Ok by done. done. Qed.

Lemma slice_from_drop {E A} (l : list A) i :
  0 ≤ i ≤ len l → slice_from (E:=E) l i = Ok (drop (Z.to_nat i) l).
Proof.
  intros. unfold slice_from. rewrite slice_Ok by lia.
  rewrite take_ge; [done|]. rewrite length_drop. unfold len. lia.
Qed.

Lemma safe_slice_from {E A} (l : list A) i :
  0 ≤ i ≤ len l → safe (slice_from (E:=E) l i).
Proof. intros. apply safe_slice; lia. Qed.

Lemma safe_le_u16 {E} b : 2 ≤ len b → safe (le_u16 (E:=E) b).
Proof. intros. unfold le_u16. by rewrite bool_decide_eq_false_2 by lia. Qed.

Lemma safe_le_u32 {E} b : 4 ≤ len b → safe (le_u32 (E:=E) b).
Proof. intros. unfold le_u32. by rewrite bool_decide_eq_false_2 by lia. Qed.

Lemma safe_le_u64 {E} b : 8 ≤ len b → safe (le_u64 (E:=E) b).
Proof. intros. unfold le_u64. by rewrite bool_decide_eq_false_2 by lia. Qed.

Lemma bytes_ok_app b c : bytes_ok (b ++ c) ↔ bytes_ok b ∧ bytes_ok c.
Proof. apply Forall_app. Qed.

Lemma bytes_ok_take n b : bytes_ok b → bytes_ok (take n b).
Proof. apply Forall_take. Qed.

Lemma bytes_ok_drop n b : bytes_ok b → bytes_ok (drop n b).
Proof. apply Forall_drop. Qed.

Lemma slice_bytes_ok {E} b i j r : bytes_ok b → slice (E:=E) b i j = Ok r → bytes_ok r.
Proof. intros ? [_ ->]%slice_inv. by apply bytes_ok_take, bytes_ok_drop. Qed.

Lemma bytes_ok_make n : bytes_ok (make_bytes n).
Proof. apply Forall_replicate. unfold byte_ok. lia. Qed.

(** ** Little-endian fields *)

Lemma length_le_bytes n v : length (le_bytes n v) = n.
Proof. revert v. induction n; cbn; auto. Qed.

Lemma len_le_bytes n v : len (le_bytes n v) = Z.of_nat n.
Proof. unfold len. by rewrite length_le_bytes. Qed.

Lemma bytes_ok_le_bytes n v : bytes_ok (le_bytes n v).
Proof.
  revert v. induction n as [|n IH]; intros v; cbn; [constructor|].
  constructor; [apply Z.mod_pos_bound; lia|apply IH].
Qed.

Lemma le_val_le_bytes n v :
  le_val (le_bytes n v) = v `mod` 256 ^ Z.of_nat n.
Proof.
  revert v. induction n as [|n IH]; intros v; cbn [le_bytes le_val].
  - by rewrite Z.mod_1_r.
  - rewrite IH, Nat2Z.inj_succ, Z.pow_succ_r by lia.
    rewrite (Z.rem_mul_r v 256) by (try apply Z.pow_nonzero; lia). done.
Qed.

Lemma le_val_bound b : bytes_ok b → 0 ≤ le_val b < 256 ^ len b.
Proof.
  induction 1 as [|x b Hx _ IH]; cbn [le_val]; [done|].
  unfold byte_ok in Hx. rewrite len_cons, Z.pow_add_r by (pose proof (len_nonneg b); lia).
  change (256 ^ 1) with 256. nia.
Qed.

Lemma le_bytes_le_val b : bytes_ok b → le_bytes (length b) (le_val b) = b.
Proof.
  induction 1 as [|x b Hx Hb IH]; cbn [length le_val le_bytes]; [done|].
  unfold byte_ok in Hx. f_equal.
  - rewrite Z.mul_comm, Z.mod_add by lia. apply Z.mod_small; lia.
  - rewrite Z.mul_comm, Z.div_add, (Z.div_small x) by lia. by rewrite Z.add_0_l.
Qed.

Lemma le_u16_range {E} b v : bytes_ok b → le_u16 (E:=E) b = Ok v → 0 ≤ v < 2 ^ 16.
Proof.
  unfold le_u16. intros Hb. case_bool_decide; [done|]. intros [= <-].
  pose proof (le_val_bound (take 2 b) (bytes_ok_take _ _ Hb)) as Hv.
  rewrite len_take in Hv. replace (Z.min (Z.of_nat 2) (len b)) with 2 in Hv by lia.
  exact Hv.
Qed.

Lemma le_u32_range {E} b v : bytes_ok b → le_u32 (E:=E) b = Ok v → 0 ≤ v < 2 ^ 32.
Proof.
  unfold le_u32. intros Hb. case_bool_decide; [done|]. intros [= <-].
  pose proof (le_val_bound (take 4 b) (bytes_ok_take _ _ Hb)) as Hv.
  rewrite len_take in Hv. replace (Z.min (Z.of_nat 4) (len b)) with 4 in Hv by lia.
  exact Hv.
Qed.

Lemma le_u16_bytes {E} u rest : 0 ≤ u < 2 ^ 16 → le_u16 (E:=E) (le_bytes 2 u ++ rest) = Ok u.
Proof.
  intros Hu. unfold le_u16. pose proof (len_nonneg rest).
  rewrite bool_decide_eq_false_2 by (rewrite len_app, len_le_bytes; lia).
  rewrite take_app_length'; [|by rewrite length_le_bytes].
  rewrite le_val_le_bytes, Z.mod_small; [done|]. change (256 ^ Z.of_nat 2) with (2 ^ 16). lia.
Qed.

(** ** Searching and removing in a list

    [extract p l] is the first element of [l] that satisfies [p], and [l]
    without it: the loop with [append(l[:i], l[i+1:]...)] of the code. *)
Fixpoint extract {A} (p : A → bool) (l : list A) : option (A * list A) :=
  match l with
  | [] => None
  | x :: l =>
      if p x then Some (x, l)
      else '(y, r) ← extract p l; Some (y, x :: r)
  end.

Fixpoint find_first {A} (p : A → bool) (l : list A) : option A :=
  match l with
  | [] => None
  | x :: l => if p x then Some x else find_first p l
  end.

Lemma extract_Some {A} (p : A → bool) l x r :
  extract p l = Some (x, r) →
  ∃ l1 l2, l = l1 ++ x :: l2 ∧ r = l1 ++ l2 ∧ p x = true ∧ Forall (λ y, p y = false) l1.
Proof.
  revert x r. induction l as [|y l IH]; intros x r; cbn; [done|].
  destruct (p y) eqn:Hy.
  - intros [= <- <-]. exists [], l. by repeat split.
  - destruct (extract p l) as [[z r']|] eqn:E; cbn; [|done].
    intros [= <- <-]. destruct (IH _ _ eq_refl) as (l1 & l2 & -> & -> & ? & ?).
    exists (y :: l1), l2. repeat split; auto.
Qed.

Lemma extract_None {A} (p : A → bool) l :
  extract p l = None ↔ Forall (λ y, p y = false) l.
Proof.
  induction l as [|y l IH]; cbn; [naive_solver|].
  destruct (p y) eqn:Hy.
  - split; [done|]. inversion 1; congruence.
  - rewrite Forall_cons. destruct (extract p l) as [[]|]; cbn; naive_solver.
Qed.

Lemma extract_perm {A} (p : A → bool) l x r :
  extract p l = Some (x, r) → l ≡ₚ x :: r.
Proof.
  intros (l1 & l2 & -> & -> & _)%extract_Some. by rewrite Permutation_middle.
Qed.

Lemma extract_find {A} (p : A → bool) l :
  find_first p l = fst <$> extract p l.
Proof.
  induction l as [|y l IH]; cbn; [done|]. destruct (p y); [done|].
  rewrite IH. by destruct (extract p l) as [[]|].
Qed.

Lemma extract_sublist {A} (p : A → bool) l x r :
  extract p l = Some (x, r) → r `sublist_of` l.
Proof.
  intros (l1 & l2 & -> & -> & _)%extract_Some.
  apply sublist_app; [done|]. by constructor.
Qed.

Lemma find_first_Some {A} (p : A → bool) l x :
  find_first p l = Some x → x ∈ l ∧ p x = true.
Proof.
  induction l as [|y l IH]; cbn; [done|].
  destruct (p y) eqn:Hy; [intros [= <-]; split; [left|done]|].
  intros [? ?]%IH. split; [by right|done].
Qed.

Lemma find_first_None {A} (p : A → bool) l :
  find_first p l = None ↔ Forall (λ y, p y = false) l.
Proof.
  induction l as [|y l IH]; cbn; [naive_solver|].
  rewrite Forall_cons. destruct (p y) eqn:Hy; [split; [done|by intros [? _]]|].
  rewrite IH. tauto.
Qed.

Lemma submseteq_NoDup {A} (l k : list A) : l ⊆+ k → NoDup k → NoDup l.
Proof.
  intros [m Hm]%submseteq_Permutation. rewrite Hm. by intros [? _]%NoDup_app.
Qed.

Lemma submseteq_Forall {A} (P : A → Prop) (l k : list A) : l ⊆+ k → Forall P k → Forall P l.
Proof.
  intros [m Hm]%submseteq_Permutation. rewrite Hm. by intros [? _]%Forall_app.
Qed.

Lemma sublist_Forall {A} (P : A → Prop) (l k : list A) :
  l `sublist_of` k → Forall P k → Forall P l.
Proof. intros ?%sublist_submseteq. by apply submseteq_Forall. Qed.

(** ** Fields of a buffer

    [fld b off n] are the [n] bytes of [b] from [off]. *)
Definition fld (b : bytes) (off n : Z) : bytes := take (Z.to_nat n) (drop (Z.to_nat off) b).

Lemma blit_length off src b : length (blit off src b) = length b.
Proof.
  unfold blit. rewrite !length_app, !length_take, length_drop. lia.
Qed.

Lemma len_blit off src b : len (blit off src b) = len b.
Proof. unfold len. by rewrite blit_length. Qed.

Lemma len_put_u32 off v b : len (put_u32 off v b) = len b.
Proof. apply len_blit. Qed.

Lemma len_put_u16 off v b : len (put_u16 off v b) = len b.
Proof. apply len_blit. Qed.

Lemma blit_lookup off src b (i : nat) :
  0 ≤ off → off + len src ≤ len b →
  blit off src b !! i =
  if decide (Z.to_nat off ≤ i < Z.to_nat off + length src)%nat
  then src !! (i - Z.to_nat off)%nat else b !! i.
Proof.
  intros H0 Hl. unfold len in Hl. unfold blit. case_decide as Hd.
  - rewrite lookup_app_r by (rewrite length_take; lia).
    rewrite length_take, Nat.min_l by lia.
    rewrite take_ge by lia. rewrite lookup_app_l by lia. done.
  - destruct (decide (i < Z.to_nat off)%nat).
    + rewrite lookup_app_l by (rewrite length_take; lia). by apply lookup_take_lt.
    + rewrite lookup_app_r by (rewrite length_take; lia).
      rewrite length_take, Nat.min_l by lia.
      rewrite (take_ge src) by lia. rewrite lookup_app_r by lia.
      rewrite lookup_drop. f_equal. lia.
Qed.

Lemma bytes_ok_blit off src b : bytes_ok src → bytes_ok b → bytes_ok (blit off src b).
Proof.
  intros. unfold blit. apply Forall_app; split; [by apply Forall_take|].
  apply Forall_app; split; [by apply Forall_take|by apply Forall_drop].
Qed.

Lemma bytes_ok_put_u32 off v b : bytes_ok b → bytes_ok (put_u32 off v b).
Proof. apply bytes_ok_blit, bytes_ok_le_bytes. Qed.

Lemma bytes_ok_put_u16 off v b : bytes_ok b → bytes_ok (put_u16 off v b).
Proof. apply bytes_ok_blit, bytes_ok_le_bytes. Qed.

Lemma fld_blit_eq off src b n :
  0 ≤ off → off + len src ≤ len b → n = len src → fld (blit off src b) off n = src.
Proof.
  intros H0 Hl ->. pose proof Hl as Hl'. unfold len in Hl'. apply list_eq. intros i.
  unfold fld. destruct (decide (i < length src)%nat) as [Hi|Hi].
  - rewrite lookup_take_lt by (unfold len; lia). rewrite lookup_drop, blit_lookup by done.
    rewrite decide_True by lia. f_equal. lia.
  - rewrite !lookup_ge_None_2; [done|lia|]. rewrite length_take. unfold len. lia.
Qed.

Lemma fld_blit_ne off src b o n :
  0 ≤ off → off + len src ≤ len b → 0 ≤ o → (o + n ≤ off ∨ off + len src ≤ o) →
  fld (blit off src b) o n = fld b o n.
Proof.
  intros H0 Hl Ho Hd. unfold len in Hd. apply list_eq. intros i. unfold fld.
  destruct (decide (i < Z.to_nat n)%nat).
  - rewrite !lookup_take_lt by done. rewrite !lookup_drop, blit_lookup by done.
    case_decide; [lia|done].
  - rewrite !lookup_take_ge by lia. done.
Qed.

(** A field inside what was written. *)
Lemma fld_blit_in off src b o n :
  0 ≤ off → off + len src ≤ len b → off ≤ o → 0 ≤ n → o + n ≤ off + len src →
  fld (blit off src b) o n = fld src (o - off) n.
Proof.
  intros H0 Hl Ho Hn Hin. unfold len in Hin. apply list_eq. intros i. unfold fld.
  destruct (decide (i < Z.to_nat n)%nat).
  - rewrite !lookup_take_lt by done. rewrite !lookup_drop, blit_lookup by done.
    rewrite decide_True by lia. f_equal. lia.
  - rewrite !lookup_take_ge by lia. done.
Qed.

Lemma fld_put_u32_eq off v b :
  0 ≤ off → off + 4 ≤ len b → fld (put_u32 off v b) off 4 = le_bytes 4 (u32 v).
Proof. intros. apply fld_blit_eq; rewrite ?len_le_bytes; lia. Qed.

Lemma fld_put_u32_ne off v b o n :
  0 ≤ off → off + 4 ≤ len b → 0 ≤ o → (o + n ≤ off ∨ off + 4 ≤ o) →
  fld (put_u32 off v b) o n = fld b o n.
Proof. intros. apply fld_blit_ne; rewrite ?len_le_bytes; lia. Qed.

Lemma fld_app_l a b off n :
  0 ≤ off → 0 ≤ n → off + n ≤ len a → fld (a ++ b) off n = fld a off n.
Proof.
  intros. unfold fld. unfold len in *.
  rewrite drop_app_le by lia. rewrite take_app_le by (rewrite length_drop; lia). done.
Qed.

Lemma fld_all b : fld b 0 (len b) = b.
Proof. unfold fld. cbn. apply take_ge. unfold len. lia. Qed.

Lemma drop_fld b off : 0 ≤ off ≤ len b → drop (Z.to_nat off) b = fld b off (len b - off).
Proof.
  intros. unfold fld. rewrite take_ge; [done|]. rewrite length_drop. unfold len in *. lia.
Qed.

Lemma slice_fld {E} b i j :
  0 ≤ i ≤ j → j ≤ len b → slice (E:=E) b i j = Ok (fld b i (j - i)).
Proof. apply slice_Ok. Qed.

Lemma slice_from_fld {E} b off :
  0 ≤ off ≤ len b → slice_from (E:=E) b off = Ok (fld b off (len b - off)).
Proof. intros. unfold slice_from. by rewrite slice_fld by lia. Qed.

Lemma len_fld b off n : 0 ≤ off → 0 ≤ n → off + n ≤ len b → len (fld b off n) = n.
Proof. intros. unfold fld. rewrite len_take, len_drop. lia. Qed.

Lemma fld_fld b o n o' n' :
  0 ≤ o → 0 ≤ o' → 0 ≤ n' → o' + n' ≤ n → fld (fld b o n) o' n' = fld b (o + o') n'.
Proof.
  intros. unfold fld. rewrite take_drop_commute, take_take, Nat.min_l by lia.
  rewrite <-take_drop_commute, drop_drop. do 2 f_equal. lia.
Qed.

Lemma fld_split b off n m :
  0 ≤ off → 0 ≤ n → 0 ≤ m → fld b off n ++ fld b (off + n) m = fld b off (n + m).
Proof.
  intros. unfold fld. replace (Z.to_nat (off + n)) with (Z.to_nat off + Z.to_nat n)%nat by lia.
  rewrite <-drop_drop, take_take_drop. f_equal. lia.
Qed.

(** [le.Uint32(b[off:])] *)
Definition get_u32 {E} (b : bytes) (off : Z) : go E Z := s ← slice_from b off; le_u32 s.

Lemma get_u32_Ok {E} b off :
  0 ≤ off → off + 4 ≤ len b → get_u32 (E:=E) b off = Ok (le_val (fld b off 4)).
Proof.
  intros. unfold get_u32, slice_from. rewrite slice_Ok by lia. cbn.
  rewrite take_ge by (rewrite length_drop; unfold len; lia).
  unfold le_u32. rewrite bool_decide_eq_false_2 by (rewrite len_drop; lia). done.
Qed.

Lemma safe_get_u32 {E} b off : 0 ≤ off → off + 4 ≤ len b → safe (get_u32 (E:=E) b off).
Proof. intros. by rewrite get_u32_Ok. Qed.

Lemma le_val_u32 v : le_val (le_bytes 4 (u32 v)) = u32 v.
Proof. rewrite le_val_le_bytes. apply Z.mod_mod. lia. Qed.

Lemma u32_small v : 0 ≤ v < 2 ^ 32 → u32 v = v.
Proof. apply Z.mod_small. Qed.

Lemma u8_small v : 0 ≤ v < 256 → u8 v = v.
Proof. apply Z.mod_small. Qed.

Lemma u16_small v : 0 ≤ v < 2 ^ 16 → u16 v = v.
Proof. apply Z.mod_small. Qed.

Lemma u32_range v : 0 ≤ u32 v < 2 ^ 32.
Proof. apply Z.mod_pos_bound. lia. Qed.

(** OR does not leave a width. *)
Lemma lor_range w a b : 0 ≤ w → 0 ≤ a < 2 ^ w → 0 ≤ b < 2 ^ w → 0 ≤ Z.lor a b < 2 ^ w.
Proof.
  intros Hw Ha Hb. assert (E : Z.lor a b = (Z.lor a b) `mod` 2 ^ w).
  { rewrite <-Z.land_ones, Z.land_lor_distr_l, !Z.land_ones by done. by rewrite !Z.mod_small. }
  rewrite E. apply Z.mod_pos_bound. lia.
Qed.

Lemma get_u32_put_eq {E} off v b :
  0 ≤ off → off + 4 ≤ len b → get_u32 (E:=E) (put_u32 off v b) off = Ok (u32 v).
Proof.
  intros. rewrite get_u32_Ok by (rewrite ?len_put_u32; lia).
  by rewrite fld_put_u32_eq, le_val_u32.
Qed.

(** A buffer in memory: its bytes are bytes and its length is an [int]. *)
Definition buf_ok `{IntSize} (b : bytes) : Prop := bytes_ok b ∧ len b ≤ max_int.

#[export] Hint Rewrite @len_blit @len_put_u32 @len_put_u16 @len_le_bytes : len.

(** Lengths are not negative. *)
Ltac pose_len :=
  repeat match goal with
  | |- context [len ?l] =>
      lazymatch goal with
      | _ : 0 ≤ len l |- _ => fail
      | _ => pose proof (len_nonneg l)
      end
  end.

(** Compute the length of a buffer that is built by writes. *)
Ltac len_lia := pose_len; autorewrite with len in *; rewrite ?len_make by lia; lia.

Lemma fld_make m o n : 0 ≤ o → 0 ≤ n → o + n ≤ m → fld (make_bytes m) o n = make_bytes n.
Proof.
  intros. unfold fld, make_bytes. rewrite drop_replicate, take_replicate. f_equal. lia.
Qed.

(** Read a field of a buffer that is built by writes at constant offsets. *)
Ltac read_field :=
  repeat first
    [ rewrite fld_put_u32_eq by len_lia
    | rewrite fld_put_u32_ne by len_lia
    | rewrite fld_blit_eq by len_lia
    | rewrite fld_blit_ne by len_lia
    | rewrite fld_make by len_lia ].

(** Read a 32-bit word of such a buffer. *)
Ltac read_u32 := rewrite get_u32_Ok by len_lia; read_field; rewrite ?le_val_u32.
