(* ===== verification/GoText.v ===== *)
(** * Go strings: the parts of package strings the modelled code uses

    A Go string is a byte sequence, represented here by [string] (a sequence
    of 8-bit characters).  [TrimSpace] removes the UTF-8 encodings of the
    Unicode white-space runes; [ToUpper] has the ASCII fast path of the Go
    library and takes the non-ASCII branch, which needs the Unicode case
    tables, as a parameter. *)

From S2P Require Import Prelude.
From Stdlib Require Import Ascii String.

#[local] Open Scope string_scope.

(** A string of the given byte values. *)
Definition of_codes (l : list nat) : string :=
  string_of_list_ascii (ascii_of_nat <$> l).

(** The UTF-8 encodings of the runes for which [unicode.IsSpace] holds. *)
Definition space_runes : list string :=
  of_codes <$>
  [ [9]; [10]; [11]; [12]; [13]; [32]; [194; 133]; [194; 160];
    [225; 154; 128]; [226; 128; 128]; [226; 128; 129]; [226; 128; 130];
    [226; 128; 131]; [226; 128; 132]; [226; 128; 133]; [226; 128; 134];
    [226; 128; 135]; [226; 128; 136]; [226; 128; 137]; [226; 128; 138];
    [226; 128; 168]; [226; 128; 169]; [226; 128; 175]; [226; 129; 159];
    [227; 128; 128] ]%nat.

(** [strings.CutPrefix] *)
Fixpoint cut_prefix (p s : string) : option string :=
  match p, s with
  | EmptyString, _ => Some s
  | String a p, String b s => if Ascii.eqb a b then cut_prefix p s else None
  | String _ _, EmptyString => None
  end.

Fixpoint first_cut (ps : list string) (s : string) : option string :=
  match ps with
  | [] => None
  | p :: ps => match cut_prefix p s with Some r => Some r | None => first_cut ps s end
  end.

(** Remove white-space runes at the front, at most [fuel] of them; the length
    of the string is enough fuel. *)
Fixpoint trim_front (runes : list string) (fuel : nat) (s : string) : string :=
  match fuel with
  | O => s
  | S fuel =>
      match first_cut runes s with
      | Some r => trim_front runes fuel r
      | None => s
      end
  end.

Fixpoint rev_onto (s acc : string) : string :=
  match s with
  | EmptyString => acc
  | String a s => rev_onto s (String a acc)
  end.

Definition rev_string (s : string) : string := rev_onto s "".

Definition TrimLeftSpace (s : string) : string :=
  trim_front space_runes (String.length s) s.

Definition TrimRightSpace (s : string) : string :=
  rev_string (trim_front (rev_string <$> space_runes) (String.length s) (rev_string s)).

(** [strings.TrimSpace] *)
Definition TrimSpace (s : string) : string := TrimRightSpace (TrimLeftSpace s).

(** [strings.HasPrefix] *)
Definition HasPrefix (s p : string) : bool := String.prefix p s.

Definition is_ascii (s : string) : bool :=
  forallb (λ a, Nat.ltb (nat_of_ascii a) 128) (list_ascii_of_string s).

Definition ascii_upper (a : ascii) : ascii :=
  let n := nat_of_ascii a in
  if Nat.leb 97 n && Nat.leb n 122 then ascii_of_nat (n - 32) else a.

(** [strings.ToUpper]: the ASCII branch of the library, and [unicode_upper]
    for strings with a byte of 128 or more. *)
Definition ToUpper (unicode_upper : string → string) (s : string) : string :=
  if is_ascii s then string_of_list_ascii (ascii_upper <$> list_ascii_of_string s)
  else unicode_upper s.

Definition ascii_lower (a : ascii) : ascii :=
  let n := nat_of_ascii a in
  if Nat.leb 65 n && Nat.leb n 90 then ascii_of_nat (n + 32) else a.

(** [strings.ToLower] *)
Definition ToLower (unicode_lower : string → string) (s : string) : string :=
  if is_ascii s then string_of_list_ascii (ascii_lower <$> list_ascii_of_string s)
  else unicode_lower s.

(** [strings.TrimRight(s, cutset)] for a one-character ASCII cutset. *)
Fixpoint trim_front_char (c : ascii) (s : string) : string :=
  match s with
  | EmptyString => s
  | String a r => if Ascii.eqb a c then trim_front_char c r else s
  end.

Definition TrimRightChar (c : ascii) (s : string) : string :=
  rev_string (trim_front_char c (rev_string s)).

Definition TrimLeftChar (c : ascii) (s : string) : string := trim_front_char c s.

(** [unicode.IsDigit]-free digit test of the code, [c >= '0' && c <= '9']. *)
Definition is_digit (a : ascii) : bool :=
  Nat.leb 48 (nat_of_ascii a) && Nat.leb (nat_of_ascii a) 57.

Definition is_hex_digit (a : ascii) : bool :=
  let n := nat_of_ascii a in
  is_digit a || (Nat.leb 97 n && Nat.leb n 102) || (Nat.leb 65 n && Nat.leb n 70).

Example TrimSpace_ex : TrimSpace "  a b 	" = "a b".
Proof. reflexivity. Qed.

Example ToUpper_ex u : ToUpper u "Qmi" = "QMI".
Proof. reflexivity. Qed.

(** ** Strings and bytes *)

#[local] Open Scope Z_scope.

Definition code (a : ascii) : Z := Z.of_nat (nat_of_ascii a).
Definition char (x : Z) : ascii := ascii_of_nat (Z.to_nat x).

(** [[]byte(s)] and [string(b)] *)
Definition bytes_of (s : string) : bytes := code <$> list_ascii_of_string s.
Definition string_of (b : bytes) : string := string_of_list_ascii (char <$> b).

Lemma code_char x : byte_ok x → code (char x) = x.
Proof.
  intros H. unfold byte_ok in H. unfold code, char. rewrite nat_ascii_embedding by lia. lia.
Qed.

Lemma bytes_of_string_of b : bytes_ok b → bytes_of (string_of b) = b.
Proof.
  intros H. unfold bytes_of, string_of. rewrite list_ascii_of_string_of_list_ascii.
  induction H as [|x b Hx _ IH]; [done|]. cbn. by rewrite code_char, IH.
Qed.

(** Visible ASCII text is not trimmed. *)
Definition visible (a : ascii) : bool := (33 <=? nat_of_ascii a)%nat && (nat_of_ascii a <=? 126)%nat.

Lemma first_cut_visible a s : visible a = true → first_cut space_runes (String a s) = None.
Proof. destruct a as [[] [] [] [] [] [] [] []]; intros H; (discriminate H || reflexivity). Qed.

Lemma first_cut_visible_rev a s :
  visible a = true → first_cut (rev_string <$> space_runes) (String a s) = None.
Proof. destruct a as [[] [] [] [] [] [] [] []]; intros H; (discriminate H || reflexivity). Qed.

Lemma rev_onto_app s : ∀ acc, list_ascii_of_string (rev_onto s acc) =
  (rev (list_ascii_of_string s) ++ list_ascii_of_string acc)%list.
Proof. induction s as [|a s IH]; intros acc; cbn; [done|]. rewrite IH, <-app_assoc. done. Qed.

Lemma rev_string_list s : list_ascii_of_string (rev_string s) = rev (list_ascii_of_string s).
Proof. unfold rev_string. rewrite rev_onto_app. by rewrite app_nil_r. Qed.

Lemma string_ext s t : list_ascii_of_string s = list_ascii_of_string t → s = t.
Proof.
  intros H. by rewrite <-(string_of_list_ascii_of_string s), <-(string_of_list_ascii_of_string t), H.
Qed.

Lemma rev_string_involutive s : rev_string (rev_string s) = s.
Proof. apply string_ext. by rewrite !rev_string_list, rev_involutive. Qed.

Lemma trim_front_id runes n s : first_cut runes s = None → trim_front runes n s = s.
Proof. intros H. destruct n; cbn; by rewrite ?H. Qed.

Lemma TrimSpace_visible s :
  Forall (λ a, visible a = true) (list_ascii_of_string s) → TrimSpace s = s.
Proof.
  intros H. unfold TrimSpace. assert (E : TrimLeftSpace s = s).
  { unfold TrimLeftSpace. destruct s as [|a s]; [done|]. apply trim_front_id, first_cut_visible.
    by inversion H. }
  rewrite E. unfold TrimRightSpace. rewrite trim_front_id; [apply rev_string_involutive|].
  assert (Hr : Forall (λ a, visible a = true) (list_ascii_of_string (rev_string s))).
  { rewrite rev_string_list. by apply Forall_rev. }
  destruct (rev_string s) as [|a t]; [reflexivity|]. apply first_cut_visible_rev. by inversion Hr.
Qed.


(** [strings.Contains] *)
Fixpoint Contains (s sub : string) : bool :=
  String.prefix sub s || match s with EmptyString => false | String _ s => Contains s sub end.

Example Contains_ex : Contains "uim service" "ser" = true ∧ Contains "uim" "uu" = false.
Proof. split; reflexivity. Qed.

(** ** Parts of a string *)

(** [strings.ReplaceAll(s, c, "")] for a character. *)
Fixpoint remove_char (c : ascii) (s : string) : string :=
  match s with
  | EmptyString => EmptyString
  | String a s => if Ascii.eqb a c then remove_char c s else String a (remove_char c s)
  end.

(** [strings.Split] at a character. *)
Fixpoint split_char (c : ascii) (s : string) : list string :=
  match s with
  | EmptyString => [EmptyString]
  | String a s =>
      if Ascii.eqb a c then EmptyString :: split_char c s
      else match split_char c s with
           | f :: l => String a f :: l
           | [] => [String a EmptyString]
           end
  end.

Lemma append_cons a s t : (String a s +:+ t = String a (s +:+ t))%string.
Proof. done. Qed.

Lemma append_nil t : (EmptyString +:+ t = t)%string.
Proof. done. Qed.

Lemma append_nil_r s : (s +:+ EmptyString = s)%string.
Proof. induction s as [|a s IH]; [done|]. by rewrite append_cons, IH. Qed.

Lemma append_assoc s t u : (s +:+ (t +:+ u) = (s +:+ t) +:+ u)%string.
Proof. induction s as [|a s IH]; [done|]. by rewrite !append_cons, IH. Qed.

Definition free_of (c : ascii) (s : string) : Prop := Forall (λ a, a ≠ c) (list_ascii_of_string s).

Lemma ascii_eqb_neq (a b : ascii) : a ≠ b → Ascii.eqb a b = false.
Proof. by intros H%Ascii.eqb_neq. Qed.

Lemma remove_char_app c s t : free_of c s → remove_char c (s +:+ t) = (s +:+ remove_char c t)%string.
Proof.
  induction s as [|a s IH]; intros H; [by rewrite !append_nil|]. apply Forall_cons in H as [Ha H].
  rewrite !append_cons. cbn [remove_char]. by rewrite ascii_eqb_neq, IH by done.
Qed.

Lemma split_char_app c s t : free_of c s → split_char c (s +:+ String c t) = s :: split_char c t.
Proof.
  induction s as [|a s IH]; intros H; [rewrite append_nil; cbn; by rewrite Ascii.eqb_refl|].
  apply Forall_cons in H as [Ha H].
  rewrite !append_cons. cbn [split_char]. by rewrite ascii_eqb_neq, IH by done.
Qed.

(** ** Trimming twice *)

Lemma list_ascii_app s t : list_ascii_of_string (s +:+ t) = (list_ascii_of_string s ++ list_ascii_of_string t)%list.
Proof. induction s as [|a s IH]; [done|]. rewrite append_cons. cbn. by rewrite IH. Qed.

Lemma list_ascii_length s : List.length (list_ascii_of_string s) = String.length s.
Proof. induction s as [|a s IH]; [done|]. cbn. by rewrite IH. Qed.

Lemma cut_prefix_length p s r : cut_prefix p s = Some r → String.length s = (String.length p + String.length r)%nat.
Proof.
  revert s. induction p as [|a p IH]; intros s; cbn; [by intros [= ->]|].
  destruct s as [|b s]; [done|]. destruct (Ascii.eqb a b); [|done]. intros H%IH. cbn. lia.
Qed.

Lemma cut_prefix_app p s t r : cut_prefix p s = Some r → cut_prefix p (s +:+ t) = Some (r +:+ t).
Proof.
  revert s. induction p as [|a p IH]; intros s; cbn; [by intros [= ->]|].
  destruct s as [|b s]; [done|]. rewrite append_cons. destruct (Ascii.eqb a b); [|done]. apply IH.
Qed.

Lemma first_cut_None ps s : first_cut ps s = None ↔ Forall (λ p, cut_prefix p s = None) ps.
Proof.
  induction ps as [|p ps IH]; cbn; [by split|]. destruct (cut_prefix p s) eqn:E; rewrite Forall_cons; [naive_solver|]. rewrite IH. naive_solver.
Qed.

Lemma first_cut_shorter ps s r : Forall (λ p, p ≠ EmptyString) ps → first_cut ps s = Some r → (String.length r < String.length s)%nat.
Proof.
  induction 1 as [|p ps Hp _ IH]; cbn; [done|]. destruct (cut_prefix p s) eqn:E; [|done]. intros [= ->].
  apply cut_prefix_length in E. destruct p; [done|]. cbn in E. lia.
Qed.

Lemma first_cut_app ps s t : first_cut ps (s +:+ t) = None → first_cut ps s = None.
Proof.
  rewrite !first_cut_None. intros Hf. eapply Forall_impl; [exact Hf|]. cbn. intros p H. destruct (cut_prefix p s) eqn:E; [|done].
  by apply (cut_prefix_app _ _ t) in E; congruence.
Qed.

Lemma trim_front_done ps n s : Forall (λ p, p ≠ EmptyString) ps → (String.length s ≤ n)%nat → first_cut ps (trim_front ps n s) = None.
Proof.
  intros Hp. revert s. induction n as [|n IH]; intros s Hn; cbn.
  - destruct s; [|cbn in Hn; lia]. apply first_cut_None. eapply Forall_impl; [exact Hp|]. by intros [].
  - destruct (first_cut ps s) eqn:E; [|done]. apply IH. apply first_cut_shorter in E; [lia|done].
Qed.

Lemma cut_prefix_split p s r : cut_prefix p s = Some r → s = (p +:+ r)%string.
Proof.
  revert s. induction p as [|a p IH]; intros s; cbn; [by intros [= ->]|].
  destruct s as [|b s]; [done|]. destruct (Ascii.eqb a b) eqn:E; [|done]. apply Ascii.eqb_eq in E as ->. intros H%IH. by rewrite append_cons, H.
Qed.

Lemma first_cut_split ps s r : first_cut ps s = Some r → ∃ p, s = (p +:+ r)%string.
Proof.
  induction ps as [|p ps IH]; cbn; [done|]. destruct (cut_prefix p s) eqn:E; [|done].
  intros [= ->]. exists p. by apply cut_prefix_split.
Qed.

Lemma trim_front_suffix ps n s : ∃ t, s = (t +:+ trim_front ps n s)%string.
Proof.
  revert s. induction n as [|n IH]; intros s; cbn; [by exists EmptyString|].
  destruct (first_cut ps s) as [r|] eqn:E; [|by exists EmptyString].
  destruct (first_cut_split _ _ _ E) as [p ->].
  destruct (IH r) as [t Ht]. exists (p +:+ t). by rewrite <-append_assoc, <-Ht.
Qed.

Lemma rev_string_app s t : rev_string (s +:+ t) = (rev_string t +:+ rev_string s)%string.
Proof.
  apply string_ext. by rewrite rev_string_list, !list_ascii_app, !rev_string_list, rev_app_distr.
Qed.

Lemma TrimRight_prefix s : ∃ t, s = (TrimRightSpace s +:+ t)%string.
Proof.
  unfold TrimRightSpace. destruct (trim_front_suffix (rev_string <$> space_runes) (String.length s) (rev_string s)) as [t Ht].
  exists (rev_string t). rewrite <-(rev_string_involutive s) at 1. rewrite Ht at 1. by rewrite rev_string_app.
Qed.

Lemma space_runes_nonempty : Forall (λ p, p ≠ EmptyString) space_runes ∧ Forall (λ p, p ≠ EmptyString) (rev_string <$> space_runes).
Proof. split; repeat constructor; done. Qed.

Lemma rev_string_length s : String.length (rev_string s) = String.length s.
Proof. rewrite <-!list_ascii_length, rev_string_list. by rewrite length_rev. Qed.

(** No white space is left at either end. *)
Lemma TrimSpace_no_space s :
  first_cut space_runes (TrimSpace s) = None ∧ first_cut (rev_string <$> space_runes) (rev_string (TrimSpace s)) = None.
Proof.
  destruct space_runes_nonempty as [H1 H2]. unfold TrimSpace. split.
  - destruct (TrimRight_prefix (TrimLeftSpace s)) as [t Ht]. apply (first_cut_app _ _ t). rewrite <-Ht. by apply trim_front_done.
  - unfold TrimRightSpace. rewrite rev_string_involutive. apply trim_front_done; [done|]. by rewrite rev_string_length.
Qed.

Lemma trim_ends_id s :
  first_cut space_runes s = None → first_cut (rev_string <$> space_runes) (rev_string s) = None → TrimSpace s = s.
Proof.
  intros H1 H2. unfold TrimSpace, TrimLeftSpace. rewrite (trim_front_id space_runes) by done.
  unfold TrimRightSpace. by rewrite trim_front_id, rev_string_involutive.
Qed.

Lemma TrimSpace_idem s : TrimSpace (TrimSpace s) = TrimSpace s.
Proof. destruct (TrimSpace_no_space s). by apply trim_ends_id. Qed.

Lemma free_of_app c s t : free_of c s → free_of c t → free_of c (s +:+ t).
Proof. unfold free_of. rewrite list_ascii_app. intros. by apply Forall_app. Qed.

Lemma HasPrefix_app p t : HasPrefix (p +:+ t) p = true.
Proof.
  unfold HasPrefix. induction p as [|a p IH]; [by destruct t|]. rewrite append_cons. cbn. by destruct (ascii_dec a a).
Qed.
