(* ===== verification/GoUnicode.v ===== *)
(** * UTF-8 and UTF-16 as the Go library implements them

    Conversions the code uses on text: [[]rune(s)] and [string(runes)] of the
    language, [utf16.Encode] and [utf16.Decode] of unicode/utf16.  A Go string
    is the list of its bytes. *)

From S2P Require Import Prelude.

#[local] Open Scope Z_scope.

Definition RuneError : Z := 0xFFFD.

(** A Unicode scalar value. *)
Definition scalar (r : Z) : bool :=
  bool_decide (0 ≤ r < 0xD800 ∨ 0xE000 ≤ r ≤ 0x10FFFF).

Definition cont_byte (b : Z) : bool := bool_decide (0x80 ≤ b ≤ 0xBF).

(** ** UTF-8 *)

Definition utf8_rune (r : Z) : bytes :=
  let r := if scalar r then r else RuneError in
  if bool_decide (r < 0x80) then [r]
  else if bool_decide (r < 0x800) then [0xC0 + r / 64; 0x80 + r `mod` 64]
  else if bool_decide (r < 0x10000) then
    [0xE0 + r / 4096; 0x80 + (r / 64) `mod` 64; 0x80 + r `mod` 64]
  else [0xF0 + r / 262144; 0x80 + (r / 4096) `mod` 64; 0x80 + (r / 64) `mod` 64; 0x80 + r `mod` 64].

(** [string(runes)] *)
Definition utf8_encode (rs : list Z) : bytes := concat (utf8_rune <$> rs).

Definition rune2 (a b : Z) : Z := (a - 0xC0) * 64 + (b - 0x80).
Definition rune3 (a b c : Z) : Z := (a - 0xE0) * 4096 + (b - 0x80) * 64 + (c - 0x80).
Definition rune4 (a b c d : Z) : Z :=
  (a - 0xF0) * 262144 + (b - 0x80) * 4096 + (c - 0x80) * 64 + (d - 0x80).

Definition ok2 (a b : Z) : bool := bool_decide (0xC2 ≤ a ≤ 0xDF) && cont_byte b.
Definition ok3 (a b c : Z) : bool :=
  bool_decide (0xE0 ≤ a ≤ 0xEF) && cont_byte b && cont_byte c &&
  bool_decide ((a = 0xE0 → 0xA0 ≤ b) ∧ (a = 0xED → b ≤ 0x9F)).
Definition ok4 (a b c d : Z) : bool :=
  bool_decide (0xF0 ≤ a ≤ 0xF4) && cont_byte b && cont_byte c && cont_byte d &&
  bool_decide ((a = 0xF0 → 0x90 ≤ b) ∧ (a = 0xF4 → b ≤ 0x8F)).

(** [[]rune(s)]: an invalid byte gives one replacement rune. *)
Fixpoint runes (s : bytes) : list Z :=
  match s with
  | [] => []
  | a :: s1 =>
      if bool_decide (a < 0x80) then a :: runes s1
      else match s1 with
      | [] => [RuneError]
      | b :: s2 =>
          if ok2 a b then rune2 a b :: runes s2
          else match s2 with
          | [] => RuneError :: runes s1
          | c :: s3 =>
              if ok3 a b c then rune3 a b c :: runes s3
              else match s3 with
              | [] => RuneError :: runes s1
              | d :: s4 =>
                  if ok4 a b c d then rune4 a b c d :: runes s4 else RuneError :: runes s1
              end
          end
      end
  end.

(** ** UTF-16 *)

Definition utf16_rune (r : Z) : list Z :=
  if bool_decide (0 ≤ r < 0xD800 ∨ 0xE000 ≤ r < 0x10000) then [r]
  else if bool_decide (0x10000 ≤ r ≤ 0x10FFFF) then
    [0xD800 + (r - 0x10000) / 1024; 0xDC00 + (r - 0x10000) `mod` 1024]
  else [RuneError].

(** [utf16.Encode] *)
Definition utf16_encode (rs : list Z) : list Z := concat (utf16_rune <$> rs).

(** [utf16.Decode] *)
Fixpoint utf16_decode (us : list Z) : list Z :=
  match us with
  | [] => []
  | u :: us1 =>
      if bool_decide (u < 0xD800 ∨ 0xE000 ≤ u) then u :: utf16_decode us1
      else match us1 with
      | v :: us2 =>
          if bool_decide (u < 0xDC00 ∧ 0xDC00 ≤ v < 0xE000)
          then (u - 0xD800) * 1024 + (v - 0xDC00) + 0x10000 :: utf16_decode us2
          else RuneError :: utf16_decode us1
      | [] => [RuneError]
      end
  end.

(** ** Round trips *)

Lemma scalar_spec r : scalar r = true ↔ 0 ≤ r < 0xD800 ∨ 0xE000 ≤ r ≤ 0x10FFFF.
Proof. apply bool_decide_eq_true. Qed.

Lemma utf16_decode_rune r rest :
  scalar r = true → utf16_decode (utf16_rune r ++ rest) = r :: utf16_decode rest.
Proof.
  intros Hr%scalar_spec. unfold utf16_rune.
  destruct (decide (r < 0x10000)).
  - bsolve. cbn. by bsolve.
  - bsolve. cbn [app utf16_decode].
    assert (0 ≤ (r - 65536) / 1024 < 1024) by zdiv.
    assert (0 ≤ (r - 65536) `mod` 1024 < 1024) by zdiv.
    bsolve. f_equal. zdiv.
Qed.

Lemma utf16_roundtrip rs :
  Forall (λ r, scalar r = true) rs → utf16_decode (utf16_encode rs) = rs.
Proof.
  induction 1 as [|r rs Hr _ IH]; [done|]. unfold utf16_encode in *. cbn [fmap list_fmap concat].
  by rewrite utf16_decode_rune, IH.
Qed.

Lemma utf16_encode_range rs : Forall (λ u, 0 ≤ u < 2 ^ 16) (utf16_encode rs).
Proof.
  induction rs as [|r rs IH]; [constructor|]. unfold utf16_encode in *. cbn.
  apply Forall_app. split; [|done]. unfold utf16_rune, RuneError.
  case_bool_decide; [repeat constructor; lia|].
  case_bool_decide; repeat constructor; try lia; zdiv.
Qed.

Lemma runes_rune r rest : scalar r = true → runes (utf8_rune r ++ rest) = r :: runes rest.
Proof.
  intros Hs. pose proof Hs as Hr. apply scalar_spec in Hr. unfold utf8_rune. rewrite Hs.
  destruct (decide (r < 0x80)); [bsolve; cbn; by bsolve|].
  destruct (decide (r < 0x800)).
  { bsolve. cbn [app runes]. assert (2 ≤ r / 64 < 32) by zdiv.
    assert (0 ≤ r `mod` 64 < 64) by zdiv. bsolve.
    unfold ok2, cont_byte. bsolve. cbn. f_equal. unfold rune2. zdiv. }
  destruct (decide (r < 0x10000)).
  { bsolve. cbn [app runes]. assert (0 ≤ r / 4096 < 16) by zdiv.
    assert (0 ≤ (r / 64) `mod` 64 < 64) by zdiv. assert (0 ≤ r `mod` 64 < 64) by zdiv.
    assert (r / 4096 = 0 → 32 ≤ (r / 64) `mod` 64) by zdiv.
    assert (r / 4096 = 13 → (r / 64) `mod` 64 < 32) by zdiv. bsolve.
    unfold ok2, ok3, cont_byte. bsolve. cbn. f_equal. unfold rune3. zdiv. }
  bsolve. cbn [app runes]. assert (0 ≤ r / 262144 < 5) by zdiv.
  assert (0 ≤ (r / 4096) `mod` 64 < 64) by zdiv.
  assert (0 ≤ (r / 64) `mod` 64 < 64) by zdiv. assert (0 ≤ r `mod` 64 < 64) by zdiv.
  assert (r / 262144 = 0 → 16 ≤ (r / 4096) `mod` 64) by zdiv.
  assert (r / 262144 = 4 → (r / 4096) `mod` 64 < 16) by zdiv. bsolve.
  unfold ok2, ok3, ok4, cont_byte. bsolve. cbn. f_equal. unfold rune4. zdiv.
Qed.

Lemma runes_encode rs : Forall (λ r, scalar r = true) rs → runes (utf8_encode rs) = rs.
Proof.
  induction 1 as [|r rs Hr _ IH]; [done|]. unfold utf8_encode in *. cbn [fmap list_fmap concat].
  by rewrite runes_rune, IH.
Qed.

Lemma scalar_RuneError : scalar RuneError = true.
Proof. reflexivity. Qed.

Lemma scalar2 a b : ok2 a b = true → scalar (rune2 a b) = true.
Proof.
  unfold ok2, cont_byte, rune2. rewrite !andb_true_iff, !bool_decide_eq_true, scalar_spec. lia.
Qed.

Lemma scalar3 a b c : ok3 a b c = true → scalar (rune3 a b c) = true.
Proof.
  unfold ok3, cont_byte, rune3. rewrite !andb_true_iff, !bool_decide_eq_true, scalar_spec. lia.
Qed.

Lemma scalar4 a b c d : ok4 a b c d = true → scalar (rune4 a b c d) = true.
Proof.
  unfold ok4, cont_byte, rune4. rewrite !andb_true_iff, !bool_decide_eq_true, scalar_spec. lia.
Qed.

Lemma runes_scalar s : bytes_ok s → Forall (λ r, scalar r = true) (runes s).
Proof.
  induction s as [s IH] using (induction_ltof1 _ length). unfold ltof in IH. intros Hs.
  destruct s as [|a s1]; [constructor|]. cbn [runes]. apply Forall_cons in Hs as [Ha Hs].
  unfold byte_ok in Ha.
  case_bool_decide.
  { constructor; [apply scalar_spec; lia|]. apply IH; [cbn; lia|done]. }
  destruct s1 as [|b s2]; [by constructor|]. pose proof Hs as Hs1.
  apply Forall_cons in Hs as [Hb Hs].
  destruct (ok2 a b) eqn:E2. { constructor; [by apply scalar2|]. apply IH; [cbn; lia|done]. }
  assert (Hbad : Forall (λ r, scalar r = true) (RuneError :: runes (b :: s2)))
    by (constructor; [done|]; apply IH; [cbn; lia|done]).
  destruct s2 as [|c s3]; [done|]. apply Forall_cons in Hs as [Hc Hs].
  destruct (ok3 a b c) eqn:E3. { constructor; [by apply scalar3|]. apply IH; [cbn; lia|done]. }
  destruct s3 as [|d s4]; [done|]. apply Forall_cons in Hs as [Hd Hs].
  destruct (ok4 a b c d) eqn:E4; [|done].
  constructor; [by apply scalar4|]. apply IH; [cbn; lia|done].
Qed.

(** The text of [s], its invalid bytes replaced. *)
Definition to_valid (s : bytes) : bytes := utf8_encode (runes s).

Lemma utf16_text s :
  bytes_ok s → utf8_encode (utf16_decode (utf16_encode (runes s))) = to_valid s.
Proof. intros. by rewrite utf16_roundtrip by by apply runes_scalar. Qed.

Lemma runes_ascii s : Forall (λ b, 0 ≤ b < 0x80) s → runes s = s.
Proof.
  induction 1 as [|b s Hb _ IH]; [done|]. cbn [runes].
  rewrite bool_decide_eq_true_2 by lia. by rewrite IH.
Qed.

Lemma to_valid_ascii s : Forall (λ b, 0 ≤ b < 0x80) s → to_valid s = s.
Proof.
  intros Hs. unfold to_valid. rewrite runes_ascii by done. unfold utf8_encode.
  induction Hs as [|b s Hb _ IH]; [done|]. cbn [fmap list_fmap concat]. rewrite IH.
  unfold utf8_rune. rewrite (proj2 (scalar_spec b)) by lia.
  by rewrite bool_decide_eq_true_2 by lia.
Qed.

Example utf16_ex : utf16_encode (runes [0xF0; 0x9F; 0x98; 0x80; 0xFF; 65]) = [0xD83D; 0xDE00; 0xFFFD; 65].
Proof. reflexivity. Qed.
