(* ===== verification/GoNet.v ===== *)
(** * Text forms of the Go library: decimal, hexadecimal and net.IP

    [net.IP.String] prints an IPv4 address in dotted form and an IPv6 address
    in the canonical form that elides the first longest run of zero groups. *)

From S2P Require Import Prelude.

#[local] Open Scope Z_scope.

Definition hex_digit (d : Z) : Z := if bool_decide (d < 10) then 48 + d else 87 + d.

(** Digits in base [b], most significant first, without leading zeros. *)
Fixpoint digits_acc (fuel : nat) (b n : Z) (acc : bytes) : bytes :=
  match fuel with
  | O => acc
  | S fuel =>
      let acc := hex_digit (n `mod` b) :: acc in
      if bool_decide (n < b) then acc else digits_acc fuel b (n / b) acc
  end.

(** Twenty digits are enough for a 64-bit number in base ten. *)
Definition dec_string (n : Z) : bytes := digits_acc 20 10 n [].
Definition hex_string (n : Z) : bytes := digits_acc 16 16 n [].

(** [hex.EncodeToString] *)
Definition hex_encode (b : bytes) : bytes :=
  concat ((λ x, [hex_digit (x / 16); hex_digit (x `mod` 16)]) <$> b).

Fixpoint join (sep : bytes) (l : list bytes) : bytes :=
  match l with
  | [] => []
  | [x] => x
  | x :: l => x ++ sep ++ join sep l
  end.

(** Zero groups from position [i]. *)
Fixpoint zero_run (gs : list Z) : Z :=
  match gs with
  | g :: gs => if bool_decide (g = 0) then 1 + zero_run gs else 0
  | [] => 0
  end.

(** The first longest run of at least two zero groups, as start and length. *)
Fixpoint longest_run (gs : list Z) (i start best : Z) : Z * Z :=
  match gs with
  | [] => (start, best)
  | _ :: gs' =>
      let l := zero_run gs in
      if bool_decide (2 ≤ l ∧ best < l) then longest_run gs' (i + 1) i l
      else longest_run gs' (i + 1) start best
  end.

Fixpoint groups (b : bytes) : list Z :=
  match b with
  | x :: y :: b => x * 256 + y :: groups b
  | _ => []
  end.

Definition ipv6_string (b : bytes) : bytes :=
  let gs := groups b in
  let '(start, l) := longest_run gs 0 255 0 in
  if bool_decide (l = 0) then join [58] (hex_string <$> gs)
  else
    join [58] (hex_string <$> take (Z.to_nat start) gs) ++ [58; 58] ++
    join [58] (hex_string <$> drop (Z.to_nat (start + l)) gs).

Definition ipv4_string (b : bytes) : bytes := join [46] (dec_string <$> b).

(** [ip.To4()] on a 16-byte address. *)
Definition to4 (b : bytes) : option bytes :=
  if bool_decide (len b = 4) then Some b
  else if bool_decide (len b = 16 ∧ take 12 b = replicate 10 0 ++ [0xFF; 0xFF])
  then Some (drop 12 b) else None.

(** [net.IP(b).String()] *)
Definition ip_string (b : bytes) : bytes :=
  if bool_decide (len b = 0) then [60; 110; 105; 108; 62]
  else match to4 b with
  | Some b4 => ipv4_string b4
  | None => if bool_decide (len b = 16) then ipv6_string b else 63 :: hex_encode b
  end.

Example ip4_ex : ip_string [10; 0; 0; 255] = [49; 48; 46; 48; 46; 48; 46; 50; 53; 53].
Proof. reflexivity. Qed.

Example ip6_ex : ip_string [0x20; 0x01; 0x0d; 0xb8; 0; 0; 0; 0; 0; 0; 0; 0; 0; 0; 0; 1] =
  [50; 48; 48; 49; 58; 100; 98; 56; 58; 58; 49].
Proof. reflexivity. Qed.

Example ip6_zero : ip_string (replicate 16 0) = [58; 58].
Proof. reflexivity. Qed.
