(* ===== verification/Arbiter.v ===== *)
(** * The APDU arbiter (internal/apduarbiter/arbiter.go)

    The arbiter serialises the APDU exchanges of one device: callers queue
    tickets and are granted session, one-shot or transport leases, or
    barriers that keep classes of traffic out. *)

From S2P Require Import Prelude GoText.
From stdpp Require Import strings gmap sorting.

#[local] Open Scope Z_scope.

Inductive LeaseType := LeaseTypeSession | LeaseTypeOneShot | LeaseTypeTransport | LeaseTypeBarrier.
Inductive waitKind := waitKindLease | waitKindBarrier.

#[global] Instance LeaseType_eq_dec : EqDecision LeaseType.
Proof. solve_decision. Defined.
#[global] Instance waitKind_eq_dec : EqDecision waitKind.
Proof. solve_decision. Defined.

Definition TransportScopeExclusive : string := "exclusive".
Definition TransportScopeQMIChannel : string := "qmi_channel".

Definition APDUClassEUICCWrite : string := "EUICCWrite".
Definition APDUClassEUICCRead : string := "EUICCRead".
Definition APDUClassUSIMAKA : string := "USIMAKA".
Definition APDUClassSMSC : string := "SMSC".
Definition APDUClassSwitchBarrier : string := "SwitchBarrier".
Definition APDUClassRecovery : string := "Recovery".

(** Durations and instants are nanoseconds. *)
Definition Millisecond : Z := 1000000.
Definition Minute : Z := 60 * 1000 * Millisecond.
Definition transportPriorityAging : Z := 500 * Millisecond.

Record Options := mkOptions {
  MaxLeaseHold : Z;
  MaxSessions : Z;
  MaxQMITransports : Z;
}.

Record Request := mkRequest {
  rOwner : string;
  rMode : string;
  rClass : string;
  rChannel : Z;
  rScope : string;
}.

Record waitTicket := mkTicket {
  t_id : Z;
  t_owner : string;
  t_mode : string;
  t_class : string;
  t_channel : Z;
  t_scope : string;
  t_leaseType : LeaseType;
  t_kind : waitKind;
  t_blocked : gset string;
  t_enqueued : Z;
}.

(** [al_timer] is the instant the pending [time.AfterFunc] timer fires. *)
Record activeLease := mkActive {
  al_ticket : waitTicket;
  al_acquiredAt : Z;
  al_expiresAt : Z;
  al_timer : option Z;
}.

Record activeBarrier := mkBarrier {
  ab_ticket : waitTicket;
  ab_acquiredAt : Z;
}.

(** [notifyGen] counts the channels [notifyC] has been replaced by: a waiter
    that saw generation [g] is woken when the generation is no longer [g]. *)
Record Arbiter := mkArbiter {
  a_seq : Z;
  opts : Options;
  queue : list waitTicket;
  activeSessions : list activeLease;
  activeOneshot : option activeLease;
  activeTransports : list activeLease;
  activeBarriers : list activeBarrier;
  notifyGen : Z;
  waitRequests : Z;
  acquires : Z;
  waitTimeouts : Z;
  forcedReleases : Z;
}.

Definition al_id (l : activeLease) : Z := t_id (al_ticket l).
Definition al_class (l : activeLease) : string := t_class (al_ticket l).
Definition al_channel (l : activeLease) : Z := t_channel (al_ticket l).
Definition ab_id (b : activeBarrier) : Z := t_id (ab_ticket b).
Definition ab_blocked (b : activeBarrier) : gset string := t_blocked (ab_ticket b).

Definition New (o : Options) : Arbiter :=
  let o := mkOptions
    (if MaxLeaseHold o <=? 0 then 2 * Minute else MaxLeaseHold o)
    (if MaxSessions o <=? 0 then 1 else MaxSessions o)
    (if MaxQMITransports o <=? 0 then 1 else MaxQMITransports o) in
  mkArbiter 0 o [] [] None [] [] 0 0 0 0 0.

(** ** Request normalisation *)

Section Normalize.
(** The case mapping of non-ASCII strings, from the Unicode tables. *)
Context (unicode_upper : string → string).

Definition normalizeOwner (owner : string) : string :=
  let owner := TrimSpace owner in
  if bool_decide (owner = EmptyString) then "unknown" else owner.

Definition normalizeMode (mode : string) : string :=
  let mode := ToUpper unicode_upper (TrimSpace mode) in
  if bool_decide (mode = EmptyString) then "UNKNOWN" else mode.

Definition normalizeClass (class : string) (lt : LeaseType) : string :=
  if bool_decide (class ≠ EmptyString) then class
  else match lt with
       | LeaseTypeTransport => APDUClassEUICCWrite
       | LeaseTypeOneShot => APDUClassUSIMAKA
       | _ => APDUClassEUICCWrite
       end.

Definition normalizeTransportScope (scope mode : string) (channel : Z) (lt : LeaseType) : string :=
  if bool_decide (lt ≠ LeaseTypeTransport) then TransportScopeExclusive
  else if bool_decide (scope = TransportScopeQMIChannel ∧ mode = "QMI"%string ∧ channel > 0)
  then TransportScopeQMIChannel
  else TransportScopeExclusive.

Definition normalizeRequest (req : Request) (lt : LeaseType) : Request :=
  let owner := normalizeOwner (rOwner req) in
  let mode := normalizeMode (rMode req) in
  let class := normalizeClass (rClass req) lt in
  mkRequest owner mode class (rChannel req)
    (normalizeTransportScope (rScope req) mode (rChannel req) lt).

(** The ticket [acquire] draws, before the arbiter is locked. *)
Definition lease_ticket (now : Z) (req : Request) (lt : LeaseType) (id : Z) : waitTicket :=
  let req := normalizeRequest req lt in
  mkTicket id (rOwner req) (rMode req) (rClass req) (rChannel req) (rScope req)
    lt waitKindLease ∅ now.

(** [AcquireTransport] normalises before [acquire] does it again. *)
Definition AcquireTransport_ticket (now : Z) (req : Request) (id : Z) : waitTicket :=
  lease_ticket now (normalizeRequest req LeaseTypeTransport) LeaseTypeTransport id.

Definition AcquireSession_ticket (now : Z) (owner mode : string) (id : Z) : waitTicket :=
  lease_ticket now (mkRequest owner mode "" 0 "") LeaseTypeSession id.

Definition AcquireOneShot_ticket (now : Z) (owner mode : string) (id : Z) : waitTicket :=
  lease_ticket now (mkRequest owner mode "" 0 "") LeaseTypeOneShot id.

(** The blocked classes of a barrier policy. *)
Definition barrier_blocked (policy : list string) : gset string :=
  let blocked : gset string :=
    list_to_set (filter (λ c, c ≠ EmptyString)
                   ((λ c, normalizeClass c LeaseTypeOneShot) <$> policy)) in
  if bool_decide (size blocked = 0%nat) then {[APDUClassUSIMAKA; APDUClassSMSC]} else blocked.

(** The ticket [BeginBarrier] draws. *)
Definition barrier_ticket (now : Z) (req : Request) (policy : list string) (id : Z) : waitTicket :=
  mkTicket id (normalizeOwner (rOwner req)) (normalizeMode (rMode req))
    (if bool_decide (rClass req = EmptyString) then APDUClassSwitchBarrier else rClass req)
    (rChannel req) TransportScopeExclusive LeaseTypeBarrier waitKindBarrier
    (barrier_blocked policy) now.
End Normalize.

(** ** Predicates on the locked arbiter *)

Definition hasActiveTransportLocked (a : Arbiter) : bool :=
  bool_decide (0 < len (activeTransports a)).

Definition is_qmi (l : activeLease) : bool :=
  bool_decide (t_scope (al_ticket l) = TransportScopeQMIChannel).

Definition hasActiveExclusiveTransportLocked (a : Arbiter) : bool :=
  existsb (λ l, negb (is_qmi l)) (activeTransports a).

Definition activeQMITransportCountLocked (a : Arbiter) : Z :=
  len (List.filter is_qmi (activeTransports a)).

Definition hasActiveTransportOnChannelLocked (a : Arbiter) (channel : Z) : bool :=
  existsb (λ l, is_qmi l && (al_channel l =? channel)) (activeTransports a).

Definition isBlockedByActiveBarrierLocked (a : Arbiter) (class : string) : bool :=
  existsb (λ b, bool_decide (class ∈ ab_blocked b)) (activeBarriers a).

Definition queueHeadIsLocked (a : Arbiter) (id : Z) : bool :=
  match queue a with t :: _ => t_id t =? id | [] => false end.

Fixpoint pending_barrier_ahead (q : list waitTicket) (ticket : waitTicket) : bool :=
  match q with
  | [] => false
  | queued :: q =>
      if t_id queued =? t_id ticket then false
      else if bool_decide (t_kind queued ≠ waitKindBarrier) then pending_barrier_ahead q ticket
      else if bool_decide (t_class ticket ∈ t_blocked queued) then true
      else pending_barrier_ahead q ticket
  end.

Definition hasPendingBarrierAheadLocked (a : Arbiter) (ticket : waitTicket) : bool :=
  pending_barrier_ahead (queue a) ticket.

Definition canAcquireTransportNowLocked (a : Arbiter) (ticket : waitTicket) : bool :=
  if bool_decide (t_leaseType ticket ≠ LeaseTypeTransport) then false
  else if bool_decide (t_scope ticket ≠ TransportScopeQMIChannel)
  then negb (hasActiveTransportLocked a)
  else if hasActiveExclusiveTransportLocked a then false
  else if activeQMITransportCountLocked a >=? MaxQMITransports (opts a) then false
  else negb (hasActiveTransportOnChannelLocked a (t_channel ticket)).

Definition transportWaitGatesQueueLocked (a : Arbiter) (ticket : waitTicket) : bool :=
  if bool_decide (t_leaseType ticket ≠ LeaseTypeTransport) then true
  else if bool_decide (t_scope ticket ≠ TransportScopeQMIChannel) then true
  else hasActiveExclusiveTransportLocked a
       || (activeQMITransportCountLocked a >=? MaxQMITransports (opts a)).

(** The loop of [selectedTransportLocked], with its three candidates. *)
Fixpoint select_loop (a : Arbiter) (now : Z) (q : list waitTicket)
    (oldestEligible oldestAgedNonAKA oldestAKA : option waitTicket)
    : option waitTicket * option waitTicket * option waitTicket :=
  match q with
  | [] => (oldestEligible, oldestAgedNonAKA, oldestAKA)
  | ticket :: q =>
      if bool_decide (t_kind ticket = waitKindBarrier)
      then (oldestEligible, oldestAgedNonAKA, oldestAKA)
      else if bool_decide (t_leaseType ticket ≠ LeaseTypeTransport)
      then (oldestEligible, oldestAgedNonAKA, oldestAKA)
      else if isBlockedByActiveBarrierLocked a (t_class ticket)
      then select_loop a now q oldestEligible oldestAgedNonAKA oldestAKA
      else if negb (canAcquireTransportNowLocked a ticket) then
        if transportWaitGatesQueueLocked a ticket
        then (oldestEligible, oldestAgedNonAKA, oldestAKA)
        else select_loop a now q oldestEligible oldestAgedNonAKA oldestAKA
      else
        let oldestEligible :=
          match oldestEligible with None => Some ticket | Some _ => oldestEligible end in
        if bool_decide (t_class ticket = APDUClassUSIMAKA) then
          select_loop a now q oldestEligible oldestAgedNonAKA
            (match oldestAKA with None => Some ticket | Some _ => oldestAKA end)
        else
          select_loop a now q oldestEligible
            (match oldestAgedNonAKA with
             | None => if now - t_enqueued ticket >=? transportPriorityAging
                       then Some ticket else None
             | Some _ => oldestAgedNonAKA
             end) oldestAKA
  end.

(** The ticket [selectedTransportLocked] chooses; the code returns its id, or
    0 when there is none. *)
Definition selected_transport (a : Arbiter) (now : Z) : option waitTicket :=
  match select_loop a now (queue a) None None None with
  | (_, Some t, _) => Some t
  | (_, None, Some t) => Some t
  | (Some t, None, None) => Some t
  | (None, None, None) => None
  end.

Definition selectedTransportLocked (a : Arbiter) (now : Z) : Z :=
  match selected_transport a now with Some t => t_id t | None => 0 end.

Definition selectedBarrierLocked (a : Arbiter) : Z :=
  match find_first (λ t, bool_decide (t_kind t = waitKindBarrier)) (queue a) with
  | Some t => t_id t
  | None => 0
  end.

Definition canAcquireLeaseLocked (a : Arbiter) (now : Z) (ticket : waitTicket) : bool :=
  if bool_decide (t_kind ticket ≠ waitKindLease) then false
  else if isBlockedByActiveBarrierLocked a (t_class ticket) then false
  else if hasPendingBarrierAheadLocked a ticket then false
  else match t_leaseType ticket with
       | LeaseTypeSession =>
           queueHeadIsLocked a (t_id ticket) && bool_decide (activeOneshot a = None)
           && negb (hasActiveTransportLocked a)
           && (len (activeSessions a) <? MaxSessions (opts a))
       | LeaseTypeOneShot =>
           queueHeadIsLocked a (t_id ticket) && (len (activeSessions a) =? 0)
           && bool_decide (activeOneshot a = None) && negb (hasActiveTransportLocked a)
       | LeaseTypeTransport =>
           if (len (activeSessions a) >? 0) || bool_decide (activeOneshot a ≠ None) then false
           else selectedTransportLocked a now =? t_id ticket
       | LeaseTypeBarrier => false
       end.

Definition canAcquireBarrierLocked (a : Arbiter) (ticket : waitTicket) : bool :=
  if bool_decide (t_kind ticket ≠ waitKindBarrier) then false
  else if hasActiveTransportLocked a || (len (activeSessions a) >? 0)
          || bool_decide (activeOneshot a ≠ None) then false
  else selectedBarrierLocked a =? t_id ticket.

Definition isIdleLocked (a : Arbiter) : bool :=
  bool_decide (activeOneshot a = None) && (len (activeTransports a) =? 0)
  && (len (activeSessions a) =? 0) && (len (activeBarriers a) =? 0)
  && (len (queue a) =? 0).

(** ** Updates under the lock *)

Definition with_queue (q : list waitTicket) (a : Arbiter) : Arbiter :=
  mkArbiter (a_seq a) (opts a) q (activeSessions a) (activeOneshot a) (activeTransports a)
    (activeBarriers a) (notifyGen a) (waitRequests a) (acquires a) (waitTimeouts a)
    (forcedReleases a).
Definition with_active (s : list activeLease) (o : option activeLease)
    (t : list activeLease) (a : Arbiter) : Arbiter :=
  mkArbiter (a_seq a) (opts a) (queue a) s o t
    (activeBarriers a) (notifyGen a) (waitRequests a) (acquires a) (waitTimeouts a)
    (forcedReleases a).
Definition with_barriers (b : list activeBarrier) (a : Arbiter) : Arbiter :=
  mkArbiter (a_seq a) (opts a) (queue a) (activeSessions a) (activeOneshot a)
    (activeTransports a) b (notifyGen a) (waitRequests a) (acquires a) (waitTimeouts a)
    (forcedReleases a).
Definition with_seq (s : Z) (a : Arbiter) : Arbiter :=
  mkArbiter s (opts a) (queue a) (activeSessions a) (activeOneshot a)
    (activeTransports a) (activeBarriers a) (notifyGen a) (waitRequests a) (acquires a)
    (waitTimeouts a) (forcedReleases a).
Definition with_counters (w g t f : Z) (a : Arbiter) : Arbiter :=
  mkArbiter (a_seq a) (opts a) (queue a) (activeSessions a) (activeOneshot a)
    (activeTransports a) (activeBarriers a) (notifyGen a) w g t f.

Definition signalLocked (a : Arbiter) : Arbiter :=
  mkArbiter (a_seq a) (opts a) (queue a) (activeSessions a) (activeOneshot a)
    (activeTransports a) (activeBarriers a) (notifyGen a + 1) (waitRequests a)
    (acquires a) (waitTimeouts a) (forcedReleases a).

Definition count_wait (a : Arbiter) : Arbiter :=
  with_counters (waitRequests a + 1) (acquires a) (waitTimeouts a) (forcedReleases a) a.
Definition count_acquire (a : Arbiter) : Arbiter :=
  with_counters (waitRequests a) (acquires a + 1) (waitTimeouts a) (forcedReleases a) a.
Definition count_timeout (a : Arbiter) : Arbiter :=
  with_counters (waitRequests a) (acquires a) (waitTimeouts a + 1) (forcedReleases a) a.
Definition count_forced (a : Arbiter) : Arbiter :=
  with_counters (waitRequests a) (acquires a) (waitTimeouts a) (forcedReleases a + 1) a.

(** [removeTicketLocked]: the new state, or [None] when the ticket is gone. *)
Definition removeTicketLocked (id : Z) (a : Arbiter) : option Arbiter :=
  '(_, q) ← extract (λ t, t_id t =? id) (queue a);
  Some (with_queue q a).

(** The state after the removal, whether or not the ticket was there. *)
Definition remove_ticket (id : Z) (a : Arbiter) : Arbiter :=
  default a (removeTicketLocked id a).

Definition addActiveLocked (l : activeLease) (a : Arbiter) : Arbiter :=
  match t_leaseType (al_ticket l) with
  | LeaseTypeSession =>
      with_active (activeSessions a ++ [l]) (activeOneshot a) (activeTransports a) a
  | LeaseTypeOneShot =>
      with_active (activeSessions a) (Some l) (activeTransports a) a
  | LeaseTypeTransport =>
      with_active (activeSessions a) (activeOneshot a) (activeTransports a ++ [l]) a
  | LeaseTypeBarrier => a
  end.

Definition findActiveLocked (id : Z) (lt : LeaseType) (a : Arbiter) : option activeLease :=
  match lt with
  | LeaseTypeSession => find_first (λ l, al_id l =? id) (activeSessions a)
  | LeaseTypeOneShot =>
      match activeOneshot a with
      | Some l => if al_id l =? id then Some l else None
      | None => None
      end
  | LeaseTypeTransport => find_first (λ l, al_id l =? id) (activeTransports a)
  | LeaseTypeBarrier => None
  end.

Definition removeActiveLocked (id : Z) (lt : LeaseType) (a : Arbiter)
    : option (activeLease * Arbiter) :=
  match lt with
  | LeaseTypeSession =>
      '(l, s) ← extract (λ l, al_id l =? id) (activeSessions a);
      Some (l, with_active s (activeOneshot a) (activeTransports a) a)
  | LeaseTypeOneShot =>
      match activeOneshot a with
      | Some l =>
          if al_id l =? id
          then Some (l, with_active (activeSessions a) None (activeTransports a) a)
          else None
      | None => None
      end
  | LeaseTypeTransport =>
      '(l, t) ← extract (λ l, al_id l =? id) (activeTransports a);
      Some (l, with_active (activeSessions a) (activeOneshot a) t a)
  | LeaseTypeBarrier => None
  end.

Definition isActive (id : Z) (lt : LeaseType) (a : Arbiter) : bool :=
  bool_decide (is_Some (findActiveLocked id lt a)).

(** Replace the lease with the given id in place ([active] is a pointer). *)
Definition update_lease (id : Z) (f : activeLease → activeLease) (ls : list activeLease)
    : list activeLease :=
  (λ l, if al_id l =? id then f l else l) <$> ls.

Definition updateActive (id : Z) (lt : LeaseType) (f : activeLease → activeLease)
    (a : Arbiter) : Arbiter :=
  match lt with
  | LeaseTypeSession =>
      with_active (update_lease id f (activeSessions a)) (activeOneshot a) (activeTransports a) a
  | LeaseTypeOneShot =>
      with_active (activeSessions a)
        ((λ l, if al_id l =? id then f l else l) <$> activeOneshot a) (activeTransports a) a
  | LeaseTypeTransport =>
      with_active (activeSessions a) (activeOneshot a) (update_lease id f (activeTransports a)) a
  | LeaseTypeBarrier => a
  end.

(** ** The critical sections of the operations

    Each is one section under [a.mu]; [now] is the clock in that section. *)

(** [acquire] and [BeginBarrier]: queue the ticket. *)
Definition enqueue (ticket : waitTicket) (a : Arbiter) : Arbiter :=
  signalLocked (count_wait (with_queue (queue a ++ [ticket]) a)).

(** One turn of the loop of [acquire]: grant the lease if it can be. *)
Definition try_acquire (now : Z) (ticket : waitTicket) (a : Arbiter) : option (activeLease * Arbiter) :=
  if canAcquireLeaseLocked a now ticket then
    let a := remove_ticket (t_id ticket) a in
    let active :=
      if MaxLeaseHold (opts a) >? 0
      then mkActive ticket now (now + MaxLeaseHold (opts a)) (Some (now + MaxLeaseHold (opts a)))
      else mkActive ticket now 0 None in
    Some (active, signalLocked (count_acquire (addActiveLocked active a)))
  else None.

(** One turn of the loop of [BeginBarrier]. *)
Definition try_barrier (now : Z) (ticket : waitTicket) (a : Arbiter) : option (activeBarrier * Arbiter) :=
  if canAcquireBarrierLocked a ticket then
    let a := remove_ticket (t_id ticket) a in
    let b := mkBarrier ticket now in
    Some (b, signalLocked (count_acquire (with_barriers (activeBarriers a ++ [b]) a)))
  else None.

(** The [ctx.Done()] branch of both loops. *)
Definition timeout_ticket (id : Z) (a : Arbiter) : Arbiter :=
  match removeTicketLocked id a with
  | Some a => signalLocked (count_timeout a)
  | None => a
  end.

(** [release]; [forced] is [reason == "force-timeout"]. *)
Definition release (id : Z) (lt : LeaseType) (forced : bool) (a : Arbiter) : Arbiter :=
  match removeActiveLocked id lt a with
  | None => a
  | Some (_, a) => signalLocked (if forced then count_forced a else a)
  end.

Definition releaseBarrier (id : Z) (a : Arbiter) : Arbiter :=
  match extract (λ b, ab_id b =? id) (activeBarriers a) with
  | None => a
  | Some (_, bs) => signalLocked (with_barriers bs a)
  end.

(** [releaseExpired], the callback of the lease timer. *)
Definition releaseExpired (now id : Z) (lt : LeaseType) (a : Arbiter) : Arbiter :=
  match findActiveLocked id lt a with
  | None => a
  | Some active =>
      if negb (al_expiresAt active =? 0) && (al_expiresAt active - now >? 0) then
        match al_timer active with
        | None => a
        | Some _ =>
            updateActive id lt
              (λ l, mkActive (al_ticket l) (al_acquiredAt l) (al_expiresAt l)
                      (Some (now + (al_expiresAt active - now)))) a
        end
      else
        match removeActiveLocked id lt a with
        | None => a
        | Some (_, a) => signalLocked (count_forced a)
        end
  end.

(** [touch]: whether the lease is held, and the state with its watchdog
    pushed back. *)
Definition touch (now id : Z) (lt : LeaseType) (a : Arbiter) : bool * Arbiter :=
  if MaxLeaseHold (opts a) <=? 0 then (isActive id lt a, a)
  else match findActiveLocked id lt a with
       | None => (false, a)
       | Some _ =>
           (true, updateActive id lt
                    (λ l, mkActive (al_ticket l) (al_acquiredAt l)
                            (now + MaxLeaseHold (opts a)) (Some (now + MaxLeaseHold (opts a)))) a)
       end.

Record Stats := mkStats {
  WaitRequests : Z; Acquires : Z; WaitTimeouts : Z; ForcedReleases : Z;
  CurrentQueue : Z; ActiveSessions : Z; ActiveOneshot : bool; ActiveTransport : bool;
  ActiveTransports : Z; ActiveBarriers : Z; CurrentQueueType : option waitKind;
}.

Definition stats (a : Arbiter) : Stats :=
  mkStats (waitRequests a) (acquires a) (waitTimeouts a) (forcedReleases a)
    (len (queue a)) (len (activeSessions a)) (bool_decide (activeOneshot a ≠ None))
    (len (activeTransports a) >? 0) (len (activeTransports a)) (len (activeBarriers a))
    (t_kind <$> head (queue a)).

Record SnapshotEntry := mkEntry {
  se_ID : Z; se_Owner : string; se_Mode : string; se_Class : string; se_Channel : Z;
  se_Scope : string; se_LeaseType : LeaseType; se_WaitMS : Z; se_HoldMS : Z;
}.

(** A duration in whole milliseconds. *)
Definition Milliseconds (d : Z) : Z := Z.quot d Millisecond.

Definition snapshotActiveLease (now : Z) (l : activeLease) : SnapshotEntry :=
  let t := al_ticket l in
  mkEntry (t_id t) (t_owner t) (t_mode t) (t_class t) (t_channel t) (t_scope t) (t_leaseType t)
    0 (Milliseconds (now - al_acquiredAt l)).

Definition snapshotActiveBarrier (now : Z) (b : activeBarrier) : SnapshotEntry :=
  let t := ab_ticket b in
  mkEntry (t_id t) (t_owner t) (t_mode t) (t_class t) (t_channel t) (t_scope t) LeaseTypeBarrier
    0 (Milliseconds (now - ab_acquiredAt b)).

Definition snapshotTicket (now : Z) (t : waitTicket) : SnapshotEntry :=
  mkEntry (t_id t) (t_owner t) (t_mode t) (t_class t) (t_channel t) (t_scope t) (t_leaseType t)
    (Milliseconds (now - t_enqueued t)) 0.

(** [Snapshot]: the active entries and the queue. *)
Definition snapshot (now : Z) (a : Arbiter) : list SnapshotEntry * list SnapshotEntry :=
  ((snapshotActiveLease now <$> activeSessions a)
   ++ (snapshotActiveLease now <$> option_list (activeOneshot a))
   ++ (snapshotActiveLease now <$> activeTransports a)
   ++ (snapshotActiveBarrier now <$> activeBarriers a),
   snapshotTicket now <$> queue a).

(** ** Interleavings

    The goroutines of the process interleave at the granularity of these
    critical sections.  [drawn] holds the tickets whose id has been taken from
    the atomic counter and that are not queued yet. *)
Record world := mkWorld {
  clock : Z;
  drawn : list waitTicket;
  arb : Arbiter;
}.

Inductive event :=
  | EvTick (d : Z)
  | EvDrawLease (req : Request) (lt : LeaseType)
  | EvDrawBarrier (req : Request) (policy : list string)
  | EvEnqueue (id : Z)
  | EvTry (id : Z)
  | EvTimeout (id : Z)
  | EvRelease (id : Z) (lt : LeaseType)
  | EvReleaseBarrier (id : Z)
  | EvExpire (id : Z) (lt : LeaseType)
  | EvTouch (id : Z) (lt : LeaseType).

Section Step.
Context (unicode_upper : string → string).

Definition draw (mk : Z → waitTicket) (w : world) : option world :=
  if a_seq (arb w) + 1 <? 2 ^ 64 then
    Some (mkWorld (clock w) (drawn w ++ [mk (a_seq (arb w) + 1)])
            (with_seq (a_seq (arb w) + 1) (arb w)))
  else None.

Definition on_arb (f : Arbiter → Arbiter) (w : world) : world :=
  mkWorld (clock w) (drawn w) (f (arb w)).

(** [None]: the event cannot happen in this state. *)
Definition step (e : event) (w : world) : option world :=
  match e with
  | EvTick d => if 0 <=? d then Some (mkWorld (clock w + d) (drawn w) (arb w)) else None
  | EvDrawLease req lt =>
      if bool_decide (lt = LeaseTypeBarrier) then None
      else draw (lease_ticket unicode_upper (clock w) req lt) w
  | EvDrawBarrier req policy =>
      draw (barrier_ticket unicode_upper (clock w) req policy) w
  | EvEnqueue id =>
      '(t, d) ← extract (λ t, t_id t =? id) (drawn w);
      Some (mkWorld (clock w) d (enqueue t (arb w)))
  | EvTry id =>
      t ← find_first (λ t, t_id t =? id) (queue (arb w));
      match t_kind t with
      | waitKindLease =>
          '(_, a) ← try_acquire (clock w) t (arb w); Some (mkWorld (clock w) (drawn w) a)
      | waitKindBarrier =>
          '(_, a) ← try_barrier (clock w) t (arb w); Some (mkWorld (clock w) (drawn w) a)
      end
  | EvTimeout id => Some (on_arb (timeout_ticket id) w)
  | EvRelease id lt => Some (on_arb (release id lt false) w)
  | EvReleaseBarrier id => Some (on_arb (releaseBarrier id) w)
  | EvExpire id lt => Some (on_arb (releaseExpired (clock w) id lt) w)
  | EvTouch id lt => Some (on_arb (λ a, snd (touch (clock w) id lt a)) w)
  end.

Fixpoint run (es : list event) (w : world) : option world :=
  match es with
  | [] => Some w
  | e :: es => w ← step e w; run es w
  end.

Inductive reachable (o : Options) : world → Prop :=
  | reachable_New now : reachable o (mkWorld now [] (New o))
  | reachable_step w e w' : reachable o w → step e w = Some w' → reachable o w'.
End Step.
