(* ===== verification/ArbiterProofs.v ===== *)
(** * Properties of the APDU arbiter

    An abstract lock table and the proof that the arbiter implements it, the
    exclusion invariants, the fairness rules of the queue, and the accounting
    of its counters. *)

From S2P Require Import Prelude GoText Arbiter.
From stdpp Require Import strings gmap sorting.

#[local] Open Scope Z_scope.

(** ** The abstract lock table

    What the arbiter promises its clients, without queue, timers or counters:
    a set of held leases and a set of raised barriers. *)
Module Table.
Record table := mkTable { held : list waitTicket; barriers : list waitTicket }.

(** The lease [t] can be granted next to the ones already held. *)
Definition compatible (o : Options) (tb : table) (t : waitTicket) : Prop :=
  Forall (λ b, t_class t ∉ t_blocked b) (barriers tb) ∧
  match t_leaseType t with
  | LeaseTypeSession =>
      Forall (λ u, t_leaseType u = LeaseTypeSession) (held tb) ∧ len (held tb) < MaxSessions o
  | LeaseTypeOneShot => held tb = []
  | LeaseTypeTransport =>
      if bool_decide (t_scope t = TransportScopeQMIChannel) then
        Forall (λ u, t_leaseType u = LeaseTypeTransport ∧ t_scope u = TransportScopeQMIChannel
                     ∧ t_channel u ≠ t_channel t) (held tb)
        ∧ len (held tb) < MaxQMITransports o
      else held tb = []
  | LeaseTypeBarrier => False
  end.

Inductive trans (o : Options) : table → table → Prop :=
  | trans_stutter tb : trans o tb tb
  | trans_grant ls bs ls' t :
      compatible o (mkTable ls bs) t → ls' ≡ₚ t :: ls →
      trans o (mkTable ls bs) (mkTable ls' bs)
  | trans_drop ls bs ls' t :
      ls ≡ₚ t :: ls' → trans o (mkTable ls bs) (mkTable ls' bs)
  | trans_raise bs b : trans o (mkTable [] bs) (mkTable [] (bs ++ [b]))
  | trans_lower ls bs bs' b :
      bs ≡ₚ b :: bs' → trans o (mkTable ls bs) (mkTable ls bs').

(** The exclusion the table guarantees. *)
Record ok (o : Options) (tb : table) : Prop := {
  ok_session t : t ∈ held tb → t_leaseType t = LeaseTypeSession →
    Forall (λ u, t_leaseType u = LeaseTypeSession) (held tb) ∧ len (held tb) ≤ MaxSessions o;
  ok_oneshot t : t ∈ held tb → t_leaseType t = LeaseTypeOneShot → held tb = [t];
  ok_exclusive t : t ∈ held tb → t_leaseType t = LeaseTypeTransport →
    t_scope t ≠ TransportScopeQMIChannel → held tb = [t];
  ok_qmi t : t ∈ held tb → t_leaseType t = LeaseTypeTransport →
    t_scope t = TransportScopeQMIChannel →
    Forall (λ u, t_leaseType u = LeaseTypeTransport
                 ∧ t_scope u = TransportScopeQMIChannel) (held tb)
    ∧ len (held tb) ≤ MaxQMITransports o ∧ NoDup (t_channel <$> held tb);
  ok_kind t : t ∈ held tb → t_leaseType t ≠ LeaseTypeBarrier;
  ok_barrier t : t ∈ held tb → Forall (λ b, t_class t ∉ t_blocked b) (barriers tb);
}.
End Table.
Import Table.

Definition leases (a : Arbiter) : list waitTicket :=
  al_ticket <$> (activeSessions a ++ option_list (activeOneshot a) ++ activeTransports a).

Arguments leases : simpl never.

Definition abs (a : Arbiter) : table := mkTable (leases a) (ab_ticket <$> activeBarriers a).

(** Every id in use: tickets drawn, queued, active leases and barriers. *)
Definition ids (w : world) : list Z :=
  t_id <$> (drawn w ++ queue (arb w) ++ leases (arb w) ++ (ab_ticket <$> activeBarriers (arb w))).

Definition ticket_wf (t : waitTicket) : Prop :=
  t_kind t = waitKindBarrier ↔ t_leaseType t = LeaseTypeBarrier.

(** Each list of active leases holds leases of its type. *)
Definition typed (a : Arbiter) : Prop :=
  Forall (λ t, t_leaseType t = LeaseTypeSession) (al_ticket <$> activeSessions a)
  ∧ Forall (λ t, t_leaseType t = LeaseTypeOneShot) (al_ticket <$> option_list (activeOneshot a))
  ∧ Forall (λ t, t_leaseType t = LeaseTypeTransport) (al_ticket <$> activeTransports a).

Record inv (w : world) : Prop := {
  inv_opts : 0 < MaxLeaseHold (opts (arb w)) ∧ 0 < MaxSessions (opts (arb w))
             ∧ 0 < MaxQMITransports (opts (arb w));
  inv_nodup : NoDup (ids w);
  inv_seq0 : 0 ≤ a_seq (arb w);
  inv_seq : Forall (λ i, 0 < i ≤ a_seq (arb w)) (ids w);
  inv_wf : Forall ticket_wf (drawn w ++ queue (arb w));
  inv_types : typed (arb w);
  inv_ok : ok (opts (arb w)) (abs (arb w));
}.

(** ** The lock table *)

Lemma ok_perm o ls ls' bs bs' :
  ls ≡ₚ ls' → bs ≡ₚ bs' → ok o (mkTable ls bs) → ok o (mkTable ls' bs').
Proof.
  intros Hl Hb [H1 H2 H3 H4 H5 H6]; cbn in *.
  assert (∀ t, ls = [t] → ls' = [t]) as Hs.
  { intros t ->. by apply Permutation_singleton_l in Hl. }
  assert (len ls' = len ls) as Hlen by (unfold len; by rewrite Hl).
  assert (∀ t, t ∈ ls' → t ∈ ls) as Hl' by (intros t; by rewrite Hl).
  split; cbn; intros t Ht%Hl'; rewrite ?Hlen, <-?Hl, <-?Hb; eauto.
Qed.

#[export] Instance ok_proper o :
  Proper ((≡ₚ) ==> (≡ₚ) ==> iff) (λ ls bs, ok o (mkTable ls bs)).
Proof. intros l1 l2 Hl b1 b2 Hb. split; by apply ok_perm. Qed.

Lemma ok_drop o t ls bs : ok o (mkTable (t :: ls) bs) → ok o (mkTable ls bs).
Proof.
  intros [H1 H2 H3 H4 H5 H6]; cbn in *.
  assert (∀ u, u ∈ ls → t :: ls = [u] → ls = [u]) as Hs.
  { intros u Hu [= -> ->]. by apply not_elem_of_nil in Hu. }
  split; cbn; intros u Hu; pose proof (list_elem_of_further _ t _ Hu) as Hu'; eauto.
  - intros Ht. destruct (H1 _ Hu' Ht) as [?%Forall_cons_1 Hn].
    rewrite len_cons in Hn. split; [tauto|lia].
  - intros Ht Hsc. destruct (H4 _ Hu' Ht Hsc) as (?%Forall_cons_1 & Hn & Hd).
    rewrite len_cons in Hn. cbn in Hd. apply NoDup_cons in Hd. split_and!; [tauto|lia|tauto].
Qed.

Lemma ok_lower o ls b bs : ok o (mkTable ls (b :: bs)) → ok o (mkTable ls bs).
Proof.
  intros [H1 H2 H3 H4 H5 H6]; cbn in *. split; cbn; eauto.
  intros t Ht. by apply H6, Forall_cons in Ht as [_ ?].
Qed.

Lemma ok_nil o bs : ok o (mkTable [] bs).
Proof. split; cbn; intros t Ht; by apply not_elem_of_nil in Ht. Qed.

Lemma ok_grant o ls bs t :
  ok o (mkTable ls bs) → compatible o (mkTable ls bs) t → ok o (mkTable (t :: ls) bs).
Proof.
  intros [H1 H2 H3 H4 H5 H6] [Hb Hc]; cbn in *.
  assert (∀ u, u ∈ t :: ls → u = t ∨ u ∈ ls) as Hcase by (intros u; by rewrite elem_of_cons).
  assert (∀ u, u ∈ t :: ls → Forall (λ b, t_class u ∉ t_blocked b) bs) as Hbar.
  { intros u [->|Hu]%Hcase; eauto. }
  destruct (t_leaseType t) eqn:Et; [destruct Hc as [Hf Hn]|subst ls| |done].
  - rewrite Forall_forall in Hf.
    split; cbn; intros u [->|Hu]%Hcase; try congruence; eauto; intros Hut;
      try (specialize (Hf _ Hu); congruence);
      (split; [constructor; [done|by apply Forall_forall]|rewrite len_cons; lia]).
  - split; cbn; intros u [->|Hu]%Hcase; try congruence; eauto;
      by apply not_elem_of_nil in Hu.
  - case_bool_decide as Esc.
    + destruct Hc as [Hf Hn]. pose proof Hf as Hf'. rewrite Forall_forall in Hf'.
      split; cbn; intros u Hu; eauto; intros Hut.
      * destruct (Hcase _ Hu) as [->|Hu']; [congruence|destruct (Hf' _ Hu'); congruence].
      * destruct (Hcase _ Hu) as [->|Hu']; [congruence|destruct (Hf' _ Hu'); congruence].
      * destruct (Hcase _ Hu) as [->|Hu']; [congruence|].
        destruct (Hf' _ Hu') as (? & ? & ?); congruence.
      * intros _. rewrite len_cons. split_and!; [|lia|].
        -- constructor; [done|]. eapply Forall_impl; [exact Hf|]. naive_solver.
        -- cbn. constructor.
           ++ intros (v & Hv & Hvl)%list_elem_of_fmap. destruct (Hf' _ Hvl) as (? & ? & ?). congruence.
           ++ destruct ls as [|v ls]; [constructor|].
              destruct (Hf' v) as (? & ? & _); [left|].
              apply (H4 v); [left|done|done].
      * destruct (Hcase _ Hu) as [->|Hu']; [congruence|destruct (Hf' _ Hu'); congruence].
    + subst ls. split; cbn; intros u [->|Hu]%Hcase; try congruence; eauto;
        by apply not_elem_of_nil in Hu.
Qed.

(** The table never leaves the allowed states. *)
Lemma trans_ok o tb tb' : trans o tb tb' → ok o tb → ok o tb'.
Proof.
  destruct 1 as [tb|ls bs ls' t Hc Hp|ls bs ls' t Hp|bs b|ls bs bs' b Hp]; intros Hok.
  - done.
  - apply (ok_perm o (t :: ls) ls' bs bs); [done|done|by apply ok_grant].
  - apply (ok_drop o t). by apply (ok_perm o ls (t :: ls') bs bs).
  - apply ok_nil.
  - apply (ok_lower o ls b). by apply (ok_perm o ls ls bs (b :: bs')).
Qed.

(** ** The selection loop

    [scan a q] lists the transport tickets of [q] that could be granted now,
    in queue order, up to the first ticket that gates the queue. *)
Fixpoint scan (a : Arbiter) (q : list waitTicket) : list waitTicket :=
  match q with
  | [] => []
  | t :: q =>
      if bool_decide (t_kind t = waitKindBarrier)
         || bool_decide (t_leaseType t ≠ LeaseTypeTransport) then []
      else if isBlockedByActiveBarrierLocked a (t_class t) then scan a q
      else if canAcquireTransportNowLocked a t then t :: scan a q
      else if transportWaitGatesQueueLocked a t then []
      else scan a q
  end.

Definition is_aka (t : waitTicket) : bool := bool_decide (t_class t = APDUClassUSIMAKA).
Definition aged (now : Z) (t : waitTicket) : bool :=
  negb (is_aka t) && (now - t_enqueued t >=? transportPriorityAging).

Definition or_else {A} (x y : option A) : option A :=
  match x with Some _ => x | None => y end.

Lemma select_loop_scan a now q e g k :
  select_loop a now q e g k =
  (or_else e (head (scan a q)), or_else g (find_first (aged now) (scan a q)),
   or_else k (find_first is_aka (scan a q))).
Proof.
  revert e g k. induction q as [|t q IH]; intros e g k; cbn [select_loop scan].
  { by destruct e, g, k. }
  case_bool_decide; [by destruct e, g, k|].
  case_bool_decide; [by destruct e, g, k|]. cbn [orb].
  destruct (isBlockedByActiveBarrierLocked _ _); [apply IH|].
  destruct (canAcquireTransportNowLocked _ _); cbn [negb].
  - unfold aged, is_aka in *. rewrite !IH. cbn [head find_first].
    case_bool_decide; cbn [negb andb].
    + by destruct e, g, k.
    + destruct (now - t_enqueued t >=? _); by destruct e, g, k.
  - destruct (transportWaitGatesQueueLocked _ _); [by destruct e, g, k|apply IH].
Qed.

Lemma selected_transport_scan a now :
  selected_transport a now =
  or_else (find_first (aged now) (scan a (queue a)))
    (or_else (find_first is_aka (scan a (queue a))) (head (scan a (queue a)))).
Proof.
  unfold selected_transport. rewrite select_loop_scan. cbn.
  destruct (find_first (aged now) _), (find_first is_aka _), (head _); done.
Qed.

Lemma selected_in_scan a now t :
  selected_transport a now = Some t → t ∈ scan a (queue a).
Proof.
  rewrite selected_transport_scan.
  destruct (find_first (aged now) _) eqn:E1; cbn.
  { intros [= <-]. by apply find_first_Some in E1 as [? _]. }
  destruct (find_first is_aka _) eqn:E2; cbn.
  { intros [= <-]. by apply find_first_Some in E2 as [? _]. }
  destruct (scan a (queue a)); [done|]. intros [= ->]. left.
Qed.

(** What it takes for a ticket to be scanned. *)
Lemma scan_spec a q t :
  t ∈ scan a q →
  ∃ l1 l2, q = l1 ++ t :: l2
    ∧ Forall (λ u, t_kind u ≠ waitKindBarrier ∧ t_leaseType u = LeaseTypeTransport) (l1 ++ [t])
    ∧ isBlockedByActiveBarrierLocked a (t_class t) = false
    ∧ canAcquireTransportNowLocked a t = true.
Proof.
  induction q as [|u q IH]; cbn [scan]; [by intros ?%not_elem_of_nil|].
  case_bool_decide as Hk; cbn [orb]; [by intros ?%not_elem_of_nil|].
  case_bool_decide as Hl; cbn [orb]; [by intros ?%not_elem_of_nil|].
  assert (t ∈ scan a q → ∃ l1 l2, u :: q = l1 ++ t :: l2
    ∧ Forall (λ u, t_kind u ≠ waitKindBarrier ∧ t_leaseType u = LeaseTypeTransport) (l1 ++ [t])
    ∧ isBlockedByActiveBarrierLocked a (t_class t) = false
    ∧ canAcquireTransportNowLocked a t = true) as Hrec.
  { intros (l1 & l2 & -> & Hf & ? & ?)%IH. exists (u :: l1), l2.
    split_and!; [done| |done|done]. constructor; [done|exact Hf]. }
  destruct (isBlockedByActiveBarrierLocked a (t_class u)) eqn:Eb; [exact Hrec|].
  destruct (canAcquireTransportNowLocked a u) eqn:Ec.
  - intros [->|?]%elem_of_cons; [|by apply Hrec].
    exists [], q. split_and!; [done| |done|done]. by constructor.
  - destruct (transportWaitGatesQueueLocked a u); [by intros ?%not_elem_of_nil|exact Hrec].
Qed.

(** A scanned ticket sees no queued barrier ahead of it. *)
Lemma pending_barrier_ahead_false l1 l2 t :
  Forall (λ u, t_kind u ≠ waitKindBarrier) l1 →
  pending_barrier_ahead (l1 ++ t :: l2) t = false.
Proof.
  induction 1 as [|u l1 Hu _ IH]; cbn [app pending_barrier_ahead].
  - by rewrite Z.eqb_refl.
  - destruct (t_id u =? t_id t); [done|]. by rewrite bool_decide_eq_true_2.
Qed.

(** ** What a grant tells *)

Lemma blocked_false_Forall a c :
  isBlockedByActiveBarrierLocked a c = false →
  Forall (λ b, c ∉ t_blocked b) (ab_ticket <$> activeBarriers a).
Proof.
  unfold isBlockedByActiveBarrierLocked. intros H. apply Forall_fmap, Forall_forall.
  intros b Hb Hc. cbn in Hc. apply not_true_iff_false in H. apply H, existsb_exists.
  exists b. split; [by apply list_elem_of_In|by apply bool_decide_eq_true_2].
Qed.

Lemma no_transports a : hasActiveTransportLocked a = false ↔ activeTransports a = [].
Proof.
  unfold hasActiveTransportLocked. rewrite bool_decide_eq_false, <-length_zero_iff_nil.
  unfold len. lia.
Qed.

Lemma len_zero {A} (l : list A) : len l = 0 ↔ l = [].
Proof. rewrite <-length_zero_iff_nil. unfold len. lia. Qed.

Lemma leases_sessions a :
  activeOneshot a = None → activeTransports a = [] →
  leases a = al_ticket <$> activeSessions a.
Proof. intros Ho Ht. unfold leases. rewrite Ho, Ht. cbn. by rewrite app_nil_r. Qed.

Lemma leases_transports a :
  activeSessions a = [] → activeOneshot a = None →
  leases a = al_ticket <$> activeTransports a.
Proof. intros Hs Ho. unfold leases. by rewrite Hs, Ho. Qed.

(** A transport that can be granted now is compatible with the transports held. *)
Lemma canNow_compatible a t :
  canAcquireTransportNowLocked a t = true →
  Forall (λ l, t_leaseType (al_ticket l) = LeaseTypeTransport) (activeTransports a) →
  if bool_decide (t_scope t = TransportScopeQMIChannel) then
    Forall (λ u, t_leaseType u = LeaseTypeTransport ∧ t_scope u = TransportScopeQMIChannel
                 ∧ t_channel u ≠ t_channel t) (al_ticket <$> activeTransports a)
    ∧ len (al_ticket <$> activeTransports a) < MaxQMITransports (opts a)
  else activeTransports a = [].
Proof.
  unfold canAcquireTransportNowLocked. intros H Hty.
  case_bool_decide; [done|]. rewrite bool_decide_not in H.
  case_bool_decide; cbn [negb] in H; [|by apply negb_true_iff, no_transports in H].
  destruct (hasActiveExclusiveTransportLocked a) eqn:Hex; [done|].
  destruct (activeQMITransportCountLocked a >=? _) eqn:Hn; [done|].
  apply negb_true_iff in H.
  assert (∀ l, l ∈ activeTransports a → is_qmi l = true) as Hall.
  { intros l Hl. destruct (is_qmi l) eqn:Hq; [done|].
    apply not_true_iff_false in Hex. destruct Hex. apply existsb_exists.
    exists l. split; [by apply list_elem_of_In|by rewrite Hq]. }
  split.
  - rewrite Forall_forall in Hty. apply Forall_fmap, Forall_forall. intros l Hl.
    pose proof (Hall _ Hl) as Hq. cbn. split_and!; [by apply Hty| |].
    + by apply bool_decide_eq_true in Hq.
    + intros Hc. apply not_true_iff_false in H. apply H, existsb_exists.
      exists l. split; [by apply list_elem_of_In|]. rewrite Hq. by apply Z.eqb_eq.
  - rewrite Z.geb_leb in Hn. apply Z.leb_gt in Hn. rewrite len_fmap.
    unfold activeQMITransportCountLocked in Hn.
    replace (List.filter is_qmi (activeTransports a)) with (activeTransports a) in Hn; [done|].
    symmetry. apply forallb_filter_id, forallb_forall.
    intros l Hl. by apply Hall, list_elem_of_In.
Qed.

Lemma len_gt_zero {A} (l : list A) : (len l >? 0) = false ↔ l = [].
Proof. rewrite <-len_zero, Z.gtb_ltb, Z.ltb_ge. pose proof (len_nonneg l). lia. Qed.

(** The queue is scanned for the ticket itself: ids are unique. *)
Lemma find_ticket_unique (q : list waitTicket) t u :
  NoDup (t_id <$> q) → t ∈ q → u ∈ q → t_id t = t_id u → t = u.
Proof.
  intros Hn Ht Hu He. apply list_elem_of_lookup in Ht as [i Hi], Hu as [j Hj].
  assert (i = j) as ->; [|congruence].
  eapply (NoDup_lookup (t_id <$> q)); [done| |].
  - rewrite list_lookup_fmap, Hi. done.
  - rewrite list_lookup_fmap, Hj. cbn. by rewrite He.
Qed.

Lemma selected_ticket a now t :
  NoDup (t_id <$> queue a) → t ∈ queue a → 0 < t_id t →
  selectedTransportLocked a now = t_id t → selected_transport a now = Some t.
Proof.
  unfold selectedTransportLocked. intros Hn Ht Hpos.
  destruct (selected_transport a now) as [u|] eqn:E; [|lia]. intros He. f_equal.
  eapply find_ticket_unique; eauto.
  destruct (scan_spec _ _ _ (selected_in_scan _ _ _ E)) as (l1 & l2 & -> & _).
  apply elem_of_app. right. left.
Qed.

Lemma queue_head_spec a id :
  queueHeadIsLocked a id = true → ∃ t q, queue a = t :: q ∧ t_id t = id.
Proof.
  unfold queueHeadIsLocked. destruct (queue a) as [|t q]; [done|].
  intros ?%Z.eqb_eq. eauto.
Qed.

Lemma canAcquireLease_compatible a now t :
  NoDup (t_id <$> queue a) → t ∈ queue a → 0 < t_id t →
  typed a →
  canAcquireLeaseLocked a now t = true → compatible (opts a) (abs a) t.
Proof.
  intros Hn Ht Hpos (HtS & _ & HtT). rewrite Forall_fmap in HtT. unfold canAcquireLeaseLocked.
  case_bool_decide as Hk; [done|].
  destruct (isBlockedByActiveBarrierLocked a (t_class t)) eqn:Hb; [done|].
  destruct (hasPendingBarrierAheadLocked a t); [done|].
  intros H. split; [by apply blocked_false_Forall|]. unfold abs; cbn [held].
  destruct (t_leaseType t) eqn:Et; [| | |done].
  - apply andb_prop in H as [[[_ Ho%bool_decide_eq_true]%andb_prop
      Htr%negb_true_iff%no_transports]%andb_prop Hm%Z.ltb_lt].
    rewrite leases_sessions by done. rewrite len_fmap.
    split; [exact HtS|done].
  - apply andb_prop in H as [[[_ Hs%Z.eqb_eq%len_zero]%andb_prop
      Ho%bool_decide_eq_true]%andb_prop Htr%negb_true_iff%no_transports].
    rewrite leases_sessions by done. by rewrite Hs.
  - destruct (_ || _) eqn:E; [done|]. apply orb_false_elim in E as [Hs Ho].
    apply len_gt_zero in Hs. apply bool_decide_eq_false, dec_stable in Ho.
    apply Z.eqb_eq in H. apply selected_ticket in H; [|done..].
    apply selected_in_scan, scan_spec in H as (_ & _ & _ & _ & _ & Hc).
    rewrite leases_transports by done.
    pose proof (canNow_compatible _ _ Hc HtT) as Hcc.
    case_bool_decide; [done|]. by rewrite Hcc.
Qed.

Lemma canAcquireBarrier_empty a t : canAcquireBarrierLocked a t = true → leases a = [].
Proof.
  unfold canAcquireBarrierLocked. case_bool_decide; [done|].
  destruct (_ || _) eqn:E; [done|]. intros _.
  apply orb_false_elim in E as [[Ht Hs]%orb_false_elim Ho].
  apply no_transports in Ht. apply len_gt_zero in Hs.
  apply bool_decide_eq_false, dec_stable in Ho.
  rewrite leases_sessions by done. by rewrite Hs.
Qed.

(** ** How the updates change the views *)

Lemma remove_ticket_queue t a :
  NoDup (t_id <$> queue a) → t ∈ queue a →
  ∃ q, remove_ticket (t_id t) a = with_queue q a ∧ queue a ≡ₚ t :: q.
Proof.
  intros Hn Ht. unfold remove_ticket, removeTicketLocked.
  destruct (extract _ _) as [[u q]|] eqn:E; cbn.
  - exists q. split; [done|]. pose proof (extract_perm _ _ _ _ E) as Hp.
    apply extract_Some in E as (l1 & l2 & Hq & _ & Hid%Z.eqb_eq & _).
    replace t with u; [done|]. eapply find_ticket_unique; eauto.
    rewrite Hq. apply elem_of_app. right. left.
  - apply extract_None in E. rewrite Forall_forall in E. specialize (E _ Ht).
    by rewrite Z.eqb_refl in E.
Qed.

Lemma leases_addActive l a :
  t_leaseType (al_ticket l) ≠ LeaseTypeBarrier →
  (t_leaseType (al_ticket l) = LeaseTypeOneShot → activeOneshot a = None) →
  leases (addActiveLocked l a) ≡ₚ al_ticket l :: leases a.
Proof.
  intros Hb Ho. unfold leases, addActiveLocked.
  destruct (t_leaseType (al_ticket l)) eqn:E; cbn [activeSessions activeOneshot activeTransports with_active].
  - rewrite <-!app_assoc, !fmap_app. cbn. symmetry. apply Permutation_middle.
  - rewrite Ho by done. cbn. rewrite !fmap_app. cbn. by rewrite Permutation_middle.
  - rewrite !fmap_app. cbn. rewrite <-!Permutation_middle. by rewrite app_nil_r.
  - done.
Qed.

Lemma removeActive_spec id lt a l a' :
  removeActiveLocked id lt a = Some (l, a') →
  al_id l = id ∧ findActiveLocked id lt a = Some l ∧ leases a ≡ₚ al_ticket l :: leases a'
  ∧ ∃ s o tr, a' = with_active s o tr a ∧ s `sublist_of` activeSessions a
    ∧ option_list o `sublist_of` option_list (activeOneshot a)
    ∧ tr `sublist_of` activeTransports a.
Proof.
  assert (∀ ls r, extract (λ l, al_id l =? id) ls = Some (l, r) →
    al_id l = id ∧ find_first (λ l, al_id l =? id) ls = Some l) as Hf.
  { intros ls r E. rewrite extract_find, E. split; [|done].
    by apply extract_Some in E as (_ & _ & _ & _ & ?%Z.eqb_eq & _). }
  unfold removeActiveLocked, findActiveLocked, leases.
  destruct lt; cbn [activeSessions activeOneshot activeTransports with_active].
  - destruct (extract _ _) as [[x r]|] eqn:E; cbn; [|done]. intros [= -> <-].
    destruct (Hf _ _ E). split_and!; [done|done| |].
    + pose proof (extract_perm _ _ _ _ E) as Hp. cbn. by rewrite Hp.
    + eexists _, _, _. split; [done|]. split_and!; [by eapply extract_sublist|done|done].
  - destruct (activeOneshot a) as [x|]; [|done].
    destruct (al_id x =? id) eqn:E; [|done]. intros [= -> <-]. apply Z.eqb_eq in E.
    split_and!; [done|done| |].
    + cbn. rewrite !fmap_app. cbn. by rewrite Permutation_middle.
    + eexists _, _, _. split; [done|]. split_and!; [done|apply sublist_nil_l|done].
  - destruct (extract _ _) as [[x r]|] eqn:E; cbn; [|done]. intros [= -> <-].
    destruct (Hf _ _ E). split_and!; [done|done| |].
    + pose proof (extract_perm _ _ _ _ E) as Hp. cbn. rewrite !fmap_app, Hp. cbn.
      by rewrite <-!Permutation_middle.
    + eexists _, _, _. split; [done|]. split_and!; [done|done|by eapply extract_sublist].
  - done.
Qed.

Lemma find_remove id lt a l :
  findActiveLocked id lt a = Some l → ∃ a', removeActiveLocked id lt a = Some (l, a').
Proof.
  unfold findActiveLocked, removeActiveLocked. rewrite !extract_find.
  destruct lt; [| | |done].
  - destruct (extract _ _) as [[x r]|]; cbn; [|done]. intros [= ->]. eauto.
  - destruct (activeOneshot a) as [x|]; [|done]. destruct (al_id x =? id); [|done].
    intros [= ->]. eauto.
  - destruct (extract _ _) as [[x r]|]; cbn; [|done]. intros [= ->]. eauto.
Qed.

Lemma update_lease_tickets id f ls :
  (∀ l, al_ticket (f l) = al_ticket l) → al_ticket <$> update_lease id f ls = al_ticket <$> ls.
Proof.
  intros Hf. induction ls as [|l ls IH]; [done|]. cbn. f_equal; [|exact IH].
  by destruct (_ =? _); rewrite ?Hf.
Qed.

Lemma leases_update id lt f a :
  (∀ l, al_ticket (f l) = al_ticket l) → leases (updateActive id lt f a) = leases a.
Proof.
  intros Hf. unfold leases, updateActive.
  destruct lt; cbn; rewrite ?fmap_app, ?update_lease_tickets by done; try done.
  destruct (activeOneshot a) as [l|]; cbn; [|done]. by destruct (_ =? _); rewrite ?Hf.
Qed.

(** ** The invariant is preserved *)

(** Ids are only taken from the counter, and dropped. *)
Definition ids_step (w w' : world) : Prop :=
  ids w' ⊆+ ids w ∧ a_seq (arb w') = a_seq (arb w)
  ∨ ids w' ≡ₚ a_seq (arb w') :: ids w ∧ a_seq (arb w') = a_seq (arb w) + 1.

(** What a step may do to the ids, the tickets and the table. *)
Lemma inv_step w w' :
  inv w →
  opts (arb w') = opts (arb w) →
  ids_step w w' →
  (∀ t, t ∈ drawn w' ++ queue (arb w') → t ∈ drawn w ++ queue (arb w) ∨ ticket_wf t) →
  typed (arb w') →
  trans (opts (arb w)) (abs (arb w)) (abs (arb w')) →
  inv w'.
Proof.
  intros [Ho Hn H0 Hs Hw Ht Hk] Ho' Hids Hw' Ht' Htr.
  split; rewrite ?Ho'; try done.
  - destruct Hids as [[Hi _]|[Hi Hsq]]; [by eapply submseteq_NoDup|].
    rewrite Hi. constructor; [|done]. intros Hin.
    rewrite Forall_forall in Hs. specialize (Hs _ Hin). lia.
  - destruct Hids as [[_ ?]|[_ ?]]; lia.
  - destruct Hids as [[Hi ->]|[Hi Hsq]]; [by eapply submseteq_Forall|].
    rewrite Hi, Hsq. constructor; [lia|]. eapply Forall_impl; [exact Hs|]. intros i Hi2; cbn in Hi2 |- *; lia.
  - rewrite Forall_forall in Hw |- *. intros t [?|?]%Hw'; auto.
  - by eapply trans_ok.
Qed.

Lemma inv_New o now : inv (mkWorld now [] (New o)).
Proof.
  unfold New. split; cbn; [|constructor|lia|constructor|constructor| |].
  - unfold Minute, Millisecond.
    destruct (Z.leb_spec (MaxLeaseHold o) 0), (Z.leb_spec (MaxSessions o) 0),
      (Z.leb_spec (MaxQMITransports o) 0); lia.
  - repeat split; constructor.
  - apply ok_nil.
Qed.

Lemma inv_queue_nodup w : inv w → NoDup (t_id <$> queue (arb w)).
Proof.
  intros [_ Hn _ _ _ _ _]. unfold ids in Hn. rewrite !fmap_app in Hn.
  apply NoDup_app in Hn as (_ & _ & Hn). by apply NoDup_app in Hn as (? & _ & _).
Qed.

Lemma inv_queue_pos w t : inv w → t ∈ queue (arb w) → 0 < t_id t.
Proof.
  intros [_ _ _ Hs _ _ _] Ht. rewrite Forall_forall in Hs.
  apply Hs. unfold ids. apply list_elem_of_fmap_2. set_solver.
Qed.

Lemma inv_queue_wf w t : inv w → t ∈ queue (arb w) → ticket_wf t.
Proof.
  intros [_ _ _ _ Hw _ _] Ht. rewrite Forall_forall in Hw. apply Hw. set_solver.
Qed.

(** ** Each critical section refines a transition of the table *)

Section Refine.
Context (unicode_upper : string → string).

(** The frame of a step of the arbiter that leaves the drawn tickets alone. *)
Definition frame (a a' : Arbiter) : Prop :=
  opts a' = opts a ∧ a_seq a' = a_seq a
  ∧ queue a' ++ leases a' ++ (ab_ticket <$> activeBarriers a')
    ⊆+ queue a ++ leases a ++ (ab_ticket <$> activeBarriers a)
  ∧ (∀ t, t ∈ queue a' → t ∈ queue a)
  ∧ (typed a → typed a')
  ∧ trans (opts a) (abs a) (abs a').

Lemma ids_frame w a' : frame (arb w) a' → ids_step w (mkWorld (clock w) (drawn w) a').
Proof.
  intros (_ & Hsq & Hsub & _). left. split; [|done]. unfold ids. cbn.
  apply fmap_submseteq. by apply submseteq_app.
Qed.

Lemma inv_frame w a' :
  inv w → frame (arb w) a' → inv (mkWorld (clock w) (drawn w) a').
Proof.
  intros Hi Hf. pose proof (ids_frame _ _ Hf) as Hids.
  destruct Hf as (Ho & _ & _ & Hq & Hty & Htr).
  apply (inv_step w); cbn; [done|done|done| | |done].
  - intros t [?|?]%elem_of_app; left; apply elem_of_app; eauto.
  - by apply Hty, inv_types.
Qed.

Lemma abs_drop_trans o a a' t :
  leases a ≡ₚ t :: leases a' → activeBarriers a' = activeBarriers a →
  trans o (abs a) (abs a').
Proof. intros Hp Hb. unfold abs. rewrite Hb. by eapply trans_drop. Qed.

Lemma typed_sub s o tr a :
  s `sublist_of` activeSessions a →
  option_list o `sublist_of` option_list (activeOneshot a) →
  tr `sublist_of` activeTransports a →
  typed a → typed (with_active s o tr a).
Proof.
  intros Hs Ho Ht (H1 & H2 & H3). rewrite !Forall_fmap in *.
  repeat split; rewrite Forall_fmap; cbn; by eapply sublist_Forall.
Qed.

(** Dropping a lease, whatever happens to the counters. *)
Lemma frame_removeActive id lt a l a' a'' :
  removeActiveLocked id lt a = Some (l, a') →
  leases a'' = leases a' → activeBarriers a'' = activeBarriers a' →
  opts a'' = opts a' → a_seq a'' = a_seq a' → queue a'' = queue a' →
  (typed a' → typed a'') → frame a a''.
Proof.
  intros (_ & _ & Hp & s & o & tr & -> & ? & ? & ?)%removeActive_spec Hl Hb Ho Hsq Hq Hty.
  cbn in *. split_and!; [done|done| | | |].
  - rewrite Hq, Hl, Hb, Hp. cbn. apply submseteq_app; [done|]. by apply submseteq_cons.
  - by rewrite Hq.
  - intros Ht. by apply Hty, typed_sub.
  - eapply abs_drop_trans; [by rewrite Hl|done].
Qed.

Lemma frame_refl a : frame a a.
Proof. split_and!; try done. constructor. Qed.

Lemma frame_release id lt forced a : frame a (release id lt forced a).
Proof.
  unfold release. destruct (removeActiveLocked id lt a) as [[l a']|] eqn:E; [|apply frame_refl].
  eapply frame_removeActive; [exact E|..]; by destruct forced.
Qed.

Lemma frame_update id lt f a :
  (∀ l, al_ticket (f l) = al_ticket l) → frame a (updateActive id lt f a).
Proof.
  intros Hf. pose proof (leases_update id lt f a Hf) as Hl.
  split_and!; [by destruct lt|by destruct lt| |by destruct lt| |].
  - rewrite Hl. by destruct lt.
  - unfold typed, updateActive. destruct lt; cbn; rewrite ?update_lease_tickets by done; try done.
    destruct (activeOneshot a) as [l|]; cbn; [|done]. destruct (_ =? _); by rewrite ?Hf.
  - unfold abs. rewrite Hl. replace (activeBarriers (updateActive id lt f a))
      with (activeBarriers a) by (by destruct lt). constructor.
Qed.

Lemma frame_releaseExpired now id lt a : frame a (releaseExpired now id lt a).
Proof.
  unfold releaseExpired. destruct (findActiveLocked id lt a) as [l|]; [|apply frame_refl].
  destruct (_ && _).
  - destruct (al_timer l); [by apply frame_update|apply frame_refl].
  - destruct (removeActiveLocked id lt a) as [[l' a']|] eqn:E; [|apply frame_refl].
    by eapply frame_removeActive.
Qed.

Lemma frame_touch now id lt a : frame a (touch now id lt a).2.
Proof.
  unfold touch. destruct (_ <=? 0); [apply frame_refl|].
  destruct (findActiveLocked id lt a); [by apply frame_update|apply frame_refl].
Qed.

Lemma frame_releaseBarrier id a : frame a (releaseBarrier id a).
Proof.
  unfold releaseBarrier. destruct (extract _ _) as [[b bs]|] eqn:E; [|apply frame_refl].
  pose proof (extract_perm _ _ _ _ E) as Hp.
  split_and!; cbn; try done.
  - apply submseteq_app; [done|]. apply submseteq_app; [done|].
    rewrite Hp. by apply submseteq_cons.
  - unfold abs. cbn. apply (trans_lower _ _ _ _ (ab_ticket b)). by rewrite Hp.
Qed.

Lemma frame_timeout id a : frame a (timeout_ticket id a).
Proof.
  unfold timeout_ticket, removeTicketLocked.
  destruct (extract _ _) as [[t q]|] eqn:E; cbn; [|apply frame_refl].
  pose proof (extract_perm _ _ _ _ E) as Hp.
  split_and!; cbn; try done; [| |constructor].
  - apply submseteq_app; [|done]. rewrite Hp. by apply submseteq_cons.
  - intros u Hu. rewrite Hp. by right.
Qed.

Lemma frame_try_acquire w t now l a' :
  inv w → t ∈ queue (arb w) → try_acquire now t (arb w) = Some (l, a') → frame (arb w) a'.
Proof.
  intros Hi Ht. unfold try_acquire.
  destruct (canAcquireLeaseLocked (arb w) now t) eqn:Hc; [|done].
  pose proof (canAcquireLease_compatible _ _ _ (inv_queue_nodup _ Hi) Ht
    (inv_queue_pos _ _ Hi Ht) (inv_types _ Hi) Hc) as Hcomp.
  assert (t_leaseType t ≠ LeaseTypeBarrier) as Hnb.
  { intros E. destruct Hcomp as [_ Hcomp]. by rewrite E in Hcomp. }
  assert (t_leaseType t = LeaseTypeOneShot → activeOneshot (arb w) = None) as Hone.
  { intros E. destruct Hcomp as [_ Hcomp]. rewrite E in Hcomp. cbn in Hcomp.
    unfold leases in Hcomp. rewrite !fmap_app in Hcomp.
    apply app_nil in Hcomp as [_ [Hcomp _]%app_nil]. by destruct (activeOneshot _). }
  destruct (remove_ticket_queue t (arb w) (inv_queue_nodup _ Hi) Ht) as (q & -> & Hq).
  match goal with |- Some (?x, _) = _ → _ => set (active := x) end. intros [= <- <-].
  assert (al_ticket active = t) as Hact by (unfold active; by destruct (_ >? 0)).
  set (a1 := with_queue q (arb w)).
  assert (leases (addActiveLocked active a1) ≡ₚ t :: leases (arb w)) as Hl.
  { rewrite leases_addActive; rewrite Hact; done. }
  assert (queue (addActiveLocked active a1) = q ∧ activeBarriers (addActiveLocked active a1)
    = activeBarriers (arb w) ∧ opts (addActiveLocked active a1) = opts (arb w)
    ∧ a_seq (addActiveLocked active a1) = a_seq (arb w)) as (E1 & E2 & E3 & E4)
    by (unfold addActiveLocked; by destruct (t_leaseType (al_ticket active))).
  split_and!; cbn; try done.
  - rewrite E1, E2. change (leases (signalLocked _)) with (leases (addActiveLocked active a1)).
    rewrite Hl, Hq. cbn. by rewrite <-Permutation_middle.
  - rewrite E1. intros u Hu. rewrite Hq. by right.
  - unfold typed, addActiveLocked. intros (H1 & H2 & H3). rewrite Hact.
    destruct (t_leaseType t) eqn:E; cbn; rewrite ?fmap_app, ?Forall_app; cbn;
      rewrite ?Hact; repeat split; try done; by constructor.
  - unfold abs. cbn. rewrite E2. by apply (trans_grant _ _ _ _ t).
Qed.

Lemma frame_try_barrier w t now b a' :
  inv w → t ∈ queue (arb w) → try_barrier now t (arb w) = Some (b, a') → frame (arb w) a'.
Proof.
  intros Hi Ht. unfold try_barrier.
  destruct (canAcquireBarrierLocked (arb w) t) eqn:Hc; [|done].
  pose proof (canAcquireBarrier_empty _ _ Hc) as Hemp.
  destruct (remove_ticket_queue t (arb w) (inv_queue_nodup _ Hi) Ht) as (q & -> & Hq).
  intros [= <- <-]. split_and!; cbn; try done.
  - change (leases (signalLocked _)) with (leases (arb w)).
    rewrite Hemp, Hq, (fmap_app ab_ticket). cbn.
    rewrite (Permutation_app_comm (ab_ticket <$> _) [t]). cbn.
    by rewrite <-Permutation_middle.
  - intros u Hu. rewrite Hq. by right.
  - unfold abs. cbn. change (leases (signalLocked _)) with (leases (arb w)).
    rewrite Hemp, (fmap_app ab_ticket). cbn. constructor.
Qed.
End Refine.

Section Steps.
Context (unicode_upper : string → string).

Notation step := (step unicode_upper).
Notation reachable := (reachable unicode_upper).

Definition preserves (w w' : world) : Prop :=
  inv w' ∧ opts (arb w') = opts (arb w)
  ∧ trans (opts (arb w)) (abs (arb w)) (abs (arb w')) ∧ ids_step w w'.

Lemma preserves_draw w w' mk :
  inv w → (∀ i, t_id (mk i) = i) → (∀ i, ticket_wf (mk i)) → draw mk w = Some w' →
  preserves w w'.
Proof.
  intros Hi Hid Hwf. unfold draw. destruct (_ <? _); [|done]. intros [= <-].
  match goal with |- preserves w ?w' => assert (ids_step w w') as Hids end.
  { right. split; [|done]. unfold ids. cbn.
    rewrite !fmap_app. cbn. rewrite Hid. rewrite <-!app_assoc. cbn.
    by rewrite <-Permutation_middle. }
  split_and!; [|done|apply trans_stutter|done].
  apply (inv_step w); cbn; try done; [|apply (inv_types _ Hi)|apply trans_stutter].
  intros t. rewrite !elem_of_app, list_elem_of_singleton.
  intros [[?| ->]|?]; auto.
Qed.

Lemma preserves_frame w a' :
  inv w → frame (arb w) a' → preserves w (mkWorld (clock w) (drawn w) a').
Proof.
  intros Hi Hf. split_and!; [by apply inv_frame|by destruct Hf| |by apply ids_frame].
  by destruct Hf as (_ & _ & _ & _ & _ & ?).
Qed.

Lemma preserves_enqueue w t d :
  inv w → drawn w ≡ₚ t :: d → preserves w (mkWorld (clock w) d (enqueue t (arb w))).
Proof.
  intros Hi Hp.
  match goal with |- preserves w ?w' => assert (ids_step w w') as Hids end.
  { left. split; [|done]. unfold ids. cbn. rewrite Hp. apply fmap_submseteq.
    change (leases (enqueue t (arb w))) with (leases (arb w)).
    rewrite <-!app_assoc. cbn. by rewrite <-!Permutation_middle. }
  split_and!; [|done|apply trans_stutter|done].
  apply (inv_step w); cbn; try done; [|apply (inv_types _ Hi)|constructor].
  intros u. rewrite Hp. set_solver.
Qed.

Lemma step_preserves e w w' : inv w → step e w = Some w' → preserves w w'.
Proof.
  intros Hi. pose proof (preserves_frame w) as Hfr. destruct e; cbn [step].
  - destruct (0 <=? d); [|done]. intros [= <-].
    split_and!; cbn; [|done|constructor|by left]. destruct Hi; by split.
  - case_bool_decide as Hlt; [done|]. apply preserves_draw; [done..|]. intros i. by split.
  - apply preserves_draw; [done..|]. intros i. by split.
  - destruct (extract _ (drawn w)) as [[t d]|] eqn:E; cbn; [|done]. intros [= <-].
    by eapply preserves_enqueue, extract_perm.
  - destruct (find_first _ (queue (arb w))) as [t|] eqn:E; cbn; [|done].
    apply find_first_Some in E as [Ht _].
    destruct (t_kind t).
    + destruct (try_acquire _ _ _) as [[l a']|] eqn:Et; cbn; [|done].
      intros [= <-]. by eapply Hfr, frame_try_acquire.
    + destruct (try_barrier _ _ _) as [[l a']|] eqn:Et; cbn; [|done].
      intros [= <-]. by eapply Hfr, frame_try_barrier.
  - intros [= <-]. apply Hfr, frame_timeout; done.
  - intros [= <-]. apply Hfr, frame_release; done.
  - intros [= <-]. apply Hfr, frame_releaseBarrier; done.
  - intros [= <-]. apply Hfr, frame_releaseExpired; done.
  - intros [= <-]. apply Hfr, frame_touch; done.
Qed.

Lemma reachable_inv o w : reachable o w → inv w ∧ opts (arb w) = opts (New o).
Proof.
  induction 1 as [now|w e w' _ [Hi Ho] Hs]; [split; [apply inv_New|done]|].
  apply step_preserves in Hs as (? & Ho' & _); [|done]. split; [done|by rewrite Ho'].
Qed.

Lemma run_reachable o es w w' : reachable o w → run unicode_upper es w = Some w' → reachable o w'.
Proof.
  revert w. induction es as [|e es IH]; intros w Hr; cbn; [by intros [= <-]|].
  destruct (step e w) as [w1|] eqn:E; cbn; [|done]. apply IH. by eapply reachable_step.
Qed.
End Steps.

(** ** Accounting *)

Definition balanced (a : Arbiter) : Prop :=
  waitRequests a = acquires a + waitTimeouts a + len (queue a).

Lemma extract_len {A} (p : A → bool) l x r : extract p l = Some (x, r) → len l = 1 + len r.
Proof. intros H%extract_perm. unfold len. rewrite H. cbn. lia. Qed.

Lemma removeActive_counters id lt a l a' :
  removeActiveLocked id lt a = Some (l, a') →
  waitRequests a' = waitRequests a ∧ acquires a' = acquires a
  ∧ waitTimeouts a' = waitTimeouts a ∧ queue a' = queue a ∧ forcedReleases a' = forcedReleases a.
Proof. intros (_ & _ & _ & s & o & tr & -> & _)%removeActive_spec. done. Qed.

Lemma remove_ticket_balanced w t :
  inv w → t ∈ queue (arb w) → balanced (arb w) →
  let a := remove_ticket (t_id t) (arb w) in
  waitRequests a = acquires a + waitTimeouts a + len (queue a) + 1.
Proof.
  intros Hi Ht Hb. destruct (remove_ticket_queue t (arb w) (inv_queue_nodup _ Hi) Ht) as (q & -> & Hq).
  cbn. unfold balanced in Hb.
  assert (len (queue (arb w)) = 1 + len q) by (unfold len; rewrite Hq; cbn; lia). lia.
Qed.

Lemma step_balanced up e w w' :
  inv w → step up e w = Some w' → balanced (arb w) → balanced (arb w').
Proof.
  intros Hi. destruct e; cbn [step].
  - destruct (0 <=? d); [|done]. by intros [= <-].
  - case_bool_decide; [done|]. unfold draw. destruct (_ <? _); [|done]. by intros [= <-].
  - unfold draw. destruct (_ <? _); [|done]. by intros [= <-].
  - destruct (extract _ _) as [[t d]|]; cbn; [|done]. intros [= <-].
    unfold balanced. cbn. rewrite len_app, len_cons, len_nil. lia.
  - destruct (find_first _ _) as [t|] eqn:E; cbn; [|done].
    apply find_first_Some in E as [Ht _]. unfold try_acquire, try_barrier.
    destruct (t_kind t).
    + destruct (canAcquireLeaseLocked _ _ _); cbn; [|done]. intros [= <-] Hb.
      pose proof (remove_ticket_balanced _ _ Hi Ht Hb) as Hr. unfold balanced.
      unfold addActiveLocked; destruct (t_leaseType (al_ticket _)); cbn in *; lia.
    + destruct (canAcquireBarrierLocked _ _); cbn; [|done]. intros [= <-] Hb.
      pose proof (remove_ticket_balanced _ _ Hi Ht Hb) as Hr. unfold balanced. cbn in *. lia.
  - intros [= <-]. unfold timeout_ticket, removeTicketLocked, on_arb. cbn.
    destruct (extract _ _) as [[t q]|] eqn:E; cbn; [|done].
    apply extract_len in E. unfold balanced; cbn. lia.
  - intros [= <-]. unfold release, on_arb. cbn.
    destruct (removeActiveLocked _ _ _) as [[l a]|] eqn:E; [|done].
    apply removeActive_counters in E as (E1 & E2 & E3 & E4 & _).
    unfold balanced. cbn. by rewrite E1, E2, E3, E4.
  - intros [= <-]. unfold releaseBarrier, on_arb. cbn. by destruct (extract _ _) as [[b bs]|].
  - intros [= <-]. unfold releaseExpired, on_arb. cbn.
    destruct (findActiveLocked _ _ _) as [l|]; [|done]. destruct (_ && _).
    + destruct (al_timer l); [|done]. by destruct lt.
    + destruct (removeActiveLocked _ _ _) as [[l' a]|] eqn:E; [|done].
      apply removeActive_counters in E as (E1 & E2 & E3 & E4 & _).
      unfold balanced. cbn. by rewrite E1, E2, E3, E4.
  - intros [= <-]. unfold touch, on_arb. cbn. destruct (_ <=? 0); [done|].
    destruct (findActiveLocked _ _ _); [|done]. by destruct lt.
Qed.

(** ** Grants *)

Lemma try_lease_inv up w id w' t :
  inv w → step up (EvTry id) w = Some w' → t ∈ queue (arb w) → t_id t = id →
  t_kind t = waitKindLease → canAcquireLeaseLocked (arb w) (clock w) t = true.
Proof.
  intros Hi Hs Ht <- Hk. cbn in Hs.
  destruct (find_first _ _) as [u|] eqn:E; cbn in Hs; [|done].
  apply find_first_Some in E as [Hu He%Z.eqb_eq].
  assert (u = t) as -> by (eapply find_ticket_unique; eauto using inv_queue_nodup).
  rewrite Hk in Hs. unfold try_acquire in Hs. by destruct (canAcquireLeaseLocked _ _ _).
Qed.

Lemma try_enabled up w t :
  inv w → t ∈ queue (arb w) →
  (if bool_decide (t_kind t = waitKindLease) then canAcquireLeaseLocked (arb w) (clock w) t
   else canAcquireBarrierLocked (arb w) t) = true →
  ∃ w', step up (EvTry (t_id t)) w = Some w'.
Proof.
  intros Hi Ht Hc. cbn. destruct (find_first _ _) as [u|] eqn:E; cbn.
  - apply find_first_Some in E as [Hu He%Z.eqb_eq].
    assert (u = t) as -> by (eapply find_ticket_unique; eauto using inv_queue_nodup).
    unfold try_acquire, try_barrier.
    destruct (t_kind t);
      [rewrite bool_decide_eq_true_2 in Hc by done|rewrite bool_decide_eq_false_2 in Hc by done];
      rewrite Hc; cbn; eauto.
  - apply find_first_None in E. rewrite Forall_forall in E. specialize (E _ Ht).
    by rewrite Z.eqb_refl in E.
Qed.

Lemma leases_nil a :
  leases a = [] → activeSessions a = [] ∧ activeOneshot a = None ∧ activeTransports a = [].
Proof.
  unfold leases. rewrite !fmap_app. intros [Hs [Ho Ht]%app_nil]%app_nil.
  apply fmap_nil_inv in Hs, Ht. split_and!; [done| |done]. by destruct (activeOneshot a).
Qed.

Lemma canNow_idle a t :
  activeTransports a = [] → 0 < MaxQMITransports (opts a) →
  t_leaseType t = LeaseTypeTransport → canAcquireTransportNowLocked a t = true.
Proof.
  intros Ha Hm Hl. unfold canAcquireTransportNowLocked, hasActiveTransportLocked,
    hasActiveExclusiveTransportLocked, activeQMITransportCountLocked,
    hasActiveTransportOnChannelLocked. rewrite Ha, Hl. cbn.
  change (len (@nil activeLease)) with 0.
  case_bool_decide as Hne; [by destruct Hne|].
  case_bool_decide; [done|]. rewrite Z.geb_leb. by apply Z.leb_gt in Hm as ->.
Qed.

(** The selected transport is granted when only transports are active. *)
Lemma selected_granted a now t :
  activeSessions a = [] → activeOneshot a = None → Forall ticket_wf (queue a) →
  selected_transport a now = Some t →
  t ∈ queue a ∧ t_kind t = waitKindLease ∧ canAcquireLeaseLocked a now t = true.
Proof.
  intros Hs Ho Hwf Hsel.
  destruct (scan_spec _ _ _ (selected_in_scan _ _ _ Hsel)) as (l1 & l2 & Hq & Hf & Hb & Hc).
  assert (t ∈ queue a) as Ht by (rewrite Hq; apply elem_of_app; right; left).
  rewrite Forall_app, Forall_singleton in Hf. destruct Hf as [Hf [Hk Hl]].
  assert (t_kind t = waitKindLease) as Hk' by (by destruct (t_kind t)).
  split_and!; [done|done|].
  unfold canAcquireLeaseLocked. rewrite Hk', Hb, Hl, Hs, Ho. cbn.
  unfold hasPendingBarrierAheadLocked. rewrite Hq, pending_barrier_ahead_false.
  - unfold selectedTransportLocked. by rewrite Hsel, Z.eqb_refl.
  - eapply Forall_impl; [exact Hf|]. naive_solver.
Qed.

(** ** The properties *)

Section Release.
Context (unicode_upper : string → string).

(** An id that is spent: drawn, and no longer in use. *)
Definition spent (id : Z) (w : world) : Prop := 0 < id ≤ a_seq (arb w) ∧ id ∉ ids w.

Lemma spent_step id e w w' :
  inv w → step unicode_upper e w = Some w' → spent id w → spent id w'.
Proof.
  intros Hi Hs [Hr Hid].
  apply step_preserves in Hs as (_ & _ & _ & Hids); [|done].
  destruct Hids as [[Hsub Hsq]|[Hp Hsq]].
  - split; [by rewrite Hsq|]. intros H. by eapply Hid, elem_of_submseteq.
  - split; [lia|]. rewrite Hp, elem_of_cons. intros [->|?]; [lia|done].
Qed.

Lemma spent_run id es w w' :
  inv w → run unicode_upper es w = Some w' → spent id w → spent id w'.
Proof.
  revert w. induction es as [|e es IH]; intros w Hi; cbn; [by intros [= <-]|].
  destruct (step unicode_upper e w) as [w1|] eqn:E; cbn; [|done].
  intros Hrun Hsp. apply (IH w1); [by eapply step_preserves|done|by eapply spent_step].
Qed.

Lemma find_in_ids id lt w l :
  findActiveLocked id lt (arb w) = Some l → id ∈ ids w.
Proof.
  intros H. assert (al_ticket l ∈ leases (arb w) ∧ al_id l = id) as [Hl <-].
  { unfold findActiveLocked in H. unfold leases. rewrite list_elem_of_fmap.
    destruct lt.
    - apply find_first_Some in H as [? ?%Z.eqb_eq]. split; [|done].
      eexists; split; [done|]. set_solver.
    - destruct (activeOneshot (arb w)) as [x|]; [|done].
      destruct (al_id x =? id) eqn:E; [|done]. injection H as ->. apply Z.eqb_eq in E.
      split; [|done]. eexists; split; [done|]. set_solver.
    - apply find_first_Some in H as [? ?%Z.eqb_eq]. split; [|done].
      eexists; split; [done|]. set_solver.
    - done. }
  unfold ids. apply list_elem_of_fmap. exists (al_ticket l). split; [done|set_solver].
Qed.

Lemma not_in_ids_inactive id lt w : id ∉ ids w → isActive id lt (arb w) = false.
Proof.
  intros Hid. apply bool_decide_eq_false. intros [l Hl]. by eapply Hid, find_in_ids.
Qed.

(** Releasing an active lease spends its id. *)
Lemma release_spent id lt w l :
  inv w → findActiveLocked id lt (arb w) = Some l →
  spent id (on_arb (release id lt false) w).
Proof.
  intros Hi Hf. pose proof (find_in_ids _ _ _ _ Hf) as Hin.
  destruct (find_remove _ _ _ _ Hf) as [a' Hr].
  pose proof (removeActive_spec _ _ _ _ _ Hr) as (Hid & _ & Hp & s & o & tr & Ha' & _).
  assert (ids w ≡ₚ id :: ids (on_arb (release id lt false) w)) as Hperm.
  { unfold ids, on_arb, release. cbn. rewrite Hr. cbn.
    change (leases (signalLocked a')) with (leases a'). rewrite <-Hid, Hp, Ha'. unfold al_id.
    rewrite <-fmap_cons. apply fmap_Permutation. cbn. by rewrite <-!Permutation_middle. }
  pose proof (inv_nodup _ Hi) as Hn. rewrite Hperm in Hn. apply NoDup_cons in Hn as [Hn _].
  split; [|done].
  pose proof (inv_seq _ Hi) as Hsq. rewrite Forall_forall in Hsq. specialize (Hsq _ Hin).
  unfold on_arb, release. cbn. rewrite Hr, Ha'. cbn. lia.
Qed.
End Release.

(** ** Reading the lock table off the concrete state *)

Lemma held_session a l : l ∈ activeSessions a → al_ticket l ∈ leases a.
Proof.
  intros Hl. unfold leases. rewrite !fmap_app. apply elem_of_app. left.
  apply list_elem_of_fmap. eauto.
Qed.

Lemma held_oneshot a l : activeOneshot a = Some l → al_ticket l ∈ leases a.
Proof.
  intros H. unfold leases. rewrite H, !fmap_app. cbn. apply elem_of_app. right. left.
Qed.

Lemma held_transport a l : l ∈ activeTransports a → al_ticket l ∈ leases a.
Proof.
  intros Hl. unfold leases. rewrite !fmap_app. apply elem_of_app. right.
  apply elem_of_app. right. apply list_elem_of_fmap. eauto.
Qed.

Lemma len_filter_le {A} (p : A → bool) (l : list A) : len (List.filter p l) ≤ len l.
Proof. induction l as [|x l IH]; cbn; [done|]. destruct (p x); rewrite ?len_cons; lia. Qed.

Lemma leases_len a :
  len (leases a) = len (activeSessions a) + len (option_list (activeOneshot a))
                   + len (activeTransports a).
Proof. unfold leases. rewrite len_fmap, !len_app. lia. Qed.

Section Exclusion.
Context (a : Arbiter) (Hty : typed a)
  (Hopt : 0 < MaxLeaseHold (opts a) ∧ 0 < MaxSessions (opts a) ∧ 0 < MaxQMITransports (opts a))
  (Hok : ok (opts a) (abs a)).

Lemma session_type l : l ∈ activeSessions a → t_leaseType (al_ticket l) = LeaseTypeSession.
Proof using Hty. destruct Hty as (H & _). rewrite Forall_fmap, Forall_forall in H. apply H. Qed.

Lemma oneshot_type l : activeOneshot a = Some l → t_leaseType (al_ticket l) = LeaseTypeOneShot.
Proof using Hty.
  destruct Hty as (_ & H & _). intros E. rewrite E in H. by inversion H.
Qed.

Lemma transport_type l : l ∈ activeTransports a → t_leaseType (al_ticket l) = LeaseTypeTransport.
Proof using Hty. destruct Hty as (_ & _ & H). rewrite Forall_fmap, Forall_forall in H. apply H. Qed.

Lemma sessions_exclude :
  activeSessions a ≠ [] → activeOneshot a = None ∧ activeTransports a = [].
Proof using Hty Hok.
  intros Hne. destruct (activeSessions a) as [|l ls] eqn:E; [done|].
  assert (l ∈ activeSessions a) as Hl by (rewrite E; left).
  destruct (ok_session _ _ Hok _ (held_session _ _ Hl) (session_type _ Hl)) as [Hall _].
  cbn in Hall. rewrite Forall_forall in Hall. split.
  - destruct (activeOneshot a) as [u|] eqn:Eu; [|done].
    pose proof (Hall _ (held_oneshot _ _ Eu)) as H1. pose proof (oneshot_type _ Eu). cbn in H1. congruence.
  - destruct (activeTransports a) as [|u us] eqn:Eu; [done|].
    assert (u ∈ activeTransports a) as Hu by (rewrite Eu; left).
    pose proof (Hall _ (held_transport _ _ Hu)) as H1. pose proof (transport_type _ Hu).
    cbn in H1. congruence.
Qed.

Lemma oneshot_excludes : activeOneshot a ≠ None → activeTransports a = [].
Proof using Hty Hok.
  intros Hne. destruct (activeOneshot a) as [l|] eqn:E; [|done].
  pose proof (ok_oneshot _ _ Hok _ (held_oneshot _ _ E) (oneshot_type _ E)) as Hs.
  cbn in Hs. apply (f_equal len) in Hs. rewrite leases_len, E in Hs. cbn in Hs.
  apply len_zero. change (len [l]) with 1 in Hs. change (len [al_ticket l]) with 1 in Hs.
  pose proof (len_nonneg (activeSessions a)). pose proof (len_nonneg (activeTransports a)). lia.
Qed.

Lemma sessions_bound : len (activeSessions a) ≤ MaxSessions (opts a).
Proof using Hty Hok Hopt.
  destruct (activeSessions a) as [|l ls] eqn:E; [unfold len; cbn; lia|]. rewrite <-E.
  assert (l ∈ activeSessions a) as Hl by (rewrite E; left).
  destruct (ok_session _ _ Hok _ (held_session _ _ Hl) (session_type _ Hl)) as [_ Hn].
  cbn in Hn. rewrite leases_len in Hn.
  pose proof (len_nonneg (option_list (activeOneshot a))).
  pose proof (len_nonneg (activeTransports a)). lia.
Qed.

Lemma exclusive_alone l :
  l ∈ activeTransports a → is_qmi l = false → activeTransports a = [l].
Proof using Hty Hok.
  intros Hl Hq. apply bool_decide_eq_false in Hq.
  pose proof (ok_exclusive _ _ Hok _ (held_transport _ _ Hl) (transport_type _ Hl) Hq) as Hs.
  cbn in Hs. apply (f_equal len) in Hs. rewrite leases_len in Hs.
  change (len [al_ticket l]) with 1 in Hs.
  pose proof (len_nonneg (activeSessions a)). pose proof (len_nonneg (option_list (activeOneshot a))).
  destruct (activeTransports a) as [|u us]; [by apply not_elem_of_nil in Hl|].
  rewrite len_cons in Hs. pose proof (len_nonneg us).
  assert (us = []) as -> by (apply len_zero; lia).
  by apply list_elem_of_singleton in Hl as ->.
Qed.

Lemma qmi_bound : activeQMITransportCountLocked a ≤ MaxQMITransports (opts a).
Proof using Hty Hok Hopt.
  unfold activeQMITransportCountLocked.
  destruct (List.filter is_qmi (activeTransports a)) as [|l ls] eqn:E; [unfold len; cbn; lia|].
  assert (l ∈ activeTransports a ∧ is_qmi l = true) as [Hl Hq%bool_decide_eq_true].
  { rewrite list_elem_of_In. apply filter_In. rewrite E. by left. }
  destruct (ok_qmi _ _ Hok _ (held_transport _ _ Hl) (transport_type _ Hl) Hq) as (_ & Hn & _).
  cbn in Hn. rewrite leases_len in Hn.
  pose proof (len_filter_le is_qmi (activeTransports a)) as Hf. rewrite E in Hf.
  pose proof (len_nonneg (activeSessions a)). pose proof (len_nonneg (option_list (activeOneshot a))).
  lia.
Qed.

Lemma qmi_channels :
  (∀ l, l ∈ activeTransports a → is_qmi l = true) → NoDup (al_channel <$> activeTransports a).
Proof using Hty Hok.
  intros Hall. destruct (activeTransports a) as [|l ls] eqn:E; [constructor|]. rewrite <-E in *.
  assert (l ∈ activeTransports a) as Hl by (rewrite E; left).
  pose proof (Hall _ Hl) as Hq%bool_decide_eq_true.
  destruct (ok_qmi _ _ Hok _ (held_transport _ _ Hl) (transport_type _ Hl) Hq) as (_ & _ & Hn).
  cbn in Hn. unfold leases in Hn. rewrite !fmap_app in Hn.
  apply NoDup_app in Hn as (_ & _ & Hn). apply NoDup_app in Hn as (_ & _ & Hn).
  by rewrite <-list_fmap_compose in Hn.
Qed.

Lemma exclusion_of_ok :
  (activeSessions a ≠ [] → activeOneshot a = None ∧ activeTransports a = [])
  ∧ (activeOneshot a ≠ None → activeTransports a = [])
  ∧ len (activeSessions a) ≤ MaxSessions (opts a)
  ∧ (∀ l, l ∈ activeTransports a → is_qmi l = false → activeTransports a = [l])
  ∧ activeQMITransportCountLocked a ≤ MaxQMITransports (opts a)
  ∧ ((∀ l, l ∈ activeTransports a → is_qmi l = true) → NoDup (al_channel <$> activeTransports a))
  ∧ (∀ t b, t ∈ leases a → b ∈ activeBarriers a → t_class t ∉ ab_blocked b).
Proof using Hty Hok Hopt.
  split_and!; [apply sessions_exclude|apply oneshot_excludes|apply sessions_bound
    |apply exclusive_alone|apply qmi_bound|apply qmi_channels|].
  intros t b Ht Hb. pose proof (ok_barrier _ _ Hok _ Ht) as Hf. cbn in Hf.
  rewrite Forall_fmap, Forall_forall in Hf. by apply Hf.
Qed.
End Exclusion.

(** ** Progress and fairness *)

Lemma idle_enabled w t q :
  inv w → leases (arb w) = [] → queue (arb w) = t :: q →
  t_kind t = waitKindBarrier ∨ isBlockedByActiveBarrierLocked (arb w) (t_class t) = false →
  ∃ u, u ∈ queue (arb w) ∧
    (if bool_decide (t_kind u = waitKindLease) then canAcquireLeaseLocked (arb w) (clock w) u
     else canAcquireBarrierLocked (arb w) u) = true.
Proof.
  intros Hi (Hs & Ho & Ht)%leases_nil Hq Hc.
  assert (t ∈ queue (arb w)) as Hin by (rewrite Hq; left).
  pose proof (inv_queue_wf _ _ Hi Hin) as Hwf.
  destruct (t_kind t) eqn:Hk.
  - destruct Hc as [|Hb]; [done|].
    destruct (inv_opts _ Hi) as (_ & Hm & Hmq).
    destruct (t_leaseType t) eqn:El.
    + exists t. split; [done|]. rewrite Hk. cbn. unfold canAcquireLeaseLocked.
      unfold hasPendingBarrierAheadLocked, queueHeadIsLocked, hasActiveTransportLocked.
      rewrite Hk, Hb, El, Hs, Ho, Ht, Hq. cbn. rewrite Z.eqb_refl. cbn. by apply Z.ltb_lt.
    + exists t. split; [done|]. rewrite Hk. cbn. unfold canAcquireLeaseLocked.
      unfold hasPendingBarrierAheadLocked, queueHeadIsLocked, hasActiveTransportLocked.
      rewrite Hk, Hb, El, Hs, Ho, Ht, Hq. cbn. by rewrite Z.eqb_refl.
    + assert (t ∈ scan (arb w) (queue (arb w))) as Hscan.
      { rewrite Hq. cbn. rewrite Hk, El, Hb. cbn.
        rewrite canNow_idle by done. left. }
      destruct (selected_transport (arb w) (clock w)) as [u|] eqn:E.
      * destruct (selected_granted (arb w) (clock w) u) as (Hu & Huk & Hg); try done.
        { apply Forall_forall. intros x Hx. by eapply inv_queue_wf. }
        exists u. split; [done|]. by rewrite Huk.
      * rewrite selected_transport_scan in E.
        destruct (find_first (aged _) _); [done|]. destruct (find_first is_aka _); [done|].
        cbn in E. destruct (scan _ _); [by apply not_elem_of_nil in Hscan|done].
    + apply Hwf in El. congruence.
  - exists t. split; [done|]. rewrite Hk. cbn. unfold canAcquireBarrierLocked,
      hasActiveTransportLocked, selectedBarrierLocked.
    rewrite Hk, Hs, Ho, Ht, Hq. cbn. rewrite Hk. cbn. apply Z.eqb_refl.
Qed.

Lemma queue_split_unique (q : list waitTicket) l1 l2 k1 k2 t :
  NoDup (t_id <$> q) → q = l1 ++ t :: l2 → q = k1 ++ t :: k2 → l1 = k1.
Proof.
  intros Hn -> He. revert k1 He Hn. induction l1 as [|x l1 IH]; intros [|y k1]; cbn; [done| | |].
  - intros [= -> ->] [Hx _]%NoDup_cons. destruct Hx.
    rewrite fmap_app. apply elem_of_app. right. left.
  - intros [= -> <-] [Hx _]%NoDup_cons. destruct Hx.
    rewrite fmap_app. apply elem_of_app. right. left.
  - intros [= -> He] [_ Hn]%NoDup_cons. f_equal. by apply IH.
Qed.

Lemma grant_no_barrier_ahead a now l1 t l2 :
  NoDup (t_id <$> queue a) → 0 < t_id t → queue a = l1 ++ t :: l2 →
  canAcquireLeaseLocked a now t = true → Forall (λ u, t_kind u ≠ waitKindBarrier) l1.
Proof.
  intros Hn Hpos Hq. unfold canAcquireLeaseLocked.
  assert (t ∈ queue a) as Ht by (rewrite Hq; apply elem_of_app; right; left).
  assert (queueHeadIsLocked a (t_id t) = true → l1 = []) as Hhead.
  { intros (u & q & Hu & He)%queue_head_spec.
    assert (u = t) as -> by (eapply (find_ticket_unique (queue a)); [done|rewrite Hu; left|done|done]).
    by apply (queue_split_unique (queue a) l1 l2 [] q t). }
  case_bool_decide; [done|].
  destruct (isBlockedByActiveBarrierLocked _ _); [done|].
  destruct (hasPendingBarrierAheadLocked _ _); [done|].
  destruct (t_leaseType t); [| | |done].
  - intros [[[->%Hhead _]%andb_prop _]%andb_prop _]%andb_prop. constructor.
  - intros [[[->%Hhead _]%andb_prop _]%andb_prop _]%andb_prop. constructor.
  - destruct (_ || _); [done|]. intros Hsel%Z.eqb_eq. apply selected_ticket in Hsel; [|done..].
    apply selected_in_scan, scan_spec in Hsel as (k1 & k2 & Hq' & Hf & _).
    rewrite (queue_split_unique _ l1 l2 k1 k2 t Hn Hq Hq').
    apply Forall_app in Hf as [Hf _]. eapply Forall_impl; [exact Hf|]. naive_solver.
Qed.

Lemma find_first_split {A} (p : A → bool) l x :
  find_first p l = Some x →
  ∃ l1 l2, l = l1 ++ x :: l2 ∧ Forall (λ y, p y = false) l1 ∧ p x = true.
Proof.
  rewrite extract_find. destruct (extract p l) as [[y r]|] eqn:E; cbn; [|done].
  intros [= ->]. apply extract_Some in E as (l1 & l2 & ? & _ & ? & ?). eauto.
Qed.

Lemma grant_aged a now t u :
  NoDup (t_id <$> queue a) → 0 < t_id t → t ∈ queue a → t_leaseType t = LeaseTypeTransport →
  canAcquireLeaseLocked a now t = true →
  u ∈ scan a (queue a) → is_aka u = false → transportPriorityAging ≤ now - t_enqueued u →
  is_aka t = false ∧ transportPriorityAging ≤ now - t_enqueued t
  ∧ ∃ l1 l2, scan a (queue a) = l1 ++ t :: l2 ∧ u ∈ t :: l2.
Proof.
  intros Hn Hpos Ht Hl Hc Hu Hak Hag. unfold canAcquireLeaseLocked in Hc. rewrite Hl in Hc.
  case_bool_decide; [done|].
  destruct (isBlockedByActiveBarrierLocked _ _); [done|].
  destruct (hasPendingBarrierAheadLocked _ _); [done|]. destruct (_ || _); [done|].
  apply Z.eqb_eq, selected_ticket in Hc; [|done..].
  assert (aged now u = true) as Hau.
  { unfold aged. rewrite Hak. cbn. rewrite Z.geb_leb. by apply Z.leb_le. }
  rewrite selected_transport_scan in Hc.
  destruct (find_first (aged now) _) as [v|] eqn:E.
  - injection Hc as ->. apply find_first_split in E as (l1 & l2 & Hq & Hf & Hat).
    apply andb_prop in Hat as [Hat1%negb_true_iff Hat2].
    rewrite Z.geb_leb in Hat2. apply Z.leb_le in Hat2. split_and!; [done|done|].
    exists l1, l2. split; [done|]. rewrite Hq in Hu. apply elem_of_app in Hu as [Hu|]; [|done].
    rewrite Forall_forall in Hf. specialize (Hf _ Hu). congruence.
  - apply find_first_None in E. rewrite Forall_forall in E. specialize (E _ Hu). congruence.
Qed.

(** ** The watchdog *)

Lemma update_lease_find id f ls l :
  (∀ l, al_id (f l) = al_id l) →
  find_first (λ l, al_id l =? id) ls = Some l →
  find_first (λ l, al_id l =? id) (update_lease id f ls) = Some (f l).
Proof.
  intros Hf. induction ls as [|x ls IH]; cbn; [done|].
  destruct (al_id x =? id) eqn:E; [intros [= ->]; by rewrite Hf, E|].
  rewrite E. exact IH.
Qed.

Lemma updateActive_find id lt f a l :
  (∀ l, al_id (f l) = al_id l) →
  findActiveLocked id lt a = Some l →
  findActiveLocked id lt (updateActive id lt f a) = Some (f l).
Proof.
  intros Hf. unfold findActiveLocked, updateActive. destruct lt; cbn.
  - by apply update_lease_find.
  - destruct (activeOneshot a) as [x|]; [|done]. cbn.
    destruct (al_id x =? id) eqn:E; [|done]. intros [= ->]. by rewrite Hf, E.
  - by apply update_lease_find.
  - done.
Qed.

(** Touching a held lease moves its expiry. *)
Lemma touch_find now id lt a l :
  0 < MaxLeaseHold (opts a) → findActiveLocked id lt a = Some l →
  ∃ l', findActiveLocked id lt (touch now id lt a).2 = Some l'
        ∧ al_ticket l' = al_ticket l
        ∧ al_expiresAt l' = now + MaxLeaseHold (opts a)
        ∧ al_timer l' = Some (now + MaxLeaseHold (opts a))
        ∧ opts (touch now id lt a).2 = opts a
        ∧ forcedReleases (touch now id lt a).2 = forcedReleases a.
Proof.
  intros Hm Hf. unfold touch. destruct (Z.leb_spec (MaxLeaseHold (opts a)) 0); [lia|].
  rewrite Hf. cbn. eexists. split; [by apply updateActive_find|]. cbn.
  split_and!; try done; by destruct lt.
Qed.

(** The expiry callback spares a lease whose expiry is in the future. *)
Lemma expire_early now id lt a l tm :
  findActiveLocked id lt a = Some l → al_expiresAt l ≠ 0 → al_timer l = Some tm →
  now < al_expiresAt l →
  isActive id lt (releaseExpired now id lt a) = true
  ∧ forcedReleases (releaseExpired now id lt a) = forcedReleases a.
Proof.
  intros Hf Hnz Htm Hlt. unfold releaseExpired. rewrite Hf.
  destruct (Z.eqb_spec (al_expiresAt l) 0); [done|]. cbn.
  destruct (Z.gtb_spec (al_expiresAt l - now) 0); [|lia]. rewrite Htm.
  split; [|by destruct lt]. apply bool_decide_eq_true. eexists. by apply updateActive_find.
Qed.

(** ... and takes away one whose expiry has passed. *)
Lemma expire_late now id lt w l :
  inv w → findActiveLocked id lt (arb w) = Some l → al_expiresAt l ≤ now →
  isActive id lt (releaseExpired now id lt (arb w)) = false
  ∧ forcedReleases (releaseExpired now id lt (arb w)) = forcedReleases (arb w) + 1.
Proof.
  intros Hi Hf Hle. destruct (find_remove _ _ _ _ Hf) as [a' Hr].
  pose proof (release_spent id lt w l Hi Hf) as [_ Hsp].
  unfold releaseExpired. rewrite Hf.
  destruct (Z.gtb_spec (al_expiresAt l - now) 0); [lia|].
  rewrite andb_false_r, Hr. split.
  - apply (not_in_ids_inactive _ _ (mkWorld 0 (drawn w) (signalLocked (count_forced a')))).
    intros Hin. apply Hsp. revert Hin. unfold ids, on_arb, release. cbn. by rewrite Hr.
  - apply removeActive_counters in Hr as (_ & _ & _ & _ & Hfr). cbn. by rewrite Hfr.
Qed.
