(* ===== verification/ArbiterTheorems.v ===== *)
(** * What the APDU arbiter guarantees

    The properties of [Arbiter.v], each with a witness: a concrete run of the
    arbiter in which its hypotheses hold. *)

From S2P Require Import Prelude GoText Arbiter ArbiterProofs.
From stdpp Require Import strings gmap.

#[local] Open Scope Z_scope.

(** A run in which a QMI logical-channel transport is held, an exclusive
    transport waits for it, and a barrier waits behind both. *)
Module Demo.
Definition upper : string → string := λ s, s.
Definition options : Options := mkOptions 0 0 2.
Definition qmi_request : Request := mkRequest "esim" "qmi" APDUClassUSIMAKA 1 "qmi_channel".
Definition plain_request : Request := mkRequest "sms" "at" APDUClassSMSC 0 "".
Definition start : world := mkWorld 1000 [] (New options).
Definition events : list event :=
  [ EvDrawLease qmi_request LeaseTypeTransport; EvEnqueue 1; EvTry 1;
    EvDrawLease plain_request LeaseTypeTransport; EvEnqueue 2;
    EvDrawBarrier plain_request []; EvEnqueue 3 ].
Definition after (es : list event) : world := default start (run upper es start).
Definition busy : world := after events.
Definition idle : world := after (events ++ [EvRelease 1 LeaseTypeTransport]).
Definition barred : world :=
  after (events ++ [EvRelease 1 LeaseTypeTransport; EvTimeout 2; EvTry 3;
    EvDrawLease (mkRequest "esim" "at" APDUClassEUICCRead 0 "") LeaseTypeTransport;
    EvEnqueue 4; EvTry 4]).

Lemma after_reachable es : reachable upper options (after es).
Proof.
  unfold after. destruct (run upper es start) as [w|] eqn:E; cbn; [|constructor].
  eapply run_reachable; [constructor|exact E].
Qed.

Lemma busy_reachable : reachable upper options busy.
Proof. apply after_reachable. Qed.
Lemma idle_reachable : reachable upper options idle.
Proof. apply after_reachable. Qed.
Lemma barred_reachable : reachable upper options barred.
Proof. apply after_reachable. Qed.
End Demo.
Import Demo.

(** C2: the arbiter implements the abstract lock table.  From every reachable
    state, each critical section of the arbiter is a transition of the table
    (a compatible grant, the raising of a barrier over an empty table, a drop,
    a lowering, or no change), and the table it leads to is an allowed one. *)
Theorem arbiter_refines_lock_table up o w e w' :
  reachable up o w → step up e w = Some w' →
  Table.trans (opts (New o)) (abs (arb w)) (abs (arb w')) ∧ Table.ok (opts (New o)) (abs (arb w')).
Proof.
  intros [Hi <-]%reachable_inv Hs.
  destruct (step_preserves _ _ _ _ Hi Hs) as (Hi' & Ho & Ht & _).
  split; [done|]. rewrite <-Ho. apply inv_ok, Hi'.
Qed.

Lemma arbiter_refines_lock_table_witness :
  ∃ w', step upper (EvTry 2) idle = Some w'
    ∧ Table.trans (opts (New options)) (abs (arb idle)) (abs (arb w')).
Proof.
  destruct (step upper (EvTry 2) idle) as [w'|] eqn:E; [|vm_compute in E; discriminate E].
  exists w'. split; [done|].
  apply (arbiter_refines_lock_table upper options idle (EvTry 2)); [apply idle_reachable|exact E].
Defined.

(** C1: mutual exclusion.  In every reachable state sessions, the one-shot
    lease and transports exclude each other, sessions and QMI channel
    transports stay within their limits, an exclusive transport is alone, two
    QMI transports are on different channels, and no lease is active whose
    class an active barrier blocks. *)
Theorem arbiter_exclusion up o w :
  reachable up o w →
  let a := arb w in
  (activeSessions a ≠ [] → activeOneshot a = None ∧ activeTransports a = [])
  ∧ (activeOneshot a ≠ None → activeTransports a = [])
  ∧ len (activeSessions a) ≤ MaxSessions (opts (New o))
  ∧ (∀ l, l ∈ activeTransports a → is_qmi l = false → activeTransports a = [l])
  ∧ activeQMITransportCountLocked a ≤ MaxQMITransports (opts (New o))
  ∧ ((∀ l, l ∈ activeTransports a → is_qmi l = true) → NoDup (al_channel <$> activeTransports a))
  ∧ (∀ t b, t ∈ leases a → b ∈ activeBarriers a → t_class t ∉ ab_blocked b).
Proof.
  intros [Hi Ho]%reachable_inv a. unfold a. rewrite <-Ho.
  by apply exclusion_of_ok; [apply inv_types|apply Hi|apply inv_ok].
Qed.

Lemma arbiter_exclusion_witness :
  activeTransports (arb busy) ≠ [] ∧
  activeQMITransportCountLocked (arb busy) ≤ MaxQMITransports (opts (New options)).
Proof.
  split; [by vm_compute|].
  apply (arbiter_exclusion upper options busy busy_reachable).
Defined.

(** C3: progress.  When no lease is held and the ticket at the head of the
    queue is not kept out by an active barrier, some queued ticket can be
    granted at once: the arbiter never deadlocks with an empty table. *)
Theorem arbiter_progress up o w t q :
  reachable up o w → leases (arb w) = [] → queue (arb w) = t :: q →
  t_kind t = waitKindBarrier ∨ isBlockedByActiveBarrierLocked (arb w) (t_class t) = false →
  ∃ u w', u ∈ queue (arb w) ∧ step up (EvTry (t_id u)) w = Some w'.
Proof.
  intros [Hi _]%reachable_inv Hl Hq Hc.
  destruct (idle_enabled w t q Hi Hl Hq Hc) as (u & Hu & He).
  destruct (try_enabled up w u Hi Hu He) as [w' Hs]. eauto.
Qed.

Lemma arbiter_progress_witness :
  ∃ u w', u ∈ queue (arb idle) ∧ step upper (EvTry (t_id u)) idle = Some w'.
Proof.
  destruct (queue (arb idle)) as [|t q] eqn:E; [vm_compute in E; discriminate E|].
  rewrite <-E. apply (arbiter_progress upper options idle t q); [apply idle_reachable| |exact E|].
  - vm_compute. reflexivity.
  - right. vm_compute in E. injection E as <- <-. vm_compute. reflexivity.
Defined.

(** C4: no lease overtakes a queued barrier.  When a queued lease ticket is
    granted, no barrier stands ahead of it in the queue, whatever the classes
    that barrier would block. *)
Theorem arbiter_barrier_fence up o w w' l1 t l2 :
  reachable up o w → queue (arb w) = l1 ++ t :: l2 → t_kind t = waitKindLease →
  step up (EvTry (t_id t)) w = Some w' →
  Forall (λ u, t_kind u ≠ waitKindBarrier) l1.
Proof.
  intros [Hi _]%reachable_inv Hq Hk Hs.
  assert (t ∈ queue (arb w)) as Ht by (rewrite Hq; apply elem_of_app; right; left).
  eapply grant_no_barrier_ahead; eauto using inv_queue_nodup, inv_queue_pos, try_lease_inv.
Qed.

(** An EUICC read, a USIM AKA exchange and a barrier wait, in two orders. *)
Module FenceDemo.
Definition aka : Request := mkRequest "a" "QMI" APDUClassUSIMAKA 2 "qmi_channel".
Definition rd : Request := mkRequest "b" "QMI" APDUClassEUICCRead 3 "qmi_channel".
Definition reset : Request := mkRequest "c" "QMI" APDUClassSwitchBarrier 0 "".
Definition behind : world :=
  after [EvDrawLease rd LeaseTypeTransport; EvEnqueue 1; EvDrawLease aka LeaseTypeTransport; EvEnqueue 2; EvDrawBarrier reset []; EvEnqueue 3].
Definition between : world :=
  after [EvDrawLease rd LeaseTypeTransport; EvEnqueue 1; EvDrawBarrier reset []; EvEnqueue 2; EvDrawLease aka LeaseTypeTransport; EvEnqueue 3].
End FenceDemo.

(** The exchange overtakes the read that stands ahead of it when the barrier
    stands behind both, and waits when the barrier stands between them. *)
Lemma arbiter_barrier_fence_witness :
  (∃ u t v w', queue (arb FenceDemo.behind) = [u] ++ t :: [v] ∧ t_kind v = waitKindBarrier ∧ is_aka t = true ∧
    step upper (EvTry (t_id t)) FenceDemo.behind = Some w' ∧ Forall (λ u, t_kind u ≠ waitKindBarrier) [u]) ∧
  (t_kind <$> queue (arb FenceDemo.between)) = [waitKindLease; waitKindBarrier; waitKindLease] ∧ step upper (EvTry 3) FenceDemo.between = None.
Proof.
  split; [|split; vm_compute; reflexivity].
  destruct (queue (arb FenceDemo.behind)) as [|u [|t [|v [|x q]]]] eqn:E; try (vm_compute in E; discriminate E).
  destruct (step upper (EvTry (t_id t)) FenceDemo.behind) as [w'|] eqn:Hs;
    [|exfalso; vm_compute in E; injection E as <- <- <-; vm_compute in Hs; discriminate Hs].
  exists u, t, v, w'. split; [reflexivity|].
  assert (Hk : t_kind v = waitKindBarrier ∧ is_aka t = true ∧ t_kind t = waitKindLease)
    by (vm_compute in E; injection E as <- <- <-; vm_compute; repeat split; reflexivity).
  destruct Hk as (Hv & Ha & Ht). split; [exact Hv|]. split; [exact Ha|]. split; [exact Hs|].
  apply (arbiter_barrier_fence upper options FenceDemo.behind w' [u] t [v]); [apply after_reachable|exact E|exact Ht|exact Hs].
Defined.

(** C5: the aging rule bounds starvation.  When a transport [t] is granted
    while another grantable transport [u] that is no USIM AKA exchange has
    waited for the aging time (500 ms), then [t] is an aged non-AKA ticket
    too, and it stands no later in the queue than [u]. *)
Theorem arbiter_aging_bound up o w w' t u :
  reachable up o w → t ∈ queue (arb w) → t_leaseType t = LeaseTypeTransport →
  t_kind t = waitKindLease → step up (EvTry (t_id t)) w = Some w' →
  u ∈ scan (arb w) (queue (arb w)) → is_aka u = false →
  transportPriorityAging ≤ clock w - t_enqueued u →
  is_aka t = false ∧ transportPriorityAging ≤ clock w - t_enqueued t
  ∧ ∃ l1 l2, scan (arb w) (queue (arb w)) = l1 ++ t :: l2 ∧ u ∈ t :: l2.
Proof.
  intros [Hi _]%reachable_inv Ht Hl Hk Hs Hu Hak Hag.
  eapply grant_aged; eauto using inv_queue_nodup, inv_queue_pos, try_lease_inv.
Qed.

(** Two QMI transports wait for one that is held; the older, an EUICC read, has
    aged when the window opens. *)
Module AgingDemo.
Definition aka : Request := mkRequest "a" "QMI" APDUClassUSIMAKA 2 "qmi_channel".
Definition rd : Request := mkRequest "b" "QMI" APDUClassEUICCRead 3 "qmi_channel".
Definition world1 : world :=
  after [EvDrawLease rd LeaseTypeTransport; EvEnqueue 1;
         EvDrawLease aka LeaseTypeTransport; EvEnqueue 2;
         EvTick transportPriorityAging].
End AgingDemo.

Lemma arbiter_aging_bound_witness :
  ∃ t, t ∈ queue (arb AgingDemo.world1) ∧ is_aka t = false
       ∧ transportPriorityAging ≤ clock AgingDemo.world1 - t_enqueued t.
Proof.
  destruct (queue (arb AgingDemo.world1)) as [|t q] eqn:E; [vm_compute in E; discriminate E|].
  destruct (step upper (EvTry (t_id t)) AgingDemo.world1) as [w'|] eqn:Hs;
    [|exfalso; vm_compute in E; injection E as <- <-; vm_compute in Hs; discriminate Hs].
  exists t. split; [left|].
  destruct (arbiter_aging_bound upper options AgingDemo.world1 w' t t) as (H1 & H2 & _).
  - apply after_reachable.
  - rewrite E. left.
  - vm_compute in E. by injection E as <- <-.
  - vm_compute in E. by injection E as <- <-.
  - exact Hs.
  - vm_compute in E. injection E as <- <-. vm_compute. left.
  - vm_compute in E. by injection E as <- <-.
  - vm_compute in E. injection E as <- <-. vm_compute. discriminate.
  - by split.
Defined.

(** The one-pass loop of [selectedTransportLocked] chooses by the policy:
    the oldest grantable non-AKA ticket that has aged, else the oldest
    grantable AKA ticket, else the oldest grantable ticket. *)
Theorem arbiter_selection_policy a now :
  selectedTransportLocked a now =
  match find_first (aged now) (scan a (queue a)) with
  | Some t => t_id t
  | None =>
      match find_first is_aka (scan a (queue a)) with
      | Some t => t_id t
      | None => match scan a (queue a) with t :: _ => t_id t | [] => 0 end
      end
  end.
Proof.
  unfold selectedTransportLocked. rewrite selected_transport_scan.
  destruct (find_first (aged now) _); [done|].
  destruct (find_first is_aka _); [done|]. by destruct (scan a (queue a)).
Qed.

(** A release is final.  Once a held lease has been released, no later
    step of the arbiter makes its id active again under any lease type: a stale
    handle can neither touch nor release what another caller holds. *)
Theorem arbiter_release_final up o w id lt es w' lt' :
  reachable up o w → isActive id lt (arb w) = true →
  run up (EvRelease id lt :: es) w = Some w' →
  isActive id lt' (arb w') = false.
Proof.
  intros [Hi _]%reachable_inv [l Hl]%bool_decide_eq_true Hrun.
  apply not_in_ids_inactive. cbn in Hrun.
  apply (spent_run up id es _ w' (proj1 (step_preserves up (EvRelease id lt) w _ Hi eq_refl)) Hrun).
  by eapply release_spent.
Qed.

Lemma arbiter_release_final_witness :
  isActive 1 LeaseTypeTransport (arb busy) = true ∧
  ∃ w', run upper [EvRelease 1 LeaseTypeTransport; EvTry 2] busy = Some w'
        ∧ isActive 1 LeaseTypeTransport (arb w') = false.
Proof.
  split; [vm_compute; reflexivity|].
  destruct (run upper [EvRelease 1 LeaseTypeTransport; EvTry 2] busy) as [w'|] eqn:E;
    [|vm_compute in E; discriminate E].
  exists w'. split; [done|].
  apply (arbiter_release_final upper options busy 1 LeaseTypeTransport [EvTry 2] w');
    [apply busy_reachable|vm_compute; reflexivity|exact E].
Defined.

(** The counters balance.  In every reachable state each queued request is
    accounted for exactly once: it was granted, timed out, or is still queued. *)
Theorem arbiter_accounting up o w :
  reachable up o w →
  WaitRequests (stats (arb w)) =
  Acquires (stats (arb w)) + WaitTimeouts (stats (arb w)) + CurrentQueue (stats (arb w)).
Proof.
  intros Hr. change (balanced (arb w)).
  induction Hr as [|w e w' Hr IH Hs]; [done|].
  apply reachable_inv in Hr as [Hi _]. by eapply step_balanced.
Qed.

Lemma arbiter_accounting_witness :
  CurrentQueue (stats (arb busy)) = 2 ∧
  WaitRequests (stats (arb busy)) =
  Acquires (stats (arb busy)) + WaitTimeouts (stats (arb busy)) + CurrentQueue (stats (arb busy)).
Proof.
  split; [vm_compute; reflexivity|]. apply (arbiter_accounting upper options), busy_reachable.
Defined.

(** The watchdog.  After [Touch] at the current clock, the expiry callback
    run [d] later keeps the lease and counts nothing when [d] is below
    MaxLeaseHold, and force-releases it and counts one when it is not. *)
Theorem arbiter_watchdog up o w id lt d :
  reachable up o w → 0 ≤ clock w → isActive id lt (arb w) = true →
  let a := (touch (clock w) id lt (arb w)).2 in
  let a' := releaseExpired (clock w + d) id lt a in
  (touch (clock w) id lt (arb w)).1 = true
  ∧ (d < MaxLeaseHold (opts (New o)) →
     isActive id lt a' = true ∧ forcedReleases a' = forcedReleases (arb w))
  ∧ (MaxLeaseHold (opts (New o)) ≤ d →
     isActive id lt a' = false ∧ forcedReleases a' = forcedReleases (arb w) + 1).
Proof.
  intros [Hi Ho]%reachable_inv Hclk [l Hl]%bool_decide_eq_true. cbn zeta.
  destruct (inv_opts _ Hi) as [Hm _]. rewrite <-Ho.
  destruct (touch_find (clock w) id lt (arb w) l Hm Hl) as (l' & Hl' & _ & Hx & Htm & _ & Hfr).
  split.
  { unfold touch. destruct (Z.leb_spec (MaxLeaseHold (opts (arb w))) 0); [lia|]. by rewrite Hl. }
  rewrite <-Hfr. split; intros Hd.
  - eapply expire_early; [exact Hl'|lia|exact Htm|lia].
  - pose proof (step_preserves up (EvTouch id lt) w _ Hi eq_refl) as [Hi' _].
    apply (expire_late _ id lt _ l' Hi' Hl'). lia.
Qed.

Lemma arbiter_watchdog_witness :
  let a := (touch (clock busy) 1 LeaseTypeTransport (arb busy)).2 in
  isActive 1 LeaseTypeTransport (releaseExpired (clock busy + 2 * Minute) 1 LeaseTypeTransport a)
  = false.
Proof.
  apply (arbiter_watchdog upper options busy 1 LeaseTypeTransport (2 * Minute));
    [apply busy_reachable|vm_compute; discriminate|vm_compute; reflexivity|].
  vm_compute. discriminate.
Defined.
