(* ===== verification/MbimWire.v ===== *)
(** * The MBIM wire format (pkg/mbim: protocol.go, message.go, fragment.go, databuffer.go)

    Message headers, the encoders of OPEN, CLOSE, COMMAND and HOST_ERROR
    messages, the fragmentation of a command and the collector that puts
    fragments together.  A panic of a slice expression or of a fixed-width
    read is a result of its own, so that a theorem can exclude it. *)

From S2P Require Import Prelude.

#[local] Open Scope Z_scope.

Definition MessageTypeOpen : Z := 0x00000001.
Definition MessageTypeClose : Z := 0x00000002.
Definition MessageTypeCommand : Z := 0x00000003.
Definition MessageTypeHostError : Z := 0x00000004.
Definition MessageTypeOpenDone : Z := 0x80000001.
Definition MessageTypeCloseDone : Z := 0x80000002.
Definition MessageTypeCommandDone : Z := 0x80000003.
Definition MessageTypeFunctionError : Z := 0x80000004.
Definition MessageTypeIndicateStatus : Z := 0x80000007.

Definition CommandTypeQuery : Z := 0.
Definition CommandTypeSet : Z := 1.

Definition ProtocolErrorTimeoutFragment : Z := 1.
Definition ProtocolErrorFragmentSequence : Z := 2.
Definition ProtocolErrorLengthMismatch : Z := 3.
Definition ProtocolErrorDuplicatedTID : Z := 4.
Definition ProtocolErrorNotOpened : Z := 5.
Definition ProtocolErrorUnknown : Z := 6.
Definition ProtocolErrorCancel : Z := 7.
Definition ProtocolErrorMaxTransfer : Z := 8.

(** Errors: a [*ProtocolError] (its detail text is not modelled), a
    [*StatusError], or any other error value. *)
Inductive error :=
  | ProtocolError (Code TransactionID : Z)
  | StatusError (Status : Z)
  | PlainError.

#[global] Instance error_eq_dec : EqDecision error.
Proof. solve_decision. Defined.

(** A UUID is 16 bytes in wire order. *)
Definition uuid_ok (u : bytes) : Prop := len u = 16 ∧ bytes_ok u.

Definition headerLen : Z := 12.
Definition fragHdrLen : Z := 8.
Definition uuidLen : Z := 16.
Definition openBodyLen : Z := 4.

Definition putHeader (mt length txID : Z) (b : bytes) : bytes :=
  put_u32 8 txID (put_u32 4 length (put_u32 0 mt b)).

Definition encodeOpen (txID maxControlTransfer : Z) : bytes :=
  let b := make_bytes (headerLen + openBodyLen) in
  let b := putHeader MessageTypeOpen (len b) txID b in
  put_u32 headerLen maxControlTransfer b.

Definition encodeClose (txID : Z) : bytes :=
  let b := make_bytes headerLen in
  putHeader MessageTypeClose (len b) txID b.

Definition encodeCommand (txID : Z) (service : bytes) (cid ct : Z) (info : bytes) : bytes :=
  let bodyLen := fragHdrLen + uuidLen + 4 + 4 + 4 + len info in
  let b := make_bytes (headerLen + bodyLen) in
  let b := putHeader MessageTypeCommand (len b) txID b in
  let b := put_u32 12 1 b in
  let b := put_u32 16 0 b in
  let b := blit 20 service b in
  let b := put_u32 36 cid b in
  let b := put_u32 40 ct b in
  let b := put_u32 44 (len info) b in
  blit 48 info b.

Definition encodeProtocolError (messageType tx code : Z) : bytes :=
  let b := make_bytes (headerLen + 4) in
  let b := putHeader messageType (len b) tx b in
  put_u32 headerLen code b.

Record Header := mkHeader { h_Type : Z; h_Length : Z; h_TransactionID : Z }.

(** [decodeHeader] returns the header next to the error, when there is one. *)
Definition decodeHeader (b : bytes) : go error (Header * option error) :=
  if bool_decide (len b < headerLen) then Ok (mkHeader 0 0 0, Some PlainError)
  else
    t ← get_u32 b 0; l ← get_u32 b 4; x ← get_u32 b 8;
    let header := mkHeader t l x in
    if bool_decide (l ≠ u32 (len b))
    then Ok (header, Some (ProtocolError ProtocolErrorLengthMismatch x))
    else Ok (header, None).

(** The error [decodeFunctionError] makes of a FUNCTION_ERROR message. *)
Definition decodeFunctionError (header : Header) (message : bytes) : go error error :=
  if bool_decide (len message ≠ headerLen + 4)
  then Ok (ProtocolError ProtocolErrorLengthMismatch (h_TransactionID header))
  else code ← get_u32 message headerLen; Ok (ProtocolError code (h_TransactionID header)).

Record CommandDone := mkCommandDone {
  cd_Service : bytes; cd_CID : Z; cd_Status : Z; cd_InfoBuffer : bytes;
}.

(** ** Reassembly *)

Definition fixedDoneOffset : Z := headerLen + fragHdrLen + uuidLen + 4 + 4 + 4.
Definition fixedCmdOffset : Z := headerLen + fragHdrLen + uuidLen + 4 + 4 + 4.

Record collector := mkCollector {
  c_started : bool; c_total : Z; c_next : Z; c_service : bytes;
  c_cid : Z; c_status : Z; c_fullLen : Z; c_info : bytes;
}.

Definition newCollector : collector :=
  mkCollector false 0 0 (make_bytes 16) 0 0 0 [].

Definition fragmentError (code : Z) : error := ProtocolError code 0.

(** [add]: whether the message is complete, and the collector after it.  On an
    error the collector is unchanged. *)
Definition add (c : collector) (b : bytes) : go error (bool * collector) :=
  if bool_decide (len b < headerLen + fragHdrLen)
  then Err (fragmentError ProtocolErrorLengthMismatch)
  else
    total ← get_u32 b 12; current ← get_u32 b 16;
    if bool_decide (total = 0 ∨ current >= total)
    then Err (fragmentError ProtocolErrorFragmentSequence)
    else if negb (c_started c) then
      if bool_decide (current ≠ 0) then Err (fragmentError ProtocolErrorFragmentSequence)
      else if bool_decide (len b < fixedDoneOffset)
      then Err (fragmentError ProtocolErrorLengthMismatch)
      else
        service ← slice b 20 36;
        cid ← get_u32 b 36; status ← get_u32 b 40; fullLen ← get_u32 b 44;
        rest ← slice_from b fixedDoneOffset;
        Ok (bool_decide (1 >= total),
            mkCollector true total 1 service cid status fullLen (c_info c ++ rest))
    else if bool_decide (total ≠ c_total c)
    then Err (fragmentError ProtocolErrorFragmentSequence)
    else if bool_decide (current ≠ c_next c)
    then Err (fragmentError ProtocolErrorFragmentSequence)
    else
      rest ← slice_from b (headerLen + fragHdrLen);
      let next := u32 (c_next c + 1) in
      Ok (bool_decide (next >= c_total c),
          mkCollector true (c_total c) next (c_service c) (c_cid c) (c_status c)
            (c_fullLen c) (c_info c ++ rest)).

Definition commandDone (c : collector) : go error CommandDone :=
  if negb (c_started c) then Err (fragmentError ProtocolErrorUnknown)
  else if bool_decide (c_fullLen c ≠ len (c_info c))
  then Err (fragmentError ProtocolErrorLengthMismatch)
  else Ok (mkCommandDone (c_service c) (c_cid c) (c_status c) (c_info c)).

(** ** Fragmentation *)

(** The sizes of the continuation fragments.  [fuel] bounds the turns of the
    loop; the length of the information buffer is enough, since each turn
    takes at least one byte. *)
Fixpoint cont_sizes (fuel : nat) (contCap remaining : Z) : list Z :=
  match fuel with
  | O => []
  | S fuel =>
      if bool_decide (remaining > 0) then
        let take := if bool_decide (contCap > remaining) then remaining else contCap in
        take :: cont_sizes fuel contCap (remaining - take)
      else []
  end.

Definition first_fragment (txID : Z) (service : bytes) (cid ct total infoLen : Z) (chunk : bytes) : bytes :=
  let b := make_bytes (fixedCmdOffset + len chunk) in
  let b := putHeader MessageTypeCommand (len b) txID b in
  let b := put_u32 12 total b in
  let b := put_u32 16 0 b in
  let b := blit 20 service b in
  let b := put_u32 36 cid b in
  let b := put_u32 40 ct b in
  let b := put_u32 44 infoLen b in
  blit fixedCmdOffset chunk b.

Definition cont_fragment (txID total i : Z) (chunk : bytes) : bytes :=
  let b := make_bytes (headerLen + fragHdrLen + len chunk) in
  let b := putHeader MessageTypeCommand (len b) txID b in
  let b := put_u32 12 total b in
  let b := put_u32 16 i b in
  blit (headerLen + fragHdrLen) chunk b.

(** The loop over [sizes], from the [i]-th size and position [pos]. *)
Fixpoint fragments (txID : Z) (service : bytes) (cid ct : Z) (info : bytes) (total : Z)
    (sizes : list Z) (i pos : Z) : go error (list bytes) :=
  match sizes with
  | [] => Ok []
  | size :: sizes =>
      chunk ← slice info pos (pos + size);
      let b := if bool_decide (i = 0)
               then first_fragment txID service cid ct total (len info) chunk
               else cont_fragment txID total i chunk in
      rest ← fragments txID service cid ct info total sizes (i + 1) (pos + size);
      Ok (b :: rest)
  end.

Definition splitCommand (txID : Z) (service : bytes) (cid ct : Z) (info : bytes)
    (maxControlTransfer : Z) : go error (list bytes) :=
  let firstCap := maxControlTransfer - fixedCmdOffset in
  let contCap := maxControlTransfer - (headerLen + fragHdrLen) in
  if bool_decide (firstCap ≤ 0 ∨ contCap ≤ 0 ∨ len info ≤ firstCap)
  then Ok [encodeCommand txID service cid ct info]
  else
    let sizes := firstCap :: cont_sizes (length info) contCap (len info - firstCap) in
    fragments txID service cid ct info (u32 (len sizes)) sizes 0 0.

Example split_ex :
  len <$> default [] (match splitCommand 7 (make_bytes 16) 3 1 (make_bytes 100) 64 with
                      | Ok l => Some l | _ => None end) = [64; 64; 60].
Proof. vm_compute. reflexivity. Qed.

(** ** The layout of the messages *)

Lemma encodeCommand_first txID service cid ct info :
  encodeCommand txID service cid ct info =
  first_fragment txID service cid ct 1 (len info) info.
Proof.
  unfold encodeCommand, first_fragment, headerLen, fragHdrLen, uuidLen, fixedCmdOffset.
  by replace (12 + (8 + 16 + 4 + 4 + 4 + len info)) with (48 + len info) by lia.
Qed.

Ltac wire := unfold first_fragment, cont_fragment, encodeOpen, encodeClose,
  encodeProtocolError, putHeader, fixedCmdOffset, fixedDoneOffset, headerLen, fragHdrLen, uuidLen,
  openBodyLen in *; cbv zeta in *; cbn [Z.add Pos.add Pos.succ Pos.add_carry] in *.

Section Layout.
Context (txID total infoLen : Z) (service : bytes) (cid ct : Z) (chunk : bytes).
Hypothesis service_16 : len service = 16.

Lemma len_first : len (first_fragment txID service cid ct total infoLen chunk) = 48 + len chunk.
Proof. wire. len_lia. Qed.

Lemma first_total :
  get_u32 (E:=error) (first_fragment txID service cid ct total infoLen chunk) 12 = Ok (u32 total).
Proof. wire. by read_u32. Qed.

Lemma first_current :
  get_u32 (E:=error) (first_fragment txID service cid ct total infoLen chunk) 16 = Ok 0.
Proof. wire. by read_u32. Qed.

Lemma first_service :
  slice (E:=error) (first_fragment txID service cid ct total infoLen chunk) 20 36 = Ok service.
Proof. wire. rewrite slice_fld by len_lia. by read_field. Qed.

Lemma first_cid :
  get_u32 (E:=error) (first_fragment txID service cid ct total infoLen chunk) 36 = Ok (u32 cid).
Proof. wire. by read_u32. Qed.

Lemma first_ct :
  get_u32 (E:=error) (first_fragment txID service cid ct total infoLen chunk) 40 = Ok (u32 ct).
Proof. wire. by read_u32. Qed.

Lemma first_infoLen :
  get_u32 (E:=error) (first_fragment txID service cid ct total infoLen chunk) 44 = Ok (u32 infoLen).
Proof. wire. by read_u32. Qed.

Lemma first_info :
  slice_from (E:=error) (first_fragment txID service cid ct total infoLen chunk) 48 = Ok chunk.
Proof. wire. rewrite slice_from_fld by len_lia. rewrite fld_blit_eq; [done|len_lia..]. Qed.

Lemma len_cont i : len (cont_fragment txID total i chunk) = 20 + len chunk.
Proof. wire. len_lia. Qed.

Lemma cont_total i :
  get_u32 (E:=error) (cont_fragment txID total i chunk) 12 = Ok (u32 total).
Proof. wire. by read_u32. Qed.

Lemma cont_current i :
  get_u32 (E:=error) (cont_fragment txID total i chunk) 16 = Ok (u32 i).
Proof. wire. by read_u32. Qed.

Lemma cont_info i :
  slice_from (E:=error) (cont_fragment txID total i chunk) 20 = Ok chunk.
Proof. wire. rewrite slice_from_fld by len_lia. rewrite fld_blit_eq; [done|len_lia..]. Qed.
End Layout.

Lemma decodeHeader_ok b t x :
  12 ≤ len b → get_u32 (E:=error) b 0 = Ok t → get_u32 (E:=error) b 4 = Ok (u32 (len b)) →
  get_u32 (E:=error) b 8 = Ok x →
  decodeHeader b = Ok (mkHeader t (u32 (len b)) x, None).
Proof.
  intros Hl Ht Hn Hx. unfold decodeHeader, headerLen.
  rewrite bool_decide_eq_false_2 by lia. rewrite Ht. cbn. rewrite Hn. cbn. rewrite Hx. cbn.
  by rewrite bool_decide_eq_false_2 by tauto.
Qed.

(** A message that the device will accept as [mt] of transaction [tx]. *)
Definition well_headed (mt tx : Z) (b : bytes) : Prop :=
  decodeHeader b = Ok (mkHeader mt (u32 (len b)) tx, None).

Ltac headed := apply decodeHeader_ok; [wire; len_lia|..]; wire; read_u32; try done;
  f_equal; f_equal; len_lia.

Lemma first_headed txID service cid ct total infoLen chunk :
  len service = 16 →
  well_headed MessageTypeCommand (u32 txID)
    (first_fragment txID service cid ct total infoLen chunk).
Proof. intros. headed. Qed.

Lemma cont_headed txID total i chunk :
  well_headed MessageTypeCommand (u32 txID) (cont_fragment txID total i chunk).
Proof. headed. Qed.

Lemma encodeOpen_headed txID m : well_headed MessageTypeOpen (u32 txID) (encodeOpen txID m).
Proof. headed. Qed.

Lemma encodeClose_headed txID : well_headed MessageTypeClose (u32 txID) (encodeClose txID).
Proof. headed. Qed.

Lemma encodeProtocolError_headed mt tx code :
  well_headed (u32 mt) (u32 tx) (encodeProtocolError mt tx code).
Proof. headed. Qed.

Lemma encodeProtocolError_code mt tx code :
  get_u32 (E:=error) (encodeProtocolError mt tx code) 12 = Ok (u32 code).
Proof. wire. by read_u32. Qed.

(** ** The collector on a sequence of messages *)

(** Feed the messages in order.  The last one, and no earlier one, must
    complete the message. *)
Fixpoint collect (c : collector) (l : list bytes) : go error (bool * collector) :=
  match l with
  | [] => Ok (false, c)
  | b :: l =>
      '(complete, c') ← add c b;
      if complete : bool then match l with [] => Ok (true, c') | _ => Err PlainError end
      else collect c' l
  end.

Lemma safe_add c b : safe (add c b).
Proof.
  unfold add, headerLen, fragHdrLen, fixedDoneOffset, headerLen, fragHdrLen, uuidLen.
  case_bool_decide; [done|].
  rewrite (get_u32_Ok b 12), (get_u32_Ok b 16) by lia. cbn [mbind go_bind].
  case_bool_decide; [done|]. destruct (c_started c); cbn [negb].
  - do 2 (case_bool_decide; [done|]). rewrite slice_from_fld by lia. done.
  - case_bool_decide; [done|]. case_bool_decide; [done|].
    rewrite slice_fld by lia. cbn [mbind go_bind]. rewrite !get_u32_Ok by lia.
    cbn [mbind go_bind]. rewrite slice_from_fld by lia. done.
Qed.

Lemma safe_decodeHeader b : safe (decodeHeader b).
Proof.
  unfold decodeHeader, headerLen. case_bool_decide; [done|].
  rewrite !get_u32_Ok by lia. cbn [mbind go_bind]. by case_bool_decide.
Qed.

Lemma safe_decodeFunctionError h b : safe (decodeFunctionError h b).
Proof.
  unfold decodeFunctionError, headerLen. case_bool_decide; [done|].
  by rewrite !get_u32_Ok by lia.
Qed.

(** What a successful [add] saw. *)
Lemma add_inv c b done c' :
  add c b = Ok (done, c') →
  get_u32 (E:=error) b 12 = Ok (c_total c') ∧
  get_u32 (E:=error) b 16 = Ok (if c_started c then c_next c else 0) ∧
  c_started c' = true ∧ (c_started c = true → c_total c' = c_total c) ∧
  c_next c' = (if c_started c then u32 (c_next c + 1) else 1) ∧
  done = bool_decide (c_next c' >= c_total c') ∧
  (if c_started c then c_next c < c_total c else 0 < c_total c') ∧
  c_info c' = c_info c ++ drop (if c_started c then 20 else 48) b.
Proof.
  unfold add, headerLen, fragHdrLen, fixedDoneOffset, headerLen, fragHdrLen, uuidLen.
  case_bool_decide; [done|].
  rewrite (get_u32_Ok b 12), (get_u32_Ok b 16) by lia. cbn [mbind go_bind].
  case_bool_decide; [done|]. destruct (c_started c) eqn:Hs; cbn [negb].
  - case_bool_decide; [done|]. case_bool_decide; [done|].
    rewrite slice_from_drop by lia. cbn [mbind go_bind mret go_ret].
    intros [= <- <-]. cbn.
    repeat split; try done; try congruence; try lia. 
  - case_bool_decide; [done|]. case_bool_decide; [done|].
    rewrite slice_fld by lia. cbn [mbind go_bind]. rewrite !get_u32_Ok by lia.
    cbn [mbind go_bind]. rewrite slice_from_drop by lia. cbn [mbind go_bind].
    intros [= <- <-]. cbn.
    repeat split; try done; try congruence; lia.
Qed.

Lemma get_u32_range b off v :
  bytes_ok b → 0 ≤ off → get_u32 (E:=error) b off = Ok v → 0 ≤ v < 2 ^ 32.
Proof.
  intros Hb Ho. unfold get_u32.
  destruct (slice_from (E:=error) b off) as [s| |] eqn:Hs; [|done|done].
  apply le_u32_range. eapply slice_bytes_ok; eauto.
Qed.

Lemma collect_started bs : ∀ c c',
  Forall bytes_ok bs → c_started c = true → 0 ≤ c_next c < c_total c → c_total c < 2 ^ 32 →
  collect c bs = Ok (true, c') →
  c_next c + len bs = c_total c ∧ c_total c' = c_total c ∧
  c_info c' = c_info c ++ concat (drop 20 <$> bs) ∧
  ∀ i b, bs !! i = Some b →
    get_u32 (E:=error) b 12 = Ok (c_total c) ∧
    get_u32 (E:=error) b 16 = Ok (c_next c + Z.of_nat i).
Proof.
  induction bs as [|b bs IH]; intros c c' Hok Hs Hn Ht; cbn [collect]; [done|].
  apply Forall_cons in Hok as [Hb Hok].
  destruct (add c b) as [[complete c1]| |] eqn:Ha; [|done|done]. cbn [mbind go_bind].
  apply add_inv in Ha. rewrite Hs in Ha.
  destruct Ha as (H12 & H16 & Hs1 & Ht1 & Hn1 & -> & _ & Hi1). specialize (Ht1 eq_refl).
  rewrite u32_small in Hn1 by lia.
  case_bool_decide as Hd.
  - destruct bs; [|done]. intros [= <-]. rewrite Ht1. cbn. rewrite app_nil_r.
    split_and!; [unfold len; cbn; lia|done|done|].
    intros [|?] ? ?; simplify_eq/=. rewrite H12, H16, Ht1. split; [done|]. f_equal; lia.
  - intros Hc. destruct (IH c1 c' Hok Hs1) as (Hl & -> & -> & Hall); try lia; [done|].
    rewrite Hi1, <-app_assoc, len_cons. split_and!; [lia|lia|done|].
    intros [|i] b' ?; simplify_eq/=.
    + rewrite H12, Ht1, H16. split; [done|]. f_equal; lia.
    + destruct (Hall i b') as [-> ->]; [done|]. rewrite Ht1. split; [done|]. f_equal; lia.
Qed.

(** The fragment collector is sound.  When feeding messages to a new
    collector completes with the last of them, they are exactly the fragments
    0, 1, ..., total-1 of one total, in this order, and the information buffer
    is the concatenation of their payloads: no fragment is lost, repeated,
    reordered or taken from another message, whatever bytes were received. *)
Theorem collector_sound bs c :
  Forall bytes_ok bs → collect newCollector bs = Ok (true, c) →
  len bs = c_total c ∧
  (∀ i b, bs !! i = Some b →
     get_u32 (E:=error) b 12 = Ok (c_total c) ∧
     get_u32 (E:=error) b 16 = Ok (Z.of_nat i)) ∧
  ∃ b0 rest, bs = b0 :: rest ∧ c_info c = drop 48 b0 ++ concat (drop 20 <$> rest).
Proof.
  destruct bs as [|b bs]; cbn [collect]; [done|]. intros [Hb Hok]%Forall_cons.
  destruct (add newCollector b) as [[complete c1]| |] eqn:Ha; [|done|done]. cbn [mbind go_bind].
  apply add_inv in Ha as (H12 & H16 & Hs1 & _ & Hn1 & -> & Hpos & Hi1). cbn in *.
  pose proof (get_u32_range b 12 _ Hb ltac:(lia) H12) as Ht.
  case_bool_decide as Hd.
  - destruct bs; [|done]. intros [= <-]. split_and!; [|intros [|?] ? ?; simplify_eq/=; done|].
    + unfold len; cbn. lia.
    + exists b, []. by rewrite Hi1, app_nil_r.
  - intros Hc. apply collect_started in Hc as (Hl & -> & -> & Hall); try done; try lia.
    rewrite len_cons. split_and!; [lia| |].
    + intros [|i] b' ?; simplify_eq/=; [done|].
      destruct (Hall i b') as [-> ->]; [done|]. split; [done|]. f_equal; lia.
    + exists b, bs. by rewrite Hi1.
Qed.

(** ** Splitting a command and putting it together again *)

Fixpoint total_size (sizes : list Z) : Z :=
  match sizes with [] => 0 | s :: sizes => s + total_size sizes end.

Lemma cont_sizes_spec fuel contCap remaining :
  0 < contCap → 0 ≤ remaining → remaining ≤ Z.of_nat fuel →
  Forall (λ s, 0 < s ≤ contCap) (cont_sizes fuel contCap remaining) ∧
  total_size (cont_sizes fuel contCap remaining) = remaining.
Proof.
  intros Hc. revert remaining. induction fuel as [|fuel IH]; intros remaining Hr Hf; cbn.
  - split; [done|lia].
  - case_bool_decide; cbn; [|split; [done|lia]].
    case_bool_decide.
    + destruct (IH (remaining - remaining)) as [? ->]; [lia..|]. split; [|lia].
      constructor; [lia|done].
    + destruct (IH (remaining - contCap)) as [? ->]; [lia..|]. split; [|lia].
      constructor; [lia|done].
Qed.

Lemma total_size_len sizes c :
  Forall (λ s, 0 < s ≤ c) sizes → len sizes ≤ total_size sizes.
Proof. induction 1; cbn [total_size]; rewrite ?len_nil, ?len_cons; lia. Qed.

Section Split.
Context (txID : Z) (service : bytes) (cid ct : Z) (info : bytes).
Hypothesis service_16 : len service = 16.

Definition started_collector (total next : Z) (i : bytes) : collector :=
  mkCollector true total next service (u32 cid) (u32 ct) (u32 (len info)) i.

Lemma add_first total chunk :
  0 < total < 2 ^ 32 →
  add newCollector (first_fragment txID service cid ct total (len info) chunk) =
  Ok (bool_decide (1 >= total), started_collector total 1 chunk).
Proof.
  intros Ht. unfold add. rewrite len_first, first_total, first_current by done.
  unfold headerLen, fragHdrLen, fixedDoneOffset, headerLen, fragHdrLen, uuidLen.
  pose proof (len_nonneg chunk). rewrite bool_decide_eq_false_2 by lia. cbn [mbind go_bind].
  rewrite (u32_small total) by lia. rewrite bool_decide_eq_false_2 by lia.
  cbn [negb c_started newCollector]. rewrite bool_decide_eq_false_2 by tauto.
  rewrite bool_decide_eq_false_2 by lia.
  by rewrite first_service, first_cid, first_ct, first_infoLen, first_info by done.
Qed.

Lemma add_cont total i acc chunk :
  0 ≤ i < total → total < 2 ^ 32 →
  add (started_collector total i acc) (cont_fragment txID total i chunk) =
  Ok (bool_decide (i + 1 >= total), started_collector total (i + 1) (acc ++ chunk)).
Proof.
  intros Hi Ht. unfold add. rewrite len_cont, cont_total, cont_current.
  unfold headerLen, fragHdrLen. pose proof (len_nonneg chunk).
  rewrite bool_decide_eq_false_2 by lia. cbn [mbind go_bind].
  rewrite (u32_small total), (u32_small i) by lia. rewrite bool_decide_eq_false_2 by lia.
  cbn [negb c_started c_total c_next started_collector].
  rewrite !bool_decide_eq_false_2 by tauto.
  change (12 + 8) with 20. rewrite cont_info. cbn. by rewrite (u32_small (i + 1)) by lia.
Qed.

Lemma fragments_cont sizes contCap : ∀ i pos acc,
  Forall (λ s, 0 < s ≤ contCap) sizes → 1 ≤ i → 0 ≤ pos →
  pos + total_size sizes = len info → sizes ≠ [] → i + len sizes < 2 ^ 32 →
  ∃ l, fragments txID service cid ct info (i + len sizes) sizes i pos = Ok l ∧
    length l = length sizes ∧
    Forall (λ b, len b ≤ 20 + contCap ∧ well_headed MessageTypeCommand (u32 txID) b) l ∧
    collect (started_collector (i + len sizes) i acc) l =
      Ok (true, started_collector (i + len sizes) (i + len sizes)
                  (acc ++ fld info pos (total_size sizes))).
Proof.
  induction sizes as [|s sizes IH]; intros i pos acc Hs Hi Hp Hlen Hne Hmax; [done|].
  apply Forall_cons in Hs as [Hs0 Hs]. rewrite len_cons in *. cbn [total_size] in *.
  pose proof (total_size_len _ _ Hs). pose proof (len_nonneg sizes).
  cbn [fragments]. rewrite slice_fld by lia. cbn [mbind go_bind].
  rewrite bool_decide_eq_false_2 by lia. replace (pos + s - pos) with s by lia.
  set (b := cont_fragment txID (i + (1 + len sizes)) i (fld info pos s)).
  assert (Hb : len b ≤ 20 + contCap ∧ well_headed MessageTypeCommand (u32 txID) b).
  { split; [unfold b; rewrite len_cont, len_fld; lia|apply cont_headed]. }
  destruct sizes as [|s' sizes'].
  - exists [b]. cbn [fragments mbind go_bind mret go_ret]. split_and!; [done|done|by constructor|].
    cbn [collect]. unfold b. rewrite add_cont by lia. cbn [mbind go_bind].
    rewrite len_nil in *. rewrite bool_decide_eq_true_2 by lia. cbn [total_size]. by rewrite !Z.add_0_r.
  - destruct (IH (i + 1) (pos + s) (acc ++ fld info pos s)) as (l & Hl & Hll & Hw & Hc);
      [done|lia..|done|lia|].
    subst b. replace (i + (1 + len (s' :: sizes'))) with (i + 1 + len (s' :: sizes')) in * by lia.
    rewrite Hl. cbn [mbind go_bind mret go_ret]. eexists (_ :: l).
    split_and!; [done|cbn in *; lia|by constructor|].
    cbn [collect]. rewrite add_cont by lia. cbn [mbind go_bind].
    rewrite bool_decide_eq_false_2 by (rewrite len_cons in *; pose proof (len_nonneg sizes'); lia).
    rewrite Hc, <-app_assoc, fld_split by lia. done.
Qed.
End Split.

Lemma collect_single txID service cid ct info :
  len service = 16 →
  collect newCollector [encodeCommand txID service cid ct info] =
  Ok (true, started_collector service cid ct info 1 1 info).
Proof.
  intros. rewrite encodeCommand_first. cbn [collect]. rewrite add_first by done. done.
Qed.

Lemma collect_split txID service cid ct info firstCap contCap :
  len service = 16 → 0 < firstCap < len info → 0 < contCap → len info < 2 ^ 32 →
  let sizes := firstCap :: cont_sizes (length info) contCap (len info - firstCap) in
  ∃ l, fragments txID service cid ct info (u32 (len sizes)) sizes 0 0 = Ok l ∧
    Forall (λ b, len b ≤ Z.max (48 + firstCap) (20 + contCap) ∧
                 well_headed MessageTypeCommand (u32 txID) b) l ∧
    collect newCollector l =
      Ok (true, started_collector service cid ct info (len sizes) (len sizes) info).
Proof.
  intros Hserv Hf Hc Hlen. cbv zeta.
  destruct (cont_sizes_spec (length info) contCap (len info - firstCap)) as [Hs Ht];
    [lia|lia|unfold len; lia|].
  set (sizes := cont_sizes _ _ _) in *. pose proof (total_size_len _ _ Hs) as Hn.
  assert (Hne : sizes ≠ []) by (intros E; rewrite E in Ht; cbn in Ht; lia).
  pose proof (len_nonneg sizes). rewrite len_cons, u32_small by lia.
  destruct (fragments_cont txID service cid ct info sizes contCap 1 firstCap
              (fld info 0 firstCap)) as (l & Hl & _ & Hw & Hcol); [done|lia..|done|lia|].
  cbn [fragments]. rewrite slice_fld by lia. cbn [mbind go_bind].
  rewrite bool_decide_eq_true_2 by lia. rewrite Z.sub_0_r, !Z.add_0_l, Hl.
  cbn [mbind go_bind mret go_ret]. eexists; split_and!; [done| |].
  - constructor.
    + rewrite len_first, len_fld by lia. split; [lia|by apply first_headed].
    + eapply Forall_impl; [exact Hw|]. cbn. intros b [? ?]. split; [lia|done].
  - cbn [collect]. rewrite add_first by lia. cbn [mbind go_bind].
    pose proof (len_pos sizes Hne).
    rewrite bool_decide_eq_false_2 by lia. rewrite Hcol, fld_split by lia.
    replace (firstCap + total_size sizes) with (len info) by lia. by rewrite fld_all.
Qed.

(** C6: splitting and reassembly are inverse.  For every command that a 32-bit
    length can describe, [splitCommand] does not panic; each message it makes
    has the header of a COMMAND of this transaction with its own length, and is
    no longer than the negotiated [maxControlTransfer] when that leaves room for
    a payload; and feeding the messages to a new collector completes exactly at
    the last of them and gives back the service, the command identifier, the
    command type and the information buffer. *)
Theorem split_collect_roundtrip txID service cid ct info maxControlTransfer :
  len service = 16 → 0 ≤ cid < 2 ^ 32 → 0 ≤ ct < 2 ^ 32 → len info < 2 ^ 32 →
  ∃ l, splitCommand txID service cid ct info maxControlTransfer = Ok l ∧
    Forall (λ b, well_headed MessageTypeCommand (u32 txID) b ∧
                 (fixedCmdOffset < maxControlTransfer → len b ≤ maxControlTransfer)) l ∧
    ∃ c, collect newCollector l = Ok (true, c) ∧
      commandDone c = Ok (mkCommandDone service cid ct info).
Proof.
  intros Hserv Hcid Hct Hlen. pose proof (len_nonneg info).
  assert (Hdone : ∀ total next, commandDone (started_collector service cid ct info total next info)
            = Ok (mkCommandDone service cid ct info)).
  { intros. unfold commandDone. cbn. rewrite !u32_small by lia.
    by rewrite bool_decide_eq_false_2 by tauto. }
  unfold splitCommand. change fixedCmdOffset with 48. change (headerLen + fragHdrLen) with 20.
  case_bool_decide as Hcase.
  - eexists; split_and!; [done| |eexists; split; [by apply collect_single|apply Hdone]].
    constructor; [|done]. rewrite encodeCommand_first, len_first by done.
    split; [by apply first_headed|lia].
  - destruct (collect_split txID service cid ct info (maxControlTransfer - 48)
      (maxControlTransfer - 20)) as (l & Hl & Hw & Hcol); [done|lia..|].
    exists l. split_and!; [done| |eexists; split; [done|apply Hdone]].
    eapply Forall_impl; [exact Hw|]. cbn. intros b [? ?]. split; [done|lia].
Qed.

Lemma split_collect_roundtrip_witness :
  ∃ l, splitCommand 7 (make_bytes 16) 3 1 (make_bytes 100) 64 = Ok l ∧
    Forall (λ b, well_headed MessageTypeCommand (u32 7) b ∧
                 (fixedCmdOffset < 64 → len b ≤ 64)) l ∧
    ∃ c, collect newCollector l = Ok (true, c) ∧
      commandDone c = Ok (mkCommandDone (make_bytes 16) 3 1 (make_bytes 100)).
Proof.
  apply (split_collect_roundtrip 7 (make_bytes 16) 3 1 (make_bytes 100) 64);
    vm_compute; first [reflexivity | split; [discriminate|reflexivity]].
Defined.

Definition sample_fragments : list bytes :=
  match splitCommand 7 (make_bytes 16) 3 1 (make_bytes 40) 64 with Ok l => l | _ => [] end.

Lemma collector_sound_witness :
  ∃ c, collect newCollector sample_fragments = Ok (true, c) ∧ len sample_fragments = c_total c.
Proof.
  eexists. split; [vm_compute; reflexivity|].
  apply (collector_sound sample_fragments); [|vm_compute; reflexivity].
  apply (bool_decide_eq_true_1 _). vm_compute. reflexivity.
Defined.
