(* ===== verification/MbimStream.v ===== *)
(** * The stream transport of MBIM messages (pkg/mbim/transport.go)

    [streamTransport] cuts a byte stream into messages by the length field of
    their headers and writes a message through a writer that may accept it in
    pieces.  The reader and the writer are given by the list of the results
    that their successive calls return, so that the theorems range over every
    way the operating system can cut the stream. *)

From S2P Require Import Prelude MbimWire.

#[local] Open Scope Z_scope.

Definition maxMessageSize : Z := 64 * 1024.

Inductive io_error := EOF | ErrUnexpectedEOF | ErrNoProgress | ErrShortWrite | OtherIO.

#[global] Instance io_error_eq_dec : EqDecision io_error.
Proof. solve_decision. Defined.

(** Errors of the transport: those of the stream, and an unusable length field. *)
Inductive stream_error := IOError (e : io_error) | InvalidLength (n : Z).

(** One call of [Read]: the bytes it stored and its error. *)
Record read_result := mkRead { rd_data : bytes; rd_err : option io_error }.

(** The outcome of [ReadMessage]; [Blocked] is a call that still waits in
    [Read] when the given results are used up. *)
Inductive read_outcome :=
  | Message (msg : bytes)
  | ReadFailed (e : stream_error)
  | Blocked.

(** The framing decision at the head of the loop. *)
Inductive framing := NeedMore | BadLength (n : Z) | Frame (msg rest : bytes).

Definition next_frame (buf : bytes) : go stream_error framing :=
  if bool_decide (len buf >= headerLen) then
    msgLen ← get_u32 buf 4;
    if bool_decide (msgLen < headerLen) then Ok (BadLength msgLen)
    else if bool_decide (msgLen > maxMessageSize) then Ok (BadLength msgLen)
    else if bool_decide (len buf >= msgLen) then
      msg ← slice buf 0 msgLen; rest ← slice_from buf msgLen; Ok (Frame msg rest)
    else Ok NeedMore
  else Ok NeedMore.

(** [ReadMessage]: the outcome, the buffer it leaves, the unused reads. *)
Fixpoint ReadMessage (buf : bytes) (reads : list read_result)
    : go stream_error (read_outcome * bytes * list read_result) :=
  f ← next_frame buf;
  match f with
  | BadLength n => Ok (ReadFailed (InvalidLength n), buf, reads)
  | Frame msg rest => Ok (Message msg, rest, reads)
  | NeedMore =>
      match reads with
      | [] => Ok (Blocked, buf, [])
      | r :: reads =>
          let n := len (rd_data r) in
          let buf := if bool_decide (n > 0) then buf ++ rd_data r else buf in
          match rd_err r with
          | Some e =>
              if bool_decide (e = EOF ∧ len buf > 0)
              then Ok (ReadFailed (IOError ErrUnexpectedEOF), buf, reads)
              else Ok (ReadFailed (IOError e), buf, reads)
          | None =>
              if bool_decide (n = 0) then Ok (ReadFailed (IOError ErrNoProgress), buf, reads)
              else ReadMessage buf reads
          end
      end
  end.

(** One call of [Write]: how many bytes it accepted, and its error. *)
Record write_result := mkWrite { wr_n : Z; wr_err : option io_error }.

(** [WriteMessage]: the error, if any, and the bytes the writer accepted, in
    order.  [None] is a call that still waits in [Write]. *)
Fixpoint WriteMessage (msg : bytes) (writes : list write_result)
    : go stream_error (option (option stream_error) * bytes) :=
  if bool_decide (len msg > 0) then
    match writes with
    | [] => Ok (None, [])
    | w :: writes =>
        match wr_err w with
        | Some e => Ok (Some (Some (IOError e)), take (Z.to_nat (wr_n w)) msg)
        | None =>
            if bool_decide (wr_n w = 0) then Ok (Some (Some (IOError ErrShortWrite)), [])
            else
              rest ← slice_from msg (wr_n w);
              '(e, out) ← WriteMessage rest writes;
              Ok (e, take (Z.to_nat (wr_n w)) msg ++ out)
        end
    end
  else Ok (Some None, []).

(** ** Framing *)

(** A message whose length field is its length, within the accepted bounds. *)
Definition well_framed (m : bytes) : Prop :=
  headerLen ≤ len m ≤ maxMessageSize ∧ get_u32 (E:=stream_error) m 4 = Ok (len m).

Lemma safe_next_frame buf : safe (next_frame buf).
Proof.
  unfold next_frame, headerLen. case_bool_decide; [|done].
  rewrite get_u32_Ok by lia. cbn [mbind go_bind].
  case_bool_decide; [done|]. case_bool_decide; [done|]. case_bool_decide; [|done].
  rewrite slice_fld by lia. cbn [mbind go_bind]. by rewrite slice_from_fld by lia.
Qed.

Lemma next_frame_inv buf m rest :
  next_frame buf = Ok (Frame m rest) → buf = m ++ rest ∧ well_framed m.
Proof.
  unfold next_frame, well_framed, headerLen, maxMessageSize. case_bool_decide; [|done].
  rewrite get_u32_Ok by lia. cbn [mbind go_bind]. set (n := le_val (fld buf 4 4)).
  case_bool_decide; [done|]. case_bool_decide; [done|]. case_bool_decide; [|done].
  rewrite slice_fld, slice_from_drop by lia. cbn [mbind go_bind mret go_ret].
  rewrite Z.sub_0_r. intros [= <- <-]. rewrite len_fld by lia. split_and!; [|lia..|].
  - unfold fld. cbn. by rewrite take_drop.
  - rewrite get_u32_Ok by (rewrite ?len_fld by lia; lia).
    by rewrite fld_fld by lia.
Qed.

Lemma next_frame_app m rest : well_framed m → next_frame (m ++ rest) = Ok (Frame m rest).
Proof.
  intros [Hl Hg]. unfold next_frame, headerLen, maxMessageSize in *.
  pose proof (len_nonneg rest). rewrite len_app, bool_decide_eq_true_2 by lia.
  rewrite get_u32_Ok in * by (rewrite ?len_app; lia). cbn [mbind go_bind].
  rewrite fld_app_l by lia. injection Hg as ->.
  do 2 rewrite bool_decide_eq_false_2 by lia. rewrite bool_decide_eq_true_2 by lia.
  rewrite slice_fld by (rewrite ?len_app; lia). rewrite fld_app_l by lia.
  rewrite Z.sub_0_r, fld_all, slice_from_drop by (rewrite ?len_app; lia). cbn.
  by rewrite <-length_len, drop_app_length.
Qed.

Lemma next_frame_partial m a b :
  well_framed m → m = a ++ b → b ≠ [] → next_frame a = Ok NeedMore.
Proof.
  intros [Hl Hg] -> Hb. unfold next_frame, headerLen, maxMessageSize in *.
  case_bool_decide; [|done].
  pose proof (len_pos b Hb).
  rewrite len_app in *. rewrite get_u32_Ok in * by (rewrite ?len_app; lia). cbn [mbind go_bind].
  rewrite fld_app_l in Hg by lia. injection Hg as ->.
  by do 3 rewrite bool_decide_eq_false_2 by lia.
Qed.

(** ** Reading messages *)

(** [n] successive calls of [ReadMessage], which must all return a message. *)
Fixpoint read_messages (n : nat) (buf : bytes) (reads : list read_result)
    : option (list bytes * bytes * list read_result) :=
  match n with
  | O => Some ([], buf, reads)
  | S n =>
      match ReadMessage buf reads with
      | Ok (Message m, buf, reads) =>
          '(ms, buf, reads) ← read_messages n buf reads; Some (m :: ms, buf, reads)
      | _ => None
      end
  end.

Lemma safe_ReadMessage reads : ∀ buf, safe (ReadMessage buf reads).
Proof.
  induction reads as [|r reads IH]; intros buf; cbn [ReadMessage];
    (apply safe_bind; [apply safe_next_frame|intros [] _; try done]).
  cbv zeta. destruct (rd_err r); [by case_bool_decide|]. case_bool_decide; [done|apply IH].
Qed.

Lemma ReadMessage_first m chunks : ∀ buf t,
  well_framed m → Forall (λ c, c ≠ []) chunks → buf ++ concat chunks = m ++ t →
  ∃ buf' chunks', chunks' `suffix_of` chunks ∧
    ReadMessage buf ((λ c, mkRead c None) <$> chunks) =
      Ok (Message m, buf', (λ c, mkRead c None) <$> chunks') ∧
    buf' ++ concat chunks' = t.
Proof.
  induction chunks as [|c chunks IH]; intros buf t Hm Hne Heq.
  - exists t, []. cbn in *. rewrite app_nil_r in *. subst buf.
    by rewrite next_frame_app by done.
  - apply app_eq_inv in Heq as Heq'. destruct Heq' as [(k & Hb & Ht)|(k & Hb & Ht)].
    + exists k, (c :: chunks). split; [done|]. split; [|by rewrite Ht].
      cbn. rewrite Hb. by rewrite next_frame_app by done.
    + destruct k as [|x k].
      { exists [], (c :: chunks). split; [done|]. rewrite app_nil_r in Hb. subst m.
        split; [|by rewrite Ht]. cbn. rewrite <-(app_nil_r buf) at 1.
        by rewrite next_frame_app by done. }
      cbn [fmap list_fmap ReadMessage]. rewrite (next_frame_partial m buf (x :: k)) by done.
      cbn [mbind go_bind rd_data rd_err]. apply Forall_cons in Hne as [Hc Hne].
      pose proof (len_pos c Hc).
      rewrite (bool_decide_eq_true_2 (len c > 0)) by lia.
      rewrite (bool_decide_eq_false_2 (len c = 0)) by lia.
      destruct (IH (buf ++ c) t) as (buf' & chunks' & Hsuf & Hr & ?); [done..| |].
      { by rewrite <-app_assoc. }
      exists buf', chunks'. split_and!; [by apply suffix_cons_r|done|done].
Qed.

(** Framing does not depend on how the stream is cut.  Whatever sequence of
    non-empty reads delivers the concatenation of some well-framed messages,
    the successive calls of [ReadMessage] return exactly these messages in
    order, and leave nothing in the buffer or the stream. *)
Theorem stream_chunking msgs chunks :
  Forall well_framed msgs → Forall (λ c, c ≠ []) chunks → concat chunks = concat msgs →
  read_messages (length msgs) [] ((λ c, mkRead c None) <$> chunks) = Some (msgs, [], []).
Proof.
  intros Hm Hne Heq.
  enough (∀ buf, buf ++ concat chunks = concat msgs →
    read_messages (length msgs) buf ((λ c, mkRead c None) <$> chunks) = Some (msgs, [], []))
    by auto.
  clear Heq. revert chunks Hne. induction Hm as [|m msgs Hm Hms IH]; intros chunks Hne buf Heq.
  - cbn in Heq. apply app_eq_nil in Heq as [-> Hc]. cbn. destruct Hne as [|c ? Hc']; [done|].
    apply app_eq_nil in Hc as [-> _]. done.
  - destruct (ReadMessage_first m chunks buf (concat msgs)) as (buf' & chunks' & Hs & Hr & Ht);
      [done..|].
    cbn [length read_messages]. rewrite Hr, IH; [done| |done].
    destruct Hs as [k ->]. by apply Forall_app in Hne as [_ ?].
Qed.

Lemma stream_chunking_witness :
  read_messages 2 [] ((λ c, mkRead c None) <$>
    [take 5 (encodeClose 9); drop 5 (encodeClose 9) ++ take 14 (encodeOpen 3 4096);
     drop 14 (encodeOpen 3 4096)]) = Some ([encodeClose 9; encodeOpen 3 4096], [], []).
Proof.
  apply (stream_chunking [encodeClose 9; encodeOpen 3 4096]);
    [repeat constructor; vm_compute; discriminate || reflexivity
    |repeat constructor; vm_compute; discriminate|vm_compute; reflexivity].
Defined.

(** No byte is invented, lost or reordered, whatever the reader returns.
    [ReadMessage] never panics; a message it returns is well framed (12 to
    65536 bytes, its length field equal to its length); and the bytes received
    so far are that message followed by the bytes it keeps and those not read
    yet. *)
Theorem stream_conserves reads buf out buf' reads' :
  ReadMessage buf reads = Ok (out, buf', reads') →
  ∃ used, reads = used ++ reads' ∧
    match out with
    | Message m => well_framed m ∧ buf ++ concat (rd_data <$> used) = m ++ buf'
    | _ => buf ++ concat (rd_data <$> used) = buf'
    end.
Proof.
  revert buf. induction reads as [|r reads IH]; intros buf; cbn [ReadMessage];
    (destruct (next_frame buf) as [[|n|m rest]| |] eqn:Hf; [..|done|done];
     cbn [mbind go_bind]; [|intros [= <- <- <-]; exists []; by rewrite ?app_nil_r|
       intros [= <- <- <-]; exists []; apply next_frame_inv in Hf as [-> ?];
       by rewrite ?app_nil_r]).
  - intros [= <- <- <-]. exists []. by rewrite ?app_nil_r.
  - cbv zeta. set (buf1 := if bool_decide (len (rd_data r) > 0) then buf ++ rd_data r else buf).
    assert (Hbuf : buf1 = buf ++ rd_data r).
    { unfold buf1. case_bool_decide as H; [done|].
      by rewrite (len_0_nil (rd_data r)), app_nil_r by lia. }
    rewrite Hbuf. clear buf1 Hbuf.
    destruct (rd_err r).
    { case_bool_decide; intros [= <- <- <-]; exists [r]; cbn; by rewrite app_nil_r. }
    case_bool_decide.
    { intros [= <- <- <-]. exists [r]. cbn. by rewrite app_nil_r. }
    intros (used & -> & Hu)%IH. exists (r :: used). split; [done|].
    cbn. by rewrite app_assoc.
Qed.

Lemma stream_conserves_witness :
  ∃ used, [mkRead (encodeClose 9 ++ [1; 2]) None] = used ++ [] ∧
    (well_framed (encodeClose 9) ∧
     [] ++ concat (rd_data <$> used) = encodeClose 9 ++ [1; 2]).
Proof.
  apply (stream_conserves [mkRead (encodeClose 9 ++ [1; 2]) None] [] (Message (encodeClose 9)) [1; 2] []).
  vm_compute. reflexivity.
Defined.

(** ** Writing *)

(** A writer obeys the [io.Writer] contract on a buffer of [n] bytes. *)
Fixpoint lawful_writes (n : Z) (writes : list write_result) : Prop :=
  match writes with
  | [] => True
  | w :: writes => 0 ≤ wr_n w ≤ n ∧ lawful_writes (n - wr_n w) writes
  end.

Lemma WriteMessage_prefix writes : ∀ msg,
  lawful_writes (len msg) writes →
  ∃ e out rest, WriteMessage msg writes = Ok (e, out) ∧ msg = out ++ rest ∧
    (e = Some None → rest = []).
Proof.
  induction writes as [|w writes IH]; intros msg; cbn [WriteMessage lawful_writes].
  - intros _. case_bool_decide as H; [by exists None, [], msg|].
    exists (Some None), [], msg. split_and!; [done..|]. intros _. apply len_0_nil. lia.
  - intros [Hn Hl]. case_bool_decide as H; cycle 1.
    { exists (Some None), [], msg. split_and!; [done..|]. intros _. apply len_0_nil. lia. }
    destruct (wr_err w) as [e|].
    { eexists _, _, (drop (Z.to_nat (wr_n w)) msg). split; [done|]. by rewrite take_drop. }
    case_bool_decide; [by exists (Some (Some (IOError ErrShortWrite))), [], msg|].
    rewrite slice_from_drop by lia. cbn [mbind go_bind].
    destruct (IH (drop (Z.to_nat (wr_n w)) msg)) as (e & out & rest & -> & Ho & Hr).
    { rewrite len_drop. by replace (Z.max 0 (len msg - Z.of_nat (Z.to_nat (wr_n w))))
        with (len msg - wr_n w) by lia. }
    cbn. eexists _, _, rest. split; [done|]. split; [|done].
    by rewrite <-app_assoc, <-Ho, take_drop.
Qed.

(** C14: [WriteMessage] writes whole messages.  Against any lawful writer it
    does not panic, the bytes the writer accepted are a prefix of the message in
    order, and on success they are all of it. *)
Theorem write_complete msg writes :
  lawful_writes (len msg) writes →
  ∃ e out, WriteMessage msg writes = Ok (e, out) ∧ out `prefix_of` msg ∧
    (e = Some None → out = msg).
Proof.
  intros (e & out & rest & -> & -> & Hr)%WriteMessage_prefix.
  exists e, out. split_and!; [done|by exists rest|].
  intros E. rewrite (Hr E). by rewrite app_nil_r.
Qed.

Lemma write_complete_witness :
  ∃ e out, WriteMessage [1; 2; 3] [mkWrite 2 None; mkWrite 1 None] = Ok (e, out) ∧
    out `prefix_of` [1; 2; 3] ∧ (e = Some None → out = [1; 2; 3]).
Proof. apply (write_complete [1; 2; 3]). vm_compute. repeat split; discriminate. Defined.
