(* ===== verification/MbimInfo.v ===== *)
(** * MBIM information buffers (pkg/mbim/databuffer.go)

    The bounds-checked reader that every response parser of the package uses,
    and the encoders of text and padding of the requests (encodeUTF16LE in
    register.go, pad4 in sms.go).  A reader is the buffer it reads. *)

From S2P Require Import Prelude GoUnicode MbimWire.

#[local] Open Scope Z_scope.

Section Reader.
Context `{IntSize}.

Definition u32At (r : bytes) (pos : Z) : go error Z :=
  if bool_decide (pos < 0 ∨ pos > len r - 4) then Err PlainError
  else s ← slice r pos (pos + 4); le_u32 s.

Definition u64At (r : bytes) (pos : Z) : go error Z :=
  if bool_decide (pos < 0 ∨ pos > len r - 8) then Err PlainError
  else s ← slice r pos (pos + 8); le_u64 s.

(** The loop of [decodeUTF16Range] over the code units; [n] bounds its turns. *)
Fixpoint utf16_units (n : nat) (b : bytes) (pos limit : Z) : go error (list Z) :=
  match n with
  | O => Ok []
  | S n =>
      if bool_decide (pos < limit) then
        s ← slice b pos (pos + 2); u ← le_u16 s;
        us ← utf16_units n b (pos + 2) limit; Ok (u :: us)
      else Ok []
  end.

Definition decodeUTF16Range (b : bytes) (offset length : Z) : go error bytes :=
  if bool_decide (length = 0) then Ok []
  else if bool_decide (length `mod` 2 ≠ 0) then Err PlainError
  else
    let end' := offset + length in
    if bool_decide (end' > len b) then Err PlainError
    else
      us ← utf16_units (Z.to_nat (length / 2)) b (int offset) (int end');
      Ok (utf8_encode (utf16_decode us)).

Definition stringAt (r : bytes) (pairPos : Z) : go error bytes :=
  offset ← u32At r pairPos; length ← u32At r (int (pairPos + 4));
  if bool_decide (length = 0) then Ok [] else decodeUTF16Range r offset length.

Definition stringArrayCountAt (r : bytes) (countPos : Z) : go error (list bytes) :=
  count ← u32At r countPos;
  _ ← make_cap count;
  for_u32 count (λ i out,
    s ← stringAt r (int (countPos + 4 + i * 8)); Ok (out ++ [s])) [].

Definition uiccByteArrayAt (r : bytes) (pairPos : Z) : go error bytes :=
  size ← u32At r pairPos; offset ← u32At r (int (pairPos + 4));
  if bool_decide (size = 0) then Ok []
  else if bool_decide (offset + size > len r) then Err PlainError
  else slice r offset (offset + size).

Definition byteArrayAt (r : bytes) (pairPos : Z) : go error bytes :=
  offset ← u32At r pairPos; size ← u32At r (int (pairPos + 4));
  if bool_decide (size = 0) then Ok []
  else if bool_decide (offset + size > len r) then Err PlainError
  else slice r offset (offset + size).

(** [x, _ := r.u32At(pos)] and the same for 64 bits and for strings. *)
Definition u32At_ (r : bytes) (pos : Z) : go error Z := go_ignore 0 (u32At r pos).
Definition u64At_ (r : bytes) (pos : Z) : go error Z := go_ignore 0 (u64At r pos).
Definition stringAt_ (r : bytes) (pos : Z) : go error bytes := go_ignore [] (stringAt r pos).
End Reader.

(** ** Encoders *)

(** [encodeUTF16LE]: the loop writes unit [i] at offset [2i]. *)
Definition encodeUTF16LE (s : bytes) : bytes :=
  concat ((λ u, le_bytes 2 (u16 u)) <$> utf16_encode (runes s)).

(** [(n + 3) &^ 3] *)
Definition pad4 (n : Z) : Z := Z.ldiff (n + 3) 3.

(** ** Lemmas *)

Lemma safe_u32At r pos : safe (u32At r pos).
Proof.
  unfold u32At. case_bool_decide; [done|]. rewrite slice_fld by lia. cbn [mbind go_bind].
  apply safe_le_u32. rewrite len_fld; lia.
Qed.

Lemma safe_u64At r pos : safe (u64At r pos).
Proof.
  unfold u64At. case_bool_decide; [done|]. rewrite slice_fld by lia. cbn [mbind go_bind].
  apply safe_le_u64. rewrite len_fld; lia.
Qed.

Lemma u32At_get r pos : 0 ≤ pos → pos + 4 ≤ len r → u32At r pos = get_u32 r pos.
Proof.
  intros. unfold u32At. rewrite bool_decide_eq_false_2 by lia. rewrite slice_fld by lia.
  rewrite get_u32_Ok by lia. cbn [mbind go_bind]. unfold le_u32.
  rewrite bool_decide_eq_false_2 by (rewrite len_fld; lia).
  rewrite take_ge; [do 2 f_equal; f_equal; lia|].
  unfold fld. rewrite length_take. lia.
Qed.

Lemma u32At_range r pos v : bytes_ok r → u32At r pos = Ok v → 0 ≤ v < 2 ^ 32.
Proof.
  intros Hr. unfold u32At. case_bool_decide; [done|].
  rewrite slice_fld by lia. cbn [mbind go_bind]. intros Hv. eapply le_u32_range; [|exact Hv].
  apply bytes_ok_take, bytes_ok_drop, Hr.
Qed.

Lemma safe_u32At_ r pos : safe (u32At_ r pos).
Proof. apply safe_ignore, safe_u32At. Qed.

Lemma safe_u64At_ r pos : safe (u64At_ r pos).
Proof. apply safe_ignore, safe_u64At. Qed.

Lemma u32At__range r pos v : bytes_ok r → u32At_ r pos = Ok v → 0 ≤ v < 2 ^ 32.
Proof.
  intros Hr. unfold u32At_. destruct (u32At r pos) eqn:E; cbn; [|intros [= <-]; lia|done].
  intros [= <-]. by eapply u32At_range.
Qed.

Lemma u32At__get r pos : 0 ≤ pos → pos + 4 ≤ len r → u32At_ r pos = get_u32 r pos.
Proof. intros. unfold u32At_. rewrite u32At_get by done. by rewrite get_u32_Ok by done. Qed.

Lemma pad4_spec n : 0 ≤ n → pad4 n = 4 * ((n + 3) / 4).
Proof.
  intros. unfold pad4. change 3 with (Z.ones 2) at 2. rewrite Z.ldiff_ones_r by lia.
  rewrite Z.shiftl_mul_pow2, Z.shiftr_div_pow2 by lia. change (2 ^ 2) with 4. lia.
Qed.

Lemma pad4_bounds n : 0 ≤ n → n ≤ pad4 n < n + 4 ∧ pad4 n `mod` 4 = 0.
Proof. intros. rewrite pad4_spec by done. zdiv. Qed.

Lemma pad4_le n : 0 ≤ n → n ≤ pad4 n.
Proof. intros ?%pad4_bounds. lia. Qed.

Section ReaderLemmas.
Context `{HI : IntSize}.
Hypothesis int_pos : 0 < int_bits.

Lemma utf16_units_ok n b : ∀ pos,
  0 ≤ pos → pos + 2 * Z.of_nat n ≤ len b →
  safe (utf16_units n b pos (pos + 2 * Z.of_nat n)).
Proof.
  induction n as [|n IH]; intros pos Hp Hl; [done|]. cbn [utf16_units].
  rewrite bool_decide_eq_true_2 by lia. rewrite slice_fld by lia. cbn [mbind go_bind].
  apply safe_bind; [apply safe_le_u16; rewrite len_fld; lia|]. intros u _.
  apply safe_bind; [|done].
  replace (pos + 2 * Z.of_nat (S n)) with (pos + 2 + 2 * Z.of_nat n) by lia. apply IH; lia.
Qed.

Lemma safe_decodeUTF16Range b offset length :
  buf_ok b → 0 ≤ offset → 0 ≤ length → safe (decodeUTF16Range b offset length).
Proof.
  intros [_ Hb] Ho Hn. unfold decodeUTF16Range. case_bool_decide; [done|].
  case_bool_decide; [done|]. case_bool_decide; [done|].
  rewrite !int_id by lia. apply safe_bind; [|done].
  replace (offset + length) with (offset + 2 * Z.of_nat (Z.to_nat (length / 2))) by zdiv.
  apply utf16_units_ok; zdiv.
Qed.

Lemma safe_stringAt r pos : buf_ok r → safe (stringAt r pos).
Proof.
  intros Hr. unfold stringAt. apply safe_bind; [apply safe_u32At|]. intros o Ho.
  apply safe_bind; [apply safe_u32At|]. intros l Hl. case_bool_decide; [done|].
  apply u32At_range in Ho, Hl; [|apply Hr..]. apply safe_decodeUTF16Range; [done|lia..].
Qed.

Lemma safe_stringAt_ r pos : buf_ok r → safe (stringAt_ r pos).
Proof. intros. by apply safe_ignore, safe_stringAt. Qed.

Lemma byteArrayAt_buf r pos v : buf_ok r → byteArrayAt r pos = Ok v → buf_ok v.
Proof.
  intros [Hr Hl]. unfold byteArrayAt.
  destruct (u32At r pos) as [o| |] eqn:Ho; [|done|done].
  destruct (u32At r (int (pos + 4))) as [n| |] eqn:Hn; [|done|done]. cbn [mbind go_bind].
  case_bool_decide. { intros [= <-]. split; [constructor|cbn]. pose proof (len_nonneg r). by etransitivity. }
  case_bool_decide; [done|]. intros Hv. split; [by eapply slice_bytes_ok|].
  apply u32At_range in Ho, Hn; [|done..]. apply slice_len in Hv. lia.
Qed.

Lemma slice_buf b i j r : buf_ok b → slice (E:=error) b i j = Ok r → buf_ok r.
Proof.
  intros [Hb Hl] Hs. split; [by eapply slice_bytes_ok|].
  apply slice_inv in Hs as [? ->]. rewrite len_take, len_drop. lia.
Qed.

Lemma safe_byteArrayAt r pos : buf_ok r → safe (byteArrayAt r pos).
Proof.
  intros Hr. unfold byteArrayAt. apply safe_bind; [apply safe_u32At|]. intros o Ho.
  apply safe_bind; [apply safe_u32At|]. intros l Hl. case_bool_decide; [done|].
  case_bool_decide; [done|]. apply u32At_range in Ho, Hl; [|apply Hr..].
  apply safe_slice; lia.
Qed.

Lemma safe_uiccByteArrayAt r pos : buf_ok r → safe (uiccByteArrayAt r pos).
Proof.
  intros Hr. unfold uiccByteArrayAt. apply safe_bind; [apply safe_u32At|]. intros l Hl.
  apply safe_bind; [apply safe_u32At|]. intros o Ho. case_bool_decide; [done|].
  case_bool_decide; [done|]. apply u32At_range in Ho, Hl; [|apply Hr..].
  apply safe_slice; lia.
Qed.

Lemma safe_stringArrayCountAt r pos :
  int_bits = 64 → buf_ok r → safe (stringArrayCountAt r pos).
Proof.
  intros H64 Hr. unfold stringArrayCountAt. apply safe_bind; [apply safe_u32At|]. intros n Hn.
  apply u32At_range in Hn; [|apply Hr].
  apply safe_bind; [by apply safe_make_cap|]. intros _ _. apply safe_for_u32. intros i s _.
  apply safe_bind; [by apply safe_stringAt|done].
Qed.

(** ** What the reader finds behind a reference *)

Lemma utf16_units_text b us : ∀ pos,
  Forall (λ u, 0 ≤ u < 2 ^ 16) us → 0 ≤ pos → pos + 2 * len us ≤ len b →
  fld b pos (2 * len us) = concat ((λ u, le_bytes 2 (u16 u)) <$> us) →
  utf16_units (length us) b pos (pos + 2 * len us) = Ok us.
Proof.
  induction us as [|u us IH]; intros pos Hus Hp Hl Hf; [done|].
  apply Forall_cons in Hus as [Hu Hus]. rewrite len_cons in *. pose proof (len_nonneg us).
  cbn [length utf16_units]. rewrite bool_decide_eq_true_2 by lia.
  rewrite slice_fld by lia. cbn [mbind go_bind].
  replace (2 * (1 + len us)) with (2 + 2 * len us) in * by lia.
  rewrite <-fld_split in Hf by lia. cbn [fmap list_fmap concat] in Hf.
  apply app_inj_1 in Hf as [Hf1 Hf2].
  2: { rewrite length_le_bytes, length_len, len_fld by lia. done. }
  replace (pos + 2 - pos) with 2 by lia. rewrite Hf1, <-(app_nil_r (le_bytes 2 (u16 u))).
  unfold u16. rewrite Z.mod_small by lia. rewrite le_u16_bytes by done. cbn [mbind go_bind].
  replace (pos + (2 + 2 * len us)) with (pos + 2 + 2 * len us) by lia.
  rewrite IH; [done|done|lia|lia|done].
Qed.

Lemma len_encodeUTF16LE s : len (encodeUTF16LE s) = 2 * len (utf16_encode (runes s)).
Proof.
  unfold encodeUTF16LE. induction (utf16_encode (runes s)) as [|u us IH]; [done|].
  cbn [fmap list_fmap concat]. rewrite len_app, len_cons, IH, len_le_bytes. lia.
Qed.

Lemma decode_text b offset s :
  buf_ok b → bytes_ok s → 0 ≤ offset → offset + len (encodeUTF16LE s) ≤ len b →
  fld b offset (len (encodeUTF16LE s)) = encodeUTF16LE s →
  decodeUTF16Range b offset (len (encodeUTF16LE s)) = Ok (to_valid s).
Proof.
  intros [_ Hb] Hs Ho Hl Hf. rewrite len_encodeUTF16LE in *.
  set (us := utf16_encode (runes s)) in *. unfold decodeUTF16Range.
  pose proof (len_nonneg us). case_bool_decide as H0.
  { unfold us in *. assert (E : utf16_encode (runes s) = []) by (apply len_0_nil; lia).
    rewrite <-utf16_text by done. by rewrite E. }
  rewrite bool_decide_eq_false_2 by (rewrite Z.mul_comm, Z.mod_mul; lia).
  rewrite bool_decide_eq_false_2 by lia. rewrite !int_id by lia.
  replace (Z.to_nat (2 * len us / 2)) with (length us)
    by (rewrite Z.mul_comm, Z.div_mul by lia; unfold len; lia).
  rewrite utf16_units_text; [cbn; unfold us; by rewrite utf16_text|apply utf16_encode_range|lia|lia|done].
Qed.

(** An (offset, size) pair at [pos], and one in the swapped order. *)
Definition ref_at (b : bytes) (pos off size : Z) : Prop :=
  get_u32 (E:=error) b pos = Ok off ∧ get_u32 (E:=error) b (pos + 4) = Ok size.

Lemma byteArrayAt_ref b pos off size :
  buf_ok b → ref_at b pos off size → 0 ≤ pos → pos + 8 ≤ len b →
  0 ≤ off → 0 ≤ size → off + size ≤ len b →
  byteArrayAt b pos = Ok (fld b off size).
Proof.
  intros [_ Hb] [Ho Hs] Hp Hl Hoff Hsize Hend. unfold byteArrayAt.
  rewrite int_id, !u32At_get, Ho by lia. cbn [mbind go_bind]. rewrite Hs. cbn [mbind go_bind].
  case_bool_decide; [by subst size|]. rewrite bool_decide_eq_false_2 by lia.
  rewrite slice_fld by lia. by replace (off + size - off) with size by lia.
Qed.

Lemma uiccByteArrayAt_ref b pos off size :
  buf_ok b → ref_at b pos size off → 0 ≤ pos → pos + 8 ≤ len b →
  0 ≤ off → 0 ≤ size → off + size ≤ len b →
  uiccByteArrayAt b pos = Ok (fld b off size).
Proof.
  intros [_ Hb] [Ho Hs] Hp Hl Hoff Hsize Hend. unfold uiccByteArrayAt.
  rewrite int_id, !u32At_get, Ho by lia. cbn [mbind go_bind]. rewrite Hs. cbn [mbind go_bind].
  case_bool_decide; [by subst size|]. rewrite bool_decide_eq_false_2 by lia.
  rewrite slice_fld by lia. by replace (off + size - off) with size by lia.
Qed.

Lemma byteArrayAt_data b pos off data :
  buf_ok b → 0 ≤ pos → pos + 8 ≤ len b → 0 ≤ off → off + len data ≤ len b →
  ref_at b pos off (len data) → fld b off (len data) = data → byteArrayAt b pos = Ok data.
Proof.
  intros. pose proof (len_nonneg data).
  rewrite (byteArrayAt_ref b pos off (len data)) by done. congruence.
Qed.

Lemma uiccByteArrayAt_data b pos off data :
  buf_ok b → 0 ≤ pos → pos + 8 ≤ len b → 0 ≤ off → off + len data ≤ len b →
  ref_at b pos (len data) off → fld b off (len data) = data → uiccByteArrayAt b pos = Ok data.
Proof.
  intros. pose proof (len_nonneg data).
  rewrite (uiccByteArrayAt_ref b pos off (len data)) by done. congruence.
Qed.

Lemma stringAt_text b pos off s :
  buf_ok b → bytes_ok s → 0 ≤ pos → pos + 8 ≤ len b →
  0 ≤ off → off + len (encodeUTF16LE s) ≤ len b → ref_at b pos off (len (encodeUTF16LE s)) →
  fld b off (len (encodeUTF16LE s)) = encodeUTF16LE s →
  stringAt b pos = Ok (to_valid s).
Proof.
  intros Hb Hs Hp Hl Hoff Hend [Ho Hn] Hf. pose proof Hb as [_ Hlen]. unfold stringAt.
  rewrite int_id, !u32At_get, Ho by lia. cbn [mbind go_bind]. rewrite Hn. cbn [mbind go_bind].
  rewrite decode_text by done. case_bool_decide as H0; [|done].
  apply decode_text in Hf; [|done..]. rewrite H0 in Hf. unfold decodeUTF16Range in Hf.
  rewrite bool_decide_eq_true_2 in Hf by done. congruence.
Qed.

Lemma encodeUTF16LE_bytes s : bytes_ok (encodeUTF16LE s).
Proof.
  unfold encodeUTF16LE. induction (utf16_encode (runes s)) as [|u us IH]; [constructor|].
  cbn. constructor; [apply Z.mod_pos_bound; lia|].
  constructor; [apply Z.mod_pos_bound; lia|done].
Qed.
End ReaderLemmas.

#[export] Hint Resolve safe_u32At safe_u64At safe_u32At_ safe_u64At_ safe_stringAt
  safe_stringAt_ safe_byteArrayAt safe_uiccByteArrayAt safe_stringArrayCountAt
  safe_decodeUTF16Range : go.

(** Panic-freedom of a parser, statement by statement.  What is known of a
    value that was read is recorded: a word is a 32-bit number, and a byte
    array or a sub-slice of a buffer in memory is one too. *)
Ltac read_fact H :=
  first
    [ apply u32At_range in H; [|by destruct_and?; match goal with B : buf_ok _ |- _ => apply B end]
    | apply u32At__range in H; [|by destruct_and?; match goal with B : buf_ok _ |- _ => apply B end]
    | apply le_u32_range in H; [|by match goal with B : buf_ok _ |- _ => apply B end]
    | eapply byteArrayAt_buf in H; [|eassumption..]
    | pose proof (slice_len _ _ _ _ H); eapply slice_buf in H; [|eassumption..]
    | idtac ].

Ltac safe_step :=
  match goal with
  | |- safe (Ok _) => exact (safe_Ok _)
  | |- safe (Err _) => exact (safe_Err _)
  | |- safe (if bool_decide _ then _ else _) => case_bool_decide
  | |- safe (if ?b then _ else _) => destruct b
  | |- safe (_ ≫= _) => apply safe_bind; [|let H := fresh "Hread" in intros ? H; read_fact H]
  | |- safe (for_u32 _ _ _) => apply safe_for_u32; intros ? ? ?
  | |- safe (let _ := _ in _) => cbv zeta
  | |- safe (slice _ _ _) =>
      repeat case_bool_decide; apply safe_slice; rewrite ?u32_small by lia; lia
  | |- safe (le_u16 _) => apply safe_le_u16; lia
  | |- safe (le_u32 _) => apply safe_le_u32; lia
  | |- safe (le_u64 _) => apply safe_le_u64; lia
  | |- safe (slice_from _ _) => apply safe_slice_from; lia
  | |- safe (make_cap _) => apply safe_make_cap; [assumption|lia]
  | |- safe (match _ with Ok _ => _ | Err _ => _ | Panic => Panic end) =>
      apply safe_match; [|let H := fresh "Hread" in intros ? H; read_fact H|intros ?]
  | |- safe (let '(_, _) := ?x in _) => destruct x
  | |- safe _ => solve [eauto with go lia]
  | |- safe (match ?x with _ => _ end) => destruct x eqn:?
  end.
