(* ===== verification/MbimRecords.v ===== *)
(** * MBIM services: requests and responses (pkg/mbim, one section per file)

    Every exported query or set of the package sends one command and parses
    the information buffer of its COMMAND_DONE.  It is an [exchange]: the
    service, command identifier, type and buffer that [Device.Command] is
    called with, and the function that turns the completed command into the
    result.  [Device.Command] itself is modelled in MbimDevice. *)

From S2P Require Import Prelude GoUnicode GoNet MbimWire MbimInfo.

#[local] Open Scope Z_scope.

(** ** protocol.go *)

Definition CIDBasicConnectDeviceCaps : Z := 1.
Definition CIDBasicConnectSubscriberReadyStatus : Z := 2.
Definition CIDBasicConnectRadioState : Z := 3.
Definition CIDBasicConnectHomeProvider : Z := 7.
Definition CIDBasicConnectVisibleProviders : Z := 8.
Definition CIDBasicConnectRegisterState : Z := 9.
Definition CIDBasicConnectPacketService : Z := 10.
Definition CIDBasicConnectSignalState : Z := 11.
Definition CIDBasicConnectConnect : Z := 12.
Definition CIDBasicConnectIPConfiguration : Z := 15.
Definition CIDBasicConnectDeviceServices : Z := 16.
Definition CIDBasicConnectDeviceServiceSubscribeList : Z := 19.
Definition CIDProxyControlConfiguration : Z := 1.
Definition CIDSMSConfiguration : Z := 1.
Definition CIDSMSRead : Z := 2.
Definition CIDSMSSend : Z := 3.
Definition CIDSMSDelete : Z := 4.
Definition CIDUSSD : Z := 1.
Definition SMSFlagAll : Z := 0.
Definition SMSFlagIndex : Z := 1.
Definition SMSFormatPDU : Z := 0.
Definition CIDUICCOpenChannel : Z := 2.
Definition CIDUICCCloseChannel : Z := 3.
Definition CIDUICCAPDU : Z := 4.
Definition CIDUICCApplicationList : Z := 7.
Definition CIDUICCReadBinary : Z := 9.
Definition CIDUICCReadRecord : Z := 10.
Definition CIDAuthAKA : Z := 1.
Definition CIDAuthSIM : Z := 3.
Definition CIDMSBasicConnectExtDeviceReset : Z := 10.
Definition CIDMSBasicConnectExtSlotInfoStatus : Z := 8.
Definition CIDMSBasicConnectExtVersion : Z := 15.
Definition CIDQMIMsg : Z := 1.

Definition UUIDBasicConnect : bytes :=
  [0xa2; 0x89; 0xcc; 0x33; 0xbc; 0xbb; 0x8b; 0x4f; 0xb6; 0xb0; 0x13; 0x3e; 0xc2; 0xaa; 0xe6; 0xdf].
Definition UUIDSMS : bytes :=
  [0x53; 0x3f; 0xbe; 0xeb; 0x14; 0xfe; 0x44; 0x67; 0x9f; 0x90; 0x33; 0xa2; 0x23; 0xe5; 0x6c; 0x3f].
Definition UUIDUSSD : bytes :=
  [0xe5; 0x50; 0xa0; 0xc8; 0x5e; 0x82; 0x47; 0x9e; 0x82; 0xf7; 0x10; 0xab; 0xf4; 0xc3; 0x35; 0x1f].
Definition UUIDProxyControl : bytes :=
  [0x83; 0x8c; 0xf7; 0xfb; 0x8d; 0x0d; 0x4d; 0x7f; 0x87; 0x1e; 0xd7; 0x1d; 0xbe; 0xfb; 0xb3; 0x9b].
Definition UUIDMSUICCLowLevelAccess : bytes :=
  [0xc2; 0xf6; 0x58; 0x8e; 0xf0; 0x37; 0x4b; 0xc9; 0x86; 0x65; 0xf4; 0xd4; 0x4b; 0xd0; 0x93; 0x67].
Definition UUIDMSBasicConnectExtensions : bytes :=
  [0x3d; 0x01; 0xdc; 0xc5; 0xfe; 0xf5; 0x4d; 0x05; 0x0d; 0x3a; 0xbe; 0xf7; 0x05; 0x8e; 0x9a; 0xaf].
Definition UUIDAuth : bytes :=
  [0x1d; 0x2b; 0x5f; 0xf7; 0x0a; 0xa1; 0x48; 0xb2; 0xaa; 0x52; 0x50; 0xf1; 0x57; 0x67; 0x17; 0x4e].
Definition UUIDContextTypeInternet : bytes :=
  [0x7e; 0x5e; 0x2a; 0x7e; 0x4e; 0x6f; 0x72; 0x72; 0x73; 0x6b; 0x65; 0x6e; 0x7e; 0x5e; 0x2a; 0x7e].
Definition UUIDQMI : bytes :=
  [0xd1; 0xa3; 0x0b; 0xc2; 0xf9; 0x7a; 0x6e; 0x43; 0xbf; 0x65; 0xc7; 0xe2; 0x4f; 0xb0; 0xf0; 0xd3].

(** ** Exchanges *)

Record exchange (A : Type) := mkExchange {
  ex_service : bytes; ex_cid : Z; ex_ct : Z; ex_info : bytes;
  ex_done : CommandDone → go error A;
}.
Arguments mkExchange {A}.
Arguments ex_service {A}. Arguments ex_cid {A}. Arguments ex_ct {A}.
Arguments ex_info {A}. Arguments ex_done {A}.

(** [if resp.Status != 0 { return fmt.Errorf(...) }; return parse(resp.InfoBuffer)] *)
Definition on_success {A} (parse : bytes → go error A) (resp : CommandDone) : go error A :=
  if bool_decide (cd_Status resp ≠ 0) then Err PlainError else parse (cd_InfoBuffer resp).

(** The same with a [*StatusError]. *)
Definition on_success' {A} (parse : bytes → go error A) (resp : CommandDone) : go error A :=
  if bool_decide (cd_Status resp ≠ 0) then Err (StatusError (cd_Status resp))
  else parse (cd_InfoBuffer resp).

Section Parsers.
Context `{IntSize}.

(** ** reset.go, version.go *)

Definition DeviceReset : exchange unit :=
  mkExchange UUIDMSBasicConnectExtensions CIDMSBasicConnectExtDeviceReset CommandTypeSet []
    (on_success (λ _, Ok tt)).

Definition encodeVersionInfo (mbimVer mbimExVer : Z) : bytes :=
  put_u16 2 mbimExVer (put_u16 0 mbimVer (make_bytes 4)).

Definition NegotiateVersion (hostMBIM hostMBIMEx : Z) : exchange (Z * Z) :=
  mkExchange UUIDMSBasicConnectExtensions CIDMSBasicConnectExtVersion CommandTypeQuery
    (encodeVersionInfo hostMBIM hostMBIMEx)
    (on_success (λ info,
      if bool_decide (len info < 4) then Err PlainError
      else
        a ← slice_from info 0; devMBIM ← le_u16 a;
        b ← slice_from info 2; devMBIMEx ← le_u16 b; Ok (devMBIM, devMBIMEx))).

(** ** basicconnect.go *)

Record Caps := mkCaps {
  DeviceType : Z; caps_CellularClass : Z; DataClass : Z; SmsCaps : Z;
  DeviceID : bytes; FirmwareInfo : bytes; HardwareInfo : bytes;
}.

Definition capsFixedLen : Z := 8 * 4 + 4 * 8.
Definition capsPairDeviceID : Z := 40.
Definition capsPairFirmware : Z := 48.
Definition capsPairHardware : Z := 56.

Definition DeviceCaps : exchange Caps :=
  mkExchange UUIDBasicConnect CIDBasicConnectDeviceCaps CommandTypeQuery []
    (on_success (λ info,
      if bool_decide (len info < capsFixedLen) then Err PlainError
      else
        deviceType ← u32At_ info 0; cellularClass ← u32At_ info 4;
        dataClass ← u32At_ info 16; smsCaps ← u32At_ info 20;
        deviceID ← stringAt info capsPairDeviceID;
        firmware ← stringAt_ info capsPairFirmware;
        hardware ← stringAt_ info capsPairHardware;
        Ok (mkCaps deviceType cellularClass dataClass smsCaps deviceID firmware hardware))).

(** ** subscriber.go *)

Record SubscriberReady := mkSubscriberReady {
  sr_ReadyState : Z; sr_IMSI : bytes; sr_ICCID : bytes; sr_MSISDN : bytes;
}.

Definition subscriberFixedLen : Z := 4 + 8 + 8 + 4 + 4.

Definition parseSubscriberReady (info : bytes) : go error SubscriberReady :=
  if bool_decide (len info < subscriberFixedLen) then Err PlainError
  else
    readyState ← u32At_ info 0;
    imsi ← stringAt info 4;
    iccid ← stringAt info 12;
    numbers ← stringArrayCountAt info 24;
    Ok (mkSubscriberReady readyState imsi iccid (hd [] numbers)).

Definition QuerySubscriberReady : exchange SubscriberReady :=
  mkExchange UUIDBasicConnect CIDBasicConnectSubscriberReadyStatus CommandTypeQuery []
    (on_success parseSubscriberReady).

(** ** slotinfo.go *)

Record SlotInfoStatus := mkSlotInfoStatus { SlotIndex : Z; slot_State : Z }.

Definition slotInfoStatusLen : Z := 8.

Definition parseSlotInfoStatus (info : bytes) : go error SlotInfoStatus :=
  if bool_decide (len info < slotInfoStatusLen) then Err PlainError
  else i ← u32At_ info 0; s ← u32At_ info 4; Ok (mkSlotInfoStatus i s).

Definition encodeSlotInfoStatusQuery (slotIndex : Z) : bytes :=
  put_u32 0 slotIndex (make_bytes 4).

Definition QuerySlotInfoStatus (slotIndex : Z) : exchange SlotInfoStatus :=
  mkExchange UUIDMSBasicConnectExtensions CIDMSBasicConnectExtSlotInfoStatus CommandTypeQuery
    (encodeSlotInfoStatusQuery slotIndex) (on_success parseSlotInfoStatus).

(** ** radio.go *)

Record RadioState := mkRadioState { Hardware : Z; Software : Z }.

Definition parseRadioState (info : bytes) : go error RadioState :=
  if bool_decide (len info < 8) then Err PlainError
  else hw ← u32At_ info 0; sw ← u32At_ info 4; Ok (mkRadioState hw sw).

Definition QueryRadioState : exchange RadioState :=
  mkExchange UUIDBasicConnect CIDBasicConnectRadioState CommandTypeQuery []
    (on_success parseRadioState).

Definition SetRadioState (sw : Z) : exchange RadioState :=
  mkExchange UUIDBasicConnect CIDBasicConnectRadioState CommandTypeSet
    (put_u32 0 sw (make_bytes 4)) (on_success parseRadioState).

(** ** packet.go *)

Record PacketService := mkPacketService {
  ps_NwError : Z; ps_State : Z; HighestClass : Z; UplinkSpeed : Z; DownlinkSpeed : Z;
}.

Definition packetFixedLen : Z := 3 * 4 + 2 * 8.

Definition parsePacketService (info : bytes) : go error PacketService :=
  if bool_decide (len info < packetFixedLen) then Err PlainError
  else
    e ← u32At_ info 0; s ← u32At_ info 4; h ← u32At_ info 8;
    u ← u64At_ info 12; d ← u64At_ info 20; Ok (mkPacketService e s h u d).

Definition QueryPacketService : exchange PacketService :=
  mkExchange UUIDBasicConnect CIDBasicConnectPacketService CommandTypeQuery []
    (on_success parsePacketService).

Definition SetPacketService (action : Z) : exchange PacketService :=
  mkExchange UUIDBasicConnect CIDBasicConnectPacketService CommandTypeSet
    (put_u32 0 action (make_bytes 4)) (on_success parsePacketService).

(** ** register.go *)

Record RegisterState := mkRegisterState {
  rs_NwError : Z; rs_RegisterState : Z; RegisterMode : Z;
  ProviderID : bytes; ProviderName : bytes; MCC : bytes; MNC : bytes;
}.

Definition registerFixedLen : Z := 5 * 4 + 3 * 8.

Definition splitPLMN (plmn : bytes) : go error (bytes * bytes) :=
  if bool_decide (len plmn < 5) then Ok ([], [])
  else mcc ← slice plmn 0 3; mnc ← slice_from plmn 3; Ok (mcc, mnc).

Definition parseRegisterState (info : bytes) : go error RegisterState :=
  if bool_decide (len info < registerFixedLen) then Err PlainError
  else
    e ← u32At_ info 0; s ← u32At_ info 4; m ← u32At_ info 8;
    providerID ← stringAt info 20; providerName ← stringAt info 28;
    '(mcc, mnc) ← splitPLMN providerID;
    Ok (mkRegisterState e s m providerID providerName mcc mnc).

Definition QueryRegisterState : exchange RegisterState :=
  mkExchange UUIDBasicConnect CIDBasicConnectRegisterState CommandTypeQuery []
    (on_success parseRegisterState).

Definition encodeSetRegisterState (action : Z) (plmn : bytes) : bytes :=
  let providerID := if bool_decide (plmn ≠ []) then encodeUTF16LE plmn else [] in
  let info := make_bytes (16 + len providerID) in
  let info :=
    if bool_decide (len providerID > 0)
    then blit 16 providerID (put_u32 4 (len providerID) (put_u32 0 16 info)) else info in
  put_u32 8 action info.

Definition SetRegisterState (action : Z) (plmn : bytes) : exchange RegisterState :=
  mkExchange UUIDBasicConnect CIDBasicConnectRegisterState CommandTypeSet
    (encodeSetRegisterState action plmn) (on_success parseRegisterState).
End Parsers.

Section MoreParsers.
Context `{IntSize}.

(** ** auth.go *)

Definition fixed16 (b : bytes) : bytes := blit 0 b (make_bytes 16).

Definition encodeAuthAKA (rand autn : bytes) : bytes :=
  blit 16 (fixed16 autn) (blit 0 (fixed16 rand) (make_bytes 32)).

Definition mbimStatusAuthSyncFailure : Z := 35.

(** RES, IK, CK, AUTS. *)
Record AKAResult := mkAKAResult { RES : bytes; IK : bytes; CK : bytes; AUTS : bytes }.

(** The result next to the error: on a synchronisation failure AUTS is
    returned together with the [*StatusError]. *)
Definition AuthAKA (rand autn : bytes) : exchange (AKAResult * option error) :=
  mkExchange UUIDAuth CIDAuthAKA CommandTypeQuery (encodeAuthAKA rand autn)
    (λ resp,
      let b := cd_InfoBuffer resp in
      if bool_decide (cd_Status resp ≠ 0) then
        auts ← (if bool_decide (cd_Status resp = mbimStatusAuthSyncFailure) then
                  if bool_decide (len b >= 66) then slice b 52 66
                  else if bool_decide (len b >= 14) then slice b 0 14
                  else Ok []
                else Ok []);
        Ok (mkAKAResult [] [] [] auts, Some (StatusError (cd_Status resp)))
      else if bool_decide (len b < 66) then Err PlainError
      else
        l ← slice b 16 20; resLen ← le_u32 l;
        let resLen := if bool_decide (resLen > 16) then 16 else resLen in
        res ← slice b 0 resLen; ik ← slice b 20 36; ck ← slice b 36 52; auts ← slice b 52 66;
        Ok (mkAKAResult res ik ck auts, None)).

Definition encodeAuthSIM (rand1 rand2 rand3 : bytes) (n : Z) : bytes :=
  put_u32 48 n (blit 32 (fixed16 rand3) (blit 16 (fixed16 rand2)
    (blit 0 (fixed16 rand1) (make_bytes 52)))).

Definition AuthSIM (rand : bytes) : exchange (Z * Z) :=
  mkExchange UUIDAuth CIDAuthSIM CommandTypeQuery (encodeAuthSIM rand [] [] 1)
    (on_success' (λ b,
      if bool_decide (len b < 12) then Err PlainError
      else
        s ← slice b 0 4; sres ← le_u32 s; k ← slice b 4 12; kc ← le_u64 k;
        Ok (sres, kc))).

(** ** providers.go *)

Record Provider := mkProvider {
  PLMN : bytes; prov_Name : bytes; prov_State : Z; prov_CellularClass : Z; prov_RSSI : Z;
}.

Definition visibleProvidersActionFullScan : Z := 0.
Definition providerRefLen : Z := 8.
Definition providerFixedLen : Z := 32.

Definition parseProvider (info : bytes) : go error Provider :=
  idOffset ← u32At_ info 0; idLength ← u32At_ info 4; state ← u32At_ info 8;
  nameOffset ← u32At_ info 12; nameLength ← u32At_ info 16;
  class ← u32At_ info 20; rssi ← u32At_ info 24;
  plmn ← decodeUTF16Range info idOffset idLength;
  name ← decodeUTF16Range info nameOffset nameLength;
  Ok (mkProvider plmn name state class rssi).

Definition parseVisibleProviders (info : bytes) : go error (list Provider) :=
  count ← u32At info 0;
  _ ← make_cap count;
  for_u32 count (λ i providers,
    let refPos := int (4 + i * providerRefLen) in
    offset ← u32At info refPos; size ← u32At info (int (refPos + 4));
    if bool_decide (size < providerFixedLen ∨ offset + size > len info) then Err PlainError
    else
      sub ← slice info offset (offset + size);
      provider ← parseProvider sub; Ok (providers ++ [provider])) [].

Definition QueryHomeProvider : exchange Provider :=
  mkExchange UUIDBasicConnect CIDBasicConnectHomeProvider CommandTypeQuery []
    (on_success parseProvider).

Definition QueryVisibleProviders : exchange (list Provider) :=
  mkExchange UUIDBasicConnect CIDBasicConnectVisibleProviders CommandTypeQuery
    (put_u32 0 visibleProvidersActionFullScan (make_bytes 4))
    (on_success parseVisibleProviders).

(** ** connect.go *)

Record ConnectState := mkConnectState {
  SessionID : Z; ActivationState : Z; IPType : Z; cs_NwError : Z;
}.

(** [putRef]: the offset of the next string is passed along. *)
Definition putRef (pos : Z) (data : bytes) (padded : Z) (st : bytes * Z) : bytes * Z :=
  let '(info, off) := st in
  if bool_decide (len data = 0) then st
  else (blit off data (put_u32 (pos + 4) (len data) (put_u32 pos off info)), off + padded).

Definition encodeConnect (sessionID command : Z) (accessString userName password : bytes)
    (authProtocol ipType : Z) : bytes :=
  let access := encodeUTF16LE accessString in
  let user := encodeUTF16LE userName in
  let pass := encodeUTF16LE password in
  let accessPad := pad4 (len access) in
  let userPad := pad4 (len user) in
  let passPad := pad4 (len pass) in
  let info := make_bytes (60 + accessPad + userPad + passPad) in
  let info := put_u32 4 command (put_u32 0 sessionID info) in
  let '(info, _) :=
    putRef 24 pass passPad (putRef 16 user userPad (putRef 8 access accessPad (info, 60))) in
  let info := put_u32 40 ipType (put_u32 36 authProtocol (put_u32 32 0 info)) in
  blit 44 UUIDContextTypeInternet info.

Definition parseConnect (info : bytes) : go error ConnectState :=
  if bool_decide (len info < 36) then Err PlainError
  else
    sid ← u32At_ info 0; state ← u32At_ info 4; ipType ← u32At_ info 12; nwErr ← u32At_ info 32;
    Ok (mkConnectState sid state ipType nwErr).

Definition Connect (sessionID command : Z) (accessString userName password : bytes)
    (authProtocol ipType : Z) : exchange ConnectState :=
  mkExchange UUIDBasicConnect CIDBasicConnectConnect CommandTypeSet
    (encodeConnect sessionID command accessString userName password authProtocol ipType)
    (on_success' parseConnect).

(** ** signal.go *)

Record SignalState := mkSignalState {
  sig_RSSI : Z; DBM : Z; sig_Unknown : bool; ErrorRate : Z;
  RSRP : Z; HasRSRP : bool; SNR : Z; HasSNR : bool;
}.

Definition signalFixedLen : Z := 5 * 4.
Definition signalV2FixedLen : Z := 7 * 4.
Definition rsrpSnrInfoLen : Z := 5 * 4.
Definition dataClassLTE : Z := 0x20.
Definition dataClass5GNSA : Z := 0x40.
Definition dataClass5GSA : Z := 0x80.

Definition rssiToDBM (rssi : Z) : Z * bool :=
  if bool_decide (rssi = 99 ∨ rssi > 31) then (0, true) else (-113 + 2 * int rssi, false).

Definition rsrpCodedToDBM (coded : Z) : option Z :=
  if bool_decide (coded > 126) then None else Some (int coded - 157).

(** Go's division truncates towards zero. *)
Definition snrCodedToDB (coded : Z) : option Z :=
  if bool_decide (coded > 127) then None else Some (Z.quot (int coded - 46) 2).

Definition set_RSRP (v : option Z) (s : SignalState) : SignalState :=
  match v with
  | Some v => mkSignalState (sig_RSSI s) (DBM s) (sig_Unknown s) (ErrorRate s) v true (SNR s) (HasSNR s)
  | None => s
  end.

Definition set_SNR (v : option Z) (s : SignalState) : SignalState :=
  match v with
  | Some v => mkSignalState (sig_RSSI s) (DBM s) (sig_Unknown s) (ErrorRate s) (RSRP s) (HasRSRP s) v true
  | None => s
  end.

(** The loop of [parseSignalRsrpSnrV2]: [n] entries are left, from the [i]-th. *)
Fixpoint rsrp_loop (n : nat) (i : Z) (buf : bytes) (s : SignalState) : go error SignalState :=
  match n with
  | O => Ok s
  | S n =>
      let base := int (4 + i * rsrpSnrInfoLen) in
      if bool_decide (int (base + rsrpSnrInfoLen) > len buf) then Ok s
      else
        rsrpCoded ← u32At_ buf base; snrCoded ← u32At_ buf (int (base + 4));
        systemType ← u32At_ buf (int (base + 16));
        if bool_decide (Z.land systemType (Z.lor (Z.lor dataClassLTE dataClass5GNSA) dataClass5GSA) = 0)
        then rsrp_loop n (i + 1) buf s
        else
          let s := set_SNR (snrCodedToDB snrCoded) (set_RSRP (rsrpCodedToDBM rsrpCoded) s) in
          if HasRSRP s || HasSNR s then Ok s else rsrp_loop n (i + 1) buf s
  end.

Definition parseSignalRsrpSnrV2 (info : bytes) (s : SignalState) : go error SignalState :=
  if bool_decide (len info < signalV2FixedLen) then Ok s
  else
    match byteArrayAt info 20 with
    | Panic => Panic
    | Err _ => Ok s
    | Ok buf =>
        if bool_decide (len buf < 4) then Ok s
        else count ← u32At_ buf 0; rsrp_loop (Z.to_nat count) 0 buf s
    end.

Definition parseSignalState (info : bytes) : go error SignalState :=
  if bool_decide (len info < signalFixedLen) then Err PlainError
  else
    rssi ← u32At_ info 0; errorRate ← u32At_ info 4;
    let '(dbm, unknown) := rssiToDBM rssi in
    parseSignalRsrpSnrV2 info (mkSignalState rssi dbm unknown errorRate 0 false 0 false).

Definition QuerySignalState : exchange SignalState :=
  mkExchange UUIDBasicConnect CIDBasicConnectSignalState CommandTypeQuery []
    (on_success parseSignalState).

(** ** deviceservices.go, capability.go *)

Record DeviceServiceElement := mkElement { el_Service : bytes; el_CIDs : list Z }.
Record DeviceServices := mkDeviceServices { MaxDssSessions : Z; Elements : list DeviceServiceElement }.

Definition HasService (ds : DeviceServices) (service : bytes) : bool :=
  existsb (λ e, bool_decide (el_Service e = service)) (Elements ds).

(** The loop stops at the first element of the service. *)
Definition Supports (ds : DeviceServices) (service : bytes) (cid : Z) : bool :=
  match find_first (λ e, bool_decide (el_Service e = service)) (Elements ds) with
  | Some e => existsb (λ c, bool_decide (c = cid)) (el_CIDs e)
  | None => false
  end.

Definition parse_element (elem : bytes) (els : list DeviceServiceElement)
    : go error (list DeviceServiceElement) :=
  svc ← slice elem 0 16;
  cidsCount ← u32At_ elem 24;
  if bool_decide (int (28 + int cidsCount * 4) > len elem) then Ok els
  else
    _ ← make_cap cidsCount;
    cids ← for_u32 cidsCount (λ j cids,
      c ← u32At_ elem (int (28 + j * 4)); Ok (cids ++ [c])) [];
    Ok (els ++ [mkElement svc cids]).

Definition parseDeviceServices (info : bytes) : go error DeviceServices :=
  if bool_decide (len info < 8) then Err PlainError
  else
    count ← u32At_ info 0; maxDss ← u32At_ info 4;
    els ← for_u32 count (λ i els,
      match byteArrayAt info (int (8 + i * 8)) with
      | Panic => Panic
      | Err _ => Ok els
      | Ok elem => if bool_decide (len elem < 28) then Ok els else parse_element elem els
      end) [];
    Ok (mkDeviceServices maxDss els).

Definition QueryDeviceServices : exchange DeviceServices :=
  mkExchange UUIDBasicConnect CIDBasicConnectDeviceServices CommandTypeQuery []
    (on_success parseDeviceServices).

Record Capabilities := mkCapabilities {
  Services : DeviceServices; MBIMExOK : bool; QMIOverMBIMOK : bool; UICCReadOK : bool;
  UICCRecordOK : bool; UICCChannelOK : bool; AppListOK : bool; authAKADead : bool;
}.

(** A nil pointer is [None]. *)
Definition AuthAKAUsable (c : option Capabilities) : bool :=
  match c with Some c => HasService (Services c) UUIDAuth && negb (authAKADead c) | None => false end.

Definition MarkAuthAKADead (c : option Capabilities) : option Capabilities :=
  (λ c, mkCapabilities (Services c) (MBIMExOK c) (QMIOverMBIMOK c) (UICCReadOK c)
    (UICCRecordOK c) (UICCChannelOK c) (AppListOK c) true) <$> c.

Definition UICCChannelAKAUsable (c : option Capabilities) : bool := from_option UICCChannelOK false c.
Definition MBIMExUsable (c : option Capabilities) : bool := from_option MBIMExOK false c.
Definition QMIReadUsable (c : option Capabilities) : bool := from_option QMIOverMBIMOK false c.
Definition DeviceResetUsable (c : option Capabilities) : bool :=
  match c with
  | Some c => Supports (Services c) UUIDMSBasicConnectExtensions CIDMSBasicConnectExtDeviceReset
  | None => false
  end.
Definition AppListKnownUnsupported (c : option Capabilities) : bool :=
  match c with
  | Some c => HasService (Services c) UUIDMSUICCLowLevelAccess && negb (AppListOK c)
  | None => false
  end.
End MoreParsers.

Section IPAndText.
Context `{IntSize}.

(** ** ipconfig.go *)

Record IPConfiguration := mkIPConfiguration {
  IPv4Address : bytes; IPv4PrefixLength : Z; IPv4Gateway : bytes; IPv4DNS : list bytes; IPv4MTU : Z;
  IPv6Address : bytes; IPv6PrefixLength : Z; IPv6Gateway : bytes; IPv6DNS : list bytes; IPv6MTU : Z;
}.

Definition ipAt (b : bytes) (off n : Z) : go error bytes :=
  if bool_decide (off ≤ 0) then Ok []
  else if bool_decide (int (off + n) > len b) then Err PlainError
  else a ← slice b off (int (off + n)); Ok (ip_string a).

(** The address block at the offset that [info[offPos]] holds: prefix length
    and address of [n] bytes. *)
Definition ip_address (info : bytes) (countPos offPos n : Z) : go error (Z * bytes) :=
  count ← u32At_ info countPos;
  if bool_decide (count > 0) then
    addrOff ← u32At_ info offPos;
    if bool_decide (int (int addrOff + (4 + n)) ≤ len info) then
      p ← slice_from info addrOff; prefix ← le_u32 p;
      addr ← go_ignore [] (ipAt info (int (addrOff + 4)) n); Ok (prefix, addr)
    else Ok (0, [])
  else Ok (0, []).

Definition ip_gateway (info : bytes) (pos n : Z) : go error bytes :=
  gwOff ← u32At_ info pos;
  if bool_decide (gwOff > 0) then go_ignore [] (ipAt info (int gwOff) n) else Ok [].

Definition ip_dns (info : bytes) (countPos offPos n : Z) : go error (list bytes) :=
  dnsCount ← u32At_ info countPos;
  if bool_decide (dnsCount > 0) then
    dnsOff ← u32At_ info offPos;
    for_u32 dnsCount (λ i dns,
      match ipAt info (int (dnsOff + i * n)) n with
      | Panic => Panic
      | Err _ => Ok dns
      | Ok s => if bool_decide (s ≠ []) then Ok (dns ++ [s]) else Ok dns
      end) []
  else Ok [].

Definition parseIPConfiguration (info : bytes) : go error IPConfiguration :=
  if bool_decide (len info < 60) then Err PlainError
  else
    '(prefix4, addr4) ← ip_address info 12 16 4;
    gw4 ← ip_gateway info 28 4; dns4 ← ip_dns info 36 40 4; mtu4 ← u32At_ info 52;
    '(prefix6, addr6) ← ip_address info 20 24 16;
    gw6 ← ip_gateway info 32 16; dns6 ← ip_dns info 44 48 16; mtu6 ← u32At_ info 56;
    Ok (mkIPConfiguration addr4 prefix4 gw4 dns4 mtu4 addr6 prefix6 gw6 dns6 mtu6).

Definition QueryIPConfiguration (sessionID : Z) : exchange IPConfiguration :=
  mkExchange UUIDBasicConnect CIDBasicConnectIPConfiguration CommandTypeQuery
    (put_u32 0 sessionID (make_bytes 60)) (on_success' parseIPConfiguration).

(** ** subscribe.go *)

Record EventEntry := mkEventEntry { ev_Service : bytes; ev_CIDs : list Z }.

Fixpoint put_words (off : Z) (ws : list Z) (b : bytes) : bytes :=
  match ws with
  | [] => b
  | w :: ws => put_words (off + 4) ws (put_u32 off w b)
  end.

Definition entry_blob (e : EventEntry) : bytes :=
  put_words 20 (ev_CIDs e)
    (put_u32 16 (len (ev_CIDs e)) (blit 0 (ev_Service e) (make_bytes (16 + 4 + 4 * len (ev_CIDs e))))).

(** The blobs with their offsets, and the end of the last one. *)
Fixpoint place_blobs (pos : Z) (entries : list EventEntry) : list (Z * bytes) * Z :=
  match entries with
  | [] => ([], pos)
  | e :: entries =>
      let data := entry_blob e in
      let '(blobs, end') := place_blobs (pos + len data) entries in
      ((pos, data) :: blobs, end')
  end.

Fixpoint put_blobs (i : Z) (blobs : list (Z * bytes)) (info : bytes) : bytes :=
  match blobs with
  | [] => info
  | (off, data) :: blobs =>
      put_blobs (i + 1) blobs
        (blit off data (put_u32 (4 + i * 8 + 4) (len data) (put_u32 (4 + i * 8) off info)))
  end.

Definition encodeSubscribeList (entries : list EventEntry) : bytes :=
  let n := len entries in
  let '(blobs, pos) := place_blobs (4 + n * 8) entries in
  put_blobs 0 blobs (put_u32 0 n (make_bytes pos)).

Definition Subscribe (entries : list EventEntry) : exchange unit :=
  mkExchange UUIDBasicConnect CIDBasicConnectDeviceServiceSubscribeList CommandTypeSet
    (encodeSubscribeList entries) (on_success (λ _, Ok tt)).

Definition SubscribeDefaultEvents : exchange unit :=
  Subscribe [
    mkEventEntry UUIDBasicConnect [CIDBasicConnectSignalState; CIDBasicConnectRegisterState;
      CIDBasicConnectPacketService; CIDBasicConnectSubscriberReadyStatus];
    mkEventEntry UUIDSMS [CIDSMSRead]].

(** ** ussd.go *)

Record USSDResponse := mkUSSDResponse {
  us_Response : Z; us_SessionState : Z; us_DCS : Z; us_Payload : bytes;
}.
Record USSDResult := mkUSSDResult { ur_Response : Z; ur_DCS : Z; ur_Text : bytes; ur_RawHex : bytes }.

Definition be_bytes2 (u : Z) : bytes := [u16 u / 256; u16 u `mod` 256].

Fixpoint be_units (b : bytes) : list Z :=
  match b with
  | x :: y :: b => x * 256 + y :: be_units b
  | _ => []
  end.

(** The GSM 7-bit codec of the warthog618/sms package is a parameter. *)
Section USSDText.
Context (gsm7_Encode : bytes → option bytes) (gsm7_Decode : bytes → option bytes)
  (Pack7BitUSSD Unpack7BitUSSD : bytes → bytes).

Definition EncodeUSSDRequest (command : bytes) : Z * bytes :=
  match gsm7_Encode command with
  | None => (0x48, concat (be_bytes2 <$> utf16_encode (runes command)))
  | Some septets => (0x0F, Pack7BitUSSD septets)
  end.

Definition DecodeUSSDText (dcs : Z) (payload : bytes) : bytes :=
  if bool_decide (len payload = 0) then []
  else if bool_decide (dcs = 0x48 ∨ Z.land dcs 0xC0 = 0x40) then
    if bool_decide (len payload `mod` 2 ≠ 0) then []
    else utf8_encode (utf16_decode (be_units payload))
  else
    match gsm7_Decode (Unpack7BitUSSD payload) with
    | None => []
    | Some decoded => decoded
    end.

Definition NewUSSDResult (u : USSDResponse) : USSDResult :=
  mkUSSDResult (us_Response u) (us_DCS u) (DecodeUSSDText (us_DCS u) (us_Payload u))
    (hex_encode (us_Payload u)).
End USSDText.

Definition encodeUSSD (action dcs : Z) (payload : bytes) : bytes :=
  let info := make_bytes (16 + pad4 (len payload)) in
  blit 16 payload (put_u32 12 (len payload) (put_u32 8 16 (put_u32 4 dcs (put_u32 0 action info)))).

Definition parseUSSDResponse (info : bytes) : go error USSDResponse :=
  if bool_decide (len info < 20) then Err PlainError
  else
    response ← u32At_ info 0; state ← u32At_ info 4; dcs ← u32At_ info 8;
    payloadOffset ← u32At_ info 12; payloadSize ← u32At_ info 16;
    if bool_decide (payloadSize ≠ 0 ∧ payloadOffset < 20) then Err PlainError
    else payload ← byteArrayAt info 12; Ok (mkUSSDResponse response state dcs payload).

Definition SendUSSD (action dcs : Z) (payload : bytes) : exchange USSDResponse :=
  mkExchange UUIDUSSD CIDUSSD CommandTypeSet (encodeUSSD action dcs payload)
    (on_success' parseUSSDResponse).

(** ** transport_proxy.go *)

Definition encodeProxyConfigInfo (devicePath : bytes) (timeoutSecs : Z) : bytes :=
  let pathBytes := encodeUTF16LE devicePath in
  let b := make_bytes (12 + len pathBytes) in
  blit 12 pathBytes (put_u32 8 timeoutSecs (put_u32 4 (len pathBytes) (put_u32 0 12 b))).
End IPAndText.

Section CardAndSMS.
Context `{IntSize}.

(** ** uicc.go *)

Definition StatusMSNoLogicalChannels : Z := 0x87430001.
Definition StatusMSSelectFailed : Z := 0x87430002.
Definition StatusMSInvalidLogicalChannel : Z := 0x87430003.

Definition encodeUICCOpenChannel (aid : bytes) (selectP2Arg channelGroup : Z) : bytes :=
  let info := make_bytes (16 + pad4 (len aid)) in
  let info := put_u32 0 (len aid) info in
  let info := if bool_decide (len aid > 0) then put_u32 4 16 info else info in
  blit 16 aid (put_u32 12 channelGroup (put_u32 8 selectP2Arg info)).

Definition encodeUICCAPDU (channel : Z) (command : bytes) : bytes :=
  let info := make_bytes (20 + pad4 (len command)) in
  blit 20 command (put_u32 16 20 (put_u32 12 (len command) (put_u32 8 0 (put_u32 4 0
    (put_u32 0 channel info))))).

Definition uiccOpenChannelStatusOK (status : Z) : bool :=
  if bool_decide (status = 0) then true
  else
    let sw1 := if bool_decide (status > 0xFF) then Z.land (Z.shiftr status 8) 0xFF else status in
    bool_decide (sw1 ∈ [0x90; 0x91; 0x61; 0x62; 0x63]).

Definition UICCOpenChannel (aid : bytes) : exchange Z :=
  mkExchange UUIDMSUICCLowLevelAccess CIDUICCOpenChannel CommandTypeSet
    (encodeUICCOpenChannel aid 0 0)
    (on_success' (λ info,
      if bool_decide (len info < 8) then Err PlainError
      else
        uiccStatus ← u32At_ info 0; channel ← u32At_ info 4;
        if negb (uiccOpenChannelStatusOK uiccStatus) then Err PlainError else Ok channel)).

Definition uiccStatusWordBytes (status : Z) : bytes :=
  if bool_decide (status ≤ 0xFF) then [u8 status; 0]
  else [u8 (Z.land (Z.shiftr status 8) 0xFF); u8 (Z.land status 0xFF)].

Definition UICCAPDU (channel : Z) (command : bytes) : exchange bytes :=
  mkExchange UUIDMSUICCLowLevelAccess CIDUICCAPDU CommandTypeSet (encodeUICCAPDU channel command)
    (on_success' (λ info,
      if bool_decide (len info < 4) then Err PlainError
      else
        status ← u32At_ info 0; data ← uiccByteArrayAt info 4;
        if bool_decide (status ≠ 0) then Ok (data ++ uiccStatusWordBytes status) else Ok data)).

Definition UICCCloseChannel (channel : Z) : exchange unit :=
  mkExchange UUIDMSUICCLowLevelAccess CIDUICCCloseChannel CommandTypeSet
    (put_u32 4 0 (put_u32 0 channel (make_bytes 8))) (on_success' (λ _, Ok tt)).

(** ** uicc_fileaccess.go *)

Record UICCApplication := mkUICCApplication { app_Type : Z; app_AID : bytes }.
Record UICCFileResult := mkUICCFileResult { SW1 : Z; SW2 : Z; file_Data : bytes }.

Definition encodeUICCReadBinary (aid filePath : bytes) (readOffset readSize : Z) : bytes :=
  let aidPad := pad4 (len aid) in
  let pathPad := pad4 (len filePath) in
  let info := put_u32 0 1 (make_bytes (44 + aidPad + pathPad)) in
  let info := blit 44 aid (put_u32 8 (len aid) (put_u32 4 44 info)) in
  let pathOff := 44 + aidPad in
  let info := blit pathOff filePath (put_u32 16 (len filePath) (put_u32 12 pathOff info)) in
  put_u32 24 readSize (put_u32 20 readOffset info).

Definition encodeUICCReadRecord (aid filePath : bytes) (recordNumber : Z) : bytes :=
  let aidPad := pad4 (len aid) in
  let pathPad := pad4 (len filePath) in
  let info := put_u32 0 1 (make_bytes (40 + aidPad + pathPad)) in
  let info := blit 40 aid (put_u32 8 (len aid) (put_u32 4 40 info)) in
  let pathOff := 40 + aidPad in
  let info := blit pathOff filePath (put_u32 16 (len filePath) (put_u32 12 pathOff info)) in
  put_u32 20 recordNumber info.

Definition parseUICCFileResponse (info : bytes) : go error UICCFileResult :=
  sw1 ← u32At info 4; sw2 ← u32At info 8; data ← byteArrayAt info 12;
  Ok (mkUICCFileResult sw1 sw2 data).

Definition parseUICCApplicationList (info : bytes) : go error (list UICCApplication) :=
  count ← u32At info 4;
  _ ← make_cap count;
  for_u32 count (λ i apps,
    off ← u32At info (int (16 + i * 8)); size ← u32At info (int (16 + i * 8 + 4));
    if bool_decide (off + size > len info) then Err PlainError
    else
      sr ← slice info off (off + size);
      appType ← u32At sr 0; aid ← byteArrayAt sr 4;
      Ok (apps ++ [mkUICCApplication appType aid])) [].

Definition QueryUICCApplicationList : exchange (list UICCApplication) :=
  mkExchange UUIDMSUICCLowLevelAccess CIDUICCApplicationList CommandTypeQuery []
    (on_success' parseUICCApplicationList).

Definition UICCReadBinary (aid filePath : bytes) (readOffset readSize : Z) : exchange UICCFileResult :=
  mkExchange UUIDMSUICCLowLevelAccess CIDUICCReadBinary CommandTypeQuery
    (encodeUICCReadBinary aid filePath readOffset readSize) (on_success' parseUICCFileResponse).

Definition UICCReadRecord (aid filePath : bytes) (recordNumber : Z) : exchange UICCFileResult :=
  mkExchange UUIDMSUICCLowLevelAccess CIDUICCReadRecord CommandTypeQuery
    (encodeUICCReadRecord aid filePath recordNumber) (on_success' parseUICCFileResponse).

(** ** sms.go *)

Definition encodeSMSSend (pdu : bytes) : bytes :=
  let info := make_bytes (12 + pad4 (len pdu)) in
  blit 12 pdu (put_u32 8 (len pdu) (put_u32 4 12 (put_u32 0 SMSFormatPDU info))).

Definition SendSMS (pdu : bytes) : exchange Z :=
  mkExchange UUIDSMS CIDSMSSend CommandTypeSet (encodeSMSSend pdu)
    (on_success (λ info,
      if bool_decide (len info < 4) then Err PlainError
      else b ← slice_from info 0; le_u32 b)).

Record SMSRecord := mkSMSRecord { sms_Index : Z; sms_Status : Z; PDU : bytes }.

Definition encodeSMSReadQuery (flag index : Z) : bytes :=
  put_u32 8 index (put_u32 4 flag (put_u32 0 SMSFormatPDU (make_bytes 12))).

Definition parseSMSRead (info : bytes) : go error (list SMSRecord) :=
  if bool_decide (len info < 8) then Err PlainError
  else
    count ← u32At_ info 4;
    _ ← make_cap count;
    for_u32 count (λ i out,
      let pairPos := int (8 + i * 8) in
      recOff ← u32At info pairPos; recSize ← u32At info (int (pairPos + 4));
      if bool_decide (recSize < 16 ∨ recOff + recSize > len info) then Err PlainError
      else
        rec ← slice info recOff (u32 (recOff + recSize));
        index ← u32At_ rec 0; status ← u32At_ rec 4;
        pduOff ← u32At_ rec 8; pduSize ← u32At_ rec 12;
        if bool_decide (pduOff + pduSize > len rec) then Err PlainError
        else
          pdu ← slice rec pduOff (pduOff + pduSize);
          Ok (out ++ [mkSMSRecord index status pdu])) [].

Definition ReadSMS (index : Z) : exchange SMSRecord :=
  mkExchange UUIDSMS CIDSMSRead CommandTypeQuery (encodeSMSReadQuery SMSFlagIndex index)
    (on_success (λ info,
      recs ← parseSMSRead info;
      match recs with [] => Err PlainError | r :: _ => Ok r end)).

Definition ListSMS : exchange (list SMSRecord) :=
  mkExchange UUIDSMS CIDSMSRead CommandTypeQuery (encodeSMSReadQuery SMSFlagAll 0)
    (on_success parseSMSRead).

Definition deleteSMS (flag index : Z) : exchange unit :=
  mkExchange UUIDSMS CIDSMSDelete CommandTypeSet
    (put_u32 4 index (put_u32 0 flag (make_bytes 8))) (on_success (λ _, Ok tt)).

Definition DeleteSMS (index : Z) : exchange unit := deleteSMS SMSFlagIndex index.
Definition DeleteAllSMS : exchange unit := deleteSMS SMSFlagAll 0.

Definition smsConfigSCAddressPair : Z := 16.

Definition GetSMSC : exchange bytes :=
  mkExchange UUIDSMS CIDSMSConfiguration CommandTypeQuery []
    (on_success (λ info,
      if bool_decide (len info < smsConfigSCAddressPair + 8) then Err PlainError
      else stringAt info smsConfigSCAddressPair)).

Definition encodeSetSMSConfig (smsc : bytes) : bytes :=
  let sc := if bool_decide (smsc ≠ []) then encodeUTF16LE smsc else [] in
  let info := put_u32 0 SMSFormatPDU (make_bytes (12 + pad4 (len sc))) in
  if bool_decide (len sc > 0)
  then blit 12 sc (put_u32 8 (len sc) (put_u32 4 12 info)) else info.

Definition SetSMSC (smsc : bytes) : exchange unit :=
  mkExchange UUIDSMS CIDSMSConfiguration CommandTypeSet (encodeSetSMSConfig smsc)
    (on_success (λ _, Ok tt)).
End CardAndSMS.

Example records_ex :
  ex_done QueryRadioState (mkCommandDone UUIDBasicConnect 3 0 [1;0;0;0;1;0;0;0])
  = Ok (mkRadioState 1 1).
Proof. reflexivity. Qed.
