(* ===== verification/MbimRecordsProofs.v ===== *)
(** * Theorems on the MBIM service parsers and encoders *)

From S2P Require Import Prelude GoUnicode GoNet MbimWire MbimInfo MbimRecords.

#[local] Open Scope Z_scope.

(** ** No response can crash a parser (64-bit builds) *)

(** An information buffer as [collector.commandDone] returns it: its length was
    announced in a 32-bit field. *)
Definition info_ok `{IntSize} (b : bytes) : Prop := buf_ok b ∧ len b < 2 ^ 32.

(** An exchange that no response crashes. *)
Definition total_exchange `{IntSize} {A} (x : exchange A) : Prop :=
  ∀ resp, info_ok (cd_InfoBuffer resp) → safe (ex_done x resp).

Section Safety.
Context `{HI : IntSize}.
Hypothesis H64 : int_bits = 64.

Lemma int_bits_pos : 0 < int_bits.
Proof. rewrite H64. lia. Qed.
#[local] Hint Resolve int_bits_pos H64 : go.

Lemma safe_parseSubscriberReady b : buf_ok b → safe (parseSubscriberReady b).
Proof. intros. unfold parseSubscriberReady. repeat safe_step. Qed.

Lemma safe_parseSlotInfoStatus b : buf_ok b → safe (parseSlotInfoStatus b).
Proof. intros. unfold parseSlotInfoStatus. repeat safe_step. Qed.

Lemma safe_parseRadioState b : buf_ok b → safe (parseRadioState b).
Proof. intros. unfold parseRadioState. repeat safe_step. Qed.

Lemma safe_parsePacketService b : buf_ok b → safe (parsePacketService b).
Proof. intros. unfold parsePacketService. repeat safe_step. Qed.

Lemma safe_splitPLMN p : safe (splitPLMN p).
Proof. unfold splitPLMN. repeat safe_step. Qed.
#[local] Hint Resolve safe_splitPLMN : go.

Lemma safe_parseRegisterState b : buf_ok b → safe (parseRegisterState b).
Proof. intros. unfold parseRegisterState. repeat safe_step. Qed.

Lemma safe_parseProvider b : buf_ok b → safe (parseProvider b).
Proof. intros. unfold parseProvider. repeat safe_step. Qed.
#[local] Hint Resolve safe_parseProvider : go.

Lemma safe_parseVisibleProviders b : buf_ok b → safe (parseVisibleProviders b).
Proof. intros. unfold parseVisibleProviders. repeat safe_step. Qed.

Lemma safe_parseConnect b : buf_ok b → safe (parseConnect b).
Proof. intros. unfold parseConnect. repeat safe_step. Qed.

Lemma safe_rsrp_loop n b : ∀ i s, safe (rsrp_loop n i b s).
Proof. induction n as [|n IH]; intros i s; cbn [rsrp_loop]; [done|]. repeat safe_step. Qed.
#[local] Hint Resolve safe_rsrp_loop : go.

Lemma safe_parseSignalState b : buf_ok b → safe (parseSignalState b).
Proof.
  intros. unfold parseSignalState, parseSignalRsrpSnrV2. repeat safe_step.
Qed.

Lemma safe_parse_element b els : buf_ok b → 28 ≤ len b → safe (parse_element b els).
Proof. intros. unfold parse_element. repeat safe_step. Qed.

#[local] Hint Resolve safe_parse_element : go.

Lemma safe_parseDeviceServices b : buf_ok b → safe (parseDeviceServices b).
Proof. intros. unfold parseDeviceServices. repeat safe_step. Qed.

Lemma safe_ipAt b off n :
  buf_ok b → off < 2 ^ 62 → 0 ≤ n < 2 ^ 61 → safe (ipAt b off n).
Proof.
  intros Hb Ho Hn. unfold ipAt. case_bool_decide; [done|].
  rewrite int64_id by (done || lia). repeat safe_step.
Qed.

Lemma safe_ip_address b c o n :
  buf_ok b → 0 ≤ n < 2 ^ 61 → safe (ip_address b c o n).
Proof.
  intros Hb Hn. unfold ip_address. repeat safe_step;
    try (rewrite (int64_id a0), int64_id in H0 by (done || lia)).
  - apply safe_slice_from. lia.
  - apply safe_le_u32. lia.
  - apply safe_ignore, safe_ipAt; [done|rewrite int64_id by (done || lia); lia|done].
Qed.

Lemma safe_ip_gateway b p n : buf_ok b → 0 ≤ n < 2 ^ 61 → safe (ip_gateway b p n).
Proof.
  intros Hb Hn. unfold ip_gateway. repeat safe_step.
  apply safe_ignore, safe_ipAt; [done|rewrite int64_id by (done || lia); lia|done].
Qed.

Lemma safe_ip_dns b c o n : buf_ok b → 0 ≤ n ≤ 2 ^ 24 → safe (ip_dns b c o n).
Proof.
  intros Hb Hn. unfold ip_dns. repeat safe_step.
  apply safe_ipAt; [done| |lia]. rewrite int64_id by (done || nia). nia.
Qed.
#[local] Hint Resolve safe_ip_address safe_ip_gateway safe_ip_dns : go.

Lemma safe_parseIPConfiguration b : buf_ok b → safe (parseIPConfiguration b).
Proof. intros. unfold parseIPConfiguration. repeat safe_step. Qed.

Lemma safe_parseUSSDResponse b : buf_ok b → safe (parseUSSDResponse b).
Proof. intros. unfold parseUSSDResponse. repeat safe_step. Qed.

Lemma safe_parseUICCFileResponse b : buf_ok b → safe (parseUICCFileResponse b).
Proof. intros. unfold parseUICCFileResponse. repeat safe_step. Qed.

Lemma safe_parseUICCApplicationList b : buf_ok b → safe (parseUICCApplicationList b).
Proof. intros. unfold parseUICCApplicationList. repeat safe_step. Qed.

Lemma safe_parseSMSRead b : info_ok b → safe (parseSMSRead b).
Proof. intros [? ?]. unfold parseSMSRead. repeat safe_step. Qed.

#[local] Hint Resolve safe_parseSubscriberReady safe_parseSlotInfoStatus safe_parseRadioState
  safe_parsePacketService safe_parseRegisterState safe_parseVisibleProviders safe_parseConnect
  safe_parseSignalState safe_parseDeviceServices safe_parseIPConfiguration
  safe_parseUSSDResponse safe_parseUICCFileResponse safe_parseUICCApplicationList
  safe_parseSMSRead : go.

(** On a 64-bit build no response of the modem can crash the service layer.
    Whatever bytes a COMMAND_DONE carries, every query and every set of the
    package parses them without an index or slice panic: it returns a result or
    an error. *)
Theorem exchanges_never_panic :
  total_exchange DeviceReset ∧ (∀ a b, total_exchange (NegotiateVersion a b)) ∧
  total_exchange DeviceCaps ∧ total_exchange QuerySubscriberReady ∧
  (∀ i, total_exchange (QuerySlotInfoStatus i)) ∧
  total_exchange QueryRadioState ∧ (∀ s, total_exchange (SetRadioState s)) ∧
  total_exchange QueryPacketService ∧ (∀ a, total_exchange (SetPacketService a)) ∧
  total_exchange QueryRegisterState ∧ (∀ a p, total_exchange (SetRegisterState a p)) ∧
  (∀ r a, total_exchange (AuthAKA r a)) ∧ (∀ r, total_exchange (AuthSIM r)) ∧
  total_exchange QueryHomeProvider ∧ total_exchange QueryVisibleProviders ∧
  (∀ i c a u p ap t, total_exchange (Connect i c a u p ap t)) ∧
  total_exchange QuerySignalState ∧ total_exchange QueryDeviceServices ∧
  (∀ i, total_exchange (QueryIPConfiguration i)) ∧ (∀ l, total_exchange (Subscribe l)) ∧
  (∀ a d p, total_exchange (SendUSSD a d p)) ∧ (∀ a, total_exchange (UICCOpenChannel a)) ∧
  (∀ c a, total_exchange (UICCAPDU c a)) ∧ (∀ c, total_exchange (UICCCloseChannel c)) ∧
  total_exchange QueryUICCApplicationList ∧
  (∀ a p o n, total_exchange (UICCReadBinary a p o n)) ∧
  (∀ a p n, total_exchange (UICCReadRecord a p n)) ∧
  (∀ p, total_exchange (SendSMS p)) ∧ (∀ i, total_exchange (ReadSMS i)) ∧
  total_exchange ListSMS ∧ (∀ f i, total_exchange (deleteSMS f i)) ∧
  total_exchange GetSMSC ∧ (∀ s, total_exchange (SetSMSC s)).
Proof.
  split_and!; intros; intros resp Hr; pose proof Hr as [Hb Hl];
    cbv beta iota delta [DeviceReset NegotiateVersion DeviceCaps QuerySubscriberReady
      QuerySlotInfoStatus QueryRadioState SetRadioState QueryPacketService SetPacketService
      QueryRegisterState SetRegisterState AuthAKA AuthSIM QueryHomeProvider
      QueryVisibleProviders Connect QuerySignalState QueryDeviceServices QueryIPConfiguration
      Subscribe SendUSSD UICCOpenChannel UICCAPDU UICCCloseChannel QueryUICCApplicationList
      UICCReadBinary UICCReadRecord SendSMS ReadSMS ListSMS deleteSMS GetSMSC SetSMSC
      ex_done on_success on_success'];
    repeat safe_step.
Qed.
End Safety.

Lemma exchanges_never_panic_witness : total_exchange (H:=amd64) (QueryVisibleProviders (H:=amd64)).
Proof. apply (@exchanges_never_panic amd64). reflexivity. Defined.

(** An IP_CONFIGURATION response whose address offset has its top bit set. *)
Definition ip_configuration_bad : bytes := put_u32 16 0xFFFFFFF0 (put_u32 12 1 (make_bytes 60)).

(** A SUBSCRIBER_READY_STATUS response that announces 2^31 telephone numbers. *)
Definition subscriber_bad : bytes := put_u32 24 0x80000000 (make_bytes 28).

(** On the 32-bit armv7 build the same parsers can be crashed by a response.
    In [parseIPConfiguration] an offset of 0xFFFFFFF0 becomes negative as an
    [int], passes the bounds check and then indexes the buffer; a list whose
    announced count does not fit an [int] panics in [make] before any bound is
    checked. *)
Theorem armv7_parsers_panic :
  parseIPConfiguration (H:=armv7) ip_configuration_bad = Panic ∧
  parseSubscriberReady (H:=armv7) subscriber_bad = Panic ∧
  safe (parseIPConfiguration (H:=amd64) ip_configuration_bad).
Proof. split_and!; [vm_compute; reflexivity..|vm_compute; discriminate]. Qed.

(** ** References of the encoders point at their data *)

Ltac pose_pad :=
  repeat match goal with
  | |- context [pad4 ?n] =>
      lazymatch goal with
      | _ : n ≤ pad4 n < n + 4 ∧ _ |- _ => fail
      | _ => pose proof (pad4_bounds n (len_nonneg _))
      end
  end.

(** The reference at a position of a buffer under construction. *)
Ltac put_ref := split; read_u32; rewrite ?u32_small by len_lia; reflexivity.

Ltac buf :=
  split;
  [ repeat first [apply bytes_ok_make | apply bytes_ok_put_u32 | apply bytes_ok_blit]; first [done | apply Forall_nil_2]
  | len_lia ].

Ltac find_ref lem off :=
  unshelve eapply (lem _ _ _ _ off);
  [ lia | buf | try assumption; try lia; try len_lia..| put_ref | by read_field ].

Section References.
Context `{HI : IntSize}.
Hypothesis int_32 : 32 ≤ int_bits.

Lemma SMSSend_ref pdu :
  bytes_ok pdu → len pdu + 16 < 2 ^ 31 → byteArrayAt (encodeSMSSend pdu) 4 = Ok pdu.
Proof.
  intros Hb Hl. pose proof (max_int_31 int_32). unfold encodeSMSSend. pose_pad.
  find_ref @byteArrayAt_data 12.
Qed.

Lemma USSD_ref action dcs payload :
  bytes_ok payload → len payload + 24 < 2 ^ 31 →
  byteArrayAt (encodeUSSD action dcs payload) 8 = Ok payload.
Proof.
  intros Hb Hl. pose proof (max_int_31 int_32). unfold encodeUSSD. pose_pad.
  find_ref @byteArrayAt_data 16.
Qed.

Lemma UICCAPDU_ref channel command :
  bytes_ok command → len command + 24 < 2 ^ 31 →
  uiccByteArrayAt (encodeUICCAPDU channel command) 12 = Ok command.
Proof.
  intros Hb Hl. pose proof (max_int_31 int_32). unfold encodeUICCAPDU. pose_pad.
  find_ref @uiccByteArrayAt_data 20.
Qed.

Lemma ReadBinary_refs aid path o n :
  bytes_ok aid → bytes_ok path → len aid + len path + 52 < 2 ^ 31 →
  byteArrayAt (encodeUICCReadBinary aid path o n) 4 = Ok aid ∧
  byteArrayAt (encodeUICCReadBinary aid path o n) 12 = Ok path ∧
  u32At (encodeUICCReadBinary aid path o n) 20 = Ok (u32 o) ∧
  u32At (encodeUICCReadBinary aid path o n) 24 = Ok (u32 n).
Proof.
  intros Ha Hp Hl. pose proof (max_int_31 int_32). pose proof (len_nonneg path).
  pose proof (len_nonneg aid). unfold encodeUICCReadBinary. cbv zeta. pose_pad. split_and!.
  - find_ref @byteArrayAt_data 44.
  - find_ref @byteArrayAt_data (44 + pad4 (len aid)).
  - rewrite u32At_get by len_lia. by read_u32.
  - rewrite u32At_get by len_lia. by read_u32.
Qed.

Lemma ReadRecord_refs aid path n :
  bytes_ok aid → bytes_ok path → len aid + len path + 52 < 2 ^ 31 →
  byteArrayAt (encodeUICCReadRecord aid path n) 4 = Ok aid ∧
  byteArrayAt (encodeUICCReadRecord aid path n) 12 = Ok path ∧
  u32At (encodeUICCReadRecord aid path n) 20 = Ok (u32 n).
Proof.
  intros Ha Hp Hl. pose proof (max_int_31 int_32). pose proof (len_nonneg path).
  pose proof (len_nonneg aid). unfold encodeUICCReadRecord. cbv zeta. pose_pad. split_and!.
  - find_ref @byteArrayAt_data 40.
  - find_ref @byteArrayAt_data (40 + pad4 (len aid)).
  - rewrite u32At_get by len_lia. by read_u32.
Qed.

Lemma ProxyConfig_ref path t :
  bytes_ok path → len (encodeUTF16LE path) + 12 < 2 ^ 31 →
  stringAt (encodeProxyConfigInfo path t) 0 = Ok (to_valid path).
Proof.
  intros Hb Hl. pose proof (max_int_31 int_32). pose proof (encodeUTF16LE_bytes path).
  unfold encodeProxyConfigInfo. cbv zeta. find_ref @stringAt_text 12.
Qed.

Lemma OpenChannel_ref aid p g :
  bytes_ok aid → len aid + 20 < 2 ^ 31 →
  uiccByteArrayAt (encodeUICCOpenChannel aid p g) 0 = Ok aid.
Proof.
  intros Hb Hl. pose proof (max_int_31 int_32). unfold encodeUICCOpenChannel. cbv zeta. pose_pad.
  case_bool_decide as Ha.
  - find_ref @uiccByteArrayAt_data 16.
  - clear H0. assert (aid = []) as -> by (apply len_0_nil; lia).
    change (pad4 (len [])) with 0. change (len []) with 0.
    find_ref @uiccByteArrayAt_data 0.
Qed.

(** A reference to text: the size word, and where the text is unless empty. *)
Definition text_ref (b : bytes) (pos : Z) (data : bytes) : Prop :=
  get_u32 (E:=error) b (pos + 4) = Ok (len data) ∧
  (len data ≠ 0 → ∃ off, get_u32 (E:=error) b pos = Ok off ∧
     0 ≤ off ∧ off + len data ≤ len b ∧ fld b off (len data) = data).

Lemma stringAt_text_ref b pos s :
  buf_ok b → bytes_ok s → 0 ≤ pos → pos + 8 ≤ len b → text_ref b pos (encodeUTF16LE s) →
  stringAt b pos = Ok (to_valid s).
Proof.
  intros Hb Hs Hp Hl [Hn Ht]. pose proof Hb as [_ Hlen].
  destruct (decide (len (encodeUTF16LE s) = 0)) as [H0|H0].
  - unfold stringAt. rewrite int_id, !u32At_get, Hn, H0 by lia.
    rewrite get_u32_Ok by lia. cbn [mbind go_bind].
    rewrite bool_decide_eq_true_2 by done. rewrite <-utf16_text by done.
    rewrite len_encodeUTF16LE in H0. rewrite (len_0_nil (utf16_encode (runes s))); [done|lia].
  - destruct (Ht H0) as (off & Ho & ? & ? & ?). unshelve eapply (@stringAt_text _ _ _ _ off); try done; lia.
Qed.

Lemma text_ref_fld b b' pos data :
  text_ref b pos data → len b' = len b → 0 ≤ pos → pos + 8 ≤ len b →
  fld b' pos 4 = fld b pos 4 → fld b' (pos + 4) 4 = fld b (pos + 4) 4 →
  (∀ off, get_u32 (E:=error) b pos = Ok off → fld b' off (len data) = fld b off (len data)) →
  text_ref b' pos data.
Proof.
  intros [Hn Ht] Hl Hp Hpl H1 H2 H3. unfold text_ref.
  rewrite !get_u32_Ok in * by lia. rewrite H1, H2. split; [done|]. intros Hne.
  destruct (Ht Hne) as (off & ? & ? & ? & ?). exists off. rewrite H3 by done.
  split_and!; try done; lia.
Qed.

Lemma putRef_spec pos data info off info' off' :
  putRef pos data (pad4 (len data)) (info, off) = (info', off') →
  0 ≤ pos → pos + 8 ≤ off → off + pad4 (len data) ≤ len info → len info < 2 ^ 31 →
  fld info (pos + 4) 4 = make_bytes 4 →
  len info' = len info ∧ off' = off + pad4 (len data) ∧ (bytes_ok info → bytes_ok data → bytes_ok info') ∧
  (∀ o n, 0 ≤ o → (o + n ≤ pos ∨ pos + 8 ≤ o) → (o + n ≤ off ∨ off + pad4 (len data) ≤ o) →
     fld info' o n = fld info o n) ∧
  text_ref info' pos data ∧ (len data ≠ 0 → get_u32 (E:=error) info' pos = Ok off).
Proof.
  intros Hput Hp Ho Hl Hmax Hz. pose proof (pad4_bounds (len data) (len_nonneg _)).
  pose proof (len_nonneg data). revert Hput. unfold putRef.
  case_bool_decide as Hemp; intros [= <- <-].
  - rewrite Hemp in *. change (pad4 0) with 0 in *.
    unfold text_ref. rewrite Hemp. split_and!; try done; [lia|].
    by rewrite get_u32_Ok, Hz by lia.
  - unfold text_ref. split_and!.
    + len_lia.
    + done.
    + intros. by repeat first [apply bytes_ok_put_u32 | apply bytes_ok_blit].
    + intros. by read_field.
    + read_u32. by rewrite u32_small by lia.
    + intros _. exists off. split_and!; [|lia|len_lia|by read_field].
      read_u32. by rewrite u32_small by lia.
    + intros _. read_u32. by rewrite u32_small by lia.
Qed.

(** [text_ref] survives writes elsewhere. *)
Lemma text_ref_keep b b' pos off data :
  text_ref b pos data → (len data ≠ 0 → get_u32 (E:=error) b pos = Ok off) →
  len b' = len b → 0 ≤ pos → pos + 8 ≤ len b →
  fld b' pos 4 = fld b pos 4 → fld b' (pos + 4) 4 = fld b (pos + 4) 4 →
  fld b' off (len data) = fld b off (len data) →
  text_ref b' pos data.
Proof.
  intros Ht Ho Hl Hp Hpl H1 H2 H3. apply (text_ref_fld b); try done. intros off' Ho'.
  destruct (decide (len data = 0)) as [->|Hne]; [done|].
  rewrite Ho in Ho' by done. by injection Ho' as <-.
Qed.

Section ConnectRefs.
Context (sessionID command : Z) (access user pass : bytes) (authProtocol ipType : Z).
Hypothesis access_ok : bytes_ok access.
Hypothesis user_ok : bytes_ok user.
Hypothesis pass_ok : bytes_ok pass.
Hypothesis small :
  len (encodeUTF16LE access) + len (encodeUTF16LE user) + len (encodeUTF16LE pass) + 72 < 2 ^ 31.

Let b := encodeConnect sessionID command access user pass authProtocol ipType.

Lemma Connect_layout :
  buf_ok b ∧ 60 ≤ len b ∧ text_ref b 8 (encodeUTF16LE access) ∧
  text_ref b 16 (encodeUTF16LE user) ∧ text_ref b 24 (encodeUTF16LE pass) ∧
  get_u32 (E:=error) b 0 = Ok (u32 sessionID) ∧ get_u32 (E:=error) b 4 = Ok (u32 command) ∧
  get_u32 (E:=error) b 36 = Ok (u32 authProtocol) ∧ get_u32 (E:=error) b 40 = Ok (u32 ipType) ∧
  fld b 44 16 = UUIDContextTypeInternet.
Proof.
  pose proof (max_int_31 int_32). unfold b, encodeConnect. cbv zeta.
  pose proof (encodeUTF16LE_bytes access) as Ba. pose proof (encodeUTF16LE_bytes user) as Bu.
  pose proof (encodeUTF16LE_bytes pass) as Bp.
  set (a := encodeUTF16LE access) in *. set (u := encodeUTF16LE user) in *.
  set (p := encodeUTF16LE pass) in *. clearbody a u p.
  pose proof (pad4_bounds (len a) (len_nonneg _)). pose proof (pad4_bounds (len u) (len_nonneg _)).
  pose proof (pad4_bounds (len p) (len_nonneg _)).
  pose proof (len_nonneg a). pose proof (len_nonneg u). pose proof (len_nonneg p).
  set (i0 := put_u32 4 command _). assert (L0 : len i0 = 60 + pad4 (len a) + pad4 (len u) + pad4 (len p))
    by (unfold i0; len_lia).
  assert (B0 : bytes_ok i0) by by repeat first [apply bytes_ok_make | apply bytes_ok_put_u32].
  assert (Z0 : ∀ o, 8 ≤ o → o + 4 ≤ 60 → fld i0 o 4 = make_bytes 4)
    by (intros; unfold i0; by read_field).
  assert (S0 : fld i0 0 4 = le_bytes 4 (u32 sessionID)) by (unfold i0; by read_field).
  assert (C0 : fld i0 4 4 = le_bytes 4 (u32 command)) by (unfold i0; by read_field).
  clearbody i0.
  destruct (putRef 8 a _ _) as [i1 o1] eqn:E1. apply putRef_spec in E1 as (L1&->&B1&F1&T1&G1);
    [|try lia..|by apply Z0].
  destruct (putRef 16 u _ _) as [i2 o2] eqn:E2. apply putRef_spec in E2 as (L2&->&B2&F2&T2&G2);
    [|try lia..|rewrite F1 by lia; by apply Z0].
  destruct (putRef 24 p _ _) as [i3 o3] eqn:E3. apply putRef_spec in E3 as (L3&->&B3&F3&T3&G3);
    [|try lia..|rewrite F2, F1 by lia; by apply Z0].
  assert (LU : len UUIDContextTypeInternet = 16) by done. set (i4 := blit 44 _ _).
  assert (F4 : ∀ o n, 0 ≤ o → (o + n ≤ 32 ∨ 60 ≤ o) → fld i4 o n = fld i3 o n)
    by (intros; unfold i4; by read_field).
  assert (L4 : len i4 = len i3) by (unfold i4; len_lia).
  assert (B4 : bytes_ok i4).
  { unfold i4. apply bytes_ok_blit; [by apply (bool_decide_eq_true_1 _)|].
    repeat apply bytes_ok_put_u32. auto. }
  assert (A : get_u32 (E:=error) i4 36 = Ok (u32 authProtocol)) by (unfold i4; by read_u32).
  assert (I : get_u32 (E:=error) i4 40 = Ok (u32 ipType)) by (unfold i4; by read_u32).
  assert (U : fld i4 44 16 = UUIDContextTypeInternet) by (unfold i4; by read_field).
  clearbody i4. split_and!; try done; try lia.
  - split; [done|lia].
  - by apply (text_ref_keep i1 i4 8 60); try lia; try done; rewrite F4, F3, F2 by lia.
  - by apply (text_ref_keep i2 i4 16 (60 + pad4 (len a))); try lia; try done; rewrite F4, F3 by lia.
  - by apply (text_ref_keep i3 i4 24 (60 + pad4 (len a) + pad4 (len u))); try lia; try done;
      rewrite F4 by lia.
  - by rewrite get_u32_Ok, F4, F3, F2, F1, S0, le_val_u32 by lia.
  - by rewrite get_u32_Ok, F4, F3, F2, F1, C0, le_val_u32 by lia.
Qed.
End ConnectRefs.

Lemma encode_nonempty s : (if bool_decide (s ≠ []) then encodeUTF16LE s else []) = encodeUTF16LE s.
Proof. by destruct s. Qed.

Lemma SetSMSConfig_ref smsc :
  bytes_ok smsc → len (encodeUTF16LE smsc) + 20 < 2 ^ 31 →
  stringAt (encodeSetSMSConfig smsc) 4 = Ok (to_valid smsc).
Proof.
  intros Hb Hl. pose proof (max_int_31 int_32). pose proof (encodeUTF16LE_bytes smsc).
  unfold encodeSetSMSConfig. cbv zeta. rewrite encode_nonempty. pose_pad.
  pose proof (len_nonneg (encodeUTF16LE smsc)).
  case_bool_decide as Hn; [find_ref @stringAt_text 12|].
  apply stringAt_text_ref; [buf|done|lia|len_lia|].
  split; [read_u32; change (le_val (make_bytes 4)) with 0; f_equal; lia|lia].
Qed.

Lemma SetRegisterState_ref action plmn :
  bytes_ok plmn → len (encodeUTF16LE plmn) + 20 < 2 ^ 31 →
  stringAt (encodeSetRegisterState action plmn) 0 = Ok (to_valid plmn) ∧
  u32At (encodeSetRegisterState action plmn) 8 = Ok (u32 action).
Proof.
  intros Hb Hl. pose proof (max_int_31 int_32). pose proof (encodeUTF16LE_bytes plmn).
  unfold encodeSetRegisterState. cbv zeta. rewrite encode_nonempty.
  pose proof (len_nonneg (encodeUTF16LE plmn)).
  case_bool_decide as Hn; (split; [|rewrite u32At_get by len_lia; by read_u32]).
  - find_ref @stringAt_text 16.
  - apply stringAt_text_ref; [buf|done|lia|len_lia|].
    split; [read_u32; change (le_val (make_bytes 4)) with 0; f_equal; lia|lia].
Qed.
End References.

(** ** The subscription list *)

(** Blobs laid out one after the other from [pos] up to [limit]. *)
Fixpoint blobs_from (pos : Z) (blobs : list (Z * bytes)) (limit : Z) : Prop :=
  match blobs with
  | [] => pos ≤ limit
  | (off, data) :: blobs => off = pos ∧ bytes_ok data ∧ blobs_from (pos + len data) blobs limit
  end.

Lemma blobs_from_le blobs : ∀ pos limit, blobs_from pos blobs limit → pos ≤ limit.
Proof.
  induction blobs as [|[off data] blobs IH]; intros pos limit; cbn; [done|].
  intros (_ & _ & ?%IH). pose proof (len_nonneg data). lia.
Qed.

Lemma blobs_from_bound blobs j off data : ∀ pos limit,
  blobs_from pos blobs limit → blobs !! j = Some (off, data) → pos ≤ off ∧ off + len data ≤ limit.
Proof.
  revert j. induction blobs as [|[off' data'] blobs IH]; intros j pos limit; [done|]. cbn.
  intros (-> & _ & Hb). pose proof (len_nonneg data'). pose proof (blobs_from_le _ _ _ Hb).
  destruct j as [|j]; cbn; [intros [= <- <-]; lia|]. intros Hj.
  destruct (IH j _ _ Hb Hj). lia.
Qed.

Lemma put_blobs_spec blobs : ∀ i info pos limit,
  0 ≤ i → blobs_from pos blobs limit → 4 + 8 * (i + len blobs) ≤ pos → limit ≤ len info →
  limit < 2 ^ 32 →
  len (put_blobs i blobs info) = len info ∧ (bytes_ok info → bytes_ok (put_blobs i blobs info)) ∧
  (∀ o n, 0 ≤ o → 0 ≤ n → (o + n ≤ 4 + 8 * i ∨ (4 + 8 * (i + len blobs) ≤ o ∧ o + n ≤ pos)) →
     fld (put_blobs i blobs info) o n = fld info o n) ∧
  (∀ j off data, blobs !! j = Some (off, data) →
     ref_at (put_blobs i blobs info) (4 + 8 * (i + Z.of_nat j)) off (len data) ∧
     fld (put_blobs i blobs info) off (len data) = data).
Proof.
  induction blobs as [|[off data] blobs IH]; intros i info pos limit Hi Hb Hp Hl Hmax.
  { cbn. split_and!; done. }
  cbn [blobs_from] in Hb. destruct Hb as (-> & Hd & Hb). rewrite len_cons in *.
  pose proof (len_nonneg blobs). pose proof (len_nonneg data).
  pose proof (blobs_from_le _ _ _ Hb). cbn [put_blobs].
  set (info1 := blit pos data _).
  assert (L1 : len info1 = len info) by (unfold info1; len_lia).
  destruct (IH (i + 1) info1 (pos + len data) limit) as (Hlen & Hok & Hfld & Href); [lia|done|lia..|].
  split_and!.
  - lia.
  - intros. apply Hok. unfold info1. apply bytes_ok_blit; [done|]. by repeat apply bytes_ok_put_u32.
  - intros o n Ho Hn Hc. rewrite Hfld by lia. unfold info1. by read_field.
  - intros [|j] off data'; cbn [lookup list_lookup].
    + intros [= <- <-]. unfold ref_at. rewrite !get_u32_Ok, !Hfld by lia. unfold info1.
      replace (4 + 8 * (i + Z.of_nat 0)) with (4 + i * 8) by lia. read_field.
      rewrite !le_val_u32, !u32_small by lia. done.
    + intros Hj. replace (i + Z.of_nat (S j)) with (i + 1 + Z.of_nat j) by lia. by apply Href.
Qed.

Lemma len_put_blobs blobs : ∀ i info, len (put_blobs i blobs info) = len info.
Proof.
  induction blobs as [|[off data] blobs IH]; intros i info; cbn; [done|]. rewrite IH.
  by rewrite len_blit, !len_put_u32.
Qed.

Lemma put_words_bytes ws : ∀ off b, bytes_ok b → bytes_ok (put_words off ws b).
Proof. induction ws as [|w ws IH]; intros off b Hb; cbn; [done|]. by apply IH, bytes_ok_put_u32. Qed.

Lemma len_put_words ws : ∀ off b, len (put_words off ws b) = len b.
Proof. induction ws as [|w ws IH]; intros off b; cbn; [done|]. by rewrite IH, len_put_u32. Qed.

Definition entry_ok (e : EventEntry) : Prop := uuid_ok (ev_Service e).

Lemma len_entry_blob e : len (entry_blob e) = 20 + 4 * len (ev_CIDs e).
Proof.
  unfold entry_blob. rewrite len_put_words. pose proof (len_nonneg (ev_CIDs e)). len_lia.
Qed.

Lemma entry_blob_bytes e : entry_ok e → bytes_ok (entry_blob e).
Proof.
  intros [_ He]. apply put_words_bytes, bytes_ok_put_u32, bytes_ok_blit; [done|apply bytes_ok_make].
Qed.

Lemma put_words_spec ws : ∀ off b,
  0 ≤ off → off + 4 * len ws ≤ len b →
  (∀ o n, 0 ≤ o → 0 ≤ n → (o + n ≤ off ∨ off + 4 * len ws ≤ o) →
     fld (put_words off ws b) o n = fld b o n) ∧
  (∀ j w, ws !! j = Some w →
     get_u32 (E:=error) (put_words off ws b) (off + 4 * Z.of_nat j) = Ok (u32 w)).
Proof.
  induction ws as [|w ws IH]; intros off b Ho Hl; [by cbn; split|]. rewrite len_cons in *.
  pose proof (len_nonneg ws). cbn [put_words].
  destruct (IH (off + 4) (put_u32 off w b)) as [Hf Hg]; [lia|len_lia|]. split.
  - intros o n ? ? ?. rewrite Hf by lia. by read_field.
  - intros [|j] w'; cbn [lookup list_lookup].
    + intros [= <-]. rewrite get_u32_Ok by (rewrite ?len_put_words; len_lia).
      rewrite Hf by lia. replace (off + 4 * Z.of_nat 0) with off by lia.
      read_field. by rewrite le_val_u32.
    + intros Hj. rewrite <-(Hg j w' Hj). f_equal. lia.
Qed.

Lemma entry_blob_spec e :
  entry_ok e → len (ev_CIDs e) < 2 ^ 32 →
  fld (entry_blob e) 0 16 = ev_Service e ∧
  get_u32 (E:=error) (entry_blob e) 16 = Ok (len (ev_CIDs e)) ∧
  ∀ j c, ev_CIDs e !! j = Some c →
    get_u32 (E:=error) (entry_blob e) (20 + 4 * Z.of_nat j) = Ok (u32 c).
Proof.
  intros [Hs _] Hl. pose proof (len_nonneg (ev_CIDs e)). unfold entry_blob.
  destruct (put_words_spec (ev_CIDs e) 20 (put_u32 16 (len (ev_CIDs e))
    (blit 0 (ev_Service e) (make_bytes (16 + 4 + 4 * len (ev_CIDs e)))))) as [Hf Hg]; [lia|len_lia|].
  split_and!; [rewrite Hf by lia; by read_field| |exact Hg].
  rewrite get_u32_Ok by (rewrite ?len_put_words; len_lia). rewrite Hf by lia. read_field.
  by rewrite le_val_u32, u32_small by lia.
Qed.

Lemma place_blobs_spec entries : ∀ pos blobs limit,
  Forall entry_ok entries → place_blobs pos entries = (blobs, limit) →
  blobs_from pos blobs limit ∧ len blobs = len entries ∧
  ∀ j e, entries !! j = Some e → ∃ off, blobs !! j = Some (off, entry_blob e).
Proof.
  induction entries as [|e entries IH]; intros pos blobs limit Hok; cbn.
  { intros [= <- <-]. by cbn. }
  apply Forall_cons in Hok as [He Hok].
  destruct (place_blobs _ _) as [blobs' limit'] eqn:E. intros [= <- <-].
  destruct (IH _ _ _ Hok E) as (? & ? & Hj). cbn. rewrite !len_cons.
  split_and!; [done|by apply entry_blob_bytes|done|lia|].
  intros [|j] e' Hl; simplify_eq/=; eauto.
Qed.

Lemma SubscribeList_refs `{HI : IntSize} entries i e :
  32 ≤ int_bits → Forall entry_ok entries → len (encodeSubscribeList entries) < 2 ^ 31 →
  entries !! i = Some e →
  byteArrayAt (encodeSubscribeList entries) (4 + 8 * Z.of_nat i) = Ok (entry_blob e) ∧
  u32At (encodeSubscribeList entries) 0 = Ok (len entries).
Proof.
  intros H32 Hok Hlen Hi. pose proof (max_int_31 H32). unfold encodeSubscribeList in *.
  destruct (place_blobs _ _) as [blobs limit] eqn:E.
  apply place_blobs_spec in E as (Hb & Hn & Hj); [|done].
  pose proof (len_nonneg entries). pose proof (blobs_from_le _ _ _ Hb).
  rewrite len_put_blobs, len_put_u32, len_make in Hlen by lia.
  destruct (put_blobs_spec blobs 0 (put_u32 0 (len entries) (make_bytes limit))
    (4 + len entries * 8) limit) as (Hl & Hbytes & Hfld & Href); [lia|done|lia|len_lia|lia|].
  rewrite len_put_u32, len_make in Hl by lia.
  assert (Hbuf : buf_ok (put_blobs 0 blobs (put_u32 0 (len entries) (make_bytes limit)))).
  { split; [|lia]. apply Hbytes, bytes_ok_put_u32, bytes_ok_make. }
  destruct (Hj i e Hi) as [off Hoff]. destruct (Href _ _ _ Hoff) as [Hr Hf].
  pose proof (blobs_from_bound _ _ _ _ _ _ Hb Hoff). apply lookup_lt_Some in Hi.
  unfold len in *. split.
  - unshelve eapply (@byteArrayAt_data _ _ _ _ off); try done; unfold len in *; lia.
  - rewrite u32At_get, get_u32_Ok, Hfld by (unfold len in *; lia).
    rewrite fld_put_u32_eq by (rewrite ?len_make; unfold len in *; lia).
    by rewrite le_val_u32, u32_small by lia.
Qed.

(** ** Properties *)

(** Every request can be read back through its references.  For each
    encoder of variable-size data, what a reader finds behind the (offset,
    size) pairs of the encoded buffer, at any [int] width, is the argument that
    was passed: byte arrays exactly, text up to the replacement of bytes that
    are not UTF-8; an empty string included. *)
Theorem requests_decode `{HI : IntSize} :
  32 ≤ int_bits →
  (∀ sid cmd a u p ap t, bytes_ok a → bytes_ok u → bytes_ok p →
     len (encodeUTF16LE a) + len (encodeUTF16LE u) + len (encodeUTF16LE p) + 72 < 2 ^ 31 →
     let b := encodeConnect sid cmd a u p ap t in
     stringAt b 8 = Ok (to_valid a) ∧ stringAt b 16 = Ok (to_valid u) ∧
     stringAt b 24 = Ok (to_valid p) ∧ u32At b 36 = Ok (u32 ap) ∧ u32At b 40 = Ok (u32 t)) ∧
  (∀ aid path o n, bytes_ok aid → bytes_ok path → len aid + len path + 52 < 2 ^ 31 →
     let b := encodeUICCReadBinary aid path o n in
     byteArrayAt b 4 = Ok aid ∧ byteArrayAt b 12 = Ok path ∧
     u32At b 20 = Ok (u32 o) ∧ u32At b 24 = Ok (u32 n)) ∧
  (∀ aid path n, bytes_ok aid → bytes_ok path → len aid + len path + 52 < 2 ^ 31 →
     let b := encodeUICCReadRecord aid path n in
     byteArrayAt b 4 = Ok aid ∧ byteArrayAt b 12 = Ok path ∧ u32At b 20 = Ok (u32 n)) ∧
  (∀ aid p g, bytes_ok aid → len aid + 20 < 2 ^ 31 →
     uiccByteArrayAt (encodeUICCOpenChannel aid p g) 0 = Ok aid) ∧
  (∀ c apdu, bytes_ok apdu → len apdu + 24 < 2 ^ 31 →
     uiccByteArrayAt (encodeUICCAPDU c apdu) 12 = Ok apdu) ∧
  (∀ pdu, bytes_ok pdu → len pdu + 16 < 2 ^ 31 → byteArrayAt (encodeSMSSend pdu) 4 = Ok pdu) ∧
  (∀ s, bytes_ok s → len (encodeUTF16LE s) + 20 < 2 ^ 31 →
     stringAt (encodeSetSMSConfig s) 4 = Ok (to_valid s)) ∧
  (∀ a s, bytes_ok s → len (encodeUTF16LE s) + 20 < 2 ^ 31 →
     stringAt (encodeSetRegisterState a s) 0 = Ok (to_valid s)) ∧
  (∀ a d p, bytes_ok p → len p + 24 < 2 ^ 31 → byteArrayAt (encodeUSSD a d p) 8 = Ok p) ∧
  (∀ s t, bytes_ok s → len (encodeUTF16LE s) + 12 < 2 ^ 31 →
     stringAt (encodeProxyConfigInfo s t) 0 = Ok (to_valid s)).
Proof.
  intros H32. split_and!.
  - intros sid cmd a u p ap t Ha Hu Hp Hs. cbv zeta.
    destruct (Connect_layout H32 sid cmd a u p ap t Hs)
      as (Hb & Hl & Ta & Tu & Tp & _ & _ & A & I & _).
    split_and!; [apply stringAt_text_ref; try done; lia..|by rewrite u32At_get by lia|].
    by rewrite u32At_get by lia.
  - intros. by apply ReadBinary_refs.
  - intros. by apply ReadRecord_refs.
  - intros. by apply OpenChannel_ref.
  - intros. by apply UICCAPDU_ref.
  - intros. by apply SMSSend_ref.
  - intros. by apply SetSMSConfig_ref.
  - intros. by apply SetRegisterState_ref.
  - intros. by apply USSD_ref.
  - intros. by apply ProxyConfig_ref.
Qed.

Lemma requests_decode_witness :
  let b := encodeConnect 0 1 [105; 109; 115] [] [0xC3; 0xA9] 0 3 in
  stringAt (H:=amd64) b 8 = Ok (to_valid [105; 109; 115]) ∧
  stringAt (H:=amd64) b 16 = Ok (to_valid []) ∧
  stringAt (H:=amd64) b 24 = Ok (to_valid [0xC3; 0xA9]) ∧ u32At b 36 = Ok (u32 0) ∧ u32At b 40 = Ok (u32 3).
Proof.
  destruct (@requests_decode amd64) as [H _]; [vm_compute; discriminate|].
  apply H; try (apply (bool_decide_eq_true_1 _)); vm_compute; reflexivity.
Defined.

(** The subscription list is well laid out.  The reference of every entry
    leads to a block of its own with the service, the number of its command
    identifiers and these identifiers in order; the list starts with the number
    of entries. *)
Theorem subscribe_list_decodes `{HI : IntSize} entries i e :
  32 ≤ int_bits → Forall entry_ok entries → len (encodeSubscribeList entries) < 2 ^ 31 →
  entries !! i = Some e → len (ev_CIDs e) < 2 ^ 32 →
  u32At (encodeSubscribeList entries) 0 = Ok (len entries) ∧
  ∃ blob, byteArrayAt (encodeSubscribeList entries) (4 + 8 * Z.of_nat i) = Ok blob ∧
    fld blob 0 16 = ev_Service e ∧ u32At blob 16 = Ok (len (ev_CIDs e)) ∧
    ∀ j c, ev_CIDs e !! j = Some c → u32At blob (20 + 4 * Z.of_nat j) = Ok (u32 c).
Proof.
  intros H32 Hok Hl Hi Hc. destruct (SubscribeList_refs entries i e H32 Hok Hl Hi) as [Hb Hn].
  split; [done|]. exists (entry_blob e). rewrite Forall_lookup in Hok.
  destruct (entry_blob_spec e (Hok _ _ Hi) Hc) as (Hs & Hk & Hcs). pose proof (len_entry_blob e).
  pose proof (len_nonneg (ev_CIDs e)). split_and!; [done|done|by rewrite u32At_get by lia|].
  intros j c Hj. rewrite u32At_get; [by apply Hcs|lia|].
  apply lookup_lt_Some in Hj. unfold len in *. lia.
Qed.

Definition default_entries : list EventEntry :=
  [mkEventEntry UUIDBasicConnect [11; 9; 10; 2]; mkEventEntry UUIDSMS [2]].

Lemma subscribe_list_decodes_witness :
  ∃ blob, byteArrayAt (H:=amd64) (ex_info SubscribeDefaultEvents) 12 = Ok blob ∧
    fld blob 0 16 = UUIDSMS.
Proof.
  destruct (@subscribe_list_decodes amd64 default_entries 1 (mkEventEntry UUIDSMS [2]))
    as (_ & blob & Hb & Hs & _); [vm_compute; discriminate| |vm_compute; reflexivity..|].
  - repeat constructor; vm_compute; discriminate || reflexivity.
  - exists blob. split; [exact Hb|exact Hs].
Defined.

Lemma rsrp_loop_bounds `{HI : IntSize} n b : ∀ i s s',
  int_bits = 64 → bytes_ok b →
  (HasRSRP s = true → -157 ≤ RSRP s ≤ -31) ∧ (HasSNR s = true → -23 ≤ SNR s ≤ 40) →
  rsrp_loop n i b s = Ok s' →
  sig_RSSI s' = sig_RSSI s ∧ DBM s' = DBM s ∧ sig_Unknown s' = sig_Unknown s ∧
  (HasRSRP s' = true → -157 ≤ RSRP s' ≤ -31) ∧ (HasSNR s' = true → -23 ≤ SNR s' ≤ 40).
Proof.
  induction n as [|n IH]; intros i s s' H64 Hb Hs; cbn [rsrp_loop]; [intros [= <-]; tauto|].
  case_bool_decide; [intros [= <-]; tauto|].
  rewrite bind_Ok. intros (r & Hr & H1). rewrite bind_Ok in H1. destruct H1 as (q & Hq & H1).
  rewrite bind_Ok in H1. destruct H1 as (t & _ & H1). apply u32At__range in Hr, Hq; [|done..].
  revert H1. case_bool_decide; [by apply IH|]. cbv zeta.
  set (s1 := set_SNR _ _).
  assert (Hs1 : sig_RSSI s1 = sig_RSSI s ∧ DBM s1 = DBM s ∧ sig_Unknown s1 = sig_Unknown s ∧
    (HasRSRP s1 = true → -157 ≤ RSRP s1 ≤ -31) ∧ (HasSNR s1 = true → -23 ≤ SNR s1 ≤ 40)).
  { unfold s1, rsrpCodedToDBM, snrCodedToDB. rewrite !int64_id by (done || lia).
    repeat case_bool_decide; cbn; split_and!; try done; try tauto; intros _; zdiv || lia. }
  clearbody s1. destruct Hs1 as (E1 & E2 & E3 & Hs1).
  destruct (HasRSRP s1 || HasSNR s1); [intros [= <-]; tauto|]. intros Hl.
  apply IH in Hl; [|done..]. destruct Hl as (-> & -> & -> & ?). tauto.
Qed.

(** Signal readings are in range.  Whatever the modem reports, a parsed
    signal state that is not marked unknown is between -113 and -51 dBm, an RSRP
    that is marked present between -157 and -31 dBm and an SNR that is marked
    present between -23 and 40 dB. *)
Theorem signal_in_range `{HI : IntSize} info s :
  int_bits = 64 → buf_ok info → parseSignalState info = Ok s →
  (sig_Unknown s = false → -113 ≤ DBM s ≤ -51) ∧
  (HasRSRP s = true → -157 ≤ RSRP s ≤ -31) ∧ (HasSNR s = true → -23 ≤ SNR s ≤ 40).
Proof.
  intros H64 Hb. unfold parseSignalState. case_bool_decide; [done|].
  rewrite bind_Ok. intros (rssi & Hr & H1). rewrite bind_Ok in H1. destruct H1 as (e & _ & H1).
  apply u32At__range in Hr; [|apply Hb].
  destruct (rssiToDBM rssi) as [dbm unknown] eqn:Ed. set (s0 := mkSignalState _ _ _ _ _ _ _ _) in H1.
  assert (H0 : sig_Unknown s0 = false → -113 ≤ DBM s0 ≤ -51).
  { cbn. intros ->. revert Ed. unfold rssiToDBM. rewrite int64_id by (done || lia).
    case_bool_decide; intros [= <-]; lia. }
  assert (Hp : (HasRSRP s0 = true → -157 ≤ RSRP s0 ≤ -31) ∧ (HasSNR s0 = true → -23 ≤ SNR s0 ≤ 40))
    by done. clearbody s0. revert H1. unfold parseSignalRsrpSnrV2.
  case_bool_decide; [intros [= <-]; tauto|].
  destruct (byteArrayAt info 20) as [buf| |] eqn:Eb; [|intros [= <-]; tauto|done].
  case_bool_decide; [intros [= <-]; tauto|]. rewrite bind_Ok. intros (c & _ & Hl).

  apply byteArrayAt_buf in Eb; [|done].
  apply rsrp_loop_bounds in Hl; [|done|apply Eb|done]. destruct Hl as (_ & -> & -> & ?). tauto.
Qed.

(** A V2 response: RSSI 20, one LTE entry with coded RSRP 60 and SNR 70. *)
Definition signal_sample : bytes :=
  put_u32 48 0x20 (put_u32 36 70 (put_u32 32 60 (put_u32 28 1 (put_u32 24 24 (put_u32 20 28
    (put_u32 0 20 (make_bytes 52))))))).

Lemma signal_in_range_witness :
  ∃ s, parseSignalState (H:=amd64) signal_sample = Ok s ∧
    HasRSRP s = true ∧ RSRP s = -97 ∧ (HasRSRP s = true → -157 ≤ RSRP s ≤ -31).
Proof.
  eexists. split; [vm_compute; reflexivity|]. split; [reflexivity|]. split; [reflexivity|].
  apply (@signal_in_range amd64 signal_sample); [reflexivity| |vm_compute; reflexivity].
  split; [apply (bool_decide_eq_true_1 _); vm_compute; reflexivity|vm_compute; discriminate].
Defined.

Lemma land_255 x : 0 ≤ x → Z.land x 255 = x `mod` 256.
Proof. intros. change 255 with (Z.ones 8). by rewrite Z.land_ones by lia. Qed.

(** The two views of a card status agree.  A status field holds a status
    word either as SW1 alone or as SW1SW2; the two bytes that [UICCAPDU] appends
    to a response are SW1 and SW2 in both encodings, they are bytes, and
    [UICCOpenChannel] accepts a status exactly when it is zero or the first of
    these bytes is a success or warning SW1. *)
Theorem status_word_views sw1 sw2 :
  0 ≤ sw1 < 256 → 0 ≤ sw2 < 256 →
  uiccStatusWordBytes sw1 = [sw1; 0] ∧
  (sw1 ≠ 0 → uiccStatusWordBytes (256 * sw1 + sw2) = [sw1; sw2] ∧
     uiccOpenChannelStatusOK (256 * sw1 + sw2) = uiccOpenChannelStatusOK sw1) ∧
  (uiccOpenChannelStatusOK sw1 = true ↔ sw1 = 0 ∨ sw1 ∈ [0x90; 0x91; 0x61; 0x62; 0x63]).
Proof.
  intros H1 H2. split_and!.
  - unfold uiccStatusWordBytes, u8. rewrite bool_decide_eq_true_2 by lia.
    by rewrite Z.mod_small by lia.
  - intros Hn. unfold uiccStatusWordBytes, uiccOpenChannelStatusOK, u8.
    rewrite (bool_decide_eq_false_2 (256 * sw1 + sw2 ≤ 255)) by lia.
    rewrite (bool_decide_eq_false_2 (256 * sw1 + sw2 = 0)) by lia.
    rewrite (bool_decide_eq_true_2 (256 * sw1 + sw2 > 255)) by lia.
    rewrite (bool_decide_eq_false_2 (sw1 = 0)) by lia.
    rewrite (bool_decide_eq_false_2 (sw1 > 255)) by lia.
    rewrite Z.shiftr_div_pow2 by lia. change (2 ^ 8) with 256.
    replace ((256 * sw1 + sw2) / 256) with sw1 by zdiv.
    rewrite !land_255 by lia. rewrite Z.mod_small by (apply Z.mod_pos_bound; lia).
    rewrite (Z.mod_small sw1) by lia. rewrite Z.mod_mod by lia.
    replace ((256 * sw1 + sw2) `mod` 256) with sw2 by zdiv. done.
  - unfold uiccOpenChannelStatusOK. rewrite (bool_decide_eq_false_2 (sw1 > 255)) by lia.
    case_bool_decide; [tauto|]. rewrite bool_decide_eq_true. tauto.
Qed.

Lemma status_word_views_witness :
  uiccStatusWordBytes 0x6110 = [0x61; 0x10] ∧ uiccOpenChannelStatusOK 0x6110 = true.
Proof.
  destruct (status_word_views 0x61 0x10) as (_ & H & _); [done..|].
  destruct H as [H1 H2]; [done|]. split; [exact H1|exact H2].
Defined.

Lemma be_units_concat us :
  Forall (λ u, 0 ≤ u < 2 ^ 16) us → be_units (concat (be_bytes2 <$> us)) = us.
Proof.
  induction 1 as [|u us Hu _ IH]; [done|]. cbn [fmap list_fmap concat be_bytes2 app be_units].
  rewrite IH. f_equal. unfold u16. rewrite Z.mod_small by lia. zdiv.
Qed.

Lemma len_concat_be us : len (concat (be_bytes2 <$> us)) = 2 * len us.
Proof.
  induction us as [|u us IH]; [done|]. cbn [fmap list_fmap concat]. rewrite len_app, IH, len_cons.
  change (len (be_bytes2 u)) with 2. lia.
Qed.

(** A USSD command that is not in the GSM alphabet is sent as UCS-2 and
    decodes to itself, whatever the GSM codec is. *)
Theorem ussd_ucs2_roundtrip gsm7_Encode gsm7_Decode Pack7BitUSSD Unpack7BitUSSD command :
  bytes_ok command → gsm7_Encode command = None →
  let '(dcs, payload) := EncodeUSSDRequest gsm7_Encode Pack7BitUSSD command in
  dcs = 0x48 ∧ DecodeUSSDText gsm7_Decode Unpack7BitUSSD dcs payload = to_valid command.
Proof.
  intros Hb Hg. unfold EncodeUSSDRequest. rewrite Hg. split; [done|]. unfold DecodeUSSDText.
  rewrite len_concat_be. rewrite (bool_decide_eq_true_2 (0x48 = 0x48 ∨ _)) by (by left).
  rewrite (bool_decide_eq_false_2 (_ ≠ 0)) by (rewrite Z.mul_comm, Z.mod_mul; lia).
  rewrite be_units_concat, utf16_text by (done || apply utf16_encode_range).
  case_bool_decide as H0; [|done]. rewrite <-utf16_text by done.
  by rewrite (len_0_nil (utf16_encode (runes command))) by lia.
Qed.

Lemma ussd_ucs2_roundtrip_witness :
  let '(dcs, payload) := EncodeUSSDRequest (λ _, None) id [0xE4; 0xBD; 0xA0; 42] in
  dcs = 0x48 ∧ DecodeUSSDText (λ _, None) id dcs payload = to_valid [0xE4; 0xBD; 0xA0; 42].
Proof.
  apply (ussd_ucs2_roundtrip (λ _, None) (λ _, None) id id [0xE4; 0xBD; 0xA0; 42]);
    [|reflexivity]. apply (bool_decide_eq_true_1 _). vm_compute. reflexivity.
Defined.
