(* ===== verification/MbimQmi.v ===== *)
(** * QMI over MBIM (pkg/mbim: uicc_qmi.go, uicc_qmi_read.go, uicc_qmi_power.go)

    The QMI frames that are tunnelled through an MBIM command to read the card:
    building a request, walking the TLVs of a response, and the operations that
    allocate a UIM client, use it and release it. *)

From S2P Require Import Prelude MbimWire MbimRecords.

#[local] Open Scope Z_scope.

(** ** Requests *)

(** [buildQMIMessage] *)
Definition buildQMIMessage (service clientID txID msgID : Z) (tlvs : bytes) : bytes :=
  let isCTL := bool_decide (service = 0x00) in
  let sduLen := (if isCTL then 6 else 7) + len tlvs in
  let qmuxLen := 5 + sduLen in
  [0x01] ++ le_bytes 2 (u16 qmuxLen) ++ [0x00; u8 service; u8 clientID; 0x00] ++
  (if isCTL then [u8 txID] else le_bytes 2 (u16 txID)) ++
  le_bytes 2 (u16 msgID) ++ le_bytes 2 (u16 (len tlvs)) ++ tlvs.

(** A TLV with its two length bytes, as the builders append them. *)
Definition tlv (typ : Z) (val : bytes) : bytes :=
  [typ; u8 (len val); u8 (Z.shiftr (len val) 8)] ++ val.

Definition qmiSessionTLV (aid : bytes) : bytes :=
  let sessionType := if bool_decide (len aid > 0) then 0x04 else 0x00 in
  tlv 0x01 ([sessionType; u8 (len aid)] ++ aid).

Definition qmiFileTLV (fileID : Z) (path : bytes) : bytes :=
  tlv 0x02 ([u8 fileID; u8 (Z.shiftr fileID 8); u8 (len path)] ++ path).

Definition qmiOffsetLenTLV (a b : Z) : bytes :=
  [0x03; 0x04; 0x00; u8 a; u8 (Z.shiftr a 8); u8 b; u8 (Z.shiftr b 8)].

Definition buildQMIReadTransparent (clientID txID fileID : Z) (aid path : bytes) (offset length : Z) : bytes :=
  buildQMIMessage 0x0B clientID txID 0x0020
    (qmiSessionTLV aid ++ qmiFileTLV fileID path ++ qmiOffsetLenTLV offset length).

Definition buildQMIReadRecord (clientID txID fileID : Z) (aid path : bytes) (record length : Z) : bytes :=
  buildQMIMessage 0x0B clientID txID 0x0021
    (qmiSessionTLV aid ++ qmiFileTLV fileID path ++ qmiOffsetLenTLV record length).

Definition buildQMIUIMPowerRequest (clientID msgID slot : Z) : bytes :=
  buildQMIMessage 0x0B clientID 2 msgID [0x01; 0x01; 0x00; slot].

(** ** The TLV walk

    The loop that all the response parsers share: [body] sees the type and the
    value of each TLV and goes on with a new state or returns; [fin] is the code
    after the loop, reached at the end or at a truncated TLV.  Each turn moves
    on by at least three bytes; [fuel] one above the length of the TLVs is
    enough, and running out of it is a [Panic], so that panic-freedom includes
    termination. *)
Section Walk.
Context {S R : Type} (body : Z → bytes → S → go error (S + R)) (fin : S → go error R).

Fixpoint walk (fuel : nat) (tlvs : bytes) (pos : Z) (s : S) : go error R :=
  match fuel with
  | O => Panic
  | Datatypes.S fuel =>
      if bool_decide (pos + 3 ≤ len tlvs) then
        typ ← idx tlvs pos;
        lb ← slice tlvs (pos + 1) (pos + 3);
        l ← le_u16 lb;
        if bool_decide (pos + 3 + l > len tlvs) then fin s
        else
          val ← slice tlvs (pos + 3) (pos + 3 + l);
          r ← body typ val s;
          match r with
          | inl s => walk fuel tlvs (pos + 3 + l) s
          | inr r => Ok r
          end
      else fin s
  end.

Definition walk_all (tlvs : bytes) (s : S) : go error R :=
  walk (Datatypes.S (length tlvs)) tlvs 0 s.
End Walk.

(** ** Responses *)

Definition extractClientID (data : bytes) : go error Z :=
  if bool_decide (len data < 12) then Err PlainError
  else
    tlvs ← slice_from data 12;
    walk_all (λ typ val _,
      if bool_decide (typ = 0x01 ∧ len val >= 2) then v ← idx val 1; Ok (inr v)
      else Ok (inl tt))
      (λ _, Err PlainError) tlvs tt.

Record UICCAppInfo := mkUICCAppInfo { ai_Type : Z; ai_AID : bytes }.

(** The application loop of [parseAllAIDs]: the applications so far, and the
    position after them; no position after [goto nextTlv]. *)
Fixpoint aid_apps (n : nat) (val : bytes) (vIdx : Z) (apps : list UICCAppInfo)
    : go error (list UICCAppInfo * option Z) :=
  match n with
  | O => Ok (apps, Some vIdx)
  | Datatypes.S n =>
      if bool_decide (vIdx + 6 > len val) then Ok (apps, None)
      else
        appType ← idx val vIdx;
        let vIdx := vIdx + 6 in
        if bool_decide (vIdx >= len val) then Ok (apps, None)
        else
          aidLen ← idx val vIdx;
          let vIdx := vIdx + 1 in
          if bool_decide (vIdx + aidLen > len val) then Ok (apps, None)
          else
            aid ← slice val vIdx (vIdx + aidLen);
            let apps := apps ++ [mkUICCAppInfo appType aid] in
            let vIdx := vIdx + aidLen in
            if bool_decide (vIdx + 7 > len val) then Ok (apps, None)
            else aid_apps n val (vIdx + 7) apps
  end.

Fixpoint aid_slots (n : nat) (val : bytes) (vIdx : Z) (apps : list UICCAppInfo)
    : go error (list UICCAppInfo * option Z) :=
  match n with
  | O => Ok (apps, Some vIdx)
  | Datatypes.S n =>
      if bool_decide (vIdx + 5 > len val) then Ok (apps, None)
      else
        let vIdx := vIdx + 5 in
        if bool_decide (vIdx >= len val) then Ok (apps, None)
        else
          numApps ← idx val vIdx;
          '(apps, next) ← aid_apps (Z.to_nat numApps) val (vIdx + 1) apps;
          match next with
          | Some vIdx => aid_slots n val vIdx apps
          | None => Ok (apps, None)
          end
  end.

Definition card_status_aids (val : bytes) (apps : list UICCAppInfo)
    : go error (list UICCAppInfo * option Z) :=
  if bool_decide (8 > len val) then Ok (apps, None)
  else if bool_decide (8 >= len val) then Ok (apps, None)
  else numSlots ← idx val 8; aid_slots (Z.to_nat numSlots) val 9 apps.

Definition parseAllAIDs (data : bytes) : go error (list UICCAppInfo) :=
  if bool_decide (len data < 13) then Err PlainError
  else
    tlvs ← slice_from data 13;
    walk_all (λ typ val apps,
      if bool_decide (typ = 0x10) then
        '(apps, next) ← card_status_aids val apps;
        match next with Some _ => Ok (inr apps) | None => Ok (inl apps) end
      else Ok (inl apps))
      (λ apps, Ok apps) tlvs [].

(** The variables of [parseQMIReadResult]; a nil [data] is [None]. *)
Record ReadState := mkReadState {
  rd_have : bool; rd_failed : bool; rd_sw1 : Z; rd_sw2 : Z; rd_bytes : option bytes;
}.

Definition read_body (typ : Z) (val : bytes) (s : ReadState) : go error (ReadState + bytes * Z * Z) :=
  if bool_decide (typ = 0x02) then
    if bool_decide (len val >= 4) then
      r ← slice val 0 2; result ← le_u16 r;
      if bool_decide (result ≠ 0) then
        e ← slice val 2 4; _ ← le_u16 e;
        Ok (inl (mkReadState (rd_have s) true (rd_sw1 s) (rd_sw2 s) (rd_bytes s)))
      else Ok (inl s)
    else Ok (inl s)
  else if bool_decide (typ = 0x10) then
    if bool_decide (len val >= 2) then
      sw1 ← idx val 0; sw2 ← idx val 1;
      Ok (inl (mkReadState true (rd_failed s) sw1 sw2 (rd_bytes s)))
    else Ok (inl s)
  else if bool_decide (typ = 0x11) then
    if bool_decide (len val >= 2) then
      nb ← slice val 0 2; n ← le_u16 nb;
      if bool_decide (2 + n ≤ len val) then
        data ← slice val 2 (2 + n);
        Ok (inl (mkReadState (rd_have s) (rd_failed s) (rd_sw1 s) (rd_sw2 s) (Some data)))
      else Ok (inl s)
    else Ok (inl s)
  else Ok (inl s).

Definition parseQMIReadResult (frame : bytes) : go error (bytes * Z * Z) :=
  if bool_decide (len frame < 13) then Err PlainError
  else
    tlvs ← slice_from frame 13;
    walk_all read_body
      (λ s, if rd_failed s then Err PlainError
            else if negb (rd_have s) && bool_decide (rd_bytes s = None) then Err PlainError
            else Ok (default [] (rd_bytes s), rd_sw1 s, rd_sw2 s))
      tlvs (mkReadState false false 0 0 None).

Definition parseQMIResultOnly (frame : bytes) : go error unit :=
  if bool_decide (len frame < 13) then Err PlainError
  else
    tlvs ← slice_from frame 13;
    walk_all (λ typ val _,
      if bool_decide (typ = 0x02 ∧ len val >= 4) then
        r ← slice val 0 2; result ← le_u16 r;
        if bool_decide (result ≠ 0) then e ← slice val 2 4; _ ← le_u16 e; Err PlainError
        else Ok (inr tt)
      else Ok (inl tt))
      (λ _, Err PlainError) tlvs tt.

(** Skipping the applications of a slot. *)
Fixpoint slot_apps (n : nat) (val : bytes) (vIdx : Z) : go error Z :=
  match n with
  | O => Ok vIdx
  | Datatypes.S n =>
      if bool_decide (vIdx + 7 > len val) then Err PlainError
      else
        aidLen ← idx val (vIdx + 6);
        let vIdx := vIdx + 7 + aidLen + 7 in
        if bool_decide (vIdx > len val) then Err PlainError else slot_apps n val vIdx
  end.

(** The slot loop of [ParseActiveSlot]; the [source] string is whether the slot
    number is the logical slot ([true]) or the index of the entry. *)
Fixpoint active_slots (n : nat) (s : Z) (val : bytes) (vIdx : Z) : go error (Z * bool * option bool) :=
  match n with
  | O => Ok (0, false, None)
  | Datatypes.S n =>
      if bool_decide (vIdx + 6 > len val) then Err PlainError
      else
        cardState ← idx val vIdx; slotState ← idx val (vIdx + 1);
        logicalSlot ← idx val (vIdx + 4);
        numApps ← idx val (vIdx + 5);
        let vIdx := vIdx + 6 in
        if bool_decide (cardState = 0x01 ∧ slotState = 0x01) then
          if bool_decide (logicalSlot ≠ 0) then Ok (logicalSlot, true, Some true)
          else Ok (u8 (s + 1), true, Some false)
        else
          vIdx ← slot_apps (Z.to_nat numApps) val vIdx; active_slots n (s + 1) val vIdx
  end.

Definition ParseActiveSlot (frame : bytes) : go error (Z * bool * option bool) :=
  _ ← parseQMIResultOnly frame;
  if bool_decide (len frame < 13) then Err PlainError
  else
    tlvs ← slice_from frame 13;
    walk_all (λ typ val _,
      if bool_decide (typ = 0x10) then
        if bool_decide (len val < 9) then Err PlainError
        else numSlots ← idx val 8; r ← active_slots (Z.to_nat numSlots) 0 val 9; Ok (inr r)
      else Ok (inl tt))
      (λ _, Err PlainError) tlvs tt.

(** ** Operations

    [send log req] is the answer of the modem to the request [req] after the
    requests [log]; an operation returns its result and the requests it made. *)

Definition SendQMI (payload : bytes) : exchange bytes :=
  mkExchange UUIDQMI CIDQMIMsg CommandTypeSet payload (λ resp, Ok (cd_InfoBuffer resp)).

Section Operations.
Context (send : list bytes → bytes → go error bytes).

Definition alloc_request : bytes := buildQMIMessage 0x00 0x00 1 0x0022 [0x01; 0x01; 0x00; 0x0B].
Definition release_request (clientID : Z) : bytes :=
  buildQMIMessage 0x00 0x00 2 0x0023 [0x01; 0x02; 0x00; 0x0B; clientID].

Definition allocUIMClient (log : list bytes) : go error Z * list bytes :=
  (ctlResp ← send log alloc_request; extractClientID ctlResp, log ++ [alloc_request]).

Definition releaseUIMClient (clientID : Z) (log : list bytes) : list bytes :=
  log ++ [release_request clientID].

(** Allocate, [defer] the release, send one request and parse its answer. *)
Definition with_uim_client {A} (request : Z → bytes) (parse : bytes → go error A)
    (log : list bytes) : go error A * list bytes :=
  let '(client, log) := allocUIMClient log in
  match client with
  | Panic => (Panic, log)
  | Err e => (Err e, log)
  | Ok clientID =>
      (resp ← send log (request clientID); parse resp,
       releaseUIMClient clientID (log ++ [request clientID]))
  end.

Definition QMIUIMApplicationList : list bytes → go error (list UICCAppInfo) * list bytes :=
  with_uim_client (λ id, buildQMIMessage 0x0B id 3 0x002F []) parseAllAIDs.

Definition QMIReadTransparentEF (fileID : Z) (aid path : bytes) (offset length : Z)
    : list bytes → go error (bytes * Z * Z) * list bytes :=
  with_uim_client (λ id, buildQMIReadTransparent id 2 fileID aid path offset length) parseQMIReadResult.

Definition QMIReadRecordEF (fileID : Z) (aid path : bytes) (record length : Z)
    : list bytes → go error (bytes * Z * Z) * list bytes :=
  with_uim_client (λ id, buildQMIReadRecord id 2 fileID aid path record length) parseQMIReadResult.

Definition UIMPowerOffSIM (slot : Z) : list bytes → go error unit * list bytes :=
  with_uim_client (λ id, buildQMIUIMPowerRequest id 0x0030 slot) parseQMIResultOnly.

Definition UIMPowerOnSIM (slot : Z) : list bytes → go error unit * list bytes :=
  with_uim_client (λ id, buildQMIUIMPowerRequest id 0x0031 slot) parseQMIResultOnly.

Definition QMIUIMGetCardStatus : list bytes → go error bytes * list bytes :=
  with_uim_client (λ id, buildQMIMessage 0x0B id 3 0x002F []) (λ resp, Ok resp).
End Operations.

(** ** The walk on well-formed TLVs *)

Definition tlv_ok (x : Z * bytes) : Prop := byte_ok x.1 ∧ bytes_ok x.2 ∧ len x.2 < 2 ^ 16.

Definition encode_tlvs (l : list (Z * bytes)) : bytes := concat ((λ x, tlv x.1 x.2) <$> l).

Section WalkLemmas.
Context {S R : Type} (body : Z → bytes → S → go error (S + R)) (fin : S → go error R).

(** The meaning of a walk over a list of TLVs. *)
Fixpoint fold_tlvs (l : list (Z * bytes)) (s : S) : go error R :=
  match l with
  | [] => fin s
  | (t, v) :: l =>
      r ← body t v s;
      match r with inl s => fold_tlvs l s | inr r => Ok r end
  end.

Lemma len_tlv t v : len (tlv t v) = 3 + len v.
Proof. unfold tlv. rewrite len_app. done. Qed.

Lemma tlv_length_bytes (v : bytes) :
  len v < 2 ^ 16 → [u8 (len v); u8 (Z.shiftr (len v) 8)] = le_bytes 2 (len v).
Proof.
  intros Hl. pose proof (len_nonneg v). cbn [le_bytes]. unfold u8.
  rewrite Z.shiftr_div_pow2 by lia. done.
Qed.

Lemma walk_fold l : ∀ fuel pre s,
  Forall tlv_ok l → (length l < fuel)%nat →
  walk body fin fuel (pre ++ encode_tlvs l) (len pre) s = fold_tlvs l s.
Proof.
  induction l as [|[t v] l IH]; intros fuel pre s Hok Hf; destruct fuel as [|fuel];
    cbn [length] in Hf; [lia| |lia|]; cbn [walk fold_tlvs].
  { unfold encode_tlvs. cbn. rewrite app_nil_r. by rewrite bool_decide_eq_false_2 by lia. }
  apply Forall_cons in Hok as [(Ht & Hv & Hl) Hok]. cbn [fst snd] in *.
  pose proof (len_nonneg v). pose proof (len_nonneg pre). pose proof (len_nonneg (encode_tlvs l)).
  set (b := pre ++ encode_tlvs ((t, v) :: l)).
  assert (Eb : b = pre ++ [t] ++ le_bytes 2 (len v) ++ v ++ encode_tlvs l).
  { unfold b, encode_tlvs. cbn [fmap list_fmap concat fst snd]. unfold tlv.
    rewrite <-tlv_length_bytes by done. by rewrite <-!app_assoc. }
  assert (Hlen : len b = len pre + 3 + len v + len (encode_tlvs l))
    by (rewrite Eb, !len_app, len_le_bytes; change (len [t]) with 1; lia).
  rewrite bool_decide_eq_true_2 by lia. unfold idx. rewrite bool_decide_eq_true_2 by lia.
  replace (b !! Z.to_nat (len pre)) with (Some t).
  2: { rewrite Eb, lookup_app_r; unfold len; rewrite Nat2Z.id; [|done]. by rewrite Nat.sub_diag. }
  cbn [mbind go_bind]. rewrite slice_fld by lia. cbn [mbind go_bind].
  replace (fld b (len pre + 1) (len pre + 3 - (len pre + 1))) with (le_bytes 2 (len v)).
  2: { replace (len pre + 3 - (len pre + 1)) with 2 by lia. rewrite Eb. unfold fld.
       rewrite app_assoc, drop_app_length' by (rewrite length_app; cbn; unfold len; lia).
       by rewrite take_app_length' by by rewrite length_le_bytes. }
  unfold le_u16. rewrite bool_decide_eq_false_2 by (rewrite len_le_bytes; lia).
  rewrite take_ge by (rewrite length_le_bytes; lia).
  rewrite le_val_le_bytes, Z.mod_small by (change (256 ^ Z.of_nat 2) with (2 ^ 16); lia).
  cbn [mbind go_bind]. rewrite bool_decide_eq_false_2 by lia.
  rewrite slice_fld by lia. cbn [mbind go_bind].
  replace (fld b (len pre + 3) (len pre + 3 + len v - (len pre + 3))) with v.
  2: { replace (len pre + 3 + len v - (len pre + 3)) with (len v) by lia. rewrite Eb. unfold fld.
       rewrite !app_assoc, <-(app_assoc _ v), drop_app_length'
         by (rewrite !length_app, length_le_bytes; cbn; unfold len; lia).
       by rewrite take_app_length' by (unfold len; lia). }
  destruct (body t v s) as [[s'|r]| |]; try done. cbn [mbind go_bind].
  replace (len pre + 3 + len v) with (len (pre ++ [t] ++ le_bytes 2 (len v) ++ v))
    by (rewrite !len_app, len_le_bytes; change (len [t]) with 1; lia).
  replace b with ((pre ++ [t] ++ le_bytes 2 (len v) ++ v) ++ encode_tlvs l)
    by (rewrite Eb; by rewrite <-!app_assoc).
  apply IH; [done|lia].
Qed.

Lemma length_encode_tlvs l : (length l ≤ length (encode_tlvs l))%nat.
Proof.
  induction l as [|[t v] l IH]; [done|]. unfold encode_tlvs in *. cbn [fmap list_fmap concat].
  rewrite length_app. cbn [length fst snd].
  assert (length (tlv t v) = 3 + length v)%nat by (unfold tlv; by rewrite length_app). lia.
Qed.

Lemma walk_all_tlvs l s :
  Forall tlv_ok l → walk_all body fin (encode_tlvs l) s = fold_tlvs l s.
Proof.
  intros Hok. unfold walk_all. rewrite <-(app_nil_l (encode_tlvs l)) at 2.
  apply (walk_fold l _ []); [done|]. pose proof (length_encode_tlvs l). lia.
Qed.

(** On any bytes the walk ends, and is safe when [body] and [fin] are. *)
Lemma safe_walk tlvs : ∀ fuel pos s,
  (∀ t v s, bytes_ok v → safe (body t v s)) → (∀ s, safe (fin s)) → bytes_ok tlvs →
  0 ≤ pos → len tlvs - pos < Z.of_nat fuel → 0 < Z.of_nat fuel → safe (walk body fin fuel tlvs pos s).
Proof.
  intros fuel pos s Hbody Hfin Hb. revert pos s.
  induction fuel as [|fuel IH]; intros pos s Hp Hf Hf0; [lia|]. cbn [walk].
  case_bool_decide as Hc; [|apply Hfin].
  apply safe_bind; [apply safe_idx; lia|]. intros t _.
  apply safe_bind; [apply safe_slice; lia|]. intros lb Hlb.
  pose proof (slice_len _ _ _ _ Hlb). pose proof (slice_bytes_ok _ _ _ _ Hb Hlb).
  apply safe_bind; [apply safe_le_u16; lia|]. intros l Hl.
  apply le_u16_range in Hl; [|done].
  case_bool_decide; [apply Hfin|].
  apply safe_bind; [apply safe_slice; lia|]. intros val Hval.
  apply safe_bind; [apply Hbody; exact (slice_bytes_ok _ _ _ _ Hb Hval)|]. intros [s'|r] _; [|done].
  apply IH; lia.
Qed.

Lemma safe_walk_all tlvs s :
  (∀ t v s, bytes_ok v → safe (body t v s)) → (∀ s, safe (fin s)) → bytes_ok tlvs →
  safe (walk_all body fin tlvs s).
Proof. intros. apply safe_walk; try done; unfold len; lia. Qed.
End WalkLemmas.

(** ** No response can crash the QMI parsers *)

Ltac byte_fact H :=
  first
    [ apply idx_byte in H; [|assumption]
    | apply le_u16_range in H; [|assumption]
    | let H' := fresh in
      pose proof (slice_len _ _ _ _ H) as H'; apply slice_bytes_ok in H; [|assumption]
    | idtac ].

Ltac qmi_step :=
  match goal with
  | |- safe (Ok _) => exact (safe_Ok _)
  | |- safe (Err _) => exact (safe_Err _)
  | |- safe (if bool_decide _ then _ else _) => case_bool_decide
  | |- safe (if ?b then _ else _) => destruct b
  | |- safe (let _ := _ in _) => cbv zeta
  | |- safe (_ ≫= _) => apply safe_bind; [|let H := fresh "Hread" in intros ? H; byte_fact H]
  | |- safe (idx _ _) => apply safe_idx; lia
  | |- safe (slice _ _ _) => apply safe_slice; lia
  | |- safe (slice_from _ _) => apply safe_slice_from; lia
  | |- safe (le_u16 _) => apply safe_le_u16; lia
  | |- safe (walk_all _ _ _ _) => apply safe_walk_all; [intros ? ? ? ?|intros ?|assumption]
  end.

Lemma safe_aid_apps n val : ∀ vIdx apps,
  bytes_ok val → 0 ≤ vIdx →
  safe (aid_apps n val vIdx apps) ∧
  ∀ apps' p, aid_apps n val vIdx apps = Ok (apps', Some p) → 0 ≤ p.
Proof.
  induction n as [|n IH]; intros vIdx apps Hv Hp; cbn [aid_apps].
  { split; [done|]. by intros ? ? [= <- <-]. }
  case_bool_decide; [by split|].
  destruct (idx_Ok (E:=error) val vIdx) as (t & _ & ->); [lia|]. cbn [mbind go_bind].
  case_bool_decide; [by split|].
  destruct (idx_Ok (E:=error) val (vIdx + 6)) as (l & Hl & Hi); [lia|]. rewrite Hi.
  apply idx_byte in Hi; [|done]. cbn [mbind go_bind].
  case_bool_decide; [by split|]. rewrite slice_fld by lia. cbn [mbind go_bind].
  case_bool_decide; [by split|]. apply IH; [done|lia].
Qed.

Lemma safe_aid_slots n val : ∀ vIdx apps,
  bytes_ok val → 0 ≤ vIdx → safe (aid_slots n val vIdx apps).
Proof.
  induction n as [|n IH]; intros vIdx apps Hv Hp; cbn [aid_slots]; [done|].
  case_bool_decide; [done|]. case_bool_decide; [done|].
  destruct (idx_Ok (E:=error) val (vIdx + 5)) as (k & _ & ->); [lia|]. cbn [mbind go_bind].
  destruct (safe_aid_apps (Z.to_nat k) val (vIdx + 5 + 1) apps) as [Hs Hn]; [done|lia|].
  apply safe_bind; [done|]. intros [apps' [p|]] Hr; [|done]. apply IH; [done|]. by eapply Hn.
Qed.

Lemma safe_parseAllAIDs frame : bytes_ok frame → safe (parseAllAIDs frame).
Proof.
  intros. unfold parseAllAIDs, card_status_aids. repeat qmi_step.
  - apply safe_aid_slots; [done|lia].
  - destruct a0 as [? []]; done.
Qed.

Lemma safe_extractClientID frame : bytes_ok frame → safe (extractClientID frame).
Proof. intros. unfold extractClientID. repeat qmi_step. Qed.

Lemma safe_parseQMIReadResult frame : bytes_ok frame → safe (parseQMIReadResult frame).
Proof.
  intros. unfold parseQMIReadResult, read_body. repeat qmi_step.
Qed.

Lemma safe_parseQMIResultOnly frame : bytes_ok frame → safe (parseQMIResultOnly frame).
Proof. intros. unfold parseQMIResultOnly. repeat qmi_step. Qed.

Lemma safe_slot_apps n val : ∀ vIdx,
  bytes_ok val → 0 ≤ vIdx →
  safe (slot_apps n val vIdx) ∧ ∀ p, slot_apps n val vIdx = Ok p → 0 ≤ p.
Proof.
  induction n as [|n IH]; intros vIdx Hv Hp; cbn [slot_apps].
  { split; [done|]. by intros ? [= <-]. }
  case_bool_decide; [by split|].
  destruct (idx_Ok (E:=error) val (vIdx + 6)) as (l & _ & Hi); [lia|]. rewrite Hi.
  apply idx_byte in Hi; [|done]. cbn [mbind go_bind]. case_bool_decide; [by split|].
  apply IH; [done|lia].
Qed.

Lemma safe_active_slots n val : ∀ s vIdx,
  bytes_ok val → 0 ≤ vIdx → safe (active_slots n s val vIdx).
Proof.
  induction n as [|n IH]; intros s vIdx Hv Hp; cbn [active_slots]; [done|]. repeat qmi_step.
  - by apply safe_slot_apps; [|lia].
  - apply IH; [done|]. eapply safe_slot_apps; [..|exact Hread3]; [done|lia].
Qed.

Lemma safe_ParseActiveSlot frame : bytes_ok frame → safe (ParseActiveSlot frame).
Proof.
  intros. unfold ParseActiveSlot. repeat qmi_step.
  - by apply safe_parseQMIResultOnly.
  - apply safe_active_slots; [done|lia].
Qed.

(** ** The card status, encoded *)

Record CardApp := mkCardApp { ca_app : UICCAppInfo; ca_state : bytes; ca_pins : bytes }.
Record CardSlot := mkCardSlot { sl_info : bytes; sl_apps : list CardApp }.

Definition card_app_ok (a : CardApp) : Prop :=
  byte_ok (ai_Type (ca_app a)) ∧ bytes_ok (ai_AID (ca_app a)) ∧ len (ai_AID (ca_app a)) < 256 ∧
  len (ca_state a) = 5 ∧ bytes_ok (ca_state a) ∧ len (ca_pins a) = 7 ∧ bytes_ok (ca_pins a).

Definition card_slot_ok (s : CardSlot) : Prop :=
  len (sl_info s) = 5 ∧ bytes_ok (sl_info s) ∧ len (sl_apps s) < 256 ∧ Forall card_app_ok (sl_apps s).

Definition encode_app (a : CardApp) : bytes :=
  [ai_Type (ca_app a)] ++ ca_state a ++ [len (ai_AID (ca_app a))] ++ ai_AID (ca_app a) ++ ca_pins a.

Definition encode_slot (s : CardSlot) : bytes :=
  sl_info s ++ [len (sl_apps s)] ++ concat (encode_app <$> sl_apps s).

Definition encode_card (hdr : bytes) (slots : list CardSlot) : bytes :=
  hdr ++ [len slots] ++ concat (encode_slot <$> slots).

(** Rewrites at a known position of a concatenation. *)
Lemma idx_at {E} b (pre : bytes) x post pos :
  b = pre ++ x :: post → pos = len pre → idx (E:=E) b pos = Ok x.
Proof. intros -> ->. by apply idx_mid. Qed.

Lemma slice_at {E} b (pre mid post : bytes) i j :
  b = pre ++ mid ++ post → i = len pre → j = len pre + len mid → slice (E:=E) b i j = Ok mid.
Proof. intros -> -> ->. by apply slice_mid. Qed.

Lemma len_encode_app a :
  card_app_ok a → len (encode_app a) = 14 + len (ai_AID (ca_app a)).
Proof.
  intros (_ & _ & _ & H5 & _ & H7 & _). unfold encode_app. rewrite !len_app, H5, H7.
  change (len [ai_Type (ca_app a)]) with 1. change (len [len (ai_AID (ca_app a))]) with 1. lia.
Qed.

Lemma aid_apps_encoded l : ∀ pre post apps,
  Forall card_app_ok l →
  aid_apps (length l) (pre ++ concat (encode_app <$> l) ++ post) (len pre) apps =
  Ok (apps ++ (ca_app <$> l), Some (len pre + len (concat (encode_app <$> l)))).
Proof.
  induction l as [|a l IH]; intros pre post apps Hok.
  { cbn. rewrite app_nil_r. do 3 f_equal. rewrite len_nil. lia. }
  apply Forall_cons in Hok as [Ha Hok]. pose proof (len_encode_app a Ha) as La.
  destruct Ha as (Ht & Hb & Hl & H5 & _ & H7 & _). set (aid := ai_AID (ca_app a)) in *.
  cbn [length fmap list_fmap concat aid_apps]. rewrite (len_app (encode_app a)), La.
  set (b := pre ++ _ ++ post).
  assert (Eb : b = pre ++ encode_app a ++ (concat (encode_app <$> l) ++ post))
    by (unfold b; by rewrite <-!app_assoc).
  pose proof (len_nonneg aid). pose proof (len_nonneg (concat (encode_app <$> l) ++ post)).
  pose proof (len_nonneg pre).
  assert (Lb : len b = len pre + (14 + len aid) + len (concat (encode_app <$> l) ++ post))
    by (rewrite Eb, (len_app pre), (len_app (encode_app a)), La; lia).
  rewrite bool_decide_eq_false_2 by lia.
  rewrite (idx_at b pre (ai_Type (ca_app a))
             (ca_state a ++ [len aid] ++ aid ++ ca_pins a ++ concat (encode_app <$> l) ++ post) (len pre));
    [|rewrite Eb; unfold encode_app; by rewrite <-!app_assoc|done].
  cbn [mbind go_bind]. rewrite bool_decide_eq_false_2 by lia.
  rewrite (idx_at b (pre ++ [ai_Type (ca_app a)] ++ ca_state a) (len aid)
             (aid ++ ca_pins a ++ concat (encode_app <$> l) ++ post) (len pre + 6));
    [|rewrite Eb; unfold encode_app; by rewrite <-!app_assoc
     |rewrite !len_app, H5; change (len [ai_Type (ca_app a)]) with 1; lia].
  cbn [mbind go_bind]. rewrite bool_decide_eq_false_2 by lia.
  rewrite (slice_at b (pre ++ [ai_Type (ca_app a)] ++ ca_state a ++ [len aid]) aid
             (ca_pins a ++ concat (encode_app <$> l) ++ post));
    [|rewrite Eb; unfold encode_app; by rewrite <-!app_assoc
     |rewrite !len_app, H5; change (len [ai_Type (ca_app a)]) with 1; change (len [len aid]) with 1; lia
     |rewrite !len_app, H5; change (len [ai_Type (ca_app a)]) with 1; change (len [len aid]) with 1; lia].
  cbn [mbind go_bind]. rewrite bool_decide_eq_false_2 by lia.
  replace (len pre + 6 + 1 + len aid + 7) with (len (pre ++ encode_app a)) by (rewrite len_app; lia).
  replace b with ((pre ++ encode_app a) ++ concat (encode_app <$> l) ++ post)
    by (rewrite Eb; by rewrite <-!app_assoc).
  rewrite IH by done. rewrite <-app_assoc, (len_app pre), La. f_equal.
  apply (f_equal2 pair); [unfold aid; by destruct (ca_app a)|]. f_equal. lia.
Qed.

Definition all_apps (slots : list CardSlot) : list UICCAppInfo :=
  concat ((λ s, ca_app <$> sl_apps s) <$> slots).

Lemma aid_slots_encoded l : ∀ pre post apps,
  Forall card_slot_ok l →
  aid_slots (length l) (pre ++ concat (encode_slot <$> l) ++ post) (len pre) apps =
  Ok (apps ++ all_apps l, Some (len pre + len (concat (encode_slot <$> l)))).
Proof.
  induction l as [|s l IH]; intros pre post apps Hok.
  { cbn. rewrite app_nil_r. do 3 f_equal. rewrite len_nil. lia. }
  apply Forall_cons in Hok as [(H5 & _ & Hn & Happs) Hok].
  cbn [length fmap list_fmap concat aid_slots all_apps].
  set (cs := concat (encode_app <$> sl_apps s)).
  assert (Ls : len (encode_slot s) = 6 + len cs)
    by (unfold encode_slot; rewrite !len_app, H5; change (len [_]) with 1; unfold cs; lia).
  set (b := pre ++ _ ++ post).
  assert (Eb : b = (pre ++ sl_info s ++ [len (sl_apps s)]) ++ cs ++ (concat (encode_slot <$> l) ++ post))
    by (unfold b, encode_slot at 1; by rewrite <-!app_assoc).
  pose proof (len_nonneg cs). pose proof (len_nonneg (concat (encode_slot <$> l) ++ post)).
  pose proof (len_nonneg pre). pose proof (len_nonneg (sl_apps s)).
  assert (Lp : len (pre ++ sl_info s ++ [len (sl_apps s)]) = len pre + 6)
    by (rewrite !len_app, H5; change (len [_]) with 1; lia).
  assert (Lb : len b = len pre + 6 + len cs + len (concat (encode_slot <$> l) ++ post))
    by (rewrite Eb, (len_app (pre ++ _)), (len_app cs), Lp; lia).
  do 2 rewrite bool_decide_eq_false_2 by lia.
  rewrite (idx_at b (pre ++ sl_info s) (len (sl_apps s)) (cs ++ concat (encode_slot <$> l) ++ post)
             (len pre + 5)); [|rewrite Eb; by rewrite <-!app_assoc|rewrite len_app; lia].
  cbn [mbind go_bind]. replace (len pre + 5 + 1) with (len (pre ++ sl_info s ++ [len (sl_apps s)])) by lia.
  rewrite Eb. replace (Z.to_nat (len (sl_apps s))) with (length (sl_apps s)) by (unfold len; lia).
  unfold cs at 1. rewrite aid_apps_encoded by done. cbn [mbind go_bind].
  replace (len (pre ++ sl_info s ++ [len (sl_apps s)]) + len (concat (encode_app <$> sl_apps s)))
    with (len (pre ++ encode_slot s)) by (rewrite Lp, len_app, Ls; unfold cs; lia).
  replace ((pre ++ sl_info s ++ [len (sl_apps s)]) ++ cs ++ concat (encode_slot <$> l) ++ post)
    with ((pre ++ encode_slot s) ++ concat (encode_slot <$> l) ++ post)
    by (unfold encode_slot at 1; by rewrite <-!app_assoc).
  rewrite IH by done. rewrite <-app_assoc. unfold all_apps. do 2 f_equal.
  rewrite len_app, (len_app (encode_slot s)). f_equal. lia.
Qed.

(** A response frame: a QMUX and SDU header of 13 bytes, then TLVs. *)
Definition response (hdr : bytes) (l : list (Z * bytes)) : bytes := hdr ++ encode_tlvs l.

Lemma response_tlvs {E} hdr l :
  len hdr = 13 → slice_from (E:=E) (response hdr l) 13 = Ok (encode_tlvs l).
Proof.
  intros Hh. unfold response. pose proof (len_nonneg (encode_tlvs l)).
  rewrite slice_from_drop by (rewrite len_app; lia). f_equal.
  apply drop_app_length'. unfold len in Hh. lia.
Qed.

Lemma response_long hdr l : len hdr = 13 → ¬ len (response hdr l) < 13.
Proof. intros. unfold response. rewrite len_app. pose proof (len_nonneg (encode_tlvs l)). lia. Qed.

(** The card status parser finds every application.  On a frame whose Card
    Status TLV is a well-formed card status, after TLVs of other types,
    [parseAllAIDs] returns the type and the complete AID of every application of
    every slot, in order. *)
Theorem parseAllAIDs_complete hdr before card slots after :
  len hdr = 13 → Forall tlv_ok (before ++ [(0x10, encode_card card slots)] ++ after) →
  Forall (λ x, x.1 ≠ 0x10) before → len card = 8 → len slots < 256 → Forall card_slot_ok slots →
  parseAllAIDs (response hdr (before ++ [(0x10, encode_card card slots)] ++ after)) =
  Ok (all_apps slots).
Proof.
  intros Hh Hok Hb Hc Hn Hs. unfold parseAllAIDs.
  rewrite bool_decide_eq_false_2 by by apply response_long.
  rewrite response_tlvs by done. cbn [mbind go_bind]. rewrite walk_all_tlvs by done.
  clear Hok. induction Hb as [|[t v] before Ht _ IH]; cbn [app fold_tlvs].
  - rewrite bool_decide_eq_true_2 by done.
    unfold card_status_aids, encode_card.
    pose proof (len_nonneg slots). pose proof (len_nonneg (concat (encode_slot <$> slots))).
    rewrite !bool_decide_eq_false_2
      by (rewrite !len_app, Hc; change (len [_]) with 1; lia).
    rewrite (idx_at _ card (len slots) (concat (encode_slot <$> slots)) 8) by done.
    cbn [mbind go_bind]. replace (Z.to_nat (len slots)) with (length slots) by (unfold len; lia).
    replace 9 with (len (card ++ [len slots])) by (rewrite len_app, Hc; done).
    replace (card ++ [len slots] ++ concat (encode_slot <$> slots))
      with ((card ++ [len slots]) ++ concat (encode_slot <$> slots) ++ [])
      by (rewrite app_nil_r; by rewrite <-app_assoc).
    rewrite aid_slots_encoded by done. done.
  - cbn in Ht. rewrite bool_decide_eq_false_2 by done. cbn [mbind go_bind]. exact IH.
Qed.

Definition sample_card : list CardSlot :=
  [mkCardSlot [1; 0; 3; 10; 0]
     [mkCardApp (mkUICCAppInfo 2 [0xA0; 0; 0; 0; 0x87; 0x10; 2]) [7; 0; 0; 0; 0] [0; 1; 3; 10; 1; 3; 10];
      mkCardApp (mkUICCAppInfo 5 [0xA0; 0; 0; 0; 0x87; 0x10; 4]) [7; 0; 0; 0; 0] [0; 1; 3; 10; 1; 3; 10]]].

Lemma parseAllAIDs_complete_witness :
  parseAllAIDs (response (make_bytes 13)
    ([(0x02, [0; 0; 0; 0])] ++ [(0x10, encode_card (make_bytes 8) sample_card)] ++ [])) =
  Ok [mkUICCAppInfo 2 [0xA0; 0; 0; 0; 0x87; 0x10; 2]; mkUICCAppInfo 5 [0xA0; 0; 0; 0; 0x87; 0x10; 4]].
Proof.
  apply (parseAllAIDs_complete (make_bytes 13) [(0x02, [0; 0; 0; 0])] (make_bytes 8) sample_card []);
    try reflexivity;
    repeat constructor; try (vm_compute; discriminate); vm_compute; reflexivity.
Defined.

Lemma perm_3_inv {A} (x y z : A) l :
  l ≡ₚ [x; y; z] →
  l ∈ [[x; y; z]; [x; z; y]; [y; x; z]; [z; x; y]; [y; z; x]; [z; y; x]].
Proof.
  intros Hp. destruct (Permutation_vs_cons_inv Hp) as (l1 & l2 & ->).
  assert (H2 := Permutation_app_inv l1 l2 [] [y; z] x Hp).
  symmetry in H2. apply list_elem_of_In.
  destruct (Permutation_length_2_inv H2) as [E|E];
    (destruct l1 as [|a [|b [|c l1]]]; cbn in E; simplify_eq/=; try tauto).
Qed.

(** The effect of a TLV of a successful read response. *)
Definition read_effect (data : bytes) (sw1 sw2 : Z) (s : ReadState) (x : Z * bytes) : ReadState :=
  if bool_decide (x.1 = 0x10)
  then mkReadState true (rd_failed s) sw1 sw2 (rd_bytes s)
  else if bool_decide (x.1 = 0x11)
  then mkReadState (rd_have s) (rd_failed s) (rd_sw1 s) (rd_sw2 s) (Some data) else s.

Definition read_tlvs (err : Z) (data : bytes) (sw1 sw2 : Z) : list (Z * bytes) :=
  [(0x02, le_bytes 2 0 ++ le_bytes 2 err); (0x10, [sw1; sw2]); (0x11, le_bytes 2 (len data) ++ data)].

Lemma read_body_effect err data sw1 sw2 t v s :
  len data < 2 ^ 16 → (t ∈ [0x02; 0x10; 0x11] → (t, v) ∈ read_tlvs err data sw1 sw2) →
  read_body t v s = Ok (inl (read_effect data sw1 sw2 s (t, v))).
Proof.
  intros Hd Hin. unfold read_body, read_effect. cbn [fst].
  case_bool_decide as H2.
  { subst t. specialize (Hin ltac:(by apply list_elem_of_In; left)).
    apply list_elem_of_In in Hin. destruct Hin as [E|[E|[E|[]]]]; try discriminate E.
    by injection E as <-. }
  case_bool_decide as H10.
  { subst t. specialize (Hin ltac:(apply list_elem_of_In; cbn; tauto)).
    apply list_elem_of_In in Hin. destruct Hin as [E|[E|[E|[]]]]; try discriminate E.
    by injection E as <-. }
  case_bool_decide as H11; [|done].
  subst t. specialize (Hin ltac:(apply list_elem_of_In; cbn; tauto)).
  apply list_elem_of_In in Hin. destruct Hin as [E|[E|[E|[]]]]; try discriminate E.
  set (lb := le_bytes 2 (len data)) in E. assert (v = lb ++ data) as -> by congruence.
  clear E. pose proof (len_nonneg data).
  assert (Ll : len lb = 2) by (unfold lb; by rewrite len_le_bytes).
  rewrite bool_decide_eq_true_2 by (rewrite len_app; lia).
  rewrite (slice_at _ [] lb data) by (done || rewrite ?len_nil; lia). cbn [mbind go_bind].
  assert (El : le_u16 (E:=error) lb = Ok (len data)).
  { rewrite <-(app_nil_r lb). apply le_u16_bytes. lia. }
  rewrite El. cbn [mbind go_bind]. rewrite bool_decide_eq_true_2 by (rewrite len_app; lia).
  rewrite (slice_at _ lb data []); [done|by rewrite app_nil_r|lia|lia].
Qed.

Lemma read_fold l err data sw1 sw2 fin s :
  len data < 2 ^ 16 → (∀ x, x ∈ l → x.1 ∈ [0x02; 0x10; 0x11] → x ∈ read_tlvs err data sw1 sw2) →
  fold_tlvs read_body fin l s =
  fin (foldl (read_effect data sw1 sw2) s (filter (λ x, x.1 ∈ [0x02; 0x10; 0x11]) l)).
Proof.
  intros Hd. revert s. induction l as [|[t v] l IH]; intros s Hin; [done|].
  cbn [fold_tlvs]. rewrite (read_body_effect err data sw1 sw2); [|done|].
  2: { intros Ht. apply (Hin (t, v)); [left|done]. }
  cbn [mbind go_bind]. rewrite IH by (intros; apply Hin; [by right|done]).
  rewrite filter_cons. case_decide as Ht; [done|].
  unfold read_effect at 2. cbn [fst]. cbn [fst] in Ht.
  by rewrite !bool_decide_eq_false_2 by (intros ->; apply Ht; apply list_elem_of_In; cbn; tauto).
Qed.

(** A read response yields the file content and the card's status word.  The
    result, card-result and read-result TLVs of a successful response may come
    in any order and among TLVs of other types. *)
Theorem parseQMIReadResult_complete hdr l err data sw1 sw2 :
  len hdr = 13 → Forall tlv_ok l →
  filter (λ x, x.1 ∈ [0x02; 0x10; 0x11]) l ≡ₚ read_tlvs err data sw1 sw2 →
  parseQMIReadResult (response hdr l) = Ok (data, sw1, sw2).
Proof.
  intros Hh Hok Hp. unfold parseQMIReadResult.
  rewrite bool_decide_eq_false_2 by by apply response_long.
  rewrite response_tlvs by done. cbn [mbind go_bind]. rewrite walk_all_tlvs by done.
  assert (Hin : ∀ x, x ∈ l → x.1 ∈ [0x02; 0x10; 0x11] → x ∈ read_tlvs err data sw1 sw2).
  { intros x Hx Ht. rewrite <-Hp. by apply list_elem_of_filter. }
  assert (Hd : len data < 2 ^ 16).
  { assert (Hx : (0x11, le_bytes 2 (len data) ++ data) ∈ filter (λ x, x.1 ∈ [0x02; 0x10; 0x11]) l).
    { rewrite Hp. apply list_elem_of_In. cbn. tauto. }
    apply list_elem_of_filter in Hx as [_ Hx]. rewrite Forall_forall in Hok.
    destruct (Hok _ Hx) as (_ & _ & Hl). cbn [snd] in Hl. rewrite len_app in Hl.
    rewrite len_le_bytes in Hl. lia. }
  rewrite (read_fold l err data sw1 sw2) by done.
  apply perm_3_inv in Hp. revert Hp. generalize (filter (λ x : Z * bytes, x.1 ∈ [0x02; 0x10; 0x11]) l).
  intros k Hk. apply list_elem_of_In in Hk. cbn [In] in Hk.
  by destruct_or! Hk; subst k.
Qed.

Lemma parseQMIReadResult_complete_witness :
  parseQMIReadResult (response (make_bytes 13)
    [(0x11, [3; 0; 98; 99; 100]); (0x30, [7]); (0x02, [0; 0; 0; 0]); (0x10, [0x90; 0])]) =
  Ok ([98; 99; 100], 0x90, 0).
Proof.
  apply (parseQMIReadResult_complete (make_bytes 13) _ 0 [98; 99; 100] 0x90 0); [reflexivity| |].
  - repeat constructor; try (vm_compute; discriminate); vm_compute; reflexivity.
  - change (read_tlvs 0 [98; 99; 100] 0x90 0) with
      [(0x02, [0; 0; 0; 0]); (0x10, [0x90; 0]); (0x11, [3; 0; 98; 99; 100])].
    change (filter _ _) with [(0x11, [3; 0; 98; 99; 100]); (0x02, [0; 0; 0; 0]); (0x10, [0x90; 0])].
    apply (Permutation_cons_app [_; _] []). reflexivity.
Defined.

(** No QMI frame can crash the card code, and every walk over its TLVs ends. *)
Theorem qmi_parsers_never_panic frame :
  bytes_ok frame →
  safe (extractClientID frame) ∧ safe (parseAllAIDs frame) ∧ safe (parseQMIReadResult frame) ∧
  safe (parseQMIResultOnly frame) ∧ safe (ParseActiveSlot frame).
Proof.
  intros Hf. split_and!; [by apply safe_extractClientID|by apply safe_parseAllAIDs
    |by apply safe_parseQMIReadResult|by apply safe_parseQMIResultOnly|by apply safe_ParseActiveSlot].
Qed.

Lemma qmi_parsers_never_panic_witness : safe (ParseActiveSlot (replicate 40 255)).
Proof.
  apply (qmi_parsers_never_panic (replicate 40 255)).
  apply (bool_decide_eq_true_1 _). vm_compute. reflexivity.
Defined.

(** A UIM client never leaks.  Whatever the modem answers and whatever the
    parser does with it, an operation that was allocated a client identifier
    makes exactly three requests, and the last releases that identifier; one
    that was not makes no further request. *)
Theorem uim_client_released {A} send (request : Z → bytes) (parse : bytes → go error A) log :
  let '(_, log') := with_uim_client send request parse log in
  match fst (allocUIMClient send log) with
  | Ok id => log' = log ++ [alloc_request; request id; release_request id]
  | _ => log' = log ++ [alloc_request]
  end.
Proof.
  unfold with_uim_client, allocUIMClient, releaseUIMClient. cbn [fst].
  destruct (send log alloc_request ≫= extractClientID) as [id|e|]; [|done..].
  by rewrite <-!app_assoc.
Qed.

(** ** Requests *)

Definition read_request_tlvs (fileID : Z) (aid path : bytes) (offset length : Z) : list (Z * bytes) :=
  [(0x01, [if bool_decide (len aid > 0) then 0x04 else 0x00; len aid] ++ aid);
   (0x02, le_bytes 2 fileID ++ [len path] ++ path);
   (0x03, le_bytes 2 offset ++ le_bytes 2 length)].

Lemma u16_bytes v : 0 ≤ v < 2 ^ 16 → [u8 v; u8 (Z.shiftr v 8)] = le_bytes 2 v.
Proof. intros. cbn [le_bytes]. unfold u8. by rewrite Z.shiftr_div_pow2 by lia. Qed.

Lemma read_request_encoded fileID aid path offset length :
  len aid < 256 → len path < 256 → 0 ≤ fileID < 2 ^ 16 → 0 ≤ offset < 2 ^ 16 →
  0 ≤ length < 2 ^ 16 →
  qmiSessionTLV aid ++ qmiFileTLV fileID path ++ qmiOffsetLenTLV offset length =
  encode_tlvs (read_request_tlvs fileID aid path offset length).
Proof.
  intros Ha Hp Hf Ho Hl. pose proof (len_nonneg aid). pose proof (len_nonneg path).
  unfold encode_tlvs, read_request_tlvs. cbn [fmap list_fmap concat fst snd].
  rewrite app_nil_r. f_equal; [|f_equal].
  - unfold qmiSessionTLV. by rewrite (u8_small (len aid)) by lia.
  - unfold qmiFileTLV. rewrite (u8_small (len path)) by lia.
    rewrite <-u16_bytes by done. done.
  - unfold qmiOffsetLenTLV, tlv. rewrite <-!u16_bytes by done. done.
Qed.

(** A read request is well formed.  The frame of a transparent or record read
    announces its own length in the QMUX header and the length of its TLVs in
    the SDU header, and a walk over the bytes after the 13-byte header sees
    exactly the session TLV (session type 4 with the complete AID, or 0 for the
    master file), the file TLV and the offset and length TLV. *)
Theorem qmi_read_request clientID txID fileID aid path offset length :
  bytes_ok aid → bytes_ok path → len aid < 256 → len path < 256 → 0 ≤ fileID < 2 ^ 16 →
  0 ≤ offset < 2 ^ 16 → 0 ≤ length < 2 ^ 16 →
  let frame := buildQMIReadTransparent clientID txID fileID aid path offset length in
  fld frame 1 2 = le_bytes 2 (len frame - 1) ∧
  fld frame 11 2 = le_bytes 2 (len frame - 13) ∧
  ∀ S R (body : Z → bytes → S → go error (S + R)) fin s,
    walk_all body fin (drop 13 frame) s =
    fold_tlvs body fin (read_request_tlvs fileID aid path offset length) s.
Proof.
  intros Ba Bp Ha Hp Hf Ho Hl. cbv zeta. unfold buildQMIReadTransparent, buildQMIMessage.
  rewrite read_request_encoded by done. rewrite bool_decide_eq_false_2 by done.
  set (l := read_request_tlvs _ _ _ _ _).
  assert (Hok : Forall tlv_ok l).
  { pose proof (len_nonneg aid). pose proof (len_nonneg path).
    unfold l, read_request_tlvs. repeat constructor; cbn [fst snd]; try done.
    all: try (rewrite ?len_app, ?len_cons, ?len_le_bytes; change (len (@nil Z)) with 0; lia).
    all: first [case_bool_decide; lia | apply Z.mod_pos_bound; lia]. }
  assert (Hlen : len (encode_tlvs l) < 2 ^ 15).
  { unfold l, encode_tlvs, read_request_tlvs. cbn [fmap list_fmap concat fst snd].
    rewrite !len_app, !len_tlv, !len_app, !len_le_bytes.
    rewrite !len_cons, !len_nil. lia. }
  pose proof (len_nonneg (encode_tlvs l)).
  split_and!.
  - transitivity (le_bytes 2 (u16 (5 + (7 + len (encode_tlvs l))))); [reflexivity|].
    rewrite u16_small by lia. f_equal. rewrite !len_app, !len_le_bytes, !len_cons, !len_nil. lia.
  - transitivity (le_bytes 2 (u16 (len (encode_tlvs l)))); [reflexivity|].
    rewrite u16_small by lia. f_equal. rewrite !len_app, !len_le_bytes, !len_cons, !len_nil. lia.
  - intros S R body fin s. rewrite <-walk_all_tlvs by done. reflexivity.
Qed.

Lemma qmi_read_request_witness :
  let frame := buildQMIReadTransparent 1 2 0x6F46 [0xA0; 0; 0; 0; 0x87] [0x7F; 0xFF] 0 17 in
  fld frame 1 2 = le_bytes 2 (len frame - 1) ∧ fld frame 11 2 = le_bytes 2 (len frame - 13).
Proof.
  destruct (qmi_read_request 1 2 0x6F46 [0xA0; 0; 0; 0; 0x87] [0x7F; 0xFF] 0 17) as (H1 & H2 & _);
    try (apply (bool_decide_eq_true_1 _); vm_compute; reflexivity); try done.
Defined.
