(* ===== verification/MbimDevice.v ===== *)
(** * The MBIM device: transactions, reassembly, lifecycle (pkg/mbim)

    device.go, device_inbound.go, device_fragments.go, device_protocol_errors.go
    and device_lifecycle.go.  A [Device] is shared by the goroutines of its
    callers, its read loop and the fragment timers.  Each critical section of
    the code (under [mu] or [writeMu]) is an [action]; [exec] is its effect and
    the actions that the goroutine performs next; [step] interleaves the
    goroutines at the granularity of critical sections. *)

From S2P Require Import Prelude MbimWire MbimRecords.

#[local] Open Scope Z_scope.

(** ** State *)

Record transactionExpectation := mkExpectation {
  x_messageType : Z; x_service : bytes; x_cid : Z; x_command : bool;
}.

(** A result channel of capacity one is named by a number. *)
Record pendingTransaction := mkPending { p_expectation : transactionExpectation; p_result : nat }.

Definition commandResult : Type := CommandDone + error.

(** The pointer identity of an assembly is a number too. *)
Record fragmentAssembly := mkAssembly {
  fa_id : nat; fa_collector : collector; fa_indication : bool;
}.

Record Device := mkDevice {
  nextTx : Z; pending : gmap Z pendingTransaction; maxCtrl : Z;
  opened : bool; opening : bool; closing : bool; closeSent : bool; closed : bool;
  readStarted : bool; readErr : option error; collectors : gmap Z fragmentAssembly;
  nextChan : nat; nextAssembly : nat;
}.

Definition newDevice : Device :=
  mkDevice 0 ∅ 0 false false false false false false None ∅ 0 0.

Definition set_pending (p : gmap Z pendingTransaction) (d : Device) : Device :=
  mkDevice (nextTx d) p (maxCtrl d) (opened d) (opening d) (closing d) (closeSent d) (closed d)
    (readStarted d) (readErr d) (collectors d) (nextChan d) (nextAssembly d).
Definition set_collectors (c : gmap Z fragmentAssembly) (d : Device) : Device :=
  mkDevice (nextTx d) (pending d) (maxCtrl d) (opened d) (opening d) (closing d) (closeSent d)
    (closed d) (readStarted d) (readErr d) c (nextChan d) (nextAssembly d).
Definition set_flags (o og cg : bool) (d : Device) : Device :=
  mkDevice (nextTx d) (pending d) (maxCtrl d) o og cg (closeSent d) (closed d)
    (readStarted d) (readErr d) (collectors d) (nextChan d) (nextAssembly d).

(** ** Transactions *)

(** [allocateTransactionIDLocked]: the loop runs at most [len(pending) + 1]
    times.  The identifier, and [nextTx] after the loop. *)
Fixpoint allocate (attempts : nat) (next : Z) (p : gmap Z pendingTransaction) : option Z * Z :=
  match attempts with
  | O => (None, next)
  | S attempts =>
      let next := u32 (next + 1) in
      let next := if bool_decide (next = 0) then 1 else next in
      match p !! next with
      | None => (Some next, next)
      | Some _ => allocate attempts next p
      end
  end.

Definition allocateTransactionIDLocked (d : Device) : option Z * Z :=
  allocate (S (size (pending d))) (nextTx d) (pending d).

(** [beginTransaction]: the transaction, its channel and the device after it. *)
Definition beginTransaction (x : transactionExpectation) (requireOpened : bool) (d : Device)
    : option (Z * nat) * Device :=
  if closed d then (None, d)
  else if bool_decide (readErr d ≠ None) then (None, d)
  else if requireOpened && (negb (opened d) || closing d) then (None, d)
  else if negb requireOpened && negb (opening d) && negb (closing d) then (None, d)
  else
    match allocateTransactionIDLocked d with
    | (None, next) =>
        (None, mkDevice next (pending d) (maxCtrl d) (opened d) (opening d) (closing d)
           (closeSent d) (closed d) (readStarted d) (readErr d) (collectors d) (nextChan d)
           (nextAssembly d))
    | (Some tx, next) =>
        let ch := nextChan d in
        (Some (tx, ch),
         mkDevice next (<[tx := mkPending x ch]> (pending d)) (maxCtrl d) (opened d) (opening d)
           (closing d) (closeSent d) (closed d) (readStarted d) (readErr d) (collectors d)
           (S ch) (nextAssembly d))
    end.

(** [removePending], and [takePending], which keeps the collector of a
    transaction that is not pending. *)
Definition removePending (tx : Z) (d : Device) : bool * Device :=
  (bool_decide (is_Some (pending d !! tx)),
   set_collectors (delete tx (collectors d)) (set_pending (delete tx (pending d)) d)).

Definition takePending (tx : Z) (d : Device) : option pendingTransaction * Device :=
  match pending d !! tx with
  | Some p =>
      (Some p, set_collectors (delete tx (collectors d)) (set_pending (delete tx (pending d)) d))
  | None => (None, d)
  end.

Definition commandResponseMismatch (x : transactionExpectation) (response : CommandDone) : bool :=
  x_command x &&
  (negb (bool_decide (x_service x = cd_Service response)) || negb (bool_decide (x_cid x = cd_CID response))).

(** ** Reassembly *)

Definition fragmentNumber (message : bytes) : option Z :=
  if bool_decide (len message < headerLen + fragHdrLen) then None
  else match get_u32 (E:=error) message (headerLen + 4) with Ok v => Some v | _ => None end.

(** [withProtocolTransaction]: the code that is kept of an error. *)
Definition withProtocolTransaction (e : error) (tx : Z) : Z * error :=
  match e with
  | ProtocolError code _ => (code, ProtocolError code tx)
  | _ => (ProtocolErrorUnknown, ProtocolError ProtocolErrorUnknown tx)
  end.

(** The outcome of [collectFragment]. *)
Inductive collected := Incomplete | Complete (response : CommandDone) | Rejected (e : error).

(** [collectFragment].  An error of [collector.add] cannot be a [Panic]
    ([safe_add]); such a message is treated as rejected. *)
Definition collectFragment (tx : Z) (message : bytes) (indication : bool) (d : Device)
    : collected * Device :=
  let duplicated := ProtocolError ProtocolErrorDuplicatedTID tx in
  let fresh := mkAssembly (nextAssembly d) newCollector indication in
  let '(assembly, reused, d) :=
    match collectors d !! tx with
    | Some a =>
        (a, negb (Bool.eqb (fa_indication a) indication) || bool_decide (fragmentNumber message = Some 0), d)
    | None =>
        (fresh, false,
         mkDevice (nextTx d) (pending d) (maxCtrl d) (opened d) (opening d) (closing d)
           (closeSent d) (closed d) (readStarted d) (readErr d) (<[tx := fresh]> (collectors d))
           (nextChan d) (S (nextAssembly d)))
    end in
  if reused then (Rejected duplicated, d)
  else
    match add (fa_collector assembly) message with
    | Ok (true, c) =>
        let d := set_collectors (delete tx (collectors d)) d in
        match commandDone c with
        | Ok response => (Complete response, d)
        | Err e => (Rejected (snd (withProtocolTransaction e tx)), d)
        | Panic => (Rejected PlainError, d)
        end
    | Ok (false, c) =>
        (Incomplete,
         set_collectors
           (<[tx := mkAssembly (fa_id assembly) c (fa_indication assembly)]> (collectors d)) d)
    | Err e =>
        (Rejected (snd (withProtocolTransaction e tx)),
         set_collectors (delete tx (collectors d)) d)
    | Panic => (Rejected PlainError, set_collectors (delete tx (collectors d)) d)
    end.

(** [commandDoneShapeIndication] *)
Definition commandDoneShapeIndication (message : bytes) : go error bytes :=
  if bool_decide (len message < headerLen + fragHdrLen) then Ok message
  else
    current ← get_u32 message (headerLen + 4);
    if bool_decide (current ≠ 0) then Ok message
    else if bool_decide (len message < headerLen + fragHdrLen + uuidLen + 4 + 4) then Ok message
    else
      let output := make_bytes (len message + 4) in
      let cut := headerLen + fragHdrLen + uuidLen + 4 in
      head ← slice message 0 cut;
      tail ← slice_from message cut;
      Ok (blit (cut + 4) tail (put_u32 4 (len output) (blit 0 head output))).

(** ** The timeout that is told to the proxy *)

(** A [time.Duration] counts nanoseconds in an int64. *)
Definition Second : Z := 1000000000.
Definition defaultProxyOpenTimeout : Z := 45 * Second.

(** [remainingTimeoutSeconds]; the time until the deadline, when there is one. *)
Definition remainingTimeoutSeconds (untilDeadline : option Z) (fallback : Z) : Z :=
  let remaining := default fallback untilDeadline in
  if bool_decide (remaining <= 0) then 1
  else
    let seconds := Z.quot (i64 (i64 (remaining + Second) - 1)) Second in
    if bool_decide (seconds > (2 ^ 32 - 1) * Second) then 2 ^ 32 - 1
    else u32 (Z.quot seconds Second).

(** ** Goroutines *)

(** What a caller sends. *)
Inductive request :=
  | RCommand (service : bytes) (cid ct : Z) (info : bytes)
  | ROpen (maxControlTransfer : Z)
  | RClose.

Definition expectation (r : request) : transactionExpectation :=
  match r with
  | RCommand service cid _ _ => mkExpectation MessageTypeCommandDone service cid true
  | ROpen _ => mkExpectation MessageTypeOpenDone (make_bytes 16) 0 false
  | RClose => mkExpectation MessageTypeCloseDone (make_bytes 16) 0 false
  end.

Definition messages (r : request) (tx maxCtrl : Z) : list bytes :=
  match r with
  | RCommand service cid ct info =>
      match splitCommand tx service cid ct info maxCtrl with Ok l => l | _ => [] end
  | ROpen m => [encodeOpen tx m]
  | RClose => [encodeClose tx]
  end.

(** What the caller does with the outcome: a [Command], the proxy configuration
    or the OPEN attempt inside [Open], the handshake inside [CloseContext]. *)
Inductive purpose := WCommand | WProxy (maxControlTransfer : Z) | WOpen (maxControlTransfer : Z) | WClose.

Inductive action :=
  (* callers *)
  | ABegin (k : purpose) (r : request) (requireOpened : bool)
  | ALockWrite (k : purpose) (r : request) (tx : Z) (ch : nat) (msgs : list bytes)
  | AWrite (k : purpose) (r : request) (tx : Z) (ch : nat) (msgs : list bytes)
  | AWait (k : purpose) (tx : Z) (ch : nat)
  | ARemove (tx : Z)
  | ACancel (tx : Z)
  | AOpen (maxControlTransfer : Z) (proxyInfo : option bytes)
  | AFinishOpen (succeeded : bool)
  | AClose
  | ACancelCommands
  | ACloseTransport
  | ATransportClose
  | AUnlockClose
  | AFail (e : error)
  (* the read loop and the timers *)
  | AInbound (message : bytes)
  | ACollect (tx : Z) (message : bytes) (indication : bool)
  | ADeliver (tx : Z) (actual : Z) (response : CommandDone)
  | ADeliverError (tx : Z) (e : error)
  | AReadFailed (e : error)
  | AExpire (tx : Z) (id : nat)
  (* shared *)
  | AHostError (tx code : Z)
  | AReport (e : error)
  | AResult (ch : nat) (r : commandResult).

(** A message written to the transport, with what it is.  The world also keeps
    the history of the expectations that were registered ([w_began]) and of the
    results that were sent ([w_results]). *)
Inductive sent := SentRequest (r : request) (message : bytes) | SentHostError (message : bytes).

Record Indication := mkIndication { in_Service : bytes; in_CID : Z; in_InfoBuffer : bytes }.

Record world := mkWorld {
  w_device : Device;
  w_writeMu : bool; w_closeMu : bool;
  w_began : list (nat * transactionExpectation);
  w_sent : list sent;
  w_results : list (nat * commandResult);
  w_reports : list error;
  w_indications : list Indication;
  w_reader : list action;
  w_threads : list (list action);
}.

Definition initial : world := mkWorld newDevice false false [] [] [] [] [] [] [].

(** What the environment decides for one action: it goes on (a write succeeds,
    a result is received), a write fails, the context is done, the timer of an
    OPEN attempt fires. *)
Inductive choice := Proceed | WriteFails | CtxDone | AttemptTimeout.

(** What a caller does after an error that ends its wait. *)
Definition failed (k : purpose) : list action :=
  match k with
  | WCommand => []
  | WProxy _ | WOpen _ => [AFinishOpen false]
  | WClose => [ACloseTransport]
  end.

(** What a caller does with the result it received. *)
Definition received (k : purpose) (r : commandResult) : list action :=
  match k, r with
  | WCommand, _ => []
  | WProxy m, inl _ => [ABegin (WOpen m) (ROpen m) false]
  | WProxy _, inr _ => [AFinishOpen false]
  | WOpen _, inl resp => [AFinishOpen (bool_decide (cd_Status resp = 0))]
  | WOpen _, inr _ => [AFinishOpen false]
  | WClose, _ => [ACloseTransport]
  end.

(** What a caller does when its context is done: only a command sends CANCEL. *)
Definition cancelled (k : purpose) (tx : Z) : list action :=
  match k with
  | WCommand => [ACancel tx]
  | WProxy _ => [ACancel tx; AFinishOpen false]
  | WOpen _ => [ARemove tx; AFinishOpen false]
  | WClose => [ARemove tx; ACloseTransport]
  end.

Definition indicationQueue : nat := 16.

Definition minimumMaxControlTransfer : Z := 64.

Definition set_device (d : Device) (w : world) : world :=
  mkWorld d (w_writeMu w) (w_closeMu w) (w_began w) (w_sent w) (w_results w) (w_reports w) (w_indications w)
    (w_reader w) (w_threads w).
Definition set_locks (wm cm : bool) (w : world) : world :=
  mkWorld (w_device w) wm cm (w_began w) (w_sent w) (w_results w) (w_reports w) (w_indications w)
    (w_reader w) (w_threads w).
Definition log_began (ch : nat) (x : transactionExpectation) (w : world) : world :=
  mkWorld (w_device w) (w_writeMu w) (w_closeMu w) (w_began w ++ [(ch, x)]) (w_sent w) (w_results w)
    (w_reports w) (w_indications w) (w_reader w) (w_threads w).
Definition log_sent (s : sent) (w : world) : world :=
  mkWorld (w_device w) (w_writeMu w) (w_closeMu w) (w_began w) (w_sent w ++ [s]) (w_results w) (w_reports w)
    (w_indications w) (w_reader w) (w_threads w).
Definition log_result (ch : nat) (r : commandResult) (w : world) : world :=
  mkWorld (w_device w) (w_writeMu w) (w_closeMu w) (w_began w) (w_sent w) (w_results w ++ [(ch, r)])
    (w_reports w) (w_indications w) (w_reader w) (w_threads w).
Definition log_report (e : error) (w : world) : world :=
  mkWorld (w_device w) (w_writeMu w) (w_closeMu w) (w_began w) (w_sent w) (w_results w)
    (w_reports w ++ [e]) (w_indications w) (w_reader w) (w_threads w).
Definition set_indications (l : list Indication) (w : world) : world :=
  mkWorld (w_device w) (w_writeMu w) (w_closeMu w) (w_began w) (w_sent w) (w_results w) (w_reports w) l
    (w_reader w) (w_threads w).

Definition pending_list (d : Device) : list (Z * pendingTransaction) := map_to_list (pending d).

Definition result_of (w : world) (ch : nat) : option commandResult :=
  snd <$> find_first (λ x, bool_decide (fst x = ch)) (w_results w).

(** [rejectInbound]: HOST_ERROR, report, and the error to the caller. *)
Definition rejectInbound (tx code : Z) : list action :=
  [AHostError tx code; AReport (ProtocolError code tx); ADeliverError tx (ProtocolError code tx)].

(** [handleInboundMessage] and the handlers it calls, up to their first
    critical section. *)
Definition handleInboundMessage (message : bytes) : list action :=
  match decodeHeader message with
  | Ok (header, Some e) =>
      match e with
      | ProtocolError code _ =>
          if bool_decide (len message >= headerLen) then rejectInbound (h_TransactionID header) code
          else [AReport e]
      | _ => [AReport e]
      end
  | Ok (header, None) =>
      let tx := h_TransactionID header in
      if bool_decide (h_Type header = MessageTypeOpenDone ∨ h_Type header = MessageTypeCloseDone) then
        if bool_decide (len message ≠ headerLen + 4) then rejectInbound tx ProtocolErrorLengthMismatch
        else match get_u32 (E:=error) message headerLen with
             | Ok status => [ADeliver tx (h_Type header) (mkCommandDone (make_bytes 16) 0 status [])]
             | _ => []
             end
      else if bool_decide (h_Type header = MessageTypeCommandDone) then [ACollect tx message false]
      else if bool_decide (h_Type header = MessageTypeIndicateStatus) then
        if bool_decide (tx ≠ 0) then rejectInbound tx ProtocolErrorUnknown
        else match commandDoneShapeIndication message with
             | Ok shaped => [ACollect tx shaped true]
             | _ => []
             end
      else if bool_decide (h_Type header = MessageTypeFunctionError) then
        match decodeFunctionError header message with
        | Ok e => [AReport e; ADeliverError tx e]
        | _ => []
        end
      else rejectInbound tx ProtocolErrorUnknown
  | _ => []
  end.

(** [rejectFragment] *)
Definition rejectFragment (tx : Z) (e : error) : list action :=
  let '(code, e) := withProtocolTransaction e tx in
  [AHostError tx code; AReport e] ++
  (if bool_decide (code = ProtocolErrorDuplicatedTID) then [] else [ADeliverError tx e]).

(** [rejectResponse], after the transaction was taken. *)
Definition rejectResponse (tx : Z) (p : pendingTransaction) : list action :=
  let e := ProtocolError ProtocolErrorUnknown tx in
  [AHostError tx ProtocolErrorUnknown; AReport e; AResult (p_result p) (inr e)].

(** The continuation of a completed collection. *)
Definition collected_actions (tx : Z) (indication : bool) (c : collected) (queue : nat)
    : list action * list Indication :=
  match c with
  | Incomplete => ([], [])
  | Rejected e => (rejectFragment tx e, [])
  | Complete resp =>
      if indication then
        if bool_decide (queue < indicationQueue)%nat
        then ([], [mkIndication (cd_Service resp) (cd_CID resp) (cd_InfoBuffer resp)])
        else ([AReport PlainError], [])
      else ([ADeliver tx MessageTypeCommandDone resp], [])
  end.

(** [deliver], after [takePending]. *)
Definition deliver_actions (tx actual : Z) (response : CommandDone) (p : pendingTransaction)
    : list action :=
  if bool_decide (x_messageType (p_expectation p) ≠ actual) then rejectResponse tx p
  else if commandResponseMismatch (p_expectation p) response then rejectResponse tx p
  else [AResult (p_result p) (inl response)].

(** [cancelCommandsBeforeClose]: the commands among the pending transactions. *)
Definition is_command (x : Z * pendingTransaction) : Prop := x_command (p_expectation (snd x)) = true.
#[global] Instance is_command_dec x : Decision (is_command x).
Proof. unfold is_command. apply _. Defined.

Definition commands (d : Device) : list (Z * pendingTransaction) :=
  filter is_command (pending_list d).

Definition without_commands (d : Device) : Device :=
  set_collectors (filter (λ x, fst x ∉ fst <$> commands d) (collectors d))
    (set_pending (filter (λ x, ¬ is_command x) (pending d)) d).

Definition cancel_actions (x : Z * pendingTransaction) : list action :=
  [AHostError (fst x) ProtocolErrorCancel; AResult (p_result (snd x)) (inr PlainError)].

(** [beginOpen]; the read loop starts with the first one. *)
Definition beginOpen (maxControlTransfer : Z) (d : Device) : option Device :=
  if closed d then None
  else if bool_decide (readErr d ≠ None) then None
  else if opened d || opening d then None
  else Some (mkDevice (nextTx d) (pending d) maxControlTransfer (opened d) true (closing d)
         (closeSent d) (closed d) true (readErr d) (collectors d) (nextChan d) (nextAssembly d)).

Definition finishOpen (succeeded : bool) (d : Device) : Device :=
  set_flags (if closed d then opened d else succeeded) false (closing d) d.

(** Effect of one critical section; [None] when it has to wait. *)
Definition exec (c : choice) (a : action) (w : world) : option (world * list action) :=
  let d := w_device w in
  match a with
  | ABegin k r requireOpened =>
      match beginTransaction (expectation r) requireOpened d with
      | (None, d) => Some (set_device d w, failed k)
      | (Some (tx, ch), d) =>
          Some (set_device d (log_began ch (expectation r) w),
                [ALockWrite k r tx ch (messages r tx (maxCtrl d))])
      end
  | ALockWrite k r tx ch msgs =>
      if w_writeMu w then None
      else
        let d' := match r with
                  | RClose =>
                      mkDevice (nextTx d) (pending d) (maxCtrl d) (opened d) (opening d) (closing d)
                        true (closed d) (readStarted d) (readErr d) (collectors d) (nextChan d)
                        (nextAssembly d)
                  | _ => d
                  end in
        Some (set_device d' (set_locks true (w_closeMu w) w), [AWrite k r tx ch msgs])
  | AWrite k r tx ch msgs =>
      match msgs with
      | [] => Some (set_locks false (w_closeMu w) w, [AWait k tx ch])
      | m :: msgs =>
          match c with
          | WriteFails => Some (set_locks false (w_closeMu w) w, ARemove tx :: failed k)
          | _ =>
              let w := log_sent (SentRequest r m) w in
              if bool_decide (msgs ≠ []) && bool_decide (pending d !! tx = None)
              then Some (set_locks false (w_closeMu w) w, [AWait k tx ch])
              else Some (w, [AWrite k r tx ch msgs])
          end
      end
  | AWait k tx ch =>
      match c with
      | Proceed => (λ r, (w, received k r)) <$> result_of w ch
      | CtxDone => Some (w, cancelled k tx)
      | AttemptTimeout =>
          match k with
          | WOpen m => Some (w, [ARemove tx; ABegin (WOpen m) (ROpen m) false])
          | _ => None
          end
      | WriteFails => None
      end
  | ARemove tx => Some (set_device (snd (removePending tx d)) w, [])
  | ACancel tx =>
      let '(existed, d) := removePending tx d in
      Some (set_device d w, if existed then [AHostError tx ProtocolErrorCancel] else [])
  | AOpen m proxyInfo =>
      if bool_decide (m < minimumMaxControlTransfer) then Some (w, [])
      else
        match beginOpen m d with
        | None => Some (w, [])
        | Some d =>
            Some (set_device d w,
              match proxyInfo with
              | Some info =>
                  [ABegin (WProxy m)
                     (RCommand UUIDProxyControl CIDProxyControlConfiguration CommandTypeSet info) false]
              | None => [ABegin (WOpen m) (ROpen m) false]
              end)
        end
  | AFinishOpen succeeded => Some (set_device (finishOpen succeeded d) w, [])
  | AClose =>
      if w_closeMu w then None
      else
        let w := set_locks (w_writeMu w) true w in
        if closed d then Some (w, [AUnlockClose])
        else if opened d && bool_decide (readErr d = None) then
          Some (set_device (set_flags (opened d) (opening d) true d) w,
                [ACancelCommands; ABegin WClose RClose false])
        else Some (w, [ACloseTransport])
  | ACancelCommands =>
      Some (set_device (without_commands d) w, concat (cancel_actions <$> commands d))
  | ACloseTransport =>
      Some (set_device
              (mkDevice (nextTx d) (pending d) (maxCtrl d) false false false (closeSent d) true
                 (readStarted d) (readErr d) (collectors d) (nextChan d) (nextAssembly d)) w,
            [AFail PlainError; ATransportClose])
  | ATransportClose => if w_writeMu w then None else Some (w, [AUnlockClose])
  | AUnlockClose => Some (set_locks (w_writeMu w) false w, [])
  | AFail e =>
      Some (set_device (set_collectors ∅ (set_pending ∅ d)) w,
            (λ x, AResult (p_result (snd x)) (inr e)) <$> pending_list d)
  | AInbound message => Some (w, handleInboundMessage message)
  | ACollect tx message indication =>
      let '(r, d) := collectFragment tx message indication d in
      let '(acts, inds) := collected_actions tx indication r (length (w_indications w)) in
      Some (set_indications (w_indications w ++ inds) (set_device d w), acts)
  | ADeliver tx actual response =>
      let '(p, d) := takePending tx d in
      Some (set_device d w, match p with Some p => deliver_actions tx actual response p | None => [] end)
  | ADeliverError tx e =>
      let '(p, d) := takePending tx d in
      Some (set_device d w, match p with Some p => [AResult (p_result p) (inr e)] | None => [] end)
  | AReadFailed e =>
      if closed d then Some (w, [])
      else
        Some (set_device
                (mkDevice (nextTx d) (pending d) (maxCtrl d) (opened d) (opening d) (closing d)
                   (closeSent d) (closed d) (readStarted d) (Some e) (collectors d) (nextChan d)
                   (nextAssembly d)) w, [AReport e; AFail e])
  | AExpire tx id =>
      if bool_decide (fa_id <$> collectors d !! tx = Some id) then
        let p := pending d !! tx in
        let e := ProtocolError ProtocolErrorTimeoutFragment tx in
        Some (set_device (set_collectors (delete tx (collectors d)) (set_pending (delete tx (pending d)) d)) w,
              [AHostError tx ProtocolErrorTimeoutFragment; AReport e] ++
              match p with Some p => [AResult (p_result p) (inr e)] | None => [] end)
      else Some (w, [])
  | AHostError tx code =>
      if w_writeMu w then None
      else if closeSent d || closed d then Some (w, [])
      else match c with
           | WriteFails => Some (w, [])
           | _ => Some (log_sent (SentHostError (encodeProtocolError MessageTypeHostError tx code)) w, [])
           end
  | AReport e => Some (log_report e w, [])
  | AResult ch r => Some (log_result ch r w, [])
  end.

(** ** Interleavings *)

Definition set_reader (l : list action) (w : world) : world :=
  mkWorld (w_device w) (w_writeMu w) (w_closeMu w) (w_began w) (w_sent w) (w_results w) (w_reports w)
    (w_indications w) l (w_threads w).
Definition set_threads (l : list (list action)) (w : world) : world :=
  mkWorld (w_device w) (w_writeMu w) (w_closeMu w) (w_began w) (w_sent w) (w_results w) (w_reports w)
    (w_indications w) (w_reader w) l.

(** The calls a client can make, and the timers of the device. *)
Inductive spawned : list action → Prop :=
  | spawn_command service cid ct info : spawned [ABegin WCommand (RCommand service cid ct info) true]
  | spawn_open m proxyInfo : spawned [AOpen m proxyInfo]
  | spawn_close : spawned [AClose]
  | spawn_timer tx id : spawned [AExpire tx id].

Inductive step : world → world → Prop :=
  | step_spawn w t : spawned t → step w (set_threads (w_threads w ++ [t]) w)
  | step_thread w l1 a t l2 c w' more :
      w_threads w = l1 ++ (a :: t) :: l2 → exec c a w = Some (w', more) →
      step w (set_threads (l1 ++ (more ++ t) :: l2) w')
  | step_reader w a t c w' more :
      w_reader w = a :: t → exec c a w = Some (w', more) → step w (set_reader (more ++ t) w')
  | step_receive w message :
      w_reader w = [] → readStarted (w_device w) = true → step w (set_reader [AInbound message] w)
  | step_read_error w e :
      w_reader w = [] → readStarted (w_device w) = true → step w (set_reader [AReadFailed e] w)
  | step_indication w i l :
      w_indications w = i :: l → step w (set_indications l w).

Definition reachable (w : world) : Prop := rtc step initial w.
