(* ===== verification/MbimDeviceProofs.v ===== *)
(** * Invariants of the MBIM device

    An invariant is a predicate on the state and on the multiset of the actions
    that the goroutines still have to perform; [device_inv] reduces its
    preservation to the effect of [exec] on one action. *)

From S2P Require Import Prelude MbimWire MbimRecords MbimDevice.

#[local] Open Scope Z_scope.

(** All the actions that some goroutine still has to perform. *)
Definition todo (w : world) : list action := w_reader w ++ concat (w_threads w).

(** Case analysis on the outcome of [exec]. *)
Ltac exec_loop H :=
  first
    [ discriminate H
    | injection H as <- <-
    | lazymatch type of H with
      | fmap _ ?x = _ => destruct x eqn:?; cbn [fmap option_fmap option_map] in H
      | (if ?x then _ else _) = _ => destruct x eqn:?
      | match ?x with _ => _ end = _ => destruct x eqn:?
      end; exec_loop H ].
Ltac exec_cases H := cbn [exec] in H; cbv zeta in H; exec_loop H.

(** Execution does not touch the other goroutines. *)
Lemma exec_frame c a w w' more :
  exec c a w = Some (w', more) → w_reader w' = w_reader w ∧ w_threads w' = w_threads w.
Proof. intros H. destruct a; exec_cases H; done. Qed.

Section Invariant.
Context (P : world → list action → Prop).
Context (P_perm : ∀ w l l', l ≡ₚ l' → P w l → P w l').
Context (P_reader : ∀ w l k, P w l → P (set_reader k w) l).
Context (P_threads : ∀ w l k, P w l → P (set_threads k w) l).
Context (P_indications : ∀ w l k, P w l → P (set_indications k w) l).
Context (P_initial : P initial []).
Context (P_spawn : ∀ w l t, spawned t → P w l → P w (t ++ l)).
Context (P_receive : ∀ w l message, P w l → P w (AInbound message :: l)).
Context (P_read_error : ∀ w l e, P w l → P w (AReadFailed e :: l)).
Context (P_exec : ∀ c a w w' more l, P w (a :: l) → exec c a w = Some (w', more) → P w' (more ++ l)).

Lemma step_inv w w' : step w w' → P w (todo w) → P w' (todo w').
Proof.
  destruct 1 as [w t Ht|w l1 a t l2 c w' more Hl He|w a t c w' more Hl He|w m Hr Hs|w e Hr Hs|w i l Hi];
    unfold todo; intros HP.
  - apply P_threads. cbn. rewrite concat_app. cbn. rewrite app_nil_r.
    apply (P_perm _ (t ++ w_reader w ++ concat (w_threads w))); [|by apply P_spawn].
    rewrite (Permutation_app_comm t). by rewrite app_assoc.
  - apply P_threads. destruct (exec_frame _ _ _ _ _ He) as [E1 E2]. cbn. rewrite E1.
    apply (P_perm _ (more ++ (w_reader w ++ concat l1 ++ t ++ concat l2))).
    { rewrite concat_app. cbn. rewrite <-!app_assoc. solve_Permutation. }
    eapply P_exec; [|exact He]. eapply P_perm; [|exact HP]. rewrite Hl, concat_app. cbn.
    solve_Permutation.
  - apply P_reader. destruct (exec_frame _ _ _ _ _ He) as [E1 E2]. cbn. rewrite E2, <-app_assoc.
    eapply P_exec; [|exact He]. by rewrite Hl in HP.
  - apply P_reader. cbn. rewrite Hr in HP. by apply P_receive.
  - apply P_reader. cbn. rewrite Hr in HP. by apply P_read_error.
  - by apply P_indications.
Qed.

Lemma device_inv w : reachable w → P w (todo w).
Proof.
  enough (∀ v w, rtc step v w → P v (todo v) → P w (todo w)) as H by (intros; by eapply H).
  induction 1 as [|v u w' Hs _ IH]; [done|]. intros HP. apply IH. by eapply step_inv.
Qed.
End Invariant.

(** ** Result channels *)

Definition pend_chans (d : Device) : list nat := (p_result ∘ snd) <$> pending_list d.

(** The channels that an action is about to send to. *)
Definition token (a : action) : list nat := match a with AResult ch _ => [ch] | _ => [] end.
Definition tokens (l : list action) : list nat := l ≫= token.

(** Every place where the sending end of a channel can be. *)
Definition owners (w : world) (l : list action) : list nat :=
  pend_chans (w_device w) ++ tokens l ++ (fst <$> w_results w).

Lemma tokens_app l k : tokens (l ++ k) = tokens l ++ tokens k.
Proof. apply bind_app. Qed.

#[global] Instance tokens_proper : Proper ((≡ₚ) ==> (≡ₚ)) tokens.
Proof. intros l k H. unfold tokens. by rewrite H. Qed.

Lemma tokens_nil l : Forall (λ a, token a = []) l → tokens l = [].
Proof. induction 1 as [|a l Ha _ IH]; [done|]. unfold tokens in *. cbn. by rewrite Ha, IH. Qed.

Lemma pend_chans_delete d tx p :
  pending d !! tx = Some p →
  pend_chans d ≡ₚ p_result p :: pend_chans (set_pending (delete tx (pending d)) d).
Proof.
  intros H. unfold pend_chans, pending_list. cbn.
  rewrite <-(insert_delete_id (pending d) tx p H) at 1.
  rewrite map_to_list_insert by apply lookup_delete_eq. done.
Qed.

Lemma pend_chans_insert d tx p :
  pending d !! tx = None →
  pend_chans (set_pending (<[tx:=p]> (pending d)) d) ≡ₚ p_result p :: pend_chans d.
Proof.
  intros H. unfold pend_chans, pending_list. cbn. by rewrite map_to_list_insert by done.
Qed.

(** The channel that a caller gives up when it stops waiting. *)
Definition dropped (d : Device) (a : action) : list nat :=
  match a with
  | ARemove tx | ACancel tx => from_option (λ p, [p_result p]) [] (pending d !! tx)
  | _ => []
  end.

(** What happens to the channels in one step: all are kept but the dropped one,
    or one is new. *)
Definition owners_step (w : world) (a : action) (w' : world) (more : list action) : Prop :=
  (nextChan (w_device w') = nextChan (w_device w) ∧
   owners w' more ++ dropped (w_device w) a ≡ₚ owners w [a]) ∨
  (nextChan (w_device w') = S (nextChan (w_device w)) ∧
   owners w' more ≡ₚ nextChan (w_device w) :: owners w [a]).

Lemma allocate_spec n : ∀ next p tx next',
  allocate n next p = (Some tx, next') → p !! tx = None ∧ tx = next' ∧ 1 ≤ tx < 2 ^ 32.
Proof.
  induction n as [|n IH]; intros next p tx next'; cbn; [done|].
  set (x := if bool_decide (u32 (next + 1) = 0) then 1 else u32 (next + 1)).
  assert (1 ≤ x < 2 ^ 32) by (unfold x; pose proof (u32_range (next + 1)); case_bool_decide; lia).
  destruct (p !! x) eqn:E; [apply IH|]. by intros [= <- <-].
Qed.

Lemma beginTransaction_spec x ro d tx ch d' :
  beginTransaction x ro d = (Some (tx, ch), d') →
  closed d = false ∧ readErr d = None ∧ ch = nextChan d ∧ pending d !! tx = None ∧
  1 ≤ tx < 2 ^ 32 ∧ nextTx d' = tx ∧ allocateTransactionIDLocked d = (Some tx, tx) ∧
  pending d' = <[tx := mkPending x ch]> (pending d) ∧ nextChan d' = S (nextChan d) ∧
  maxCtrl d' = maxCtrl d ∧ closeSent d' = closeSent d ∧ closed d' = closed d ∧
  collectors d' = collectors d.
Proof.
  unfold beginTransaction. destruct (closed d) eqn:Ec; [done|].
  case_bool_decide as He; [done|]. do 2 (case_match; [done|]).
  destruct (allocateTransactionIDLocked d) as [[tx'|] next] eqn:Ea; [|done].
  intros [= <- <- <-]. pose proof Ea as Hs. unfold allocateTransactionIDLocked in Hs.
  apply allocate_spec in Hs as (Hp & -> & Hr). cbn.
  destruct (readErr d); [by destruct He|]. split_and!; try done; lia.
Qed.

Lemma beginTransaction_fail x ro d d' :
  beginTransaction x ro d = (None, d') →
  pending d' = pending d ∧ nextChan d' = nextChan d ∧ closeSent d' = closeSent d ∧
  closed d' = closed d ∧ collectors d' = collectors d ∧ maxCtrl d' = maxCtrl d.
Proof.
  unfold beginTransaction. repeat (case_match; try (intros [= <-]; done); simplify_eq/=).
Qed.

Lemma removePending_chans tx d b d' :
  removePending tx d = (b, d') →
  pend_chans d' ⊆+ pend_chans d ∧ nextChan d' = nextChan d ∧ nextTx d' = nextTx d ∧
  pending d' = delete tx (pending d) ∧ closed d' = closed d ∧ closeSent d' = closeSent d.
Proof.
  intros [= <- <-]. cbn. split_and!; try done. unfold pend_chans, pending_list. cbn.
  destruct (pending d !! tx) as [p|] eqn:E; [|by rewrite delete_id].
  pose proof (pend_chans_delete d tx p E) as H. unfold pend_chans, pending_list in H. cbn in H.
  rewrite H. by apply submseteq_cons.
Qed.

Lemma takePending_chans tx d p d' :
  takePending tx d = (p, d') →
  pend_chans d ≡ₚ from_option (λ p, [p_result p]) [] p ++ pend_chans d' ∧
  nextChan d' = nextChan d ∧ nextTx d' = nextTx d ∧ pending d' = delete tx (pending d) ∧
  pending d !! tx = p ∧ closed d' = closed d ∧ closeSent d' = closeSent d.
Proof.
  unfold takePending. destruct (pending d !! tx) as [q|] eqn:E; intros [= <- <-]; cbn.
  - split_and!; try done. by apply pend_chans_delete.
  - split_and!; try done. by rewrite delete_id.
Qed.

Lemma collectFragment_frame tx m i d r d' :
  collectFragment tx m i d = (r, d') →
  pending d' = pending d ∧ nextChan d' = nextChan d ∧ closed d' = closed d ∧
  closeSent d' = closeSent d ∧ nextTx d' = nextTx d ∧ maxCtrl d' = maxCtrl d ∧
  opened d' = opened d ∧ closing d' = closing d ∧ readErr d' = readErr d.
Proof.
  unfold collectFragment. cbv zeta.
  destruct (collectors d !! tx) as [a|]; cbv beta iota; repeat case_match;
    intros [= <- <-]; done.
Qed.

Lemma tokens_rejectInbound tx code : tokens (rejectInbound tx code) = [].
Proof. done. Qed.

Lemma tokens_handleInbound m : tokens (handleInboundMessage m) = [].
Proof.
  unfold handleInboundMessage.
  repeat (case_match; simplify_eq/=; try done; try apply tokens_rejectInbound).
Qed.

Lemma tokens_rejectFragment tx e : tokens (rejectFragment tx e) = [].
Proof. unfold rejectFragment. destruct (withProtocolTransaction e tx). by case_bool_decide. Qed.

Lemma tokens_collected tx i r n acts inds :
  collected_actions tx i r n = (acts, inds) → tokens acts = [].
Proof.
  unfold collected_actions. destruct r; [intros [= <- <-]; done| |intros [= <- <-]; apply tokens_rejectFragment].
  destruct i; [case_bool_decide|]; intros [= <- <-]; done.
Qed.

Lemma tokens_deliver tx a resp p : tokens (deliver_actions tx a resp p) = [p_result p].
Proof. unfold deliver_actions. case_bool_decide; [done|]. by case_match. Qed.

Lemma tokens_failed k : tokens (failed k) = [].
Proof. by destruct k. Qed.

Lemma tokens_received k r : tokens (received k r) = [].
Proof. by destruct k, r. Qed.

Lemma tokens_cancelled k tx : tokens (cancelled k tx) = [].
Proof. by destruct k. Qed.

Lemma map_to_list_filter {A} (P : Z * A → Prop) `{∀ x, Decision (P x)} (m : gmap Z A) :
  map_to_list (filter P m) ≡ₚ filter P (map_to_list m).
Proof.
  rewrite map_filter_alt. apply map_to_list_to_map.
  apply (sublist_NoDup _ _ (NoDup_fst_map_to_list m)), fmap_sublist, sublist_filter.
Qed.

Lemma without_commands_chans d :
  pend_chans d ≡ₚ ((p_result ∘ snd) <$> commands d) ++ pend_chans (without_commands d).
Proof.
  unfold pend_chans, commands, pending_list, without_commands. cbn.
  rewrite map_to_list_filter, <-fmap_app. by rewrite filter_app_complement.
Qed.

Lemma tokens_cancel_actions l :
  tokens (concat (cancel_actions <$> l)) = (p_result ∘ snd) <$> l.
Proof.
  induction l as [|x l IH]; [done|]. cbn [fmap list_fmap concat].
  rewrite tokens_app, IH. done.
Qed.

Lemma tokens_results (e : error) (l : list (Z * pendingTransaction)) :
  tokens ((λ x, AResult (p_result (snd x)) (inr e)) <$> l) = (p_result ∘ snd) <$> l.
Proof.
  induction l as [|x l IH]; [done|]. unfold tokens in *. cbn. by rewrite IH.
Qed.

Lemma owners_keep w a w' more :
  nextChan (w_device w') = nextChan (w_device w) → w_results w' = w_results w →
  pend_chans (w_device w') ++ tokens more ++ dropped (w_device w) a ≡ₚ
    pend_chans (w_device w) ++ tokens [a] →
  owners_step w a w' more.
Proof.
  intros Hn Hr Hs. left. split; [done|]. unfold owners.
  rewrite Hr, (app_assoc _ (tokens [a])), <-Hs. solve_Permutation.
Qed.

Lemma pend_chans_eq d d' : pending d' = pending d → pend_chans d' = pend_chans d.
Proof. unfold pend_chans, pending_list. by intros ->. Qed.

(** An action that leaves the pending transactions alone and makes no token. *)
Lemma owners_same w a w' more :
  nextChan (w_device w') = nextChan (w_device w) → w_results w' = w_results w →
  pending (w_device w') = pending (w_device w) → tokens more = [] → tokens [a] = [] →
  dropped (w_device w) a = [] → owners_step w a w' more.
Proof.
  intros Hn Hr Hp Ht Ha Hd. apply owners_keep; [done..|]. rewrite Ht, Ha, Hd, !app_nil_r.
  by rewrite (pend_chans_eq _ _ Hp).
Qed.

Lemma pend_chans_remove d tx :
  pend_chans (set_collectors (delete tx (collectors d)) (set_pending (delete tx (pending d)) d))
  ++ from_option (λ p, [p_result p]) [] (pending d !! tx) ≡ₚ pend_chans d.
Proof.
  destruct (pending d !! tx) as [p|] eqn:E; cbn [from_option].
  - rewrite (pend_chans_delete d tx p E), (Permutation_app_comm _ [p_result p]). done.
  - rewrite app_nil_r. erewrite pend_chans_eq; [done|]. cbn. by rewrite delete_id.
Qed.

Lemma beginOpen_spec m d d' :
  beginOpen m d = Some d' →
  pending d' = pending d ∧ nextChan d' = nextChan d ∧ nextTx d' = nextTx d ∧
  closed d' = closed d ∧ closeSent d' = closeSent d ∧ closed d = false.
Proof.
  unfold beginOpen. destruct (closed d) eqn:E; [done|]. repeat (case_match; [done|]).
  by intros [= <-].
Qed.

Lemma exec_owners c a w w' more :
  exec c a w = Some (w', more) → owners_step w a w' more.
Proof.
  intros H. destruct a; exec_cases H;
    try (apply owners_same; (done || apply tokens_failed || apply tokens_received || apply tokens_cancelled
      || apply tokens_handleInbound)).
  - subst. apply beginTransaction_spec in Heqp as (_ & _ & -> & Hp & _ & _ & _ & Ep & En & _).
    right. split; [done|]. unfold owners. cbn.
    pose proof (pend_chans_insert _ _ (mkPending (expectation r) (nextChan (w_device w))) Hp) as Hc.
    rewrite <-Ep in Hc. rewrite <-(pend_chans_eq d (set_pending (pending d) (w_device w)) eq_refl).
    by rewrite Hc.
  - apply beginTransaction_fail in Heqp as (? & ? & _). by apply owners_same; try apply tokens_failed.
  - by apply owners_same; destruct r.
  - apply owners_keep; [done..|]. cbn. rewrite app_nil_r. apply (pend_chans_remove (w_device w) tx).
  - apply owners_keep; [done..|]. cbn. rewrite app_nil_r.
    rewrite <-(pend_chans_remove (w_device w) tx). by case_bool_decide.
  - apply beginOpen_spec in Heqo as (? & ? & _). apply owners_same; try done. by destruct proxyInfo.
  - apply owners_keep; [done..|]. rewrite tokens_cancel_actions.
    rewrite (without_commands_chans (w_device w)). cbn [w_device set_device].
    change (tokens [ACancelCommands]) with (@nil nat). cbn [dropped]. rewrite !app_nil_r.
    by rewrite Permutation_app_comm.
  - apply owners_keep; [done..|]. rewrite tokens_results. cbn. by rewrite !app_nil_r.
  - apply collectFragment_frame in Heqp as (? & ? & _). apply owners_same; try done.
    by eapply tokens_collected.
  - apply takePending_chans in Heqp as (Hp & ? & _). apply owners_keep; [done..|].
    cbn [w_device set_device dropped]. rewrite Hp. change (tokens [ADeliver _ _ _]) with (@nil nat).
    rewrite !app_nil_r. destruct o as [p|]; [rewrite tokens_deliver|]; cbn; solve_Permutation.
  - apply takePending_chans in Heqp as (Hp & ? & _). apply owners_keep; [done..|].
    cbn [w_device set_device dropped]. rewrite Hp. change (tokens [ADeliverError _ _]) with (@nil nat).
    rewrite !app_nil_r. destruct o as [p|]; cbn; solve_Permutation.
  - apply owners_keep; [done..|]. cbn. rewrite !app_nil_r.
    rewrite <-(pend_chans_remove (w_device w) tx). by destruct (pending (w_device w) !! tx).
  - left. split; [done|]. unfold owners. cbn. rewrite fmap_app, app_nil_r. cbn.
    by rewrite (Permutation_app_comm _ [ch]).
Qed.

(** ** At most one result per transaction *)

Definition chan_inv (w : world) (l : list action) : Prop :=
  NoDup (owners w l) ∧ Forall (λ ch, ch < nextChan (w_device w))%nat (owners w l).

Lemma owners_split w l1 l2 : owners w (l1 ++ l2) ≡ₚ tokens l2 ++ owners w l1.
Proof. unfold owners. rewrite tokens_app. solve_Permutation. Qed.

Lemma owners_app w a w' more l :
  owners_step w a w' more →
  (nextChan (w_device w') = nextChan (w_device w) ∧
   owners w' (more ++ l) ++ dropped (w_device w) a ≡ₚ owners w (a :: l)) ∨
  (nextChan (w_device w') = S (nextChan (w_device w)) ∧
   owners w' (more ++ l) ≡ₚ nextChan (w_device w) :: owners w (a :: l)).
Proof.
  change (a :: l) with ([a] ++ l).
  intros [[Hn Hs]|[Hn Hs]]; [left|right]; (split; [done|]); rewrite !owners_split.
  - by rewrite <-app_assoc, Hs.
  - rewrite Hs. by rewrite Permutation_middle.
Qed.

Lemma chan_inv_reachable w : reachable w → chan_inv w (todo w).
Proof.
  apply device_inv; unfold chan_inv.
  - intros w0 l l' Hl. unfold owners. by rewrite Hl.
  - done.
  - done.
  - done.
  - split; constructor.
  - intros w0 l t Ht. unfold owners. rewrite tokens_app. by destruct Ht.
  - done.
  - done.
  - intros c a w0 w' more l [Hnd Hlt] He.
    destruct (owners_app _ _ _ _ l (exec_owners _ _ _ _ _ He)) as [[-> Hs]|[-> Hs]].
    + rewrite <-Hs in Hnd, Hlt. apply NoDup_app in Hnd as [? _]. by apply Forall_app in Hlt as [? _].
    + rewrite Hs. split.
      * constructor; [|done]. intros Hin. rewrite Forall_forall in Hlt.
        apply Hlt in Hin. lia.
      * constructor; [lia|]. eapply Forall_impl; [exact Hlt|]. cbn. lia.
Qed.

(** How the pending transactions and the history change in one step. *)
Lemma exec_pending c a w w' more :
  exec c a w = Some (w', more) →
  (pending (w_device w') ⊆ pending (w_device w) ∧ w_began w' = w_began w ∧
   nextChan (w_device w') = nextChan (w_device w)) ∨
  (∃ k r ro tx, a = ABegin k r ro ∧
     pending (w_device w) !! tx = None ∧
     pending (w_device w') = <[tx := mkPending (expectation r) (nextChan (w_device w))]> (pending (w_device w)) ∧
     w_began w' = w_began w ++ [(nextChan (w_device w), expectation r)] ∧
     nextChan (w_device w') = S (nextChan (w_device w)) ∧
     more = [ALockWrite k r tx (nextChan (w_device w)) (messages r tx (maxCtrl (w_device w)))]).
Proof.
  intros H. destruct a; exec_cases H; try (left; done).
  - right. subst. apply beginTransaction_spec in Heqp
      as (_ & _ & -> & Hp & _ & _ & _ & Ep & En & Em & _).
    eexists _, _, _, _. cbn. by rewrite <-Em.
  - left. apply beginTransaction_fail in Heqp as (Hp & Hn & _). cbn. by rewrite Hp.
  - left. by destruct r.
  - left. cbn. split_and!; [apply delete_subseteq|done..].
  - left. cbn. split_and!; [apply delete_subseteq|done..].
  - left. apply beginOpen_spec in Heqo as (Hp & Hn & _). cbn. by rewrite Hp.
  - left. cbn. split_and!; [apply map_filter_subseteq|done..].
  - left. cbn. split_and!; [apply map_empty_subseteq|done..].
  - left. apply collectFragment_frame in Heqp as (Hp & Hn & _). cbn. by rewrite Hp.
  - left. apply takePending_chans in Heqp as (_ & Hn & _ & Hp & _). cbn.
    rewrite Hp. split_and!; [apply delete_subseteq|done..].
  - left. apply takePending_chans in Heqp as (_ & Hn & _ & Hp & _). cbn.
    rewrite Hp. split_and!; [apply delete_subseteq|done..].
  - left. cbn. split_and!; [apply delete_subseteq|done..].
Qed.

(** A successful result is only ever produced by [deliver], for a pending
    transaction whose expectation it matches. *)
Lemma exec_success c a w w' more ch resp :
  exec c a w = Some (w', more) → AResult ch (inl resp) ∈ more →
  ∃ tx p, pending (w_device w) !! tx = Some p ∧ ch = p_result p ∧
    commandResponseMismatch (p_expectation p) resp = false.
Proof.
  intros H Hin. assert (Ht : ch ∈ tokens more).
  { unfold tokens. apply list_elem_of_bind. exists (AResult ch (inl resp)). split; [left|done]. }
  destruct a; exec_cases H; try (by cbn in Ht; apply not_elem_of_nil in Ht);
    try (rewrite ?tokens_failed, ?tokens_received, ?tokens_cancelled, ?tokens_handleInbound in Ht;
         by apply not_elem_of_nil in Ht).
  - destruct k; cbn [failed] in Hin; decompose_list_elem_of; simplify_eq.
  - case_bool_decide; decompose_list_elem_of; simplify_eq.
  - destruct proxyInfo; decompose_list_elem_of; simplify_eq.
  - apply list_elem_of_In, in_concat in Hin as (l & Hl & Hin).
    apply list_elem_of_In, list_elem_of_fmap in Hl as (x & -> & _).
    apply list_elem_of_In in Hin. unfold cancel_actions in Hin.
    decompose_list_elem_of; simplify_eq.
  - apply list_elem_of_fmap in Hin as (x & ? & _). simplify_eq.
  - apply tokens_collected in Heqp0. rewrite Heqp0 in Ht. by apply not_elem_of_nil in Ht.
  - apply takePending_chans in Heqp as (_ & _ & _ & _ & Hp & _).
    destruct o as [p|]; [|by apply not_elem_of_nil in Ht].
    exists tx, p. split; [done|]. revert Hin. unfold deliver_actions, rejectResponse.
    case_bool_decide; [intros Hin; decompose_list_elem_of; simplify_eq|].
    destruct (commandResponseMismatch _ _) eqn:E; intros Hin; decompose_list_elem_of; simplify_eq.
    by cbn.
  - destruct o; decompose_list_elem_of; simplify_eq.
  - destruct (pending (w_device w) !! tx); decompose_list_elem_of; simplify_eq.
Qed.

(** ** A caller only gets the response to its own command *)

Definition delivered (w : world) (l : list action) (ch : nat) (resp : CommandDone) : Prop :=
  AResult ch (inl resp) ∈ l ∨ (ch, inl resp) ∈ w_results w.

Definition match_inv (w : world) (l : list action) : Prop :=
  (∀ tx p, pending (w_device w) !! tx = Some p → (p_result p, p_expectation p) ∈ w_began w) ∧
  (∀ ch resp, delivered w l ch resp →
     ∃ x, (ch, x) ∈ w_began w ∧ commandResponseMismatch x resp = false) ∧
  NoDup (w_began w).*1 ∧ Forall (λ ch, ch < nextChan (w_device w))%nat (w_began w).*1.

Lemma exec_results c a w w' more :
  exec c a w = Some (w', more) →
  w_results w' = w_results w ++ match a with AResult ch r => [(ch, r)] | _ => [] end.
Proof. intros H. destruct a; exec_cases H; cbn; by rewrite ?app_nil_r. Qed.

Lemma match_inv_exec c a w w' more l :
  match_inv w (a :: l) → exec c a w = Some (w', more) → match_inv w' (more ++ l).
Proof.
  intros (Hp & Hd & Hn & Hl) He. pose proof (exec_results _ _ _ _ _ He) as Er.
  assert (Hdel : ∀ ch resp, delivered w' (more ++ l) ch resp →
    ∃ x, (ch, x) ∈ w_began w ∧ commandResponseMismatch x resp = false).
  { intros ch resp [[Hin|Hin]%elem_of_app|Hin].
    - destruct (exec_success _ _ _ _ _ _ _ He Hin) as (tx & p & Hpend & -> & Hm).
      exists (p_expectation p). split; [by eapply Hp|done].
    - apply Hd. left. by right.
    - rewrite Er in Hin. apply elem_of_app in Hin as [Hin|Hin]; [apply Hd; by right|].
      apply Hd. left. destruct a; decompose_list_elem_of; simplify_eq. left. }
  destruct (exec_pending _ _ _ _ _ He) as [(Hsub & Hb & Hc)|(k & r & ro & tx & -> & Hnone & Ep & Eb & Ec & _)].
  - unfold match_inv. rewrite Hb, Hc. split_and!; [|exact Hdel|done|done].
    intros tx p Hx. eapply Hp, lookup_weaken; [exact Hx|done].
  - unfold match_inv. rewrite Eb, Ec, Ep, fmap_app. cbn. split_and!.
    + intros tx' p. rewrite lookup_insert_Some. intros [[<- <-]|[_ Hx]]; apply elem_of_app.
      * right. cbn. by left.
      * left. by eapply Hp.
    + intros ch resp H. destruct (Hdel ch resp H) as (x & ? & ?). exists x.
      split; [by apply elem_of_app; left|done].
    + apply NoDup_app. split; [done|]. split; [|apply NoDup_singleton].
      intros x Hx Hin. apply list_elem_of_singleton in Hin as ->. rewrite Forall_forall in Hl.
      apply Hl in Hx. lia.
    + apply Forall_app. split; [|repeat constructor]. eapply Forall_impl; [exact Hl|]. cbn. lia.
Qed.

Lemma match_inv_reachable w : reachable w → match_inv w (todo w).
Proof.
  apply device_inv; unfold match_inv, delivered.
  - intros w0 l l' Hl (? & Hd & ?). split_and!; try tauto. intros ch resp H1. apply Hd.
    destruct H1 as [H1|]; [left; by rewrite Hl|by right].
  - done.
  - done.
  - done.
  - cbn. split_and!; try constructor; [intros tx p; by rewrite lookup_empty|].
    intros ch resp [H|H]; by apply not_elem_of_nil in H.
  - intros w0 l t Ht (? & Hd & ?). split_and!; try tauto. intros ch resp [H1|H1]; apply Hd.
    + left. apply elem_of_app in H1 as [H1|]; [|done].
      destruct Ht; decompose_list_elem_of; simplify_eq.
    + by right.
  - intros w0 l m (? & Hd & ?). split_and!; try tauto. intros ch resp [H1|H1]; apply Hd.
    + left. apply elem_of_cons in H1 as [?|]; [simplify_eq|done].
    + by right.
  - intros w0 l m (? & Hd & ?). split_and!; try tauto. intros ch resp [H1|H1]; apply Hd.
    + left. apply elem_of_cons in H1 as [?|]; [simplify_eq|done].
    + by right.
  - intros. by eapply match_inv_exec.
Qed.

(** ** Nothing is begun once the device is closed *)

Definition closed_inv (w : world) (l : list action) : Prop :=
  closed (w_device w) = true → pending (w_device w) = ∅ ∨ ∃ e, AFail e ∈ l.

Lemma exec_closed c a w w' more :
  exec c a w = Some (w', more) →
  closed (w_device w') = closed (w_device w) ∨
  (a = ACloseTransport ∧ more = [AFail PlainError; ATransportClose]).
Proof.
  intros H. destruct a; exec_cases H; try (by left); try (by right).
  - left. subst. apply beginTransaction_spec in Heqp. cbn. tauto.
  - left. apply beginTransaction_fail in Heqp. cbn. tauto.
  - left. by destruct r.
  - left. apply beginOpen_spec in Heqo. cbn. tauto.
  - left. apply collectFragment_frame in Heqp. cbn. tauto.
  - left. apply takePending_chans in Heqp. cbn. tauto.
  - left. apply takePending_chans in Heqp. cbn. tauto.
Qed.

Lemma closed_inv_exec c a w w' more l :
  closed_inv w (a :: l) → exec c a w = Some (w', more) → closed_inv w' (more ++ l).
Proof.
  intros Hi He Hc. destruct (exec_closed _ _ _ _ _ He) as [E|[-> ->]].
  2: { right. exists PlainError. left. }
  rewrite E in Hc. destruct (Hi Hc) as [Hp|[e Hin]].
  - destruct (exec_pending _ _ _ _ _ He) as [(Hsub & _)|(k & r & ro & tx & -> & _ & _ & _ & Hn & _)].
    + left. rewrite Hp in Hsub. apply map_eq. intros i. rewrite lookup_empty.
      destruct (pending (w_device w') !! i) eqn:Ei; [|done].
      eapply lookup_weaken in Ei; [|exact Hsub]. by rewrite lookup_empty in Ei.
    + exfalso. cbn in He. destruct (beginTransaction _ _ _) as [[[tx' ch]|] d] eqn:Eb.
      * apply beginTransaction_spec in Eb as (Hf & _). congruence.
      * apply beginTransaction_fail in Eb as (_ & Hf & _). simplify_eq/=. lia.
  - apply elem_of_cons in Hin as [<-|Hin]; [left|right; exists e; apply elem_of_app; by right].
    cbn in He. by simplify_eq/=.
Qed.

Lemma closed_inv_reachable w : reachable w → closed_inv w (todo w).
Proof.
  apply device_inv; unfold closed_inv.
  - intros w0 l l' Hl H Hc. destruct (H Hc) as [?|[e He]]; [by left|]. right. exists e. by rewrite <-Hl.
  - done.
  - done.
  - done.
  - done.
  - intros w0 l t _ H Hc. destruct (H Hc) as [?|[e He]]; [by left|].
    right. exists e. apply elem_of_app. by right.
  - intros w0 l m H Hc. destruct (H Hc) as [?|[e He]]; [by left|]. right. exists e. by right.
  - intros w0 l m H Hc. destruct (H Hc) as [?|[e He]]; [by left|]. right. exists e. by right.
  - intros. by eapply closed_inv_exec.
Qed.

(** ** No waiter is forgotten *)

(** The transaction and the channel of a caller between [beginTransaction] and
    its result, and the transactions that goroutines may still remove. *)
Definition waiter (a : action) : option (Z * nat) :=
  match a with
  | ALockWrite _ _ tx ch _ | AWrite _ _ tx ch _ | AWait _ tx ch => Some (tx, ch)
  | _ => None
  end.

Definition claims (a : action) : list Z :=
  match a with
  | ALockWrite _ _ tx _ _ | AWrite _ _ tx _ _ | AWait _ tx _ | ARemove tx | ACancel tx => [tx]
  | _ => []
  end.

(** Identifiers do not wrap as long as fewer than 2^32 - 1 transactions began. *)
Definition wait_inv (w : world) (l : list action) : Prop :=
  Z.of_nat (nextChan (w_device w)) < 2 ^ 32 - 1 →
  nextTx (w_device w) = Z.of_nat (nextChan (w_device w)) ∧
  (∀ tx p, pending (w_device w) !! tx = Some p →
     tx = Z.of_nat (S (p_result p)) ∧ (p_result p < nextChan (w_device w))%nat) ∧
  NoDup (l ≫= claims) ∧ Forall (λ tx, tx <= nextTx (w_device w)) (l ≫= claims) ∧
  (∀ a tx ch, a ∈ l → waiter a = Some (tx, ch) →
     tx = Z.of_nat (S ch) ∧ ch ∈ owners w l).

Definition claims_step (w : world) (a : action) (w' : world) (more : list action) : Prop :=
  more ≫= claims ⊆+ claims a ∧
  (∀ b tx ch, b ∈ more → waiter b = Some (tx, ch) → waiter a = Some (tx, ch)) ∧
  nextTx (w_device w') = nextTx (w_device w).

Lemma waiter_claims a tx ch : waiter a = Some (tx, ch) → claims a = [tx].
Proof. destruct a; cbn; intros; by simplify_eq. Qed.

Lemma claims_quiet w a w' more :
  more ≫= claims = [] → nextTx (w_device w') = nextTx (w_device w) → claims_step w a w' more.
Proof.
  intros Hm Hn. split_and!; [rewrite Hm; apply submseteq_nil_l| |done].
  intros b tx ch Hb Hw%waiter_claims. exfalso. apply (not_elem_of_nil tx). rewrite <-Hm.
  apply list_elem_of_bind. exists b. rewrite Hw. split; [left|done].
Qed.

Lemma claims_failed k : failed k ≫= claims = [].
Proof. by destruct k. Qed.
Lemma claims_received k r : received k r ≫= claims = [].
Proof. by destruct k, r. Qed.
Lemma claims_handleInbound m : handleInboundMessage m ≫= claims = [].
Proof.
  unfold handleInboundMessage. repeat (case_match; simplify_eq/=; try done).
Qed.
Lemma claims_rejectFragment tx e : rejectFragment tx e ≫= claims = [].
Proof. unfold rejectFragment. destruct (withProtocolTransaction e tx). by case_bool_decide. Qed.
Lemma claims_collected tx i r n acts inds :
  collected_actions tx i r n = (acts, inds) → acts ≫= claims = [].
Proof.
  unfold collected_actions. destruct r; [intros [= <- <-]; done| |intros [= <- <-]; apply claims_rejectFragment].
  destruct i; [case_bool_decide|]; intros [= <- <-]; done.
Qed.
Lemma claims_deliver tx a resp p : deliver_actions tx a resp p ≫= claims = [].
Proof. unfold deliver_actions. case_bool_decide; [done|]. by case_match. Qed.
Lemma claims_cancel_actions l : concat (cancel_actions <$> l) ≫= claims = [].
Proof. induction l as [|x l IH]; [done|]. cbn [fmap list_fmap concat]. by rewrite bind_app, IH. Qed.
Lemma claims_results (e : error) (l : list (Z * pendingTransaction)) :
  ((λ x, AResult (p_result (snd x)) (inr e)) <$> l) ≫= claims = [].
Proof. by induction l. Qed.

Lemma exec_claims c a w w' more :
  exec c a w = Some (w', more) → claims_step w a w' more ∨ ∃ k r ro, a = ABegin k r ro.
Proof.
  intros H. destruct a; exec_cases H; try (right; by eauto); left;
    try (apply claims_quiet; (done || apply claims_failed || apply claims_received
      || apply claims_handleInbound || apply claims_cancel_actions || apply claims_results)).
  1: by destruct r; split_and!; try done; intros b tx0 ch0 Hb Hw; decompose_list_elem_of; subst.
  1-8: try (split_and!; [by cbn; rewrite ?claims_failed| |done]; intros b tx0 ch0 Hb Hw;
    decompose_list_elem_of; subst; try done; destruct k; cbn in *; decompose_list_elem_of; subst; done).
  - split_and!; [by destruct k| |done]. intros b tx0 ch0 Hb Hw.
    destruct k; cbn in Hb; decompose_list_elem_of; by subst.
  - split_and!; [done| |done]. intros b tx0 ch0 Hb Hw. decompose_list_elem_of; by subst.
  - apply claims_quiet; [|done]. by case_bool_decide.
  - apply claims_quiet; [by destruct proxyInfo|]. apply beginOpen_spec in Heqo. cbn. tauto.
  - apply claims_quiet; [by eapply claims_collected|]. apply collectFragment_frame in Heqp. cbn. tauto.
  - apply takePending_chans in Heqp as (_ & _ & Hn & _). apply claims_quiet; [|done].
    destruct o; [apply claims_deliver|done].
  - apply takePending_chans in Heqp as (_ & _ & Hn & _). apply claims_quiet; [|done]. by destruct o.
  - apply claims_quiet; [|done]. by destruct (pending (w_device w) !! tx).
Qed.

(** Without a wrap, the next identifier is the next number, and it is free. *)
Lemma allocate_fresh d :
  nextTx d = Z.of_nat (nextChan d) → Z.of_nat (nextChan d) < 2 ^ 32 - 1 →
  (∀ k p, pending d !! k = Some p → k = Z.of_nat (S (p_result p)) ∧ (p_result p < nextChan d)%nat) →
  allocateTransactionIDLocked d = (Some (Z.of_nat (S (nextChan d))), Z.of_nat (S (nextChan d))).
Proof.
  intros Hn Hlt Hp. unfold allocateTransactionIDLocked. cbn [allocate]. rewrite Hn.
  rewrite (u32_small (Z.of_nat (nextChan d) + 1)) by lia.
  rewrite bool_decide_eq_false_2 by lia.
  destruct (pending d !! (Z.of_nat (nextChan d) + 1)) as [p|] eqn:E.
  - apply Hp in E. lia.
  - repeat f_equal; lia.
Qed.

(** A transaction that could not begin changes no identifier, unless all are in use. *)
Lemma beginTransaction_fail_tx x ro d d' tx next :
  beginTransaction x ro d = (None, d') → allocateTransactionIDLocked d = (Some tx, next) →
  nextTx d' = nextTx d.
Proof. unfold beginTransaction. intros H E. rewrite E in H. by repeat case_match; simplify_eq. Qed.

Lemma wait_inv_begin c k r ro w w' more l tx :
  exec c (ABegin k r ro) w = Some (w', more) →
  nextChan (w_device w') = S (nextChan (w_device w)) →
  more = [ALockWrite k r tx (nextChan (w_device w)) (messages r tx (maxCtrl (w_device w)))] →
  pending (w_device w') = <[tx := mkPending (expectation r) (nextChan (w_device w))]> (pending (w_device w)) →
  owners w' (more ++ l) ≡ₚ nextChan (w_device w) :: owners w (ABegin k r ro :: l) →
  wait_inv w (ABegin k r ro :: l) → wait_inv w' (more ++ l).
Proof.
  intros He En Em Ep Ho Hi Hlt. destruct (Hi ltac:(lia)) as (Htx & Hp & Hnd & Hle & Hw).
  cbn in He. destruct (beginTransaction _ _ _) as [[[tx' ch]|] d] eqn:Eb.
  2: { apply beginTransaction_fail in Eb as (_ & Hf & _). simplify_eq/=. lia. }
  apply beginTransaction_spec in Eb as (_ & _ & _ & _ & _ & Ent & Ha & _).
  pose proof (allocate_fresh (w_device w) Htx ltac:(lia) Hp) as Hf. rewrite Hf in Ha.
  injection Ha as Ha. injection He as Hw' Hm. pose proof Em as E1. rewrite <-Hm in E1. injection E1 as E1 _ _.
  assert (Ent' : nextTx (w_device w') = tx) by (subst; cbn; congruence).
  assert (Etx : tx = Z.of_nat (S (nextChan (w_device w)))) by congruence.
  rewrite Ent', Ep, En. clear Hw' E1 Hm Hf Ha. subst more.
  split_and!.
  - done.
  - intros k0 p. rewrite lookup_insert_Some. intros [[<- <-]|[_ Hk]]; [cbn; lia|].
    apply Hp in Hk. lia.
  - cbn in *. constructor; [|done]. intros Hin. rewrite Forall_forall in Hle.
    apply Hle in Hin. lia.
  - cbn in *. constructor; [lia|]. eapply Forall_impl; [exact Hle|]. cbn. lia.
  - intros a t0 ch0 Hin Hwt. rewrite Ho. apply elem_of_app in Hin as [Hin|Hin].
    + apply list_elem_of_singleton in Hin as ->. cbn in Hwt. simplify_eq. split; [lia|left].
    + destruct (Hw a t0 ch0) as [??]; [by right|done|]. split; [done|by right].
Qed.

Lemma wait_inv_keep c a w w' more l :
  exec c a w = Some (w', more) → claims_step w a w' more →
  pending (w_device w') ⊆ pending (w_device w) →
  nextChan (w_device w') = nextChan (w_device w) →
  owners w' (more ++ l) ++ dropped (w_device w) a ≡ₚ owners w (a :: l) →
  wait_inv w (a :: l) → wait_inv w' (more ++ l).
Proof.
  intros He (Hc & Hb & Ent) Hsub En Ho Hi Hlt.
  destruct (Hi ltac:(lia)) as (Htx & Hp & Hnd & Hle & Hw). rewrite Ent, En, bind_app.
  assert (Hs : (more ≫= claims) ++ (l ≫= claims) ⊆+ (a :: l) ≫= claims).
  { cbn. by apply submseteq_skips_r. }
  split_and!; [done| |by eapply submseteq_NoDup|by eapply submseteq_Forall|].
  - intros k p Hk. apply Hp. by eapply lookup_weaken.
  - intros b tx ch Hin Hwt.
    assert (∃ b', b' ∈ a :: l ∧ waiter b' = Some (tx, ch)) as (b' & Hin' & Hwt').
    { apply elem_of_app in Hin as [Hin|Hin]; [exists a|exists b]; split; [left|by eapply Hb|by right|done]. }
    destruct (Hw b' tx ch Hin' Hwt') as [-> Hown]. split; [done|].
    rewrite <-Ho in Hown. apply elem_of_app in Hown as [?|Hd]; [done|exfalso].
    assert (Hcl : Z.of_nat (S ch) ∈ claims a ∧ waiter a = None).
    { destruct a; cbn in Hd; try (by apply not_elem_of_nil in Hd);
        (destruct (pending (w_device w) !! tx) eqn:E; [|by apply not_elem_of_nil in Hd]);
        apply list_elem_of_singleton in Hd as ->; apply Hp in E as [-> _]; (split; [left|done]). }
    destruct Hcl as [Hca Hwn]. cbn in Hnd. apply NoDup_app in Hnd as (_ & Hdis & _).
    apply (Hdis _ Hca). apply list_elem_of_bind. exists b'. rewrite (waiter_claims _ _ _ Hwt').
    split; [left|]. apply elem_of_cons in Hin' as [->|]; [congruence|done].
Qed.

Lemma wait_inv_exec c a w w' more l :
  wait_inv w (a :: l) → exec c a w = Some (w', more) → wait_inv w' (more ++ l).
Proof.
  intros Hi He. pose proof (exec_owners _ _ _ _ _ He) as Ho. apply (owners_app _ _ _ _ l) in Ho.
  destruct (exec_pending _ _ _ _ _ He) as [(Hsub & _ & En)|(k & r & ro & tx & -> & _ & Ep & _ & En & Em)].
  - destruct Ho as [[_ Ho]|[? _]]; [|lia].
    destruct (exec_claims _ _ _ _ _ He) as [Hc|(k & r & ro & ->)]; [by eapply wait_inv_keep|].
    intros Hlt. destruct (Hi ltac:(lia)) as (Htx & Hp & _).
    eapply wait_inv_keep; [exact He| |exact Hsub|exact En|exact Ho|exact Hi|exact Hlt].
    cbn in He. destruct (beginTransaction _ _ _) as [[[tx' ch]|] d] eqn:Eb.
    + apply beginTransaction_spec in Eb as (_ & _ & _ & _ & _ & _ & _ & _ & En' & _). simplify_eq/=. lia.
    + simplify_eq/=. apply claims_quiet; [apply claims_failed|].
      eapply beginTransaction_fail_tx; [exact Eb|]. apply allocate_fresh; [done|cbn in *; lia|done].
  - destruct Ho as [[? _]|[_ Ho]]; [lia|]. by eapply wait_inv_begin.
Qed.

Lemma wait_inv_reachable w : reachable w → wait_inv w (todo w).
Proof.
  apply device_inv; unfold wait_inv.
  - intros w0 l l' Hl H Hlt. destruct (H Hlt) as (? & ? & ? & ? & Hw).
    assert (Hb : l ≫= claims ≡ₚ l' ≫= claims) by (by rewrite Hl).
    split_and!; [done|done|by rewrite <-Hb|by rewrite <-Hb|].
    intros a tx ch Ha Hwt. destruct (Hw a tx ch) as [??]; [by rewrite Hl|done|].
    split; [done|]. unfold owners in *. by rewrite <-Hl.
  - done.
  - done.
  - done.
  - intros _. cbn. split_and!; [done| |by apply NoDup_nil|by apply Forall_nil|].
    + intros tx p. by rewrite lookup_empty.
    + by intros a tx ch ?%not_elem_of_nil.
  - intros w0 l t Ht H Hlt. destruct (H Hlt) as (? & ? & ? & ? & Hw).
    destruct Ht; (split_and!; [done..|]); intros a tx0 ch Ha Hwt;
      (apply elem_of_app in Ha as [Ha|Ha];
       [apply list_elem_of_singleton in Ha as ->; done|by apply Hw with a]).
  - intros w0 l m H Hlt. destruct (H Hlt) as (? & ? & ? & ? & Hw). split_and!; [done..|].
    intros a tx0 ch Ha Hwt. apply elem_of_cons in Ha as [->|Ha]; [done|by apply Hw with a].
  - intros w0 l m H Hlt. destruct (H Hlt) as (? & ? & ? & ? & Hw). split_and!; [done..|].
    intros a tx0 ch Ha Hwt. apply elem_of_cons in Ha as [->|Ha]; [done|by apply Hw with a].
  - intros. by eapply wait_inv_exec.
Qed.

(** ** What is written, and when *)

Definition is_write (a : action) : option (purpose * request * Z * nat * list bytes) :=
  match a with AWrite k r tx ch msgs => Some (k, r, tx, ch, msgs) | _ => None end.

(** One step writes at most one message. *)
Definition sent_step (a : action) (w w' : world) : Prop :=
  w_sent w' = w_sent w ∨
  (∃ k r tx ch m msgs, a = AWrite k r tx ch (m :: msgs) ∧ w_sent w' = w_sent w ++ [SentRequest r m]) ∨
  (∃ tx code, a = AHostError tx code ∧ closeSent (w_device w) = false ∧ w_writeMu w = false ∧
     w_sent w' = w_sent w ++ [SentHostError (encodeProtocolError MessageTypeHostError tx code)]).

Lemma exec_sent c a w w' more : exec c a w = Some (w', more) → sent_step a w w'.
Proof.
  intros H. destruct a; exec_cases H; try (by left); try (right; left; by eauto 10).
  all: right; right; exists tx, code; apply orb_false_iff in Heqb0 as [-> _]; done.
Qed.

Lemma exec_closeSent c a w w' more :
  exec c a w = Some (w', more) → closeSent (w_device w) = true → closeSent (w_device w') = true.
Proof.
  intros H. destruct a; exec_cases H; try done.
  - intros. subst. apply beginTransaction_spec in Heqp. cbn. intuition congruence.
  - intros. apply beginTransaction_fail in Heqp. cbn. intuition congruence.
  - by destruct r.
  - intros. apply beginOpen_spec in Heqo. cbn. intuition congruence.
  - intros. apply collectFragment_frame in Heqp. cbn. intuition congruence.
  - intros. apply takePending_chans in Heqp. cbn. intuition congruence.
  - intros. apply takePending_chans in Heqp. cbn. intuition congruence.
Qed.

(** The only action that starts a write, and the only one that goes on with it. *)
Lemma exec_write c a w w' more k r tx ch msgs :
  exec c a w = Some (w', more) → AWrite k r tx ch msgs ∈ more →
  (a = ALockWrite k r tx ch msgs ∧ more = [AWrite k r tx ch msgs] ∧ w_writeMu w = false ∧
   w_writeMu w' = true ∧ (r = RClose → closeSent (w_device w') = true)) ∨
  (∃ m, a = AWrite k r tx ch (m :: msgs) ∧ more = [AWrite k r tx ch msgs] ∧
     w_writeMu w' = w_writeMu w ∧ w_sent w' = w_sent w ++ [SentRequest r m]).
Proof.
  intros He Hin. destruct (exec_claims _ _ _ _ _ He) as [(_ & Hb & _)|(k' & r' & ro & ->)].
  - specialize (Hb _ tx ch Hin eq_refl).
    destruct a; cbn [waiter] in Hb; try done; injection Hb as -> ->; exec_cases He;
      decompose_list_elem_of; simplify_eq.
    + left. split_and!; try done. by intros ->.
    + right. by exists l.
    + destruct k0; cbn in *; decompose_list_elem_of; simplify_eq.
    + right. by exists l.
    + right. by exists l.
    + destruct k0, c0; cbn in *; decompose_list_elem_of; simplify_eq.
    + destruct k0; cbn in *; decompose_list_elem_of; simplify_eq.
  - exec_cases He; [by decompose_list_elem_of|].
    destruct k'; cbn in *; decompose_list_elem_of; simplify_eq.
Qed.

(** No error message is written after the close message. *)
Definition quiet_after_close (l : list sent) : Prop :=
  ∀ l1 m l2, l = l1 ++ SentRequest RClose m :: l2 → ∀ h, SentHostError h ∉ l2.

Definition close_inv (w : world) (l : list action) : Prop :=
  quiet_after_close (w_sent w) ∧
  ((∃ m, SentRequest RClose m ∈ w_sent w) → closeSent (w_device w) = true) ∧
  (∀ k tx ch msgs, AWrite k RClose tx ch msgs ∈ l → closeSent (w_device w) = true).

Lemma quiet_snoc l x :
  quiet_after_close l → (∀ h, x = SentHostError h → ∀ m, SentRequest RClose m ∉ l) →
  quiet_after_close (l ++ [x]).
Proof.
  intros Hq Hx l1 m l2 E h Hin. destruct l2 as [|y l2 _] using rev_ind.
  - by apply not_elem_of_nil in Hin.
  - rewrite app_comm_cons, app_assoc in E. apply app_inj_tail in E as [E <-].
    apply elem_of_app in Hin as [Hin|Hin%list_elem_of_singleton].
    + by eapply Hq.
    + apply (Hx h (eq_sym Hin) m). rewrite E. apply elem_of_app. right. left.
Qed.

Lemma close_inv_exec c a w w' more l :
  close_inv w (a :: l) → exec c a w = Some (w', more) → close_inv w' (more ++ l).
Proof.
  intros (Hq & Hs & Hw) He. pose proof (exec_closeSent _ _ _ _ _ He) as Hmono. split_and!.
  - destruct (exec_sent _ _ _ _ _ He) as [->|[(k & r & tx & ch & m & msgs & -> & ->)|(tx & code & -> & Hc & _ & ->)]].
    + done.
    + by apply quiet_snoc.
    + apply quiet_snoc; [done|]. intros h _ m Hin. rewrite (Hs (ex_intro _ m Hin)) in Hc. done.
  - intros [m Hin]. apply Hmono.
    destruct (exec_sent _ _ _ _ _ He) as [E|[(k & r & tx & ch & m' & msgs & -> & E)|(tx & code & -> & _ & _ & E)]];
      rewrite E in Hin; [apply Hs; by exists m|apply elem_of_app in Hin as [Hin|Hin]..].
    + apply Hs. by exists m.
    + apply list_elem_of_singleton in Hin. simplify_eq. eapply Hw. left.
    + apply Hs. by exists m.
    + by apply list_elem_of_singleton in Hin.
  - intros k tx ch msgs [Hin|Hin]%elem_of_app.
    + destruct (exec_write _ _ _ _ _ _ _ _ _ _ He Hin) as [(_ & _ & _ & _ & H)|(m & -> & _ & _ & _)].
      * by apply H.
      * apply Hmono. eapply Hw. left.
    + apply Hmono. eapply Hw. by right.
Qed.

Lemma close_inv_reachable w : reachable w → close_inv w (todo w).
Proof.
  apply device_inv; unfold close_inv.
  - intros w0 l l' Hl (? & ? & Hw). split_and!; [done|done|].
    intros k tx ch msgs Hx. eapply Hw. by rewrite Hl.
  - done.
  - done.
  - done.
  - split_and!.
    + intros l1 m l2 E. by destruct l1.
    + intros [m ?%not_elem_of_nil]. done.
    + by intros k tx ch msgs ?%not_elem_of_nil.
  - intros w0 l t Ht (? & ? & Hw). split_and!; [done|done|].
    intros k tx ch msgs [Hx|Hx]%elem_of_app; [|by eapply Hw].
    destruct Ht; by apply list_elem_of_singleton in Hx.
  - intros w0 l m (? & ? & Hw). split_and!; [done|done|]. intros k tx ch msgs Hx.
    apply elem_of_cons in Hx as [?|Hx]; [done|by eapply Hw].
  - intros w0 l m (? & ? & Hw). split_and!; [done|done|]. intros k tx ch msgs Hx.
    apply elem_of_cons in Hx as [?|Hx]; [done|by eapply Hw].
  - intros. by eapply close_inv_exec.
Qed.

(** ** The fragments of a message are written together *)

(** What one holder of the write lock wrote: an error message, or the first
    fragments of a request. *)
Definition write_block (b : list sent) : Prop :=
  (∃ h, b = [SentHostError h]) ∨
  (∃ r tx m l, b = SentRequest r <$> l ∧ l `prefix_of` messages r tx m).

Definition blocks (l : list sent) : Prop := ∃ bs, l = concat bs ∧ Forall write_block bs.

Definition writes (a : action) : Prop := is_Some (is_write a).

Definition wire_inv (w : world) (l : list action) : Prop :=
  (∀ k r tx ch msgs, ALockWrite k r tx ch msgs ∈ l → ∃ m, msgs = messages r tx m) ∧
  ((w_writeMu w = false ∧ blocks (w_sent w) ∧ Forall (λ a, is_write a = None) l) ∨
   (w_writeMu w = true ∧ ∃ k r tx ch msgs l' pre sent m,
      l ≡ₚ AWrite k r tx ch msgs :: l' ∧ Forall (λ a, is_write a = None) l' ∧
      blocks pre ∧ w_sent w = pre ++ (SentRequest r <$> sent) ∧ messages r tx m = sent ++ msgs)).

Lemma blocks_snoc l b : blocks l → write_block b → blocks (l ++ b).
Proof.
  intros (bs & -> & H) Hb. exists (bs ++ [b]). split; [by rewrite concat_app; cbn; rewrite app_nil_r|].
  by apply Forall_app_2; [|constructor].
Qed.

Lemma exec_lockwrite c a w w' more k r tx ch msgs :
  exec c a w = Some (w', more) → ALockWrite k r tx ch msgs ∈ more → ∃ m, msgs = messages r tx m.
Proof.
  intros He Hin. destruct (exec_claims _ _ _ _ _ He) as [(_ & Hb & _)|(k' & r' & ro & ->)].
  - specialize (Hb _ tx ch Hin eq_refl).
    destruct a; cbn [waiter] in Hb; try done; injection Hb as -> ->; exec_cases He;
      try (by decompose_list_elem_of); destruct k0; cbn in Hin;
      try (destruct c0; cbn in Hin); by decompose_list_elem_of.
  - exec_cases He.
    + apply list_elem_of_singleton in Hin. simplify_eq. by eexists.
    + destruct k'; cbn in *; by decompose_list_elem_of.
Qed.

Lemma exec_locks c a w w' more :
  exec c a w = Some (w', more) →
  match a with ALockWrite _ _ _ _ _ | AWrite _ _ _ _ _ => True | _ => w_writeMu w' = w_writeMu w end.
Proof. intros H. by destruct a; exec_cases H. Qed.

Lemma more_no_write c a w w' more :
  exec c a w = Some (w', more) →
  match a with ALockWrite _ _ _ _ _ | AWrite _ _ _ _ _ => False | _ => True end →
  Forall (λ b, is_write b = None) more.
Proof.
  intros He Ha. apply Forall_forall. intros b Hb. destruct b; try done.
  destruct (exec_write _ _ _ _ _ _ _ _ _ _ He Hb) as [(-> & _)|(m & -> & _)]; done.
Qed.

(** One step of the holder of the write lock. *)
Lemma exec_AWrite c k r tx ch msgs w w' more :
  exec c (AWrite k r tx ch msgs) w = Some (w', more) →
  (w_writeMu w' = false ∧ Forall (λ b, is_write b = None) more ∧
   ∃ l, w_sent w' = w_sent w ++ (SentRequest r <$> l) ∧ l `prefix_of` msgs) ∨
  (∃ m rest, msgs = m :: rest ∧ more = [AWrite k r tx ch rest] ∧ w_writeMu w' = w_writeMu w ∧
     w_sent w' = w_sent w ++ [SentRequest r m]).
Proof.
  intros H. exec_cases H; try (right; by eexists _, _); left; (split; [done|]); (split; [by destruct k; repeat constructor|]).
  - exists []. cbn. by rewrite app_nil_r.
  - exists [l]. split; [done|]. by exists l0.
  - exists []. cbn. rewrite app_nil_r. split; [done|]. by eexists.
  - exists [l]. split; [done|]. by exists l0.
  - exists [l]. split; [done|]. by exists l0.
Qed.

Lemma write_unique k r tx ch msgs k' r' tx' ch' msgs' l l' :
  AWrite k r tx ch msgs :: l ≡ₚ AWrite k' r' tx' ch' msgs' :: l' →
  Forall (λ a, is_write a = None) l' →
  AWrite k r tx ch msgs = AWrite k' r' tx' ch' msgs' ∧ Forall (λ a, is_write a = None) l.
Proof.
  intros Hp Hl'. assert (Hin : AWrite k r tx ch msgs ∈ AWrite k' r' tx' ch' msgs' :: l').
  { rewrite <-Hp. left. }
  apply elem_of_cons in Hin as [E|Hin].
  - split; [done|]. rewrite E in Hp. apply Permutation_cons_inv in Hp. by rewrite Hp.
  - rewrite Forall_forall in Hl'. by apply Hl' in Hin.
Qed.

(** The holder of the write lock goes on, or lets it go. *)
Lemma wire_inv_write c k r tx ch msgs w w' more l k0 r0 tx0 ch0 msgs0 l' pre sent0 m :
  exec c (AWrite k0 r0 tx0 ch0 msgs0) w = Some (w', more) → w_writeMu w = true →
  AWrite k0 r0 tx0 ch0 msgs0 :: l ≡ₚ AWrite k r tx ch msgs :: l' →
  Forall (λ a, is_write a = None) l' → blocks pre →
  w_sent w = pre ++ (SentRequest r <$> sent0) → messages r tx m = sent0 ++ msgs →
  (w_writeMu w' = false ∧ blocks (w_sent w') ∧ Forall (λ a, is_write a = None) (more ++ l)) ∨
  (w_writeMu w' = true ∧ ∃ k r tx ch msgs l' pre sent m,
     more ++ l ≡ₚ AWrite k r tx ch msgs :: l' ∧ Forall (λ a, is_write a = None) l' ∧
     blocks pre ∧ w_sent w' = pre ++ (SentRequest r <$> sent) ∧ messages r tx m = sent ++ msgs).
Proof.
  intros He Hm Hp Hn Hb Es Ed. destruct (write_unique _ _ _ _ _ _ _ _ _ _ _ _ Hp Hn) as [E Hnl].
  injection E as -> -> -> -> ->.
  destruct (exec_AWrite _ _ _ _ _ _ _ _ _ He) as [(Hm' & Hmore & x & Es' & [y ->])|(b & rest & -> & -> & Hm' & Es')].
  - left. split_and!; [done| |by apply Forall_app_2]. rewrite Es', Es, <-app_assoc, <-fmap_app.
    apply blocks_snoc; [done|]. right. exists r, tx, m, (sent0 ++ x). split; [done|].
    rewrite Ed. exists y. by rewrite app_assoc.
  - right. split; [congruence|]. exists k, r, tx, ch, rest, l, pre, (sent0 ++ [b]), m.
    split_and!; try done.
    + by rewrite Es', Es, <-app_assoc, fmap_app.
    + by rewrite Ed, <-app_assoc.
Qed.

(** Meanwhile nobody else writes. *)
Lemma wire_inv_other c a w w' more l k r tx ch msgs l' pre sent0 m :
  exec c a w = Some (w', more) → is_write a = None → w_writeMu w = true →
  a :: l ≡ₚ AWrite k r tx ch msgs :: l' →
  Forall (λ a, is_write a = None) l' → blocks pre →
  w_sent w = pre ++ (SentRequest r <$> sent0) → messages r tx m = sent0 ++ msgs →
  w_writeMu w' = true ∧ ∃ k r tx ch msgs l' pre sent m,
    more ++ l ≡ₚ AWrite k r tx ch msgs :: l' ∧ Forall (λ a, is_write a = None) l' ∧
    blocks pre ∧ w_sent w' = pre ++ (SentRequest r <$> sent) ∧ messages r tx m = sent ++ msgs.
Proof.
  intros He Ha Hm Hp Hn Hb Es Ed. pose proof (more_no_write _ _ _ _ _ He) as Hmore.
  pose proof (exec_locks _ _ _ _ _ He) as Hmu.
  assert (w_writeMu w' = true ∧ Forall (λ b, is_write b = None) more) as [Hm' Hmore'].
  { destruct a; try done; try (split; [congruence|by apply Hmore]). cbn in He. by rewrite Hm in He. }
  split; [done|]. assert (Hin : AWrite k r tx ch msgs ∈ l).
  { assert (H : AWrite k r tx ch msgs ∈ a :: l) by (rewrite Hp; left).
    apply elem_of_cons in H as [<-|H]; [done|done]. }
  apply elem_of_Permutation in Hin as [l2 Hl2].
  exists k, r, tx, ch, msgs, (more ++ l2), pre, sent0, m. split_and!; try done.
  - rewrite Hl2. by rewrite Permutation_middle.
  - apply Forall_app_2; [done|].
    assert (Hp2 : a :: l2 ≡ₚ l').
    { apply (Permutation_cons_inv (a := AWrite k r tx ch msgs)). rewrite <-Hp, Hl2. apply Permutation_swap. }
    rewrite <-Hp2 in Hn. by inversion Hn.
  - destruct (exec_sent _ _ _ _ _ He) as [->|[(? & ? & ? & ? & ? & ? & -> & _)|(? & ? & -> & _ & Hf & _)]];
      [done|done|congruence].
Qed.

Lemma wire_inv_exec c a w w' more l :
  wire_inv w (a :: l) → exec c a w = Some (w', more) → wire_inv w' (more ++ l).
Proof.
  intros [Hl Hw] He. split.
  { intros k r tx ch msgs [Hin|Hin]%elem_of_app; [by eapply exec_lockwrite|].
    eapply Hl. by right. }
  destruct Hw as [(Hm & Hb & Hn)|(Hm & k & r & tx & ch & msgs & l' & pre & sent0 & mc & Hp & Hn & Hb & Es & Ed)].
  - inversion Hn as [|? ? Ha Hn']; subst. pose proof (more_no_write _ _ _ _ _ He) as Hmore.
    pose proof (exec_locks _ _ _ _ _ He) as Hmu.
    destruct (exec_sent _ _ _ _ _ He) as [Es|[(k & r & tx & ch & m & msgs & -> & _)|(tx & code & -> & _ & _ & Es)]].
    + destruct a; try done;
        try (left; rewrite Es, Hmu; split_and!; [done|done|apply Forall_app_2; [by apply Hmore|done]]).
      right. destruct (Hl k r tx ch msgs) as [mc Hmc]; [left|].
      cbn in He. rewrite Hm in He. injection He as <- <-. split; [done|].
      exists k, r, tx, ch, msgs, l, (w_sent w), [], mc. split_and!; try done.
      cbn. by rewrite app_nil_r.
    + done.
    + left. rewrite Es, Hmu. split_and!; [done| |apply Forall_app_2; [by apply Hmore|done]].
      apply blocks_snoc; [done|]. left. by eexists.
  - destruct (is_write a) as [[[[[k0 r0] tx0] ch0] msgs0]|] eqn:Ea.
    + destruct a; cbn in Ea; simplify_eq. by eapply wire_inv_write.
    + right. by eapply wire_inv_other.
Qed.

(** New goroutines hold no lock. *)
Lemma wire_inv_spawn w l t :
  (∀ a, a ∈ t → waiter a = None ∧ is_write a = None) → wire_inv w l → wire_inv w (t ++ l).
Proof.
  intros Hs [Hk Hw]. split.
  - intros k r tx ch msgs [Hin|Hin]%elem_of_app; [by apply Hs in Hin as [? _]|by eapply Hk].
  - assert (Ht : Forall (λ a, is_write a = None) t) by (apply Forall_forall; intros a Ha; by apply Hs).
    destruct Hw as [(? & ? & Hn)|(? & k & r & tx & ch & msgs & l2 & pre & s & m & Hp & Hn & Hrest)].
    + left. split_and!; [done|done|by apply Forall_app_2].
    + right. split; [done|]. exists k, r, tx, ch, msgs, (t ++ l2), pre, s, m.
      split; [by rewrite Hp, Permutation_middle|]. split; [by apply Forall_app_2|done].
Qed.

Lemma wire_inv_reachable w : reachable w → wire_inv w (todo w).
Proof.
  apply device_inv; unfold wire_inv.
  - intros w0 l l' Hl [Hk Hw]. split; [intros k r tx ch msgs Hin; apply (Hk k r tx ch msgs); by rewrite Hl|].
    destruct Hw as [(? & ? & Hn)|(? & k & r & tx & ch & msgs & l2 & pre & s & m & Hp & Hrest)].
    + left. by rewrite <-Hl.
    + right. split; [done|]. exists k, r, tx, ch, msgs, l2, pre, s, m. by rewrite <-Hl.
  - done.
  - done.
  - done.
  - split; [by intros k r tx ch msgs ?%not_elem_of_nil|]. left. split_and!; [done| |done].
    by exists [].
  - intros w0 l t Ht [Hk Hw]. assert (Hs : ∀ a, a ∈ t → waiter a = None ∧ is_write a = None).
    { intros a Ha. destruct Ht; by apply list_elem_of_singleton in Ha as ->. }
    by apply wire_inv_spawn.
  - intros w0 l m Hw. apply (wire_inv_spawn w0 l [AInbound m]); [|done].
    by intros a ->%list_elem_of_singleton.
  - intros w0 l e Hw. apply (wire_inv_spawn w0 l [AReadFailed e]); [|done].
    by intros a ->%list_elem_of_singleton.
  - intros. by eapply wire_inv_exec.
Qed.

(** ** Allocation of identifiers *)

(** The identifier tried after [x], and the one tried [i] times later: the
    search walks round the [2 ^ 32 - 1] non-zero identifiers. *)
Definition id_count : Z := 2 ^ 32 - 1.
Definition next_id (x : Z) (i : nat) : Z := (x + Z.of_nat i) `mod` id_count + 1.

Lemma next_id_step x : 0 ≤ x < 2 ^ 32 →
  (if bool_decide (u32 (x + 1) = 0) then 1 else u32 (x + 1)) = next_id x 0.
Proof.
  intros Hx. unfold next_id, id_count. rewrite Z.add_0_r.
  destruct (decide (x = 2 ^ 32 - 1)) as [->|]; [done|].
  rewrite u32_small by lia. rewrite bool_decide_eq_false_2 by lia. by rewrite Z.mod_small by lia.
Qed.

Lemma next_id_range x i : 0 ≤ next_id x i < 2 ^ 32.
Proof.
  unfold next_id. pose proof (Z.mod_pos_bound (x + Z.of_nat i) id_count eq_refl).
  unfold id_count in *. lia.
Qed.

Lemma next_id_shift x i : next_id (next_id x 0) i = next_id x (S i).
Proof.
  unfold next_id. f_equal. rewrite Z.add_0_r.
  replace (x `mod` id_count + 1 + Z.of_nat i) with (x `mod` id_count + Z.of_nat (S i)) by lia.
  by rewrite Zplus_mod_idemp_l.
Qed.

(** A search that fails met only identifiers in use. *)
Lemma allocate_none n p : ∀ x next,
  0 ≤ x < 2 ^ 32 → allocate n x p = (None, next) → ∀ i, (i < n)%nat → is_Some (p !! next_id x i).
Proof.
  induction n as [|n IH]; intros x next Hx; [lia|]. cbn [allocate]. rewrite next_id_step by done.
  destruct (p !! next_id x 0) eqn:E; [|done]. intros H i Hi. destruct i as [|i]; [by rewrite E|].
  rewrite <-next_id_shift. eapply IH; [apply next_id_range|exact H|lia].
Qed.

Lemma next_id_inj x i j :
  Z.of_nat i < id_count → Z.of_nat j < id_count → next_id x i = next_id x j → i = j.
Proof.
  unfold next_id. intros Hi Hj H. assert (E : (x + Z.of_nat i) `mod` id_count = (x + Z.of_nat j) `mod` id_count) by lia.
  clear H. pose proof (Z.div_mod (x + Z.of_nat i) id_count ltac:(done)).
  pose proof (Z.div_mod (x + Z.of_nat j) id_count ltac:(done)). rewrite E in *.
  unfold id_count in *. nia.
Qed.

Lemma pigeonhole (p : gmap Z pendingTransaction) (f : nat → Z) n :
  (∀ i j, (i < n)%nat → (j < n)%nat → f i = f j → i = j) →
  (∀ i, (i < n)%nat → is_Some (p !! f i)) → (n <= size p)%nat.
Proof.
  intros Hinj Hp. rewrite <-size_dom.
  assert (Hnd : NoDup (f <$> seq 0 n)).
  { apply NoDup_fmap_2_strong; [|apply NoDup_seq].
    intros i j Hi Hj. rewrite elem_of_seq in Hi, Hj. apply Hinj; lia. }
  replace n with (size (list_to_set (C := gset Z) (f <$> seq 0 n))).
  - apply subseteq_size. intros x. rewrite elem_of_list_to_set, list_elem_of_fmap.
    intros (i & -> & Hi). rewrite elem_of_seq in Hi. apply elem_of_dom, Hp. lia.
  - rewrite size_list_to_set by done. by rewrite length_fmap, length_seq.
Qed.

Lemma allocate_total d :
  0 ≤ nextTx d < 2 ^ 32 → Z.of_nat (size (pending d)) < id_count →
  ∃ tx, allocateTransactionIDLocked d = (Some tx, tx) ∧ 1 ≤ tx < 2 ^ 32 ∧ pending d !! tx = None.
Proof.
  intros Hx Hs. unfold allocateTransactionIDLocked.
  destruct (allocate _ _ _) as [[tx|] next] eqn:E.
  - apply allocate_spec in E as (Hp & -> & Hr). by exists next.
  - exfalso. pose proof (allocate_none _ _ _ _ Hx E) as Hall.
    assert (S (size (pending d)) <= size (pending d))%nat; [|lia].
    apply (pigeonhole _ (next_id (nextTx d))); [|done].
    intros i j Hi Hj. apply next_id_inj; lia.
Qed.

(** ** Reassembly through the device *)

(** What [collectFragment] returns for the messages in turn. *)
Fixpoint feed (tx : Z) (indication : bool) (l : list bytes) (d : Device) : list collected * Device :=
  match l with
  | [] => ([], d)
  | m :: l =>
      let '(r, d) := collectFragment tx m indication d in
      let '(rs, d) := feed tx indication l d in
      (r :: rs, d)
  end.

Definition outcome (tx : Z) (c : collector) : collected :=
  match commandDone c with
  | Ok response => Complete response
  | Err e => Rejected (snd (withProtocolTransaction e tx))
  | Panic => Rejected PlainError
  end.

Lemma collect_last c b complete c' tx indication d id :
  collectors d !! tx = Some (mkAssembly id c indication) → fragmentNumber b ≠ Some 0 →
  add c b = Ok (complete, c') →
  ∃ d', collectFragment tx b indication d =
          (if complete : bool then outcome tx c' else Incomplete, d') ∧
    collectors d' = (if complete then delete tx (collectors d)
                     else <[tx := mkAssembly id c' indication]> (collectors d)) ∧
    pending d' = pending d.
Proof.
  intros Hc Hb Ha. unfold collectFragment. rewrite Hc. cbn [fa_indication fa_collector fa_id].
  rewrite eqb_reflx, bool_decide_eq_false_2 by done. cbn [negb orb]. rewrite Ha.
  destruct complete; [|by eexists]. unfold outcome.
  destruct (commandDone c') eqn:E; by eexists.
Qed.

Lemma add_number c b complete c' :
  bytes_ok b → add c b = Ok (complete, c') → c_started c = true → 1 ≤ c_next c →
  fragmentNumber b = Some (c_next c).
Proof.
  intros Hb Ha Hs Hn. pose proof (add_inv _ _ _ _ Ha) as (H12 & H16 & _). rewrite Hs in H16.
  unfold fragmentNumber. unfold add in Ha. revert Ha. unfold headerLen, fragHdrLen.
  case_bool_decide; [done|]. intros _.
  change (12 + 4) with 16. by rewrite H16.
Qed.

Lemma feed_started tx indication bs : ∀ c c' d id,
  Forall bytes_ok bs → c_started c = true → 1 ≤ c_next c < c_total c → c_total c < 2 ^ 32 →
  collect c bs = Ok (true, c') → collectors d !! tx = Some (mkAssembly id c indication) →
  ∃ d', feed tx indication bs d = (replicate (pred (length bs)) Incomplete ++ [outcome tx c'], d') ∧
    collectors d' = delete tx (collectors d) ∧ pending d' = pending d.
Proof.
  induction bs as [|b bs IH]; intros c c' d id Hok Hs Hn Ht; cbn [collect]; [done|].
  apply Forall_cons in Hok as [Hb Hok].
  destruct (add c b) as [[complete c1]| |] eqn:Ha; [|done|done]. cbn [mbind go_bind].
  intros Hcol Hd. pose proof (add_number _ _ _ _ Hb Ha Hs ltac:(lia)) as Hnum.
  destruct (collect_last c b complete c1 tx indication d id Hd) as (d1 & Hf & Hc1 & Hp1);
    [rewrite Hnum; injection; lia|done|].
  apply add_inv in Ha. rewrite Hs in Ha.
  destruct Ha as (_ & _ & Hs1 & Ht1 & Hn1 & E & _ & _). specialize (Ht1 eq_refl).
  rewrite u32_small in Hn1 by lia. cbn [feed]. rewrite Hf.
  destruct complete.
  - destruct bs; [|done]. injection Hcol as <-. exists d1. cbn. by rewrite Hc1.
  - symmetry in E. apply bool_decide_eq_false_1 in E.
    destruct (IH c1 c' d1 id Hok Hs1 ltac:(lia) ltac:(lia) Hcol) as (d' & Hfeed & Hc' & Hp').
    { rewrite Hc1. by rewrite lookup_insert_eq. }
    rewrite Hfeed. exists d'. split_and!; [|by rewrite Hc', Hc1, delete_insert_eq|congruence].
    destruct bs; [done|]. done.
Qed.

Lemma find_first_some {A} (P : A → bool) (l : list A) x :
  x ∈ l → P x = true → ∃ y, find_first P l = Some y.
Proof.
  induction 1 as [x l|x y l Hin IH]; intros Hx; cbn.
  - rewrite Hx. by eexists.
  - destruct (P y); [by eexists|by apply IH].
Qed.

Lemma result_of_some w ch : ch ∈ (w_results w).*1 → ∃ r, result_of w ch = Some r.
Proof.
  intros ([ch' r] & -> & Hin)%list_elem_of_fmap. unfold result_of. cbn.
  destruct (find_first_some (λ x, bool_decide (fst x = ch')) _ _ Hin) as [y ->];
    [by apply bool_decide_eq_true|by eexists].
Qed.

(** ** Indications *)

(** An indication in one fragment, as a device sends it. *)
Definition indicate (service : bytes) (cid : Z) (info : bytes) : bytes :=
  blit 44 info (put_u32 40 (len info) (put_u32 36 cid (blit 20 service (put_u32 12 1
    (putHeader MessageTypeIndicateStatus (44 + len info) 0 (make_bytes (44 + len info))))))).

(** The same message in the shape of a COMMAND_DONE: a status of zero is put
    before the length of the information buffer. *)
Definition shaped (service : bytes) (cid : Z) (info : bytes) : bytes :=
  let m := indicate service cid info in
  blit 44 (fld m 40 (4 + len info))
    (put_u32 4 (48 + len info) (blit 0 (fld m 0 40) (make_bytes (48 + len info)))).

Section Indication.
Context (service : bytes) (cid : Z) (info : bytes).
Hypothesis service_16 : len service = 16.

Ltac wire' := unfold shaped, indicate; wire.

Lemma len_indicate : len (indicate service cid info) = 44 + len info.
Proof. wire'. len_lia. Qed.

Lemma shape_indicate :
  commandDoneShapeIndication (indicate service cid info) = Ok (shaped service cid info).
Proof.
  unfold commandDoneShapeIndication. rewrite len_indicate. pose proof (len_nonneg info).
  unfold headerLen, fragHdrLen, uuidLen. rewrite bool_decide_eq_false_2 by lia.
  rewrite get_u32_Ok by (rewrite ?len_indicate; lia). cbn [mbind go_bind].
  assert (E : fld (indicate service cid info) 16 4 = make_bytes 4) by (wire'; read_field; done).
  change (12 + 4) with 16. rewrite E. change (le_val (make_bytes 4)) with 0.
  rewrite bool_decide_eq_false_2 by tauto. rewrite bool_decide_eq_false_2 by lia.
  rewrite slice_fld, slice_from_fld by (rewrite ?len_indicate; lia). cbn [mbind go_bind mret go_ret].
  rewrite len_indicate, len_make by lia. unfold shaped. cbv zeta.
  replace (44 + len info + 4) with (48 + len info) by lia.
  change (12 + 8 + 16 + 4) with 40. change (40 + 4) with 44.
  by replace (44 + len info - 40) with (4 + len info) by lia.
Qed.

Lemma len_shaped : len (shaped service cid info) = 48 + len info.
Proof. wire'. len_lia. Qed.

Lemma len_tail : len (fld (indicate service cid info) 40 (4 + len info)) = 4 + len info.
Proof. pose proof (len_nonneg info). by rewrite len_fld by (rewrite ?len_indicate; lia). Qed.

Lemma len_head : len (fld (indicate service cid info) 0 40) = 40.
Proof. pose proof (len_nonneg info). by rewrite len_fld by (rewrite ?len_indicate; lia). Qed.

Lemma shaped_low o n :
  12 ≤ o → 0 ≤ n → o + n ≤ 40 →
  fld (shaped service cid info) o n = fld (indicate service cid info) o n.
Proof.
  intros. pose proof (len_nonneg info). unfold shaped. cbv zeta.
  rewrite fld_blit_ne by (rewrite ?len_tail, ?len_put_u32, ?len_blit, ?len_make; lia).
  rewrite fld_put_u32_ne by (rewrite ?len_blit, ?len_make; lia).
  rewrite fld_blit_in by (rewrite ?len_head, ?len_make; lia).
  rewrite fld_fld by lia. f_equal. lia.
Qed.

Lemma shaped_status : fld (shaped service cid info) 40 4 = make_bytes 4.
Proof.
  pose proof (len_nonneg info). unfold shaped. cbv zeta.
  rewrite fld_blit_ne by (rewrite ?len_tail, ?len_put_u32, ?len_blit, ?len_make; lia).
  rewrite fld_put_u32_ne by (rewrite ?len_blit, ?len_make; lia).
  rewrite fld_blit_ne by (rewrite ?len_head, ?len_make; lia).
  by rewrite fld_make by lia.
Qed.

Lemma shaped_high o n :
  44 ≤ o → 0 ≤ n → o + n ≤ 48 + len info →
  fld (shaped service cid info) o n = fld (indicate service cid info) (o - 4) n.
Proof.
  intros. pose proof (len_nonneg info). unfold shaped. cbv zeta.
  rewrite fld_blit_in by (rewrite ?len_tail, ?len_put_u32, ?len_blit, ?len_make; lia).
  rewrite fld_fld by lia. f_equal. lia.
Qed.

Lemma add_shaped :
  add newCollector (shaped service cid info) =
  Ok (true, mkCollector true 1 1 service (u32 cid) 0 (u32 (len info)) info).
Proof.
  pose proof (len_nonneg info). unfold add. rewrite len_shaped.
  unfold headerLen, fragHdrLen, fixedDoneOffset, headerLen, fragHdrLen, uuidLen.
  rewrite bool_decide_eq_false_2 by lia.
  rewrite !get_u32_Ok by (rewrite ?len_shaped; lia).
  cbn [Z.add Pos.add Pos.succ Pos.add_carry].
  assert (E1 : fld (indicate service cid info) 12 4 = le_bytes 4 (u32 1)) by (wire'; read_field; done).
  assert (E2 : fld (indicate service cid info) 16 4 = make_bytes 4) by (wire'; read_field; done).
  assert (E3 : fld (indicate service cid info) 20 16 = service) by (wire'; read_field; done).
  assert (E4 : fld (indicate service cid info) 36 4 = le_bytes 4 (u32 cid)) by (wire'; read_field; done).
  assert (E5 : fld (indicate service cid info) 40 4 = le_bytes 4 (u32 (len info))) by (wire'; read_field; done).
  assert (E6 : fld (indicate service cid info) 44 (len info) = info).
  { wire'. rewrite fld_blit_eq; [done|len_lia..]. }
  rewrite (shaped_low 12), (shaped_low 16), (shaped_low 36), shaped_status, (shaped_high 44), E1, E2, E4
    by lia.
  cbn [mbind go_bind]. rewrite !le_val_u32.
  change (le_val (make_bytes 4)) with 0. change (u32 1) with 1.
  rewrite bool_decide_eq_false_2 by lia. cbn [negb c_started newCollector].
  rewrite bool_decide_eq_false_2 by tauto. rewrite bool_decide_eq_false_2 by lia.
  rewrite slice_fld, slice_from_fld by (rewrite ?len_shaped; lia). cbn [mbind go_bind].
  rewrite len_shaped, (shaped_low 20), shaped_high by lia.
  change (36 - 20) with 16. change (44 - 4) with 40.
  replace (48 + len info - _) with (len info) by lia. change (12 + 8 + 16 + 4 + 4 + 4 - 4) with 44.
  by rewrite E3, E5, E6, le_val_u32.
Qed.

Lemma indicate_headed :
  well_headed MessageTypeIndicateStatus 0 (indicate service cid info).
Proof.
  apply decodeHeader_ok; [wire'; len_lia|..]; wire'; read_u32; try done.
  f_equal. f_equal. len_lia.
Qed.

Lemma collect_shaped d :
  0 ≤ cid < 2 ^ 32 → len info < 2 ^ 32 → collectors d !! 0 = None →
  ∃ d', collectFragment 0 (shaped service cid info) true d =
          (Complete (mkCommandDone service cid 0 info), d') ∧ pending d' = pending d.
Proof.
  intros Hc Hi Hn. pose proof (len_nonneg info).
  unfold collectFragment. rewrite Hn. cbv beta iota zeta. cbn [fa_collector]. rewrite add_shaped.
  assert (E : commandDone (mkCollector true 1 1 service (u32 cid) 0 (u32 (len info)) info) =
    Ok (mkCommandDone service cid 0 info)).
  { unfold commandDone. cbn. rewrite (u32_small cid), (u32_small (len info)) by lia.
    by rewrite bool_decide_eq_false_2 by tauto. }
  rewrite E. by eexists.
Qed.

Lemma handle_indicate :
  handleInboundMessage (indicate service cid info) = [ACollect 0 (shaped service cid info) true].
Proof.
  unfold handleInboundMessage. rewrite indicate_headed. cbn -[indicate shaped].
  rewrite !bool_decide_eq_false_2 by (intros E; repeat destruct E as [E|E]; discriminate E).
  rewrite bool_decide_eq_true_2 by done. by rewrite bool_decide_eq_false_2, shape_indicate by tauto.
Qed.
End Indication.
