(* ===== verification/MbimDeviceTheorems.v ===== *)
(** * What the MBIM device guarantees

    Properties of every interleaving of callers, read loop, timers and close,
    each with a witness: a run of [script]s that reaches a state where its
    hypotheses hold. *)

From S2P Require Import Prelude MbimWire MbimRecords MbimDevice MbimDeviceProofs.

#[local] Open Scope Z_scope.

(** ** Runs *)

(** The transitions of [step], as instructions. *)
Inductive instruction :=
  | ICommand (service : bytes) (cid ct : Z) (info : bytes)
  | IOpen (m : Z) | IClose | ITimer (tx : Z) (id : nat)
  | IThread (i : nat) (c : choice) | IReader (c : choice)
  | IReceive (message : bytes) | IReadError (e : error).

Definition spawn (t : list action) (w : world) : world := set_threads (w_threads w ++ [t]) w.

Definition execute (i : instruction) (w : world) : option world :=
  match i with
  | ICommand service cid ct info => Some (spawn [ABegin WCommand (RCommand service cid ct info) true] w)
  | IOpen m => Some (spawn [AOpen m None] w)
  | IClose => Some (spawn [AClose] w)
  | ITimer tx id => Some (spawn [AExpire tx id] w)
  | IThread n c =>
      match w_threads w !! n with
      | Some (a :: t) =>
          '(w', more) ← exec c a w;
          Some (set_threads (<[n := more ++ t]> (w_threads w)) w')
      | _ => None
      end
  | IReader c =>
      match w_reader w with
      | a :: t => '(w', more) ← exec c a w; Some (set_reader (more ++ t) w')
      | [] => None
      end
  | IReceive m =>
      match w_reader w with
      | [] => if readStarted (w_device w) then Some (set_reader [AInbound m] w) else None
      | _ => None
      end
  | IReadError e =>
      match w_reader w with
      | [] => if readStarted (w_device w) then Some (set_reader [AReadFailed e] w) else None
      | _ => None
      end
  end.

Fixpoint runs (l : list instruction) (w : world) : option world :=
  match l with
  | [] => Some w
  | i :: l => w' ← execute i w; runs l w'
  end.

Lemma execute_step i w w' : execute i w = Some w' → step w w'.
Proof.
  destruct i as [| | | |n c|c| |]; cbn; intros H; try (injection H as <-; repeat constructor).
  - destruct (w_threads w !! n) as [[|a t]|] eqn:E; [done| |done].
    destruct (exec c a w) as [[w1 more]|] eqn:Ee; [|done]. cbn in H. injection H as <-.
    rewrite insert_take_drop by (by eapply lookup_lt_Some).
    eapply step_thread; [|exact Ee]. by rewrite <-(take_drop_middle _ _ _ E) at 1.
  - destruct (w_reader w) as [|a t] eqn:E; [done|].
    destruct (exec c a w) as [[w1 more]|] eqn:Ee; [|done]. cbn in H. injection H as <-.
    by eapply step_reader.
  - destruct (w_reader w) eqn:E; [|done]. destruct (readStarted _) eqn:Er; [|done].
    injection H as <-. by constructor.
  - destruct (w_reader w) eqn:E; [|done]. destruct (readStarted _) eqn:Er; [|done].
    injection H as <-. by constructor.
Qed.

Lemma runs_reachable l : ∀ w w', runs l w = Some w' → rtc step w w'.
Proof.
  induction l as [|i l IH]; intros w w'; cbn; [by intros [= <-]|].
  destruct (execute i w) as [w1|] eqn:E; [|done]. cbn. intros H.
  eapply rtc_l; [by eapply execute_step|by apply IH].
Qed.

Definition after (l : list instruction) : world := default initial (runs l initial).

Lemma run_reachable_after l : reachable (after l).
Proof.
  unfold after, reachable. destruct (runs l initial) as [w|] eqn:E; [|constructor].
  by eapply runs_reachable.
Qed.

(** A device that is opened, runs two commands (one in two fragments), gets a
    response to the second that names another command, and is closed while the
    first one still waits. *)
Module Demo.
Definition service : bytes := make_bytes 16.
Definition reply (mt tx : Z) (m : bytes) : bytes := put_u32 0 mt (put_u32 8 tx m).
Definition open_done (tx : Z) : bytes := putHeader MessageTypeOpenDone 16 tx (make_bytes 16).
Definition close_done (tx : Z) : bytes := putHeader MessageTypeCloseDone 16 tx (make_bytes 16).
Definition thread (i n : nat) : list instruction := replicate n (IThread i Proceed).
Definition reader (n : nat) : list instruction := replicate n (IReader Proceed).
Definition run_opening : list instruction :=
  IOpen 64 :: thread 0 5 ++ [IReceive (open_done 1)] ++ reader 3 ++ thread 0 2.
Definition run_commands : list instruction :=
  run_opening ++ [ICommand service 3 1 (make_bytes 40); ICommand service 4 0 []] ++
  thread 1 5 ++ thread 2 4.
Definition response (tx cid : Z) : bytes :=
  reply MessageTypeCommandDone tx (encodeCommand tx service cid 0 [7; 8]).
Definition run_answered : list instruction :=
  run_commands ++ [IReceive (response 2 3)] ++ reader 4 ++ [IReceive (response 3 5)] ++ reader 6.
Definition run_closing : list instruction :=
  run_commands ++ [IClose] ++ thread 3 10 ++ [IReceive (close_done 4)] ++ reader 3 ++ thread 3 4.
Definition w_commands : world := after run_commands.
Definition w_answered : world := after run_answered.
Definition w_closed : world := after run_closing.
End Demo.
Import Demo.

(** ** Transactions *)

(** C8: each transaction gets at most one result.  In every reachable state no
    result channel was sent to twice, and a channel that was sent to has no
    pending transaction and no goroutine that is about to send to it: the sends
    of the code to its channels of capacity one never block and never get lost. *)
Theorem response_once w :
  reachable w →
  NoDup (w_results w).*1 ∧
  ∀ ch r, (ch, r) ∈ w_results w →
    (∀ tx p, pending (w_device w) !! tx = Some p → p_result p ≠ ch) ∧
    (∀ r', AResult ch r' ∉ todo w).
Proof.
  intros [Hnd _]%chan_inv_reachable. unfold owners in Hnd.
  apply NoDup_app in Hnd as (_ & Hd1 & Hnd). apply NoDup_app in Hnd as (_ & Hd2 & Hnd).
  split; [done|]. intros ch r Hin. assert (Hch : ch ∈ (w_results w).*1).
  { apply list_elem_of_fmap. by exists (ch, r). }
  split.
  - intros tx p Hp E. apply (Hd1 ch); [|apply elem_of_app; by right].
    apply list_elem_of_fmap. exists (tx, p). split; [done|]. by apply elem_of_map_to_list.
  - intros r' Hr. apply (Hd2 ch); [|done]. apply list_elem_of_bind. exists (AResult ch r').
    split; [left|done].
Qed.

Lemma response_once_witness :
  (w_results w_answered).*1 = [0; 1; 2]%nat ∧ NoDup (w_results w_answered).*1.
Proof. split; [by vm_compute|]. apply (response_once w_answered), run_reachable_after. Defined.

(** C7: a response reaches only the call it answers.  In every reachable state a
    successful result on a channel was sent for the one transaction that began
    with that channel, and when that transaction is a command, the response
    names its service and its command identifier, whatever the modem sent. *)
Theorem response_matches w ch resp :
  reachable w → (ch, inl resp) ∈ w_results w →
  ∃ x, (ch, x) ∈ w_began w ∧ (∀ x', (ch, x') ∈ w_began w → x' = x) ∧
    (x_command x = true → cd_Service resp = x_service x ∧ cd_CID resp = x_cid x).
Proof.
  intros (_ & Hd & Hnd & _)%match_inv_reachable Hin.
  destruct (Hd ch resp) as (x & Hx & Hm); [by right|]. exists x. split_and!; [done| |].
  - intros x' Hx'. apply list_elem_of_lookup in Hx as [i Hi].
    apply list_elem_of_lookup in Hx' as [j Hj].
    assert (i = j) as <-; [|by simplify_eq].
    eapply NoDup_lookup; [exact Hnd| |]; rewrite list_lookup_fmap; [by rewrite Hi|by rewrite Hj].
  - intros Hc. unfold commandResponseMismatch in Hm. rewrite Hc in Hm. cbn in Hm.
    apply orb_false_iff in Hm as [H1 H2]. apply negb_false_iff in H1, H2.
    apply bool_decide_eq_true in H1, H2. done.
Qed.

Lemma response_matches_witness :
  ∃ resp x, (1%nat, inl resp) ∈ w_results w_answered ∧ (1%nat, x) ∈ w_began w_answered ∧
    x_command x = true ∧ cd_CID resp = x_cid x.
Proof.
  destruct (response_matches w_answered 1%nat (mkCommandDone service 3 0 [7; 8])) as (x & Hx & Hu & Hm).
  - apply run_reachable_after.
  - vm_compute. right. left.
  - assert (Hb : (1%nat, mkExpectation MessageTypeCommandDone service 3 true) ∈ w_began w_answered)
      by (vm_compute; right; left).
    apply Hu in Hb as <-. exists (mkCommandDone service 3 0 [7; 8]), (mkExpectation MessageTypeCommandDone service 3 true).
    split_and!; [vm_compute; right; left|done|done|by apply Hm].
Defined.

(** C9: nobody is forgotten.  As long as fewer than 2^32 - 1 transactions began,
    a caller that waits on a channel either has its transaction still pending,
    or somebody is about to send to the channel, or its result is there.  Once
    the device is closed and no failure is under way, the transaction is not
    pending: every caller that still waits is woken. *)
Theorem waiter_woken w k tx ch :
  reachable w → Z.of_nat (nextChan (w_device w)) < 2 ^ 32 - 1 → AWait k tx ch ∈ todo w →
  ((∃ x, pending (w_device w) !! tx = Some (mkPending x ch)) ∨
   (∃ r, AResult ch r ∈ todo w) ∨ (∃ r, result_of w ch = Some r)) ∧
  (closed (w_device w) = true → (∀ e, AFail e ∉ todo w) →
   (∃ r, AResult ch r ∈ todo w) ∨ (∃ r, result_of w ch = Some r)).
Proof.
  intros Hr Hlt Hin. pose proof (closed_inv_reachable _ Hr) as Hc.
  destruct (wait_inv_reachable _ Hr Hlt) as (_ & Hp & _ & _ & Hw).
  destruct (Hw _ tx ch Hin eq_refl) as [-> Ho].
  assert (Hor : (∃ x, pending (w_device w) !! Z.of_nat (S ch) = Some (mkPending x ch)) ∨
    (∃ r, AResult ch r ∈ todo w) ∨ (∃ r, result_of w ch = Some r)).
  { apply elem_of_app in Ho as [Ho|[Ho|Ho]%elem_of_app].
    - left. apply list_elem_of_fmap in Ho as ([tx p] & -> & Hin').
      apply elem_of_map_to_list in Hin'. cbn. destruct (Hp _ _ Hin') as [-> _].
      exists (p_expectation p). rewrite Hin'. by destruct p.
    - right; left. apply list_elem_of_bind in Ho as (a & Ha & Ht).
      destruct a; try (by apply not_elem_of_nil in Ha).
      apply list_elem_of_singleton in Ha as ->. by eexists.
    - right; right. by apply result_of_some. }
  split; [done|]. intros Hcl Hf. destruct Hor as [[x Hx]|Hor]; [|done].
  destruct (Hc Hcl) as [E|[e He]]; [by rewrite E in Hx|by apply Hf in He].
Qed.

Lemma waiter_woken_witness :
  AWait WCommand 2 1 ∈ todo w_closed ∧
  ((∃ r, AResult 1 r ∈ todo w_closed) ∨ (∃ r, result_of w_closed 1 = Some r)).
Proof.
  assert (Hin : AWait WCommand 2 1 ∈ todo w_closed) by (vm_compute; left).
  split; [done|]. apply (waiter_woken w_closed WCommand 2 1).
  - apply run_reachable_after.
  - vm_compute. reflexivity.
  - done.
  - vm_compute. reflexivity.
  - intros e He. vm_compute in He.
    repeat (apply elem_of_cons in He as [He|He]; [discriminate He|]). by apply not_elem_of_nil in He.
Defined.

(** Transaction identifiers.  Unless all 2^32 - 1 identifiers are in use at
    the same time, [allocateTransactionIDLocked] finds one: it is not zero, fits
    32 bits and belongs to no pending transaction, although the counter wraps. *)
Theorem allocate_finds_free d :
  0 ≤ nextTx d < 2 ^ 32 → Z.of_nat (size (pending d)) < 2 ^ 32 - 1 →
  ∃ tx, allocateTransactionIDLocked d = (Some tx, tx) ∧ 1 ≤ tx < 2 ^ 32 ∧ pending d !! tx = None.
Proof. apply allocate_total. Qed.

Definition wrapping : Device :=
  let p := mkPending (expectation RClose) 0 in
  mkDevice (2 ^ 32 - 2) (<[2 ^ 32 - 1 := p]> {[1 := p]}) 0 false false false false false false None ∅ 0 0.

Lemma allocate_finds_free_witness :
  allocateTransactionIDLocked wrapping = (Some 2, 2) ∧
  ∃ tx, allocateTransactionIDLocked wrapping = (Some tx, tx) ∧ pending wrapping !! tx = None.
Proof.
  split; [by vm_compute|].
  destruct (allocate_finds_free wrapping) as (tx & ? & _ & ?).
  - vm_compute. split; [discriminate|reflexivity].
  - vm_compute. reflexivity.
  - exists tx. split; assumption.
Defined.

(** ** What is written *)

(** After the CLOSE message no HOST_ERROR is written: in every reachable
    state the messages sent after a CLOSE contain no error message, although
    timers, the read loop and cancelled callers go on reporting errors. *)
Theorem no_host_error_after_close w l1 m l2 h :
  reachable w → w_sent w = l1 ++ SentRequest RClose m :: l2 → SentHostError h ∉ l2.
Proof. intros (Hq & _)%close_inv_reachable E. by eapply Hq. Qed.

Lemma no_host_error_after_close_witness :
  ∃ l1 m l2, w_sent w_closed = l1 ++ SentRequest RClose m :: l2 ∧ ∀ h, SentHostError h ∉ l2.
Proof.
  exists (take 6 (w_sent w_closed)), (encodeClose 4), [].
  assert (E : w_sent w_closed = take 6 (w_sent w_closed) ++ [SentRequest RClose (encodeClose 4)])
    by (vm_compute; reflexivity).
  split; [exact E|]. intros h.
  by apply (no_host_error_after_close w_closed (take 6 (w_sent w_closed)) (encodeClose 4) [] h
    (run_reachable_after run_closing)).
Defined.

(** The fragments of a message are contiguous on the wire.  In every
    reachable state what was written is a sequence of blocks, and each block is
    one error message or an initial run of the fragments that [splitCommand]
    made of one request: no fragment of another message comes in between. *)
Theorem frames_contiguous w : reachable w → blocks (w_sent w).
Proof.
  intros [_ [(_ & Hb & _)|(_ & k & r & tx & ch & msgs & l' & pre & s & m & _ & _ & Hb & -> & E)]]%wire_inv_reachable;
    [done|].
  apply blocks_snoc; [done|]. right. exists r, tx, m, s. split; [done|]. by exists msgs.
Qed.

Lemma frames_contiguous_witness : len (w_sent w_commands) = 4 ∧ blocks (w_sent w_commands).
Proof.
  split; [by vm_compute|]. apply (frames_contiguous w_commands), run_reachable_after.
Defined.

(** ** Reassembly *)

(** C10: the device reassembles what the collector accepts.  When a new collector
    completes with the last of some messages, then handing them to
    [collectFragment] in turn, on a device with no assembly for their
    transaction, says incomplete for all but the last and returns the response
    for the last; the assembly is gone and no transaction was touched. *)
Theorem collect_fragments_refines tx indication bs c d :
  Forall bytes_ok bs → collect newCollector bs = Ok (true, c) → collectors d !! tx = None →
  ∃ d', feed tx indication bs d = (replicate (pred (length bs)) Incomplete ++ [outcome tx c], d') ∧
    collectors d' = collectors d ∧ pending d' = pending d.
Proof.
  destruct bs as [|b bs]; cbn [collect]; [done|]. intros [Hb Hok]%Forall_cons.
  destruct (add newCollector b) as [[complete c1]| |] eqn:Ha; [|done|done]. cbn [mbind go_bind].
  intros Hcol Hd. cbn [feed]. unfold collectFragment. rewrite Hd.
  cbn [fa_collector fa_id fa_indication]. rewrite Ha.
  apply add_inv in Ha as (H12 & _ & Hs1 & _ & Hn1 & E & Hpos & _). cbn in Hn1, Hpos.
  destruct complete.
  - destruct bs; [|done]. injection Hcol as <-. unfold outcome.
    destruct (commandDone c1) eqn:Ec; eexists; cbn; rewrite ?Ec;
      by rewrite delete_insert_id.
  - symmetry in E. apply bool_decide_eq_false_1 in E.
    pose proof (get_u32_range b 12 _ Hb ltac:(lia) H12).
    match goal with |- context [feed _ _ _ ?d1] => set (d0 := d1) end.
    destruct (feed_started tx indication bs c1 c d0 (nextAssembly d)) as (d' & -> & Hc & Hp);
      [done|done|lia|lia|done|by cbn; rewrite lookup_insert_eq|].
    exists d'. split_and!; [|rewrite Hc; cbn; by rewrite delete_insert_eq, delete_insert_id|by rewrite Hp].
    destruct bs; [done|]. done.
Qed.

Lemma collect_fragments_refines_witness :
  len sample_fragments = 2 ∧
  ∃ d', feed 7 false sample_fragments newDevice =
    ([Incomplete; Complete (mkCommandDone (make_bytes 16) 3 1 (make_bytes 40))], d').
Proof.
  split; [by vm_compute|].
  destruct (collect newCollector sample_fragments) as [[b c]| |] eqn:E;
    [|vm_compute in E; discriminate E..].
  destruct (collect_fragments_refines 7 false sample_fragments c newDevice) as (d' & -> & _).
  - apply (bool_decide_eq_true_1 _). vm_compute. reflexivity.
  - rewrite E. vm_compute in E. by injection E as <- _.
  - done.
  - exists d'. vm_compute in E. injection E as _ <-. by vm_compute.
Defined.

(** A repeated first fragment, or a fragment of the other kind, does not
    disturb the reassembly under way: it is refused as a duplicated transaction,
    the device is unchanged, HOST_ERROR is written and reported, and nothing is
    delivered to the caller that waits for the transaction. *)
Theorem duplicate_first_fragment tx message indication a d :
  collectors d !! tx = Some a →
  fragmentNumber message = Some 0 ∨ fa_indication a ≠ indication →
  let e := ProtocolError ProtocolErrorDuplicatedTID tx in
  collectFragment tx message indication d = (Rejected e, d) ∧
  rejectFragment tx e = [AHostError tx ProtocolErrorDuplicatedTID; AReport e].
Proof.
  intros Ha Hor. cbv zeta. split; [|done]. unfold collectFragment. rewrite Ha.
  destruct Hor as [->|Hk].
  - by rewrite bool_decide_eq_true_2, orb_true_r by done.
  - by rewrite (proj2 (eqb_false_iff _ _) Hk).
Qed.

Definition assembling : Device := snd (feed 7 false (take 1 sample_fragments) newDevice).

Lemma duplicate_first_fragment_witness :
  match sample_fragments with
  | b :: _ => collectFragment 7 b false assembling =
      (Rejected (ProtocolError ProtocolErrorDuplicatedTID 7), assembling)
  | [] => False
  end.
Proof.
  destruct sample_fragments as [|b l] eqn:E; [vm_compute in E; discriminate E|].
  destruct (collectors assembling !! 7) as [a|] eqn:Ea; [|vm_compute in Ea; discriminate Ea].
  apply (duplicate_first_fragment 7 b false a); [exact Ea|]. left.
  vm_compute in E. injection E as <- _. by vm_compute.
Defined.

(** An indication reaches the listener as the modem sent it.  A message that
    indicates [service], [cid] and [info] with transaction zero is collected at
    once, the listener's queue gets exactly these three when it has room, and
    when it is full the indication is dropped and reported; no pending
    transaction is touched. *)
Theorem indication_delivered service cid info c w :
  len service = 16 → 0 ≤ cid < 2 ^ 32 → len info < 2 ^ 32 - 44 →
  collectors (w_device w) !! 0 = None →
  ∃ m w' acts,
    handleInboundMessage (indicate service cid info) = [ACollect 0 m true] ∧
    exec c (ACollect 0 m true) w = Some (w', acts) ∧
    pending (w_device w') = pending (w_device w) ∧
    (length (w_indications w) < indicationQueue →
     acts = [] ∧ w_indications w' = w_indications w ++ [mkIndication service cid info])%nat ∧
    (indicationQueue <= length (w_indications w) →
     acts = [AReport PlainError] ∧ w_indications w' = w_indications w)%nat.
Proof.
  intros Hs Hc Hi Hn. pose proof (len_nonneg info). exists (shaped service cid info).
  destruct (collect_shaped service cid info Hs (w_device w) Hc ltac:(lia) Hn) as (d' & E & Hp).
  rewrite (handle_indicate service cid info Hs). cbn [exec]. rewrite E. unfold collected_actions.
  destruct (decide (length (w_indications w) < indicationQueue)%nat).
  - rewrite bool_decide_eq_true_2 by done. do 2 eexists. split_and!; [done..| |lia]. done.
  - rewrite bool_decide_eq_false_2 by done. do 2 eexists. split_and!; [done..|lia|]. cbn.
    by rewrite app_nil_r.
Qed.

Lemma indication_delivered_witness :
  ∃ m w' acts,
    handleInboundMessage (indicate service 9 [1; 2; 3]) = [ACollect 0 m true] ∧
    exec Proceed (ACollect 0 m true) w_commands = Some (w', acts) ∧
    w_indications w' = [mkIndication service 9 [1; 2; 3]].
Proof.
  destruct (indication_delivered service 9 [1; 2; 3] Proceed w_commands) as (m & w' & acts & Hm & He & _ & Hq & _).
  - done.
  - done.
  - done.
  - by vm_compute.
  - exists m, w', acts. split_and!; [exact Hm|exact He|]. destruct Hq as [_ ->]; [|by vm_compute].
    vm_compute. lia.
Defined.

(** ** The timeout of the proxy *)

(** The timeout in the proxy configuration is not a number of seconds.
    [remainingTimeoutSeconds] divides by a second twice, so every time that is
    left before the deadline, from a nanosecond to 999999999 s (more than 31
    years), is told as 0, and a deadline that has passed is told as 1. *)
Theorem proxy_timeout_lost remaining fallback :
  (0 < remaining ≤ 999999999 * Second → remainingTimeoutSeconds (Some remaining) fallback = 0) ∧
  (remaining ≤ 0 → remainingTimeoutSeconds (Some remaining) fallback = 1) ∧
  remainingTimeoutSeconds None defaultProxyOpenTimeout = 0.
Proof.
  split_and!; [| |by vm_compute].
  - intros Hr. unfold remainingTimeoutSeconds, Second in *. cbn [default from_option id].
    rewrite bool_decide_eq_false_2 by lia. cbv zeta. unfold i64. 
    rewrite (signed_id 64 (remaining + _)), signed_id by lia.
    set (s := Z.quot _ _). assert (Hs : 0 ≤ s ≤ 999999999).
    { unfold s. Z.to_euclidean_division_equations. lia. }
    rewrite bool_decide_eq_false_2 by lia. rewrite Z.quot_small by lia. done.
  - intros Hr. unfold remainingTimeoutSeconds. cbn. by rewrite bool_decide_eq_true_2 by lia.
Qed.

Lemma proxy_timeout_lost_witness :
  remainingTimeoutSeconds (Some (30 * Second)) defaultProxyOpenTimeout = 0 ∧
  remainingTimeoutSeconds (Some 0) defaultProxyOpenTimeout = 1.
Proof.
  destruct (proxy_timeout_lost (30 * Second) defaultProxyOpenTimeout) as (H & _).
  destruct (proxy_timeout_lost 0 defaultProxyOpenTimeout) as (_ & H0 & _).
  split; [apply H; vm_compute; split; [reflexivity|discriminate]|apply H0; vm_compute; discriminate].
Defined.
