(* ===== verification/SmsCodec.v ===== *)
(** * SMS transport: RP messages, addresses and TPDU trimming (pkg/smscodec)

    pdu.go (the RP layer, addresses, number tests) and pdu_trim.go.  The
    alphabet of a data coding scheme comes from a third-party package and is a
    parameter.  Texts of errors are not modelled. *)

From S2P Require Import Prelude GoText.
From Stdlib Require Import Ascii String.

#[local] Open Scope Z_scope.

Inductive codec_error := CodecError.

(** ** RP messages *)

Inductive RPDUKind := RPDUKindUnknown | RPDUKindData | RPDUKindAck | RPDUKindError | RPDUKindSMMA.

Record RPDUInfo := mkRPDUInfo { ri_Kind : RPDUKind; ri_RawType : Z; ri_MR : Z; ri_Cause : Z }.

(** A length byte at [i] and the bytes it announces; and the next index. *)
Definition length_value (body : bytes) (i : Z) : go codec_error (bytes * Z) :=
  if bool_decide (i >= len body) then Err CodecError
  else
    n ← idx body i;
    let i := i + 1 in
    if bool_decide (i + n > len body) then Err CodecError
    else v ← slice body i (i + n); Ok (v, i + n).

Definition ParseRPData (body : bytes) : go codec_error (Z * bytes) :=
  if bool_decide (len body < 3) then Err CodecError
  else
    rpMr ← idx body 1;
    da ← length_value body 2;
    oa ← length_value body (snd da);
    ud ← length_value body (snd oa);
    Ok (rpMr, fst ud).

Definition ParseRPErrorCause (body : bytes) : go codec_error Z :=
  if bool_decide (len body < 4) then Err CodecError
  else
    mti ← idx body 0;
    if bool_decide (mti ≠ 0x04) && bool_decide (mti ≠ 0x05) then Err CodecError
    else
      causeIELen ← idx body 2;
      if bool_decide (causeIELen <= 0) then Err CodecError
      else if bool_decide (3 + causeIELen > len body) then Err CodecError
      else cause ← idx body 3; Ok (Z.land cause 0x7F).

Definition ClassifyRPDU (body : bytes) : go codec_error RPDUInfo :=
  match body with
  | [] => Ok (mkRPDUInfo RPDUKindUnknown 0 0 0)
  | mti :: rest =>
      let mr := match rest with mr :: _ => mr | [] => 0 end in
      if bool_decide (mti = 0x00) || bool_decide (mti = 0x01) then
        Ok (mkRPDUInfo RPDUKindData mti mr 0)
      else if bool_decide (mti = 0x02) || bool_decide (mti = 0x03) then
        Ok (mkRPDUInfo RPDUKindAck mti mr 0)
      else if bool_decide (mti = 0x04) || bool_decide (mti = 0x05) then
        match ParseRPErrorCause body with
        | Ok cause => Ok (mkRPDUInfo RPDUKindError mti mr cause)
        | Err _ => Ok (mkRPDUInfo RPDUKindError mti mr 0)
        | Panic => Panic
        end
      else if bool_decide (mti = 0x06) then Ok (mkRPDUInfo RPDUKindSMMA mti mr 0)
      else Ok (mkRPDUInfo RPDUKindUnknown mti mr 0)
  end.

(** ** Addresses *)

(** The two digits of an octet: a digit, nothing for the filler 0xF, an error
    for another value. *)
Definition bcd_digit (d : Z) : option (list Z) :=
  if bool_decide (d <= 9) then Some [48 + d] else if bool_decide (d = 0x0F) then Some [] else None.

Fixpoint bcd_digits (bcd : bytes) : option (list Z) :=
  match bcd with
  | [] => Some []
  | b :: bcd =>
      lo ← bcd_digit (Z.land b 0x0F);
      hi ← bcd_digit (Z.land (Z.shiftr b 4) 0x0F);
      rest ← bcd_digits bcd;
      Some (lo ++ hi ++ rest)
  end.

Definition DecodeAddressValue (v : bytes) : go codec_error string :=
  match v with
  | [] => Err CodecError
  | ton :: bcd =>
      let prefix := if bool_decide (Z.land ton 0x70 = 0x10) then [43] else [] in
      match bcd_digits bcd with
      | Some digits => Ok (string_of (prefix ++ digits))
      | None => Err CodecError
      end
  end.

(** The loop of [EncodeAddress] over the characters of the number: each is
    turned into a digit modulo 256, and ORed into a half of its octet. *)
Fixpoint bcd_encode (number : bytes) : bytes :=
  match number with
  | [] => []
  | [c] => [Z.lor (u8 (c - 48)) 0xF0]
  | c :: c' :: number => Z.lor (u8 (c - 48)) (u8 (Z.shiftl (u8 (c' - 48)) 4)) :: bcd_encode number
  end.

Definition EncodeAddress (number : string) : bytes :=
  let number := TrimSpace number in
  if bool_decide (number = EmptyString) then [0x00]
  else
    let international := HasPrefix number "+" in
    let ton := if international then 0x91 else 0x81 in
    let bcd := bcd_encode (bytes_of (if international then substring 1 (String.length number - 1) number
                                     else number)) in
    u8 (1 + len bcd) :: ton :: bcd.

Definition BuildRPData (rpMr : Z) (tpduBytes : bytes) (smsc : string) : bytes :=
  [0x00; rpMr; 0x00] ++ EncodeAddress smsc ++ [u8 (len tpduBytes)] ++ tpduBytes.

Definition BuildRPAck (rpMr : Z) : bytes := [0x02; rpMr].
Definition BuildRPSMMA (rpMr : Z) : bytes := [0x06; rpMr].
Definition BuildRPError (rpMr cause : Z) : bytes := [0x04; rpMr; 0x01; cause; 0x00].

Definition ParseRPDataWithAddresses (body : bytes) : go codec_error (Z * string * string * bytes) :=
  if bool_decide (len body < 5) then Err CodecError
  else
    rpMr ← idx body 1;
    oa ← length_value body 2;
    oas ← (if bool_decide (len (fst oa) > 0) then go_ignore EmptyString (DecodeAddressValue (fst oa))
           else Ok EmptyString);
    da ← length_value body (snd oa);
    das ← (if bool_decide (len (fst da) > 0) then go_ignore EmptyString (DecodeAddressValue (fst da))
           else Ok EmptyString);
    ud ← length_value body (snd da);
    Ok (rpMr, oas, das, fst ud).

(** ** Texts *)

Inductive SMSEncoding := SMSEncodingAuto | SMSEncodingUCS2.

Definition NormalizeSMSEncoding (unicode_lower : string → string) (raw : string)
    : go codec_error SMSEncoding :=
  let s := ToLower unicode_lower (TrimSpace raw) in
  if bool_decide (s = EmptyString) || bool_decide (s = "auto"%string) then Ok SMSEncodingAuto
  else if bool_decide (s = "ucs2"%string) then Ok SMSEncodingUCS2
  else Err CodecError.

Definition IsHexString (s : string) : bool :=
  if (String.length s <? 2)%nat || negb (Nat.even (String.length s)) then false
  else forallb is_hex_digit (list_ascii_of_string s).

(** [hex.DecodeString] *)
Definition hex_value (a : ascii) : option Z :=
  let n := code a in
  if bool_decide (48 ≤ n ≤ 57) then Some (n - 48)
  else if bool_decide (97 ≤ n ≤ 102) then Some (n - 87)
  else if bool_decide (65 ≤ n ≤ 70) then Some (n - 55)
  else None.

Fixpoint hex_decode (l : list ascii) : option bytes :=
  match l with
  | [] => Some []
  | [_] => None
  | a :: b :: l =>
      hi ← hex_value a; lo ← hex_value b; rest ← hex_decode l;
      Some (16 * hi + lo :: rest)
  end.

Definition DecodeString (s : string) : option bytes := hex_decode (list_ascii_of_string s).

(** [hex.EncodeToString], upper-cased. *)
Definition HEX_digit (d : Z) : ascii := char (if bool_decide (d < 10) then 48 + d else 55 + d).
Definition HexUpper (b : bytes) : string :=
  string_of_list_ascii (List.concat ((λ x, [HEX_digit (x / 16); HEX_digit (x `mod` 16)]) <$> b)).

Definition lower2 (b : Z) : string :=
  let digit d := char (if bool_decide (d < 10) then 48 + d else 87 + d) in
  String (digit (b / 16)) (String (digit (b `mod` 16)) EmptyString).

(** [hex.EncodeToString] *)
Definition EncodeToString (b : bytes) : string := String.concat EmptyString (lower2 <$> b).

Definition DecodeBodyMaybeHex (body : bytes) : go codec_error bytes :=
  let s := TrimSpace (string_of body) in
  if bool_decide (s = EmptyString) then Err CodecError
  else if IsHexString s then
    match DecodeString s with Some b => Ok b | None => Err CodecError end
  else Ok body.

Definition IsDummyMSISDN (value : string) : bool :=
  let s := TrimSpace value in
  let digits := default s (cut_prefix "+" s) in
  if (String.length digits <? 7)%nat || (15 <? String.length digits)%nat then false
  else forallb (Ascii.eqb "0"%char) (list_ascii_of_string digits).

Definition IsShortCode (phone : string) : bool :=
  if HasPrefix phone "+" then false
  else forallb is_digit (list_ascii_of_string phone) && (String.length phone <=? 6)%nat.

(** ** Trimming a TPDU to its declared length *)

Inductive alphabet := Alpha7Bit | Alpha8Bit | AlphaUCS2 | AlphaReserved.
#[global] Instance alphabet_eq_dec : EqDecision alphabet.
Proof. solve_decision. Defined.

Record layout := mkLayout {
  ly_dcs : Z; ly_udl : Z; ly_udOffset : Z; ly_udOctets : Z; ly_alphabet : alphabet;
}.

Section Trim.
(** [tpdu.DCS(dcs).Alphabet()]; [None] is an error. *)
Context (Alphabet : Z → option alphabet).

Definition deliverTPDULayout (t : bytes) : go codec_error (option layout) :=
  if bool_decide (len t < 1) then Ok None
  else
    first ← idx t 0;
    if bool_decide (Z.land first 0x03 ≠ 0) then Ok None
    else if bool_decide (1 + 2 > len t) then Ok None
    else
      oaLen ← idx t 1;
      let oaOctets := (oaLen + 1) / 2 in
      let i := 3 in
      if bool_decide (i + oaOctets > len t) then Ok None
      else
        let i := i + oaOctets in
        if bool_decide (i + 10 > len t) then Ok None
        else
          dcs ← idx t (i + 1);
          let i := i + 2 + 7 in
          udl ← idx t i;
          let i := i + 1 in
          match Alphabet dcs with
          | None => Ok None
          | Some a =>
              let udOctets := if bool_decide (a = Alpha7Bit) then (udl * 7 + 7) / 8 else udl in
              if bool_decide (i + udOctets > len t) then Ok None
              else Ok (Some (mkLayout dcs udl i udOctets a))
          end.

Definition DeliverTPDUDeclaredLength (t : bytes) : go codec_error (option Z) :=
  l ← deliverTPDULayout t;
  match l with
  | None => Ok None
  | Some l =>
      let want := ly_udOffset l + ly_udOctets l in
      if bool_decide (want > len t) then Ok None else Ok (Some want)
  end.

Definition TrimDeliverTPDUToDeclaredLength (t : bytes) : go codec_error (bytes * bool) :=
  want ← DeliverTPDUDeclaredLength t;
  match want with
  | None => Ok (t, false)
  | Some want =>
      if bool_decide (want >= len t) then Ok (t, false)
      else s ← slice t 0 want; Ok (s, true)
  end.

Definition normalizeDeliverTPDUGSM7SpareBits (t : bytes) : go codec_error (bytes * bool) :=
  l ← deliverTPDULayout t;
  match l with
  | None => Ok (t, false)
  | Some l =>
      if bool_decide (ly_alphabet l ≠ Alpha7Bit) || bool_decide (ly_udl l = 0)
         || bool_decide (ly_udOctets l = 0)
      then Ok (t, false)
      else
        let want := ly_udOffset l + ly_udOctets l in
        if bool_decide (want > len t) then Ok (t, false)
        else
          let usedBits := (ly_udl l * 7) `mod` 8 in
          if bool_decide (usedBits = 0) then Ok (t, false)
          else
            let mask := u8 (Z.shiftl 1 usedBits - 1) in
            let last := want - 1 in
            b ← idx t last;
            if bool_decide (Z.land b (Z.lxor mask 0xFF) = 0) then Ok (t, false)
            else Ok (blit last [Z.land b mask] t, true)
  end.

(** [strconv.Atoi] on the text after the last comma: an optional sign and
    decimal digits; a number that does not fit 64 bits is an error. *)
Fixpoint decimal (l : list ascii) (acc : Z) : option Z :=
  match l with
  | [] => Some acc
  | a :: l => if is_digit a then decimal l (10 * acc + (code a - 48)) else None
  end.

Definition Atoi (s : string) : option Z :=
  let '(negative, digits) :=
    match list_ascii_of_string s with
    | a :: l => if Ascii.eqb a "-"%char then (true, l) else if Ascii.eqb a "+"%char then (false, l)
                else (false, a :: l)
    | [] => (false, [])
    end in
  if bool_decide (digits = []) then None
  else
    n ← decimal digits 0;
    let n := if negative : bool then - n else n in
    if bool_decide (- 2 ^ 63 ≤ n < 2 ^ 63) then Some n else None.

(** The number that [strconv.Atoi] returns with or without an error: 0 when the
    text is not a number, and the nearest when it does not fit.  The digits are
    read up to the one that overflows 64 bits. *)
Fixpoint uint_digits (l : list ascii) (n : Z) : option Z :=
  match l with
  | [] => Some n
  | a :: l =>
      if is_digit a then
        let n' := 10 * n + (code a - 48) in
        if bool_decide (2 ^ 64 <= n') then Some (2 ^ 64 - 1) else uint_digits l n'
      else None
  end.

Definition AtoiValue (s : string) : Z :=
  let '(negative, digits) :=
    match list_ascii_of_string s with
    | a :: l => if Ascii.eqb a "-"%char then (true, l) else if Ascii.eqb a "+"%char then (false, l) else (false, a :: l)
    | [] => (false, [])
    end in
  if bool_decide (digits = []) then 0
  else match uint_digits digits 0 with
       | None => 0
       | Some n => if negative : bool then Z.max (- n) (- 2 ^ 63) else Z.min n (2 ^ 63 - 1)
       end.

(** The text after the last comma. *)
Fixpoint after_last_comma (s : string) : option string :=
  match s with
  | EmptyString => None
  | String a r =>
      match after_last_comma r with
      | Some t => Some t
      | None => if Ascii.eqb a ","%char then Some r else None
      end
  end.

Definition ParseATSMSHeaderTPDULength (header : string) : option Z :=
  token ← after_last_comma header;
  if bool_decide (token = EmptyString) then None
  else
    n ← Atoi (TrimSpace token);
    if bool_decide (n < 0) then None else Some n.

(** [int] arithmetic of [want] is in 64 bits. *)
Definition TrimFullPDUHexByTPDULength (pduHex : string) (tpduLen : Z) : go codec_error (string * bool) :=
  let raw := TrimSpace pduHex in
  if bool_decide (raw = EmptyString) || bool_decide (tpduLen < 0) then Ok (raw, false)
  else
    match DecodeString raw with
    | None | Some [] => Ok (raw, false)
    | Some ((smscLen :: _) as b) =>
        let want := i64 (1 + smscLen + tpduLen) in
        if bool_decide (want <= 0) || bool_decide (want > len b)
        then Ok (ToUpper id raw, false)
        else
          full ← slice b 0 want;
          let tpduOffset := 1 + smscLen in
          t ← slice_from full tpduOffset;
          trimmed ← TrimDeliverTPDUToDeclaredLength t;
          if snd trimmed : bool then
            head ← slice full 0 tpduOffset; Ok (HexUpper (head ++ fst trimmed), true)
          else Ok (HexUpper full, bool_decide (want < len b))
    end.

Definition TrimFullPDUHexByATHeader (pduHex header : string) : go codec_error (string * bool) :=
  match ParseATSMSHeaderTPDULength header with
  | None => Ok (TrimSpace pduHex, false)
  | Some n => TrimFullPDUHexByTPDULength pduHex n
  end.
End Trim.
