(* ===== verification/SmsCodecProofs.v ===== *)
(** * Properties of the SMS transport layer *)

From S2P Require Import Prelude GoText SmsCodec.
From stdpp Require Import strings.
From Stdlib Require Import Ascii String.

#[local] Open Scope Z_scope.

(** ** Hexadecimal *)

Lemma concat_cons x l : String.concat EmptyString (x :: l) = (x +:+ String.concat EmptyString l)%string.
Proof. destruct l; cbn [String.concat]; by rewrite ?append_nil, ?append_nil_r. Qed.

Lemma hex_digit_facts d :
  0 ≤ d < 16 → hex_value (char (if bool_decide (d < 10) then 48 + d else 87 + d)) = Some d.
Proof.
  intros Hd. assert (Hall : Forall (λ d, hex_value (char (if bool_decide (d < 10) then 48 + d else 87 + d)) = Some d) (seqZ 0 16)).
  { apply (bool_decide_unpack _). vm_compute. exact I. }
  rewrite Forall_forall in Hall. apply Hall, elem_of_seqZ. lia.
Qed.

Lemma hex_roundtrip b : bytes_ok b → DecodeString (EncodeToString b) = Some b.
Proof.
  unfold DecodeString, EncodeToString. induction 1 as [|x b Hx _ IH]; [done|].
  cbn [fmap list_fmap]. rewrite concat_cons. unfold lower2 at 1. cbv beta zeta.
  rewrite !append_cons, append_nil. cbn [list_ascii_of_string hex_decode].
  unfold byte_ok in Hx. rewrite !hex_digit_facts by (split; zdiv). cbn [mbind option_bind]. 
  rewrite IH. cbn. f_equal. f_equal. zdiv.
Qed.

(** ** Telephone numbers *)

Definition digit_ok (d : Z) : Prop := 48 ≤ d ≤ 57.

#[global] Instance digit_ok_dec d : Decision (digit_ok d).
Proof. unfold digit_ok. apply _. Defined.

(** A number in international or national form. *)
Definition number (international : bool) (digits : list Z) : string :=
  string_of ((if international then [43] else []) ++ digits).

Lemma digits_bytes digits : Forall digit_ok digits → bytes_ok digits.
Proof. intros H. eapply Forall_impl; [exact H|]. unfold digit_ok, byte_ok. lia. Qed.

(** A fact about two small numbers is checked on all of them. *)
Lemma bcd_pair x y :
  0 ≤ x < 10 → 0 ≤ y < 16 →
  Z.land (Z.lor x (u8 (Z.shiftl y 4))) 0x0F = x ∧
  Z.land (Z.shiftr (Z.lor x (u8 (Z.shiftl y 4))) 4) 0x0F = y.
Proof.
  intros Hx Hy.
  assert (H : Forall (λ x, Forall (λ y, Z.land (Z.lor x (u8 (Z.shiftl y 4))) 0x0F = x ∧
    Z.land (Z.shiftr (Z.lor x (u8 (Z.shiftl y 4))) 4) 0x0F = y) (seqZ 0 16)) (seqZ 0 10)).
  { apply (bool_decide_unpack _). vm_compute. exact I. }
  rewrite Forall_forall in H. specialize (H x ltac:(apply elem_of_seqZ; lia)).
  rewrite Forall_forall in H. apply H, elem_of_seqZ. lia.
Qed.

Lemma bcd_digit_ok d : digit_ok d → bcd_digit (u8 (d - 48)) = Some [d].
Proof.
  unfold digit_ok. intros H. rewrite u8_small by lia. unfold bcd_digit.
  rewrite bool_decide_eq_true_2 by lia. do 2 f_equal. lia.
Qed.

(** Packing digits in pairs and unpacking them. *)
Lemma bcd_roundtrip digits : Forall digit_ok digits → bcd_digits (bcd_encode digits) = Some digits.
Proof.
  enough (H : ∀ n digits, (List.length digits <= n)%nat → Forall digit_ok digits →
    bcd_digits (bcd_encode digits) = Some digits) by (intros; by eapply H).
  induction n as [|n IH]; intros [|c [|c' l]] Hn Hd; cbn [List.length] in *; try lia; try done.
  - apply Forall_cons in Hd as [Hc _]. cbn [bcd_encode bcd_digits]. unfold digit_ok in Hc.
    rewrite u8_small by lia. change 0xF0 with (u8 (Z.shiftl 15 4)).
    destruct (bcd_pair (c - 48) 15) as [-> ->]; [lia..|].
    pose proof (bcd_digit_ok c Hc) as E. rewrite u8_small in E by lia. rewrite E. done.
  - apply Forall_cons in Hd as [Hc [Hc' Hd]%Forall_cons]. cbn [bcd_encode bcd_digits].
    pose proof (bcd_digit_ok c Hc) as E. pose proof (bcd_digit_ok c' Hc') as E'.
    unfold digit_ok in Hc, Hc'.
    rewrite (u8_small (c - 48)) in E |- * by lia. rewrite (u8_small (c' - 48)) in E' |- * by lia.
    destruct (bcd_pair (c - 48) (c' - 48)) as [-> ->]; [lia..|]. rewrite E, E'. cbn.
    by rewrite IH by (lia || done).
Qed.

Lemma bcd_encode_len digits : len (bcd_encode digits) = (len digits + 1) / 2.
Proof.
  enough (H : ∀ n digits, (List.length digits <= n)%nat → len (bcd_encode digits) = (len digits + 1) / 2)
    by (by eapply H).
  clear digits. induction n as [|n IH]; intros [|c [|c' l]] Hn; cbn [List.length] in *; try lia; try done.
  cbn [bcd_encode]. rewrite !len_cons, IH by lia.
  replace (1 + (1 + len l) + 1) with (len l + 1 + 1 * 2) by lia. rewrite Z.div_add by lia. lia.
Qed.

Lemma visible_digit d : digit_ok d → visible (char d) = true.
Proof.
  intros H. assert (Hall : Forall (λ d, visible (char d) = true) (seqZ 48 10)).
  { apply (bool_decide_unpack _). vm_compute. exact I. }
  rewrite Forall_forall in Hall. apply Hall, elem_of_seqZ. unfold digit_ok in H. lia.
Qed.

Lemma number_visible international digits :
  Forall digit_ok digits →
  Forall (λ a, visible a = true) (list_ascii_of_string (number international digits)).
Proof.
  intros Hd. unfold number, string_of. rewrite list_ascii_of_string_of_list_ascii, fmap_app.
  apply Forall_app. split; [destruct international; by repeat constructor|].
  apply Forall_fmap. eapply Forall_impl; [exact Hd|]. apply visible_digit.
Qed.

Lemma substring_all s : substring 0 (String.length s) s = s.
Proof. induction s as [|a s IH]; cbn; [done|]. by rewrite IH. Qed.

Lemma char_plus d : digit_ok d → char d ≠ "+"%char.
Proof.
  intros H E. assert (Hc : code (char d) = 43) by (by rewrite E).
  rewrite code_char in Hc by (unfold digit_ok, byte_ok in *; lia). unfold digit_ok in H. lia.
Qed.

Lemma prefix_ne a b s t : a ≠ b → prefix (String a s) (String b t) = false.
Proof. intros H. cbn. by destruct (ascii_dec a b). Qed.

Lemma EncodeAddress_number international digits :
  Forall digit_ok digits → len digits ≤ 508 →
  EncodeAddress (number international digits) =
  if negb international && bool_decide (digits = []) then [0]
  else (1 + len (bcd_encode digits)) :: (if international then 0x91 else 0x81) :: bcd_encode digits.
Proof.
  intros Hd Hl. pose proof (digits_bytes _ Hd) as Hb. unfold EncodeAddress.
  rewrite TrimSpace_visible by by apply number_visible. cbv zeta.
  assert (Hn : u8 (1 + len (bcd_encode digits)) = 1 + len (bcd_encode digits)).
  { apply u8_small. rewrite bcd_encode_len. pose proof (len_nonneg digits).
    Z.to_euclidean_division_equations. lia. }
  destruct international; cbn [negb andb].
  - rewrite bool_decide_eq_false_2 by done. change (HasPrefix (number true digits) "+") with
      (String.prefix "" (string_of digits)).
    replace (prefix "" (string_of digits)) with true by by destruct (string_of digits).
    unfold number. cbn [app]. change (string_of (43 :: digits)) with (String (char 43) (string_of digits)).
    cbn [String.length substring]. rewrite Nat.sub_succ, Nat.sub_0_r, substring_all.
    by rewrite bytes_of_string_of, Hn.
  - unfold number. cbn [app]. destruct digits as [|d digits]; [done|].
    rewrite bool_decide_eq_false_2 by done. rewrite bool_decide_eq_false_2 by done.
    assert (E : HasPrefix (string_of (d :: digits)) "+" = false).
    { apply Forall_cons in Hd as [Hd _]. unfold HasPrefix.
      change (string_of (d :: digits)) with (String (char d) (string_of digits)).
      apply prefix_ne. intros E. by apply (char_plus d Hd). }
    by rewrite E, bytes_of_string_of, Hn.
Qed.

Lemma DecodeAddressValue_number (international : bool) digits :
  Forall digit_ok digits →
  DecodeAddressValue ((if international then 0x91 else 0x81) :: bcd_encode digits) =
  Ok (number international digits).
Proof.
  intros Hd. unfold DecodeAddressValue. rewrite bcd_roundtrip by done. by destruct international.
Qed.

(** ** RP-DATA *)

(** A length byte is followed by what it announces. *)
Lemma length_value_app l n v l' i :
  i = len l → n = len v → length_value (l ++ n :: v ++ l')%list i = Ok (v, i + 1 + n).
Proof.
  intros -> ->. unfold length_value. rewrite len_app, len_cons, len_app.
  pose proof (len_nonneg l). pose proof (len_nonneg l'). pose proof (len_nonneg v).
  rewrite bool_decide_eq_false_2 by lia. rewrite (idx_mid l) by done. cbn [mbind go_bind].
  rewrite bool_decide_eq_false_2 by lia.
  rewrite slice_fld by (rewrite ?len_app, ?len_cons, ?len_app; lia). cbn [mbind go_bind].
  do 2 f_equal. unfold fld, len.
  rewrite drop_app_ge by lia.
  replace (Z.to_nat (Z.of_nat (List.length l) + 1) - List.length l)%nat with 1%nat by lia.
  rewrite skipn_cons, drop_0, take_app_le by lia. apply take_ge. lia.
Qed.

(** C39: what is sent as RP-DATA is read back.  For every reference, every TPDU of
    at most 255 bytes and every service centre number of at most 508 digits, with
    or without a plus sign, the parser gives back the reference, the empty
    originator, the number as it was and the TPDU; the parser without addresses
    agrees; and RP-DATA, RP-ACK, RP-ERROR and RP-SMMA messages are told apart,
    with their reference and the low seven bits of the cause. *)
Theorem rp_data_roundtrip rpMr tpdu international digits cause :
  Forall digit_ok digits → len digits ≤ 508 → len tpdu < 256 →
  let smsc := number international digits in
  let body := BuildRPData rpMr tpdu smsc in
  ParseRPDataWithAddresses body = Ok (rpMr, EmptyString, smsc, tpdu) ∧
  ParseRPData body = Ok (rpMr, tpdu) ∧
  ClassifyRPDU body = Ok (mkRPDUInfo RPDUKindData 0 rpMr 0) ∧
  ClassifyRPDU (BuildRPAck rpMr) = Ok (mkRPDUInfo RPDUKindAck 2 rpMr 0) ∧
  ClassifyRPDU (BuildRPError rpMr cause) = Ok (mkRPDUInfo RPDUKindError 4 rpMr (Z.land cause 0x7F)) ∧
  ClassifyRPDU (BuildRPSMMA rpMr) = Ok (mkRPDUInfo RPDUKindSMMA 6 rpMr 0).
Proof.
  intros Hd Hl Ht. cbv zeta. pose proof (len_nonneg tpdu).
  set (address := EncodeAddress (number international digits)).
  assert (Ha : ∃ v, address = len v :: v ∧
    (if bool_decide (len v > 0) then go_ignore EmptyString (DecodeAddressValue v) else Ok EmptyString)
    = Ok (E:=codec_error) (number international digits)).
  { unfold address. rewrite EncodeAddress_number by done.
    destruct (negb international && bool_decide (digits = [])) eqn:E.
    - apply andb_prop in E as [Ei Ed]. apply bool_decide_eq_true in Ed as ->.
      destruct international; [done|]. by exists [].
    - eexists (_ :: bcd_encode digits). rewrite len_cons. split; [done|].
      pose proof (len_nonneg (bcd_encode digits)). rewrite bool_decide_eq_true_2 by lia.
      by rewrite DecodeAddressValue_number. }
  destruct Ha as (v & Hv & Hdec). unfold BuildRPData. fold address. rewrite Hv.
  rewrite (u8_small (len tpdu)) by lia. pose proof (len_nonneg v).
  set (body := ([0; rpMr; 0] ++ (len v :: v) ++ [len tpdu] ++ tpdu)%list).
  assert (Hb : len body = 5 + len v + len tpdu).
  { unfold body. rewrite !len_app, !len_cons, len_nil. lia. }
  assert (H1 : idx (E:=codec_error) body 1 = Ok rpMr) by (by apply (idx_mid [0])).
  assert (H2 : length_value body 2 = Ok ([], 3)) by (by apply (length_value_app [0; rpMr] 0 [])).
  assert (H3 : length_value body 3 = Ok (v, 4 + len v)).
  { rewrite (length_value_app [0; rpMr; 0] (len v) v ([len tpdu] ++ tpdu)); [|done..].
    done. }
  assert (H4 : length_value body (4 + len v) = Ok (tpdu, 5 + len v + len tpdu)).
  { replace body with (([0; rpMr; 0; len v] ++ v) ++ len tpdu :: tpdu ++ [])%list
      by (unfold body; cbn; by rewrite app_nil_r).
    rewrite length_value_app; [do 2 f_equal; lia|rewrite len_app, !len_cons, len_nil; lia|done]. }
  split_and!; try done.
  - unfold ParseRPDataWithAddresses. rewrite bool_decide_eq_false_2 by lia.
    rewrite H1, H2. cbn [mbind go_bind fst snd]. rewrite bool_decide_eq_false_2 by done.
    cbn [mbind go_bind]. rewrite H3. cbn [mbind go_bind fst snd]. rewrite Hdec. cbn [mbind go_bind].
    by rewrite H4.
  - unfold ParseRPData. rewrite bool_decide_eq_false_2 by lia.
    rewrite H1, H2. cbn [mbind go_bind fst snd]. rewrite H3. cbn [mbind go_bind fst snd].
    by rewrite H4.
Qed.

Lemma rp_data_roundtrip_witness :
  ParseRPDataWithAddresses (BuildRPData 7 [1; 2; 3] (number true [52; 57; 49])) =
  Ok (7, EmptyString, "+491"%string, [1; 2; 3]).
Proof.
  apply (rp_data_roundtrip 7 [1; 2; 3] true [52; 57; 49] 41).
  - apply (bool_decide_unpack _). vm_compute. exact I.
  - vm_compute. discriminate.
  - vm_compute. reflexivity.
Defined.

(** ** Trimming *)

Lemma idx_ext {E A} (l l' : list A) i :
  0 ≤ i < len l → i < len l' → l !! Z.to_nat i = l' !! Z.to_nat i → idx (E:=E) l i = idx l' i.
Proof. intros ?? H. unfold idx. rewrite !bool_decide_eq_true_2 by lia. by rewrite H. Qed.

(** The mask of [n] used bits. *)
Lemma mask_ones n : 0 ≤ n < 8 → u8 (Z.shiftl 1 n - 1) = Z.ones n.
Proof.
  intros H. assert (Hall : Forall (λ u, u8 (Z.shiftl 1 u - 1) = Z.ones u) (seqZ 0 8)).
  { apply (bool_decide_unpack _). vm_compute. exact I. }
  rewrite Forall_forall in Hall. apply Hall, elem_of_seqZ. lia.
Qed.

Section Trimming.
Context (Alphabet : Z → option alphabet).

(** The layout depends on the header only, once the user data is there. *)
Definition header_agrees (n : Z) (t t' : bytes) : Prop :=
  ∀ i, 0 ≤ i < n → t !! Z.to_nat i = t' !! Z.to_nat i.

Lemma layout_inv t l :
  bytes_ok t → deliverTPDULayout Alphabet t = Ok (Some l) →
  13 ≤ ly_udOffset l ∧ 0 ≤ ly_udOctets l ∧ ly_udOffset l + ly_udOctets l ≤ len t ∧
  ∀ t', header_agrees (ly_udOffset l) t t' → ly_udOffset l + ly_udOctets l ≤ len t' →
    deliverTPDULayout Alphabet t' = Ok (Some l).
Proof.
  intros Hb H. unfold deliverTPDULayout in H. case_bool_decide as H1; [done|].
  destruct (idx_Ok (E:=codec_error) t 0) as (first & _ & E0); [lia|]. rewrite E0 in H. cbn [mbind go_bind] in H.
  case_bool_decide as H2; [done|]. case_bool_decide as H3; [done|].
  destruct (idx_Ok (E:=codec_error) t 1) as (oaLen & _ & E1); [lia|]. rewrite E1 in H. cbn [mbind go_bind] in H.
  cbv zeta in H. case_bool_decide as H4; [done|]. case_bool_decide as H5; [done|].
  pose proof (idx_byte _ _ _ Hb E1) as Ho. unfold byte_ok in Ho.
  assert (Hoct : 0 ≤ (oaLen + 1) / 2) by (apply Z.div_pos; lia).
  destruct (idx_Ok (E:=codec_error) t (3 + (oaLen + 1) / 2 + 1)) as (dcs & _ & E2); [lia|].
  rewrite E2 in H. cbn [mbind go_bind] in H.
  destruct (idx_Ok (E:=codec_error) t (3 + (oaLen + 1) / 2 + 2 + 7)) as (udl & _ & E3); [lia|].
  rewrite E3 in H. cbn [mbind go_bind] in H.
  destruct (Alphabet dcs) as [a|] eqn:Ea; [|done].
  pose proof (idx_byte _ _ _ Hb E3) as Hu. unfold byte_ok in Hu.
  case_bool_decide as H6; [done|]. injection H as <-. cbn [ly_udOffset ly_udOctets] in *.
  assert (Hnn : 0 ≤ (if bool_decide (a = Alpha7Bit) then (udl * 7 + 7) / 8 else udl)).
  { case_bool_decide; [apply Z.div_pos|]; lia. }
  split_and!; [lia|done|lia|]. intros t' Ha Hl.
  assert (Hi : ∀ i, 0 ≤ i < 3 + (oaLen + 1) / 2 + 2 + 7 + 1 → idx (E:=codec_error) t' i = idx t i).
  { intros i Hi. symmetry. apply idx_ext; [lia|lia|by apply Ha]. }
  unfold deliverTPDULayout. rewrite bool_decide_eq_false_2 by lia.
  rewrite (Hi 0), E0 by lia. cbn [mbind go_bind]. rewrite (bool_decide_eq_false_2 (Z.land first _ ≠ 0)) by tauto.
  rewrite bool_decide_eq_false_2 by lia. rewrite (Hi 1), E1 by lia. cbn [mbind go_bind]. cbv zeta.
  rewrite bool_decide_eq_false_2 by lia. rewrite bool_decide_eq_false_2 by lia.
  rewrite (Hi (_ + 1)), E2 by lia. cbn [mbind go_bind]. rewrite (Hi (_ + 7)), E3 by lia. cbn [mbind go_bind]. rewrite Ea.
  by rewrite bool_decide_eq_false_2 by lia.
Qed.

Lemma layout_total t : bytes_ok t → ∃ o, deliverTPDULayout Alphabet t = Ok o.
Proof.
  intros Hb. unfold deliverTPDULayout. case_bool_decide; [by eexists|].
  destruct (idx_Ok (E:=codec_error) t 0) as (first & _ & ->); [lia|]. cbn [mbind go_bind].
  do 2 (case_bool_decide; [by eexists|]).
  destruct (idx_Ok (E:=codec_error) t 1) as (oaLen & _ & E1); [lia|]. rewrite E1. cbn [mbind go_bind].
  cbv zeta. do 2 (case_bool_decide; [by eexists|]).
  pose proof (idx_byte _ _ _ Hb E1) as Ho. unfold byte_ok in Ho.
  assert (0 ≤ (oaLen + 1) / 2) by (apply Z.div_pos; lia).
  destruct (idx_Ok (E:=codec_error) t (3 + (oaLen + 1) / 2 + 1)) as (dcs & _ & ->); [lia|].
  cbn [mbind go_bind].
  destruct (idx_Ok (E:=codec_error) t (3 + (oaLen + 1) / 2 + 2 + 7)) as (udl & _ & ->); [lia|].
  cbn [mbind go_bind]. case_match; [|by eexists]. by case_bool_decide; eexists.
Qed.

(** What trimming does. *)
Lemma trim_spec t :
  bytes_ok t →
  TrimDeliverTPDUToDeclaredLength Alphabet t = Ok (t, false) ∨
  ∃ l, deliverTPDULayout Alphabet t = Ok (Some l) ∧ ly_udOffset l + ly_udOctets l < len t ∧
    TrimDeliverTPDUToDeclaredLength Alphabet t =
      Ok (take (Z.to_nat (ly_udOffset l + ly_udOctets l)) t, true).
Proof.
  intros Hb. unfold TrimDeliverTPDUToDeclaredLength, DeliverTPDUDeclaredLength.
  destruct (layout_total t Hb) as [[l|] El]; rewrite El; [|by left].
  cbn [mbind go_bind]. destruct (layout_inv t l Hb El) as (H1 & H2 & H3 & _).
  rewrite bool_decide_eq_false_2 by lia. cbn [mbind go_bind].
  case_bool_decide; [by left|]. right. exists l. split_and!; [done|lia|].
  rewrite slice_fld by lia. cbn [mbind go_bind]. unfold fld. by rewrite Z.sub_0_r.
Qed.

Lemma blit_one (b : bytes) i x :
  0 ≤ i < len b → blit i [x] b = <[Z.to_nat i := x]> b.
Proof.
  intros H. unfold len in H. unfold blit. rewrite insert_take_drop by lia. f_equal. cbn [List.length].
  rewrite (take_ge [x]) by (cbn; lia). cbn. do 2 f_equal. lia.
Qed.

(** The spare bits of what was normalised are clear. *)
Lemma normalize_normal t l x :
  deliverTPDULayout Alphabet t = Ok (Some l) → ly_alphabet l = Alpha7Bit →
  0 < (ly_udl l * 7) `mod` 8 → 0 < ly_udOctets l → ly_udOffset l + ly_udOctets l ≤ len t → 0 ≤ ly_udOffset l →
  t !! Z.to_nat (ly_udOffset l + ly_udOctets l - 1) = Some (x `mod` 2 ^ ((ly_udl l * 7) `mod` 8)) →
  normalizeDeliverTPDUGSM7SpareBits Alphabet t = Ok (t, false).
Proof.
  intros El Ha Hu Ho Hlen Hoff Hx. unfold normalizeDeliverTPDUGSM7SpareBits. rewrite El. cbn [mbind go_bind].
  destruct (bool_decide (ly_alphabet l ≠ Alpha7Bit) || _ || _); [done|]. cbv zeta.
  rewrite bool_decide_eq_false_2 by lia. case_bool_decide; [done|].
  set (used := (ly_udl l * 7) `mod` 8) in *. assert (Hub : used < 8) by (apply Z.mod_pos_bound; lia).
  unfold idx. rewrite bool_decide_eq_true_2 by lia. rewrite Hx. cbn [mbind go_bind].
  rewrite bool_decide_eq_true_2; [done|].
  assert (Hmask : u8 (Z.shiftl 1 used - 1) = Z.ones used) by (apply mask_ones; lia).
  rewrite Hmask, <-(Z.land_ones x) by lia. rewrite <-Z.land_assoc.
  replace (Z.land (Z.ones used) (Z.lxor (Z.ones used) 255)) with 0; [by rewrite Z.land_0_r|].
  assert (Hall : Forall (λ u, Z.land (Z.ones u) (Z.lxor (Z.ones u) 255) = 0) (seqZ 0 8)).
  { apply (bool_decide_unpack _). vm_compute. exact I. }
  rewrite Forall_forall in Hall. symmetry. apply Hall, elem_of_seqZ. lia.
Qed.

(** What clearing the spare bits does. *)
Lemma normalize_spec t :
  bytes_ok t →
  normalizeDeliverTPDUGSM7SpareBits Alphabet t = Ok (t, false) ∨
  ∃ l b, deliverTPDULayout Alphabet t = Ok (Some l) ∧ ly_alphabet l = Alpha7Bit ∧
    0 < (ly_udl l * 7) `mod` 8 ∧ ly_udOffset l < ly_udOffset l + ly_udOctets l ∧
    t !! Z.to_nat (ly_udOffset l + ly_udOctets l - 1) = Some b ∧
    normalizeDeliverTPDUGSM7SpareBits Alphabet t =
      Ok (<[Z.to_nat (ly_udOffset l + ly_udOctets l - 1) := b `mod` 2 ^ ((ly_udl l * 7) `mod` 8)]> t, true).
Proof.
  intros Hb. unfold normalizeDeliverTPDUGSM7SpareBits.
  destruct (layout_total t Hb) as [[l|] El]; rewrite El; [|by left].
  cbn [mbind go_bind]. destruct (layout_inv t l Hb El) as (H1 & H2 & H3 & _).
  destruct (bool_decide (ly_alphabet l ≠ Alpha7Bit) || _ || _) eqn:Ec; [by left|].
  apply orb_false_iff in Ec as [[Ea _]%orb_false_iff Eo].
  apply bool_decide_eq_false in Ea, Eo. apply dec_stable in Ea. cbv zeta.
  rewrite bool_decide_eq_false_2 by lia.
  pose proof (Z.mod_pos_bound (ly_udl l * 7) 8 ltac:(lia)) as Hm. set (used := (ly_udl l * 7) `mod` 8) in *.
  case_bool_decide; [by left|].
  destruct (idx_Ok (E:=codec_error) t (ly_udOffset l + ly_udOctets l - 1)) as (b & Hlk & Hi); [lia|].
  rewrite Hi. cbn [mbind go_bind].
  case_bool_decide; [by left|]. right. exists l, b. fold used. split_and!; [done|done|lia|lia|done|].
  do 2 f_equal. rewrite blit_one by lia. f_equal.
  rewrite mask_ones by lia. by rewrite Z.land_ones by lia.
Qed.
End Trimming.

(** Trimming and normalising a TPDU lose nothing but padding.  For every byte
    string and every alphabet table neither function panics.  Trimming returns a
    prefix, shorter exactly when it says so, and trimming again changes nothing.
    Normalising returns a string of the same length that differs at most in the
    last octet of the user data, whose used bits it keeps and whose spare bits
    it clears; the layout is the same, and normalising again changes nothing. *)
Theorem tpdu_trimming Alphabet t :
  bytes_ok t →
  (∃ t' b, TrimDeliverTPDUToDeclaredLength Alphabet t = Ok (t', b) ∧ t' `prefix_of` t ∧
    (b = true ↔ len t' < len t) ∧ TrimDeliverTPDUToDeclaredLength Alphabet t' = Ok (t', false)) ∧
  ∃ t' b, normalizeDeliverTPDUGSM7SpareBits Alphabet t = Ok (t', b) ∧ len t' = len t ∧
    deliverTPDULayout Alphabet t' = deliverTPDULayout Alphabet t ∧
    normalizeDeliverTPDUGSM7SpareBits Alphabet t' = Ok (t', false) ∧
    (b = false → t' = t) ∧
    (b = true → ∃ l x, deliverTPDULayout Alphabet t = Ok (Some l) ∧
       let last := Z.to_nat (ly_udOffset l + ly_udOctets l - 1) in
       let used := (ly_udl l * 7) `mod` 8 in
       0 < used ∧ t !! last = Some x ∧ t' = <[last := x `mod` 2 ^ used]> t).
Proof.
  intros Hb. split.
  - destruct (trim_spec Alphabet t Hb) as [E|(l & El & Hlt & E)].
    + exists t, false. split_and!; [done|done| |done]. split; [done|lia].
    + destruct (layout_inv Alphabet t l Hb El) as (H1 & H2 & _ & Hext).
      set (n := Z.to_nat (ly_udOffset l + ly_udOctets l)) in *.
      assert (Hn : len (take n t) = ly_udOffset l + ly_udOctets l).
      { rewrite len_take. unfold n. lia. }
      exists (take n t), true. split_and!; [done|apply prefix_take|split; [lia|done]|].
      unfold TrimDeliverTPDUToDeclaredLength, DeliverTPDUDeclaredLength. rewrite Hext.
      * cbn [mbind go_bind]. rewrite bool_decide_eq_false_2 by lia. cbn [mbind go_bind].
        by rewrite bool_decide_eq_true_2 by lia.
      * intros i Hi. symmetry. apply lookup_take_lt. lia.
      * lia.
  - destruct (normalize_spec Alphabet t Hb) as [E|(l & x & El & Ha & Hu & Hoct & Hx & E)].
    + exists t, false. by split_and!.
    + destruct (layout_inv Alphabet t l Hb El) as (H1 & H2 & H3 & Hext).
      set (last := Z.to_nat (ly_udOffset l + ly_udOctets l - 1)) in *.
      set (used := (ly_udl l * 7) `mod` 8) in *.
      assert (Hlen : len (<[last := x `mod` 2 ^ used]> t) = len t) by (unfold len; by rewrite length_insert).
      assert (El' : deliverTPDULayout Alphabet (<[last := x `mod` 2 ^ used]> t) = Ok (Some l)).
      { apply Hext; [|lia]. intros i Hi. rewrite list_lookup_insert_ne by (unfold last; lia). done. }
      exists (<[last := x `mod` 2 ^ used]> t), true. split_and!; [done|done|by rewrite El'| |done|].
      * apply (normalize_normal Alphabet _ l x); [done|done|done|lia|lia|lia|].
        fold last used. apply list_lookup_insert_eq. by eapply lookup_lt_Some.
      * intros _. exists l, x. by split_and!.
Qed.

(** A delivery with nine septets in eight octets, spare bits set and two octets
    of padding. *)
Definition padded_tpdu : bytes :=
  [0x04; 2; 0x81; 0x21; 0; 0; 1; 2; 3; 4; 5; 6; 7; 5; 0xE8; 0x32; 0x9B; 0xFD; 0xFE; 0xFF; 0xFF].

Lemma tpdu_trimming_witness :
  TrimDeliverTPDUToDeclaredLength (λ _, Some Alpha7Bit) padded_tpdu = Ok (take 19 padded_tpdu, true) ∧
  (∃ t', normalizeDeliverTPDUGSM7SpareBits (λ _, Some Alpha7Bit) padded_tpdu = Ok (t', true) ∧
     deliverTPDULayout (λ _, Some Alpha7Bit) t' = deliverTPDULayout (λ _, Some Alpha7Bit) padded_tpdu).
Proof.
  destruct (tpdu_trimming (λ _, Some Alpha7Bit) padded_tpdu) as [(t1 & b1 & E1 & _) (t2 & b2 & E2 & _ & El & _)].
  - apply (bool_decide_unpack _). vm_compute. exact I.
  - split; [vm_compute; reflexivity|]. exists t2. split; [|exact El].
    assert (b2 = true) as ->; [|exact E2]. vm_compute in E2. by injection E2.
Defined.

(** A PDU with its service centre in front keeps both up to the length that the
    header of the message gives, and less when the TPDU declares less. *)
Lemma full_pdu_trimmed Alphabet raw smsc t pad t' b :
  TrimSpace raw = raw → DecodeString raw = Some ((len smsc :: smsc) ++ t ++ pad) → len smsc < 256 → len t < 2 ^ 32 →
  TrimDeliverTPDUToDeclaredLength Alphabet t = Ok (t', b) →
  TrimFullPDUHexByTPDULength Alphabet raw (len t) =
  Ok (HexUpper ((len smsc :: smsc) ++ (if b then t' else t)), if b then true else bool_decide (pad ≠ [])).
Proof.
  intros Hraw Hd Hs Ht Hd'. pose proof (len_nonneg t). pose proof (len_nonneg pad). pose proof (len_nonneg smsc).
  unfold TrimFullPDUHexByTPDULength. rewrite Hraw, Hd. cbv zeta.
  assert (raw ≠ EmptyString) by by intros ->.
  rewrite (bool_decide_eq_false_2 (raw = EmptyString)), (bool_decide_eq_false_2 (len t < 0)) by (done || lia). cbn [orb app].
  assert (Hw : i64 (1 + len smsc + len t) = 1 + len smsc + len t) by (unfold i64; rewrite signed_id; lia). rewrite Hw.
  set (head := len smsc :: smsc). change (len smsc :: smsc ++ t ++ pad) with (head ++ t ++ pad).
  assert (Hh : len head = 1 + len smsc) by apply len_cons. rewrite !len_app, Hh, <-Hh.
  rewrite (bool_decide_eq_false_2 (_ <= 0)), (bool_decide_eq_false_2 (_ > _)) by lia. cbn [orb].
  rewrite app_assoc. rewrite (slice_mid [] (head ++ t) pad 0) by (rewrite ?len_app; change (len (@nil Z)) with 0; lia).
  cbn [mbind go_bind]. rewrite slice_from_drop by (rewrite len_app; lia). cbn [mbind go_bind].
  rewrite <-(length_len head), drop_app_length, Hd'. cbn [mbind go_bind snd fst].
  destruct b.
  - rewrite (slice_mid [] head t 0) by (change (len (@nil Z)) with 0; lia). done.
  - do 2 f_equal. apply bool_decide_ext. split; [intros Hl ->|intros Hp%len_pos]; [change (len (@nil Z)) with 0 in Hl|]; lia.
Qed.
