(* ===== verification/Lines.v ===== *)
(** * Texts in lines, and numbers in decimal

    What the parsers of modem answers share: visible texts are not trimmed,
    decimal digits are read back, and lines that end with CR LF are split. *)

From S2P Require Import Prelude GoText SmsCodec SmsCodecProofs.
From stdpp Require Import strings.
From Stdlib Require Import Ascii String.

#[local] Open Scope Z_scope.

(** ** Visible ends *)

Definition ends_visible (s : string) : Prop := ∃ b u, rev_string s = String b u ∧ visible b = true.

Lemma TrimSpace_ends a s : visible a = true → (∃ b t, rev_string (String a s) = String b t ∧ visible b = true) →
  TrimSpace (String a s) = String a s.
Proof.
  intros Ha (b & t & Hr & Hb). unfold TrimSpace.
  assert (E : TrimLeftSpace (String a s) = String a s) by (apply trim_front_id; by apply first_cut_visible).
  rewrite E. unfold TrimRightSpace. rewrite Hr, trim_front_id by by apply first_cut_visible_rev.
  by rewrite <-Hr, rev_string_involutive.
Qed.

Lemma TrimSpace_one a s : visible a = true → (∃ b t, rev_string (String a s) = String b t ∧ visible b = true) →
  TrimSpace (String " " (String a s)) = String a s.
Proof.
  intros Ha Hr. rewrite <-(TrimSpace_ends a s Ha Hr) at 2. unfold TrimSpace. f_equal.
Qed.

(** Decimal digits for a number that fits an [int]. *)
Definition decimal_text (s : string) (n : Z) : Prop :=
  s ≠ EmptyString ∧ Forall (λ a, is_digit a = true) (list_ascii_of_string s) ∧
  decimal (list_ascii_of_string s) 0 = Some n ∧ n < 2 ^ 63.

Lemma digit_visible a : is_digit a = true → visible a = true.
Proof. destruct a as [[] [] [] [] [] [] [] []]; intros H; (discriminate H || reflexivity). Qed.

Lemma digit_code a : is_digit a = true → 0 <= code a - 48.
Proof. destruct a as [[] [] [] [] [] [] [] []]; intros H; (discriminate H || by vm_compute). Qed.

Lemma decimal_nonneg l : ∀ acc n, 0 <= acc → decimal l acc = Some n → 0 <= n.
Proof.
  induction l as [|a l IH]; intros acc n Hacc; cbn [decimal]; [by intros [= <-]|].
  destruct (is_digit a) eqn:Ha; [|done]. apply IH. pose proof (digit_code a Ha). lia.
Qed.

Lemma Atoi_decimal s n : decimal_text s n → Atoi (TrimSpace s) = Some n.
Proof.
  intros (Hne & Hd & Hn & Hmax). rewrite TrimSpace_visible by (eapply Forall_impl; [exact Hd|apply digit_visible]).
  pose proof (decimal_nonneg _ _ _ (Z.le_refl 0) Hn).
  unfold Atoi. destruct s as [|a s]; [done|]. cbn [list_ascii_of_string] in *.
  assert (Ha : is_digit a = true) by by apply Forall_inv in Hd.
  assert (Ascii.eqb a "-" = false ∧ Ascii.eqb a "+" = false) as [-> ->].
  { clear -Ha. destruct a as [[] [] [] [] [] [] [] []]; (discriminate Ha || done). }
  rewrite bool_decide_eq_false_2 by done. rewrite Hn. cbn.
  by rewrite bool_decide_eq_true_2 by lia.
Qed.

Lemma digits_free s n c : decimal_text s n → is_digit c = false → free_of c s.
Proof. intros (_ & Hd & _) Hc. eapply Forall_impl; [exact Hd|]. by intros a Ha ->; congruence. Qed.

Lemma TrimLeft_visible a s : visible a = true → TrimLeftSpace (String a s) = String a s.
Proof. intros Ha. by apply trim_front_id, first_cut_visible. Qed.

(** ** Lines *)

Definition CR : ascii := ascii_of_nat 13.
Definition LF : ascii := ascii_of_nat 10.

Fixpoint crlf (lines : list string) : string :=
  match lines with
  | [] => EmptyString
  | l :: lines => (l +:+ String CR (String LF (crlf lines)))%string
  end.

Lemma split_crlf lines :
  Forall (λ l, free_of CR l ∧ free_of LF l) lines →
  split_char LF (remove_char CR (crlf lines)) = (lines ++ [EmptyString])%list.
Proof.
  induction 1 as [|l lines [Hc Hl] _ IH]; [done|]. cbn [crlf].
  rewrite remove_char_app by done. cbn [remove_char]. change (Ascii.eqb CR CR) with true. change (Ascii.eqb LF CR) with false.
  cbn match. rewrite split_char_app by done. cbn [app]. by f_equal.
Qed.

Lemma ends_visible_app s t : ends_visible t → ends_visible (s +:+ t).
Proof.
  intros (b & u & Hr & Hb). apply (f_equal list_ascii_of_string) in Hr. rewrite rev_string_list in Hr. cbn in Hr.
  assert (Hl : list_ascii_of_string (rev_string (s +:+ t)) = b :: (list_ascii_of_string u ++ rev (list_ascii_of_string s))%list).
  { by rewrite rev_string_list, list_ascii_app, rev_app_distr, Hr. }
  destruct (rev_string (s +:+ t)) as [|b' u'] eqn:E; [done|]. injection Hl as -> _. by exists b, u'.
Qed.

Lemma ends_visible_cons a t : ends_visible t → ends_visible (String a t).
Proof. intros H. rewrite <-(append_nil t), <-append_cons. by apply ends_visible_app. Qed.

Lemma decimal_ends s n : decimal_text s n → ends_visible s.
Proof.
  intros (Hne & Hd & _). assert (Hr : Forall (λ a, is_digit a = true) (list_ascii_of_string (rev_string s))).
  { rewrite rev_string_list. by apply Forall_rev. }
  destruct (rev_string s) as [|b u] eqn:E.
  - destruct Hne. by rewrite <-(rev_string_involutive s), E.
  - exists b, u. split; [done|]. apply digit_visible. by apply Forall_inv in Hr.
Qed.

(** ** Trimming a character *)

Lemma trim_front_char_free c s : free_of c s → trim_front_char c s = s.
Proof. destruct s as [|a s]; [done|]. intros [Ha _]%Forall_cons. cbn. by rewrite ascii_eqb_neq. Qed.

Lemma TrimRightChar_free c s : free_of c s → TrimRightChar c s = s ∧ TrimRightChar c (s +:+ String c "") = s.
Proof.
  intros Hs. assert (Hr : free_of c (rev_string s)) by (unfold free_of; rewrite rev_string_list; by apply Forall_rev).
  unfold TrimRightChar. split; [|rewrite rev_string_app; change (rev_string (String c EmptyString)) with (String c EmptyString); rewrite append_cons, append_nil; cbn [trim_front_char]; rewrite Ascii.eqb_refl].
  all: by rewrite trim_front_char_free, rev_string_involutive.
Qed.
