(* ===== verification/SmsReassembly.v ===== *)
(** * Long messages: the concatenation reassembler (pkg/smscodec/reassembler.go)

    The fragments of each sender and reference number are kept in the order of
    their arrival until as many as announced are there.  Times are in
    nanoseconds; the zero [time.Time] is 0 and every reading of the clock is
    later. *)

From S2P Require Import Prelude.
From stdpp Require Import strings pretty sorting gmap.
From Stdlib Require Import Ascii.

#[local] Open Scope Z_scope.

Record ConcatInfo := mkConcat {
  IsConcat : bool; Ref : Z; RefBits : Z; Total : Z; Seq : Z;
}.

Record Fragment := mkFragment {
  f_Ref : Z; f_Total : Z; f_Seq : Z; f_Content : string; f_Time : Z;
}.

Abbreviation Reassembler := (gmap string (list Fragment)).

Definition NewReassembler : Reassembler := ∅.

(** [fmt.Sprintf("%s_%d", sender, ref)] *)
Definition key (sender : string) (ref : Z) : string := sender +:+ "_" +:+ pretty ref.

(** The order that [sort.Slice] is given. *)
Definition seq_le (f g : Fragment) : Prop := f_Seq f ≤ f_Seq g.
#[global] Instance seq_le_dec f g : Decision (seq_le f g).
Proof. unfold seq_le. apply _. Defined.

Definition contents (l : list Fragment) : string :=
  foldr (λ f s, f_Content f +:+ s) EmptyString l.

(** [Add] at time [now]: completeness, the whole text, and the cache. *)
Definition Add (sender : string) (concat : ConcatInfo) (content : string) (now : Z) (r : Reassembler)
    : bool * string * Reassembler :=
  if negb (IsConcat concat) then (true, content, r)
  else
    let k := key sender (Ref concat) in
    let fragments := default [] (r !! k) in
    if existsb (λ f, bool_decide (f_Seq f = Seq concat)) fragments then (false, EmptyString, r)
    else
      let fragments :=
        fragments ++ [mkFragment (Ref concat) (Total concat) (Seq concat) content now] in
      let r := <[k := fragments]> r in
      if bool_decide (len fragments ≠ Total concat) then (false, EmptyString, r)
      else (true, contents (merge_sort seq_le fragments), delete k r).

(** The loop of [Cleanup] over the fragments of one message. *)
Definition latest (l : list Fragment) : Z :=
  foldl (λ t f, if bool_decide (f_Time f > t) then f_Time f else t) 0 l.

Definition expired (cutoff : Z) (l : list Fragment) : bool :=
  bool_decide (latest l = 0) || negb (bool_decide (latest l > cutoff)).

(** [Cleanup] at time [now]. *)
Definition Cleanup (ttl now : Z) (r : Reassembler) : Reassembler :=
  filter (λ x, expired (now - ttl) (snd x) = false) r.

(** ** The calls of many senders *)

Record arrival := mkArrival { a_sender : string; a_concat : ConcatInfo; a_content : string; a_now : Z }.

Fixpoint deliveries (l : list arrival) (r : Reassembler) : list (bool * string) * Reassembler :=
  match l with
  | [] => ([], r)
  | a :: l =>
      let '(complete, text, r) := Add (a_sender a) (a_concat a) (a_content a) (a_now a) r in
      let '(rs, r) := deliveries l r in
      ((complete, text) :: rs, r)
  end.

Example two_senders :
  let part s r t q c := mkArrival s (mkConcat true r 8 t q) c 5 in
  fst (deliveries [part "a" 1 2 2 "World"; part "b" 1 2 1 "x"; part "a" 1 2 2 "World";
                   part "a" 1 2 1 "Hello "; part "b" 1 2 2 "y"] NewReassembler)
  = [(false, ""); (false, ""); (false, ""); (true, "Hello World"); (true, "xy")].
Proof. vm_compute. reflexivity. Qed.

(** ** Keys *)

Fixpoint no_underscore (s : string) : Prop :=
  match s with
  | EmptyString => True
  | String a s => a ≠ "_"%char ∧ no_underscore s
  end.

Lemma pretty_N_go_no_underscore x : ∀ s, no_underscore s → no_underscore (pretty_N_go x s).
Proof.
  induction (N.lt_wf_0 x) as [x _ IH]; intros s Hs.
  destruct (decide (x = 0)%N) as [->|]; [by rewrite pretty_N_go_0|].
  rewrite pretty_N_go_step by lia. apply IH; [apply N.div_lt; lia|].
  split; [|done]. unfold pretty_N_char. by repeat case_match.
Qed.

Lemma pretty_no_underscore (z : Z) : no_underscore (pretty z).
Proof.
  assert (H : ∀ n : N, no_underscore (pretty n)).
  { intros n. unfold pretty, pretty_N. case_decide; [by split|]. by apply pretty_N_go_no_underscore. }
  destruct z as [|p|p]; cbn -[pretty_N_go].
  - by split.
  - apply H.
  - split; [done|]. apply H.
Qed.

(** What follows the last underscore determines the two parts. *)
Lemma last_underscore s1 d1 s2 d2 :
  no_underscore d1 → no_underscore d2 → s1 +:+ "_" +:+ d1 = s2 +:+ "_" +:+ d2 → s1 = s2 ∧ d1 = d2.
Proof.
  assert (Hu : ∀ s d, ¬ no_underscore (s +:+ "_" +:+ d)).
  { induction s as [|c s IHs]; cbn; intros d [H1 H2]; [done|by eapply IHs]. }
  intros H1 H2. revert s2. induction s1 as [|a s1 IH]; intros [|b s2]; cbn; intros E; simplify_eq/=.
  - done.
  - change (d1 = s2 +:+ "_" +:+ d2) in H. exfalso. apply (Hu s2 d2). by rewrite <-H.
  - change (s1 +:+ "_" +:+ d1 = d2) in H. exfalso. apply (Hu s1 d1). by rewrite H.
  - apply IH in H as [-> ->]. done.
Qed.

Lemma key_inj s r s' r' : key s r = key s' r' → s = s' ∧ r = r'.
Proof.
  intros H. apply last_underscore in H as [-> H]; [|apply pretty_no_underscore..].
  split; [done|]. by apply (inj pretty).
Qed.

(** ** One message among others *)

Section Message.
Context (sender : string) (ref n : Z) (part : Z → string).

(** A fragment of the message. *)
Definition ours (a : arrival) : bool :=
  IsConcat (a_concat a) && bool_decide (a_sender a = sender) && bool_decide (Ref (a_concat a) = ref).

Definition seqs (l : list arrival) : list Z :=
  (λ a, Seq (a_concat a)) <$> filter (λ a, ours a = true) l.

Definition genuine (a : arrival) : Prop :=
  ours a = true →
  Total (a_concat a) = n ∧ 1 ≤ Seq (a_concat a) ≤ n ∧ a_content a = part (Seq (a_concat a)).

(** The text of the first [m] parts from [i]. *)
Fixpoint text_from (i : Z) (m : nat) : string :=
  match m with O => EmptyString | S m => part i +:+ text_from (i + 1) m end.

Definition kept (r : Reassembler) : list Fragment := default [] (r !! key sender ref).

(** The cache holds what arrived, once. *)
Definition holds (l : list arrival) (r : Reassembler) : Prop :=
  NoDup (f_Seq <$> kept r) ∧ (∀ q, q ∈ f_Seq <$> kept r ↔ q ∈ seqs l) ∧
  Forall (λ g, f_Content g = part (f_Seq g)) (kept r).

Lemma Add_other a r :
  ours a = false →
  (Add (a_sender a) (a_concat a) (a_content a) (a_now a) r).2 !! key sender ref = r !! key sender ref.
Proof.
  unfold ours, Add. destruct (IsConcat (a_concat a)); cbn [negb andb]; [|done].
  intros Ho. assert (Hk : key (a_sender a) (Ref (a_concat a)) ≠ key sender ref).
  { intros [E1 E2]%key_inj. by rewrite !bool_decide_eq_true_2 in Ho. }
  clear Ho. destruct (existsb _ _); [done|]. case_bool_decide; cbn [snd].
  - by rewrite lookup_insert_ne.
  - by rewrite lookup_delete_ne, lookup_insert_ne.
Qed.

Lemma seqs_snoc l a : seqs (l ++ [a]) = seqs l ++ (if ours a then [Seq (a_concat a)] else []).
Proof.
  unfold seqs. rewrite filter_app, fmap_app. f_equal. unfold filter. cbn.
  destruct (ours a) eqn:E; cbn; by case_decide.
Qed.

Lemma existsb_seq l q :
  existsb (λ f, bool_decide (f_Seq f = q)) l = bool_decide (q ∈ f_Seq <$> l).
Proof.
  induction l as [|g l IH]; cbn; [done|]. rewrite IH.
  destruct (decide (f_Seq g = q)) as [E|E].
  - rewrite (bool_decide_eq_true_2 (f_Seq g = q)) by done. symmetry.
    apply bool_decide_eq_true_2. rewrite E. left.
  - rewrite (bool_decide_eq_false_2 (f_Seq g = q)) by done. cbn. apply bool_decide_ext.
    rewrite elem_of_cons. naive_solver.
Qed.

(** A fragment that is kept, and the cache after it. *)
Lemma Add_new l a r :
  holds l r → ours a = true → Total (a_concat a) = n → a_content a = part (Seq (a_concat a)) →
  Seq (a_concat a) ∉ seqs l →
  ∃ fr, NoDup (f_Seq <$> fr) ∧ (∀ q, q ∈ f_Seq <$> fr ↔ q ∈ seqs (l ++ [a])) ∧
    Forall (λ g, f_Content g = part (f_Seq g)) fr ∧
    Add (a_sender a) (a_concat a) (a_content a) (a_now a) r =
      if bool_decide (len fr ≠ n) then (false, EmptyString, <[key sender ref := fr]> r)
      else (true, contents (merge_sort seq_le fr), delete (key sender ref) (<[key sender ref := fr]> r)).
Proof.
  intros (Hnd & Hin & Hc) Ho Hn Hp Hseq.
  exists (kept r ++ [mkFragment ref n (Seq (a_concat a)) (a_content a) (a_now a)]).
  rewrite seqs_snoc, Ho. unfold ours in Ho. apply andb_prop in Ho as [[Hcc Hs]%andb_prop Hr].
  apply bool_decide_eq_true in Hs, Hr. rewrite !fmap_app. cbn. split_and!.
  - apply NoDup_app. split; [done|]. split; [|apply NoDup_singleton].
    intros q Hq ->%list_elem_of_singleton. by apply Hin in Hq.
  - intros q. rewrite !elem_of_app, Hin. done.
  - apply Forall_app. split; [done|]. by constructor.
  - unfold Add. rewrite Hcc. cbn [negb]. rewrite Hs, Hr, Hn, existsb_seq. fold (kept r).
    by rewrite bool_decide_eq_false_2 by (rewrite Hin; done).
Qed.

(** One that is already there. *)
Lemma Add_again l a r :
  holds l r → ours a = true → Seq (a_concat a) ∈ seqs l →
  Add (a_sender a) (a_concat a) (a_content a) (a_now a) r = (false, EmptyString, r).
Proof.
  intros (_ & Hin & _) Ho Hseq. unfold ours in Ho. apply andb_prop in Ho as [[Hcc Hs]%andb_prop Hr].
  apply bool_decide_eq_true in Hs, Hr. unfold Add. rewrite Hcc, Hs, Hr, existsb_seq. cbn [negb].
  fold (kept r). by rewrite bool_decide_eq_true_2 by (rewrite Hin; done).
Qed.
End Message.

(** ** A whole message *)

Section Whole.
Context (sender : string) (ref n : Z) (part : Z → string).

Lemma NoDup_range_length (l : list Z) :
  NoDup l → (∀ q, q ∈ l → 1 ≤ q ≤ n) → (∃ q, 1 ≤ q ≤ n ∧ q ∉ l) → len l < n.
Proof.
  intros Hnd Hin (q & Hq & Hnq). assert (H : q :: l ⊆+ seqZ 1 n).
  { apply NoDup_submseteq; [by constructor|]. intros x [->|Hx]%elem_of_cons; apply elem_of_seqZ; [lia|].
    apply Hin in Hx. lia. }
  apply submseteq_length in H. rewrite length_seqZ in H. unfold len. cbn in H. lia.
Qed.

(** All the sequence numbers, each once. *)
Lemma range_permutation (l : list Z) :
  NoDup l → (∀ q, q ∈ l ↔ 1 ≤ q ≤ n) → l ≡ₚ seqZ 1 n.
Proof.
  intros Hnd Hin. apply NoDup_Permutation; [done|apply NoDup_seqZ|]. intros q.
  rewrite Hin, elem_of_seqZ. lia.
Qed.

Lemma merge_sort_seqs fr :
  f_Seq <$> fr ≡ₚ seqZ 1 n → f_Seq <$> merge_sort seq_le fr = seqZ 1 n.
Proof.
  intros Hp. assert (Htot : stdpp.base.Total seq_le) by (intros f g; unfold seq_le; lia).
  assert (Htr : Transitive seq_le) by (intros f g h; unfold seq_le; lia).
  apply (StronglySorted_unique (≤)).
  - pose proof (StronglySorted_merge_sort seq_le fr) as H.
    induction H as [|f l _ IH Hall]; cbn; constructor; [done|]. by apply Forall_fmap.
  - apply Sorted_StronglySorted; [intros ???; lia|]. unfold seqZ. generalize (Z.to_nat n). clear.
    intros m. generalize 0%nat. induction m as [|m IH]; intros i; cbn; [constructor|].
    constructor; [apply IH|]. destruct m; cbn; constructor. lia.
  - by rewrite merge_sort_Permutation.
Qed.

Lemma contents_text (fr : list Fragment) : ∀ i,
  f_Seq <$> fr = seqZ i (len fr) → Forall (λ g, f_Content g = part (f_Seq g)) fr →
  contents fr = text_from part i (length fr).
Proof.
  induction fr as [|g fr IH]; intros i Hs Hc; [done|]. apply Forall_cons in Hc as [Hg Hc].
  assert (E : seqZ i (len (g :: fr)) = i :: seqZ (i + 1) (len fr)).
  { unfold len. cbn [length]. rewrite seqZ_cons by lia. do 2 f_equal; lia. }
  rewrite E in Hs. cbn in Hs. injection Hs as Hi Hs. cbn. rewrite Hg, Hi. f_equal.
  apply IH; [by rewrite Hs; f_equal; lia|done].
Qed.

Abbreviation ours := (ours sender ref).
Abbreviation seqs := (seqs sender ref).
Abbreviation holds := (holds sender ref part).
Abbreviation genuine := (genuine sender ref n part).
Abbreviation kept := (kept sender ref).

Lemma kept_insert r fr : kept (<[key sender ref := fr]> r) = fr.
Proof. unfold SmsReassembly.kept. by rewrite lookup_insert_eq. Qed.

(** While a part is missing nothing is complete. *)
Lemma Add_partial a l r :
  holds l r → genuine a → (∀ q, q ∈ seqs l → 1 ≤ q ≤ n) →
  (∃ q, 1 ≤ q ≤ n ∧ q ∉ seqs (l ++ [a])) →
  let '(complete, text, r') := Add (a_sender a) (a_concat a) (a_content a) (a_now a) r in
  holds (l ++ [a]) r' ∧ (ours a = true → complete = false ∧ text = EmptyString).
Proof.
  intros Hh Hg Hr (q & Hq & Hmiss). destruct (ours a) eqn:Ho.
  - destruct (Hg Ho) as (Hn & Hs & Hp). destruct (decide (Seq (a_concat a) ∈ seqs l)) as [Hin|Hin].
    + rewrite (Add_again sender ref part l a r Hh Ho Hin). split; [|done].
      destruct Hh as (H1 & H2 & H3). split_and!; [done| |done]. intros x.
      rewrite H2, seqs_snoc, Ho, elem_of_app, list_elem_of_singleton. naive_solver.
    + destruct (Add_new sender ref n part l a r Hh Ho Hn Hp Hin) as (fr & Hnd & Hfr & Hc & ->).
      rewrite bool_decide_eq_true_2.
      * split; [|done]. split_and!; rewrite kept_insert; done.
      * assert (len (f_Seq <$> fr) < n).
        { apply NoDup_range_length; [done| |exists q; by rewrite Hfr].
          intros x. rewrite Hfr, seqs_snoc, Ho, elem_of_app, list_elem_of_singleton.
          intros [Hx| ->]; [by apply Hr|done]. }
        unfold len in *. rewrite length_fmap in *. lia.
  - destruct (Add _ _ _ _ r) as [[c t] r'] eqn:E. split; [|done].
    pose proof (Add_other sender ref a r Ho) as Hk. rewrite E in Hk. cbn in Hk.
    destruct Hh as (H1 & H2 & H3). unfold SmsReassembly.holds, SmsReassembly.kept in *.
    rewrite Hk, seqs_snoc, Ho, app_nil_r. done.
Qed.

Lemma deliveries_app l k r :
  deliveries (l ++ k) r =
  (fst (deliveries l r) ++ fst (deliveries k (snd (deliveries l r))), snd (deliveries k (snd (deliveries l r)))).
Proof.
  revert r. induction l as [|a l IH]; intros r; cbn; [by destruct (deliveries k r)|].
  destruct (Add _ _ _ _ r) as [[c t] r1]. rewrite IH. by destruct (deliveries l r1).
Qed.

Lemma deliveries_length l : ∀ r, length (fst (deliveries l r)) = length l.
Proof.
  induction l as [|a l IH]; intros r; cbn; [done|].
  destruct (Add _ _ _ _ r) as [[c t] r1]. specialize (IH r1). destruct (deliveries l r1). cbn in *. lia.
Qed.

Lemma deliveries_partial l : ∀ p r,
  holds p r → Forall genuine l → (∀ q, q ∈ seqs (p ++ l) → 1 ≤ q ≤ n) →
  (∃ q, 1 ≤ q ≤ n ∧ q ∉ seqs (p ++ l)) →
  holds (p ++ l) (snd (deliveries l r)) ∧
  ∀ i b, l !! i = Some b → ours b = true → fst (deliveries l r) !! i = Some (false, EmptyString).
Proof.
  induction l as [|a l IH]; intros p r Hh Hg Hr Hm; cbn [deliveries].
  { rewrite app_nil_r. split; [done|]. intros i b. by rewrite lookup_nil. }
  apply Forall_cons in Hg as [Ha Hg].
  assert (E : p ++ a :: l = (p ++ [a]) ++ l) by by rewrite <-app_assoc.
  rewrite E in Hr, Hm |- *. clear E.
  assert (Hsub : ∀ q, q ∈ seqs (p ++ [a]) → q ∈ seqs ((p ++ [a]) ++ l)).
  { intros q. unfold SmsReassembly.seqs. rewrite (filter_app _ (p ++ [a])), fmap_app, elem_of_app. by left. }
  assert (Hpre : ∀ q, q ∈ seqs p → q ∈ seqs (p ++ [a])).
  { intros q Hq. rewrite seqs_snoc, elem_of_app. by left. }
  pose proof (Add_partial a p r Hh Ha) as Hadd.
  destruct (Add _ _ _ _ r) as [[c t] r1]. destruct Hadd as [Hh1 Hres].
  { intros q Hq. by apply Hr, Hsub, Hpre. }
  { destruct Hm as (q & Hq & Hnq). exists q. split; [done|]. intros H. by apply Hnq, Hsub. }
  destruct (IH (p ++ [a]) r1 Hh1 Hg Hr Hm) as [Hh2 Hall].
  destruct (deliveries l r1) as [rs r2]. split; [done|]. intros [|i] b Hi Ho; cbn in *.
  - injection Hi as <-. destruct (Hres Ho) as [-> ->]. done.
  - by apply (Hall i b).
Qed.
End Whole.

(** C36: a long message is put together exactly once, whatever the order.  Take any
    sequence of arrivals of any senders that ends with a fragment of the message
    [ref] of [sender], in which the fragments of this message carry the total
    [n] and the text of their number, in any order and with any repetitions,
    every number occurs, and the last one occurs for the first time at the end.
    Then every earlier fragment of the message gives nothing, the last one gives
    the texts of 1 to [n] in order, and the cache has forgotten the message. *)
Theorem message_reassembled sender ref n part l a r :
  r !! key sender ref = None → ours sender ref a = true →
  Forall (genuine sender ref n part) (l ++ [a]) →
  (∀ q, q ∈ seqs sender ref l ↔ 1 ≤ q ≤ n ∧ q ≠ Seq (a_concat a)) →
  let '(rs, r') := deliveries (l ++ [a]) r in
  last rs = Some (true, text_from part 1 (Z.to_nat n)) ∧
  (∀ i b, l !! i = Some b → ours sender ref b = true → rs !! i = Some (false, EmptyString)) ∧
  r' !! key sender ref = None.
Proof.
  intros Hr Ho Hg Hs. apply Forall_app in Hg as [Hg [Ha _]%Forall_cons].
  destruct (Ha Ho) as (Hn & Hseq & Hp).
  destruct (deliveries_partial sender ref n part l [] r) as [Hh Hall].
  - unfold holds, kept. rewrite Hr. cbn. split_and!; [apply NoDup_nil_2|done|done].
  - done.
  - intros q Hq. by apply Hs in Hq as [? _].
  - exists (Seq (a_concat a)). split; [done|]. cbn. rewrite Hs. tauto.
  - rewrite deliveries_app. cbn [deliveries app] in *.
    assert (Hin : Seq (a_concat a) ∉ seqs sender ref l) by (rewrite Hs; tauto).
    destruct (Add_new sender ref n part l a _ Hh Ho Hn Hp Hin) as (fr & Hnd & Hfr & Hc & ->).
    assert (Hperm : f_Seq <$> fr ≡ₚ seqZ 1 n).
    { apply range_permutation; [done|]. intros q. rewrite Hfr, seqs_snoc, Ho, elem_of_app, Hs, list_elem_of_singleton.
      destruct (decide (q = Seq (a_concat a))); naive_solver. }
    assert (Hlen : length fr = Z.to_nat n).
    { apply Permutation_length in Hperm. by rewrite length_fmap, length_seqZ in Hperm. }
    rewrite bool_decide_eq_false_2 by (unfold len; lia). cbn [fst snd]. split_and!.
    + rewrite last_snoc. do 2 f_equal. rewrite (contents_text part _ 1).
      * f_equal. by rewrite merge_sort_Permutation.
      * rewrite (merge_sort_seqs n) by done. f_equal. unfold len. rewrite merge_sort_Permutation. lia.
      * by rewrite merge_sort_Permutation.
    + intros i b Hi Hb. rewrite lookup_app_l; [by eapply Hall|].
      rewrite deliveries_length. by eapply lookup_lt_Some.
    + by rewrite lookup_delete_eq.
Qed.

Definition sample_arrivals : list arrival :=
  let part s t q c := mkArrival s (mkConcat true 1 8 t q) c 5 in
  [part "a" 3 2 "b"; part "x" 2 1 "?"; part "a" 3 3 "c"; part "a" 3 2 "b"]%string.
Definition last_arrival : arrival := mkArrival "a" (mkConcat true 1 8 3 1) "a" 9.

Lemma message_reassembled_witness :
  last (fst (deliveries (sample_arrivals ++ [last_arrival]) NewReassembler)) = Some (true, "abc"%string).
Proof.
  pose (part := λ q, if bool_decide (q = 1) then "a"%string else if bool_decide (q = 2) then "b"%string else "c"%string).
  pose proof (message_reassembled "a" 1 3 part sample_arrivals last_arrival NewReassembler) as H.
  destruct (deliveries _ _) as [rs r'] eqn:E. cbn [fst]. destruct H as [-> _].
  - done.
  - by vm_compute.
  - unfold sample_arrivals, last_arrival. cbn [app].
    repeat (apply Forall_cons_2;
      [intros Ho; first [vm_compute in Ho; discriminate Ho | vm_compute; split_and!; done]|]).
    apply Forall_nil_2.
  - intros q. change (seqs "a" 1 sample_arrivals) with [2; 3; 2]. change (Seq (a_concat last_arrival)) with 1.
    split; [intros Hq; decompose_list_elem_of; lia|]. intros [Hq Hne].
    assert (q = 2 ∨ q = 3) as [-> | ->] by lia; set_solver.
  - by vm_compute.
Defined.
