(* ===== verification/SmsWbxml.v ===== *)
(** * OMA client provisioning: the WBXML decoder (pkg/smscodec/wbxml_omacp.go)

    A provisioning message is binary XML: tags and attributes are tokens of two
    code pages, texts are inline or in a string table.  Strings are byte
    sequences.  The reader is the state; a failed read keeps what it consumed,
    since callers go on after an error.  The recursion of the parser and its
    loops are bounded by [fuel], which runs out with [OutOfFuel].  Slices and
    [make] that are out of range are [Crashed]; [int] has the width of the
    build. *)

From S2P Require Import Prelude GoText SmsCodec.
From stdpp Require Import strings gmap.
From Stdlib Require Import Ascii String.

#[local] Open Scope Z_scope.

(** ** Token tables *)

(** [fmt.Sprintf("%02X", b)] *)
Definition hex2 (b : Z) : string := String (HEX_digit (b / 16)) (String (HEX_digit (b `mod` 16)) EmptyString).

Fixpoint assoc {A} (k : Z) (l : list (Z * A)) : option A :=
  match l with
  | [] => None
  | (k', v) :: l => if bool_decide (k = k') then Some v else assoc k l
  end.

Definition omaCPTagTable (page : Z) : list (Z * string) :=
  if bool_decide (page = 0) then [(0x05, "wap-provisioningdoc"); (0x06, "characteristic"); (0x07, "parm")]%string
  else if bool_decide (page = 1) then [(0x06, "characteristic"); (0x07, "parm")]%string
  else [].

Definition resolveTagName (codePage tagID : Z) : string :=
  default ("tag_0x" +:+ hex2 tagID)%string (assoc tagID (omaCPTagTable codePage)).

Definition omaCPAttrStartPage0 : list (Z * (string * string)) :=
  [
    (0x05, ("name", EmptyString)); (0x06, ("value", EmptyString)); (0x07, ("name", "NAME"));
    (0x08, ("name", "NAP-ADDRESS")); (0x09, ("name", "NAP-ADDRTYPE")); (0x0A, ("name", "CALLTYPE"));
    (0x0B, ("name", "VALIDUNTIL")); (0x0C, ("name", "AUTHTYPE")); (0x0D, ("name", "AUTHNAME"));
    (0x0E, ("name", "AUTHSECRET")); (0x0F, ("name", "LINGER")); (0x10, ("name", "BEARER"));
    (0x11, ("name", "NAPID")); (0x12, ("name", "COUNTRY")); (0x13, ("name", "NETWORK"));
    (0x14, ("name", "INTERNET")); (0x15, ("name", "PROXY-ID"));
    (0x16, ("name", "PROXY-PROVIDER-ID")); (0x17, ("name", "DOMAIN")); (0x18, ("name", "PROVURL"));
    (0x19, ("name", "PXAUTH-TYPE")); (0x1A, ("name", "PXAUTH-ID")); (0x1B, ("name", "PXAUTH-PW"));
    (0x1C, ("name", "STARTPAGE")); (0x1D, ("name", "BASAUTH-ID")); (0x1E, ("name", "BASAUTH-PW"));
    (0x1F, ("name", "PUSHENABLED")); (0x20, ("name", "PXADDR")); (0x21, ("name", "PXADDRTYPE"));
    (0x22, ("name", "TO-NAPID")); (0x23, ("name", "PORTNBR")); (0x24, ("name", "SERVICE"));
    (0x25, ("name", "LINKSPEED")); (0x26, ("name", "DNLINKSPEED")); (0x27, ("name", "LOCAL-ADDR"));
    (0x28, ("name", "LOCAL-ADDRTYPE")); (0x29, ("name", "CONTEXT-ALLOW")); (0x2A, ("name", "TRUST"));
    (0x2B, ("name", "MASTER")); (0x2C, ("name", "SID")); (0x2D, ("name", "SOC"));
    (0x2E, ("name", "WSP-VERSION")); (0x2F, ("name", "PHYSICAL-PROXY-ID"));
    (0x30, ("name", "CLIENT-ID")); (0x31, ("name", "DELIVERY-ERR-SDU"));
    (0x32, ("name", "DELIVERY-ORDER")); (0x33, ("name", "TRAFFIC-CLASS"));
    (0x34, ("name", "MAX-SDU-SIZE")); (0x35, ("name", "MAX-BITRATE-UPLINK"));
    (0x36, ("name", "MAX-BITRATE-DNLINK")); (0x37, ("name", "RESIDUAL-BER"));
    (0x38, ("name", "SDU-ERROR-RATIO")); (0x39, ("name", "TRAFFIC-HANDL-PRIO"));
    (0x3A, ("name", "TRANSFER-DELAY")); (0x3B, ("name", "GUARANTEED-BITRATE-UPLINK"));
    (0x3C, ("name", "GUARANTEED-BITRATE-DNLINK")); (0x3D, ("name", "PXADDR-FQDN"));
    (0x3E, ("name", "PROXY-PW")); (0x3F, ("name", "PPGAUTH-TYPE")) ]%string.

Definition omaCPAttrValuePage0 : list (Z * string) :=
  [
    (0x45, "IPV4"); (0x46, "IPV6"); (0x47, "E164"); (0x48, "ALPHA"); (0x49, "APN"); (0x4A, "SCODE");
    (0x4B, "TETRA-ITSI"); (0x4C, "MAN"); (0x50, "ANALOG-MODEM"); (0x51, "V.120"); (0x52, "V.110");
    (0x53, "X.31"); (0x54, "BIT-TRANSPARENT"); (0x55, "DIRECT-ASYNCHRONOUS-DATA-SERVICE");
    (0x60, "PAP"); (0x61, "CHAP"); (0x62, "HTTP-BASIC"); (0x63, "HTTP-DIGEST"); (0x64, "WTLS-SS");
    (0x65, "MD5"); (0x6A, "GSM-USSD"); (0x6B, "GSM-SMS"); (0x6C, "ANSI-136-GUTS");
    (0x6D, "IS-95-CDMA-SMS"); (0x6E, "IS-95-CDMA-CSD"); (0x6F, "IS-95-CDMA-PACKET");
    (0x70, "ANSI-136-CSD"); (0x71, "ANSI-136-GPRS"); (0x72, "GSM-CSD"); (0x73, "GSM-GPRS");
    (0x74, "AMPS-CDPD"); (0x75, "PDC-CSD"); (0x76, "PDC-PACKET"); (0x77, "IDEN-SMS");
    (0x78, "IDEN-CSD"); (0x79, "IDEN-PACKET"); (0x7A, "FLEX/REFLEX"); (0x7B, "PHS-SMS");
    (0x7C, "PHS-CSD"); (0x7D, "TETRA-SDS"); (0x7E, "TETRA-PACKET"); (0x7F, "ANSI-136-GHOST");
    (0x80, "MOBITEX-MPAK"); (0x81, "CDMA2000-1X-SIMPLE-IP"); (0x82, "CDMA2000-1X-MOBILE-IP");
    (0x85, "AUTOBAUDING"); (0x8A, "CL-WSP"); (0x8B, "CO-WSP"); (0x8C, "CL-SEC-WSP");
    (0x8D, "CO-SEC-WSP"); (0x8E, "CL-SEC-WTA"); (0x8F, "CO-SEC-WTA"); (0x90, "OTA-HTTP-TO");
    (0x91, "OTA-HTTP-TLS-TO"); (0x92, "OTA-HTTP-PO"); (0x93, "OTA-HTTP-TLS-PO"); (0xA0, "PXLOGICAL");
    (0xA1, "PXPHYSICAL"); (0xA2, "PORT"); (0xA3, "VALIDITY"); (0xA4, "NAPDEF"); (0xA5, "BOOTSTRAP");
    (0xA6, "VENDORCONFIG"); (0xA7, "CLIENTIDENTITY"); (0xA8, "PXAUTHINFO"); (0xA9, "NAPAUTHINFO");
    (0xAA, "ACCESS") ]%string.

Definition omaCPAttrStartPage1 : list (Z * (string * string)) :=
  [
    (0x05, ("name", EmptyString)); (0x06, ("value", EmptyString)); (0x07, ("name", "NAME"));
    (0x08, ("name", "INTERNET")); (0x10, ("name", "STARTPAGE")); (0x11, ("name", "TO-NAPID"));
    (0x12, ("name", "PORTNBR")); (0x13, ("name", "SERVICE")); (0x14, ("name", "AACCEPT"));
    (0x15, ("name", "AAUTHDATA")); (0x16, ("name", "AAUTHLEVEL")); (0x17, ("name", "AAUTHNAME"));
    (0x18, ("name", "AAUTHSECRET")); (0x19, ("name", "AAUTHTYPE")); (0x1A, ("name", "ADDR"));
    (0x1B, ("name", "ADDRTYPE")); (0x1C, ("name", "APPID")); (0x1D, ("name", "APROTOCOL"));
    (0x1E, ("name", "PROVIDER-ID")); (0x1F, ("name", "TO-PROXY")); (0x20, ("name", "URI"));
    (0x21, ("name", "RULE")) ]%string.

Definition omaCPAttrValuePage1 : list (Z * string) :=
  [
    (0x45, "IPV4"); (0x46, "IPV6"); (0x50, "APSERVICE"); (0x51, "OTA-HTTP-TO");
    (0x52, "OTA-HTTP-TLS-TO"); (0x53, "OTA-HTTP-PO"); (0x54, "OTA-HTTP-TLS-PO"); (0x55, "25");
    (0x56, "143"); (0x57, "993"); (0x58, "110"); (0x59, "995"); (0x5A, "119"); (0x5B, "563");
    (0x5C, "209"); (0x60, ","); (0x61, "HTTP-"); (0x62, "BASIC"); (0x63, "DIGEST"); (0x90, "w2");
    (0x91, "w4"); (0x92, "w5"); (0x93, "w7"); (0xA0, "PORT"); (0xA1, "CLIENTIDENTITY");
    (0xA2, "APPADDR"); (0xA3, "APPAUTH"); (0xA4, "APPLICATION"); (0xA5, "RESOURCE") ]%string.

(** The entries that [init] adds: the values from 0xA0 up to [last] also start
    a [type] attribute. *)
Definition type_entries (last : Z) (values : list (Z * string)) : list (Z * (string * string)) :=
  (λ x, (fst x, ("type"%string, snd x))) <$> filter (λ x, 0xA0 ≤ fst x ≤ last) values.

Definition resolveAttrStart (codePage token : Z) : string * string :=
  let table :=
    if bool_decide (codePage = 0) then type_entries 0xAA omaCPAttrValuePage0 ++ omaCPAttrStartPage0
    else if bool_decide (codePage = 1) then type_entries 0xA5 omaCPAttrValuePage1 ++ omaCPAttrStartPage1
    else [] in
  default ("attr_0x" +:+ hex2 token, EmptyString)%string (assoc token table).

Definition resolveAttrValue (codePage token : Z) : string :=
  let table :=
    if bool_decide (codePage = 0) then omaCPAttrValuePage0
    else if bool_decide (codePage = 1) then omaCPAttrValuePage1
    else [] in
  default ("[0x" +:+ hex2 token +:+ "]")%string (assoc token table).

(** ** Documents *)

Inductive characteristic :=
  Characteristic (Type_ : string) (Params : gmap string string) (Subs : list characteristic).

Definition ch_Type (c : characteristic) : string := let 'Characteristic t _ _ := c in t.
Definition ch_Params (c : characteristic) : gmap string string := let 'Characteristic _ p _ := c in p.
Definition ch_Subs (c : characteristic) : list characteristic := let 'Characteristic _ _ s := c in s.

Record OmaCPConfig := mkOmaCP { oc_Version : Z * Z; oc_Characteristics : list characteristic }.

(** ** Multi-byte integers in a buffer *)

Inductive mb_result := MBValue (value next : Z) | MBBad (next : Z).

Fixpoint mb_turns (n : nat) (data : bytes) (pos result : Z) : mb_result :=
  match n with
  | O => MBBad pos
  | S n =>
      match data !! Z.to_nat pos with
      | None => MBBad pos
      | Some b =>
          let result := Z.lor (u32 (Z.shiftl result 7)) (Z.land b 0x7F) in
          if bool_decide (Z.land b 0x80 = 0) then MBValue result (pos + 1)
          else mb_turns n data (pos + 1) result
      end
  end.

Definition parseMBUint32At (data : bytes) (start : Z) : mb_result :=
  if bool_decide (start < 0 ∨ start >= len data) then MBBad start else mb_turns 5 data start 0.

Definition isWBXMLHeader (data : bytes) : bool :=
  if bool_decide (len data < 4) then false
  else
    match data with
    | version :: _ =>
        if bool_decide (version < 0x01 ∨ version > 0x03) then false
        else
          match parseMBUint32At data 1 with
          | MBBad _ => false
          | MBValue publicID next =>
              if bool_decide (publicID ≠ 0x0B) then false
              else
                match parseMBUint32At data next with
                | MBBad _ => false
                | MBValue _ next =>
                    match parseMBUint32At data next with
                    | MBBad _ => false
                    | MBValue strTableLen next => bool_decide (next + strTableLen <= len data)
                    end
                end
          end
    | [] => false
    end.

(** The loop of [findWBXMLStart] tries every offset. *)
Fixpoint findWBXMLStart (data : bytes) : option bytes :=
  if isWBXMLHeader data then Some data
  else match data with [] => None | _ :: data => findWBXMLStart data end.

(** ** The reader *)

Record reader := mkReader { rd_pos : Z; rd_tagPage : Z; rd_attrPage : Z }.

Inductive parsed (A : Type) :=
  | Parsed (a : A) (r : reader)
  | Failed (r : reader)
  | Crashed
  | OutOfFuel.
Arguments Parsed {A} a r.
Arguments Failed {A} r.
Arguments Crashed {A}.
Arguments OutOfFuel {A}.

(** [x, err := m; if err != nil { return err }] *)
Definition check {A B} (m : parsed A) (k : A → reader → parsed B) : parsed B :=
  match m with
  | Parsed a r => k a r
  | Failed r => Failed r
  | Crashed => Crashed
  | OutOfFuel => OutOfFuel
  end.

(** [x, _ := m]: after an error [x] is the zero value [d]. *)
Definition ignore {A B} (d : A) (m : parsed A) (k : A → reader → parsed B) : parsed B :=
  match m with
  | Parsed a r => k a r
  | Failed r => k d r
  | Crashed => Crashed
  | OutOfFuel => OutOfFuel
  end.

Definition at_pos (p : Z) (r : reader) : reader := mkReader p (rd_tagPage r) (rd_attrPage r).
Definition set_tagPage (p : Z) (r : reader) : reader := mkReader (rd_pos r) p (rd_attrPage r).
Definition set_attrPage (p : Z) (r : reader) : reader := mkReader (rd_pos r) (rd_tagPage r) p.

(** The bytes before the first zero. *)
Fixpoint cstring (b : bytes) : bytes :=
  match b with
  | [] => []
  | x :: b => if bool_decide (x = 0x00) then [] else x :: cstring b
  end.

Definition wbxmlSwitchPage : Z := 0x00.
Definition wbxmlEnd : Z := 0x01.
Definition wbxmlStrI : Z := 0x03.
Definition wbxmlStrT : Z := 0x83.
Definition wbxmlOpaque : Z := 0xC3.
Definition wbxmlHasContent : Z := 0x40.
Definition wbxmlHasAttrs : Z := 0x80.

Section Reader.
Context `{IntSize} (data : bytes).

Definition eof (r : reader) : bool := bool_decide (rd_pos r >= len data).

Definition readByte (r : reader) : parsed Z :=
  if eof r then Failed r
  else
    match idx (E:=codec_error) data (rd_pos r) with
    | Ok b => Parsed b (at_pos (rd_pos r + 1) r)
    | _ => Crashed
    end.

Fixpoint mb_loop (n : nat) (result : Z) (r : reader) : parsed Z :=
  match n with
  | O => Failed r
  | S n =>
      check (readByte r) (λ b r,
        let result := Z.lor (u32 (Z.shiftl result 7)) (Z.land b 0x7F) in
        if bool_decide (Z.land b 0x80 = 0) then Parsed result r else mb_loop n result r)
  end.

Definition readMBUint32 (r : reader) : parsed Z := mb_loop 5 0 r.

(** [readStrI]: the terminator is skipped when it is there. *)
Definition readStrI (r : reader) : string * reader :=
  let s := cstring (drop (Z.to_nat (rd_pos r)) data) in
  let pos := rd_pos r + len s in
  (string_of s, at_pos (if bool_decide (pos >= len data) then pos else pos + 1) r).

Definition readBytes (n : Z) (r : reader) : parsed bytes :=
  if bool_decide (int (rd_pos r + n) > len data) then Failed r
  else if bool_decide (n < 0) then Crashed
  else
    match slice (E:=codec_error) data (rd_pos r) (rd_pos r + n) with
    | Ok b => Parsed b (at_pos (rd_pos r + n) r)
    | _ => Crashed
    end.

Section Body.
Context (strTable : bytes).

(** [readStrT]; [None] is an index out of range. *)
Definition readStrT (offset : Z) : option string :=
  if bool_decide (int offset >= len strTable) then Some EmptyString
  else if bool_decide (int offset < 0) then None
  else Some (string_of (cstring (drop (Z.to_nat offset) strTable))).

(** [parseAttributes]: the attributes, and the name and the value of the one
    that is being read. *)
Definition flushAttr (attrs : gmap string string) (name value : string) : gmap string string :=
  if bool_decide (name = EmptyString) then attrs else <[name := TrimSpace value]> attrs.

Fixpoint parseAttributes (fuel : nat) (attrs : gmap string string) (name value : string) (r : reader)
    : parsed (gmap string string) :=
  if eof r then Parsed (flushAttr attrs name value) r
  else
    match fuel with
    | O => OutOfFuel
    | S fuel =>
        match readByte r with
        | Failed r => Parsed (flushAttr attrs name value) r
        | Crashed => Crashed
        | OutOfFuel => OutOfFuel
        | Parsed b r =>
            if bool_decide (b = wbxmlEnd) then Parsed (flushAttr attrs name value) r
            else if bool_decide (b = wbxmlSwitchPage) then
              match readByte r with
              | Failed r => Parsed (flushAttr attrs name value) r
              | Parsed page r => parseAttributes fuel attrs name value (set_attrPage page r)
              | Crashed => Crashed
              | OutOfFuel => OutOfFuel
              end
            else if bool_decide (b = wbxmlStrI) then
              let '(s, r) := readStrI r in
              parseAttributes fuel attrs name (value +:+ s) r
            else if bool_decide (b = wbxmlStrT) then
              ignore 0 (readMBUint32 r) (λ offset r,
                match readStrT offset with
                | Some s => parseAttributes fuel attrs name (value +:+ s) r
                | None => Crashed
                end)
            else if bool_decide (b = wbxmlOpaque) then
              ignore 0 (readMBUint32 r) (λ length r,
                ignore [] (readBytes (int length) r) (λ _ r, parseAttributes fuel attrs name value r))
            else
              let v := resolveAttrValue (rd_attrPage r) b in
              let is_value := negb (bool_decide (v = EmptyString)) && negb (HasPrefix v "[0x") in
              if negb (bool_decide (name = EmptyString)) && is_value then
                parseAttributes fuel attrs name (value +:+ v) r
              else
                let '(entryName, entryVal) := resolveAttrStart (rd_attrPage r) b in
                if negb (bool_decide (entryName = EmptyString)) && negb (HasPrefix entryName "attr_") then
                  parseAttributes fuel (flushAttr attrs name value) entryName entryVal r
                else if is_value then parseAttributes fuel attrs name (value +:+ v) r
                else parseAttributes fuel attrs name value r
        end
    end.

(** The element that [parseElement] makes of a tag name, its attributes, its
    children and its text. *)
Definition is_parm (c : characteristic) : bool := bool_decide (ch_Type c = "__parm__"%string).

Definition build_element (tagName : string) (attrs : gmap string string)
    (children : list characteristic) (text : string) : option characteristic :=
  if bool_decide (tagName = "characteristic"%string) then
    Some (Characteristic (default EmptyString (attrs !! "type"%string))
      (foldl (λ m c, if is_parm c then ch_Params c ∪ m else m) ∅ children)
      (filter (λ c, is_parm c = false) children))
  else if bool_decide (tagName = "parm"%string) then
    let name := default EmptyString (attrs !! "name"%string) in
    let value := default EmptyString (attrs !! "value"%string) in
    let name := if bool_decide (name = EmptyString) then text else name in
    if bool_decide (TrimSpace name = EmptyString) then None
    else Some (Characteristic "__parm__" {[ name := value ]} [])
  else if bool_decide (tagName = "wap-provisioningdoc"%string) then
    match children with [] => None | _ => Some (Characteristic "wap-provisioningdoc" ∅ children) end
  else None.

(** [parseElement] and the loop over the content of an element. *)
Fixpoint parseElement (fuel : nat) (r : reader) : parsed (option characteristic) :=
  match fuel with
  | O => OutOfFuel
  | S fuel =>
      check (readByte r) (λ b r,
        if bool_decide (b = wbxmlSwitchPage) then
          check (readByte r) (λ page r, parseElement fuel (set_tagPage page r))
        else if bool_decide (b = wbxmlEnd) then Failed r
        else
          let tagName := resolveTagName (rd_tagPage r) (Z.land b 0x3F) in
          check (if bool_decide (Z.land b wbxmlHasAttrs ≠ 0)
                 then parseAttributes fuel ∅ EmptyString EmptyString r else Parsed ∅ r)
            (λ attrs r,
              check (if bool_decide (Z.land b wbxmlHasContent ≠ 0)
                     then parseContent fuel [] EmptyString r else Parsed ([], EmptyString) r)
                (λ content r, Parsed (build_element tagName attrs (fst content) (snd content)) r)))
  end
with parseContent (fuel : nat) (children : list characteristic) (text : string) (r : reader)
    : parsed (list characteristic * string) :=
  match fuel with
  | O => OutOfFuel
  | S fuel =>
      if eof r then Parsed (children, text) r
      else
        match idx (E:=codec_error) data (rd_pos r) with
        | Ok peek =>
            let next := at_pos (rd_pos r + 1) r in
            if bool_decide (peek = wbxmlEnd) then Parsed (children, text) next
            else if bool_decide (peek = wbxmlStrI) then
              let '(s, r) := readStrI next in parseContent fuel children (text +:+ s) r
            else if bool_decide (peek = wbxmlStrT) then
              ignore 0 (readMBUint32 next) (λ offset r,
                match readStrT offset with
                | Some s => parseContent fuel children (text +:+ s) r
                | None => Crashed
                end)
            else if bool_decide (peek = wbxmlOpaque) then
              ignore 0 (readMBUint32 next) (λ length r,
                ignore [] (readBytes (int length) r) (λ _ r, parseContent fuel children text r))
            else if bool_decide (peek = wbxmlSwitchPage) then
              ignore 0 (readByte next) (λ page r, parseContent fuel children text (set_tagPage page r))
            else
              match parseElement fuel r with
              | Parsed (Some c) r => parseContent fuel (children ++ [c]) text r
              | Parsed None r => parseContent fuel children text r
              | Failed r => Parsed (children, text) r
              | Crashed => Crashed
              | OutOfFuel => OutOfFuel
              end
        | _ => Crashed
        end
  end.

(** The loop of [decodeWBXML] over the elements of the body. *)
Fixpoint body (turns fuel : nat) (acc : list characteristic) (r : reader) : parsed (list characteristic) :=
  match turns with
  | O => OutOfFuel
  | S turns =>
      if eof r then Parsed acc r
      else
        match parseElement fuel r with
        | Parsed (Some c) r => body turns fuel (acc ++ [c]) r
        | Parsed None r => body turns fuel acc r
        | Failed r => Parsed acc r
        | Crashed => Crashed
        | OutOfFuel => OutOfFuel
        end
  end.
End Body.

(** [decodeWBXML]: the turns and the fuel are enough for any buffer. *)
Definition wbxml_fuel : nat := 2 * List.length data + 2.

Definition decodeWBXML : parsed OmaCPConfig :=
  check (readByte (mkReader 0 0 0)) (λ version r,
  check (readMBUint32 r) (λ publicID r,
  if bool_decide (publicID ≠ 0x0B) then Failed r
  else
    check (readMBUint32 r) (λ _ r,
    check (readMBUint32 r) (λ strTableLen r,
    check (if bool_decide (strTableLen > 0) then readBytes (int strTableLen) r else Parsed [] r)
      (λ strTable r,
      check (body strTable (S (List.length data)) wbxml_fuel [] r) (λ chars r,
        match chars with
        | [] => Failed r
        | _ => Parsed (mkOmaCP (u8 (Z.shiftr version 4 + 1), Z.land version 0x0F) chars) r
        end)))))).
End Reader.

Definition DecodeOmaCPFromTPDU `{IntSize} (data : bytes) : parsed OmaCPConfig :=
  if bool_decide (len data < 4) then Failed (mkReader 0 0 0)
  else
    match findWBXMLStart data with
    | None => Failed (mkReader 0 0 0)
    | Some w => decodeWBXML w
    end.
