(* ===== verification/SmsWbxmlProofs.v ===== *)
(** * Properties of the provisioning decoder: termination, safety, documents *)

From S2P Require Import Prelude GoText SmsCodec SmsCodecProofs SmsWbxml.
From stdpp Require Import strings gmap.
From Stdlib Require Import Ascii String.

#[local] Open Scope Z_scope.

Section Total.
Context `{IntSize} (data : bytes).
Context (bits_64 : int_bits = 64) (data_ok : bytes_ok data) (data_len : len data < 2 ^ 62).

Definition in_range (r : reader) : Prop := 0 ≤ rd_pos r ≤ len data.

(** The read neither crashes nor runs out of fuel, stays in the buffer, and
    takes at least [n] bytes when it succeeds. *)
Definition advances {A} (n : Z) (r : reader) (m : parsed A) : Prop :=
  match m with
  | Parsed _ r' => in_range r' ∧ rd_pos r + n ≤ rd_pos r'
  | Failed r' => in_range r' ∧ rd_pos r ≤ rd_pos r'
  | Crashed | OutOfFuel => False
  end.

Lemma check_advances {A B} n k r (m : parsed A) (f : A → reader → parsed B) :
  advances n r m → (∀ a r', m = Parsed a r' → in_range r' → rd_pos r + n ≤ rd_pos r' → advances k r' (f a r')) →
  0 ≤ n → 0 ≤ k → advances (n + k) r (check m f).
Proof.
  intros Hm Hf Hn Hk. destruct m as [a r'|r'| |]; cbn in *; [|tauto..].
  destruct Hm as [H1 H2]. specialize (Hf a r' eq_refl H1 H2). revert Hf. unfold advances.
  destruct (f a r'); intuition lia.
Qed.

Lemma ignore_advances {A B} d n k r (m : parsed A) (f : A → reader → parsed B) :
  advances n r m → (∀ a r', in_range r' → rd_pos r ≤ rd_pos r' → advances k r' (f a r')) →
  0 ≤ n → 0 ≤ k → advances k r (ignore d m f).
Proof.
  intros Hm Hf Hn Hk. destruct m as [a r'|r'| |]; cbn in *; [..|tauto|tauto]; destruct Hm as [H1 H2].
  - specialize (Hf a r' H1 ltac:(lia)). revert Hf. unfold advances. destruct (f a r'); intuition lia.
  - specialize (Hf d r' H1 ltac:(lia)). revert Hf. unfold advances. destruct (f d r'); intuition lia.
Qed.

Lemma advances_weaken {A} n k r (m : parsed A) : advances n r m → k ≤ n → advances k r m.
Proof. unfold advances. destruct m; intuition lia. Qed.

Lemma advances_from {A} n k r r' (m : parsed A) :
  advances n r' m → rd_pos r ≤ rd_pos r' → k + rd_pos r ≤ n + rd_pos r' → advances k r m.
Proof. unfold advances. destruct m; intuition lia. Qed.

Lemma readByte_ok r : in_range r → advances 1 r (readByte data r) ∧
  ∀ b r', readByte data r = Parsed b r' → 0 ≤ b < 256 ∧ rd_pos r' = rd_pos r + 1 ∧ rd_pos r < len data.
Proof.
  intros Hr. unfold in_range in Hr. unfold readByte, eof. case_bool_decide as He.
  - split; [|done]. cbn. unfold in_range. lia.
  - destruct (idx_Ok (E:=codec_error) data (rd_pos r)) as (b & _ & Hb); [lia|]. rewrite Hb. split.
    + cbn. unfold in_range. cbn. lia.
    + intros b' r' [= <- <-]. split; [by eapply idx_byte|]. cbn. lia.
Qed.

Lemma readByte_advances r : in_range r → advances 1 r (readByte data r).
Proof. apply readByte_ok. Qed.

Lemma mb_advances n : ∀ result r, in_range r → advances 0 r (mb_loop data n result r).
Proof.
  induction n as [|n IH]; intros result r Hr; cbn [mb_loop]; [cbn; unfold in_range in *; lia|].
  eapply advances_weaken; [eapply (check_advances 1 0); [by apply readByte_advances| |lia|lia]|lia].
  intros b r' _ Hr' _. case_bool_decide; [cbn; unfold in_range in *; lia|by apply IH].
Qed.

Lemma mb_range n : ∀ result r v r',
  0 ≤ result < 2 ^ 32 → mb_loop data n result r = Parsed v r' → 0 ≤ v < 2 ^ 32.
Proof.
  induction n as [|n IH]; intros result r v r' Hres; cbn [mb_loop]; [done|].
  destruct (readByte data r) as [b r1| | |]; cbn [check]; try done.
  set (x := Z.lor _ _). assert (Hx : 0 ≤ x < 2 ^ 32).
  { assert (Hl : 0 ≤ Z.land b 127 < 2 ^ 32).
    { change 127 with (Z.ones 7). rewrite Z.land_ones by lia.
      pose proof (Z.mod_pos_bound b (2 ^ 7) eq_refl). lia. }
    apply lor_range; [done|apply u32_range|done]. }
  case_bool_decide; [by intros [= <- <-]|by apply IH].
Qed.

Lemma readMB_advances r : in_range r → advances 0 r (readMBUint32 data r).
Proof. apply mb_advances. Qed.

Lemma readMB_range r v r' : readMBUint32 data r = Parsed v r' → 0 ≤ v < 2 ^ 32.
Proof. by apply mb_range. Qed.

Lemma cstring_len b : len (cstring b) ≤ len b.
Proof.
  induction b as [|x b IH]; cbn; [done|]. case_bool_decide; rewrite ?len_cons, ?len_nil in *;
    pose proof (len_nonneg b); lia.
Qed.

Lemma readStrI_range r s r' :
  in_range r → readStrI data r = (s, r') → in_range r' ∧ rd_pos r ≤ rd_pos r'.
Proof.
  unfold in_range, readStrI. intros Hr [= _ <-]. cbn [rd_pos at_pos].
  pose proof (cstring_len (drop (Z.to_nat (rd_pos r)) data)) as Hl.
  pose proof (len_nonneg (cstring (drop (Z.to_nat (rd_pos r)) data))). rewrite len_drop in Hl by lia.
  case_bool_decide; lia.
Qed.

Lemma int_small x : 0 ≤ x < 2 ^ 63 → int x = x.
Proof. intros. apply int64_id; [done|]. lia. Qed.

Lemma readBytes_advances n r : in_range r → 0 ≤ n < 2 ^ 32 → advances 0 r (readBytes data n r).
Proof.
  intros Hr Hn. unfold in_range in Hr. unfold readBytes. rewrite int_small by lia.
  case_bool_decide; [cbn; unfold in_range; lia|].
  rewrite bool_decide_eq_false_2, slice_fld by lia. cbn. unfold in_range. cbn. lia.
Qed.

Section Table.
Context (strTable : bytes).

Lemma readStrT_some offset : 0 ≤ offset < 2 ^ 32 → is_Some (readStrT strTable offset).
Proof.
  intros Ho. unfold readStrT. rewrite int_small by lia.
  case_bool_decide; [by eexists|]. rewrite bool_decide_eq_false_2 by lia. by eexists.
Qed.

(** A string table reference, and an opaque block, before a continuation. *)
Lemma strT_advances {B} k r (f : string → reader → parsed B) :
  in_range r → 0 ≤ k → (∀ s r', in_range r' → rd_pos r ≤ rd_pos r' → advances k r' (f s r')) →
  advances k r (ignore 0 (readMBUint32 data r) (λ offset r',
    match readStrT strTable offset with Some s => f s r' | None => Crashed end)).
Proof.
  intros Hr Hk Hf. pose proof (readMB_advances r Hr) as Hm.
  destruct (readMBUint32 data r) as [v r1|r1| |] eqn:E; cbn [ignore]; [| |done|done]; destruct Hm as [H1 H2].
  - destruct (readStrT_some v (readMB_range _ _ _ E)) as [s ->].
    eapply advances_from; [by apply Hf; try lia|lia|lia].
  - destruct (readStrT_some 0 ltac:(lia)) as [s ->].
    eapply advances_from; [by apply Hf; try lia|lia|lia].
Qed.

Lemma opaque_advances {B} k r (f : reader → parsed B) :
  in_range r → 0 ≤ k → (∀ r', in_range r' → rd_pos r ≤ rd_pos r' → advances k r' (f r')) →
  advances k r (ignore 0 (readMBUint32 data r) (λ length r,
    ignore [] (readBytes data (int length) r) (λ _ r, f r))).
Proof.
  intros Hr Hk Hf. pose proof (readMB_advances r Hr) as Hm.
  assert (Hb : ∀ v r1, 0 ≤ v < 2 ^ 32 → in_range r1 → rd_pos r ≤ rd_pos r1 →
    advances k r1 (ignore [] (readBytes data (int v) r1) (λ _ r, f r))).
  { intros v r1 Hv H1 H2. rewrite int_small by lia.
    eapply (ignore_advances _ 0 k); [by apply readBytes_advances| |lia|lia].
    intros _ r2 H3 H4. apply Hf; [done|lia]. }
  destruct (readMBUint32 data r) as [v r1|r1| |] eqn:E; cbn [ignore]; [| |done|done]; destruct Hm as [H1 H2].
  - eapply advances_from; [apply Hb; [by eapply readMB_range|done|lia]|lia|lia].
  - eapply advances_from; [apply Hb; [lia|done|lia]|lia|lia].
Qed.

(** What the attribute loop returns is never an error. *)
Definition finishes {A} (r : reader) (m : parsed A) : Prop :=
  ∃ a r', m = Parsed a r' ∧ in_range r' ∧ rd_pos r ≤ rd_pos r'.

Lemma attributes_advance fuel : ∀ attrs name value r,
  in_range r → len data - rd_pos r ≤ Z.of_nat fuel →
  advances 0 r (parseAttributes data strTable fuel attrs name value r).
Proof.
  induction fuel as [|fuel IH]; intros attrs name value r Hr Hf; cbn [parseAttributes].
  - unfold eof. unfold in_range in Hr. rewrite bool_decide_eq_true_2 by lia. cbn. unfold in_range. lia.
  - destruct (eof data r) eqn:He; [cbn; split; [done|lia]|].
    destruct (readByte_ok r Hr) as [Ha Hb]. destruct (readByte data r) as [b r1|r1| |]; [|cbn in *; split; [tauto|lia]|done|done].
    destruct Ha as [H1 H2]. destruct (Hb b r1 eq_refl) as (_ & Hpos & Hlt).
    assert (Hrec : ∀ attrs name value r', in_range r' → rd_pos r1 ≤ rd_pos r' →
      advances 0 r' (parseAttributes data strTable fuel attrs name value r')) by (intros; apply IH; [done|lia]).
    assert (Hgo : ∀ (m : parsed (gmap string string)), advances 0 r1 m → advances 0 r m)
      by (intros m Hm; eapply advances_from; [exact Hm|lia|lia]).
    case_bool_decide; [cbn; unfold in_range in *; lia|].
    case_bool_decide.
    { pose proof (readByte_advances r1 H1) as Hp.
      destruct (readByte data r1) as [page r2|r2| |]; cbn in Hp; [|cbn; intuition lia|done|done].
      apply Hgo. eapply advances_from; [apply (Hrec _ _ _ (set_attrPage page r2))|..]; cbn; unfold in_range in *; cbn; lia. }
    case_bool_decide.
    { destruct (readStrI data r1) as [s r2] eqn:Es. destruct (readStrI_range r1 s r2 H1 Es) as [Hs1 Hs2].
      apply Hgo. eapply advances_from; [by apply Hrec|lia|lia]. }
    case_bool_decide; [apply Hgo, (strT_advances 0 r1 (λ s r, _)); [done|lia|by intros; apply Hrec]|].
    case_bool_decide; [apply Hgo, opaque_advances; [done|lia|by intros; apply Hrec]|].
    cbv zeta. destruct (negb (bool_decide (name = EmptyString)) && _); [by apply Hgo, Hrec|].
    destruct (resolveAttrStart _ _) as [entryName entryVal].
    destruct (_ && _); [by apply Hgo, Hrec|]. destruct (_ && _); by apply Hgo, Hrec.
Qed.

(** The fuel that an element and a content need for [rem] remaining bytes. *)
Definition element_fuel (rem : Z) (fuel : nat) : Prop := 2 * rem + 1 ≤ Z.of_nat fuel.
Definition content_fuel (rem : Z) (fuel : nat) : Prop := 2 * rem + 2 ≤ Z.of_nat fuel.

Lemma content_step fuel children text r :
  in_range r → content_fuel (len data - rd_pos r) (S fuel) →
  (∀ r', in_range r' → element_fuel (len data - rd_pos r') fuel →
     advances 1 r' (parseElement data strTable fuel r')) →
  (∀ children text r', in_range r' → content_fuel (len data - rd_pos r') fuel →
     advances 0 r' (parseContent data strTable fuel children text r')) →
  advances 0 r (parseContent data strTable (S fuel) children text r).
Proof.
  intros Hr Hf He Hc. unfold content_fuel, element_fuel in *. cbn [parseContent]. unfold eof.
  pose proof Hr as Hr'. unfold in_range in Hr'. case_bool_decide as Hd; [cbn; split; [done|lia]|].
  destruct (idx_Ok (E:=codec_error) data (rd_pos r)) as (peek & _ & ->); [lia|]. cbv zeta.
  set (next := at_pos (rd_pos r + 1) r).
  assert (Hn : in_range next) by (unfold in_range; cbn; lia).
  assert (Hpos : rd_pos next = rd_pos r + 1) by done. clearbody next.
  assert (Hrec : ∀ children text r', in_range r' → rd_pos next ≤ rd_pos r' →
    advances 0 r' (parseContent data strTable fuel children text r')) by (intros; apply Hc; [done|lia]).
  assert (Hgo : ∀ (m : parsed (list characteristic * string)), advances 0 next m → advances 0 r m)
    by (intros m Hm; eapply advances_from; [exact Hm|lia|lia]).
  case_bool_decide; [cbn; split; [done|lia]|].
  case_bool_decide.
  { destruct (readStrI data next) as [s r2] eqn:Es. destruct (readStrI_range next s r2 Hn Es) as [Hs1 Hs2].
    apply Hgo. eapply advances_from; [by apply Hrec|lia|lia]. }
  case_bool_decide; [apply Hgo, (strT_advances 0 next (λ s r, _)); [done|lia|by intros; apply Hrec]|].
  case_bool_decide; [apply Hgo, opaque_advances; [done|lia|by intros; apply Hrec]|].
  case_bool_decide.
  { apply Hgo. eapply (ignore_advances _ 1 0); [by apply readByte_advances| |lia|lia].
    intros page r2 Hs1 Hs2. eapply advances_from; [apply (Hrec _ _ (set_tagPage page r2))|..]; done. }
  pose proof (He r Hr ltac:(lia)) as Hel.
  match goal with |- advances _ _ (match ?x with _ => _ end) =>
    change x with (parseElement data strTable fuel r) end.
  destruct (parseElement data strTable fuel r) as [[c|] r2|r2| |]; [| |cbn in *; split; [tauto|lia]|done|done];
    destruct Hel as [Hs1 Hs2]; (eapply advances_from; [apply Hrec; [done|lia]|lia|lia]).
Qed.

Lemma element_step fuel r :
  in_range r → element_fuel (len data - rd_pos r) (S fuel) →
  (∀ r', in_range r' → element_fuel (len data - rd_pos r') fuel →
     advances 1 r' (parseElement data strTable fuel r')) →
  (∀ children text r', in_range r' → content_fuel (len data - rd_pos r') fuel →
     advances 0 r' (parseContent data strTable fuel children text r')) →
  advances 1 r (parseElement data strTable (S fuel) r).
Proof.
  intros Hr Hf He Hc. unfold content_fuel, element_fuel in *. cbn [parseElement].
  apply (check_advances 1 0); [by apply readByte_advances| |lia|lia].
  intros b r1 Hb Ha1 Ha2. case_bool_decide.
  { apply (check_advances 0 0); [eapply advances_weaken; [by apply readByte_advances|lia]| |lia|lia].
    intros page r2 Hp Ha3 Ha4. eapply advances_weaken; [apply (He (set_tagPage page r2))|lia].
    - done.
    - cbn. lia. }
  case_bool_decide; [cbn; split; [done|lia]|]. cbv zeta.
  apply (check_advances 0 0); [|intros attrs r2 _ Ha3 Ha4|lia|lia].
  { case_bool_decide; [apply attributes_advance; [done|lia]|cbn; split; [done|lia]]. }
  apply (check_advances 0 0); [|intros content r3 _ Ha5 Ha6; cbn; split; [done|lia]|lia|lia].
  case_bool_decide; [apply Hc; [done|lia]|cbn; split; [done|lia]].
Qed.

Lemma element_advances fuel :
  (∀ r, in_range r → element_fuel (len data - rd_pos r) fuel →
     advances 1 r (parseElement data strTable fuel r)) ∧
  (∀ children text r, in_range r → content_fuel (len data - rd_pos r) fuel →
     advances 0 r (parseContent data strTable fuel children text r)).
Proof.
  induction fuel as [|fuel [IHe IHc]]; unfold element_fuel, content_fuel in *.
  - split; intros; unfold in_range in *; lia.
  - split; intros; [by apply element_step|by apply content_step].
Qed.

Lemma body_advances fuel turns : ∀ acc r,
  in_range r → element_fuel (len data - rd_pos r) fuel → len data - rd_pos r < Z.of_nat turns →
  advances 0 r (body data strTable turns fuel acc r).
Proof.
  induction turns as [|turns IH]; intros acc r Hr Hf Ht; [unfold in_range in Hr; lia|]. cbn [body].
  destruct (eof data r); [cbn; split; [done|lia]|].
  pose proof (proj1 (element_advances fuel) r Hr Hf) as He. unfold element_fuel in *.
  destruct (parseElement data strTable fuel r) as [[c|] r1|r1| |]; [| |cbn in *; split; [tauto|lia]|done|done];
    destruct He as [H1 H2]; (eapply advances_from; [apply IH; [done|lia|lia]|lia|lia]).
Qed.
End Table.

Lemma decodeWBXML_advances : advances 0 (mkReader 0 0 0) (decodeWBXML data).
Proof.
  pose proof (len_nonneg data) as Hl. unfold decodeWBXML.
  assert (Hp0 : in_range (mkReader 0 0 0)) by (unfold in_range; cbn; lia).
  eapply advances_weaken; [eapply (check_advances 1 0); [by apply readByte_advances| |lia|lia]|lia].
  intros version r1 _ Hp1 _. apply (check_advances 0 0); [by apply readMB_advances| |lia|lia].
  intros publicID r2 _ Hp2 _. case_bool_decide; [cbn; split; [done|lia]|].
  apply (check_advances 0 0); [by apply readMB_advances| |lia|lia].
  intros charset r3 _ Hp3 _. apply (check_advances 0 0); [by apply readMB_advances| |lia|lia].
  intros strTableLen r4 E4 Hp4 _. pose proof (readMB_range _ _ _ E4) as Hs.
  apply (check_advances 0 0).
  { case_bool_decide; [|cbn; split; [done|lia]]. rewrite int_small by lia. by apply readBytes_advances. }
  2, 3: lia.
  intros strTable r5 _ Hp5 _. apply (check_advances 0 0).
  { apply body_advances; [done|..]; unfold element_fuel, wbxml_fuel, in_range, len in *; lia. }
  2, 3: lia.
  intros chars r6 _ Hp6 _. destruct chars; cbn; (split; [done|lia]).
Qed.
End Total.

Lemma findWBXMLStart_suffix data w :
  findWBXMLStart data = Some w → w `suffix_of` data ∧ isWBXMLHeader w = true.
Proof.
  induction data as [|x data IH]; cbn [findWBXMLStart].
  - by case_match.
  - destruct (isWBXMLHeader (x :: data)) eqn:E.
    + by intros [= <-].
    + intros [Hs Hh]%IH. split; [by apply suffix_cons_r|done].
Qed.

Definition returns {A} (m : parsed A) : Prop := (∃ a r, m = Parsed a r) ∨ (∃ r, m = Failed r).

Lemma decode_returns `{IntSize} data :
  int_bits = 64 → bytes_ok data → len data < 2 ^ 62 → returns (DecodeOmaCPFromTPDU data).
Proof.
  intros Hb Hd Hl. unfold DecodeOmaCPFromTPDU. case_bool_decide; [right; by eexists|].
  destruct (findWBXMLStart data) as [w|] eqn:E; [|right; by eexists].
  apply findWBXMLStart_suffix in E as [[k ->] _].
  apply Forall_app in Hd as [_ Hw]. rewrite len_app in Hl. pose proof (len_nonneg k).
  pose proof (decodeWBXML_advances w Hb Hw ltac:(lia)) as Ha.
  destruct (decodeWBXML w) as [a r|r| |]; [left; by eexists _, _|right; by eexists|done|done].
Qed.

(** C37: on the 64-bit builds decoding a provisioning message always ends.  When
    [int] has 64 bits, for every byte string (shorter than 2^62) the fuel that
    [decodeWBXML] computes from the length is enough for its nested loops and
    recursive calls, no index, slice or [make] is out of range, and the decoder
    returns a configuration or an error.  (On the 32-bit build a length can
    become negative and the decoder crashes: [wbxml_armv7_crash].) *)
Theorem wbxml_terminates `{IntSize} data :
  int_bits = 64 → bytes_ok data → len data < 2 ^ 62 → returns (DecodeOmaCPFromTPDU data).
Proof. apply decode_returns. Qed.

(** A document with two parameters, behind a push header. *)
Definition sample_document : bytes :=
  [7; 6; 1; 0xB6; 3; 0x0B; 0x6A; 0; 0x45; 0xC6; 0xA4; 1; 0x87; 0x08; 0x06; 3; 97; 112; 110; 0; 1;
   0x87; 0x11; 0x06; 3; 88; 0; 1; 1; 1].

Lemma wbxml_terminates_witness : returns (DecodeOmaCPFromTPDU (H:=amd64) sample_document).
Proof.
  apply (wbxml_terminates (H:=amd64) sample_document).
  - reflexivity.
  - apply (bool_decide_unpack _). vm_compute. exact I.
  - vm_compute. reflexivity.
Defined.

(** On the 32-bit build an opaque block of 2^31 bytes inside an element makes
    [readBytes] ask for a negative length. *)
Definition opaque_document : bytes :=
  [3; 0x0B; 0x6A; 0; 0x45; 0xC3; 0x88; 0x80; 0x80; 0x80; 0x00; 1].

Lemma wbxml_armv7_crash : DecodeOmaCPFromTPDU (H:=armv7) opaque_document = Crashed.
Proof. vm_compute. reflexivity. Qed.

(** ** Documents *)

(** A provisioning document as a sender writes it: characteristics whose type is
    a token of code page 0, with parameters whose name is a token, and nested
    characteristics. *)
Inductive node := Node (type_token : Z) (parms : list (Z * bytes)) (subs : list node).

Definition type_token_ok (t : Z) : Prop := 0xA0 ≤ t ≤ 0xAA.
Definition name_token_ok (t : Z) : Prop := 0x07 ≤ t ≤ 0x3F.

(** A value without a terminator inside and without white space to trim. *)
Definition value_ok (v : bytes) : Prop :=
  Forall (λ x, x ≠ 0) v ∧ TrimSpace (string_of v) = string_of v.

Definition parm_ok (p : Z * bytes) : Prop := name_token_ok (fst p) ∧ value_ok (snd p).

Inductive node_ok : node → Prop :=
  | node_ok_intro t parms subs :
      type_token_ok t → Forall parm_ok parms → Forall node_ok subs → node_ok (Node t parms subs).

Definition encode_parm (p : Z * bytes) : bytes := [0x87; fst p; 0x06; 0x03] ++ snd p ++ [0; 1].

Fixpoint encode_node (n : node) : bytes :=
  let 'Node t parms subs := n in
  [0xC6; t; 0x01] ++ List.concat (encode_parm <$> parms) ++ List.concat (encode_node <$> subs) ++ [0x01].

Definition encode_document (nodes : list node) : bytes :=
  [0x03; 0x0B; 0x6A; 0x00; 0x45] ++ List.concat (encode_node <$> nodes) ++ [0x01].

(** What it means. *)
Definition parm_name (p : Z * bytes) : string := snd (resolveAttrStart 0 (fst p)).
Definition params_of (parms : list (Z * bytes)) : gmap string string :=
  foldl (λ m p, <[parm_name p := string_of (snd p)]> m) ∅ parms.

Fixpoint meaning (n : node) : characteristic :=
  let 'Node t parms subs := n in
  Characteristic (snd (resolveAttrStart 0 t)) (params_of parms) (meaning <$> subs).

Lemma type_token_facts t :
  type_token_ok t →
  ∃ v, resolveAttrStart 0 t = ("type"%string, v) ∧ TrimSpace v = v ∧ v ≠ "__parm__"%string ∧
    t ∉ [wbxmlEnd; wbxmlSwitchPage; wbxmlStrI; wbxmlStrT; wbxmlOpaque].
Proof.
  intros H. exists (snd (resolveAttrStart 0 t)).
  assert (Hall : Forall (λ t, fst (resolveAttrStart 0 t) = "type"%string ∧
    TrimSpace (snd (resolveAttrStart 0 t)) = snd (resolveAttrStart 0 t) ∧
    snd (resolveAttrStart 0 t) ≠ "__parm__"%string ∧
    t ∉ [wbxmlEnd; wbxmlSwitchPage; wbxmlStrI; wbxmlStrT; wbxmlOpaque]) (seqZ 0xA0 11)).
  { apply (bool_decide_unpack _). vm_compute. exact I. }
  rewrite Forall_forall in Hall. destruct (Hall t) as (H1 & H2 & H3 & H4).
  { apply elem_of_seqZ. unfold type_token_ok in H. lia. }
  split_and!; [|done..]. destruct (resolveAttrStart 0 t). cbn in *. by subst.
Qed.

Lemma name_token_facts t :
  name_token_ok t →
  ∃ v, resolveAttrStart 0 t = ("name"%string, v) ∧ TrimSpace v = v ∧ v ≠ EmptyString ∧
    t ∉ [wbxmlEnd; wbxmlSwitchPage; wbxmlStrI; wbxmlStrT; wbxmlOpaque].
Proof.
  intros H. exists (snd (resolveAttrStart 0 t)).
  assert (Hall : Forall (λ t, fst (resolveAttrStart 0 t) = "name"%string ∧
    TrimSpace (snd (resolveAttrStart 0 t)) = snd (resolveAttrStart 0 t) ∧
    snd (resolveAttrStart 0 t) ≠ EmptyString ∧
    t ∉ [wbxmlEnd; wbxmlSwitchPage; wbxmlStrI; wbxmlStrT; wbxmlOpaque]) (seqZ 0x07 57)).
  { apply (bool_decide_unpack _). vm_compute. exact I. }
  rewrite Forall_forall in Hall. destruct (Hall t) as (H1 & H2 & H3 & H4).
  { apply elem_of_seqZ. unfold name_token_ok in H. lia. }
  split_and!; [|done..]. destruct (resolveAttrStart 0 t). cbn in *. by subst.
Qed.

Section Document.
Context `{IntSize} (data strTable : bytes).

Abbreviation rd p := (mkReader p 0 0).

(** The bytes from [p] on. *)
Definition here (p : Z) (l : bytes) : Prop := 0 ≤ p ∧ drop (Z.to_nat p) data = l.

Lemma here_next p x l : here p (x :: l) → here (p + 1) l.
Proof.
  intros [Hp Hd]. split; [lia|]. replace (Z.to_nat (p + 1)) with (Z.to_nat p + 1)%nat by lia.
  by rewrite <-drop_drop, Hd.
Qed.

Lemma here_app p a l : here p (a ++ l) → here (p + len a) l.
Proof.
  revert p. induction a as [|x a IH]; intros p Hh.
  - by rewrite len_nil, Z.add_0_r.
  - rewrite len_cons, Z.add_assoc. apply IH. by eapply here_next.
Qed.

Lemma here_len p l : here p l → p + len l = len data ∨ l = [].
Proof.
  intros [Hp <-]. destruct (decide (p ≤ len data)).
  - left. rewrite len_drop. lia.
  - right. apply drop_ge. unfold len in *. lia.
Qed.

Lemma here_idx p x l : here p (x :: l) → idx (E:=codec_error) data p = Ok x ∧ eof data (rd p) = false.
Proof.
  intros Hh. pose proof (here_len _ _ Hh) as [Hl|?]; [|done]. destruct Hh as [Hp Hd].
  rewrite len_cons in Hl. pose proof (len_nonneg l). split.
  - unfold idx. rewrite bool_decide_eq_true_2 by lia.
    assert (E : data !! Z.to_nat p = Some x).
    { rewrite <-(Nat.add_0_r (Z.to_nat p)), <-lookup_drop, Hd. done. }
    by rewrite E.
  - unfold eof. cbn. apply bool_decide_eq_false_2. lia.
Qed.

Lemma here_readByte p x l : here p (x :: l) → readByte data (rd p) = Parsed x (rd (p + 1)).
Proof. intros [Hi He]%here_idx. unfold readByte. rewrite He. cbn [rd_pos]. by rewrite Hi. Qed.

Lemma cstring_value v l : Forall (λ x, x ≠ 0) v → cstring (v ++ 0 :: l) = v.
Proof.
  induction 1 as [|x v Hx _ IH]; cbn; [done|]. by rewrite bool_decide_eq_false_2, IH.
Qed.

Lemma here_readStrI p v l :
  Forall (λ x, x ≠ 0) v → here p (v ++ 0 :: l) → readStrI data (rd p) = (string_of v, rd (p + len v + 1)).
Proof.
  intros Hv Hh. pose proof (here_len _ _ Hh) as [Hl|E]; [|by destruct v].
  unfold readStrI. cbn [rd_pos]. destruct Hh as [Hp ->]. rewrite cstring_value by done.
  rewrite len_app, len_cons in Hl. pose proof (len_nonneg l).
  by rewrite bool_decide_eq_false_2 by lia.
Qed.

(** One step of the attribute loop, on each of the bytes that a sender writes. *)
Lemma attr_start fuel attrs name value p b l n v :
  here p (b :: l) → b ∉ [wbxmlEnd; wbxmlSwitchPage; wbxmlStrI; wbxmlStrT; wbxmlOpaque] →
  resolveAttrStart 0 b = (n, v) → n ∈ ["name"; "type"; "value"]%string →
  (name = EmptyString ∨ resolveAttrValue 0 b = EmptyString ∨ HasPrefix (resolveAttrValue 0 b) "[0x" = true) →
  parseAttributes data strTable (S fuel) attrs name value (rd p) =
  parseAttributes data strTable fuel (flushAttr attrs name value) n v (rd (p + 1)).
Proof.
  intros Hh Hb Hs Hn Hv. pose proof (here_idx _ _ _ Hh) as [_ He].
  rewrite !not_elem_of_cons in Hb. destruct Hb as (Hb1 & Hb2 & Hb3 & Hb4 & Hb5 & _).
  cbn [parseAttributes]. rewrite He, (here_readByte _ _ _ Hh), !bool_decide_eq_false_2 by done.
  cbn [rd_attrPage]. cbv zeta. rewrite Hs.
  assert (Hval : negb (bool_decide (name = EmptyString)) && (negb (bool_decide (resolveAttrValue 0 b = EmptyString)) &&
    negb (HasPrefix (resolveAttrValue 0 b) "[0x")) = false).
  { destruct Hv as [->|[->| ->]]; cbn; rewrite ?andb_false_r; done. }
  rewrite Hval.
  assert (Hok : negb (bool_decide (n = EmptyString)) && negb (HasPrefix n "attr_") = true).
  { rewrite !elem_of_cons in Hn. destruct Hn as [->|[->|[->|Hn]]]; [reflexivity..|by apply not_elem_of_nil in Hn]. }
  by rewrite Hok.
Qed.

Lemma attr_end fuel attrs name value p l :
  here p (1 :: l) →
  parseAttributes data strTable (S fuel) attrs name value (rd p) = Parsed (flushAttr attrs name value) (rd (p + 1)).
Proof.
  intros Hh. pose proof (here_idx _ _ _ Hh) as [_ He]. cbn [parseAttributes].
  by rewrite He, (here_readByte _ _ _ Hh).
Qed.

Lemma attr_string fuel attrs name value p v l :
  Forall (λ x, x ≠ 0) v → here p (3 :: v ++ 0 :: l) →
  parseAttributes data strTable (S fuel) attrs name value (rd p) =
  parseAttributes data strTable fuel attrs name (value +:+ string_of v) (rd (p + 1 + len v + 1)).
Proof.
  intros Hv Hh. pose proof (here_idx _ _ _ Hh) as [_ He]. pose proof (here_next _ _ _ Hh) as Hh'.
  cbn [parseAttributes]. rewrite He, (here_readByte _ _ _ Hh), (here_readStrI _ _ _ Hv Hh'). done.
Qed.

Lemma parm_attributes fuel p t v l :
  parm_ok (t, v) → here p ([t; 0x06; 0x03] ++ v ++ [0; 1] ++ l) → (4 ≤ fuel)%nat →
  parseAttributes data strTable fuel ∅ EmptyString EmptyString (rd p) =
  Parsed (<["value"%string := string_of v]> {["name"%string := parm_name (t, v)]}) (rd (p + len v + 5)).
Proof.
  intros [Ht [Hv Htrim]] Hh Hf. cbn [fst snd] in *. do 4 (destruct fuel as [|fuel]; [lia|]).
  destruct (name_token_facts t Ht) as (nm & Hres & Htn & _ & Hspecial).
  assert (Hnm : parm_name (t, v) = nm) by (unfold parm_name; cbn [fst]; by rewrite Hres).
  rewrite (attr_start _ _ _ _ _ _ _ _ _ Hh Hspecial Hres) by (by left || set_solver).
  apply here_next in Hh. rewrite (attr_start _ _ _ _ _ 0x06 _ "value" EmptyString Hh).
  2: { apply (bool_decide_unpack _). vm_compute. exact I. }
  2: { reflexivity. }
  2: { set_solver. }
  2: { right. first [by left; vm_compute | by right; vm_compute]. }
  apply here_next in Hh. rewrite (attr_string _ _ _ _ _ v (1 :: l)); [|done|exact Hh].
  apply here_next, here_app, here_next in Hh. rewrite (attr_end _ _ _ _ _ l) by exact Hh.
  unfold flushAttr. cbn [bool_decide]. rewrite Hnm, insert_empty. 
  rewrite !bool_decide_eq_false_2, bool_decide_eq_true_2 by done. rewrite Htn.
  replace (EmptyString +:+ string_of v) with (string_of v) by done. rewrite Htrim.
  f_equal. f_equal. lia.
Qed.

Lemma type_attributes fuel p t l :
  type_token_ok t → here p ([t; 1] ++ l) → (2 ≤ fuel)%nat →
  parseAttributes data strTable fuel ∅ EmptyString EmptyString (rd p) =
  Parsed {["type"%string := snd (resolveAttrStart 0 t)]} (rd (p + 2)).
Proof.
  intros Ht Hh Hf. do 2 (destruct fuel as [|fuel]; [lia|]).
  destruct (type_token_facts t Ht) as (ty & Hres & Htrim & _ & Hspecial).
  rewrite (attr_start _ _ _ _ _ _ _ _ _ Hh Hspecial Hres) by (by left || set_solver).
  apply here_next in Hh. rewrite (attr_end _ _ _ _ _ l) by exact Hh. rewrite Hres.
  unfold flushAttr. rewrite bool_decide_eq_false_2, bool_decide_eq_true_2 by done. cbn [snd]. rewrite Htrim.
  rewrite insert_empty. f_equal. f_equal. lia.
Qed.

Definition parm_of (p : Z * bytes) : characteristic :=
  Characteristic "__parm__" {[ parm_name p := string_of (snd p) ]} [].

Lemma parm_element fuel p q l :
  parm_ok q → here p (encode_parm q ++ l) → (5 ≤ fuel)%nat →
  parseElement data strTable fuel (rd p) = Parsed (Some (parm_of q)) (rd (p + len (encode_parm q))).
Proof.
  destruct q as [t v]. intros Hok Hh Hf. destruct fuel as [|fuel]; [lia|]. cbn [parseElement].
  unfold encode_parm in *. cbn [fst snd app] in *. rewrite (here_readByte _ _ _ Hh). cbn [check].
  change (bool_decide (0x87 = wbxmlSwitchPage)) with false. change (bool_decide (0x87 = wbxmlEnd)) with false.
  change (bool_decide (Z.land 0x87 wbxmlHasAttrs ≠ 0)) with true.
  change (bool_decide (Z.land 0x87 wbxmlHasContent ≠ 0)) with false. cbv zeta iota.
  apply here_next in Hh. rewrite <-app_assoc in Hh. rewrite (parm_attributes _ _ t v l Hok Hh) by lia.
  cbn [check fst snd]. destruct Hok as [Ht _]. destruct (name_token_facts t Ht) as (nm & Hres & Htn & Hne & _).
  assert (Hnm : parm_name (t, v) = nm) by (unfold parm_name; cbn [fst]; by rewrite Hres).
  change (resolveTagName _ _) with "parm"%string. unfold build_element.
  rewrite bool_decide_eq_false_2, bool_decide_eq_true_2 by done. rewrite Hnm.
  rewrite lookup_insert_ne, lookup_singleton_eq, lookup_insert_eq by done. cbn [default id].
  rewrite (bool_decide_eq_false_2 (nm = EmptyString)) by done.
  rewrite bool_decide_eq_false_2 by (by rewrite Htn). unfold parm_of. rewrite Hnm. f_equal.
  f_equal. rewrite !len_cons, len_app, !len_cons, len_nil. lia.
Qed.

Lemma content_child fuel children text p q b l c :
  here p (b :: l) → b ∉ [wbxmlEnd; wbxmlSwitchPage; wbxmlStrI; wbxmlStrT; wbxmlOpaque] →
  parseElement data strTable fuel (rd p) = Parsed (Some c) (rd q) →
  parseContent data strTable (S fuel) children text (rd p) =
  parseContent data strTable fuel (children ++ [c]) text (rd q).
Proof.
  intros Hh Hb Hc. destruct (here_idx _ _ _ Hh) as [Hi He]. rewrite !not_elem_of_cons in Hb.
  destruct Hb as (Hb1 & Hb2 & Hb3 & Hb4 & Hb5 & _). cbn [parseContent]. rewrite He. cbn [rd_pos]. rewrite Hi.
  cbv zeta. rewrite !bool_decide_eq_false_2 by done.
  match goal with |- match ?x with _ => _ end = _ => change x with (parseElement data strTable fuel (rd p)) end.
  by rewrite Hc.
Qed.

Lemma content_end fuel children text p l :
  here p (1 :: l) → parseContent data strTable (S fuel) children text (rd p) = Parsed (children, text) (rd (p + 1)).
Proof.
  intros Hh. destruct (here_idx _ _ _ Hh) as [Hi He]. cbn [parseContent]. rewrite He. cbn [rd_pos]. by rewrite Hi.
Qed.

(** A run of encoded items, each of which parses to one child. *)
Lemma content_items {I} (enc : I → bytes) (mean : I → characteristic) (items : list I) l :
  Forall (λ i, (∃ b r, enc i = b :: r ∧ b ∉ [wbxmlEnd; wbxmlSwitchPage; wbxmlStrI; wbxmlStrT; wbxmlOpaque]) ∧
    ∀ fuel p l, here p (enc i ++ l) → (2 * List.length (enc i ++ l) + 1 ≤ fuel)%nat →
      parseElement data strTable fuel (rd p) = Parsed (Some (mean i)) (rd (p + len (enc i)))) items →
  ∀ fuel children text p, here p (List.concat (enc <$> items) ++ l) →
  (2 * List.length (List.concat (enc <$> items) ++ l) + 2 ≤ fuel)%nat →
  ∃ fuel', (2 * List.length l + 2 ≤ fuel')%nat ∧
    parseContent data strTable fuel children text (rd p) =
    parseContent data strTable fuel' (children ++ (mean <$> items)) text (rd (p + len (List.concat (enc <$> items)))).
Proof.
  induction 1 as [|i items [(b & r & Hb & Hspecial) Hi] _ IH]; intros fuel children text p Hh Hf;
    cbn [fmap list_fmap List.concat app] in *.
  - exists fuel. split; [lia|]. change (len []) with 0. by rewrite app_nil_r, Z.add_0_r.
  - destruct fuel as [|fuel]; [lia|]. rewrite <-app_assoc in Hh, Hf.
    pose proof (length_app (enc i) (List.concat (enc <$> items) ++ l)) as Hlen. rewrite Hb in Hlen at 2. cbn [List.length] in Hlen.
    destruct (IH fuel (children ++ [mean i]) text (p + len (enc i))) as (fuel' & Hf' & E).
    { by apply here_app. }
    { unfold fmap in *. lia. }
    exists fuel'. split; [done|].
    erewrite content_child; [rewrite E| |exact Hspecial|apply (Hi fuel p (List.concat (enc <$> items) ++ l))].
    + rewrite <-app_assoc, len_app, Z.add_assoc. done.
    + rewrite Hb in Hh. exact Hh.
    + exact Hh.
    + unfold fmap in *. lia.
Qed.

Lemma parm_item q : parm_ok q →
  (∃ b r, encode_parm q = b :: r ∧ b ∉ [wbxmlEnd; wbxmlSwitchPage; wbxmlStrI; wbxmlStrT; wbxmlOpaque]) ∧
  ∀ fuel p l', here p (encode_parm q ++ l') → (2 * List.length (encode_parm q ++ l') + 1 ≤ fuel)%nat →
    parseElement data strTable fuel (rd p) = Parsed (Some (parm_of q)) (rd (p + len (encode_parm q))).
Proof.
  intros Hq. split.
  - eexists _, _. split; [reflexivity|]. apply (bool_decide_unpack _). vm_compute. exact I.
  - intros fuel p l' Hh Hf. apply (parm_element _ _ _ l'); [done..|].
    revert Hf. unfold encode_parm. rewrite !length_app. cbn. lia.
Qed.

Lemma parms_merge parms (m : gmap string string) children :
  foldl (λ m c, if is_parm c then ch_Params c ∪ m else m) m ((parm_of <$> parms) ++ children) =
  foldl (λ m c, if is_parm c then ch_Params c ∪ m else m)
    (foldl (λ m p, <[parm_name p := string_of (snd p)]> m) m parms) children.
Proof.
  revert m. induction parms as [|q parms IH]; intros m; cbn; [done|].
  rewrite IH. unfold is_parm. cbn [ch_Type parm_of ch_Params]. by rewrite bool_decide_eq_true_2, <-insert_union_singleton_l.
Qed.

Lemma node_not_parm n : node_ok n → is_parm (meaning n) = false.
Proof.
  intros Hn. destruct Hn as [t parms subs Ht _ _]. destruct (type_token_facts t Ht) as (v & Hres & _ & Hne & _).
  cbn. rewrite Hres. by apply bool_decide_eq_false_2.
Qed.

Lemma nodes_no_params nodes (m : gmap string string) :
  Forall node_ok nodes →
  foldl (λ m c, if is_parm c then ch_Params c ∪ m else m) m (meaning <$> nodes) = m.
Proof. induction 1 as [|n nodes Hn _ IH]; cbn [fmap list_fmap foldl]; [done|]. by rewrite node_not_parm. Qed.

Lemma filter_children parms nodes :
  Forall node_ok nodes →
  filter (λ c, is_parm c = false) ((parm_of <$> parms) ++ (meaning <$> nodes)) = meaning <$> nodes.
Proof.
  intros Hn. induction parms as [|q parms IH]; [|by cbn].
  induction Hn as [|n nodes Hn _ IH]; [done|]. cbn [fmap list_fmap app] in *.
  rewrite filter_cons_True by (by apply node_not_parm). by rewrite IH.
Qed.

Lemma encode_node_eq t parms subs :
  encode_node (Node t parms subs) =
  [0xC6; t; 0x01] ++ List.concat (encode_parm <$> parms) ++ List.concat (encode_node <$> subs) ++ [0x01].
Proof. done. Qed.

Lemma node_element n : node_ok n → ∀ fuel p l,
  here p (encode_node n ++ l) → (2 * List.length (encode_node n ++ l) + 1 ≤ fuel)%nat →
  parseElement data strTable fuel (rd p) = Parsed (Some (meaning n)) (rd (p + len (encode_node n))).
Proof.
  revert n. fix IH 2. intros n Hn. destruct Hn as [t parms subs Ht Hp Hs]. intros fuel p l.
  rewrite encode_node_eq. set (ps := List.concat (encode_parm <$> parms)). set (ns := List.concat (encode_node <$> subs)).
  intros Hh Hf. destruct fuel as [|fuel]; [lia|]. cbn [parseElement]. cbn [app] in Hh.
  rewrite (here_readByte _ _ _ Hh). cbn [check].
  change (bool_decide (0xC6 = wbxmlSwitchPage)) with false. change (bool_decide (0xC6 = wbxmlEnd)) with false.
  change (bool_decide (Z.land 0xC6 wbxmlHasAttrs ≠ 0)) with true.
  change (bool_decide (Z.land 0xC6 wbxmlHasContent ≠ 0)) with true. cbv zeta iota.
  apply here_next in Hh. rewrite !length_app in Hf. cbn [List.length] in Hf.
  rewrite (type_attributes _ _ t (ps ++ ns ++ 1 :: l) Ht); [|by rewrite <-!app_assoc in Hh|lia].
  cbn [check]. do 2 apply here_next in Hh. rewrite <-!app_assoc in Hh.
  destruct (content_items encode_parm parm_of parms (ns ++ [1] ++ l)) with (fuel := fuel) (children := @nil characteristic) (text := EmptyString) (p := p + 1 + 2)
    as (fuel1 & Hf1 & E1).
  { apply (Forall_impl parm_ok); [done|]. intros q Hq. by apply parm_item. }
  { replace (p + 1 + 2) with (p + 1 + 1 + 1) by lia. exact Hh. }
  { rewrite !length_app. cbn. fold ps. lia. }
  match goal with |- check ?x _ = _ =>
    change x with (parseContent data strTable fuel [] EmptyString (rd (p + 1 + 2))) end.
  rewrite E1. fold ps. apply here_app in Hh.
  destruct (content_items encode_node meaning subs ([1] ++ l)) with (fuel := fuel1) (children := parm_of <$> parms) (text := EmptyString) (p := p + 1 + 2 + len ps)
    as (fuel2 & Hf2 & E2).
  { clear -IH Hs. induction Hs as [|n subs Hn _ IHs]; constructor; [|exact IHs]. split; [|by apply IH].
    destruct n as [t parms subs']. eexists _, _. split; [reflexivity|]. apply (bool_decide_unpack _). vm_compute. exact I. }
  { replace (p + 1 + 2 + len ps) with (p + 1 + 1 + 1 + len ps) by lia. exact Hh. }
  { fold ns. exact Hf1. }
  cbn [app]. rewrite E2. fold ns. apply here_app in Hh. destruct fuel2 as [|fuel2]; [lia|].
  rewrite (content_end _ _ _ _ l); [|by replace (p + 1 + 2 + len ps + len ns) with (p + 1 + 1 + 1 + len ps + len ns) by lia].
  cbn [check fst snd]. change (resolveTagName _ _) with "characteristic"%string. unfold build_element.
  rewrite bool_decide_eq_true_2 by done. rewrite lookup_singleton_eq. cbn [default id].
  rewrite filter_children, parms_merge, nodes_no_params by done. f_equal.
  f_equal. rewrite !len_cons, !len_app, len_cons, len_nil. lia.
Qed.

Lemma node_items nodes : Forall node_ok nodes →
  Forall (λ i, (∃ b r, encode_node i = b :: r ∧ b ∉ [wbxmlEnd; wbxmlSwitchPage; wbxmlStrI; wbxmlStrT; wbxmlOpaque]) ∧
    ∀ fuel p l, here p (encode_node i ++ l) → (2 * List.length (encode_node i ++ l) + 1 ≤ fuel)%nat →
      parseElement data strTable fuel (rd p) = Parsed (Some (meaning i)) (rd (p + len (encode_node i)))) nodes.
Proof.
  intros Hall. apply (Forall_impl node_ok); [done|]. intros n Hn. split; [|by apply node_element]. destruct n as [t parms subs].
  eexists _, _. split; [reflexivity|]. apply (bool_decide_unpack _). vm_compute. exact I.
Qed.

Lemma root_element nodes fuel p l : nodes ≠ [] → Forall node_ok nodes →
  let ns := List.concat (encode_node <$> nodes) in
  here p (0x45 :: ns ++ 1 :: l) → (2 * List.length (0x45%Z :: ns ++ 1%Z :: l) + 2 ≤ fuel)%nat →
  parseElement data strTable fuel (rd p) =
  Parsed (Some (Characteristic "wap-provisioningdoc" ∅ (meaning <$> nodes))) (rd (p + len ns + 2)).
Proof.
  intros Hne Hn ns Hh Hf. destruct fuel as [|fuel]; [lia|]. cbn [List.length] in Hf.
  cbn [parseElement]. rewrite (here_readByte _ _ _ Hh). cbn [check].
  change (bool_decide (0x45 = wbxmlSwitchPage)) with false. change (bool_decide (0x45 = wbxmlEnd)) with false.
  change (bool_decide (Z.land 0x45 wbxmlHasAttrs ≠ 0)) with false.
  change (bool_decide (Z.land 0x45 wbxmlHasContent ≠ 0)) with true. cbv zeta iota. cbn [check].
  apply here_next in Hh.
  destruct (content_items encode_node meaning nodes (1 :: l)) with (fuel := fuel) (children := @nil characteristic)
    (text := EmptyString) (p := p + 1) as (fuel' & Hf' & E); [by apply node_items|exact Hh|fold ns; lia|].
  match goal with |- check ?x _ = _ => change x with (parseContent data strTable fuel [] EmptyString (rd (p + 1))) end.
  rewrite E. fold ns. apply here_app in Hh. destruct fuel' as [|fuel']; [lia|].
  rewrite (content_end _ _ _ _ l Hh). cbn [check fst snd app].
  change (resolveTagName _ _) with "wap-provisioningdoc"%string. unfold build_element.
  rewrite !bool_decide_eq_false_2, bool_decide_eq_true_2 by done.
  destruct nodes as [|n nodes]; [done|]. cbn [fmap list_fmap]. f_equal. f_equal. lia.
Qed.

Lemma here_readMB p b l : 0 ≤ b < 128 → here p (b :: l) → readMBUint32 data (rd p) = Parsed b (rd (p + 1)).
Proof.
  intros Hb Hh. unfold readMBUint32. cbn [mb_loop]. rewrite (here_readByte _ _ _ Hh). cbn [check].
  assert (Hall : Forall (λ b, Z.land b 0x80 = 0 ∧ Z.lor (u32 (Z.shiftl 0 7)) (Z.land b 0x7F) = b) (seqZ 0 128)).
  { apply (bool_decide_unpack _). vm_compute. exact I. }
  rewrite Forall_forall in Hall. destruct (Hall b) as [H1 H2]; [apply elem_of_seqZ; lia|].
  by rewrite bool_decide_eq_true_2, H2.
Qed.
End Document.

Lemma encode_document_found nodes : findWBXMLStart (encode_document nodes) = Some (encode_document nodes).
Proof.
  assert (Hh : isWBXMLHeader (encode_document nodes) = true).
  { unfold isWBXMLHeader. unfold encode_document. set (l := List.concat _ ++ _).
    pose proof (len_nonneg l). cbn [app]. rewrite !len_cons. rewrite bool_decide_eq_false_2 by lia.
    unfold parseMBUint32At. rewrite !bool_decide_eq_false_2 by (rewrite ?len_cons; lia).
    change (mb_turns 5 _ 1 0) with (MBValue 11 2). cbv iota beta.
    rewrite bool_decide_eq_false_2, bool_decide_eq_false_2 by (rewrite ?len_cons; lia).
    change (mb_turns 5 _ 2 0) with (MBValue 106 3). cbv iota beta.
    rewrite bool_decide_eq_false_2 by (rewrite ?len_cons; lia).
    change (mb_turns 5 _ 3 0) with (MBValue 0 4). cbv iota beta.
    apply bool_decide_eq_true_2. lia. }
  unfold findWBXMLStart. unfold encode_document at 1. cbn [app]. fold (encode_document nodes).
  change (3 :: _) with (encode_document nodes). by rewrite Hh.
Qed.

(** C38: provisioning documents are read as they are written.  A document whose
    characteristics carry a type token, parameters with a token for a name and
    a zero-terminated value, and nested characteristics to any depth, decodes to
    the tree of the same types, names and values; a parameter repeated in a
    characteristic keeps its last value. *)
Theorem document_roundtrip `{IntSize} nodes :
  nodes ≠ [] → Forall node_ok nodes →
  ∃ r, DecodeOmaCPFromTPDU (encode_document nodes) =
    Parsed (mkOmaCP (1, 3) [Characteristic "wap-provisioningdoc" ∅ (meaning <$> nodes)]) r.
Proof.
  intros Hne Hn. eexists. unfold DecodeOmaCPFromTPDU. set (data := encode_document nodes).
  assert (Hd : data = [0x03; 0x0B; 0x6A; 0x00; 0x45] ++ List.concat (encode_node <$> nodes) ++ [0x01]) by done.
  pose proof (encode_document_found nodes) as Hfound. fold data in Hfound. rewrite Hfound.
  assert (H0 : here data 0 (0x03 :: 0x0B :: 0x6A :: 0x00 :: 0x45 :: List.concat (encode_node <$> nodes) ++ [0x01])).
  { split; [lia|]. by rewrite Hd. }
  assert (Hlen : bool_decide (len data < 4) = false).
  { apply bool_decide_eq_false_2. rewrite Hd. cbn [app]. rewrite !len_cons.
    pose proof (len_nonneg (List.concat (encode_node <$> nodes) ++ [1])). lia. }
  unfold decodeWBXML. rewrite Hlen, (here_readByte data _ _ _ H0). cbn [check]. apply here_next in H0.
  rewrite (here_readMB data _ 11 _ ltac:(lia) H0). cbn [check]. change (bool_decide (11 ≠ 11)) with false.
  apply here_next in H0. rewrite (here_readMB data _ 106 _ ltac:(lia) H0). cbn [check].
  apply here_next in H0. rewrite (here_readMB data _ 0 _ ltac:(lia) H0). cbn [check].
  change (bool_decide (0 > 0)) with false. cbn [check]. apply here_next in H0.
  pose proof (here_idx _ _ _ _ H0) as [_ He].
  assert (Hn_len : List.length data = S (S (S (S (List.length (0x45 :: List.concat (encode_node <$> nodes) ++ [1])))))) by (by rewrite Hd).
  rewrite Hn_len. cbn [body]. rewrite He.
  rewrite (root_element data [] nodes (wbxml_fuel data) _ [] Hne Hn H0) by (unfold wbxml_fuel; lia).
  cbn [app]. replace (eof data _) with true; [cbn [check]; reflexivity|].
  symmetry. unfold eof. cbn [rd_pos]. apply bool_decide_eq_true_2. rewrite Hd.
  rewrite !len_app. change (len [3; 11; 106; 0; 69]) with 5. change (len [1]) with 1. lia.
Qed.

Definition sample_nodes : list node :=
  [Node 0xA4 [(0x08, [97; 112; 110]); (0x11, [])] [Node 0xA7 [(0x15, [49])] []]].

Lemma document_roundtrip_witness :
  ∃ r, DecodeOmaCPFromTPDU (H:=amd64) (encode_document sample_nodes) =
    Parsed (mkOmaCP (1, 3) [Characteristic "wap-provisioningdoc" ∅ (meaning <$> sample_nodes)]) r.
Proof.
  apply (document_roundtrip (H:=amd64) sample_nodes).
  - discriminate.
  - unfold sample_nodes. repeat first [constructor | split]; (discriminate || reflexivity || idtac).
Defined.
