(* ===== verification/SmsBinary.v ===== *)
(** * Binary messages: ports, push headers, classification (pkg/smscodec/binary_classifier.go)

    A binary message is labelled by its port, its WSP content type or its
    first bytes; provisioning messages are decoded and summarised
    ([FormatOmaCPSummary] of wbxml_omacp.go, whose order of parameters is the
    order in which Go walks a map, a parameter here).  The parsed TPDU of the
    third-party package is the record of the fields that are read. *)

From S2P Require Import Prelude GoText SmsCodec SmsWbxml.
From stdpp Require Import strings pretty gmap.
From Stdlib Require Import Ascii String.

#[local] Open Scope Z_scope.

(** ** Ports *)

Record IE := mkIE { ie_ID : Z; ie_Data : bytes }.

(** The fields of [tpdu.TPDU] that the classifier reads. *)
Record TPDU := mkTPDU { t_UDH : list IE; t_PID : Z; t_DCS : Z }.

Definition wapPushPort16 : Z := 2948.

Record udhPorts := mkPorts {
  DestPort16 : Z; SrcPort16 : Z; Has16Bit : bool;
  DestPort8 : Z; SrcPort8 : Z; Has8Bit : bool;
}.

Definition preferredDestPort (p : udhPorts) : Z * bool :=
  if Has16Bit p then (DestPort16 p, true)
  else if Has8Bit p then (DestPort8 p, true)
  else (0, false).

Definition be16 (hi lo : Z) : Z := Z.lor (u16 (Z.shiftl hi 8)) lo.

(** The body of the loop of [parseUDHPorts]. *)
Definition udh_step (out : udhPorts) (ie : IE) : udhPorts :=
  if bool_decide (ie_ID ie = 0x05) then
    match ie_Data ie with
    | d0 :: d1 :: d2 :: d3 :: _ =>
        mkPorts (be16 d0 d1) (be16 d2 d3) true (DestPort8 out) (SrcPort8 out) (Has8Bit out)
    | _ => out
    end
  else if bool_decide (ie_ID ie = 0x04) then
    match ie_Data ie with
    | d0 :: d1 :: _ => mkPorts (DestPort16 out) (SrcPort16 out) (Has16Bit out) d0 d1 true
    | _ => out
    end
  else out.

Definition parseUDHPorts (udh : list IE) : udhPorts :=
  foldl udh_step (mkPorts 0 0 false 0 0 false) udh.

Fixpoint extractUDHDestPort16 (udh : list IE) : Z * bool :=
  match udh with
  | [] => (0, false)
  | ie :: udh =>
      match ie_Data ie with
      | d0 :: d1 :: _ :: _ :: _ =>
          if bool_decide (ie_ID ie = 0x05) then (be16 d0 d1, true) else extractUDHDestPort16 udh
      | _ => extractUDHDestPort16 udh
      end
  end.

Definition IsOmaCPMessage (udh : list IE) : bool :=
  let '(port, ok) := preferredDestPort (parseUDHPorts udh) in ok && bool_decide (port = 2948).

(** ** Texts in a payload *)

Definition readCString (b : bytes) : string := string_of (cstring b).

Definition printable (b : Z) : bool := bool_decide (0x20 <= b) && bool_decide (b <= 0x7E).
Definition isLikelyASCII (b : Z) : bool := printable b.

(** The inner loop of [extractURL] stops at one of these. *)
Definition url_stop (ch : ascii) : bool :=
  bool_decide (code ch ∈ [0; 32; 13; 10; 34; 39; 60; 62]).

Fixpoint url_prefix (s : string) : string :=
  match s with
  | EmptyString => EmptyString
  | String ch s => if url_stop ch then EmptyString else String ch (url_prefix s)
  end.

Fixpoint url_scan (prefixes : list string) (s : string) : string :=
  match prefixes with
  | [] => EmptyString
  | prefix :: prefixes =>
      match String.index 0 prefix s with
      | None => url_scan prefixes s
      | Some i => url_prefix (substring i (String.length s - i) s)
      end
  end.

Definition extractURL (data : bytes) : string :=
  url_scan ["https://"; "http://"]%string (string_of data).

(** The loop of [extractPrintableHint]: [n] bytes are in the builder. *)
Fixpoint hint_loop (data : bytes) (n max : Z) : bytes :=
  match data with
  | [] => []
  | b :: data =>
      let kept := printable b || bool_decide (b = 10) || bool_decide (b = 13) || bool_decide (b = 9) in
      let n := if kept then n + 1 else n in
      let rest := if bool_decide (n >= max) then [] else hint_loop data n max in
      if kept then b :: rest else rest
  end.

Definition extractPrintableHint (data : bytes) (max : Z) : string :=
  TrimSpace (string_of (hint_loop data 0 max)).

(** The indices of the loops [for i := 0; i+1 < len(data); i++]. *)
Definition indices (data : bytes) : list Z := seqZ 0 (len data - 1).

Definition at_ (data : bytes) (i : Z) : Z := default 0 (data !! Z.to_nat i).

Definition isLikelyMMSNotification (payload : bytes) : bool :=
  existsb (λ i, bool_decide (at_ payload i = 0x8C) && bool_decide (at_ payload (i + 1) = 0x82)) (indices payload).

Fixpoint tagged_cstring (data : bytes) (tag : Z) (l : list Z) : string :=
  match l with
  | [] => EmptyString
  | i :: l =>
      if bool_decide (at_ data i ≠ tag) then tagged_cstring data tag l
      else
        let v := readCString (drop (Z.to_nat (i + 1)) data) in
        if bool_decide (v ≠ EmptyString) then v else tagged_cstring data tag l
  end.

Definition extractTaggedCString (data : bytes) (tag : Z) : string := tagged_cstring data tag (indices data).

Fixpoint tagged_uint (data : bytes) (tag : Z) (l : list Z) : option Z :=
  match l with
  | [] => None
  | i :: l =>
      if bool_decide (at_ data i ≠ tag) then tagged_uint data tag l
      else
        match parseMBUint32At data (i + 1) with
        | MBValue v _ => Some v
        | MBBad _ => tagged_uint data tag l
        end
  end.

Definition extractTaggedUint (data : bytes) (tag : Z) : option Z := tagged_uint data tag (indices data).

Definition wbxmlPublicID (data : bytes) : option Z :=
  if bool_decide (len data < 3) then None
  else if bool_decide (at_ data 0 < 0x01) || bool_decide (at_ data 0 > 0x03) then None
  else match parseMBUint32At data 1 with MBValue pid _ => Some pid | MBBad _ => None end.

Definition isLikelySIWBXML (data : bytes) : bool :=
  match wbxmlPublicID data with Some pid => bool_decide (pid = 0x05) || bool_decide (pid = 0x06) | None => false end.

Definition isLikelySLWBXML (data : bytes) : bool :=
  match wbxmlPublicID data with Some pid => bool_decide (pid = 0x06) || bool_decide (pid = 0x07) | None => false end.

(** ** Content types and push headers *)

Definition oma_type : string := "application/vnd.wap.connectivity-wbxml".
Definition mms_type : string := "application/vnd.wap.mms-message".

Definition isLikelyOMAContentType (ct : string) : bool := bool_decide (ct = oma_type).
Definition isLikelySIContentType (ct : string) : bool :=
  bool_decide (ct = "application/vnd.wap.sic"%string) || bool_decide (ct = "application/vnd.wap.si"%string).
Definition isLikelySLContentType (ct : string) : bool :=
  bool_decide (ct = "application/vnd.wap.slc"%string) || bool_decide (ct = "application/vnd.wap.sl"%string).
Definition isLikelyMMSContentType (ct : string) : bool := bool_decide (ct = mms_type).

Definition mapWSPContentTypeToken (tok : Z) : string :=
  if bool_decide (tok = 0x2E) then "application/vnd.wap.sic"%string
  else if bool_decide (tok = 0x30) then oma_type
  else if bool_decide (tok = 0x31) then "application/vnd.wap.slc"%string
  else if bool_decide (tok = 0x3E) then mms_type
  else ("token:0x" +:+ lower2 tok)%string.

Section Classify.
Context (unicode_lower : string → string) (params_order : gmap string string → list (string * string)).

Definition normalizeContentType (s : string) : string := ToLower unicode_lower (TrimSpace s).

Definition parseWSPContentType (headers : bytes) : go codec_error string :=
  match headers with
  | [] => Ok EmptyString
  | h :: _ =>
      if bool_decide (Z.land h 0x80 ≠ 0) then Ok (mapWSPContentTypeToken (Z.land h 0x7F))
      else if isLikelyASCII h then Ok (normalizeContentType (readCString headers))
      else
        let valueLen := h in
        if bool_decide (valueLen > 0) && bool_decide (1 + valueLen <= len headers) then
          v ← slice headers 1 (1 + valueLen);
          match v with
          | v0 :: _ =>
              if bool_decide (Z.land v0 0x80 ≠ 0) then Ok (mapWSPContentTypeToken (Z.land v0 0x7F))
              else Ok (normalizeContentType (readCString v))
          | [] => Ok (normalizeContentType (readCString v))
          end
        else Ok EmptyString
  end.

Record wspPush := mkWSP { w_TransactionID : Z; w_PDUType : Z; w_ContentType : string; w_Body : bytes }.

(** [parseWSPPush]; [None] is the result whose [Ok] is false. *)
Definition parseWSPPush (data : bytes) : go codec_error (option wspPush) :=
  if bool_decide (len data < 4) then Ok None
  else
    tid ← idx data 0;
    pduType ← idx data 1;
    if bool_decide (pduType ≠ 0x06) && bool_decide (pduType ≠ 0x07) then Ok None
    else
      headersLen ← idx data 2;
      if bool_decide (headersLen < 0) || bool_decide (3 + headersLen > len data) then Ok None
      else
        headers ← slice data 3 (3 + headersLen);
        body ← slice_from data (3 + headersLen);
        ct ← parseWSPContentType headers;
        Ok (Some (mkWSP tid pduType ct body)).

(** ** SIM OTA *)

Definition tryParseSIMOTAHeader (payload : bytes) : option (Z * Z * Z) :=
  if bool_decide (len payload < 6) then None
  else
    let chl := at_ payload 1 in
    if bool_decide (chl < 5) || bool_decide (2 + chl > len payload) then None
    else Some (be16 (at_ payload 2) (at_ payload 3), at_ payload 4, at_ payload 5).

Definition isLikelyClass2 (dcs : Z) : bool :=
  if bool_decide (Z.land dcs 0x10 = 0) then false else bool_decide (Z.land dcs 0x03 = 0x02).

Definition isLikelySIMOTA (t : TPDU) (payload : bytes) (ct : string) (hasDestPort : bool) (destPort : Z) : bool :=
  if bool_decide (ct ≠ EmptyString) &&
     (isLikelyOMAContentType ct || isLikelySIContentType ct || isLikelySLContentType ct || isLikelyMMSContentType ct)
  then false
  else if hasDestPort && bool_decide (destPort = wapPushPort16) then false
  else if bool_decide (u8 (t_PID t) = 0x7F) then true
  else isLikelyClass2 (u8 (t_DCS t)) && bool_decide (tryParseSIMOTAHeader payload ≠ None).

(** ** The summary of a provisioning document *)

Definition newline : string := String (char 10) EmptyString.

Fixpoint repeat_string (n : nat) (s : string) : string :=
  match n with O => EmptyString | S n => s +:+ repeat_string n s end.

Definition appIDNames (id : string) : option string :=
  if bool_decide (id = "w2"%string) then Some "WAP 浏览器"%string
  else if bool_decide (id = "w4"%string) then Some "浏览器书签"%string
  else if bool_decide (id = "w5"%string) then Some "MMS 彩信"%string
  else if bool_decide (id = "w7"%string) then Some "SyncML DM"%string
  else if bool_decide (id = "25"%string) then Some "SMTP 邮件"%string
  else if bool_decide (id = "110"%string) then Some "POP3 邮件"%string
  else if bool_decide (id = "143"%string) then Some "IMAP4 邮件"%string
  else if bool_decide (id = "ap0004"%string) then Some "MMS"%string
  else if bool_decide (id = "ap0005"%string) then Some "SyncML DM"%string
  else if bool_decide (id = "APSERVICE"%string) then Some "通用应用服务"%string
  else if bool_decide (id = "OTA-HTTP-TO"%string) then Some "OTA HTTP"%string
  else if bool_decide (id = "OTA-HTTP-TLS-TO"%string) then Some "OTA HTTPS"%string
  else None.

(** Texts with a separator between them. *)
Fixpoint joined (sep : string) (l : list string) : string :=
  match l with
  | [] => EmptyString
  | [s] => s
  | s :: l => s +:+ sep +:+ joined sep l
  end.

Fixpoint formatCharacteristic (c : characteristic) (indent : nat) : string :=
  let 'Characteristic type params subs := c in
  let pre := repeat_string indent "  " in
  if bool_decide (type = "wap-provisioningdoc"%string) then
    joined newline ((λ s, formatCharacteristic s indent) <$> subs)
  else
    let app :=
      if bool_decide (type = "APPLICATION"%string) then
        match params !! "APPID"%string with
        | Some appID => match appIDNames appID with Some name => " (" +:+ name +:+ ")" | None => EmptyString end
        | None => EmptyString
        end
      else EmptyString in
    (pre +:+ "📋 " +:+ type +:+ app +:+ newline +:+
      String.concat EmptyString ((λ p, pre +:+ "  " +:+ fst p +:+ ": " +:+ snd p +:+ newline) <$> params_order params) +:+
      String.concat EmptyString ((λ s, formatCharacteristic s (S indent)) <$> subs))%string.

Definition FormatOmaCPSummary (cfg : OmaCPConfig) : string :=
  match oc_Characteristics cfg with
  | [] => "(空配置)"%string
  | cs => joined newline ((λ c, formatCharacteristic c 0) <$> cs)
  end.

(** [strings.Split(s, "\n")] *)
Fixpoint split_lines (s : string) : list string :=
  match s with
  | EmptyString => [EmptyString]
  | String a s =>
      if Ascii.eqb a (char 10) then EmptyString :: split_lines s
      else match split_lines s with l :: ls => String a l :: ls | [] => [String a EmptyString] end
  end.

(** ** Classification *)

Inductive binaryKind := KindUnknown | KindOmaCP | KindWAPSI | KindWAPSL | KindMMSNotification | KindSIMOTA.
#[global] Instance binaryKind_eq_dec : EqDecision binaryKind.
Proof. solve_decision. Defined.

Record classification := mkClass {
  Kind : binaryKind; Label : string; SummaryLines : list string; RawHex : string; Payload : bytes;
  ContentType : string; DestPort : Z; HasDestPort : bool; IsPossEncrypted : bool;
}.

Definition labelled (k : binaryKind) (label : string) (lines : list string) (encrypted : bool)
    (c : classification) : classification :=
  mkClass k label (SummaryLines c ++ lines) (RawHex c) (Payload c) (ContentType c) (DestPort c)
    (HasDestPort c) encrypted.

Definition nonempty_line (name v : string) : list string :=
  if bool_decide (v = EmptyString) then [] else [(name +:+ v)%string].

Definition addSISLHints (payload : bytes) : list string :=
  nonempty_line "url=" (extractURL payload) ++ nonempty_line "hint=" (extractPrintableHint payload 80).

Definition addMMSHints (payload : bytes) : list string :=
  nonempty_line "x_mms_transaction_id=" (extractTaggedCString payload 0x98) ++
  nonempty_line "content_location=" (extractTaggedCString payload 0x83) ++
  match extractTaggedUint payload 0x8E with Some size => [("message_size=" +:+ pretty size)%string] | None => [] end ++
  nonempty_line "url=" (extractURL payload).

(** The classification before the kind is known: port, push header, payload. *)
Definition opened (t : TPDU) (msg : bytes) : go codec_error classification :=
  let '(destPort, hasDestPort) := preferredDestPort (parseUDHPorts (t_UDH t)) in
  wsp ← parseWSPPush msg;
  Ok (match wsp with
      | Some w =>
          mkClass KindUnknown "二进制数据"
            (nonempty_line "content_type=" (w_ContentType w) ++
             [("wsp_tid=0x" +:+ lower2 (w_TransactionID w) +:+ " pdu=0x" +:+ lower2 (w_PDUType w))%string])
            (EncodeToString msg) (w_Body w) (w_ContentType w) destPort hasDestPort false
      | None =>
          mkClass KindUnknown "二进制数据" [] (EncodeToString msg) msg EmptyString destPort hasDestPort false
      end).

(** A decoder that crashes, or runs out of fuel, crashes the classifier. *)
Definition classify_oma `{IntSize} (c : classification) : go codec_error classification :=
  let label := labelled KindOmaCP "OMA CP 运营商配置短信" in
  match DecodeOmaCPFromTPDU (Payload c) with
  | Parsed cfg _ => Ok (label (split_lines (TrimSpace (FormatOmaCPSummary cfg))) false c)
  | Failed _ => Ok (label ["wbxml_decode=failed (可能加密/非明文)"%string] true c)
  | Crashed | OutOfFuel => Panic
  end.

Definition classifyBinarySMS `{IntSize} (t : TPDU) (msg : bytes) : go codec_error classification :=
  c ← opened t msg;
  let ct := ContentType c in let payload := Payload c in
  if (HasDestPort c && bool_decide (DestPort c = wapPushPort16)) || isLikelyOMAContentType ct then classify_oma c
  else if isLikelySIContentType ct || isLikelySIWBXML payload then
    Ok (labelled KindWAPSI "WAP SI Push" (addSISLHints payload) false c)
  else if isLikelySLContentType ct || isLikelySLWBXML payload then
    Ok (labelled KindWAPSL "WAP SL Push" (addSISLHints payload) false c)
  else if isLikelyMMSContentType ct || isLikelyMMSNotification payload then
    Ok (labelled KindMMSNotification "MMS Notification" (addMMSHints payload) false c)
  else if isLikelySIMOTA t payload ct (HasDestPort c) (DestPort c) then
    let header :=
      match tryParseSIMOTAHeader payload with
      | Some (spi, kic, kid) =>
          ["spi=0x" +:+ lower2 (spi / 256) +:+ lower2 (spi `mod` 256) +:+ " kic=0x" +:+ lower2 kic
           +:+ " kid=0x" +:+ lower2 kid]%string
      | None => []
      end in
    Ok (labelled KindSIMOTA "SIM OTA 23.048" (header ++ ["decrypt=not_attempted"%string]) true c)
  else Ok c.

Definition formatBinaryClassification (c : classification) : string :=
  ("[" +:+ Label c +:+ "]" +:+ newline +:+
    (if HasDestPort c then "dest_port=" +:+ pretty (DestPort c) +:+ newline else EmptyString) +:+
    String.concat EmptyString
      ((λ line, if bool_decide (TrimSpace line = EmptyString) then EmptyString else TrimSpace line +:+ newline)
         <$> SummaryLines c) +:+
    (if IsPossEncrypted c then "security=可能加密" +:+ newline else EmptyString) +:+
    "raw=" +:+ RawHex c)%string.
End Classify.
