(* ===== verification/SmsBinaryProofs.v ===== *)
(** * Properties of the classifier of binary messages *)

From S2P Require Import Prelude GoText SmsCodec SmsCodecProofs SmsWbxml SmsWbxmlProofs SmsBinary.
From stdpp Require Import strings pretty gmap.
From Stdlib Require Import Ascii String.

#[local] Open Scope Z_scope.

Section Theorems.
Context (unicode_lower : string → string) (params_order : gmap string string → list (string * string)).

Lemma opened_Ok t msg : bytes_ok msg →
  ∃ c, opened unicode_lower t msg = Ok c ∧ RawHex c = EncodeToString msg ∧ Payload c `suffix_of` msg ∧
    Kind c = KindUnknown ∧ (DestPort c, HasDestPort c) = preferredDestPort (parseUDHPorts (t_UDH t)).
Proof.
  intros Hok. unfold opened. destruct (preferredDestPort _) as [port has] eqn:Hport.
  assert (Hwsp : ∃ w, parseWSPPush unicode_lower msg = Ok w ∧
    match w with Some w => w_Body w `suffix_of` msg | None => True end).
  { unfold parseWSPPush. case_bool_decide; [by exists None|].
    destruct (idx_Ok (E:=codec_error) msg 0) as (tid & _ & ->); [lia|]. cbn [mbind go_bind].
    destruct (idx_Ok (E:=codec_error) msg 1) as (pdu & _ & ->); [lia|]. cbn [mbind go_bind].
    destruct (_ && _); [by exists None|].
    destruct (idx_Ok (E:=codec_error) msg 2) as (n & _ & Hn); [lia|]. rewrite Hn. cbn [mbind go_bind].
    pose proof (idx_byte _ _ _ Hok Hn) as Hn'. unfold byte_ok in Hn'.
    rewrite (bool_decide_eq_false_2 (n < 0)) by lia. cbn [orb]. case_bool_decide; [by exists None|].
    rewrite slice_fld, slice_from_fld by lia. cbn [mbind go_bind].
    assert (Hct : ∃ ct, parseWSPContentType unicode_lower (fld msg 3 n) = Ok ct).
    { unfold parseWSPContentType. replace (3 + n - 3) with n by lia.
      destruct (fld msg 3 n) as [|h l] eqn:Hf; [by eexists|].
      case_bool_decide; [by eexists|]. destruct (isLikelyASCII h); [by eexists|].
      destruct (_ && _) eqn:Hv; [|by eexists]. apply andb_true_iff in Hv as [Hv1%bool_decide_eq_true Hv2%bool_decide_eq_true].
      rewrite slice_fld by lia. cbn [mbind go_bind]. destruct (fld _ 1 _); [by eexists|]. case_bool_decide; by eexists. }
    replace (3 + n - 3) with n in * by lia. destruct Hct as [ct ->]. eexists (Some _). split; [done|]. cbn.
    rewrite <-drop_fld by lia. exists (take (Z.to_nat (3 + n)) msg). by rewrite take_drop. }
  destruct Hwsp as (w & -> & Hw). cbn [mbind go_bind]. destruct w as [w|]; eexists; split_and!; done.
Qed.

(** Binary messages are never lost.  On a 64-bit build the classifier
    returns for every message, whatever its headers, without a panic; and the
    text it stores ends in the hexadecimal of the whole message. *)
Theorem binary_message_kept `{IntSize} t msg :
  int_bits = 64 → bytes_ok msg → len msg < 2 ^ 62 →
  ∃ c text raw, classifyBinarySMS unicode_lower params_order t msg = Ok c ∧
    formatBinaryClassification c = (text +:+ "raw=" +:+ raw)%string ∧ DecodeString raw = Some msg.
Proof.
  intros Hbits Hok Hlen. destruct (opened_Ok t msg Hok) as (o & Ho & Hraw & [k Hsuf] & _).
  assert (Hend : ∀ c, RawHex c = RawHex o → ∃ text raw,
    formatBinaryClassification c = (text +:+ "raw=" +:+ raw)%string ∧ DecodeString raw = Some msg).
  { intros c Hc. unfold formatBinaryClassification.
    exists ("[" +:+ Label c +:+ "]" +:+ newline +:+
    (if HasDestPort c then "dest_port=" +:+ pretty (DestPort c) +:+ newline else EmptyString) +:+
    String.concat EmptyString
      ((λ line, if bool_decide (TrimSpace line = EmptyString) then EmptyString else TrimSpace line +:+ newline)
         <$> SummaryLines c) +:+
    (if IsPossEncrypted c then "security=可能加密" +:+ newline else EmptyString))%string, (RawHex c).
    split; [by rewrite !append_assoc|]. rewrite Hc, Hraw. by apply hex_roundtrip. }
  unfold classifyBinarySMS. rewrite Ho. cbn [mbind go_bind].
  assert (Hdone : ∀ c, RawHex c = RawHex o → ∃ c' text raw, Ok (E:=codec_error) c = Ok c' ∧
    formatBinaryClassification c' = (text +:+ "raw=" +:+ raw)%string ∧ DecodeString raw = Some msg).
  { intros c Hc. destruct (Hend c Hc) as (text & raw & Ht & Hr). by exists c, text, raw. }
  case_match; [|repeat (case_match; [by apply Hdone|]); by apply Hdone].
  unfold classify_oma. assert (Hp : bytes_ok (Payload o)) by (rewrite Hsuf in Hok; by apply bytes_ok_app in Hok as [_ ?]).
  assert (Hl : len (Payload o) < 2 ^ 62).
  { rewrite Hsuf, len_app in Hlen. pose proof (len_nonneg k). lia. }
  destruct (decode_returns (Payload o) Hbits Hp Hl) as [(cfg & r & ->)|(r & ->)]; by apply Hdone.
Qed.

(** A push whose WBXML public identifier is 6, the one the code lists for
    SL, is always reported as SI (or as provisioning): the test for SI accepts
    6 too and comes first, even when the content type says SL. *)
Theorem sl_reported_as_si `{IntSize} t msg o c :
  opened unicode_lower t msg = Ok o → wbxmlPublicID (Payload o) = Some 0x06 →
  classifyBinarySMS unicode_lower params_order t msg = Ok c → Kind c = KindWAPSI ∨ Kind c = KindOmaCP.
Proof.
  intros Ho Hid. unfold classifyBinarySMS. rewrite Ho. cbn [mbind go_bind].
  assert (Hsi : isLikelySIWBXML (Payload o) = true) by (unfold isLikelySIWBXML; by rewrite Hid).
  rewrite Hsi, orb_true_r. case_match.
  - unfold classify_oma. destruct (DecodeOmaCPFromTPDU (Payload o)); [intros [= <-]; by right..|done|done].
  - intros [= <-]. by left.
Qed.
End Theorems.

(** A push with the content type of SL and the public identifier of SL. *)
Definition sl_push : bytes :=
  [0x01; 0x06; 0x01; 0xB1; 0x02; 0x06; 0x6A; 0x00; 0x85; 0x0A; 0x03; 0x61; 0x00; 0x01].

Lemma sl_reported_as_si_witness : ∃ c,
  classifyBinarySMS (H:=amd64) id map_to_list (mkTPDU [] 0 4) sl_push = Ok c ∧
  ContentType c = "application/vnd.wap.slc"%string ∧ (Kind c = KindWAPSI ∨ Kind c = KindOmaCP).
Proof.
  destruct (classifyBinarySMS (H:=amd64) id map_to_list (mkTPDU [] 0 4) sl_push) as [c|e|] eqn:Hc.
  - exists c. split; [reflexivity|]. split.
    + revert Hc. vm_compute. intros [= <-]. reflexivity.
    + destruct (opened id (mkTPDU [] 0 4) sl_push) as [o|e|] eqn:Ho.
      * apply (sl_reported_as_si (H:=amd64) id map_to_list (mkTPDU [] 0 4) sl_push o c Ho); [|exact Hc].
        vm_compute in Ho. injection Ho as <-. vm_compute. reflexivity.
      * exfalso. revert Ho. vm_compute. discriminate.
      * exfalso. revert Ho. vm_compute. discriminate.
  - exfalso. revert Hc. vm_compute. discriminate.
  - exfalso. revert Hc. vm_compute. discriminate.
Defined.

Lemma binary_message_kept_witness : ∃ c text raw,
  classifyBinarySMS (H:=amd64) id map_to_list (mkTPDU [mkIE 5 [0x0B; 0x84; 0x23; 0xF0]] 0 4) sample_document = Ok c ∧
  formatBinaryClassification c = (text +:+ "raw=" +:+ raw)%string ∧ DecodeString raw = Some sample_document.
Proof.
  apply (binary_message_kept (H:=amd64) id map_to_list).
  - reflexivity.
  - apply (bool_decide_unpack _). vm_compute. exact I.
  - vm_compute. reflexivity.
Defined.
