(* ===== verification/SimIdentity.v ===== *)
(** * SIM identities (pkg/simidentity)

    The canonical form of an ICCID, the key under which everything about a card
    is stored, and the decoding of the card's file.  Strings are byte
    sequences; [strings.Map] works on their runes. *)

From S2P Require Import Prelude GoText GoUnicode SmsCodec.
From Stdlib Require Import Ascii String.

#[local] Open Scope Z_scope.

(** [unicode.IsSpace] *)
Definition IsSpace (r : Z) : bool :=
  bool_decide (9 ≤ r ≤ 13 ∨ r = 32 ∨ r = 0x85 ∨ r = 0xA0 ∨ r = 0x1680 ∨ 0x2000 ≤ r ≤ 0x200A ∨
    r = 0x2028 ∨ r = 0x2029 ∨ r = 0x202F ∨ r = 0x205F ∨ r = 0x3000).

(** [strings.Map] with a mapping that drops the white space. *)
Definition drop_spaces (s : string) : string :=
  string_of (utf8_encode (List.filter (λ r, negb (IsSpace r)) (runes (bytes_of s)))).

(** [strings.Trim] of quotation marks. *)
Definition quote : ascii := char 34.
Definition trim_quotes (s : string) : string := TrimRightChar quote (TrimLeftChar quote s).

Definition all_hex (s : string) : bool := forallb is_hex_digit (list_ascii_of_string s).

Definition CanonicalICCID (value : string) : string :=
  let value := trim_quotes (TrimSpace value) in
  if HasPrefix value "imsi:" || HasPrefix value "reader-imsi-" then value
  else
    let value := drop_spaces value in
    if negb (all_hex value) then value else TrimRightChar "F" (ToUpper id value).

(** The two digits of each octet, the low half first. *)
Definition DecodeICCID (data : bytes) : string :=
  TrimRightChar "F"
    (string_of_list_ascii (List.concat ((λ o, [HEX_digit (Z.land o 0x0F); HEX_digit (Z.shiftr o 4)]) <$> data))).

Example canonical_spaces : CanonicalICCID " 8986 00123456f7890123 " = "898600123456F7890123"%string.
Proof. reflexivity. Qed.
Example canonical_padding : CanonicalICCID "898600abcdef123456ff" = "898600ABCDEF123456"%string.
Proof. reflexivity. Qed.
Example canonical_synthetic : CanonicalICCID "ICCF" = "ICCF"%string.
Proof. reflexivity. Qed.
Example canonical_imsi : CanonicalICCID "imsi:AbcF" = "imsi:AbcF"%string.
Proof. reflexivity. Qed.

(** ** An identity read from the card is canonical *)

Definition is_HEX (a : ascii) : bool :=
  is_digit a || (Nat.leb 65 (nat_of_ascii a) && Nat.leb (nat_of_ascii a) 70).

Lemma no_prefix a p s : Forall (λ b, b ≠ a) (list_ascii_of_string s) → HasPrefix s (String a p) = false.
Proof.
  destruct s as [|b s]; [done|]. cbn. inversion 1 as [|? ? Hb _]; subst. unfold HasPrefix. cbn.
  by destruct (ascii_dec a b) as [<-|].
Qed.

Section Canonical.
Context (s : string) (hex : Forall (λ a, is_HEX a = true) (list_ascii_of_string s)).

Lemma HEX_facts a : is_HEX a = true →
  visible a = true ∧ a ≠ quote ∧ is_hex_digit a = true ∧ ascii_upper a = a ∧ IsSpace (code a) = false ∧
  0 ≤ code a < 128 ∧ a ≠ "i"%char ∧ a ≠ "r"%char.
Proof.
  assert (Hall : Forall (λ a, is_HEX a = true → visible a = true ∧ Ascii.eqb a quote = false ∧
    is_hex_digit a = true ∧ Ascii.eqb (ascii_upper a) a = true ∧ IsSpace (code a) = false ∧
    0 ≤ code a < 128 ∧ Ascii.eqb a "i" = false ∧ Ascii.eqb a "r" = false) (ascii_of_nat <$> seq 0 256)).
  { apply (bool_decide_unpack _). vm_compute. exact I. }
  rewrite Forall_forall in Hall. intros Ha. destruct (Hall a) as (H1 & H2 & H3 & H4 & H5 & H6 & H7 & H8).
  - apply list_elem_of_fmap. exists (nat_of_ascii a). rewrite ascii_nat_embedding. split; [done|].
    apply elem_of_seq. pose proof (nat_ascii_bounded a). lia.
  - done.
  - apply Ascii.eqb_neq in H2, H7, H8. apply Ascii.eqb_eq in H4. tauto.
Qed.

Lemma trim_front_char_id c t : Forall (λ a, a ≠ c) (list_ascii_of_string t) → trim_front_char c t = t.
Proof.
  destruct t as [|a t]; [done|]. cbn. inversion 1 as [|? ? Ha _]. by destruct (Ascii.eqb_spec a c).
Qed.

Lemma trim_quotes_id : trim_quotes s = s.
Proof.
  assert (Hq : Forall (λ a, a ≠ quote) (list_ascii_of_string s)).
  { eapply Forall_impl; [exact hex|]. intros a Ha. by apply HEX_facts. }
  unfold trim_quotes, TrimLeftChar, TrimRightChar. rewrite (trim_front_char_id quote s) by done.
  rewrite trim_front_char_id; [apply rev_string_involutive|]. rewrite rev_string_list. by apply Forall_rev.
Qed.

Lemma bytes_of_ascii : Forall (λ r, 0 ≤ r < 128 ∧ IsSpace r = false) (bytes_of s).
Proof.
  unfold bytes_of. apply Forall_fmap. eapply Forall_impl; [exact hex|]. intros a Ha.
  destruct (HEX_facts a Ha) as (_ & _ & _ & _ & ? & ? & _). done.
Qed.

Lemma drop_spaces_id : drop_spaces s = s.
Proof.
  unfold drop_spaces. assert (E : utf8_encode (List.filter (λ r, negb (IsSpace r)) (runes (bytes_of s))) = bytes_of s).
  { generalize bytes_of_ascii. generalize (bytes_of s). intros b. induction 1 as [|x b [Hx Hsp] _ IH]; [done|].
    cbn [runes]. rewrite bool_decide_eq_true_2 by lia. cbn [List.filter]. rewrite Hsp. cbn [negb].
    match goal with |- utf8_encode (x :: ?l) = _ => change (utf8_rune x ++ utf8_encode l = x :: b) end.
    rewrite IH. unfold utf8_rune.
    assert (Hsc : scalar x = true) by (apply bool_decide_eq_true_2; lia). rewrite Hsc.
    by rewrite bool_decide_eq_true_2 by lia. }
  rewrite E. unfold string_of, bytes_of. apply string_ext. rewrite list_ascii_of_string_of_list_ascii.
  clear. induction (list_ascii_of_string s) as [|a l IH]; [done|]. cbn. rewrite IH. unfold char, code.
  by rewrite Nat2Z.id, ascii_nat_embedding.
Qed.

Lemma ToUpper_id : ToUpper id s = s.
Proof.
  unfold ToUpper. assert (E : (ascii_upper <$> list_ascii_of_string s) = list_ascii_of_string s).
  { rewrite <-(list_fmap_id (list_ascii_of_string s)) at 2. apply list_fmap_ext. intros i a Hi.
    apply HEX_facts. by apply (Forall_lookup_1 _ _ _ _ hex Hi). }
  destruct (is_ascii s); [|done]. by rewrite E, string_of_list_ascii_of_string.
Qed.

Lemma canonical_HEX : CanonicalICCID s = TrimRightChar "F" s.
Proof.
  assert (Hv : Forall (λ a, visible a = true) (list_ascii_of_string s)).
  { eapply Forall_impl; [exact hex|]. intros a Ha. by apply HEX_facts. }
  unfold CanonicalICCID. rewrite TrimSpace_visible, trim_quotes_id by done.
  assert (Hp : HasPrefix s "imsi:" = false ∧ HasPrefix s "reader-imsi-" = false).
  { split; apply no_prefix; (eapply Forall_impl; [exact hex|]); intros a Ha;
      destruct (HEX_facts a Ha) as (_ & _ & _ & _ & _ & _ & Hi & Hr); done. }
  destruct Hp as [-> ->]. cbn [orb]. rewrite drop_spaces_id.
  assert (Hall : all_hex s = true).
  { apply forallb_forall. intros a Ha%list_elem_of_In. rewrite Forall_forall in hex. by apply HEX_facts, hex. }
  rewrite Hall. cbn [negb]. by rewrite ToUpper_id.
Qed.
End Canonical.

(** Removing the trailing padding again changes nothing. *)
Lemma trim_front_char_idem c s : trim_front_char c (trim_front_char c s) = trim_front_char c s.
Proof. induction s as [|a s IH]; [done|]. cbn. destruct (Ascii.eqb a c) eqn:E; [done|]. cbn. by rewrite E. Qed.

Lemma TrimRightChar_idem c s : TrimRightChar c (TrimRightChar c s) = TrimRightChar c s.
Proof. unfold TrimRightChar. by rewrite rev_string_involutive, trim_front_char_idem. Qed.

Lemma trim_front_char_suffix c s : list_ascii_of_string (trim_front_char c s) `suffix_of` list_ascii_of_string s.
Proof. induction s as [|a s IH]; [done|]. cbn. destruct (Ascii.eqb a c); [by apply suffix_cons_r|done]. Qed.

Lemma TrimRightChar_HEX c s :
  Forall (λ a, is_HEX a = true) (list_ascii_of_string s) →
  Forall (λ a, is_HEX a = true) (list_ascii_of_string (TrimRightChar c s)).
Proof.
  intros Hs. unfold TrimRightChar. rewrite rev_string_list. apply Forall_rev.
  destruct (trim_front_char_suffix c (rev_string s)) as [k Hk]. rewrite rev_string_list in Hk.
  assert (Hr : Forall (λ a, is_HEX a = true) (rev (list_ascii_of_string s))) by by apply Forall_rev.
  rewrite Hk in Hr. by apply Forall_app in Hr as [_ ?].
Qed.

(** The identity that a card's file decodes to is its own canonical form. *)
Lemma decoded_canonical data : bytes_ok data → CanonicalICCID (DecodeICCID data) = DecodeICCID data.
Proof.
  intros Hd. unfold DecodeICCID. set (s := string_of_list_ascii _).
  assert (Hs : Forall (λ a, is_HEX a = true) (list_ascii_of_string s)).
  { unfold s. rewrite list_ascii_of_string_of_list_ascii. clear s.
    assert (Hdig : Forall (λ d, is_HEX (HEX_digit d) = true) (seqZ 0 16)) by (apply (bool_decide_unpack _); vm_compute; exact I).
    rewrite Forall_forall in Hdig. induction Hd as [|o data Ho _ IH]; [constructor|].
    unfold byte_ok in Ho. cbn. apply Forall_cons; split; [|apply Forall_cons; split; [|exact IH]]; apply Hdig, elem_of_seqZ.
    - change 15 with (Z.ones 4). rewrite Z.land_ones by lia. zdiv.
    - rewrite Z.shiftr_div_pow2 by lia. zdiv. }
  rewrite canonical_HEX by by apply TrimRightChar_HEX. by apply TrimRightChar_idem.
Qed.
