(* ===== verification/Outbound.v ===== *)
(** * Limits on outgoing calls and messages (internal/outbound)

    Every attempt is charged to the card before it is sent.  Times are in
    nanoseconds since the zero [time.Time]; the clock is later.  The history of
    a card is kept by a store, the interface [UsageStore], whose [Update] runs
    one read-modify-write at a time (internal/db/outbound_usage.go is a
    transaction of a database).  Texts of errors are not modelled. *)

From S2P Require Import Prelude GoText SimIdentity.
From stdpp Require Import strings gmap.
From Stdlib Require Import String.

#[local] Open Scope Z_scope.

Definition Kind : Type := string.
Definition Call : Kind := "call".
Definition SMS : Kind := "sms".

Definition Second : Z := 1000000000.
Definition Hour : Z := 3600 * Second.

(** [t.Sub(u)]: durations saturate. *)
Definition Sub (t u : Z) : Z := Z.max (- 2 ^ 63) (Z.min (2 ^ 63 - 1) (t - u)).

(** ** Policy *)

Record Limit := mkLimit { Disabled : option bool; IntervalSeconds : Z; PerHour : Z; PerDay : Z }.
Record Policy := mkPolicy { p_Calls : Limit; p_SMS : Limit }.
Record Config := mkConfig { c_Policy : Policy; c_Cards : gmap string Policy }.

Inductive limit_reason := RequestTooLarge | MinInterval | RollingHour | RollingDay.

Inductive outbound_error :=
  | ConfigError
  | ContextError
  | InvalidKind
  | InvalidUnits
  | NoIdentity
  | CorruptHistory
  | StoreError
  | LimitedError (kind : Kind) (reason : limit_reason) (RetryAfter : Z).

Definition maxIntervalSeconds : Z := (2 ^ 63 - 1) / Second.

Definition inherit (v d : Z) : Z := if bool_decide (v = 0) then d else v.

Definition normalizeLimit (value defaults : Limit) : go outbound_error Limit :=
  if bool_decide (IntervalSeconds value > maxIntervalSeconds) then Err ConfigError
  else if bool_decide (IntervalSeconds value < 0) || bool_decide (PerHour value < 0) || bool_decide (PerDay value < 0)
  then Err ConfigError
  else
    Ok (mkLimit (match Disabled value with None => Disabled defaults | Some b => Some b end)
          (inherit (IntervalSeconds value) (IntervalSeconds defaults))
          (inherit (PerHour value) (PerHour defaults)) (inherit (PerDay value) (PerDay defaults))).

Definition normalizePolicy (value defaults : Policy) : go outbound_error Policy :=
  calls ← normalizeLimit (p_Calls value) (p_Calls defaults);
  sms ← normalizeLimit (p_SMS value) (p_SMS defaults);
  Ok (mkPolicy calls sms).

Definition default_policy : Policy := mkPolicy (mkLimit None 10 20 100) (mkLimit None 5 30 100).

(** The loop of [normalized] over the cards, in the order in which the map is
    walked. *)
Fixpoint normalize_cards (base : Policy) (cards : list (string * Policy)) (result : gmap string Policy)
    : go outbound_error (gmap string Policy) :=
  match cards with
  | [] => Ok result
  | (id, policy) :: cards =>
      let key := CanonicalICCID id in
      if bool_decide (key = EmptyString) then Err ConfigError
      else if bool_decide (is_Some (result !! key)) then Err ConfigError
      else
        value ← normalizePolicy policy base;
        normalize_cards base cards (<[key := value]> result)
  end.

Definition normalized (c : Config) : go outbound_error Config :=
  base ← normalizePolicy (c_Policy c) default_policy;
  cards ← normalize_cards base (map_to_list (c_Cards c)) ∅;
  Ok (mkConfig base cards).

(** ** Histories *)

Record Event := mkEvent { At : Z; Units : Z }.

Record historyRequest := mkHistory { h_Kind : Kind; h_Units : Z; h_Limit : Limit; h_Now : Z }.

(** The units of the events later than [now - duration]. *)
Definition units_after (t : Z) (events : list Event) : Z :=
  foldr (λ e n, if bool_decide (At e > t) then Units e + n else n) 0 events.

(** The second loop of [windowDeadline]. *)
Fixpoint deadline_loop (events : list Event) (used room from duration : Z) : Z :=
  match events with
  | [] => 0
  | e :: events =>
      if bool_decide (used <= room) then 0
      else if negb (bool_decide (At e > from)) then deadline_loop events used room from duration
      else
        let used := used - Units e in
        if bool_decide (used <= room) then At e + duration
        else deadline_loop events used room from duration
  end.

Definition windowDeadline (events : list Event) (request : historyRequest) (duration limit : Z) : Z :=
  let from := h_Now request - duration in
  deadline_loop events (units_after from events) (limit - h_Units request) from duration.

Definition latest (events : list Event) : Z :=
  foldl (λ t e, if bool_decide (At e > t) then At e else t) 0 events.

Definition later (d : Z * limit_reason) (until : Z) (reason : limit_reason) : Z * limit_reason :=
  if bool_decide (until > fst d) then (until, reason) else d.

Definition kept (now : Z) (events : list Event) : list Event :=
  List.filter (λ e, bool_decide (At e > now - 24 * Hour)) events.

(** The moment from which the request would be accepted, and what it waits for. *)
Definition deadline (events : list Event) (request : historyRequest) : Z * limit_reason :=
  let limit := h_Limit request in
  let kept := kept (h_Now request) events in
  let d := (latest events + i64 (IntervalSeconds limit * Second), MinInterval) in
  let d := later d (windowDeadline kept request Hour (PerHour limit)) RollingHour in
  later d (windowDeadline kept request (24 * Hour) (PerDay limit)) RollingDay.

Definition consumeHistory (events : list Event) (request : historyRequest) : go outbound_error (list Event) :=
  if existsb (λ e, bool_decide (Units e <= 0)) events then Err CorruptHistory
  else
    let '(deadline, reason) := deadline events request in
    if bool_decide (deadline > h_Now request)
    then Err (LimitedError (h_Kind request) reason (Sub deadline (h_Now request)))
    else Ok (kept (h_Now request) events ++ [mkEvent (h_Now request) (h_Units request)]).

(** ** The store and the limiter *)

Definition Key : Type := string * Kind.

Class UsageStore (S : Type) := {
  history : S → Key → list Event;
  Update : Key → (list Event → go outbound_error (list Event)) → S → go outbound_error unit * S;
}.

(** What the code relies on: one update at a time, of one key, and nothing
    changes when [apply] returns an error.  A failure of the store itself may
    come after the new history was written. *)
Class UsageStoreLaws (S : Type) `{UsageStore S} := {
  update_other : ∀ k f s k', k' ≠ k → history (snd (Update k f s)) k' = history s k';
  update_ok : ∀ k f s, fst (Update k f s) = Ok tt → f (history s k) = Ok (history (snd (Update k f s)) k);
  update_refused : ∀ k f s e, f (history s k) = Err e → history (snd (Update k f s)) k = history s k;
  update_failed : ∀ k f s, history (snd (Update k f s)) k = history s k ∨
    f (history s k) = Ok (history (snd (Update k f s)) k);
}.

Record Request := mkRequest { r_ICCID : string; r_Kind : Kind; r_Units : Z }.

Definition limitFor (c : Config) (id : string) (kind : Kind) : Limit :=
  let policy := default (c_Policy c) (c_Cards c !! id) in
  if bool_decide (kind = Call) then p_Calls policy else p_SMS policy.

(** [Consume] with a context that is alive or not, at time [now]. *)
Definition Consume {S : Type} `{UsageStore S} (config : Config) (alive : bool) (request : Request) (now : Z) (s : S)
    : go outbound_error unit * S :=
  if negb alive then (Err ContextError, s)
  else if bool_decide (r_Kind request ≠ Call) && bool_decide (r_Kind request ≠ SMS) then (Err InvalidKind, s)
  else if bool_decide (r_Units request <= 0) then (Err InvalidUnits, s)
  else
    let id := CanonicalICCID (r_ICCID request) in
    let limit := limitFor config id (r_Kind request) in
    if bool_decide (Disabled limit = Some true) then (Ok tt, s)
    else if bool_decide (id = EmptyString) then (Err NoIdentity, s)
    else if bool_decide (r_Units request > PerHour limit) || bool_decide (r_Units request > PerDay limit)
    then (Err (LimitedError (r_Kind request) RequestTooLarge 0), s)
    else
      Update (id, r_Kind request)
        (λ events, consumeHistory events (mkHistory (r_Kind request) (r_Units request) limit now)) s.

(** The store of a single process: every update is written. *)
#[export] Instance map_store : UsageStore (gmap Key (list Event)) := {
  history s k := default [] (s !! k);
  Update k f s :=
    match f (default [] (s !! k)) with
    | Ok ev => (Ok tt, <[k := ev]> s)
    | Err e => (Err e, s)
    | Panic => (Panic, s)
    end;
}.

#[export] Instance map_store_laws : UsageStoreLaws (gmap Key (list Event)).
Proof.
  split; intros k f s; cbn.
  - intros k' Hk. destruct (f _); cbn; [by rewrite lookup_insert_ne by congruence|done..].
  - destruct (f _); cbn; [by rewrite lookup_insert_eq|done..].
  - intros e He. by rewrite He.
  - destruct (f _); cbn; [right; by rewrite lookup_insert_eq|by left..].
Qed.

(** ** A history of attempts *)

Record attempt := mkAttempt { a_alive : bool; a_request : Request; a_now : Z }.

Definition attempt_key (a : attempt) : Key := (CanonicalICCID (r_ICCID (a_request a)), r_Kind (a_request a)).

(** The attempts in the order in which the store serves them, which is the order
    of the clock read inside the update; with their results. *)
Fixpoint attempts {S : Type} `{UsageStore S} (config : Config) (l : list attempt) (s : S)
    : list (attempt * go outbound_error unit) * S :=
  match l with
  | [] => ([], s)
  | a :: l =>
      let '(r, s) := Consume config (a_alive a) (a_request a) (a_now a) s in
      let '(rs, s) := attempts config l s in
      ((a, r) :: rs, s)
  end.

(** What was let through for a card and kind. *)
Definition let_through (k : Key) (rs : list (attempt * go outbound_error unit)) : list Event :=
  omap (λ x, if bool_decide (attempt_key (fst x) = k)
             then match snd x with Ok _ => Some (mkEvent (a_now (fst x)) (r_Units (a_request (fst x)))) | _ => None end
             else None) rs.

(** The units of the events in [(from, to]]. *)
Definition units_between (from to : Z) (events : list Event) : Z :=
  foldr (λ e n, if bool_decide (from < At e ≤ to) then Units e + n else n) 0 events.
