(* ===== verification/OutboundProofs.v ===== *)
(** * The limits are kept, and a refusal says exactly when to come back *)

From S2P Require Import Prelude GoText SimIdentity Outbound.
From stdpp Require Import strings gmap sorting.
From Stdlib Require Import String.

#[local] Open Scope Z_scope.

Definition units_ok (events : list Event) : Prop := Forall (λ e, 0 < Units e) events.

Lemma corrupt_false events : units_ok events → existsb (λ e, bool_decide (Units e <= 0)) events = false.
Proof.
  induction 1 as [|e events He _ IH]; [done|]. cbn. rewrite bool_decide_eq_false_2 by lia. exact IH.
Qed.

Lemma corrupt_inv events : existsb (λ e, bool_decide (Units e <= 0)) events = false → units_ok events.
Proof.
  induction events as [|e events IH]; cbn; [constructor|].
  intros [He Hr]%orb_false_iff. apply bool_decide_eq_false in He. constructor; [lia|by apply IH].
Qed.

Lemma units_after_cons t e events :
  units_after t (e :: events) = if bool_decide (At e > t) then Units e + units_after t events else units_after t events.
Proof. done. Qed.

Lemma units_after_app t a b : units_after t (a ++ b) = units_after t a + units_after t b.
Proof. induction a as [|e a IH]; [done|]. cbn [app]. rewrite !units_after_cons, IH. case_bool_decide; lia. Qed.

Lemma units_after_nonneg t events : units_ok events → 0 ≤ units_after t events.
Proof. induction 1 as [|e events He _ IH]; [done|]. rewrite units_after_cons. case_bool_decide; lia. Qed.

(** The events dropped from the history are outside of every window. *)
Lemma units_after_filter t t' events :
  t' ≤ t → units_after t (List.filter (λ e, bool_decide (At e > t')) events) = units_after t events.
Proof.
  intros Ht. induction events as [|e events IH]; [done|]. cbn [List.filter]. rewrite units_after_cons.
  case_bool_decide as H1; rewrite ?units_after_cons, IH; [done|]. by rewrite bool_decide_eq_false_2 by lia.
Qed.

Lemma units_after_perm t a b : a ≡ₚ b → units_after t a = units_after t b.
Proof. induction 1; rewrite ?units_after_cons; repeat case_bool_decide; lia. Qed.

Lemma units_after_submseteq t a b : a ⊆+ b → units_ok b → units_after t a ≤ units_after t b.
Proof.
  intros [c Hc]%submseteq_Permutation Hok. rewrite (units_after_perm _ _ _ Hc), units_after_app.
  unfold units_ok in Hok. rewrite Hc in Hok. apply Forall_app in Hok as [_ Hok].
  pose proof (units_after_nonneg t c Hok). lia.
Qed.

Lemma units_after_earlier t t' events : units_ok events → t' ≤ t → units_after t events ≤ units_after t' events.
Proof.
  intros Hok Ht. induction Hok as [|e events He _ IH]; [done|]. rewrite !units_after_cons.
  repeat case_bool_decide; lia.
Qed.

(** When everything is later than both times, so is the sum. *)
Lemma units_after_all t events : Forall (λ e, At e > t) events → units_after t events = foldr (λ e n, Units e + n) 0 events.
Proof. induction 1 as [|e events He _ IH]; [done|]. rewrite units_after_cons, bool_decide_eq_true_2, IH; done. Qed.

(** ** Deadlines *)

(** A window that is too full gives a deadline in the future. *)
Lemma deadline_full events room from duration :
  0 ≤ room → units_after from events > room →
  deadline_loop events (units_after from events) room from duration > from + duration.
Proof.
  intros Hroom. induction events as [|e events IH]; [cbn; lia|]. intros Hfull.
  cbn [deadline_loop]. rewrite bool_decide_eq_false_2 by lia. rewrite units_after_cons in *.
  case_bool_decide as He; cbn [negb]; [|by apply IH].
  rewrite Z.add_comm, Z.add_simpl_r. case_bool_decide; [lia|]. apply IH. lia.
Qed.

Lemma deadline_free events used room from duration :
  used ≤ room → deadline_loop events used room from duration = 0.
Proof. intros. destruct events; cbn; [done|]. by rewrite bool_decide_eq_true_2. Qed.

(** When the events are in the order of time, the deadline is the moment from
    which the request fits the window. *)
Lemma deadline_exact events room from duration t :
  StronglySorted (λ e f, At e ≤ At f) events → units_ok events → 0 ≤ room → from ≤ t →
  units_after from events > room →
  units_after t events ≤ room ↔ deadline_loop events (units_after from events) room from duration ≤ t + duration.
Proof.
  intros Hs Hok Hroom Ht.
  induction Hs as [|e events Hs IH Hall]; [cbn; lia|]. inversion Hok as [|? ? He Hok']; subst. intros Hfull.
  assert (Hlate : At e > t → units_after t events = units_after from events).
  { intros Hgt. rewrite !units_after_all; [done|..]; (eapply Forall_impl; [exact Hall|]); intros f Hf; cbn in *; lia. }
  cbn [deadline_loop]. rewrite bool_decide_eq_false_2 by lia. rewrite units_after_cons in *.
  rewrite (units_after_cons from) in *. destruct (decide (At e > from)) as [Hin|Hin].
  - rewrite (bool_decide_eq_true_2 (At e > from)) in * by done. cbn [negb].
    rewrite (Z.add_comm (Units e) (units_after from events)), Z.add_simpl_r.
    pose proof (units_after_earlier t from events Hok' Ht).
    case_bool_decide as Ht'; case_bool_decide as Hfit.
    + specialize (Hlate Ht'). lia.
    + specialize (Hlate Ht'). specialize (IH Hok' ltac:(lia)). lia.
    + lia.
    + apply IH; [done|lia].
  - rewrite (bool_decide_eq_false_2 (At e > from)) in * by done. cbn [negb].
    rewrite (bool_decide_eq_false_2 (At e > t)) by lia. by apply IH.
Qed.

(** ** One request *)

Lemma latest_from events : ∀ t, let m := foldl (λ t e, if bool_decide (At e > t) then At e else t) t events in
  t ≤ m ∧ Forall (λ e, At e ≤ m) events ∧ (m = t ∨ ∃ e, e ∈ events ∧ At e = m).
Proof.
  induction events as [|e events IH]; intros t; cbn [foldl]; [by split_and!; [lia|constructor|left]|].
  destruct (IH (if bool_decide (At e > t) then At e else t)) as (H1 & H2 & H3).
  split_and!; [by case_bool_decide; lia|constructor; [by case_bool_decide; lia|done]|].
  destruct H3 as [->|(f & Hf & <-)]; [|right; exists f; split; [by right|done]].
  case_bool_decide; [right; exists e; split; [by left|done]|by left].
Qed.

Lemma latest_ge events e : e ∈ events → At e ≤ latest events.
Proof. intros He. destruct (latest_from events 0) as (_ & H & _). rewrite Forall_forall in H. by apply H. Qed.

Lemma latest_le events now : 0 ≤ now → Forall (λ e, At e ≤ now) events → latest events ≤ now.
Proof.
  intros Hn H. unfold latest. destruct (latest_from events 0) as (_ & _ & [->|(e & He & <-)]); [done|].
  rewrite Forall_forall in H. by apply H.
Qed.

Definition limit_ok (l : Limit) : Prop := 0 ≤ IntervalSeconds l ≤ maxIntervalSeconds.

Definition interval (l : Limit) : Z := IntervalSeconds l * Second.

Lemma interval_ok l : limit_ok l → i64 (IntervalSeconds l * Second) = interval l ∧ 0 ≤ interval l < 2 ^ 63.
Proof.
  intros H. unfold limit_ok, maxIntervalSeconds, Second in H.
  assert (0 ≤ interval l < 2 ^ 63) by (unfold interval, Second; zdiv).
  split; [|done]. unfold i64. apply signed_id; [done|]. unfold interval in *. lia.
Qed.

(** A request that fits the limits at time [t]. *)
Definition fits (events : list Event) (request : historyRequest) (t : Z) : Prop :=
  latest events + interval (h_Limit request) ≤ t ∧
  units_after (t - Hour) events ≤ PerHour (h_Limit request) - h_Units request ∧
  units_after (t - 24 * Hour) events ≤ PerDay (h_Limit request) - h_Units request.

Definition request_ok (request : historyRequest) : Prop :=
  limit_ok (h_Limit request) ∧ 0 < h_Now request ∧
  0 < h_Units request ≤ PerHour (h_Limit request) ∧ h_Units request ≤ PerDay (h_Limit request).

Lemma kept_ok now events : units_ok events → units_ok (kept now events).
Proof.
  intros H. unfold kept, units_ok in *. rewrite Forall_forall in *. intros e He%list_elem_of_In.
  apply filter_In in He as [He _]. by apply H, list_elem_of_In.
Qed.

Lemma units_after_kept now t events : now - 24 * Hour ≤ t → units_after t (kept now events) = units_after t events.
Proof. apply units_after_filter. Qed.

(** The deadline is past exactly when the request fits now. *)
Lemma window_fits events request duration limit :
  duration ≤ 24 * Hour → 0 < h_Now request → h_Units request ≤ limit →
  windowDeadline (kept (h_Now request) events) request duration limit ≤ h_Now request ↔
  units_after (h_Now request - duration) events ≤ limit - h_Units request.
Proof.
  intros Hd Hn Hu. unfold windowDeadline. rewrite (units_after_kept (h_Now request)) by lia.
  destruct (decide (units_after (h_Now request - duration) events ≤ limit - h_Units request)) as [Hf|Hf].
  - rewrite deadline_free by done. lia.
  - pose proof (deadline_full (kept (h_Now request) events) (limit - h_Units request) (h_Now request - duration) duration) as Hx.
    rewrite (units_after_kept (h_Now request)) in Hx by lia. lia.
Qed.

Lemma later_fst d until reason : fst (later d until reason) = Z.max (fst d) until.
Proof. unfold later. case_bool_decide; cbn; lia. Qed.

Lemma deadline_fst events request : limit_ok (h_Limit request) →
  fst (deadline events request) =
  Z.max (Z.max (latest events + interval (h_Limit request))
    (windowDeadline (kept (h_Now request) events) request Hour (PerHour (h_Limit request))))
    (windowDeadline (kept (h_Now request) events) request (24 * Hour) (PerDay (h_Limit request))).
Proof. intros Hl. unfold deadline. rewrite !later_fst. cbn [fst]. by destruct (interval_ok _ Hl) as [-> _]. Qed.

Lemma deadline_fits events request :
  request_ok request → fst (deadline events request) ≤ h_Now request ↔ fits events request (h_Now request).
Proof.
  intros (Hl & Hn & Hh & Hd). rewrite deadline_fst by done. unfold fits.
  rewrite <-!window_fits by (unfold Hour, Second; lia). lia.
Qed.

Lemma consume_fits events request :
  units_ok events → request_ok request → fits events request (h_Now request) →
  consumeHistory events request = Ok (kept (h_Now request) events ++ [mkEvent (h_Now request) (h_Units request)]).
Proof.
  intros Hok Hr Hf%deadline_fits; [|done]. unfold consumeHistory. rewrite corrupt_false by done.
  destruct (deadline events request) as [d reason]. cbn in Hf. by rewrite bool_decide_eq_false_2 by lia.
Qed.

Lemma consume_refused events request :
  units_ok events → request_ok request → ¬ fits events request (h_Now request) →
  ∃ reason, consumeHistory events request =
    Err (LimitedError (h_Kind request) reason (Sub (fst (deadline events request)) (h_Now request))).
Proof.
  intros Hok Hr Hf. rewrite <-deadline_fits in Hf by done. unfold consumeHistory. rewrite corrupt_false by done.
  destruct (deadline events request) as [d reason]. cbn in *. exists reason. by rewrite bool_decide_eq_true_2 by lia.
Qed.

Lemma consume_Ok_inv events request events' :
  request_ok request → consumeHistory events request = Ok events' →
  units_ok events ∧ fits events request (h_Now request) ∧
  events' = kept (h_Now request) events ++ [mkEvent (h_Now request) (h_Units request)].
Proof.
  intros Hr H. assert (Hok : units_ok events).
  { apply corrupt_inv. unfold consumeHistory in H. by destruct (existsb _ _). }
  destruct (decide (fst (deadline events request) ≤ h_Now request)) as [Hf|Hf]; rewrite deadline_fits in Hf by done.
  - rewrite consume_fits in H by done. by injection H as <-.
  - destruct (consume_refused events request Hok Hr Hf) as [reason Hx]. by rewrite Hx in H.
Qed.

(** ** Every window of a run *)

Lemma units_between_cons a b e events :
  units_between a b (e :: events) = if bool_decide (a < At e ≤ b) then Units e + units_between a b events else units_between a b events.
Proof. done. Qed.

Lemma between_after a b events : units_ok events → units_between a b events ≤ units_after a events.
Proof.
  induction 1 as [|e events He _ IH]; [done|]. rewrite units_between_cons, units_after_cons.
  repeat case_bool_decide; lia.
Qed.

Lemma between_app a b l k : units_between a b (l ++ k) = units_between a b l + units_between a b k.
Proof. induction l as [|e l IH]; [done|]. cbn [app]. rewrite !units_between_cons, IH. case_bool_decide; lia. Qed.

Lemma StronglySorted_snoc {A} (R : A → A → Prop) l x :
  StronglySorted R l → Forall (λ y, R y x) l → StronglySorted R (l ++ [x]).
Proof.
  induction 1 as [|y l Hs IH Hy]; intros Hx; cbn; [by repeat constructor|].
  inversion Hx; subst. constructor; [by apply IH|]. apply Forall_app. by split; [|constructor].
Qed.

Section Run.
Context {S : Type} `{UsageStoreLaws S} (config : Config) (k : Key).
Let limit : Limit := limitFor config (fst k) (snd k).
Context (limit_fine : limit_ok limit) (enforced : Disabled limit ≠ Some true).

(** What was let through so far, against the history that the store holds. *)
Record charged (now : Z) (acc : list Event) (h : list Event) : Prop := {
  ch_units : units_ok acc;
  ch_past : Forall (λ e, At e ≤ now) acc;
  ch_kept : ∀ t, now - 24 * Hour ≤ t → units_after t acc ≤ units_after t h;
  ch_latest : Forall (λ e, At e ≤ latest h) acc;
  ch_hour : ∀ t, units_between (t - Hour) t acc ≤ Z.max 0 (PerHour limit);
  ch_day : ∀ t, units_between (t - 24 * Hour) t acc ≤ Z.max 0 (PerDay limit);
  ch_gaps : StronglySorted (λ e f, At e + interval limit ≤ At f) acc;
}.

Lemma charged_later now now' acc h : charged now acc h → now ≤ now' → charged now' acc h.
Proof.
  intros [] Hn. split; try done.
  - eapply Forall_impl; [exact ch_past0|]. cbn. lia.
  - intros t Ht. apply ch_kept0. lia.
Qed.

(** The history after a request that fits holds it, whether or not the caller
    was told. *)
Lemma charged_written now acc h request :
  charged now acc h → now ≤ h_Now request → request_ok request → h_Limit request = limit →
  charged (h_Now request) acc (kept (h_Now request) h ++ [mkEvent (h_Now request) (h_Units request)]).
Proof.
  intros Hc Hn (_ & _ & Hu & _) Hl. apply (charged_later _ (h_Now request)) in Hc; [|done]. destruct Hc.
  split; try done.
  - intros t Ht. rewrite units_after_app, units_after_kept by done. specialize (ch_kept0 t Ht).
    rewrite units_after_cons. cbn [Units]. change (units_after t []) with 0. case_bool_decide; lia.
  - rewrite Forall_forall in *. intros e He. specialize (ch_past0 e He). cbn in ch_past0. etrans; [exact ch_past0|].
    change (h_Now request) with (At (mkEvent (h_Now request) (h_Units request))) at 1. apply latest_ge.
    apply elem_of_app. right. by left.
Qed.

Lemma window_grows now acc h request duration per :
  charged now acc h → now ≤ h_Now request → 0 < h_Units request → 0 ≤ duration ≤ 24 * Hour →
  units_after (h_Now request - duration) h ≤ per - h_Units request →
  (∀ t, units_between (t - duration) t acc ≤ Z.max 0 per) →
  ∀ t, units_between (t - duration) t (acc ++ [mkEvent (h_Now request) (h_Units request)]) ≤ Z.max 0 per.
Proof.
  intros Hc Hn Hu Hd Hfit Hold t. rewrite between_app, units_between_cons. cbn [At Units].
  change (units_between (t - duration) t []) with 0. specialize (Hold t).
  case_bool_decide as Hin; [|lia].
  pose proof (between_after (t - duration) t acc (ch_units _ _ _ Hc)) as H1.
  pose proof (units_after_earlier (t - duration) (h_Now request - duration) acc (ch_units _ _ _ Hc) ltac:(lia)) as H2.
  pose proof (ch_kept _ _ _ Hc (h_Now request - duration) ltac:(lia)) as H3. lia.
Qed.

Lemma charged_accepted now acc h request :
  charged now acc h → now ≤ h_Now request → request_ok request → h_Limit request = limit →
  fits h request (h_Now request) →
  charged (h_Now request) (acc ++ [mkEvent (h_Now request) (h_Units request)])
    (kept (h_Now request) h ++ [mkEvent (h_Now request) (h_Units request)]).
Proof.
  intros Hc Hn Hr Hl (Hi & Hh & Hd). pose proof (charged_written _ _ _ _ Hc Hn Hr Hl) as Hw.
  destruct Hr as (_ & _ & Hu & _). rewrite Hl in Hi, Hh, Hd. destruct Hw as [W1 W2 W3 W4 W5 W6 W7].
  assert (Hnew : At (mkEvent (h_Now request) (h_Units request)) ≤
    latest (kept (h_Now request) h ++ [mkEvent (h_Now request) (h_Units request)])).
  { apply latest_ge, elem_of_app. right. by left. }
  split.
  - apply Forall_app. split; [done|]. apply Forall_singleton. cbn. lia.
  - apply Forall_app. split; [done|]. apply Forall_singleton. cbn. lia.
  - intros t Ht. rewrite !units_after_app, units_after_kept by done.
    pose proof (ch_kept _ _ _ Hc t ltac:(lia)). lia.
  - apply Forall_app. split; [done|]. by apply Forall_singleton.
  - apply (window_grows now acc h); [done|done|lia|unfold Hour, Second; lia|done|apply Hc].
  - apply (window_grows now acc h); [done|done|lia|unfold Hour, Second; lia|done|apply Hc].
  - apply StronglySorted_snoc; [done|]. pose proof (ch_latest _ _ _ Hc) as Hlat.
    eapply Forall_impl; [exact Hlat|]. intros e He. cbn in *. lia.
Qed.

(** ** The run *)

Lemma let_through_cons a r rs :
  let_through k ((a, r) :: rs) =
  (if bool_decide (attempt_key a = k)
   then match r with Ok _ => [mkEvent (a_now a) (r_Units (a_request a))] | _ => [] end else []) ++ let_through k rs.
Proof.
  unfold let_through. cbn [omap list_omap fst snd]. case_bool_decide; [|done]. by destruct r.
Qed.

Lemma consume_step now acc s a :
  charged now acc (history s k) → now ≤ a_now a → 0 < a_now a →
  let '(r, s') := Consume config (a_alive a) (a_request a) (a_now a) s in
  charged (a_now a) (acc ++ let_through k [(a, r)]) (history s' k).
Proof.
  intros Hc Hn Hpos. pose proof (charged_later _ _ _ _ Hc Hn) as Hsame.
  rewrite <-(app_nil_r acc) in Hsame.
  assert (Hskip : ∀ e, charged (a_now a) (acc ++ let_through k [(a, Err e)]) (history s k)).
  { intros e. rewrite let_through_cons. by case_bool_decide. }
  unfold Consume. destruct (negb _); [apply Hskip|]. destruct (_ && _); [apply Hskip|].
  case_bool_decide as Hu; [apply Hskip|]. cbv zeta. fold (attempt_key a).
  case_bool_decide as Hdis.
  { rewrite let_through_cons. case_bool_decide as Hk; [|exact Hsame]. exfalso. apply enforced.
    unfold limit. rewrite <-Hk. exact Hdis. }
  case_bool_decide; [apply Hskip|]. destruct (_ || _) eqn:Hlim; [apply Hskip|].
  apply orb_false_iff in Hlim as [Hph%bool_decide_eq_false Hpd%bool_decide_eq_false].
  change (CanonicalICCID (r_ICCID (a_request a)), r_Kind (a_request a)) with (attempt_key a).
  set (l := limitFor config (CanonicalICCID (r_ICCID (a_request a))) (r_Kind (a_request a))) in *.
  set (q := mkHistory (r_Kind (a_request a)) (r_Units (a_request a)) l (a_now a)).
  set (f := λ events, consumeHistory events q).
  pose proof (update_ok (attempt_key a) f s) as Hok. pose proof (update_failed (attempt_key a) f s) as Hfail.
  pose proof (update_other (attempt_key a) f s k) as Hother.
  destruct (Update (attempt_key a) f s) as [r s'] eqn:HU. cbn [fst snd] in *. rewrite let_through_cons.
  case_bool_decide as Hk; [|rewrite Hother by done; exact Hsame].
  assert (Hl : l = limit) by (unfold l, limit; by rewrite <-Hk).
  assert (Hq : request_ok q).
  { unfold request_ok. cbn [h_Limit h_Now h_Units q]. split; [by rewrite Hl|]. lia. }
  rewrite Hk in *. destruct r as [[]|e|].
  - destruct (consume_Ok_inv _ _ _ Hq (Hok eq_refl)) as (_ & Hfits & ->).
    by apply (charged_accepted now acc (history s k) q).
  - cbn. destruct Hfail as [->|Hw]; [exact Hsame|]. destruct (consume_Ok_inv _ _ _ Hq Hw) as (_ & _ & ->).
    rewrite !app_nil_r. by apply (charged_written now acc (history s k) q).
  - cbn. destruct Hfail as [->|Hw]; [exact Hsame|]. destruct (consume_Ok_inv _ _ _ Hq Hw) as (_ & _ & ->).
    rewrite !app_nil_r. by apply (charged_written now acc (history s k) q).
Qed.

Lemma run_charged l : ∀ now acc s,
  charged now acc (history s k) → Sorted Z.le (now :: (a_now <$> l)) → 0 < now →
  let '(rs, s') := attempts config l s in
  ∃ now', charged now' (acc ++ let_through k rs) (history s' k).
Proof.
  induction l as [|a l IH]; intros now acc s Hc Hs Hn; cbn [attempts].
  - exists now. change (let_through k []) with (@nil Event). by rewrite app_nil_r.
  - inversion Hs as [|? ? Hs' Hh]; subst. inversion Hh; subst.
    pose proof (consume_step now acc s a Hc ltac:(done) ltac:(lia)) as Hstep.
    destruct (Consume config _ _ _ s) as [r s1]. specialize (IH (a_now a) _ s1 Hstep Hs' ltac:(lia)).
    destruct (attempts config l s1) as [rs s2]. destruct IH as [now' IH]. exists now'.
    rewrite let_through_cons. rewrite let_through_cons in IH. change (let_through k []) with (@nil Event) in IH.
    rewrite app_nil_r in IH. by rewrite (assoc_L app).
Qed.

Lemma charged_nil now h : units_ok h → charged now [] h.
Proof.
  intros Hh. split; try by constructor.
  - intros t _. change (units_after t []) with 0. by apply units_after_nonneg.
  - intros t. change (units_between _ t []) with 0. lia.
  - intros t. change (units_between _ t []) with 0. lia.
Qed.
End Run.

(** C24: the limits of a card hold in every window.  Whatever attempts are made,
    for this card and others, as long as the clock does not go back, and even
    when the store fails after writing: the units let through for the card in
    any hour are at most [PerHour], in any day at most [PerDay], and any two
    attempts let through are at least the interval apart. *)
Theorem limits_kept {S : Type} `{UsageStoreLaws S} config k l s now :
  let limit := limitFor config (fst k) (snd k) in
  limit_ok limit → 0 ≤ PerHour limit → 0 ≤ PerDay limit → Disabled limit ≠ Some true →
  units_ok (history s k) → 0 < now → Sorted Z.le (now :: (a_now <$> l)) →
  let passed := let_through k (fst (attempts config l s)) in
  (∀ t, units_between (t - Hour) t passed ≤ PerHour limit) ∧
  (∀ t, units_between (t - 24 * Hour) t passed ≤ PerDay limit) ∧
  StronglySorted (λ e f, At e + interval limit ≤ At f) passed.
Proof.
  intros limit Hl Hh Hd He Hok Hn Hs passed.
  pose proof (run_charged config k Hl He l now [] s (charged_nil config k now _ Hok) Hs Hn) as Hrun.
  unfold passed. destruct (attempts config l s) as [rs s']. destruct Hrun as [now' []]. cbn [fst app] in *.
  split_and!; [intros t|intros t|done].
  - specialize (ch_hour0 t). unfold limit in *. lia.
  - specialize (ch_day0 t). unfold limit in *. lia.
Qed.

(** ** Refusals *)

Definition timely (now : Z) (h : list Event) : Prop :=
  units_ok h ∧ StronglySorted (λ e f, At e ≤ At f) h ∧ Forall (λ e, At e ≤ now) h.
Lemma fits_deadline h q t :
  timely (h_Now q) h → request_ok q → h_Now q ≤ t →
  fits h q t ↔ fst (deadline h q) ≤ t.
Proof.
  intros (Hok & Hs & Hp) (Hl & Hn & Hh & Hd) Ht. rewrite deadline_fst by done. unfold fits.
  assert (Hw : ∀ duration per, duration ≤ 24 * Hour → h_Units q ≤ per →
    (units_after (t - duration) h ≤ per - h_Units q ↔
     windowDeadline (kept (h_Now q) h) q duration per ≤ t)).
  { intros duration per Hdur Hper. unfold windowDeadline. rewrite (units_after_kept (h_Now q)) by lia.
    rewrite <-(units_after_kept (h_Now q) (t - duration)) by lia.
    destruct (decide (units_after (h_Now q - duration) h ≤ per - h_Units q)) as [Hf|Hf].
    - rewrite deadline_free by done. split; [lia|]. intros _. etrans; [|exact Hf].
      rewrite units_after_kept by lia. apply units_after_earlier; [done|lia].
    - replace t with (t - duration + duration) at 2 by lia.
      rewrite <-(units_after_kept (h_Now q) (h_Now q - duration)) in Hf |- * by lia.
      apply deadline_exact; [|by apply kept_ok|lia|lia|lia].
      unfold kept. clear -Hs. induction Hs as [|e h Hs IH Hall]; cbn; [constructor|].
      case_bool_decide; [|done]. constructor; [done|]. rewrite Forall_forall in *.
      intros f Hf%list_elem_of_In. apply filter_In in Hf as [Hf _]. by apply Hall, list_elem_of_In. }
  rewrite !Hw by (unfold Hour, Second; lia). lia.
Qed.

Lemma deadline_loop_le events used room from duration now :
  0 ≤ now → 0 ≤ duration → Forall (λ e, At e ≤ now) events →
  deadline_loop events used room from duration ≤ now + duration.
Proof.
  intros Hn Hd Hp. revert used. induction Hp as [|e events He _ IH]; intros used; cbn; [lia|].
  case_bool_decide; [lia|]. case_bool_decide; cbn; [|apply IH]. case_bool_decide; [lia|apply IH].
Qed.

(** No deadline is further away than a duration can say. *)
Lemma deadline_near h q :
  limit_ok (h_Limit q) → 0 < h_Now q → Forall (λ e, At e ≤ h_Now q) h →
  fst (deadline h q) ≤ h_Now q + (2 ^ 63 - 1).
Proof.
  intros Hl Hn Hp. rewrite deadline_fst by done. pose proof (latest_le h (h_Now q) ltac:(lia) Hp).
  destruct (interval_ok _ Hl) as [_ Hi].
  assert (Hk : Forall (λ e, At e ≤ h_Now q) (kept (h_Now q) h)).
  { unfold kept. rewrite Forall_forall in *. intros e He%list_elem_of_In. apply filter_In in He as [He _].
    by apply Hp, list_elem_of_In. }
  assert (Hw : ∀ duration per, 0 ≤ duration ≤ 24 * Hour →
    windowDeadline (kept (h_Now q) h) q duration per ≤ h_Now q + (2 ^ 63 - 1)).
  { intros duration per Hd. unfold windowDeadline. etrans; [apply deadline_loop_le; [|..|exact Hk]; lia|].
    unfold Hour, Second in Hd. lia. }
  pose proof (Hw Hour (PerHour (h_Limit q)) ltac:(unfold Hour, Second; lia)).
  pose proof (Hw (24 * Hour) (PerDay (h_Limit q)) ltac:(unfold Hour, Second; lia)). lia.
Qed.

(** A refusal costs nothing and its delay is exact.  When a request of a
    card whose history is in order is refused for being too early, the store
    is unchanged, the delay is positive, and the same request made later, with
    nothing in between, is let through from the end of the delay on and not a
    nanosecond before. *)
Theorem retry_exact (config : Config) (request : Request) (now : Z) (s s' : gmap Key (list Event)) reason d :
  let k := (CanonicalICCID (r_ICCID request), r_Kind request) in
  limit_ok (limitFor config (fst k) (snd k)) → 0 < now → timely now (history s k) →
  Consume config true request now s = (Err (LimitedError (r_Kind request) reason d), s') → reason ≠ RequestTooLarge →
  s' = s ∧ 0 < d ∧
  ∀ later, now ≤ later → fst (Consume config true request later s') = Ok tt ↔ now + d ≤ later.
Proof.
  cbn [fst snd]. intros Hl Hn Ht. unfold Consume. cbn [negb].
  destruct (_ && _); [done|]. case_bool_decide as Hu; [done|]. case_bool_decide; [done|].
  case_bool_decide; [done|]. destruct (_ || _) eqn:Hlim; [by intros [= <- <-]|].
  apply orb_false_iff in Hlim as [Hph%bool_decide_eq_false Hpd%bool_decide_eq_false].
  set (k := (CanonicalICCID _, r_Kind request)) in *. set (l := limitFor _ _ _) in *.
  set (q t := mkHistory (r_Kind request) (r_Units request) l t).
  assert (Hq : ∀ t, 0 < t → request_ok (q t)) by (intros t Hpos; split; [done|cbn; lia]).
  destruct Ht as (Hok & Hsorted & Hpast).
  assert (Hdue : ∀ t, now ≤ t → fits (history s k) (q t) t ↔ fst (deadline (history s k) (q now)) ≤ t).
  { intros t Hge. rewrite <-(fits_deadline (history s k) (q now)); [done|by split_and!|by apply Hq|done]. }
  change (Update k (λ events, consumeHistory events (q now)) s)
    with (match consumeHistory (history s k) (q now) with
          | Ok ev => (Ok tt, <[k := ev]> s) | Err e => (Err e, s) | Panic => (Panic, s) end).
  intros Hc Hr. assert (Hnot : ¬ fits (history s k) (q now) now).
  { intros Hf. by rewrite (consume_fits (history s k) (q now) Hok (Hq now Hn) Hf) in Hc. }
  destruct (consume_refused (history s k) (q now) Hok (Hq now Hn) Hnot) as [reason' E].
  rewrite E in Hc. injection Hc as <- <- <-. split; [done|]. rewrite Hdue in Hnot by done.
  change (h_Now (q now)) with now. change (default [] (s !! k)) with (history s k).
  set (D := fst (deadline (history s k) (q now))) in *.
  assert (Hd : Sub D now = D - now).
  { pose proof (deadline_near (history s k) (q now) Hl Hn Hpast) as Hnear. fold D in Hnear. cbn in Hnear. unfold Sub. lia. }
  rewrite Hd. split; [lia|]. intros t Hge. rewrite Zplus_minus, <-Hdue by done.
  change (Update k (λ events, consumeHistory events (q t)) s)
    with (match consumeHistory (history s k) (q t) with
          | Ok ev => (Ok tt, <[k := ev]> s) | Err e => (Err e, s) | Panic => (Panic, s) end).
  destruct (decide (D ≤ t)) as [Hf|Hf]; rewrite <-Hdue in Hf by done.
  - by rewrite (consume_fits (history s k) (q t) Hok (Hq t ltac:(lia)) Hf).
  - destruct (consume_refused (history s k) (q t) Hok (Hq t ltac:(lia)) Hf) as [reason2 E2]. by rewrite E2.
Qed.

(** The limits that [New] accepts are in range, and a negative one is refused. *)
Lemma normalizeLimit_ok v d l : normalizeLimit v d = Ok l → limit_ok d → 0 ≤ PerHour d → 0 ≤ PerDay d →
  limit_ok l ∧ 0 ≤ PerHour l ∧ 0 ≤ PerDay l.
Proof.
  unfold normalizeLimit. case_bool_decide; [done|]. destruct (_ || _) eqn:E; [done|].
  rewrite !orb_false_iff, !bool_decide_eq_false in E. intros [= <-] Hd Hh Hday. unfold limit_ok, inherit in *. cbn.
  repeat case_bool_decide; lia.
Qed.

Definition policy_ok (p : Policy) : Prop :=
  ∀ l, l = p_Calls p ∨ l = p_SMS p → limit_ok l ∧ 0 ≤ PerHour l ∧ 0 ≤ PerDay l.

Lemma normalizePolicy_ok v d p : normalizePolicy v d = Ok p → policy_ok d → policy_ok p.
Proof.
  unfold normalizePolicy. intros H Hd. destruct (normalizeLimit (p_Calls v) _) as [c|?|] eqn:Ec; [|done..].
  cbn in H. destruct (normalizeLimit (p_SMS v) _) as [m|?|] eqn:Em; [|done..]. injection H as <-.
  intros l [->| ->]; cbn; (eapply normalizeLimit_ok; [eassumption|apply Hd; tauto..]).
Qed.

(** Every limit of an accepted configuration is in range. *)
Lemma normalized_ok c c' id kind : normalized c = Ok c' →
  limit_ok (limitFor c' id kind) ∧ 0 ≤ PerHour (limitFor c' id kind) ∧ 0 ≤ PerDay (limitFor c' id kind).
Proof.
  unfold normalized. intros H. destruct (normalizePolicy _ default_policy) as [base|?|] eqn:Eb; [|done..]. cbn in H.
  assert (Hdef : policy_ok default_policy).
  { intros l [->| ->]; cbn; unfold limit_ok, maxIntervalSeconds, Second; cbn; repeat split; lia || (vm_compute; discriminate). }
  pose proof (normalizePolicy_ok _ _ _ Eb Hdef) as Hbase.
  destruct (normalize_cards base _ ∅) as [cards|?|] eqn:Ec; [|done..]. injection H as <-.
  assert (Hcards : ∀ i p, cards !! i = Some p → policy_ok p).
  { assert (Hgen : ∀ l acc, (∀ i p, acc !! i = Some p → policy_ok p) → ∀ cards, normalize_cards base l acc = Ok cards →
      ∀ i p, cards !! i = Some p → policy_ok p).
    { clear -Hbase. induction l as [|[id p] l IH]; intros acc Hacc cards; cbn; [by intros [= <-]|].
      case_bool_decide; [done|]. case_bool_decide; [done|].
      destruct (normalizePolicy p base) as [v|?|] eqn:Ev; [|done..]. apply IH. intros i q.
      destruct (decide (i = CanonicalICCID id)) as [->|]; [rewrite lookup_insert_eq; intros [= <-]|rewrite lookup_insert_ne by done; apply Hacc].
      by eapply normalizePolicy_ok. }
    eapply Hgen; [|exact Ec]. intros i p. by rewrite lookup_empty. }
  assert (Hp : policy_ok (default base (cards !! id))).
  { destruct (cards !! id) eqn:E; [by eapply Hcards|done]. }
  unfold limitFor. cbn [c_Policy c_Cards]. case_bool_decide; apply Hp; tauto.
Qed.

(** ** Witnesses *)

Definition sample_config : Config := mkConfig (mkPolicy (mkLimit None 10 2 100) (mkLimit None 5 30 100)) ∅.
Definition sample_key : Key := ("8901"%string, Call).
Definition call_at (t : Z) : attempt := mkAttempt true (mkRequest "8901F" Call 1) (t * Second).
Definition sample_attempts : list attempt := call_at <$> [100; 105; 110; 200; 3600; 3700; 3710].

Lemma limits_kept_witness :
  let passed := let_through sample_key (fst (attempts sample_config sample_attempts ∅)) in
  passed = (λ t, mkEvent (t * Second) 1) <$> [100; 110; 3700; 3710] ∧
  (∀ t, units_between (t - Hour) t passed ≤ 2) ∧ (∀ t, units_between (t - 24 * Hour) t passed ≤ 100) ∧
  StronglySorted (λ e f, At e + 10 * Second ≤ At f) passed.
Proof.
  cbv zeta. split; [vm_compute; reflexivity|].
  apply (limits_kept (S:=gmap Key (list Event)) sample_config sample_key sample_attempts ∅ Second).
  - split; vm_compute; discriminate.
  - vm_compute. discriminate.
  - vm_compute. discriminate.
  - vm_compute. discriminate.
  - constructor.
  - vm_compute. reflexivity.
  - apply (bool_decide_unpack _). vm_compute. exact I.
Defined.

Definition sample_history : gmap Key (list Event) :=
  {[ sample_key := [mkEvent (100 * Second) 1; mkEvent (110 * Second) 1] ]}.

Lemma retry_exact_witness :
  Consume sample_config true (mkRequest "8901F" Call 1) (200 * Second) sample_history =
    (Err (LimitedError Call RollingHour (3500 * Second)), sample_history) ∧
  ∀ later, 200 * Second ≤ later →
    fst (Consume sample_config true (mkRequest "8901F" Call 1) later sample_history) = Ok tt ↔
    200 * Second + 3500 * Second ≤ later.
Proof.
  assert (E : Consume sample_config true (mkRequest "8901F" Call 1) (200 * Second) sample_history =
    (Err (LimitedError Call RollingHour (3500 * Second)), sample_history)) by (vm_compute; reflexivity).
  split; [exact E|].
  apply (retry_exact sample_config (mkRequest "8901F" Call 1) (200 * Second) sample_history sample_history RollingHour (3500 * Second)).
  - split; vm_compute; discriminate.
  - vm_compute. reflexivity.
  - split; [|split].
    + apply (bool_decide_unpack _). vm_compute. exact I.
    + repeat constructor; vm_compute; discriminate.
    + apply (bool_decide_unpack _). vm_compute. exact I.
  - exact E.
  - discriminate.
Defined.
