(* ===== verification/G711.v ===== *)
(** * G.711 mu-law samples (pkg/g711)

    [int] holds every intermediate value, so the arithmetic is on [Z]; the
    loop of [EncodeSample] over the mask has at most seven turns. *)

From S2P Require Import Prelude.

#[local] Open Scope Z_scope.

Definition muLawBias : Z := 0x84.
Definition muLawClip : Z := 32635.

Definition not8 (b : Z) : Z := Z.lxor b 0xFF.

Definition DecodeSample (value : Z) : Z :=
  let value := not8 value in
  let magnitude := Z.shiftl (Z.shiftl (Z.land value 0x0F) 3 + muLawBias) (Z.shiftr (Z.land value 0x70) 4) in
  if bool_decide (Z.land value 0x80 ≠ 0) then i16 (muLawBias - magnitude) else i16 (magnitude - muLawBias).

Fixpoint exponent_loop (n : nat) (exponent mask value : Z) : Z :=
  match n with
  | O => exponent
  | S n =>
      if bool_decide (exponent > 0) && bool_decide (Z.land value mask = 0)
      then exponent_loop n (exponent - 1) (Z.shiftr mask 1) value
      else exponent
  end.

Definition EncodeSample (sample : Z) : Z :=
  let '(value, sign) := if bool_decide (sample < 0) then (- sample, 0x80) else (sample, 0) in
  let value := if bool_decide (value > muLawClip) then muLawClip else value in
  let value := value + muLawBias in
  let exponent := exponent_loop 8 7 0x4000 value in
  let mantissa := Z.land (Z.shiftr value (exponent + 3)) 0x0F in
  not8 (Z.lor (Z.lor sign (u8 (Z.shiftl exponent 4))) (u8 mantissa)).

Definition Decode (payload : bytes) : list Z := DecodeSample <$> payload.
Definition Encode (pcm : list Z) : bytes := EncodeSample <$> pcm.

(** ** Properties, by evaluation over every sample and every code *)

Fixpoint all_from (n : nat) (i : Z) (f : Z → bool) : bool :=
  match n with O => true | S n => f i && all_from n (i + 1) f end.

Lemma all_from_spec n f : ∀ i x, all_from n i f = true → i ≤ x < i + Z.of_nat n → f x = true.
Proof.
  induction n as [|n IH]; intros i x; cbn [all_from]; [lia|]. intros [Hi Hn]%andb_true_iff Hx.
  destruct (decide (x = i)) as [->|]; [done|]. apply (IH (i + 1)); [done|lia].
Qed.

(** How far a sample may move: at least half of the step of its segment. *)
Definition tolerance (s : Z) : Z := Z.max 4 ((Z.abs s + muLawBias) / 32).
Definition clipped (s : Z) : Z := Z.max (- muLawClip) (Z.min muLawClip s).

Definition sample_ok (s : Z) : bool :=
  let b := EncodeSample s in let d := DecodeSample b in
  (0 <=? b) && (b <? 256) && (Z.abs (d - clipped s) <=? tolerance s) &&
  (d <=? DecodeSample (EncodeSample (Z.min 32767 (s + 1)))).

Definition code_ok (b : Z) : bool :=
  (- 32768 <=? DecodeSample b) && (DecodeSample b <? 32768) &&
  (EncodeSample (DecodeSample b) =? if b =? 0x7F then 0xFF else b).

Lemma samples_check : all_from (Z.to_nat 65536) (- 32768) sample_ok = true.
Proof. vm_compute. reflexivity. Qed.

Lemma codes_check : all_from 256 0 code_ok = true.
Proof. vm_compute. reflexivity. Qed.

Definition int16 (s : Z) : Prop := - 32768 ≤ s < 32768.

(** Mu-law is a quantiser.  A sample of 16 bits is coded to a byte that
    decodes to a sample of 16 bits within the step of its segment of the
    clipped sample, louder samples never decode to quieter ones, and coding what
    a byte decodes to gives the byte back, except that the negative zero 0x7F
    becomes the positive zero 0xFF. *)
Theorem mulaw_quantises :
  (∀ s, int16 s → byte_ok (EncodeSample s) ∧ int16 (DecodeSample (EncodeSample s)) ∧
     Z.abs (DecodeSample (EncodeSample s) - clipped s) ≤ tolerance s) ∧
  (∀ s t, int16 s → int16 t → s ≤ t → DecodeSample (EncodeSample s) ≤ DecodeSample (EncodeSample t)) ∧
  (∀ b, byte_ok b → int16 (DecodeSample b) ∧ EncodeSample (DecodeSample b) = if bool_decide (b = 0x7F) then 0xFF else b).
Proof.
  assert (Hs : ∀ s, int16 s → sample_ok s = true).
  { intros s Hr. apply (all_from_spec _ _ _ _ samples_check). unfold int16 in Hr. lia. }
  assert (Hb : ∀ b, byte_ok b → int16 (DecodeSample b) ∧ EncodeSample (DecodeSample b) = if bool_decide (b = 0x7F) then 0xFF else b).
  { intros b Hr. pose proof (all_from_spec _ _ _ b codes_check ltac:(unfold byte_ok in Hr; lia)) as H.
    unfold code_ok in H. rewrite !andb_true_iff in H. unfold int16.
    split; [lia|]. destruct (Z.eqb_spec b 0x7F) as [->|]; [done|]. rewrite bool_decide_eq_false_2 by done. lia. }
  assert (Hall : ∀ s, int16 s → byte_ok (EncodeSample s) ∧
    Z.abs (DecodeSample (EncodeSample s) - clipped s) ≤ tolerance s ∧
    DecodeSample (EncodeSample s) ≤ DecodeSample (EncodeSample (Z.min 32767 (s + 1)))).
  { intros s Hr. specialize (Hs s Hr). unfold sample_ok in Hs. rewrite !andb_true_iff in Hs. unfold byte_ok. lia. }
  split_and!; [|intros s t Hrs Hrt Hle|done].
  - intros s Hr. destruct (Hall s Hr) as (H1 & H2 & _). split_and!; [done|by apply Hb|done].
  - replace t with (s + Z.of_nat (Z.to_nat (t - s))) in * by lia. clear Hle.
    induction (Z.to_nat (t - s)) as [|n IH]; [by rewrite Z.add_0_r|]. unfold int16 in *.
    destruct (Hall (s + Z.of_nat n)) as (_ & _ & H); [unfold int16; lia|].
    replace (Z.min 32767 (s + Z.of_nat n + 1)) with (s + Z.of_nat (S n)) in H by lia.
    etrans; [apply IH; lia|exact H].
Qed.
