(* ===== verification/Jitter.v ===== *)
(** * The adaptive jitter buffer of modem audio (internal/volte/pcm_jitter.go)

    Packets are kept by sequence number until they are played, one every 20 ms;
    the depth that is waited for follows the jitter of the arrivals, estimated
    in floating point ([PrimFloat] is the binary64 arithmetic of the
    processor).  Times are in nanoseconds, 0 is the zero [time.Time].  The
    counters are far below their 64 bits. *)

From S2P Require Import Prelude.
From Stdlib Require Import Uint63 PrimFloat SpecFloat FloatOps.

#[local] Open Scope Z_scope.

Abbreviation size := stdpp.base.size.

Definition pcmJitterInitialFrames : Z := 3.
Definition pcmJitterMinFrames : Z := 2.
Definition pcmJitterMaxFrames : Z := 6.
Definition pcmJitterSequenceLimit : Z := 64.
Definition pcmJitterStablePeriod : Z := 5000000000.
Definition pcmuClockRate : Z := 8000.
Definition pcmuFrameSamples : Z := 160.

(** The fields of [rtp.Packet] that are read. *)
Record Packet := mkPacket { SSRC : Z; SequenceNumber : Z; Timestamp : Z; Payload : bytes }.

Inductive pcmPlayoutKind := Waiting | Audio | Gap | Idle | Rebuffer.

(** ** State *)

Record pcmJitterDiagnostics := mkDiag {
  MaxDepth : Z; Received : Z; Late : Z; Duplicate : Z; Concealed : Z; Trimmed : Z; Rebuffers : Z; Restarts : Z;
}.

(** The packets and the next sequence number. *)
Record stream := mkStream {
  packets : gmap Z Packet; ssrc : Z; expected : Z; started : bool; emitting : bool;
}.

(** The depth that is waited for, and the frames to insert or drop. *)
Record pace := mkPace { targetFrames : Z; holdFrames : Z; trimFrames : Z; lowerSince : Z }.

Record estimator := mkEst {
  firstArrival : Z; firstTimestamp : Z; previousTransit : float; jitterTicks : float; estimatorReady : bool;
}.

Record adaptivePCMBuffer := mkBuffer { b_stream : stream; b_pace : pace; b_est : estimator; b_diag : pcmJitterDiagnostics }.

Definition no_diag : pcmJitterDiagnostics := mkDiag 0 0 0 0 0 0 0 0.

Definition newAdaptivePCMBuffer : adaptivePCMBuffer :=
  mkBuffer (mkStream ∅ 0 0 false false) (mkPace pcmJitterInitialFrames 0 0 0) (mkEst 0 0 0%float 0%float false) no_diag.

(** ** Floating point *)

Definition float64 (x : Z) : float :=
  if bool_decide (x < 0) then opp (of_uint63 (Uint63.of_Z (- x))) else of_uint63 (Uint63.of_Z x).

(** [int(math.Ceil(x))]; not a number or infinite gives the most negative value. *)
Definition ceil_int (x : float) : Z :=
  match Prim2SF x with
  | S754_zero _ => 0
  | S754_finite neg m e =>
      let v := if neg : bool then Zneg m else Zpos m in
      if bool_decide (e >= 0) then v * 2 ^ e else - ((- v) / 2 ^ (- e))
  | _ => - 2 ^ 63
  end.

Definition desiredFrames (jitter : float) : Z :=
  let frameTicks := float64 pcmuFrameSamples in
  let desired := ceil_int ((float64 pcmJitterMinFrames * frameTicks + 4 * jitter) / frameTicks)%float in
  Z.min (Z.max desired pcmJitterMinFrames) pcmJitterMaxFrames.

(** [updateTarget], up to the call of [adjustTarget]. *)
Definition estimate (packet : Packet) (arrival : Z) (e : estimator) : estimator :=
  let arrivalTicks := (float64 (arrival - firstArrival e) * float64 pcmuClockRate / float64 1000000000)%float in
  let rtpTicks := float64 (signed 32 (Timestamp packet - firstTimestamp e)) in
  let transit := (arrivalTicks - rtpTicks)%float in
  let jitter :=
    if estimatorReady e then
      let delta := PrimFloat.abs (transit - previousTransit e)%float in
      (jitterTicks e + (delta - jitterTicks e) / 16)%float
    else jitterTicks e in
  mkEst (firstArrival e) (firstTimestamp e) transit jitter true.

(** ** Operations *)

Definition adjustTarget (desired now : Z) (emitting : bool) (p : pace) : pace :=
  if bool_decide (desired > targetFrames p) then
    mkPace desired (if emitting then holdFrames p + (desired - targetFrames p) else holdFrames p) (trimFrames p) 0
  else if bool_decide (desired = targetFrames p) then mkPace (targetFrames p) (holdFrames p) (trimFrames p) 0
  else if bool_decide (lowerSince p = 0) then mkPace (targetFrames p) (holdFrames p) (trimFrames p) now
  else if bool_decide (now - lowerSince p < pcmJitterStablePeriod) then p
  else mkPace (targetFrames p - 1) (holdFrames p) (if emitting then trimFrames p + 1 else trimFrames p) now.

Definition count_trimmed (d : pcmJitterDiagnostics) : pcmJitterDiagnostics :=
  mkDiag (MaxDepth d) (Received d) (Late d) (Duplicate d) (Concealed d) (Trimmed d + 1) (Rebuffers d) (Restarts d).

Definition next_seq (x : Z) : Z := u16 (x + 1).

(** [trimOverflow]: the packets are less than 64 ahead of [expected], so 64
    turns are enough. *)
Fixpoint trim_loop (fuel : nat) (s : stream) (d : pcmJitterDiagnostics) : stream * pcmJitterDiagnostics :=
  match fuel with
  | O => (s, d)
  | S fuel =>
      if bool_decide (Z.of_nat (size (packets s)) > pcmJitterMaxFrames) then
        match packets s !! expected s with
        | Some _ =>
            trim_loop fuel (mkStream (delete (expected s) (packets s)) (ssrc s) (next_seq (expected s)) (started s) (emitting s))
              (count_trimmed d)
        | None => trim_loop fuel (mkStream (packets s) (ssrc s) (next_seq (expected s)) (started s) (emitting s)) d
        end
      else (s, d)
  end.

Definition trimOverflow : stream → pcmJitterDiagnostics → stream * pcmJitterDiagnostics := trim_loop 64.

Definition resetStream (packet : Packet) (arrival : Z) (restart : bool) (b : adaptivePCMBuffer) : adaptivePCMBuffer :=
  let d := b_diag b in
  mkBuffer (mkStream ∅ (SSRC packet) (SequenceNumber packet) true false)
    (mkPace pcmJitterInitialFrames 0 0 0)
    (mkEst arrival (Timestamp packet) 0%float 0%float false)
    (mkDiag (MaxDepth d) (Received d) (Late d) (Duplicate d) (Concealed d) (Trimmed d) (Rebuffers d)
       (if restart then Restarts d + 1 else Restarts d)).

(** The end of [push], for a packet of the stream that is not late. *)
Definition accept (packet : Packet) (arrival : Z) (b : adaptivePCMBuffer) : adaptivePCMBuffer :=
  let s := b_stream b in let d := b_diag b in
  match packets s !! SequenceNumber packet with
  | Some _ =>
      mkBuffer s (b_pace b) (b_est b)
        (mkDiag (MaxDepth d) (Received d) (Late d) (Duplicate d + 1) (Concealed d) (Trimmed d) (Rebuffers d) (Restarts d))
  | None =>
      let est := estimate packet arrival (b_est b) in
      let pace := adjustTarget (desiredFrames (jitterTicks est)) arrival (emitting s) (b_pace b) in
      let '(s, d) :=
        trimOverflow
          (mkStream (<[SequenceNumber packet := packet]> (packets s)) (ssrc s) (expected s) (started s) (emitting s)) d in
      let depth := Z.of_nat (size (packets s)) in
      let emit := emitting s || bool_decide (depth >= targetFrames pace) in
      mkBuffer (mkStream (packets s) (ssrc s) (expected s) (started s) emit) pace est
        (mkDiag (Z.max depth (MaxDepth d)) (Received d) (Late d) (Duplicate d) (Concealed d) (Trimmed d) (Rebuffers d)
           (Restarts d))
  end.

Definition push (packet : Packet) (arrival : Z) (b : adaptivePCMBuffer) : adaptivePCMBuffer :=
  let d := b_diag b in
  let b := mkBuffer (b_stream b) (b_pace b) (b_est b)
    (mkDiag (MaxDepth d) (Received d + 1) (Late d) (Duplicate d) (Concealed d) (Trimmed d) (Rebuffers d) (Restarts d)) in
  let b := if started (b_stream b) then b else resetStream packet arrival false b in
  let offset := i16 (SequenceNumber packet - expected (b_stream b)) in
  if bool_decide (SSRC packet ≠ ssrc (b_stream b)) || bool_decide (offset >= pcmJitterSequenceLimit)
  then accept packet arrival (resetStream packet arrival true b)
  else if bool_decide (offset < 0) then
    let d := b_diag b in
    mkBuffer (b_stream b) (b_pace b) (b_est b)
      (mkDiag (MaxDepth d) (Received d) (Late d + 1) (Duplicate d) (Concealed d) (Trimmed d) (Rebuffers d) (Restarts d))
  else accept packet arrival b.

(** The trimming at the start of [pop]. *)
Definition pop_trim (b : adaptivePCMBuffer) : adaptivePCMBuffer :=
  let s := b_stream b in let p := b_pace b in
  if bool_decide (trimFrames p > 0) && bool_decide (Z.of_nat (size (packets s)) > 0) then
    mkBuffer (mkStream (delete (expected s) (packets s)) (ssrc s) (next_seq (expected s)) (started s) (emitting s))
      (mkPace (targetFrames p) (holdFrames p) (trimFrames p - 1) (lowerSince p)) (b_est b) (count_trimmed (b_diag b))
  else b.

Definition pop (b : adaptivePCMBuffer) : option Packet * pcmPlayoutKind * adaptivePCMBuffer :=
  let s := b_stream b in let p := b_pace b in let d := b_diag b in
  if negb (started s) || negb (emitting s) then (None, Waiting, b)
  else if bool_decide (holdFrames p > 0) then
    (None, Rebuffer,
     mkBuffer s (mkPace (targetFrames p) (holdFrames p - 1) (trimFrames p) (lowerSince p)) (b_est b)
       (mkDiag (MaxDepth d) (Received d) (Late d) (Duplicate d) (Concealed d) (Trimmed d) (Rebuffers d + 1) (Restarts d)))
  else
    let b := pop_trim b in
    let s := b_stream b in let d := b_diag b in
    match packets s !! expected s with
    | Some packet =>
        (Some packet, Audio,
         mkBuffer (mkStream (delete (expected s) (packets s)) (ssrc s) (next_seq (expected s)) (started s) (emitting s))
           (b_pace b) (b_est b) d)
    | None =>
        if bool_decide (size (packets s) = 0%nat) then (None, Idle, b)
        else
          (None, Gap,
           mkBuffer (mkStream (packets s) (ssrc s) (next_seq (expected s)) (started s) (emitting s)) (b_pace b) (b_est b)
             (mkDiag (MaxDepth d) (Received d) (Late d) (Duplicate d) (Concealed d + 1) (Trimmed d) (Rebuffers d)
                (Restarts d)))
    end.

(** [stats]: the depth that is waited for, and the jitter in microseconds. *)
Definition stats (b : adaptivePCMBuffer) : Z * Z * pcmJitterDiagnostics :=
  (targetFrames (b_pace b),
   - ceil_int (opp (jitterTicks (b_est b) * float64 1000000 / float64 pcmuClockRate)%float), b_diag b).

(** ** Runs *)

Inductive event := Push (packet : Packet) (arrival : Z) | Pop.

Definition step (b : adaptivePCMBuffer) (e : event) : list Packet * adaptivePCMBuffer :=
  match e with
  | Push packet arrival => ([], push packet arrival b)
  | Pop => let '(p, _, b) := pop b in (match p with Some p => [p] | None => [] end, b)
  end.

Fixpoint run (b : adaptivePCMBuffer) (l : list event) : list Packet * adaptivePCMBuffer :=
  match l with
  | [] => ([], b)
  | e :: l =>
      let '(ps, b) := step b e in let '(qs, b) := run b l in (ps ++ qs, b)
  end.
