(* ===== verification/JitterProofs.v ===== *)
(** * The jitter buffer stays small, plays in order and loses nothing silently *)

From S2P Require Import Prelude Jitter.
From stdpp Require Import sorting.

#[local] Open Scope Z_scope.

Definition seq_ok (x : Z) : Prop := 0 ≤ x < 2 ^ 16.

(** How far a sequence number is ahead of the next one. *)
Definition ahead (e k : Z) : Z := u16 (k - e).

Definition packets_ok (e bound : Z) (m : gmap Z Packet) : Prop :=
  map_Forall (λ k p, SequenceNumber p = k ∧ seq_ok k ∧ ahead e k < bound) m.

Definition stream_ok (s : stream) : Prop :=
  seq_ok (expected s) ∧ packets_ok (expected s) pcmJitterSequenceLimit (packets s) ∧
  Z.of_nat (size (packets s)) ≤ pcmJitterMaxFrames ∧
  (started s = false → packets s = ∅ ∧ emitting s = false).

Definition pace_ok (p : pace) : Prop :=
  pcmJitterMinFrames ≤ targetFrames p ≤ pcmJitterMaxFrames ∧ 0 ≤ holdFrames p ∧ 0 ≤ trimFrames p.

Definition buffer_ok (b : adaptivePCMBuffer) : Prop := stream_ok (b_stream b) ∧ pace_ok (b_pace b).

(** ** Sequence numbers *)

Lemma u16_range x : seq_ok (u16 x).
Proof. unfold seq_ok, u16. apply Z.mod_pos_bound. lia. Qed.

Lemma u16_add x y : u16 (u16 x + y) = u16 (x + y).
Proof. unfold u16. by rewrite Zplus_mod_idemp_l. Qed.

Lemma next_seq_range x : seq_ok (next_seq x).
Proof. apply u16_range. Qed.

Lemma ahead_self e : ahead e e = 0.
Proof. unfold ahead. by rewrite Z.sub_diag. Qed.

Lemma ahead_pos e k : seq_ok e → seq_ok k → k ≠ e → 0 < ahead e k.
Proof. unfold ahead, u16, seq_ok. intros He Hk Hne. zdiv. Qed.

Lemma ahead_next e k : seq_ok e → seq_ok k → k ≠ e → ahead (next_seq e) k = ahead e k - 1.
Proof. unfold ahead, next_seq, u16, seq_ok. intros He Hk Hne. zdiv. Qed.

Lemma ahead_nonneg e k : 0 ≤ ahead e k.
Proof. unfold ahead. destruct (u16_range (k - e)). done. Qed.

(** The offset of [push], for a packet that is less than 2^15 ahead. *)
Lemma offset_ahead e k : seq_ok e → seq_ok k → 0 ≤ i16 (k - e) → ahead e k = i16 (k - e).
Proof. unfold ahead, i16, signed, u16, seq_ok. intros He Hk. zdiv. Qed.

Lemma packets_next e bound m :
  seq_ok e → packets_ok e bound m → m !! e = None → packets_ok (next_seq e) (bound - 1) m.
Proof.
  intros He Hm Hn k p Hk. destruct (Hm k p Hk) as (H1 & H2 & H3). split_and!; [done|apply H2..|].
  assert (k ≠ e) by congruence. rewrite ahead_next by done. lia.
Qed.

Lemma packets_weaken e b b' m : packets_ok e b m → b ≤ b' → packets_ok e b' m.
Proof. intros Hm Hb k p Hk. destruct (Hm k p Hk) as (? & ? & ?). split_and!; [done|done|lia]. Qed.

Lemma packets_delete e bound m k : packets_ok e bound m → packets_ok e bound (delete k m).
Proof. intros Hm. by apply map_Forall_delete. Qed.

Lemma packets_drop e bound m : seq_ok e → packets_ok e bound m → packets_ok (next_seq e) (bound - 1) (delete e m).
Proof. intros He Hm. apply packets_next; [done|by apply packets_delete|apply lookup_delete_eq]. Qed.

Lemma size_delete_some (m : gmap Z Packet) k p : m !! k = Some p → size m = S (size (delete k m)).
Proof. intros Hk. rewrite map_size_delete_Some by done. destruct (size m) eqn:E; [|done].
  apply map_size_empty_inv in E. by rewrite E, lookup_empty in Hk. Qed.

(** ** Trimming *)

(** The packets that are held. *)
Definition held (s : stream) : list Packet := (map_to_list (packets s)).*2.

Lemma held_delete (m : gmap Z Packet) k p : m !! k = Some p → (map_to_list m).*2 ≡ₚ p :: (map_to_list (delete k m)).*2.
Proof. intros Hk. by rewrite <-(map_to_list_delete m k p Hk). Qed.
Lemma held_insert (m : gmap Z Packet) k p : m !! k = None → (map_to_list (<[k:=p]> m)).*2 ≡ₚ p :: (map_to_list m).*2.
Proof. intros Hk. by rewrite map_to_list_insert. Qed.
Lemma held_subset_delete (m : gmap Z Packet) k : (map_to_list (delete k m)).*2 ⊆+ (map_to_list m).*2.
Proof.
  destruct (m !! k) as [p|] eqn:Hk; [|by rewrite delete_id]. rewrite (held_delete m k p Hk). by apply submseteq_cons.
Qed.

Record trimmed (n : nat) (s : stream) (d : pcmJitterDiagnostics) (s' : stream) (d' : pcmJitterDiagnostics) : Prop := {
  tr_flags : ssrc s' = ssrc s ∧ started s' = started s ∧ emitting s' = emitting s;
  tr_advance : ∃ a, 0 ≤ a ≤ Z.of_nat n ∧ expected s' = u16 (expected s + a);
  tr_count : ∃ n, d' = mkDiag (MaxDepth d) (Received d) (Late d) (Duplicate d) (Concealed d) (Trimmed d + Z.of_nat n)
      (Rebuffers d) (Restarts d) ∧ size (packets s) = (size (packets s') + n)%nat;
  tr_ok : packets_ok (expected s') pcmJitterSequenceLimit (packets s');
  tr_held : held s' ⊆+ held s;
}.

Lemma trim_loop_spec fuel : ∀ s d,
  seq_ok (expected s) → packets_ok (expected s) (Z.of_nat fuel) (packets s) → Z.of_nat fuel ≤ pcmJitterSequenceLimit →
  let '(s', d') := trim_loop fuel s d in
  trimmed fuel s d s' d' ∧ Z.of_nat (size (packets s')) ≤ pcmJitterMaxFrames.
Proof.
  induction fuel as [|fuel IH]; intros s d He Hm Hf.
  - cbn. assert (packets s = ∅) as E.
    { apply map_empty. intros k. destruct (packets s !! k) as [p|] eqn:Ek; [|done].
      destruct (Hm k p Ek) as (_ & _ & H). pose proof (ahead_nonneg (expected s) k). lia. }
    split; [split; [done|exists 0; split; [done|]|exists 0%nat|by rewrite E|done]|by rewrite E].
    + rewrite Z.add_0_r. symmetry. by apply Z.mod_small.
    + rewrite Z.add_0_r. split; [by destruct d|lia].
  - cbn [trim_loop]. case_bool_decide as Hsize.
    + destruct (packets s !! expected s) as [p|] eqn:Ep.
      * specialize (IH (mkStream (delete (expected s) (packets s)) (ssrc s) (next_seq (expected s)) (started s) (emitting s))
          (count_trimmed d) (next_seq_range _)). cbn [expected packets] in IH.
        replace (Z.of_nat fuel) with (Z.of_nat (S fuel) - 1) in IH by lia.
        specialize (IH (packets_drop _ _ _ He Hm) ltac:(lia)).
        destruct (trim_loop fuel _ _) as [s' d']. destruct IH as [[Hfl (a & Ha & Hadv) (n & Hd & Hn) Hk Hh] Hs'].
        split; [|done]. split; [done| |exists (S n)|done|].
        -- exists (1 + a). split; [lia|]. rewrite Hadv. cbn [expected]. unfold next_seq.
           by rewrite u16_add, Z.add_assoc.
        -- rewrite (size_delete_some _ _ _ Ep), Hd. cbn [packets] in Hn. unfold count_trimmed. cbn. split; [f_equal; lia|lia].
        -- etrans; [exact Hh|]. apply held_subset_delete.
      * specialize (IH (mkStream (packets s) (ssrc s) (next_seq (expected s)) (started s) (emitting s)) d (next_seq_range _)).
        cbn [expected packets] in IH. replace (Z.of_nat fuel) with (Z.of_nat (S fuel) - 1) in IH by lia.
        specialize (IH (packets_next _ _ _ He Hm Ep) ltac:(lia)).
        destruct (trim_loop fuel _ _) as [s' d']. destruct IH as [[Hfl (a & Ha & Hadv) (n & Hd & Hn) Hk Hh] Hs'].
        split; [|done]. split; [done| |exists n|done|exact Hh]; [|done].
        exists (1 + a). split; [lia|]. rewrite Hadv. cbn [expected]. unfold next_seq.
        by rewrite u16_add, Z.add_assoc.
    + split; [|lia]. split; [done|exists 0; split; [lia|]|exists 0%nat|by eapply packets_weaken|done].
      * rewrite Z.add_0_r. symmetry. by apply Z.mod_small.
      * rewrite Z.add_0_r. split; [by destruct d|lia].
Qed.

(** ** The pace *)

Lemma desired_range j : pcmJitterMinFrames ≤ desiredFrames j ≤ pcmJitterMaxFrames.
Proof.
  unfold desiredFrames. cbv zeta. match goal with |- context [ceil_int ?x] => generalize (ceil_int x) end.
  intros d. unfold pcmJitterMinFrames, pcmJitterMaxFrames. lia.
Qed.

Lemma adjustTarget_ok desired now emit p :
  pace_ok p → pcmJitterMinFrames ≤ desired ≤ pcmJitterMaxFrames → pace_ok (adjustTarget desired now emit p).
Proof.
  unfold pace_ok, adjustTarget. intros (Ht & Hh & Hr) Hd.
  repeat case_bool_decide; destruct emit; cbn [targetFrames holdFrames trimFrames]; lia.
Qed.

(** ** One operation *)

Abbreviation diag := b_diag.

(** From [b] to [b'] with [ps] played in between: the stream is well formed; as
    long as it was not restarted, the packets played follow each other within
    [span] numbers, and every packet received is played, kept, late, a duplicate,
    or counted as trimmed; a packet is played or kept as often as it was kept or
    [arrived], at most. *)
Record moved (span : Z) (arrived : list Packet) (b : adaptivePCMBuffer) (ps : list Packet) (b' : adaptivePCMBuffer) : Prop := {
  mv_ok : buffer_ok b';
  mv_started : started (b_stream b) = true → started (b_stream b') = true;
  mv_restarts : Restarts (diag b) ≤ Restarts (diag b');
  mv_order : Restarts (diag b) = Restarts (diag b') → started (b_stream b) = true →
    ∃ a offsets, 0 ≤ a ≤ span ∧ expected (b_stream b') = u16 (expected (b_stream b) + a) ∧
      StronglySorted Z.lt offsets ∧ Forall (λ o, 0 ≤ o < a) offsets ∧
      SequenceNumber <$> ps = (λ o, u16 (expected (b_stream b) + o)) <$> offsets;
  mv_account : Restarts (diag b) = Restarts (diag b') →
    ∃ lost, 0 ≤ lost ≤ Trimmed (diag b') - Trimmed (diag b) ∧
      Received (diag b') + Z.of_nat (size (packets (b_stream b))) =
      Received (diag b) + len ps + (Late (diag b') - Late (diag b)) + (Duplicate (diag b') - Duplicate (diag b)) +
        Z.of_nat (size (packets (b_stream b'))) + lost;
  mv_once : ps ++ held (b_stream b') ⊆+ held (b_stream b) ++ arrived;
}.

Lemma moved_refl span b : 0 ≤ span → buffer_ok b → moved span [] b [] b.
Proof.
  intros Hsp Hb. split; [done|done|done| | |by rewrite app_nil_r].
  - intros _ _. exists 0, []. split_and!; [done|done| |constructor|constructor|done].
    destruct Hb as [(He & _) _]. rewrite Z.add_0_r. symmetry. by apply Z.mod_small.
  - intros _. exists 0. change (len []) with 0. lia.
Qed.

Lemma moved_weaken n n' arr b ps b' : moved n arr b ps b' → n ≤ n' → moved n' arr b ps b'.
Proof.
  intros [H1 H2 H3 H4 H5 H6] Hn. split; [done..| |done|done]. intros Hr Hs. destruct (H4 Hr Hs) as (a & offs & Ha & H). exists a, offs.
  split; [lia|exact H].
Qed.

Lemma sorted_shift a l k :
  StronglySorted Z.lt l → StronglySorted Z.lt k → Forall (λ o, 0 ≤ o < a) l → Forall (λ o, 0 ≤ o) k →
  StronglySorted Z.lt (l ++ (Z.add a <$> k)).
Proof.
  intros Hl Hk Ha Hn. induction Hl as [|x l Hl IH Hx]; cbn.
  - clear Ha. induction Hk as [|y k Hk IH Hy]; cbn; [constructor|]. inversion Hn; subst.
    constructor; [by apply IH|]. apply Forall_fmap. eapply Forall_impl; [exact Hy|]. cbn. lia.
  - inversion Ha; subst. constructor; [by apply IH|]. apply Forall_app. split; [done|].
    apply Forall_fmap. eapply Forall_impl; [exact Hn|]. cbn. lia.
Qed.

Lemma moved_trans n n' arr arr' b ps b1 qs b2 :
  moved n arr b ps b1 → moved n' arr' b1 qs b2 → moved (n + n') (arr ++ arr') b (ps ++ qs) b2.
Proof.
  intros [A1 A2 A3 A4 A5 A6] [B1 B2 B3 B4 B5 B6]. split; [done|auto|lia| | |].
  - intros Hr Hs. destruct (A4 ltac:(lia) Hs) as (a & offs & Ha & He & Hso & Hfo & Hps).
    destruct (B4 ltac:(lia) (A2 Hs)) as (a' & offs' & Ha' & He' & Hso' & Hfo' & Hqs).
    exists (a + a'), (offs ++ (Z.add a <$> offs')). split_and!.
    + lia.
    + lia.
    + by rewrite He', He, u16_add, Z.add_assoc.
    + apply sorted_shift; [done..|]. eapply Forall_impl; [exact Hfo'|]. cbn. lia.
    + apply Forall_app. split; [eapply Forall_impl; [exact Hfo|]; cbn; lia|].
      apply Forall_fmap. eapply Forall_impl; [exact Hfo'|]. cbn. lia.
    + rewrite !fmap_app, Hps, Hqs, <-list_fmap_compose. f_equal. apply list_fmap_ext. intros i o _. cbn.
      rewrite He, u16_add. f_equal. lia.
  - intros Hr. destruct (A5 ltac:(lia)) as (l & Hl & E). destruct (B5 ltac:(lia)) as (l' & Hl' & E').
    exists (l + l'). rewrite len_app. lia.
  - rewrite <-app_assoc. etrans; [by apply submseteq_app; [done|exact B6]|]. rewrite !app_assoc. by apply submseteq_app.
Qed.

(** A packet of the stream. *)
Lemma accept_moved packet arrival b :
  buffer_ok b → started (b_stream b) = true → seq_ok (SequenceNumber packet) →
  ahead (expected (b_stream b)) (SequenceNumber packet) < pcmJitterSequenceLimit →
  let b' := accept packet arrival b in
  buffer_ok b' ∧ started (b_stream b') = true ∧ Restarts (diag b') = Restarts (diag b) ∧
  Received (diag b') = Received (diag b) ∧ Late (diag b') = Late (diag b) ∧
  (∃ a, 0 ≤ a ≤ 64 ∧ expected (b_stream b') = u16 (expected (b_stream b) + a)) ∧
  held (b_stream b') ⊆+ packet :: held (b_stream b) ∧
  ∃ lost, 0 ≤ lost ≤ Trimmed (diag b') - Trimmed (diag b) ∧
    1 + Z.of_nat (size (packets (b_stream b))) =
    (Duplicate (diag b') - Duplicate (diag b)) + Z.of_nat (size (packets (b_stream b'))) + lost.
Proof.
  intros [(He & Hm & Hsz & Hst) Hp] Hs Hseq Ha. unfold accept. cbv zeta.
  destruct (packets (b_stream b) !! SequenceNumber packet) as [q|] eqn:Eq.
  - cbn. split; [done|]. split; [done|]. split_and!; [done..| | |].
    + exists 0. split; [lia|]. rewrite Z.add_0_r. symmetry. by apply Z.mod_small.
    + by apply submseteq_cons.
    + exists 0. lia.
  - set (s := mkStream (<[SequenceNumber packet:=packet]> (packets (b_stream b))) _ _ _ _).
    pose proof (trim_loop_spec 64 s (diag b) He) as Htr.
    assert (Hins : packets_ok (expected s) (Z.of_nat 64) (packets s)).
    { intros k p. cbn [packets s expected]. destruct (decide (k = SequenceNumber packet)) as [->|].
      - rewrite lookup_insert_eq. by intros [= <-].
      - rewrite lookup_insert_ne by done. apply Hm. }
    specialize (Htr Hins ltac:(done)). unfold trimOverflow.
    destruct (trim_loop 64 s (diag b)) as [s' d']. destruct Htr as [[(_ & Hs' & _) Hadv (n & Hd & Hn) Hk Hh] Hsize].
    assert (Hsz1 : size (packets s) = S (size (packets (b_stream b)))) by (cbn; by apply map_size_insert_None).
    cbn [b_stream b_diag started packets expected ssrc emitting]. rewrite Hd. cbn [Restarts Received Late Duplicate Trimmed].
    rewrite Hs'. cbn [s started]. split; [|split_and!; [done..|exact Hadv| |exists (Z.of_nat n); lia]].
    2: { etrans; [exact Hh|]. unfold held. cbn [s packets]. by rewrite (held_insert _ _ _ Eq). }
    split; [|apply adjustTarget_ok; [done|apply desired_range]]. split_and!; cbn.
    + destruct Hadv as (a & _ & ->). apply u16_range.
    + done.
    + done.
    + congruence.
Qed.

Definition event_ok (e : event) : Prop := match e with Push p _ => seq_ok (SequenceNumber p) | Pop => True end.

Lemma reset_ok packet arrival restart b : seq_ok (SequenceNumber packet) → buffer_ok (resetStream packet arrival restart b).
Proof.
  intros Hs. split; [split_and!; cbn; [apply Hs..|apply map_Forall_empty| |done]|].
  - by rewrite map_size_empty.
  - unfold pace_ok. cbn. unfold pcmJitterMinFrames, pcmJitterMaxFrames, pcmJitterInitialFrames. lia.
Qed.

Lemma reset_accept packet arrival b :
  seq_ok (SequenceNumber packet) →
  ahead (expected (b_stream (resetStream packet arrival true b))) (SequenceNumber packet) < pcmJitterSequenceLimit.
Proof. intros Hs. cbn. by rewrite ahead_self. Qed.

Lemma push_moved packet arrival b :
  buffer_ok b → seq_ok (SequenceNumber packet) → moved 64 [packet] b [] (push packet arrival b).
Proof.
  intros Hb Hseq. unfold push. set (b0 := mkBuffer (b_stream b) (b_pace b) (b_est b) _).
  set (b1 := if started (b_stream b0) then b0 else resetStream packet arrival false b0).
  assert (H1 : buffer_ok b1 ∧ started (b_stream b1) = true ∧ Received (diag b1) = Received (diag b) + 1 ∧
    Late (diag b1) = Late (diag b) ∧ Duplicate (diag b1) = Duplicate (diag b) ∧ Trimmed (diag b1) = Trimmed (diag b) ∧
    Restarts (diag b1) = Restarts (diag b) ∧ size (packets (b_stream b1)) = size (packets (b_stream b)) ∧
    held (b_stream b1) = held (b_stream b) ∧
    (started (b_stream b) = true → expected (b_stream b1) = expected (b_stream b))).
  { unfold b1. change (b_stream b0) with (b_stream b). destruct (started (b_stream b)) eqn:Es; [done|].
    split; [by apply reset_ok|]. destruct Hb as [(_ & _ & _ & Hst) _]. destruct (Hst Es) as [E _].
    unfold held. cbn. rewrite E. split_and!; done. }
  clearbody b1. clear b0. destruct H1 as (Hb1 & Hs1 & HR & HL & HD & HT & HRs & Hsz & Hheld & Hexp).
  destruct (_ || _) eqn:Hreset.
  - pose proof (accept_moved packet arrival (resetStream packet arrival true b1) (reset_ok _ _ _ _ Hseq) eq_refl Hseq
      (reset_accept _ _ _ Hseq)) as (Hok & Hst & Hr & _ & _ & _ & Hh & _).
    cbn [b_diag resetStream Restarts] in Hr. split; [done|done|lia|intros Hx; lia|intros Hx; lia|]. cbn [app]. etrans; [exact Hh|].
    unfold held at 1. cbn. rewrite map_to_list_empty. cbn. rewrite Permutation_app_comm. cbn. apply submseteq_skip, submseteq_nil_l.
  - apply orb_false_iff in Hreset as [_ Hoff%bool_decide_eq_false]. case_bool_decide as Hlate.
    + split; cbn [b_stream b_diag Restarts Received Late Duplicate Trimmed]; [done|done|lia| | |].
      * intros _ Hs. exists 0, []. destruct Hb1 as [(He & _) _].
        split_and!; [done|done| |constructor|constructor|done]. rewrite Hexp by done. rewrite Hexp in He by done.
        rewrite Z.add_0_r. symmetry. by apply Z.mod_small.
      * intros _. exists 0. change (len []) with 0. lia.
      * cbn [app]. rewrite Hheld. apply submseteq_inserts_r. done.
    + assert (He1 : seq_ok (expected (b_stream b1))) by apply Hb1.
      pose proof (offset_ahead _ _ He1 Hseq ltac:(lia)) as Hah.
      destruct (accept_moved packet arrival b1 Hb1 Hs1 Hseq ltac:(lia)) as (Hok & Hst & Hr & Hrec & Hlt & (a & Ha & Hadv) & Hh & l & Hl & E).
      split; [done|done|lia| | |].
      * intros _ Hs. exists a, []. rewrite Hadv, Hexp by done. split_and!; [lia|lia|done|constructor|constructor|done].
      * intros _. exists l. change (len []) with 0. lia.
      * cbn [app]. rewrite <-Hheld, Permutation_app_comm. exact Hh.
Qed.

(** The removal of the packet that is due. *)
Lemma drop_ok s : stream_ok s → started s = true →
  stream_ok (mkStream (delete (expected s) (packets s)) (ssrc s) (next_seq (expected s)) (started s) (emitting s)).
Proof.
  intros (He & Hm & Hsz & Hst) Hs. split_and!; cbn; [apply next_seq_range..| | |congruence].
  - eapply packets_weaken; [by apply packets_drop|unfold pcmJitterSequenceLimit; lia].
  - destruct (packets s !! expected s) as [p|] eqn:Ep.
    + pose proof (size_delete_some _ _ _ Ep). lia.
    + rewrite delete_id by done. lia.
Qed.

Lemma pop_trim_moved b :
  buffer_ok b → started (b_stream b) = true → moved 1 [] b [] (pop_trim b).
Proof.
  intros Hb Hs. unfold pop_trim. destruct (_ && _) eqn:Ht; [|by apply moved_refl].
  apply andb_true_iff in Ht as [Ht%bool_decide_eq_true _]. destruct Hb as [Hst (Hp1 & Hp2 & Hp3)].
  split; [|done|done| | |].
  - split; cbn; [by apply drop_ok|]. split_and!; cbn; [lia..].
  - intros _ _. exists 1, []. cbn. split_and!; [lia|lia|done|constructor|constructor|done].
  - intros _. cbn [b_diag count_trimmed Trimmed Received Late Duplicate b_stream packets].
    destruct (packets (b_stream b) !! expected (b_stream b)) as [p|] eqn:Ep.
    + exists 1. rewrite (size_delete_some _ _ _ Ep). change (len []) with 0. lia.
    + exists 0. rewrite delete_id by done. change (len []) with 0. lia.
  - cbn [app]. rewrite app_nil_r. apply held_subset_delete.
Qed.

Lemma pop_moved b : buffer_ok b →
  let '(ps, b') := step b Pop in moved 2 [] b ps b'.
Proof.
  intros Hb. cbn [step]. unfold pop. destruct (started (b_stream b)) eqn:Hs; cbn [negb orb]; [|by apply moved_refl].
  destruct (emitting (b_stream b)); cbn [negb]; [|by apply moved_refl].
  case_bool_decide as Hh.
  { destruct Hb as [Hst (Hp1 & Hp2 & Hp3)]. split; [|done|done| | |by rewrite app_nil_r].
    - split; [done|]. split_and!; cbn; lia.
    - intros _ _. exists 0, []. destruct Hst as (He & _). cbn.
      split_and!; [lia|lia|rewrite Z.add_0_r; symmetry; by apply Z.mod_small|constructor|constructor|done].
    - intros _. exists 0. cbn [b_diag Trimmed Received Late Duplicate b_stream]. change (len []) with 0. lia. }
  pose proof (pop_trim_moved b Hb Hs) as Ht. assert (Hs' : started (b_stream (pop_trim b)) = true) by by apply Ht.
  assert (Hb' : buffer_ok (pop_trim b)) by apply Ht. cbv zeta. revert Ht Hs' Hb'. generalize (pop_trim b). intros t Ht Hs' Hb'.
  assert (Hgoal : ∀ ps b', moved 1 [] t ps b' → moved 2 [] b ps b') by (intros ps b' Hm; exact (moved_trans _ _ [] [] _ [] _ _ _ Ht Hm)).
  destruct Hb' as [Hst Hp]. destruct (packets (b_stream t) !! expected (b_stream t)) as [p|] eqn:Ep.
  - apply Hgoal. destruct Hst as (He & Hm & Hrest). destruct (Hm _ _ Ep) as (Hseq & _ & _).
    split; cbn [b_stream b_diag packets started expected].
    + split; [|done]. by apply drop_ok.
    + done.
    + done.
    + intros _ _. exists 1, [0]. split_and!; [lia|lia|done|repeat constructor|apply Forall_singleton; lia|].
      cbn. rewrite Z.add_0_r, Hseq. f_equal. symmetry. by apply Z.mod_small.
    + intros _. exists 0. rewrite (size_delete_some _ _ _ Ep). change (len [p]) with 1. lia.
    + rewrite app_nil_r. unfold held. cbn [packets app]. by rewrite (held_delete _ _ _ Ep).
  - case_bool_decide as Hz; [by apply Hgoal, moved_refl|]. apply Hgoal.
    split; cbn [b_stream b_diag packets started expected Trimmed Received Late Duplicate Restarts].
    + split; [|done]. pose proof (drop_ok _ Hst Hs') as Hd. by rewrite delete_id in Hd.
    + done.
    + done.
    + intros _ _. exists 1, []. split_and!; [lia|lia|done|constructor|constructor|done].
    + intros _. exists 0. change (len []) with 0. lia.
    + by rewrite app_nil_r.
Qed.

(** How many numbers an event may go forward, and the packets that arrive. *)
Fixpoint span (l : list event) : Z := match l with [] => 0 | Push _ _ :: l => 64 + span l | Pop :: l => 2 + span l end.
Definition arrivals (l : list event) : list Packet := omap (λ e, match e with Push p _ => Some p | Pop => None end) l.

Lemma run_moved l : ∀ b, buffer_ok b → Forall event_ok l → let '(ps, b') := run b l in moved (span l) (arrivals l) b ps b'.
Proof.
  induction l as [|e l IH]; intros b Hb Hl; cbn [run]; [by apply (moved_refl 0)|]. inversion Hl as [|? ? He Hl']; subst.
  assert (Hstep : let '(ps, b') := step b e in moved (span [e]) (arrivals [e]) b ps b').
  { destruct e; [by apply push_moved|by apply pop_moved]. }
  destruct (step b e) as [ps b1]. specialize (IH b1 (mv_ok _ _ _ _ _ Hstep) Hl').
  destruct (run b1 l) as [qs b2]. replace (span (e :: l)) with (span [e] + span l) by (destruct e; cbn; lia).
  replace (arrivals (e :: l)) with (arrivals [e] ++ arrivals l) by (by destruct e). by eapply moved_trans.
Qed.

Lemma new_ok : buffer_ok newAdaptivePCMBuffer.
Proof.
  split; [split_and!; cbn; [done..|apply map_Forall_empty|by rewrite map_size_empty|done]|].
  unfold pace_ok. cbn. unfold pcmJitterMinFrames, pcmJitterMaxFrames, pcmJitterInitialFrames. lia.
Qed.

(** The buffer is bounded and its bookkeeping is exact.  After any sequence
    of arrivals and ticks: it holds at most six packets, each under its own
    sequence number and less than 64 ahead of the next one to play, and waits
    for between two and six frames; and while the stream was not restarted
    every packet received was played, is held, or is counted as late, duplicate
    or trimmed. *)
Theorem jitter_invariant l :
  Forall event_ok l →
  let '(ps, b) := run newAdaptivePCMBuffer l in
  buffer_ok b ∧
  (Restarts (b_diag b) = 0 → ∃ lost, 0 ≤ lost ≤ Trimmed (b_diag b) ∧
     Received (b_diag b) = len ps + Z.of_nat (size (packets (b_stream b))) + Late (b_diag b) + Duplicate (b_diag b) + lost).
Proof.
  intros Hl. pose proof (run_moved l newAdaptivePCMBuffer new_ok Hl) as Hr.
  destruct (run newAdaptivePCMBuffer l) as [ps b]. destruct Hr as [H1 _ _ _ H5 _]. split; [done|].
  intros Hz. destruct (H5 (eq_sym Hz)) as (lost & Hlost & E). cbn in Hlost, E. exists lost.
  rewrite map_size_empty in E. lia.
Qed.

Lemma positions_distinct e a positions :
  a ≤ 2 ^ 16 → StronglySorted Z.lt positions → Forall (λ o, 0 ≤ o < a) positions → NoDup ((λ o, u16 (e + o)) <$> positions).
Proof.
  intros Ha Hs Hf. induction Hs as [|o l Hs IH Ho]; cbn; [constructor|]. inversion_clear Hf as [|? ? Hoa Hf']. constructor; [|by apply IH].
  intros (o' & Heq & Hin)%list_elem_of_fmap. rewrite Forall_forall in Ho, Hf'. specialize (Ho o' Hin). specialize (Hf' o' Hin).
  unfold u16 in Heq. assert (Hd : (o' - o) `mod` 2 ^ 16 = 0).
  { replace (o' - o) with ((e + o') - (e + o)) by lia. rewrite Zminus_mod, Heq, Z.sub_diag. done. }
  rewrite Z.mod_small in Hd by lia. lia.
Qed.

(** C26: packets are played at most once and in order.  Whatever the order and
    the times of the arrivals, each packet is played or held at most as often as
    it arrived or was held before, also across restarts.  Between two restarts
    the packets played are at increasing positions of the stream after the next
    number to play: an arrival moves that number by 64 at most and a tick by two,
    so that over events that move it by no more than 2^16 all the sequence numbers
    played are distinct, across the wrap-around of the 16-bit counter. *)
Theorem jitter_order l k :
  Forall event_ok (l ++ k) →
  let b := snd (run newAdaptivePCMBuffer l) in
  let '(ps, b') := run b k in
  ps ++ held (b_stream b') ⊆+ held (b_stream b) ++ arrivals k ∧
  (started (b_stream b) = true → Restarts (b_diag b') = Restarts (b_diag b) →
   (∃ a positions, 0 ≤ a ≤ span k ∧ expected (b_stream b') = u16 (expected (b_stream b) + a) ∧
      StronglySorted Z.lt positions ∧ Forall (λ o, 0 ≤ o < a) positions ∧
      SequenceNumber <$> ps = (λ o, u16 (expected (b_stream b) + o)) <$> positions) ∧
   (span k ≤ 2 ^ 16 → NoDup (SequenceNumber <$> ps))).
Proof.
  intros [Hl Hk]%Forall_app b. assert (Hb : buffer_ok b).
  { pose proof (run_moved l newAdaptivePCMBuffer new_ok Hl) as Hr. unfold b.
    destruct (run newAdaptivePCMBuffer l) as [ps0 b0]. apply Hr. }
  pose proof (run_moved k b Hb Hk) as Hr. destruct (run b k) as [ps b']. destruct Hr as [_ _ _ H4 _ H6]. split; [exact H6|].
  intros Hs Hz. destruct (H4 (eq_sym Hz) Hs) as (a & offs & Ha & He & Hso & Hf & Hps). split.
  - by exists a, offs.
  - intros Hsp. rewrite Hps. apply (positions_distinct _ a); [lia|done|done].
Qed.

(** ** Witnesses *)

Definition sample_packet (n : Z) : Packet := mkPacket 7 (u16 n) (u32 (160 * n)) [n `mod` 256].

(** Out of order, across the wrap-around, with a duplicate, a loss and a late packet. *)
Definition sample_start : list event := [Push (sample_packet 65534) 1000000].
Definition sample_events : list event :=
  [ Push (sample_packet 65536) 41000000; Push (sample_packet 65535) 42000000; Push (sample_packet 65536) 43000000; Pop;
    Pop; Push (sample_packet 65538) 81000000; Pop; Pop; Pop; Push (sample_packet 65537) 121000000 ].

Lemma jitter_invariant_witness :
  let '(ps, b) := run newAdaptivePCMBuffer (sample_start ++ sample_events) in
  SequenceNumber <$> ps = [65534; 65535; 0; 2] ∧ buffer_ok b ∧
  (Restarts (b_diag b) = 0 → ∃ lost, 0 ≤ lost ≤ Trimmed (b_diag b) ∧
     Received (b_diag b) = len ps + Z.of_nat (size (packets (b_stream b))) + Late (b_diag b) + Duplicate (b_diag b) + lost).
Proof.
  pose proof (jitter_invariant (sample_start ++ sample_events)) as H.
  assert (E : SequenceNumber <$> fst (run newAdaptivePCMBuffer (sample_start ++ sample_events)) = [65534; 65535; 0; 2])
    by (vm_compute; reflexivity).
  destruct (run newAdaptivePCMBuffer (sample_start ++ sample_events)) as [ps b]. split; [exact E|]. apply H.
  repeat constructor; vm_compute; discriminate.
Defined.

Lemma jitter_order_witness :
  let b := snd (run newAdaptivePCMBuffer sample_start) in
  let '(ps, b') := run b sample_events in
  len ps = 4 ∧ ps ++ held (b_stream b') ⊆+ held (b_stream b) ++ arrivals sample_events ∧ NoDup (SequenceNumber <$> ps) ∧
  ∃ a positions, 0 ≤ a ≤ span sample_events ∧ expected (b_stream b') = u16 (expected (b_stream b) + a) ∧
    StronglySorted Z.lt positions ∧ Forall (λ o, 0 ≤ o < a) positions ∧
    SequenceNumber <$> ps = (λ o, u16 (expected (b_stream b) + o)) <$> positions.
Proof.
  pose proof (jitter_order sample_start sample_events) as H. cbv zeta in *.
  set (b := snd (run newAdaptivePCMBuffer sample_start)) in *.
  assert (E : len (fst (run b sample_events)) = 4 ∧ started (b_stream b) = true ∧
    Restarts (b_diag (snd (run b sample_events))) = Restarts (b_diag b)) by (vm_compute; repeat split; reflexivity).
  destruct (run b sample_events) as [ps b']. destruct E as (E1 & E2 & E3). split; [exact E1|].
  destruct H as [H1 H2]; [repeat constructor; vm_compute; discriminate|]. split; [exact H1|].
  destruct (H2 E2 E3) as [H3 H4]. split; [apply H4; vm_compute; discriminate|exact H3].
Defined.
