(* ===== verification/Interaction.v ===== *)
(** * Programs that talk to a device

    A program makes requests and goes on with the answers; the answers are
    arbitrary, so a statement about [exec] holds for every device and every
    failure.  [C] is the type of requests and [answer] gives the type of the
    answer to each. *)

From S2P Require Import Prelude.

Class Requests (C : Type) := answer : C → Type.

Section Programs.
Context {C : Type} `{Requests C}.

Inductive prog (A : Type) : Type :=
  | Ret (a : A)
  | Do (c : C) (k : answer c → prog A).
Arguments Ret {A} a.
Arguments Do {A} c k.

Fixpoint bind {A B} (p : prog A) (f : A → prog B) : prog B :=
  match p with
  | Ret a => f a
  | Do c k => Do c (λ r, bind (k r) f)
  end.

Definition ask (c : C) : prog (answer c) := Do c Ret.

(** A request and its answer. *)
Record exchange := mkExchange { x_request : C; x_answer : answer x_request }.

(** [exec p t a]: with the answers of [t], in order, [p] returns [a]. *)
Fixpoint exec {A} (p : prog A) (t : list exchange) (a : A) : Prop :=
  match p with
  | Ret a' => t = [] ∧ a = a'
  | Do c k => ∃ r t', t = mkExchange c r :: t' ∧ exec (k r) t' a
  end.

Lemma exec_bind {A B} (p : prog A) (f : A → prog B) t b :
  exec (bind p f) t b ↔ ∃ t1 t2 a, t = t1 ++ t2 ∧ exec p t1 a ∧ exec (f a) t2 b.
Proof.
  revert t. induction p as [a|c k IH]; intros t; cbn; split.
  - intros Hx. by exists [], t, a.
  - by intros (t1 & t2 & a' & -> & [-> ->] & Hx).
  - intros (r & t' & -> & Hk%IH). destruct Hk as (t1 & t2 & a & -> & H1 & H2).
    exists (mkExchange c r :: t1), t2, a. split_and!; [done|by exists r, t1|done].
  - intros (t1 & t2 & a & -> & (r & t1' & -> & H1) & H2). exists r, (t1' ++ t2). split; [done|].
    apply IH. by exists t1', t2, a.
Qed.

(** Every request of a program satisfies [P]. *)
Fixpoint asks_only {A} (P : C → Prop) (p : prog A) : Prop :=
  match p with
  | Ret _ => True
  | Do c k => P c ∧ ∀ r, asks_only P (k r)
  end.

Lemma asks_only_bind {A B} (P : C → Prop) (p : prog A) (f : A → prog B) :
  asks_only P p → (∀ a, asks_only P (f a)) → asks_only P (bind p f).
Proof. intros Hp Hf. induction p as [a|c k IH]; cbn in *; [done|]. destruct Hp. split; [done|]. auto. Qed.

(** ** Monitors

    A monitor reads the exchanges and may reject one; [triple] is the Hoare
    triple of a program with respect to the monitor's state. *)
Section Monitors.
Context {S : Type} (step : S → exchange → option S).

Fixpoint watch (s : S) (t : list exchange) : option S :=
  match t with
  | [] => Some s
  | x :: t => match step s x with Some s' => watch s' t | None => None end
  end.

Lemma watch_app s t1 t2 :
  watch s (t1 ++ t2) = match watch s t1 with Some s' => watch s' t2 | None => None end.
Proof. revert s. induction t1 as [|x t1 IH]; intros s; cbn; [done|]. by destruct (step s x). Qed.

Definition triple {A} (P : S → Prop) (p : prog A) (Q : A → S → Prop) : Prop :=
  ∀ s t a, P s → exec p t a → ∃ s', watch s t = Some s' ∧ Q a s'.

Lemma triple_ret {A} (P : S → Prop) (a : A) (Q : A → S → Prop) :
  (∀ s, P s → Q a s) → triple P (Ret a) Q.
Proof. intros HQ s t b HP [-> ->]. exists s. by auto. Qed.

Lemma triple_bind {A B} (P : S → Prop) (p : prog A) (f : A → prog B) R Q :
  triple P p R → (∀ a, triple (R a) (f a) Q) → triple P (bind p f) Q.
Proof.
  intros Hp Hf s t b HP (t1 & t2 & a & -> & H1 & H2)%exec_bind.
  destruct (Hp _ _ _ HP H1) as (s1 & W1 & HR). destruct (Hf _ _ _ _ HR H2) as (s2 & W2 & HQ).
  exists s2. by rewrite watch_app, W1.
Qed.

Lemma triple_ask (P : S → Prop) (c : C) (Q : answer c → S → Prop) :
  (∀ s r, P s → ∃ s', step s (mkExchange c r) = Some s' ∧ Q r s') → triple P (ask c) Q.
Proof.
  intros Hc s t r HP (r' & t' & -> & -> & ->). destruct (Hc s r' HP) as (s' & Hs & HQ).
  exists s'. cbn. by rewrite Hs.
Qed.

Lemma triple_conseq {A} (P P' : S → Prop) (p : prog A) (Q Q' : A → S → Prop) :
  triple P' p Q' → (∀ s, P s → P' s) → (∀ a s, Q' a s → Q a s) → triple P p Q.
Proof. intros Hp HP HQ s t a HPs Hx. destruct (Hp s t a (HP _ HPs) Hx) as (s' & ? & ?). by eauto. Qed.

(** Symbolic execution: from one state, for every answer. *)
Lemma triple_next {B} s c (k : answer c → prog B) (Q : B → S → Prop) :
  (∀ r, ∃ s', step s (mkExchange c r) = Some s' ∧ triple (eq s') (k r) Q) → triple (eq s) (Do c k) Q.
Proof.
  intros Hf s0 t b <- (r & t' & -> & Hx). destruct (Hf r) as (s' & Hs & Hk).
  destruct (Hk s' t' b eq_refl Hx) as (s2 & HW & HQ). exists s2. cbn [watch]. by rewrite Hs.
Qed.

Lemma triple_done {A} s (a : A) (Q : A → S → Prop) : Q a s → triple (eq s) (Ret a) Q.
Proof. intros HQ. apply triple_ret. by intros ? <-. Qed.

(** A triple is one for each of its initial states. *)
Lemma triple_from {A} (P : S → Prop) (p : prog A) (Q : A → S → Prop) : (∀ s, P s → triple (eq s) p Q) → triple P p Q.
Proof. intros Hp s t a HP Hx. exact (Hp s HP s t a eq_refl Hx). Qed.

Lemma triple_at {A} (P : S → Prop) s (p : prog A) (Q : A → S → Prop) : triple P p Q → P s → triple (eq s) p Q.
Proof. intros Hp HP s' t a <- Hx. exact (Hp s t a HP Hx). Qed.

(** A call whose postcondition is known, and what follows it from each of its
    final states. *)
Lemma triple_call {A B} s (p : prog A) (f : A → prog B) (R : A → S → Prop) Q :
  triple (eq s) p R → (∀ a s', R a s' → triple (eq s') (f a) Q) → triple (eq s) (bind p f) Q.
Proof.
  intros Hp Hf. eapply triple_bind; [exact Hp|].
  intros a s' t b HR Hx. exact (Hf a s' HR s' t b eq_refl Hx).
Qed.

(** A program that only makes requests that keep [I]. *)
Lemma asks_only_triple {A} (I : S → Prop) (P : C → Prop) (p : prog A) :
  (∀ s c r, I s → P c → ∃ s', step s (mkExchange c r) = Some s' ∧ I s') → asks_only P p → triple I p (λ _, I).
Proof.
  intros HI. induction p as [a|c k IH]; cbn [asks_only]; intros Hp.
  - by apply triple_ret.
  - destruct Hp as [Hc Hk]. apply triple_from. intros s Hs. apply triple_next. intros r.
    destruct (HI s c r Hs Hc) as (s' & Hs' & HI'). exists s'. split; [done|]. apply (triple_at I); [by apply IH|done].
Qed.
End Monitors.

(** A device that answers from its state. *)
Fixpoint run_on {S A} (device : S → ∀ c, answer c * S) (p : prog A) (s : S) : list exchange * A * S :=
  match p with
  | Ret a => ([], a, s)
  | Do c k =>
      let '(r, s) := device s c in
      let '(t, a, s) := run_on device (k r) s in (mkExchange c r :: t, a, s)
  end.

Lemma run_on_exec {S A} (device : S → ∀ c, answer c * S) (p : prog A) s :
  let '(t, a, _) := run_on device p s in exec p t a.
Proof.
  revert s. induction p as [a|c k IH]; intros s; cbn; [done|].
  destruct (device s c) as [r s1]. specialize (IH r s1). destruct (run_on device (k r) s1) as [[t a] s2].
  by exists r, t.
Qed.

Lemma run_exec {S A} (device : S → ∀ c, answer c * S) (p : prog A) s :
  exec p (run_on device p s).1.1 (run_on device p s).1.2.
Proof. pose proof (run_on_exec device p s) as Hx. by destruct (run_on device p s) as [[t a] s']. Qed.
End Programs.

Arguments prog C {_} A.
Arguments Ret {C _ A} a.
Arguments Do {C _ A} c k.
Arguments exchange C {_}.
Arguments mkExchange {C _} c r : rename.
Arguments x_request {C _} _.
Arguments x_answer {C _} _.

Notation "'let?' x ':=' p 'in' k" := (bind p (λ x, k))
  (at level 200, x pattern, p at level 100, k at level 200, right associativity).
