(* ===== verification/SimAka.v ===== *)
(** * Authentication on the card (internal/sim)

    AKA runs the AUTHENTICATE command of the USIM or ISIM application on a
    logical channel.  The modem is whatever answers the requests below; logging
    and the text of errors are left out.  A failed operation returns a result
    and an error, since a synchronisation failure carries the AUTS token. *)

From S2P Require Import Prelude GoText SmsCodec Interaction.
From Stdlib Require Import Ascii String.

#[local] Open Scope Z_scope.

Record AKAResult := mkAKA { RES : bytes; CK : bytes; IK : bytes; AUTS : bytes }.
Definition no_result : AKAResult := mkAKA [] [] [] [].

(** The errors that the code tells apart: [ErrSyncFailure], a status of the
    MBIM layer, and the others. *)
Inductive aka_error := SyncFailure | StatusError (Status : Z) | OtherError.
#[global] Instance aka_error_eq_dec : EqDecision aka_error.
Proof. solve_decision. Defined.

Definition aka_outcome : Type := go (AKAResult * aka_error) AKAResult.
Definition fail (e : aka_error) : aka_outcome := Err (no_result, e).

(** ** APDUs (apdu.go) *)

Definition BuildUSIMAuthAPDU (rand16 autn16 : bytes) (includeLe : bool) : option bytes :=
  if bool_decide (len rand16 ≠ 16) then None
  else if bool_decide (len autn16 ≠ 16) then None
  else
    let authData := [0x10] ++ rand16 ++ [0x10] ++ autn16 in
    Some ([0x00; 0x88; 0x00; 0x81; u8 (len authData)] ++ authData ++ (if includeLe then [0x00] else [])).

Definition parseTLVData (body : bytes) : go unit bytes :=
  if bool_decide (len body < 2) then Err tt
  else
    l ← idx body 1;
    if bool_decide (len body < 2 + l) then Err tt else slice body 2 (2 + l).

Definition parseUSIMAuthDB (body : bytes) : go unit AKAResult :=
  if bool_decide (len body < 2) then Err tt
  else
    tag ← idx body 0;
    if bool_decide (tag ≠ 0xDB) then Err tt
    else
      resLen ← idx body 1;
      let pos := 2 in
      if bool_decide (resLen <= 0) || bool_decide (len body < pos + resLen + 1) then Err tt
      else
        res ← slice body pos (pos + resLen);
        let pos := pos + resLen in
        if bool_decide (len body - pos = 32) then
          ck ← slice body pos (pos + 16);
          ik ← slice body (pos + 16) (pos + 32);
          Ok (mkAKA res ck ik [])
        else
          ckLen ← idx body pos;
          let pos := pos + 1 in
          if bool_decide (ckLen <= 0) || bool_decide (len body < pos + ckLen + 1) then Err tt
          else
            ck ← slice body pos (pos + ckLen);
            let pos := pos + ckLen in
            ikLen ← idx body pos;
            let pos := pos + 1 in
            if bool_decide (ikLen <= 0) || bool_decide (len body < pos + ikLen) then Err tt
            else
              ik ← slice body pos (pos + ikLen);
              Ok (mkAKA res ck ik []).

(** [v, err := m; if err != nil { return other error }] *)
Definition or_other {A} (m : go unit A) (k : A → aka_outcome) : aka_outcome :=
  match m with Ok a => k a | Err _ => fail OtherError | Panic => Panic end.

Definition ParseUSIMAuthResponse (resp : bytes) : aka_outcome :=
  if bool_decide (len resp = 2) then fail OtherError
  else if bool_decide (len resp < 4) then fail OtherError
  else
    sw1 ← idx resp (len resp - 2);
    sw2 ← idx resp (len resp - 1);
    body ← slice resp 0 (len resp - 2);
    if bool_decide (sw1 ≠ 0x90) || bool_decide (sw2 ≠ 0x00) then fail OtherError
    else if bool_decide (len body < 2) then fail OtherError
    else
      tag ← idx body 0;
      if bool_decide (tag = 0xDB) then
        match parseUSIMAuthDB body with
        | Ok out => Ok out
        | Panic => Panic
        | Err _ => or_other (parseTLVData body) (λ data, or_other (parseUSIMAuthDB (0xDB :: data)) Ok)
        end
      else if bool_decide (tag = 0xDC) then
        or_other (parseTLVData body) (λ auts, Err (mkAKA [] [] [] auts, SyncFailure))
      else if bool_decide (tag = 0xDD) then fail OtherError
      else or_other (parseTLVData body) (λ _, fail OtherError).

(** ** The modem *)

Inductive request :=
  | ResolveLogicalChannelAID (app fallbackAID : string)
  | OpenLogicalChannel (aid : string)
  | CloseLogicalChannel (channel : Z)
  | TransmitAPDU (channel : Z) (hexAPDU : string)
  | RecordProfile (selectedApp preference : string) (fallback : bool)
  | BackendCalculateAKA (rand16 autn16 : bytes).

(** An answer is a value or an error; the authentication service of the
    backend answers with RES, IK, CK and AUTS, and may add an error. *)
#[export] Instance modem_requests : Requests request := λ r,
  match r with
  | ResolveLogicalChannelAID _ _ => (string + aka_error)%type
  | OpenLogicalChannel _ => (Z + aka_error)%type
  | CloseLogicalChannel _ => (unit + aka_error)%type
  | TransmitAPDU _ _ => (string + aka_error)%type
  | RecordProfile _ _ _ => unit
  | BackendCalculateAKA _ _ => (bytes * bytes * bytes * bytes * option aka_error)%type
  end.

Definition aka : Type := prog request aka_outcome.

Definition usimAIDPrefix : string := "A0000000871002".
Definition isimAIDPrefix : string := "A0000000871004".

Section Provider.
Context (unicode_upper unicode_lower : string → string) (unicode_fold : string → string → bool).
(** Whether the modem implements [LogicalChannelAIDResolver]. *)
Context (resolver : bool).

Definition validateFullAID (aid expectedPrefix : string) : option string :=
  let aid := ToUpper unicode_upper (TrimSpace aid) in
  if bool_decide (aid = EmptyString) then None
  else if negb (HasPrefix aid expectedPrefix) then None
  else if bool_decide (String.length aid <= String.length expectedPrefix)%nat then None
  else Some aid.

Definition resolveLogicalChannelAID (app fallbackAID expectedPrefix : string) : prog request (option string) :=
  let fallback := ToUpper unicode_upper (TrimSpace fallbackAID) in
  if resolver then
    let? r := ask (ResolveLogicalChannelAID app fallback) in
    Ret (match r with inl aid => validateFullAID aid expectedPrefix | inr _ => None end)
  else Ret None.

Definition openLogicalChannelWithCandidates (primaryAID : string) : prog request (Z + aka_error) :=
  ask (OpenLogicalChannel (ToUpper unicode_upper (TrimSpace primaryAID))).

(** [send]: the bytes of the answer, or an error. *)
Definition send (channel : Z) (cmd : bytes) : prog request (bytes + aka_error) :=
  let? r := ask (TransmitAPDU channel (EncodeToString cmd)) in
  Ret (match r with
       | inl respHex => match DecodeString respHex with Some b => inl b | None => inr OtherError end
       | inr e => inr e
       end).

(** The status bytes and the body of an answer of at least two bytes. *)
Definition split_status (resp : bytes) : option (bytes * Z * Z) :=
  if bool_decide (len resp < 2) then None
  else
    Some (take (List.length resp - 2) resp, nth (List.length resp - 2) resp 0, nth (List.length resp - 1) resp 0).

Definition sendAPDUOnLogicalChannel (channel : Z) (apdu : bytes) : prog request ((bytes * Z * Z) + aka_error) :=
  let? r := send channel apdu in
  match r with
  | inr e => Ret (inr e)
  | inl resp =>
      match split_status resp with
      | None => Ret (inr OtherError)
      | Some (body, sw1, sw2) =>
          if bool_decide (sw1 = 0x61) && bool_decide (sw2 ≠ 0x00) then
            let? r2 := send channel [0x00; 0xC0; 0x00; 0x00; sw2] in
            Ret (match r2 with
                 | inr e => inr e
                 | inl resp2 => match split_status resp2 with Some x => inl x | None => inr OtherError end
                 end)
          else Ret (inl (body, sw1, sw2))
      end
  end.

Definition sendLogicalAuth (channel : Z) (apdu : bytes) : aka :=
  let? r := sendAPDUOnLogicalChannel channel apdu in
  Ret (match r with
       | inr e => fail e
       | inl (body, sw1, sw2) => ParseUSIMAuthResponse (body ++ [sw1; sw2])
       end).

Definition is_sync (o : aka_outcome) : bool :=
  match o with Err (_, SyncFailure) => true | _ => false end.

(** The command without Le, then with it, on an open channel. *)
Definition auth_on_channel (ch : Z) (rand16 autn16 : bytes) : aka :=
  match BuildUSIMAuthAPDU rand16 autn16 false with
  | None => Ret (fail OtherError)
  | Some apdu =>
      let? res := sendLogicalAuth ch apdu in
      match res with
      | Ok _ | Panic => Ret res
      | Err (_, e) =>
          if bool_decide (e = SyncFailure) then Ret res
          else
            match BuildUSIMAuthAPDU rand16 autn16 true with
            | None => Ret (fail OtherError)
            | Some apdu2 =>
                let? res2 := sendLogicalAuth ch apdu2 in
                match res2 with
                | Ok _ | Panic => Ret res2
                | Err (_, e2) => if bool_decide (e2 = SyncFailure) then Ret res2 else Ret (fail OtherError)
                end
            end
      end
  end.

(** The deferred close runs whatever the outcome. *)
Definition closing (ch : Z) (body : aka) : aka :=
  let? res := body in
  let? _ := ask (CloseLogicalChannel ch) in
  Ret res.

Definition calculateAKAOnUSIM (rand16 autn16 : bytes) : aka :=
  let? usimAID := resolveLogicalChannelAID "usim" usimAIDPrefix usimAIDPrefix in
  match usimAID with
  | None => Ret (fail OtherError)
  | Some aid =>
      let? ch := openLogicalChannelWithCandidates aid in
      match ch with
      | inr e => Ret (fail e)
      | inl ch => closing ch (auth_on_channel ch rand16 autn16)
      end
  end.

Definition calculateAKAOnISIMLogicalChannel (rand16 autn16 : bytes) : aka :=
  let? isimAID := resolveLogicalChannelAID "isim" isimAIDPrefix isimAIDPrefix in
  match isimAID with
  | None => Ret (fail OtherError)
  | Some aid =>
      let? ch := ask (OpenLogicalChannel aid) in
      match ch with
      | inr e => Ret (fail e)
      | inl ch => closing ch (auth_on_channel ch rand16 autn16)
      end
  end.

(** The preference that [CalculateAKAWithPreference] goes by. *)
Definition effective_preference (preference : string) : string :=
  let pref := ToLower unicode_lower (TrimSpace preference) in
  if (String.eqb pref "auto" || String.eqb pref "isim" || String.eqb pref "isim_strict" || String.eqb pref "usim_strict")%bool
  then pref else "usim"%string.

Definition recordAKAProfile (selectedApp preference : string) (fallback : bool) (res : aka_outcome) : aka :=
  let? _ := ask (RecordProfile selectedApp preference fallback) in Ret res.

Definition CalculateAKAWithPreference (rand16 autn16 : bytes) (preference : string) : aka :=
  let pref := effective_preference preference in
  if String.eqb pref "usim" || String.eqb pref "usim_strict" then
    let? res := calculateAKAOnUSIM rand16 autn16 in
    match res with
    | Ok _ => recordAKAProfile "USIM" pref false res
    | _ => Ret res
    end
  else
    let? res := calculateAKAOnISIMLogicalChannel rand16 autn16 in
    match res with
    | Ok _ => recordAKAProfile "ISIM" pref false res
    | Panic => Ret Panic
    | Err (_, e) =>
        if bool_decide (e = SyncFailure) || String.eqb pref "isim_strict" then Ret res
        else
          let? res := calculateAKAOnUSIM rand16 autn16 in
          match res with
          | Ok _ => recordAKAProfile "USIM" pref true res
          | _ => Ret res
          end
    end.

Definition CalculateAKA (rand16 autn16 : bytes) : aka := CalculateAKAWithPreference rand16 autn16 "usim".
Definition CalculateISIMAKA (rand16 autn16 : bytes) : aka := CalculateAKAWithPreference rand16 autn16 "isim_strict".

(** ** The fallback to the authentication service (factory.go) *)

Definition backend_CalculateAKA (rand16 autn16 : bytes) : aka :=
  let? r := ask (BackendCalculateAKA rand16 autn16) in
  let '(res, ik, ck, auts, err) := r in
  Ret (match err with
       | Some e =>
           if bool_decide (e = StatusError 35) then Err (mkAKA [] [] [] auts, SyncFailure)
           else if bool_decide (len auts > 0) then Err (mkAKA [] [] [] auts, SyncFailure)
           else fail e
       | None => Ok (mkAKA res ck ik auts)
       end).

Definition isUICCChannelOpenError (e : aka_error) : bool :=
  match e with
  | StatusError s => bool_decide (s = 0x87430002) || bool_decide (s = 0x87430001) || bool_decide (s = 0x87430003)
  | _ => false
  end.

(** [strings.EqualFold] *)
Definition EqualFold (s t : string) : bool :=
  if is_ascii s && is_ascii t then String.eqb (ToLower id s) (ToLower id t) else unicode_fold s t.

Definition allowsMBIMAuthFallback (preference : string) : bool :=
  negb (EqualFold (TrimSpace preference) "isim_strict").

(** [calculate]: [preference] is [None] when it is not explicit. *)
Definition calculate (rand16 autn16 : bytes) (preference : option string) : aka :=
  let? res := match preference with
              | Some p => CalculateAKAWithPreference rand16 autn16 p
              | None => CalculateAKA rand16 autn16
              end in
  match res with
  | Err (_, e) =>
      if bool_decide (e = SyncFailure) then Ret res
      else if isUICCChannelOpenError e && allowsMBIMAuthFallback (default EmptyString preference)
      then backend_CalculateAKA rand16 autn16
      else Ret res
  | _ => Ret res
  end.

(** The provider that [BuildAKAProvider] returns for a worker: the mode of its
    backend, whether the authentication service is usable and present, and
    whether it has a modem. *)
Inductive aka_provider := ChannelProvider | ChannelOrAuthProvider | AuthProvider | NoProvider.

Definition BuildAKAProvider (mode : string) (auth_usable auth_present has_modem : bool) : aka_provider :=
  if EqualFold (TrimSpace mode) "mbim" then
    let mbimAuth := auth_usable && auth_present in
    if has_modem then (if mbimAuth then ChannelOrAuthProvider else ChannelProvider)
    else (if mbimAuth then AuthProvider else NoProvider)
  else if has_modem then ChannelProvider else NoProvider.

(** [CalculateAKA] and [CalculateAKAWithPreference] of the provider, [None]
    standing for [CalculateAKA]; the authentication service alone has no
    preference. *)
Definition provider_CalculateAKA (p : aka_provider) (rand16 autn16 : bytes) (preference : option string) : option aka :=
  match p, preference with
  | ChannelProvider, Some pref => Some (CalculateAKAWithPreference rand16 autn16 pref)
  | ChannelProvider, None => Some (CalculateAKA rand16 autn16)
  | ChannelOrAuthProvider, _ => Some (calculate rand16 autn16 preference)
  | AuthProvider, None => Some (backend_CalculateAKA rand16 autn16)
  | AuthProvider, Some _ | NoProvider, _ => None
  end.

(** [WrapPreferredAKAProvider] *)
Definition preferred_CalculateAKA (p : aka_provider) (preference : string) (rand16 autn16 : bytes) : option aka :=
  provider_CalculateAKA p rand16 autn16 (Some (TrimSpace preference)).
End Provider.
