(* ===== verification/SimAkaProofs.v ===== *)
(** * Properties of authentication on the card

    The parser of the answer reads back what a card writes and never panics.
    The monitor below follows the logical channels and the synchronisation
    failures of a run, and the programs of SimAka.v keep it content whatever
    the modem answers. *)

From S2P Require Import Prelude GoText SmsCodec SmsCodecProofs Interaction SimAka.
From Stdlib Require Import Ascii String.

#[local] Open Scope Z_scope.

(** ** The parser *)

Lemma parseTLVData_safe body : bytes_ok body → safe (parseTLVData body).
Proof.
  intros Hb. unfold parseTLVData. case_bool_decide; [done|].
  apply safe_bind; [apply safe_idx; lia|]. intros l Hl%idx_byte; [|done].
  case_bool_decide; [done|]. apply safe_slice; lia.
Qed.

Lemma parseUSIMAuthDB_safe body : bytes_ok body → safe (parseUSIMAuthDB body).
Proof.
  intros Hb. unfold parseUSIMAuthDB. case_bool_decide; [done|].
  apply safe_bind; [apply safe_idx; lia|]. intros tag _. case_bool_decide; [done|].
  apply safe_bind; [apply safe_idx; lia|]. intros r Hr%idx_byte; [|done].
  case_bool_decide; [done|]. cbn [orb]. case_bool_decide; [done|]. cbn [orb].
  apply safe_bind; [apply safe_slice; lia|]. intros res _. case_bool_decide.
  { apply safe_bind; [apply safe_slice; lia|]. intros ck _.
    apply safe_bind; [apply safe_slice; lia|]. done. }
  apply safe_bind; [apply safe_idx; lia|]. intros c Hc%idx_byte; [|done].
  case_bool_decide; [done|]. cbn [orb]. case_bool_decide; [done|]. cbn [orb].
  apply safe_bind; [apply safe_slice; lia|]. intros ck _.
  apply safe_bind; [apply safe_idx; lia|]. intros k Hk%idx_byte; [|done].
  case_bool_decide; [done|]. cbn [orb]. case_bool_decide; [done|]. cbn [orb].
  apply safe_bind; [apply safe_slice; lia|]. done.
Qed.

Lemma or_other_safe {A} (m : go unit A) (k : A → aka_outcome) :
  safe m → (∀ a, m = Ok a → safe (k a)) → safe (or_other m k).
Proof. unfold safe, or_other. destruct m; naive_solver. Qed.

Lemma ParseUSIMAuthResponse_no_panic resp : bytes_ok resp → safe (ParseUSIMAuthResponse resp).
Proof.
  intros Hb. unfold ParseUSIMAuthResponse. case_bool_decide; [done|]. case_bool_decide; [done|].
  apply safe_bind; [apply safe_idx; lia|]. intros sw1 _.
  apply safe_bind; [apply safe_idx; lia|]. intros sw2 _.
  apply safe_bind; [apply safe_slice; lia|]. intros body Hbody.
  pose proof (slice_bytes_ok _ _ _ _ Hb Hbody) as Hok. pose proof (slice_len _ _ _ _ Hbody) as Hl.
  destruct (bool_decide _ || bool_decide _); [done|]. case_bool_decide; [done|].
  apply safe_bind; [apply safe_idx; lia|]. intros tag _.
  pose proof (parseTLVData_safe body Hok) as HT.
  case_bool_decide.
  { pose proof (parseUSIMAuthDB_safe body Hok). destruct (parseUSIMAuthDB body); [done| |done].
    apply or_other_safe; [done|]. intros data Hd. apply or_other_safe; [|done].
    apply parseUSIMAuthDB_safe. constructor; [unfold byte_ok; lia|].
    unfold parseTLVData in Hd. case_bool_decide; [done|]. apply bind_Ok in Hd as (l & _ & Hd).
    case_bool_decide; [done|]. by eapply slice_bytes_ok. }
  case_bool_decide; [by apply or_other_safe|]. case_bool_decide; [done|]. by apply or_other_safe.
Qed.

(** A value after its length, and the answers of a card (TS 31.102, 7.1.2.1). *)
Definition lv (v : bytes) : bytes := len v :: v.
Definition success_body (r : AKAResult) (kc : bytes) : bytes := 0xDB :: lv (RES r) ++ lv (CK r) ++ lv (IK r) ++ kc.
Definition with_ok (body : bytes) : bytes := body ++ [0x90; 0x00].

Lemma ParseUSIMAuthResponse_status body sw1 sw2 :
  2 ≤ len body →
  ParseUSIMAuthResponse (body ++ [sw1; sw2]) =
    if bool_decide (sw1 ≠ 0x90) || bool_decide (sw2 ≠ 0x00) then fail OtherError
    else if bool_decide (len body < 2) then fail OtherError
    else
     (tag ← idx body 0;
     if bool_decide (tag = 0xDB) then
       match parseUSIMAuthDB body with
       | Ok out => Ok out
       | Panic => Panic
       | Err _ => or_other (parseTLVData body) (λ data, or_other (parseUSIMAuthDB (0xDB :: data)) Ok)
       end
     else if bool_decide (tag = 0xDC) then
       or_other (parseTLVData body) (λ auts, Err (mkAKA [] [] [] auts, SyncFailure))
     else if bool_decide (tag = 0xDD) then fail OtherError
     else or_other (parseTLVData body) (λ _, fail OtherError)).
Proof.
  intros Hb. unfold ParseUSIMAuthResponse. set (resp := (body ++ [sw1; sw2])%list).
  assert (HL : len resp = len body + 2) by (subst resp; rewrite len_app, !len_cons, len_nil; lia).
  rewrite HL. do 2 rewrite bool_decide_eq_false_2 by lia.
  assert (E1 : idx (E:=AKAResult * aka_error) resp (len body + 2 - 2) = Ok sw1) by (apply idx_mid; lia).
  assert (E2 : idx (E:=AKAResult * aka_error) resp (len body + 2 - 1) = Ok sw2).
  { subst resp. change [sw1; sw2] with ([sw1] ++ [sw2])%list. rewrite app_assoc.
    apply idx_mid. rewrite len_app, len_cons, len_nil. lia. }
  assert (E3 : slice (E:=AKAResult * aka_error) resp 0 (len body + 2 - 2) = Ok body).
  { apply (slice_mid []); [done|change (len (@nil Z)) with 0; lia]. }
  by rewrite E1, E2, E3.
Qed.

Lemma ParseUSIMAuthResponse_body body :
  2 ≤ len body →
  ParseUSIMAuthResponse (with_ok body) =
    (tag ← idx body 0;
     if bool_decide (tag = 0xDB) then
       match parseUSIMAuthDB body with
       | Ok out => Ok out
       | Panic => Panic
       | Err _ => or_other (parseTLVData body) (λ data, or_other (parseUSIMAuthDB (0xDB :: data)) Ok)
       end
     else if bool_decide (tag = 0xDC) then
       or_other (parseTLVData body) (λ auts, Err (mkAKA [] [] [] auts, SyncFailure))
     else if bool_decide (tag = 0xDD) then fail OtherError
     else or_other (parseTLVData body) (λ _, fail OtherError)).
Proof.
  intros Hb. unfold with_ok. rewrite ParseUSIMAuthResponse_status by done. cbn [orb].
  do 3 rewrite bool_decide_eq_false_2 by lia. done.
Qed.

Lemma idx_0 {E} x (l : bytes) : idx (E:=E) (x :: l) 0 = Ok x.
Proof. by apply (idx_mid []). Qed.

Lemma idx_1 {E} x y (l : bytes) : idx (E:=E) (x :: y :: l) 1 = Ok y.
Proof. by apply (idx_mid [x]). Qed.

Lemma slice_2 {E} x y (l r : bytes) j : j = 2 + len l → slice (E:=E) (x :: y :: l ++ r) 2 j = Ok l.
Proof. intros ->. by apply (slice_mid [x; y]). Qed.

Lemma parseTLVData_lv t v : parseTLVData (t :: lv v) = Ok v.
Proof.
  unfold parseTLVData, lv. rewrite !len_cons. pose proof (len_nonneg v).
  rewrite bool_decide_eq_false_2 by lia. rewrite idx_1. cbn [mbind go_bind].
  rewrite bool_decide_eq_false_2 by lia.
  rewrite <-(app_nil_r v) at 2. by rewrite slice_2.
Qed.

(** The lengths of RES, CK and IK are bytes other than 0, and what follows
    RES is not taken for two keys of 16 bytes without lengths. *)
Definition result_ok (r : AKAResult) (kc : bytes) : Prop :=
  0 < len (RES r) ∧ 0 < len (CK r) ∧ 0 < len (IK r) ∧ AUTS r = [] ∧
  len (CK r) + len (IK r) + len kc ≠ 30.

Lemma parseUSIMAuthDB_success r kc : result_ok r kc → parseUSIMAuthDB (success_body r kc) = Ok r.
Proof.
  destruct r as [res ck ik auts]. intros (Hr & Hc & Hi & Ha & Hn). cbn in *. subst auts.
  unfold parseUSIMAuthDB, success_body, lv. cbn [RES CK IK AUTS app]. pose proof (len_nonneg kc).
  assert (HL : len (0xDB :: len res :: res ++ len ck :: ck ++ len ik :: ik ++ kc)
               = 4 + len res + len ck + len ik + len kc) by (autorewrite with len; lia).
  rewrite HL. rewrite bool_decide_eq_false_2 by lia. rewrite idx_0. cbn [mbind go_bind].
  rewrite bool_decide_eq_false_2 by lia. rewrite idx_1. cbn [mbind go_bind].
  do 2 rewrite bool_decide_eq_false_2 by lia. cbn [orb].
  rewrite slice_2 by lia. cbn [mbind go_bind].
  rewrite bool_decide_eq_false_2 by lia.
  set (body := (0xDB :: len res :: res ++ len ck :: ck ++ len ik :: ik ++ kc)%list).
  pose (pre := (0xDB :: len res :: res ++ [len ck])%list).
  assert (Hpre : len pre = 3 + len res) by (unfold pre; autorewrite with len; lia).
  assert (Eck : idx (E:=unit) body (2 + len res) = Ok (len ck)).
  { apply (idx_mid (0xDB :: len res :: res)). autorewrite with len. lia. }
  assert (Sck : slice (E:=unit) body (2 + len res + 1) (2 + len res + 1 + len ck) = Ok ck).
  { replace body with (pre ++ ck ++ len ik :: ik ++ kc)%list by (unfold pre, body; cbn; by rewrite <-!app_assoc).
    apply slice_mid; lia. }
  assert (Eik : idx (E:=unit) body (2 + len res + 1 + len ck) = Ok (len ik)).
  { replace body with ((pre ++ ck) ++ len ik :: ik ++ kc)%list by (unfold pre, body; cbn; by rewrite <-!app_assoc).
    apply idx_mid. rewrite len_app. lia. }
  assert (Sik : slice (E:=unit) body (2 + len res + 1 + len ck + 1) (2 + len res + 1 + len ck + 1 + len ik) = Ok ik).
  { replace body with ((pre ++ ck ++ [len ik]) ++ ik ++ kc)%list by (unfold pre, body; cbn; by rewrite <-!app_assoc).
    apply slice_mid; autorewrite with len; lia. }
  rewrite Eck. cbn [mbind go_bind]. do 2 rewrite bool_decide_eq_false_2 by lia. cbn [orb].
  rewrite Sck. cbn [mbind go_bind]. rewrite Eik. cbn [mbind go_bind].
  do 2 rewrite bool_decide_eq_false_2 by lia. cbn [orb]. by rewrite Sik.
Qed.

(** What the card answers to AUTHENTICATE is read back.  A success with RES, CK
    and IK, with whatever follows IK, gives them; so does a success inside one
    more length; a synchronisation failure gives the AUTS token and the error
    that stands for it; the MAC failure and a status other than 9000 are other
    errors, whatever the body. *)
Theorem auth_response_read r kc auts rest sw1 sw2 :
  result_ok r kc →
  ParseUSIMAuthResponse (with_ok (success_body r kc)) = Ok r ∧
  ParseUSIMAuthResponse (with_ok (0xDB :: lv (drop 1 (success_body r kc)))) = Ok r ∧
  ParseUSIMAuthResponse (with_ok (0xDC :: lv auts)) = Err (mkAKA [] [] [] auts, SyncFailure) ∧
  (rest ≠ [] → ParseUSIMAuthResponse (with_ok (0xDD :: rest)) = fail OtherError) ∧
  (2 ≤ len rest → (sw1, sw2) ≠ (0x90, 0x00) → ParseUSIMAuthResponse (rest ++ [sw1; sw2]) = fail OtherError).
Proof.
  intros Hr. pose proof Hr as (Hres & _). split_and!.
  - rewrite ParseUSIMAuthResponse_body by (unfold success_body, lv; rewrite len_cons, !len_app, !len_cons; pose proof (len_nonneg (CK r)); pose proof (len_nonneg (IK r)); pose proof (len_nonneg kc); lia).
    rewrite (idx_0 0xDB _ : idx (success_body r kc) 0 = Ok 0xDB). cbn [mbind go_bind].
    rewrite bool_decide_eq_true_2 by done.
    by rewrite parseUSIMAuthDB_success.
  - set (inner := drop 1 (success_body r kc)).
    assert (Hin : success_body r kc = 0xDB :: inner) by done.
    assert (Hlen : 3 ≤ len inner).
    { unfold inner, success_body, lv. cbn [drop app]. autorewrite with len. pose proof (len_nonneg (CK r)).
      pose proof (len_nonneg (IK r)). pose proof (len_nonneg kc). lia. }
    rewrite ParseUSIMAuthResponse_body by (unfold lv; rewrite !len_cons; lia).
    rewrite idx_0. cbn [mbind go_bind]. rewrite bool_decide_eq_true_2 by done.
    rewrite parseTLVData_lv. cbn [or_other]. rewrite <-Hin, parseUSIMAuthDB_success by done. cbn [or_other].
    unfold parseUSIMAuthDB, lv. rewrite !len_cons. rewrite bool_decide_eq_false_2 by lia.
    rewrite idx_0. cbn [mbind go_bind]. rewrite bool_decide_eq_false_2 by lia.
    rewrite idx_1. cbn [mbind go_bind]. rewrite (bool_decide_eq_true_2 (_ < 2 + _ + 1)) by lia.
    by rewrite orb_true_r.
  - rewrite ParseUSIMAuthResponse_body by (unfold lv; rewrite !len_cons; pose proof (len_nonneg auts); lia).
    rewrite idx_0. cbn [mbind go_bind].
    rewrite bool_decide_eq_false_2 by lia. rewrite bool_decide_eq_true_2 by done. by rewrite parseTLVData_lv.
  - intros Hrest%len_pos. rewrite ParseUSIMAuthResponse_body by (rewrite len_cons; lia).
    rewrite idx_0. cbn [mbind go_bind].
    do 2 rewrite bool_decide_eq_false_2 by lia. by rewrite bool_decide_eq_true_2 by done.
  - intros Hrest Hsw. rewrite ParseUSIMAuthResponse_status by done.
    destruct (decide (sw1 = 0x90)) as [->|]; [|by rewrite (bool_decide_eq_true_2 (sw1 ≠ 0x90))].
    rewrite (bool_decide_eq_true_2 (sw2 ≠ 0x00)) by congruence. by rewrite orb_true_r.
Qed.

Lemma auth_response_read_witness :
  result_ok (mkAKA (replicate 8 1) (replicate 16 2) (replicate 16 3) []) [8; 0; 0; 0; 0; 0; 0; 0; 0] ∧
  ParseUSIMAuthResponse (with_ok (success_body (mkAKA (replicate 8 1) (replicate 16 2) (replicate 16 3) []) [8; 0; 0; 0; 0; 0; 0; 0; 0]))
  = Ok (mkAKA (replicate 8 1) (replicate 16 2) (replicate 16 3) []).
Proof.
  assert (H : result_ok (mkAKA (replicate 8 1) (replicate 16 2) (replicate 16 3) []) [8; 0; 0; 0; 0; 0; 0; 0; 0]) by (unfold result_ok; cbn; split_and!; (lia || done)).
  split; [exact H|]. exact (proj1 (auth_response_read _ _ [] [] 0 0 H)).
Defined.

(** No answer of a card makes the parser panic: for every sequence of bytes it
    returns a result or an error. *)
Theorem auth_response_safe resp : bytes_ok resp → safe (ParseUSIMAuthResponse resp).
Proof. apply ParseUSIMAuthResponse_no_panic. Qed.

Lemma auth_response_safe_witness : bytes_ok [0xDB; 255; 0x90; 0x00] ∧ safe (ParseUSIMAuthResponse [0xDB; 255; 0x90; 0x00]).
Proof.
  assert (H : bytes_ok [0xDB; 255; 0x90; 0x00]) by (repeat constructor; unfold byte_ok; lia).
  split; [exact H|]. exact (auth_response_safe _ H).
Defined.

(** ** The channels and the synchronisation failures of a run

    The state of the monitor is the logical channel that is open, and the
    result of a synchronisation failure once the card has answered with one. *)
Record monitor := mkMonitor { opened : option Z; synced : option AKAResult }.

(** The result in an answer that is a synchronisation failure. *)
Definition sync_of (r : string + aka_error) : option AKAResult :=
  match r with
  | inl respHex =>
      match DecodeString respHex with
      | Some resp => match ParseUSIMAuthResponse resp with Err (x, SyncFailure) => Some x | _ => None end
      | None => None
      end
  | inr _ => None
  end.

(** An APDU goes to the open channel, which is the only one, and what opens a
    channel, asks for an AID, records a profile or turns to the backend does so
    without one; after a synchronisation failure only the channel is closed. *)
Definition monitor_step (s : monitor) (x : exchange request) : option monitor :=
  let idle := bool_decide (opened s = None) && bool_decide (synced s = None) in
  let 'mkExchange c r := x in
  match c return answer c → option monitor with
  | OpenLogicalChannel _ => λ r, if idle then Some (mkMonitor (match r with inl ch => Some ch | inr _ => None end) None) else None
  | TransmitAPDU ch _ => λ r,
      if bool_decide (opened s = Some ch) && bool_decide (synced s = None) then Some (mkMonitor (Some ch) (sync_of r)) else None
  | CloseLogicalChannel ch => λ _, if bool_decide (opened s = Some ch) then Some (mkMonitor None (synced s)) else None
  | _ => λ _, if idle then Some s else None
  end r.

#[local] Instance AKAResult_eq_dec : EqDecision AKAResult.
Proof. solve_decision. Defined.

(** The state that goes with an outcome: after a synchronisation failure the
    outcome is that failure. *)
Definition outcome_at (ch : option Z) (o : aka_outcome) (s : monitor) : Prop :=
  opened s = ch ∧ ∀ x, synced s = Some x → o = Err (x, SyncFailure).
Definition idle_at (ch : option Z) (s : monitor) : Prop := s = mkMonitor ch None.

Notation keeps P p Q := (triple monitor_step P p Q).

Lemma nth_drop k n (l : bytes) : nth (n + k) l 0 = nth k (drop n l) 0.
Proof.
  revert l. induction n as [|n IH]; intros l; [by rewrite drop_0|]. destruct l; cbn; [by destruct k|apply IH].
Qed.

Lemma split_status_app resp body sw1 sw2 :
  split_status resp = Some (body, sw1, sw2) → resp = (body ++ [sw1; sw2])%list.
Proof.
  unfold split_status. case_bool_decide as Hl; [done|]. intros [= <- <- <-].
  unfold len in Hl. set (n := (List.length resp - 2)%nat).
  rewrite <-(take_drop n resp) at 1. f_equal.
  assert (Hd : List.length (drop n resp) = 2%nat) by (rewrite length_drop; lia).
  pose proof (λ k, nth_drop k n resp) as E.
  pose proof (E 0%nat) as E0. pose proof (E 1%nat) as E1. rewrite Nat.add_0_r in E0.
  replace (List.length resp - 1)%nat with (n + 1)%nat by lia. rewrite E0, E1.
  destruct (drop n resp) as [|a [|b [|]]]; done.
Qed.

Lemma sync_status body sw1 sw2 x :
  ParseUSIMAuthResponse (body ++ [sw1; sw2]) = Err (x, SyncFailure) → sw1 = 0x90.
Proof.
  destruct (decide (2 ≤ len body)) as [Hb|Hb].
  - rewrite ParseUSIMAuthResponse_status by done. case_bool_decide as H1; [done|]. intros _.
    destruct (decide (sw1 = 0x90)); [done|contradiction].
  - unfold ParseUSIMAuthResponse. autorewrite with len. case_bool_decide; [done|].
    rewrite bool_decide_eq_true_2 by lia. done.
Qed.

(** *** The programs keep the monitor content *)

Definition answered (ch : Z) (r : bytes + aka_error) (s : monitor) : Prop :=
  opened s = Some ch ∧
  synced s = match r with
             | inl resp => match ParseUSIMAuthResponse resp with Err (x, SyncFailure) => Some x | _ => None end
             | inr _ => None
             end.

Lemma send_keeps ch cmd : keeps (idle_at (Some ch)) (send ch cmd) (answered ch).
Proof.
  eapply triple_bind; [apply triple_ask with (Q := λ r s, s = mkMonitor (Some ch) (sync_of r))|].
  - intros s r ->. eexists. cbn. rewrite bool_decide_eq_true_2 by done. split; [done|done].
  - intros r. apply triple_ret. intros s ->. split; [done|].
    destruct r as [h|]; [|done]. cbn. by destruct (DecodeString h).
Qed.

(** What [sendAPDUOnLogicalChannel] returns, parsed. *)
Definition auth_outcome (r : (bytes * Z * Z) + aka_error) : aka_outcome :=
  match r with
  | inr e => fail e
  | inl (body, sw1, sw2) => ParseUSIMAuthResponse (body ++ [sw1; sw2])
  end.

Definition split_answer (r : bytes + aka_error) : (bytes * Z * Z) + aka_error :=
  match r with
  | inr e => inr e
  | inl resp => match split_status resp with Some x => inl x | None => inr OtherError end
  end.

Lemma answered_outcome ch r s : answered ch r s → outcome_at (Some ch) (auth_outcome (split_answer r)) s.
Proof.
  intros [Ho Hs]. split; [done|]. intros x. rewrite Hs. destruct r as [resp|]; cbn; [|done].
  destruct (split_status resp) as [[[body sw1] sw2]|] eqn:Hresp; cbn.
  - apply split_status_app in Hresp as ->. destruct (ParseUSIMAuthResponse _) as [|[y []]|]; naive_solver.
  - unfold split_status in Hresp. case_bool_decide; [|done].
    unfold ParseUSIMAuthResponse. destruct (bool_decide (len resp = 2)); [done|].
    rewrite bool_decide_eq_true_2 by lia. done.
Qed.

(** What is parsed is the second answer when the first announces one. *)
Lemma sendLogicalAuth_keeps ch apdu :
  keeps (idle_at (Some ch)) (sendLogicalAuth ch apdu) (outcome_at (Some ch)).
Proof.
  unfold sendLogicalAuth. eapply triple_bind with (R := λ r, outcome_at (Some ch) (auth_outcome r));
    [|intros r; apply triple_ret; by destruct r as [[[]]|]].
  eapply triple_bind; [apply send_keeps|]. intros [resp|e].
  2:{ apply triple_ret. intros s H. exact (answered_outcome _ _ _ H). }
  destruct (split_status resp) as [[[body sw1] sw2]|] eqn:Hresp.
  2:{ apply triple_ret. intros s H%answered_outcome. cbn in H. by rewrite Hresp in H. }
  destruct (bool_decide (sw1 = 0x61) && bool_decide (sw2 ≠ 0x00)) eqn:H61.
  2:{ apply triple_ret. intros s H%answered_outcome. cbn in H. by rewrite Hresp in H. }
  apply andb_true_iff in H61 as [->%bool_decide_eq_true_1 _].
  eapply triple_conseq; [eapply triple_bind; [apply (send_keeps ch)|]| |intros a s H; exact H].
  - intros r2. apply triple_ret. intros s H. exact (answered_outcome _ _ _ H).
  - intros [o sy] [Ho Hs]. cbn in *. subst. unfold idle_at. f_equal.
    apply split_status_app in Hresp as ->.
    destruct (ParseUSIMAuthResponse _) as [|[x []]|] eqn:HP; try done. by apply sync_status in HP.
Qed.

(** An outcome that is not a synchronisation failure leaves none behind. *)
Lemma outcome_idle ch o s :
  outcome_at ch o s → is_sync o = false → idle_at ch s.
Proof.
  destruct s as [op [x|]]; intros [Ho Hs] Hn; cbn in *; subst; [|done]. by rewrite (Hs x eq_refl) in Hn.
Qed.

Lemma idle_outcome ch o s : idle_at ch s → outcome_at ch o s.
Proof. by intros ->. Qed.

Lemma auth_on_channel_keeps ch rand16 autn16 :
  keeps (idle_at (Some ch)) (auth_on_channel ch rand16 autn16) (outcome_at (Some ch)).
Proof.
  unfold auth_on_channel. destruct (BuildUSIMAuthAPDU rand16 autn16 false) as [apdu|];
    [|apply triple_ret, idle_outcome].
  eapply triple_bind; [apply sendLogicalAuth_keeps|]. intros [r|[x e]|]; [by apply triple_ret| |by apply triple_ret].
  case_bool_decide as He; [by apply triple_ret|].
  eapply triple_conseq; [|intros s Hs; apply (outcome_idle _ _ _ Hs); by destruct e|intros a s Hs; exact Hs].
  destruct (BuildUSIMAuthAPDU rand16 autn16 true) as [apdu2|]; [|apply triple_ret, idle_outcome].
  eapply triple_bind; [apply sendLogicalAuth_keeps|]. intros [r2|[x2 e2]|]; [by apply triple_ret| |by apply triple_ret].
  case_bool_decide as He2; [by apply triple_ret|]. apply triple_ret.
  intros s Hs. apply idle_outcome, (outcome_idle _ _ _ Hs). by destruct e2.
Qed.

Lemma closing_keeps ch body :
  keeps (idle_at (Some ch)) body (outcome_at (Some ch)) →
  keeps (idle_at (Some ch)) (closing ch body) (outcome_at None).
Proof.
  intros Hb. eapply triple_bind; [exact Hb|]. intros o.
  eapply triple_bind; [apply triple_ask with (Q := λ _, outcome_at None o)|].
  - intros s r [Ho Hs]. exists (mkMonitor None (synced s)). cbn. by rewrite bool_decide_eq_true_2.
  - intros r. by apply triple_ret.
Qed.

(** A request that leaves the monitor where it is. *)
Definition passive (c : request) : Prop :=
  match c with
  | ResolveLogicalChannelAID _ _ | RecordProfile _ _ _ | BackendCalculateAKA _ _ => True
  | _ => False
  end.

Lemma passive_keeps c : passive c → keeps (idle_at None) (ask c) (λ _, idle_at None).
Proof. intros Hc. apply triple_ask. intros s r ->. exists (mkMonitor None None). by destruct c. Qed.

Lemma open_keeps aid :
  keeps (idle_at None) (ask (OpenLogicalChannel aid)) (λ r, idle_at (match r with inl ch => Some ch | inr _ => None end)).
Proof. apply triple_ask. intros s r ->. by eexists. Qed.

Section Provider.
Context (unicode_upper unicode_lower : string → string) (unicode_fold : string → string → bool) (resolver : bool).
Context (rand16 autn16 : bytes).

Lemma resolve_keeps app fallbackAID prefix :
  keeps (idle_at None) (resolveLogicalChannelAID unicode_upper resolver app fallbackAID prefix) (λ _, idle_at None).
Proof.
  unfold resolveLogicalChannelAID. destruct resolver; [|by apply triple_ret].
  eapply triple_bind; [by apply passive_keeps|]. intros r. by apply triple_ret.
Qed.

Lemma calculateAKAOnUSIM_keeps :
  keeps (idle_at None) (calculateAKAOnUSIM unicode_upper resolver rand16 autn16) (outcome_at None).
Proof.
  eapply triple_bind; [apply resolve_keeps|]. intros [aid|]; [|apply triple_ret, idle_outcome].
  eapply triple_bind; [apply open_keeps|]. intros [ch|e]; [|apply triple_ret, idle_outcome].
  apply closing_keeps, auth_on_channel_keeps.
Qed.

Lemma calculateAKAOnISIM_keeps :
  keeps (idle_at None) (calculateAKAOnISIMLogicalChannel unicode_upper resolver rand16 autn16) (outcome_at None).
Proof.
  eapply triple_bind; [apply resolve_keeps|]. intros [aid|]; [|apply triple_ret, idle_outcome].
  eapply triple_bind; [apply open_keeps|]. intros [ch|e]; [|apply triple_ret, idle_outcome].
  apply closing_keeps, auth_on_channel_keeps.
Qed.

Lemma record_keeps app pref fb r :
  keeps (outcome_at None (Ok r)) (recordAKAProfile app pref fb (Ok r)) (outcome_at None).
Proof.
  eapply triple_bind; [eapply triple_conseq; [by apply passive_keeps| |intros a s Hs; exact Hs]|].
  - intros s Hs. by apply (outcome_idle _ _ _ Hs).
  - intros u. apply triple_ret, idle_outcome.
Qed.

Lemma CalculateAKAWithPreference_keeps preference :
  keeps (idle_at None) (CalculateAKAWithPreference unicode_upper unicode_lower resolver rand16 autn16 preference) (outcome_at None).
Proof.
  unfold CalculateAKAWithPreference. destruct (String.eqb _ "usim" || _).
  - eapply triple_bind; [apply calculateAKAOnUSIM_keeps|].
    intros [r|e|]; [apply record_keeps|by apply triple_ret|by apply triple_ret].
  - eapply triple_bind; [apply calculateAKAOnISIM_keeps|].
    intros [r|[x e]|]; [apply record_keeps| |by apply triple_ret].
    destruct (bool_decide (e = SyncFailure)) eqn:He; [by apply triple_ret|]. cbn [orb].
    destruct (String.eqb _ "isim_strict"); [by apply triple_ret|].
    eapply triple_bind; [eapply triple_conseq; [apply calculateAKAOnUSIM_keeps| |intros a s Hs; exact Hs]|].
    { intros s Hs. apply (outcome_idle _ _ _ Hs). by destruct e. }
    intros [r|o|]; [apply record_keeps|by apply triple_ret|by apply triple_ret].
Qed.

Lemma calculate_keeps preference :
  keeps (idle_at None) (calculate unicode_upper unicode_lower unicode_fold resolver rand16 autn16 preference) (outcome_at None).
Proof.
  unfold calculate. eapply triple_bind; [destruct preference; apply CalculateAKAWithPreference_keeps|].
  intros [r|[x e]|]; [by apply triple_ret| |by apply triple_ret].
  case_bool_decide as He; [by apply triple_ret|]. destruct (_ && _); [|by apply triple_ret].
  unfold backend_CalculateAKA.
  eapply triple_bind; [eapply triple_conseq; [by apply passive_keeps| |intros a s Hs; exact Hs]|].
  - intros s Hs. apply (outcome_idle _ _ _ Hs). by destruct e.
  - intros [[[[res ik] ck] auts] err]. apply triple_ret, idle_outcome.
Qed.

Definition start : monitor := mkMonitor None None.

(** C27: a logical channel is never left open, and a synchronisation failure is
    final.  Whatever the modem answers, in every run of a provider each channel
    that is opened is closed before another is opened and before the end, APDUs
    go to the channel that is open, and the backend is asked when none is.  Once
    the card has answered with a synchronisation failure nothing but the closing
    of the channel follows, and the outcome is that failure with its AUTS token:
    it is not tried again, with another command or on another application. *)
Theorem channels_closed p preference prog t o :
  provider_CalculateAKA unicode_upper unicode_lower unicode_fold resolver p rand16 autn16 preference = Some prog →
  exec prog t o →
  ∃ s, watch monitor_step start t = Some s ∧ opened s = None ∧ ∀ x, synced s = Some x → o = Err (x, SyncFailure).
Proof.
  intros Hp Hx. assert (H : keeps (idle_at None) prog (outcome_at None)).
  { destruct p, preference; unfold provider_CalculateAKA in Hp; try done; injection Hp as <-.
    - apply CalculateAKAWithPreference_keeps.
    - apply CalculateAKAWithPreference_keeps.
    - apply calculate_keeps.
    - apply calculate_keeps.
    - eapply triple_bind; [by apply passive_keeps|].
      intros [[[[res ik] ck] auts] err]. apply triple_ret, idle_outcome. }
  destruct (H start t o eq_refl Hx) as (s & Hs & Ho & Hy). by exists s.
Qed.
End Provider.

(** A modem with an ISIM whose sequence number is out of step, and a USIM that
    opens no channel. *)
Definition out_of_step (auts : bytes) (s : unit) (c : request) : answer c * unit :=
  (match c return answer c with
   | ResolveLogicalChannelAID app fallbackAID => inl (fallbackAID +:+ "FF86FF0389FFFFFFFF")%string
   | OpenLogicalChannel aid => if HasPrefix aid isimAIDPrefix then inl 2 else inr (StatusError 0x87430001)
   | CloseLogicalChannel _ => inl tt
   | TransmitAPDU _ h => inl (EncodeToString (with_ok (0xDC :: lv auts)))
   | RecordProfile _ _ _ => tt
   | BackendCalculateAKA _ _ => ([], [], [], [], Some OtherError)
   end, s).

Definition sync_run : list (exchange request) * aka_outcome * unit :=
  run_on (out_of_step (replicate 14 7))
    (calculate id id String.eqb true (replicate 16 1) (replicate 16 2) (Some " ISIM "%string)) tt.

Example sync_run_result :
  (List.length sync_run.1.1, sync_run.1.2) = (4%nat, Err (mkAKA [] [] [] (replicate 14 7), SyncFailure)).
Proof. vm_compute. reflexivity. Qed.

Lemma channels_closed_witness :
  exec (calculate id id String.eqb true (replicate 16 1) (replicate 16 2) (Some " ISIM "%string)) sync_run.1.1 sync_run.1.2 ∧
  ∃ s, watch monitor_step start sync_run.1.1 = Some s ∧ opened s = None ∧
       ∀ x, synced s = Some x → sync_run.1.2 = Err (x, SyncFailure).
Proof.
  assert (H : exec (calculate id id String.eqb true (replicate 16 1) (replicate 16 2) (Some " ISIM "%string)) sync_run.1.1 sync_run.1.2).
  { pose proof (run_on_exec (out_of_step (replicate 14 7))
      (calculate id id String.eqb true (replicate 16 1) (replicate 16 2) (Some " ISIM "%string)) tt) as H.
    unfold sync_run. destruct (run_on _ _ _) as [[t a] s]. exact H. }
  split; [exact H|].
  exact (channels_closed id id String.eqb true _ _ ChannelOrAuthProvider (Some " ISIM "%string) _ _ _ eq_refl H).
Defined.

(** ** Which application is used

    A monitor that notes the applications whose AID is asked for, and the
    profiles that are recorded. *)
Definition notes : Type := list string * list (string * string * bool).
Definition note (s : notes) (x : exchange request) : option notes :=
  Some (match x_request x with
        | ResolveLogicalChannelAID app _ => (s.1 ++ [app], s.2)
        | RecordProfile selectedApp pref fb => (s.1, s.2 ++ [(selectedApp, pref, fb)])
        | _ => s
        end)%list.

Section Applications.
Context (unicode_upper unicode_lower : string → string) (resolver : bool).
Context (rand16 autn16 : bytes).
Notation notes_as P p Q := (triple note P p Q).

Lemma quiet_ask (s : notes) c : (∀ r, note s (mkExchange c r) = Some s) → notes_as (eq s) (ask c) (λ _, eq s).
Proof. intros Hc. apply triple_ask. intros s' r <-. exists s. by rewrite Hc. Qed.

Lemma quiet_auth s ch : notes_as (eq s) (auth_on_channel ch rand16 autn16) (λ _, eq s).
Proof.
  assert (Hsend : ∀ cmd, notes_as (eq s) (send ch cmd) (λ _, eq s)).
  { intros cmd. eapply triple_bind; [by apply quiet_ask|]. intros r. by apply triple_ret. }
  assert (Hauth : ∀ apdu, notes_as (eq s) (sendLogicalAuth ch apdu) (λ _, eq s)).
  { intros apdu. eapply triple_bind with (R := λ _, eq s); [|intros r; by apply triple_ret].
    eapply triple_bind; [apply Hsend|]. intros [resp|]; [|by apply triple_ret].
    destruct (split_status resp) as [[[body sw1] sw2]|]; [|by apply triple_ret].
    destruct (_ && _); [|by apply triple_ret].
    eapply triple_bind; [apply Hsend|]. intros r2. by apply triple_ret. }
  unfold auth_on_channel. destruct (BuildUSIMAuthAPDU _ _ _); [|by apply triple_ret].
  eapply triple_bind; [apply Hauth|]. intros [r|[x e]|]; [by apply triple_ret| |by apply triple_ret].
  case_bool_decide; [by apply triple_ret|]. destruct (BuildUSIMAuthAPDU _ _ _); [|by apply triple_ret].
  eapply triple_bind; [apply Hauth|]. intros [r2|[x2 e2]|]; [by apply triple_ret| |by apply triple_ret].
  case_bool_decide; by apply triple_ret.
Qed.

Definition asked (s : notes) (app : string) : notes := ((s.1 ++ [app])%list, s.2).

(** One application: its AID is asked for, when the modem can tell. *)
Lemma quiet_channel s aid :
  notes_as (eq s)
    (let? ch := ask (OpenLogicalChannel aid) in
     match ch with inr e => Ret (fail e) | inl ch => closing ch (auth_on_channel ch rand16 autn16) end) (λ _, eq s).
Proof.
  eapply triple_bind; [by apply quiet_ask|]. intros [ch|e]; [|by apply triple_ret].
  eapply triple_bind; [apply quiet_auth|]. intros o.
  eapply triple_bind; [by apply quiet_ask|]. intros r. by apply triple_ret.
Qed.

Lemma resolve_notes s app fallbackAID prefix :
  notes_as (eq s) (resolveLogicalChannelAID unicode_upper resolver app fallbackAID prefix)
    (λ r s', if resolver then s' = asked s app else s' = s ∧ r = None).
Proof.
  unfold resolveLogicalChannelAID. destruct resolver; [|by apply triple_ret].
  eapply triple_bind with (R := λ _ s', s' = asked s app); [|intros r; by apply triple_ret].
  apply triple_ask. intros s' r <-. by eexists.
Qed.

Definition on_application (s : notes) (app : string) (o : aka_outcome) (s' : notes) : Prop :=
  if resolver then s' = asked s app else s' = s ∧ o = fail OtherError.

Lemma application_notes s app fallbackAID prefix (f : string → string) :
  notes_as (eq s)
    (let? aid := resolveLogicalChannelAID unicode_upper resolver app fallbackAID prefix in
     match aid with
     | None => Ret (fail OtherError)
     | Some aid =>
         let? ch := ask (OpenLogicalChannel (f aid)) in
         match ch with inr e => Ret (fail e) | inl ch => closing ch (auth_on_channel ch rand16 autn16) end
     end) (on_application s app).
Proof.
  unfold on_application. eapply triple_bind; [apply resolve_notes|]. intros [aid|].
  - destruct resolver; [|intros s' t a [_ [=]]].
    eapply triple_conseq; [apply (quiet_channel (asked s app))| |]; cbn; congruence.
  - apply triple_ret. intros s' Hs. by destruct resolver; [|destruct Hs].
Qed.

Lemma record_notes s app pref fb o :
  notes_as (eq s) (recordAKAProfile app pref fb o) (λ o' s', o' = o ∧ s' = (s.1, s.2 ++ [(app, pref, fb)])%list).
Proof.
  eapply triple_bind; [apply triple_ask with (Q := λ _ s', s' = (s.1, s.2 ++ [(app, pref, fb)])%list)|].
  - intros s' r <-. by eexists.
  - intros r. by apply triple_ret.
Qed.

(** The applications that a preference allows, in the order they are tried. *)
Definition allowed (pref : string) : list string :=
  (if String.eqb pref "usim" || String.eqb pref "usim_strict" then ["usim"]
   else if String.eqb pref "isim_strict" then ["isim"] else ["isim"; "usim"])%string.

(** The profile that is recorded, the applications asked for being [apps]. *)
Definition profile_of (apps : list string) (pref : string) : string * string * bool :=
  ((match apps with ["isim"] => "ISIM" | _ => "USIM" end)%string, pref, bool_decide (List.length apps = 2%nat)).

Definition accounted (pref : string) (o : aka_outcome) (s : notes) : Prop :=
  s.1 `prefix_of` allowed pref ∧
  match o with Ok _ => s.1 ≠ [] ∧ s.2 = [profile_of s.1 pref] | _ => s.2 = [] end.

Lemma then_record (s : notes) app appname pref fb :
  s.2 = [] → s.1 `prefix_of` allowed pref →
  (resolver = true → (s.1 ++ [app])%list `prefix_of` allowed pref ∧ profile_of (s.1 ++ [app])%list pref = (appname, pref, fb)) →
  ∀ o, notes_as (on_application s app o)
         (match o with Ok _ => recordAKAProfile appname pref fb o | _ => Ret o end) (accounted pref).
Proof.
  destruct s as [apps profiles]. cbn. intros -> Happs Hr o. unfold on_application, accounted.
  destruct resolver; [destruct (Hr eq_refl) as [Hp Hprof]|]; (destruct o as [r|e|];
    [|apply triple_ret; first [by intros s' -> | by intros s' [-> _]]
     |apply triple_ret; first [by intros s' -> | by intros s' [-> _]]]).
  - eapply triple_conseq; [apply (record_notes (asked (apps, []) app))|by intros s' ->|].
    intros o' s' [-> ->]. unfold asked. cbn. rewrite Hprof. split_and!; [done|by destruct apps|done].
  - by intros s' t a [_ [=]].
Qed.

(** The application that the preference names is used.  With the preference
    usim or usim_strict only the USIM is asked for, with isim_strict only the
    ISIM; with isim or auto the ISIM is, and the USIM after it; any other
    preference counts as usim.  A successful calculation records one profile,
    which names the last application asked for and says whether it was the
    fallback, and a failed one records none. *)
Theorem application_used preference t o :
  let pref := effective_preference unicode_lower preference in
  exec (CalculateAKAWithPreference unicode_upper unicode_lower resolver rand16 autn16 preference) t o →
  pref ∈ ["usim"; "usim_strict"; "isim_strict"; "isim"; "auto"]%string ∧
  ∃ apps profiles,
    watch note ([], []) t = Some (apps, profiles) ∧
    apps `prefix_of` allowed pref ∧
    match o with
    | Ok _ => apps ≠ [] ∧ profiles = [profile_of apps pref]
    | _ => profiles = []
    end.
Proof.
  intros pref Hx.
  assert (Hpref : pref ∈ ["usim"; "usim_strict"; "isim_strict"; "isim"; "auto"]%string).
  { subst pref. unfold effective_preference.
    repeat match goal with |- context [String.eqb ?x ?y] => destruct (String.eqb_spec x y) as [->|] end; cbn; set_solver. }
  split; [done|].
  assert (H : notes_as (eq ([], [])) (CalculateAKAWithPreference unicode_upper unicode_lower resolver rand16 autn16 preference) (accounted pref)).
  2:{ destruct (H ([], []) t o eq_refl Hx) as ([apps profiles] & Hw & Ha & Ho). by exists apps, profiles. }
  unfold CalculateAKAWithPreference. change (effective_preference unicode_lower preference) with pref.
  clearbody pref. clear Hx.
  destruct (String.eqb pref "usim" || String.eqb pref "usim_strict") eqn:Hu.
  - eapply triple_bind; [apply (application_notes ([], []) "usim" usimAIDPrefix usimAIDPrefix (λ aid, ToUpper unicode_upper (TrimSpace aid)))|].
    intros o'. by apply then_record; [done|apply prefix_nil|]; unfold allowed; rewrite Hu.
  - assert (Hi : ["isim"]%string `prefix_of` allowed pref).
    { unfold allowed. rewrite Hu. destruct (String.eqb pref "isim_strict"); [done|by exists ["usim"%string]]. }
    pose proof (then_record ([], []) "isim" "ISIM" pref false eq_refl (prefix_nil _) (λ _, conj Hi eq_refl)) as Hisim.
    eapply triple_bind; [apply (application_notes ([], []) "isim" isimAIDPrefix isimAIDPrefix (λ aid, aid))|].
    intros [r|[x e]|]; [apply (Hisim (Ok r))| |apply (Hisim Panic)].
    destruct (bool_decide (e = SyncFailure) || String.eqb pref "isim_strict") eqn:Hs; [apply (Hisim (Err (x, e)))|].
    apply orb_false_iff in Hs as [_ Hs].
    set (s0 := if resolver then asked ([], []) "isim" else ([], [])).
    eapply triple_conseq with (P' := eq s0); [|subst s0; unfold on_application; by destruct resolver; [intros s'|intros s' [? _]]|intros a s' H; exact H].
    eapply triple_bind; [apply (application_notes s0 "usim" usimAIDPrefix usimAIDPrefix (λ aid, ToUpper unicode_upper (TrimSpace aid)))|].
    intros o'. apply then_record; [by destruct resolver|subst s0; destruct resolver; [exact Hi|apply prefix_nil]|].
    intros Hr. subst s0. rewrite Hr. unfold allowed. by rewrite Hu, Hs.
Qed.
End Applications.

(** A modem without an ISIM, whose USIM answers. *)
Definition usim_only (s : unit) (c : request) : answer c * unit :=
  (match c return answer c with
   | ResolveLogicalChannelAID app fallbackAID => inl (fallbackAID +:+ "FF86FF0389FFFFFFFF")%string
   | OpenLogicalChannel aid => if HasPrefix aid isimAIDPrefix then inr OtherError else inl 1
   | CloseLogicalChannel _ => inl tt
   | TransmitAPDU _ h =>
       inl (EncodeToString (with_ok (success_body (mkAKA (replicate 8 1) (replicate 16 2) (replicate 16 3) []) [])))
   | RecordProfile _ _ _ => tt
   | BackendCalculateAKA _ _ => ([], [], [], [], Some OtherError)
   end, s).

Definition fallback_run : list (exchange request) * aka_outcome * unit :=
  run_on usim_only (CalculateAKAWithPreference id id true (replicate 16 1) (replicate 16 2) "auto"%string) tt.

Example fallback_run_result :
  watch note ([], []) fallback_run.1.1 = Some (["isim"; "usim"], [("USIM", "auto", true)])%string ∧
  fallback_run.1.2 = Ok (mkAKA (replicate 8 1) (replicate 16 2) (replicate 16 3) []).
Proof. split; vm_compute; reflexivity. Qed.

Lemma application_used_witness :
  exec (CalculateAKAWithPreference id id true (replicate 16 1) (replicate 16 2) "auto"%string) fallback_run.1.1 fallback_run.1.2 ∧
  effective_preference id "auto"%string ∈ ["usim"; "usim_strict"; "isim_strict"; "isim"; "auto"]%string.
Proof.
  assert (H : exec (CalculateAKAWithPreference id id true (replicate 16 1) (replicate 16 2) "auto"%string) fallback_run.1.1 fallback_run.1.2).
  { pose proof (run_on_exec usim_only
      (CalculateAKAWithPreference id id true (replicate 16 1) (replicate 16 2) "auto"%string) tt) as H.
    unfold fallback_run. destruct (run_on _ _ _) as [[t a] s]. exact H. }
  split; [exact H|].
  exact (proj1 (application_used id id true _ _ "auto"%string _ _ H)).
Defined.
