(* ===== verification/SimAid.v ===== *)
(** * The applications of a SIM card (internal/simaid)

    The application identifiers are read from the directory file EF_DIR and one
    is selected.  [transmit] sends a command to the card: the programs below
    ask for it and go on with whatever is answered.  The texts of errors are
    left out. *)

From S2P Require Import Prelude GoText SmsCodec Interaction.
From Stdlib Require Import Ascii String.

#[local] Open Scope Z_scope.

(** ** Identifiers (aid.go) *)

Definition usimPrefix : bytes := [0xA0; 0x00; 0x00; 0x00; 0x87; 0x10; 0x02].
Definition isimPrefix : bytes := [0xA0; 0x00; 0x00; 0x00; 0x87; 0x10; 0x04].

Definition NormalizeHexAID (unicode_upper : string → string) (aid : string) : string :=
  ToUpper unicode_upper (TrimSpace aid).

Definition IsUSIM (aid : bytes) : bool :=
  bool_decide (len aid >= len usimPrefix) && bool_decide (take (List.length usimPrefix) aid = usimPrefix).
Definition IsISIM (aid : bytes) : bool :=
  bool_decide (len aid >= len isimPrefix) && bool_decide (take (List.length isimPrefix) aid = isimPrefix).

Definition IsUSIMHex (unicode_upper : string → string) (aid : string) : bool :=
  match DecodeString (NormalizeHexAID unicode_upper aid) with Some b => IsUSIM b | None => false end.
Definition IsISIMHex (unicode_upper : string → string) (aid : string) : bool :=
  match DecodeString (NormalizeHexAID unicode_upper aid) with Some b => IsISIM b | None => false end.

Fixpoint AppendUniqueAIDs (dst src : list bytes) : list bytes :=
  match src with
  | [] => dst
  | aid :: src =>
      if bool_decide (len aid = 0) then AppendUniqueAIDs dst src
      else if existsb (λ existing, bool_decide (existing = aid)) dst then AppendUniqueAIDs dst src
      else AppendUniqueAIDs (dst ++ [aid]) src
  end.

Definition FilterUSIM (aids : list bytes) : list bytes :=
  foldl (λ out aid, if IsUSIM aid then AppendUniqueAIDs out [aid] else out) [] aids.
Definition FilterISIM (aids : list bytes) : list bytes :=
  foldl (λ out aid, if IsISIM aid then AppendUniqueAIDs out [aid] else out) [] aids.

(** ** Answers (apdu.go) *)

Definition APDUStatus (rsp : bytes) : option (Z * Z) :=
  if bool_decide (len rsp < 2) then None
  else Some (nth (List.length rsp - 2) rsp 0, nth (List.length rsp - 1) rsp 0).

Definition IsSuccess (sw1 sw2 : Z) : bool :=
  bool_decide (sw1 = 0x90) || bool_decide (sw1 = 0x62) || bool_decide (sw1 = 0x63).
Definition IsSelectSuccess (sw1 sw2 : Z) : bool :=
  bool_decide (sw1 = 0x90) || bool_decide (sw1 = 0x61) || bool_decide (sw1 = 0x62) || bool_decide (sw1 = 0x63).

(** [rsp[:len(rsp)-2]] after the test of [APDUStatus]. *)
Definition payload (rsp : bytes) : bytes := take (List.length rsp - 2) rsp.

Definition ExtractSuccessData (rsp : bytes) : option bytes :=
  match APDUStatus rsp with
  | None => None
  | Some (sw1, sw2) => if IsSuccess sw1 sw2 then Some (payload rsp) else None
  end.

(** ** Tag-length-value data (tlv.go)

    The functions work on [data[i:]]; every byte they read is one that the code
    has tested for. *)

(** [for i < len(data) && (data[i] == 0x00 || data[i] == 0xFF) { i++ }] *)
Fixpoint skip_padding (data : bytes) : bytes :=
  match data with
  | b :: data' => if bool_decide (b = 0x00) || bool_decide (b = 0xFF) then skip_padding data' else data
  | [] => []
  end.

(** The bytes of a tag after the first, up to one without the continuation bit. *)
Fixpoint tag_tail (data : bytes) : bytes * bytes :=
  match data with
  | [] => ([], [])
  | b :: data =>
      if bool_decide (Z.land b 0x80 = 0) then ([b], data)
      else let '(t, rest) := tag_tail data in (b :: t, rest)
  end.

Definition read_tag (first : Z) (data : bytes) : bytes * bytes :=
  if bool_decide (Z.land first 0x1F = 0x1F)
  then let '(t, rest) := tag_tail data in (first :: t, rest)
  else ([first], data).

(** A length of big-endian bytes. *)
Definition be_val (b : bytes) : Z := foldl (λ l x, Z.lor (Z.shiftl l 8) x) 0 b.

(** The length at the start of [data] and what follows it; [None] is the break. *)
Definition read_length (data : bytes) : option (Z * bytes) :=
  match data with
  | [] => None
  | lengthByte :: data =>
      if bool_decide (Z.land lengthByte 0x80 ≠ 0) then
        let n := Z.land lengthByte 0x7F in
        if bool_decide (n <= 0) || bool_decide (n > 3) || bool_decide (n > len data) then None
        else Some (be_val (take (Z.to_nat n) data), drop (Z.to_nat n) data)
      else Some (lengthByte, data)
  end.

(** The loop of [CollectTLVValues], which calls itself on the value of a
    constructed element; [None] when the fuel is not enough. *)
Fixpoint collect (fuel : nat) (data : bytes) (want : Z) : option (list bytes) :=
  match fuel with
  | O => None
  | S fuel =>
      match skip_padding data with
      | [] => Some []
      | first :: data =>
          let '(tag, data) := read_tag first data in
          match read_length data with
          | None => Some []
          | Some (length, data) =>
              if bool_decide (length < 0) || bool_decide (length > len data) then Some []
              else
                let value := take (Z.to_nat length) data in
                inner ← (if bool_decide (Z.land first 0x20 ≠ 0) then collect fuel value want else Some []);
                rest ← collect fuel (drop (Z.to_nat length) data) want;
                Some ((if bool_decide (tag = [want]) then [value] else []) ++ inner ++ rest)
          end
      end
  end.

Definition CollectTLVValues (data : bytes) (want : Z) : list bytes :=
  default [] (collect (S (List.length data)) data want).

(** ** The record length and count of a linear fixed file (dir.go)

    The number of bytes of a length is not bounded here, so the length can
    leave the range of an [int].  [Err] stands for fuel that is not enough. *)
Section Fcp.
Context `{IntSize}.

Definition be_int (b : bytes) : Z := foldl (λ l x, int (Z.lor (Z.shiftl l 8) x)) 0 b.

Fixpoint fcp_loop (fuel : nat) (data : bytes) (i recordLen recordCount : Z) : go unit (Z * Z) :=
  match fuel with
  | O => Err tt
  | S fuel =>
      if bool_decide (len data <= i) then Ok (recordLen, recordCount)
      else if bool_decide (i + 2 > len data) then Ok (recordLen, recordCount)
      else
        tag ← idx data i;
        l ← idx data (i + 1);
        let i := i + 2 in
        let value (i l : Z) : go unit (Z * Z) :=
          if bool_decide (int (i + l) > len data) then Ok (recordLen, recordCount)
          else
            v ← slice data i (int (i + l));
            if bool_decide (tag = 0x82) && bool_decide (len v >= 5) then
              a ← idx v (len v - 3);
              b ← idx v (len v - 2);
              c ← idx v (len v - 1);
              let recordLen := Z.lor (Z.shiftl a 8) b in
              if bool_decide (recordLen > 0) then Ok (recordLen, c)
              else fcp_loop fuel data (int (i + l)) recordLen c
            else fcp_loop fuel data (int (i + l)) recordLen recordCount in
        if bool_decide (Z.land l 0x80 ≠ 0) then
          let n := Z.land l 0x7F in
          if bool_decide (n <= 0) || bool_decide (i + n > len data) then Ok (recordLen, recordCount)
          else
            lb ← slice data i (i + n);
            value (i + n) (be_int lb)
        else value i l
  end.

Definition ParseLinearFixedMetaFromFCP (fcp : bytes) : go unit (Z * Z) :=
  if bool_decide (len fcp < 2) then Ok (0, 0)
  else
    first ← idx fcp 0;
    data ← (if bool_decide (first = 0x62) then
              total ← idx fcp 1;
              slice fcp 2 (2 + (if bool_decide (total > len fcp - 2) then len fcp - 2 else total))
            else Ok fcp);
    fcp_loop (S (List.length data)) data 0 0 0.

(** ** The directory (dir.go) *)

#[export] Instance transmit : Requests bytes := λ _, (bytes + unit)%type.

(** The answer to the SELECT of a file, [None] when it fails. *)
Definition selectFileWithTransmit (apdu : bytes) : prog bytes (option bytes) :=
  let? rsp := ask apdu in
  Ret (match rsp with
       | inr _ => None
       | inl rsp =>
           match APDUStatus rsp with
           | None => None
           | Some (sw1, sw2) => if IsSelectSuccess sw1 sw2 then Some rsp else None
           end
       end).

Definition select_mf : bytes := [0x00; 0xA4; 0x00; 0x04; 0x02; 0x3F; 0x00].
Definition select_ef_dir : bytes := [0x00; 0xA4; 0x00; 0x04; 0x02; 0x2F; 0x00].
Definition read_record (record recordLen : Z) : bytes := [0x00; 0xB2; u8 record; 0x04; u8 recordLen].

(** [n] records from [record] on. *)
Fixpoint read_records (n : nat) (record recordLen : Z) (aids : list bytes) : prog bytes (list bytes) :=
  match n with
  | O => Ret aids
  | S n =>
      let? rsp := ask (read_record record recordLen) in
      let continue aids := read_records n (record + 1) recordLen aids in
      match rsp with
      | inr _ => continue aids
      | inl rsp =>
          match APDUStatus rsp with
          | None => continue aids
          | Some (sw1, sw2) =>
              if bool_decide (sw1 = 0x6A) && (bool_decide (sw2 = 0x83) || bool_decide (sw2 = 0x82)) then Ret aids
              else if negb (IsSuccess sw1 sw2) then continue aids
              else continue (AppendUniqueAIDs aids (CollectTLVValues (payload rsp) 0x4F))
          end
      end
  end.

(** The length asked for and the number of records, from the answer to the
    SELECT of EF_DIR. *)
Definition directory_plan (recordLen recordCount : Z) : Z * Z :=
  (if bool_decide (recordLen < 0) || bool_decide (recordLen > 0xFF) then 0 else recordLen,
   if bool_decide (recordCount > 0) && bool_decide (recordCount < 32) then recordCount else 32).

Definition ReadDirectoryAIDs : prog bytes (go unit (list bytes)) :=
  let? mf := selectFileWithTransmit select_mf in
  match mf with
  | None => Ret (Err tt)
  | Some _ =>
      let? efDIRSelectRsp := selectFileWithTransmit select_ef_dir in
      match efDIRSelectRsp with
      | None => Ret (Err tt)
      | Some rsp =>
          match ExtractSuccessData rsp with
          | None => Ret (Err tt)
          | Some fcpData =>
              match ParseLinearFixedMetaFromFCP fcpData with
              | Panic => Ret Panic
              | Err _ => Ret (Err tt)
              | Ok (recordLen, recordCount) =>
                  let '(recordLen, maxRecords) := directory_plan recordLen recordCount in
                  let? aids := read_records (Z.to_nat maxRecords) 1 recordLen [] in
                  Ret (if bool_decide (len aids = 0) then Err tt else Ok aids)
              end
          end
      end
  end.
End Fcp.

(** ** Selecting an application (select.go) *)

Definition select_aid (p2 : Z) (aid : bytes) : bytes := [0x00; 0xA4; 0x04; p2; u8 (len aid)] ++ aid.

Definition accepted (rsp : bytes + unit) : bool :=
  match rsp with
  | inr _ => false
  | inl rsp => match APDUStatus rsp with Some (sw1, sw2) => IsSelectSuccess sw1 sw2 | None => false end
  end.

(** [matches] is [match] of the code, [None] for nil. *)
Fixpoint SelectAIDWithTransmit (aids : list bytes) (matches : option (bytes → bool)) : prog bytes (option bytes) :=
  match aids with
  | [] => Ret None
  | aid :: aids =>
      if negb (default (λ _, true) matches aid) then SelectAIDWithTransmit aids matches
      else if bool_decide (len aid = 0) || bool_decide (len aid > 0xFF) then SelectAIDWithTransmit aids matches
      else
        let? rsp := ask (select_aid 0x04 aid) in
        if accepted rsp then Ret (Some aid)
        else
          let? rsp := ask (select_aid 0x00 aid) in
          if accepted rsp then Ret (Some aid) else SelectAIDWithTransmit aids matches
  end.
