(* ===== verification/SimAidProofs.v ===== *)
(** * Properties of the card's directory

    The collection of values is proved against a grammar of tag-length-value
    data, the reading of the directory and the selection of an application for
    every card, from the commands and answers of a run. *)

From S2P Require Import Prelude GoText SmsCodec Interaction SimAid.
From Stdlib Require Import Ascii String.

#[local] Open Scope Z_scope.

(** ** The collection of values terminates *)

Lemma skip_padding_length data : (List.length (skip_padding data) ≤ List.length data)%nat.
Proof. induction data as [|b data IH]; cbn; [lia|]. destruct (_ || _); cbn; lia. Qed.

Lemma tag_tail_length data : (List.length (tag_tail data).2 ≤ List.length data)%nat.
Proof.
  induction data as [|b data IH]; cbn; [lia|]. case_bool_decide; cbn; [lia|].
  destruct (tag_tail data); cbn in *; lia.
Qed.

Lemma read_tag_length first data : (List.length (read_tag first data).2 ≤ List.length data)%nat.
Proof.
  unfold read_tag. case_bool_decide; [|cbn; lia]. pose proof (tag_tail_length data). by destruct (tag_tail data).
Qed.

Lemma read_length_length data n rest :
  read_length data = Some (n, rest) → (List.length rest < List.length data)%nat.
Proof.
  destruct data as [|b data]; cbn; [done|]. case_bool_decide; [|intros [= <- <-]; lia].
  destruct (_ || _ || _); [done|]. intros [= <- <-]. rewrite length_drop. lia.
Qed.

Lemma collect_total fuel data want :
  (List.length data < fuel)%nat → ∃ values, collect fuel data want = Some values.
Proof.
  revert data. induction fuel as [|fuel IH]; intros data Hf; [lia|]. cbn.
  pose proof (skip_padding_length data) as Hp. destruct (skip_padding data) as [|first d]; [by eexists|].
  cbn in Hp. pose proof (read_tag_length first d) as Ht. destruct (read_tag first d) as [tag d2]. cbn in Ht.
  destruct (read_length d2) as [[n d3]|] eqn:Hl; [|by eexists]. apply read_length_length in Hl.
  destruct (_ || _); [by eexists|].
  destruct (IH (drop (Z.to_nat n) d3)) as [rest ->]; [rewrite length_drop; lia|].
  destruct (bool_decide (Z.land first 0x20 ≠ 0)); [|by eexists].
  destruct (IH (take (Z.to_nat n) d3)) as [inner ->]; [rewrite length_take; lia|]. by eexists.
Qed.

Lemma CollectTLVValues_fuel data want :
  collect (S (List.length data)) data want = Some (CollectTLVValues data want).
Proof. unfold CollectTLVValues. destruct (collect_total (S (List.length data)) data want) as [v ->]; [lia|done]. Qed.

(** ** A grammar of the data

    [encoded want data values]: [data] is a sequence of elements and padding,
    and [values] are the values of its elements, at every depth and in order,
    whose tag is the byte [want]. *)
Inductive tag_form : bytes → Prop :=
  | one_byte x : x ≠ 0x00 → Z.land x 0x1F ≠ 0x1F → tag_form [x]
  | more_bytes x mid last :
      x ≠ 0xFF → Z.land x 0x1F = 0x1F → Forall (λ b, Z.land b 0x80 ≠ 0) mid → Z.land last 0x80 = 0 →
      tag_form (x :: mid ++ [last]).

Inductive length_form : Z → bytes → Prop :=
  | short n : 0 ≤ n < 0x80 → length_form n [n]
  | long lb : 1 ≤ len lb ≤ 3 → length_form (be_val lb) (0x80 + len lb :: lb).

Definition constructed (tag : bytes) : Prop := ∃ x t, tag = x :: t ∧ Z.land x 0x20 ≠ 0.
Definition wanted (want : Z) (tag value : bytes) : list bytes := if bool_decide (tag = [want]) then [value] else [].

Inductive encoded (want : Z) : bytes → list bytes → Prop :=
  | encoded_nil : encoded want [] []
  | encoded_padding b data values : b = 0x00 ∨ b = 0xFF → encoded want data values → encoded want (b :: data) values
  | encoded_primitive tag lb value data values :
      tag_form tag → ¬ constructed tag → length_form (len value) lb → encoded want data values →
      encoded want (tag ++ lb ++ value ++ data) (wanted want tag value ++ values)
  | encoded_constructed tag lb value inner data values :
      tag_form tag → constructed tag → length_form (len value) lb →
      encoded want value inner → encoded want data values →
      encoded want (tag ++ lb ++ value ++ data) (wanted want tag value ++ inner ++ values).

Lemma tag_tail_form mid last data :
  Forall (λ b, Z.land b 0x80 ≠ 0) mid → Z.land last 0x80 = 0 →
  tag_tail (mid ++ last :: data) = ((mid ++ [last])%list, data).
Proof.
  intros Hm Hl. induction Hm as [|b mid Hb _ IH]; cbn; [by rewrite bool_decide_eq_true_2|].
  by rewrite bool_decide_eq_false_2, IH by done.
Qed.

Lemma read_tag_form tag data :
  tag_form tag → ∃ x t, tag = x :: t ∧ x ≠ 0x00 ∧ x ≠ 0xFF ∧ read_tag x (t ++ data) = (tag, data).
Proof.
  intros [x H0 Hx|x mid last H0 Hx Hm Hl].
  - exists x, []. split_and!; [done|done|by intros ->|]. unfold read_tag. by rewrite bool_decide_eq_false_2.
  - exists x, (mid ++ [last])%list. split_and!; [done|by intros ->|done|].
    unfold read_tag. rewrite bool_decide_eq_true_2, <-app_assoc by done. cbn [app]. by rewrite tag_tail_form.
Qed.

Lemma short_length n : 0 ≤ n < 0x80 → Z.land n 0x80 = 0.
Proof.
  intros Hn. assert (Hall : Forall (λ n, Z.land n 0x80 = 0) (seqZ 0 0x80)).
  { apply (bool_decide_unpack _). vm_compute. exact I. }
  rewrite Forall_forall in Hall. apply Hall, elem_of_seqZ. lia.
Qed.

Lemma read_length_form n lb data : length_form n lb → read_length (lb ++ data) = Some (n, data).
Proof.
  intros [m Hm|b Hb].
  - cbn. by rewrite short_length, bool_decide_eq_false_2 by (done || lia).
  - cbn [app read_length].
    assert (Hk : Z.land (0x80 + len b) 0x80 ≠ 0 ∧ Z.land (0x80 + len b) 0x7F = len b).
    { assert (len b = 1 ∨ len b = 2 ∨ len b = 3) as [-> | [-> | ->]] by lia; done. }
    destruct Hk as [H8 ->]. rewrite bool_decide_eq_true_2 by done.
    pose proof (len_nonneg data). rewrite len_app. do 3 rewrite bool_decide_eq_false_2 by lia. cbn [orb].
    replace (Z.to_nat (len b)) with (List.length b) by (unfold len; lia).
    by rewrite take_app_length, drop_app_length.
Qed.

#[local] Instance constructed_dec tag : Decision (constructed tag).
Proof.
  destruct tag as [|x t]; [right; by intros (? & ? & ? & _)|].
  destruct (decide (Z.land x 0x20 ≠ 0)); [left; by exists x, t|]. right. intros (? & ? & [= <- <-] & ?). done.
Defined.

Lemma collect_element fuel tag lb value data want :
  tag_form tag → length_form (len value) lb →
  collect (S fuel) (tag ++ lb ++ value ++ data) want =
    (inner ← (if bool_decide (constructed tag) then collect fuel value want else Some []);
     rest ← collect fuel data want;
     Some (wanted want tag value ++ inner ++ rest)).
Proof.
  intros Ht Hl. destruct (read_tag_form tag (lb ++ value ++ data) Ht) as (x & t & Hxt & H0 & HF & Hread).
  cbn [collect]. rewrite Hxt at 1. cbn [app skip_padding].
  rewrite !bool_decide_eq_false_2 by done. cbn [orb].
  rewrite Hread, (read_length_form (len value)) by done.
  pose proof (len_nonneg value). pose proof (len_nonneg data).
  rewrite !bool_decide_eq_false_2 by (rewrite ?len_app; lia). cbn [orb].
  replace (Z.to_nat (len value)) with (List.length value) by (unfold len; lia).
  rewrite take_app_length, drop_app_length.
  rewrite (bool_decide_ext (constructed tag) (Z.land x 0x20 ≠ 0)); [done|].
  subst tag. split; [by intros (? & ? & [= <- <-] & ?)|intros; by exists x, t].
Qed.

Lemma encoded_collect want data values :
  encoded want data values → ∀ fuel, (List.length data < fuel)%nat → collect fuel data want = Some values.
Proof.
  assert (Hlen : ∀ tag lb value data fuel, tag_form tag → length_form (len value) lb →
            (List.length (tag ++ lb ++ value ++ data) < S fuel)%nat →
            (List.length value < fuel)%nat ∧ (List.length data < fuel)%nat).
  { intros tag lb value data' fuel Ht Hl Hf. rewrite !length_app in Hf.
    destruct Ht; destruct Hl; cbn in Hf; lia. }
  induction 1 as [|b data values Hb _ IH|tag lb value data values Ht Hc Hl _ IH|tag lb value inner data values Ht Hc Hl _ IHv _ IH];
    intros fuel Hf; (destruct fuel as [|fuel]; [cbn in Hf; lia|]).
  - done.
  - specialize (IH (S fuel) ltac:(cbn in Hf; lia)). rewrite <-IH. cbn [collect skip_padding].
    by destruct Hb as [-> | ->].
  - rewrite collect_element by done. destruct (Hlen _ _ _ _ _ Ht Hl Hf).
    rewrite bool_decide_eq_false_2 by done. cbn. by rewrite IH by lia.
  - rewrite collect_element by done. destruct (Hlen _ _ _ _ _ Ht Hl Hf).
    rewrite bool_decide_eq_true_2 by done. rewrite IHv by lia. cbn. by rewrite IH by lia.
Qed.

(** Tag-length-value data is read completely and the reading ends.  On data of
    the grammar, with tags of any number of bytes, lengths in any of the four
    forms, padding and elements within elements, the values collected are those
    of the elements with the tag, at every depth and in order; on any other
    data the recursion still ends, with a number of steps bounded by the length
    of the data. *)
Theorem tlv_values_collected want data :
  collect (S (List.length data)) data want = Some (CollectTLVValues data want) ∧
  ∀ values, encoded want data values → CollectTLVValues data want = values.
Proof.
  split; [apply CollectTLVValues_fuel|]. intros values He. unfold CollectTLVValues.
  by rewrite (encoded_collect _ _ _ He) by lia.
Qed.

(** A record of a directory: an application template with its identifier and a
    label, and padding. *)
Definition directory_record (aid label : bytes) : bytes :=
  0x61 :: (2 + len aid + (2 + len label)) :: ((0x4F :: len aid :: aid) ++ (0x50 :: len label :: label)) ++ [0xFF; 0xFF].

Lemma directory_record_encoded aid label :
  len aid < 16 → len label < 32 → encoded 0x4F (directory_record aid label) [aid].
Proof.
  intros Ha Hl. pose proof (len_nonneg aid). pose proof (len_nonneg label). unfold directory_record.
  set (inner := ((0x4F :: len aid :: aid) ++ (0x50 :: len label :: label))%list).
  assert (Hin : len inner = 2 + len aid + (2 + len label)) by (subst inner; autorewrite with len; lia).
  rewrite <-Hin.
  apply (encoded_constructed 0x4F [0x61] [len inner] inner [aid] [0xFF; 0xFF] []).
  - by constructor.
  - by exists 0x61, [].
  - constructor. lia.
  - subst inner. rewrite <-(app_nil_r (0x50 :: len label :: label)).
    apply (encoded_primitive 0x4F [0x4F] [len aid] aid _ []); [by constructor|by intros (? & ? & [= <- <-] & ?)|constructor; lia|].
    apply (encoded_primitive 0x4F [0x50] [len label] label [] []); [by constructor|by intros (? & ? & [= <- <-] & ?)|constructor; lia|constructor].
  - do 2 (apply encoded_padding; [by right|]). constructor.
Qed.

Lemma tlv_values_collected_witness :
  encoded 0x4F (directory_record usimPrefix [85; 83; 73; 77]) [usimPrefix] ∧
  CollectTLVValues (directory_record usimPrefix [85; 83; 73; 77]) 0x4F = [usimPrefix].
Proof.
  assert (H : encoded 0x4F (directory_record usimPrefix [85; 83; 73; 77]) [usimPrefix]) by (apply directory_record_encoded; vm_compute; done).
  split; [exact H|]. exact (proj2 (tlv_values_collected 0x4F _) _ H).
Defined.

(** ** Lists of identifiers *)

Definition aids_ok (aids : list bytes) : Prop := NoDup aids ∧ Forall (λ aid, aid ≠ []) aids.

Lemma existsb_elem (aid : bytes) dst : existsb (λ existing, bool_decide (existing = aid)) dst = true ↔ aid ∈ dst.
Proof.
  rewrite existsb_exists. setoid_rewrite <-list_elem_of_In. split.
  - by intros (x & Hx & ->%bool_decide_eq_true_1).
  - intros Hx. exists aid. by rewrite bool_decide_eq_true_2.
Qed.

Lemma AppendUniqueAIDs_ok dst src : aids_ok dst → aids_ok (AppendUniqueAIDs dst src).
Proof.
  revert dst. induction src as [|aid src IH]; intros dst Hd; cbn; [done|].
  case_bool_decide as Hl; [by apply IH|]. destruct (existsb _ dst) eqn:He; [by apply IH|]. apply IH.
  destruct Hd as [Hn Hf]. split; [|by apply Forall_app; repeat constructor; [|intros ->]].
  apply NoDup_app. split_and!; [done| |apply NoDup_singleton].
  intros x Hx ->%list_elem_of_singleton. apply existsb_elem in Hx. congruence.
Qed.

Lemma AppendUniqueAIDs_elem dst src aid :
  aid ∈ AppendUniqueAIDs dst src ↔ aid ∈ dst ∨ (aid ∈ src ∧ aid ≠ []).
Proof.
  revert dst. induction src as [|x src IH]; intros dst; cbn; [set_solver|].
  case_bool_decide as Hl.
  { assert (x = []) as -> by (apply len_0_nil; lia). rewrite IH. set_solver. }
  assert (x ≠ []) by (by intros ->).
  destruct (existsb _ dst) eqn:He; rewrite IH; [apply existsb_elem in He|]; set_solver.
Qed.

Lemma AppendUniqueAIDs_app dst src src' :
  AppendUniqueAIDs dst (src ++ src') = AppendUniqueAIDs (AppendUniqueAIDs dst src) src'.
Proof.
  revert dst. induction src as [|x src IH]; intros dst; cbn; [done|].
  case_bool_decide; [done|]. by destruct (existsb _ dst).
Qed.

(** ** The length and count of the records *)
Section Fcp.
Context `{IntSize}.
Context (Hbits : int_bits = 64 ∨ int_bits = 32).

Lemma shift_byte l x : 0 ≤ l → byte_ok x → Z.lor (Z.shiftl l 8) x = 256 * l + x.
Proof.
  intros Hl Hx. unfold byte_ok in Hx. rewrite Z.shiftl_mul_pow2 by lia. change (2 ^ 8) with 256.
  rewrite (Z.mul_comm l).
  assert (Hland : Z.land (256 * l) x = 0); [|by rewrite <-Z.lxor_lor, <-Z.add_nocarry_lxor].
  rewrite (Z.mul_comm 256). apply Z.bits_inj'. intros i Hi. rewrite Z.land_spec, Z.bits_0.
  destruct (decide (i < 8)).
  - change 256 with (2 ^ 8). by rewrite Z.mul_pow2_bits_low by lia.
  - destruct (decide (x = 0)) as [->|]; [by rewrite Z.bits_0, andb_false_r|].
    rewrite (Z.bits_above_log2 x i), andb_false_r; [done|lia|].
    assert (Z.log2 x < 8) by (apply Z.log2_lt_pow2; lia). lia.
Qed.

Lemma be_int_small lb : bytes_ok lb → len lb ≤ 3 → be_int lb = be_val lb ∧ 0 ≤ be_val lb < 256 ^ len lb.
Proof.
  induction lb as [|x lb IH] using rev_ind; [done|]. intros [Hb Hx]%bytes_ok_app Hl.
  apply Forall_inv in Hx. autorewrite with len in Hl. rewrite len_app. change (len [x]) with 1. pose proof (len_nonneg lb).
  destruct (IH Hb) as [Hi Hv]; [lia|]. unfold be_int, be_val in *. rewrite !foldl_app. cbn [foldl].
  rewrite Hi, shift_byte by (done || lia). unfold byte_ok in Hx.
  rewrite Z.pow_add_r by lia. change (256 ^ 1) with 256.
  split; [|nia]. apply int_id; [lia|].
  assert (32 ≤ int_bits) as Hb32 by lia. apply max_int_31 in Hb32.
  assert (256 ^ len lb ≤ 256 ^ 2) by (apply Z.pow_le_mono_r; lia). change (256 ^ 2) with 65536 in *. lia.
Qed.

(** The loop ends: its index grows with every element. *)
Lemma fcp_loop_returns fuel data i recordLen recordCount :
  0 ≤ i → len data - i < Z.of_nat fuel → 0 < Z.of_nat fuel →
  fcp_loop fuel data i recordLen recordCount ≠ Err tt.
Proof.
  revert i recordLen recordCount. induction fuel as [|fuel IH]; intros i rl rc Hi Hf H0; [lia|].
  cbn [fcp_loop]. case_bool_decide; [done|]. case_bool_decide; [done|].
  destruct (idx data i) as [tag| |] eqn:E0; [|by destruct (idx_Ok (E:=unit) data i) as (? & _ & ?); [lia|congruence]|done].
  destruct (idx data (i + 1)) as [l| |] eqn:E1; [|by destruct (idx_Ok (E:=unit) data (i + 1)) as (? & _ & ?); [lia|congruence]|done].
  cbn [mbind go_bind].
  assert (Hvalue : ∀ j l, i + 2 ≤ j →
    (if bool_decide (int (j + l) > len data) then Ok (rl, rc)
     else v ← slice data j (int (j + l));
       if bool_decide (tag = 0x82) && bool_decide (len v >= 5) then
         a ← idx v (len v - 3); b ← idx v (len v - 2); c ← idx v (len v - 1);
         if bool_decide (Z.lor (Z.shiftl a 8) b > 0) then Ok (Z.lor (Z.shiftl a 8) b, c)
         else fcp_loop fuel data (int (j + l)) (Z.lor (Z.shiftl a 8) b) c
       else fcp_loop fuel data (int (j + l)) rl rc) ≠ Err tt).
  { intros j l' Hj. case_bool_decide; [done|].
    destruct (slice data j (int (j + l'))) as [v|e|] eqn:Es; [|unfold slice in Es; by case_bool_decide|done].
    apply slice_inv in Es as [[? ?] _]. cbn [mbind go_bind].
    destruct (bool_decide (tag = 0x82)); cbn [andb]; [|apply IH; lia].
    case_bool_decide as Hv5; [|apply IH; lia].
    destruct (idx_Ok (E:=unit) v (len v - 3)) as (a & _ & ->); [lia|].
    destruct (idx_Ok (E:=unit) v (len v - 2)) as (b & _ & ->); [lia|].
    destruct (idx_Ok (E:=unit) v (len v - 1)) as (c & _ & ->); [lia|]. cbn [mbind go_bind].
    case_bool_decide; [done|]. apply IH; lia. }
  destruct (bool_decide (Z.land l 0x80 ≠ 0)); [|apply Hvalue; lia].
  destruct (decide (Z.land l 0x7F <= 0)) as [En|En]; [by rewrite bool_decide_eq_true_2|].
  rewrite (bool_decide_eq_false_2 (Z.land l 0x7F <= 0)) by done. cbn [orb].
  destruct (bool_decide (i + 2 + Z.land l 0x7F > len data)); [done|].
  destruct (slice data (i + 2) (i + 2 + Z.land l 0x7F)) as [lb|e|] eqn:Es; [|unfold slice in Es; by case_bool_decide|done].
  cbn [mbind go_bind]. apply Hvalue. lia.
Qed.

Lemma fcp_returns fcp : ParseLinearFixedMetaFromFCP fcp ≠ Err tt.
Proof.
  unfold ParseLinearFixedMetaFromFCP. case_bool_decide; [done|].
  destruct (idx_Ok (E:=unit) fcp 0) as (f & _ & ->); [lia|]. cbn [mbind go_bind].
  assert (Hloop : ∀ data, fcp_loop (S (List.length data)) data 0 0 0 ≠ Err tt).
  { intros data. apply fcp_loop_returns; unfold len; lia. }
  case_bool_decide; [|apply Hloop].
  destruct (idx_Ok (E:=unit) fcp 1) as (t & _ & ->); [lia|]. cbn [mbind go_bind].
  destruct (slice fcp 2 _) as [d|e|] eqn:Es; [apply Hloop|unfold slice in Es; by case_bool_decide|done].
Qed.

(** What the elements of the template say: the first descriptor with a record
    length, else the last descriptor. *)
Fixpoint described (elements : list (Z * bytes)) (recordLen recordCount : Z) : Z * Z :=
  match elements with
  | [] => (recordLen, recordCount)
  | (tag, v) :: elements =>
      if bool_decide (tag = 0x82) && bool_decide (len v >= 5) then
        let l := 256 * nth (List.length v - 3) v 0 + nth (List.length v - 2) v 0 in
        let c := nth (List.length v - 1) v 0 in
        if bool_decide (l > 0) then (l, c) else described elements l c
      else described elements recordLen recordCount
  end.

(** The bytes of the elements, each with a length in one of its forms. *)
Inductive template : list (Z * bytes) → bytes → Prop :=
  | template_nil : template [] []
  | template_cons tag lb v elements data :
      byte_ok tag → bytes_ok lb → bytes_ok v → length_form (len v) lb → template elements data →
      template ((tag, v) :: elements) (tag :: lb ++ v ++ data).

Lemma idx_nth {E} (v : bytes) k : (0 < k ≤ List.length v)%nat → idx (E:=E) v (len v - Z.of_nat k) = Ok (nth (List.length v - k) v 0).
Proof.
  intros Hk. destruct (idx_Ok (E:=E) v (len v - Z.of_nat k)) as (a & Ha & ->); [unfold len; lia|].
  replace (Z.to_nat (len v - Z.of_nat k)) with (List.length v - k)%nat in Ha by (unfold len; lia).
  f_equal. by rewrite (nth_lookup_Some _ _ _ _ Ha).
Qed.

Lemma length_form_split n lb :
  length_form n lb →
  ∃ first more, lb = first :: more ∧
    ((Z.land first 0x80 = 0 ∧ first = n ∧ more = []) ∨
     (Z.land first 0x80 ≠ 0 ∧ Z.land first 0x7F = len more ∧ 1 ≤ len more ≤ 3 ∧ be_val more = n)).
Proof.
  intros [m Hm|b Hb].
  - exists m, []. split; [done|]. left. by rewrite short_length.
  - exists (0x80 + len b), b. split; [done|]. right.
    assert (len b = 1 ∨ len b = 2 ∨ len b = 3) as [Hk|[Hk|Hk]] by lia; by rewrite Hk.
Qed.

Lemma fcp_loop_template elements data :
  template elements data → ∀ pre fuel recordLen recordCount,
  len data < Z.of_nat fuel → len pre + len data ≤ max_int →
  fcp_loop fuel (pre ++ data) (len pre) recordLen recordCount = Ok (described elements recordLen recordCount).
Proof.
  induction 1 as [|tag lb v elements data Ht Hlb Hv Hl _ IH]; intros pre fuel rl rc Hf Hmax;
    (destruct fuel as [|fuel]; [exfalso; cbn in Hf; revert Hf; apply Z.le_ngt; apply len_nonneg|]); cbn [fcp_loop].
  { rewrite app_nil_r. by rewrite bool_decide_eq_true_2 by lia. }
  pose proof (len_nonneg pre). pose proof (len_nonneg v). pose proof (len_nonneg data). pose proof (len_nonneg lb).
  set (all := (pre ++ tag :: lb ++ v ++ data)%list).
  autorewrite with len in Hf, Hmax.
  assert (Hall : len all = len pre + 1 + len lb + len v + len data) by (subst all; autorewrite with len; lia).
  assert (Hlb1 : 1 ≤ len lb) by (clear -Hl; destruct Hl as [m|b]; rewrite len_cons; [by rewrite len_nil|pose proof (len_nonneg b); lia]).
  assert (Hint : ∀ x, 0 ≤ x ≤ max_int → int x = x) by (intros; apply int_id; [lia|done]).
  assert (Hvalue :
    (if bool_decide (int (len pre + 1 + len lb + len v) > len all) then Ok (rl, rc)
     else w ← slice all (len pre + 1 + len lb) (int (len pre + 1 + len lb + len v));
       if bool_decide (tag = 0x82) && bool_decide (len w >= 5) then
         a ← idx w (len w - 3); b ← idx w (len w - 2); c ← idx w (len w - 1);
         if bool_decide (Z.lor (Z.shiftl a 8) b > 0) then Ok (Z.lor (Z.shiftl a 8) b, c)
         else fcp_loop fuel all (int (len pre + 1 + len lb + len v)) (Z.lor (Z.shiftl a 8) b) c
       else fcp_loop fuel all (int (len pre + 1 + len lb + len v)) rl rc)
    = Ok (described ((tag, v) :: elements) rl rc)).
  { assert (Ei : int (len pre + 1 + len lb + len v) = len pre + 1 + len lb + len v) by (apply Hint; lia).
    rewrite !Ei, Hall, bool_decide_eq_false_2 by lia.
    assert (Es : slice (E:=unit) all (len pre + 1 + len lb) (len pre + 1 + len lb + len v) = Ok v).
    { subst all. replace (pre ++ tag :: lb ++ v ++ data)%list with ((pre ++ tag :: lb) ++ v ++ data)%list by (by rewrite <-!app_assoc).
      apply slice_mid; autorewrite with len; lia. }
    rewrite Es. cbn [mbind go_bind described].
    assert (Hrest : ∀ rl rc, fcp_loop fuel all (len pre + 1 + len lb + len v) rl rc = Ok (described elements rl rc)).
    { intros rl' rc'. specialize (IH (pre ++ tag :: lb ++ v)%list fuel rl' rc').
      replace ((pre ++ tag :: lb ++ v) ++ data)%list with all in IH by (subst all; rewrite <-app_assoc; cbn; by rewrite <-app_assoc).
      replace (len (pre ++ tag :: lb ++ v)) with (len pre + 1 + len lb + len v) in IH by (autorewrite with len; lia).
      apply IH; lia. }
    destruct (bool_decide (tag = 0x82)); cbn [andb]; [|apply Hrest].
    destruct (bool_decide (len v >= 5)) eqn:Hv5; [apply bool_decide_eq_true_1 in Hv5|apply Hrest].
    assert (Hn : (5 ≤ List.length v)%nat) by (unfold len in Hv5; lia).
    rewrite (idx_nth v 3) by lia. cbn [mbind go_bind]. rewrite (idx_nth v 2) by lia. cbn [mbind go_bind].
    rewrite (idx_nth v 1) by lia. cbn [mbind go_bind].
    assert (Hok : ∀ k, (0 < k ≤ List.length v)%nat → byte_ok (nth (List.length v - k) v 0)).
    { intros k Hk. destruct (idx_Ok (E:=unit) v (len v - Z.of_nat k)) as (a & Ha & _); [unfold len; lia|].
      replace (Z.to_nat (len v - Z.of_nat k)) with (List.length v - k)%nat in Ha by (unfold len; lia).
      rewrite (nth_lookup_Some _ _ _ _ Ha). by apply (Forall_lookup_1 _ _ _ _ Hv Ha). }
    pose proof (Hok 3%nat ltac:(lia)) as H3k. unfold byte_ok in H3k at 1. rewrite shift_byte by (first [apply Hok; lia|apply H3k]).
    by destruct (bool_decide (256 * _ + _ > 0)). }
  rewrite Hall. do 2 rewrite bool_decide_eq_false_2 by lia.
  rewrite (idx_mid pre tag _ _ eq_refl : idx all (len pre) = Ok tag). cbn [mbind go_bind].
  destruct (length_form_split _ _ Hl) as (first & more & Hlb' & Hfirst).
  assert (Ei : idx (E:=unit) all (len pre + 1) = Ok first).
  { subst all. rewrite Hlb'. replace (pre ++ tag :: (first :: more) ++ v ++ data)%list
      with ((pre ++ [tag]) ++ first :: more ++ v ++ data)%list by (by rewrite <-!app_assoc).
    apply idx_mid. autorewrite with len. lia. }
  assert (Hmore : len lb = 1 + len more) by (by rewrite Hlb', len_cons).
  rewrite Ei. cbn [mbind go_bind]. rewrite Hall in Hvalue.
  destruct Hfirst as [(Hz & Hf1 & Hm1)|(Hnz & Hn & Hpos & Hval)].
  - subst first more. rewrite len_nil in Hmore. rewrite bool_decide_eq_false_2 by (intros Hne; exact (Hne Hz)). replace (len pre + 2) with (len pre + 1 + len lb) by lia.
    exact Hvalue.
  - rewrite bool_decide_eq_true_2, Hn by done. do 2 rewrite bool_decide_eq_false_2 by lia. cbn [orb].
    assert (Es : slice (E:=unit) all (len pre + 2) (len pre + 2 + len more) = Ok more).
    { subst all. rewrite Hlb'. replace (pre ++ tag :: (first :: more) ++ v ++ data)%list
        with ((pre ++ [tag; first]) ++ more ++ v ++ data)%list by (by rewrite <-!app_assoc).
      apply slice_mid; autorewrite with len; lia. }
    rewrite Es. cbn [mbind go_bind].
    assert (Hb : be_int more = len v).
    { rewrite <-Hval. apply be_int_small; [|lia]. rewrite Hlb' in Hlb. by inversion Hlb. }
    rewrite Hb. replace (len pre + 2 + len more) with (len pre + 1 + len lb) by lia. exact Hvalue.
Qed.

(** The record length and count of a file are read from its control
    parameters.  Inside a template or not, with lengths in any of their forms,
    the result is that of the first descriptor with a record length; and the
    loop ends on every sequence of bytes. *)
Theorem fcp_read fcp :
  ParseLinearFixedMetaFromFCP fcp ≠ Err tt ∧
  ∀ elements data, template elements data → len data < 256 →
    (fcp = 0x62 :: len data :: data ∨ (fcp = data ∧ (∀ v es, elements ≠ (0x62, v) :: es))) →
    ParseLinearFixedMetaFromFCP fcp = Ok (described elements 0 0).
Proof.
  split; [apply fcp_returns|]. intros elements data Ht Hlen Hfcp.
  assert (Hmax : len data ≤ max_int).
  { assert (32 ≤ int_bits) as Hb by lia. apply max_int_31 in Hb. lia. }
  assert (Hloop : fcp_loop (S (List.length data)) data 0 0 0 = Ok (described elements 0 0)).
  { apply (fcp_loop_template elements data Ht []); [unfold len; lia|done]. }
  pose proof (len_nonneg data). unfold ParseLinearFixedMetaFromFCP. destruct Hfcp as [->|[-> Hne]].
  - rewrite !len_cons. rewrite bool_decide_eq_false_2 by lia.
    rewrite (idx_mid [] 0x62 _ 0 eq_refl : idx (0x62 :: len data :: data) 0 = Ok 0x62). cbn [mbind go_bind].
    rewrite bool_decide_eq_true_2 by done.
    rewrite (idx_mid [0x62] (len data) data 1 eq_refl : idx (0x62 :: len data :: data) 1 = Ok (len data)). cbn [mbind go_bind].
    rewrite bool_decide_eq_false_2 by lia.
    assert (Es : slice (E:=unit) (0x62 :: len data :: data) 2 (2 + len data) = Ok data).
    { rewrite <-(app_nil_r data) at 2. by apply (slice_mid [0x62; len data]). }
    rewrite Es. exact Hloop.
  - destruct Ht as [|tag lb v elements data Ht Hlb Hv Hl Hrest]; [done|].
    assert (1 ≤ len lb).
    { clear -Hl. destruct Hl as [m|b]; rewrite len_cons; [by rewrite len_nil|pose proof (len_nonneg b); lia]. }
    rewrite bool_decide_eq_false_2 by (rewrite len_cons, !len_app; pose proof (len_nonneg v); pose proof (len_nonneg data); lia).
    rewrite (idx_mid [] tag _ 0 eq_refl : idx (tag :: lb ++ v ++ data) 0 = Ok tag). cbn [mbind go_bind].
    rewrite bool_decide_eq_false_2 by (intros ->; by eapply Hne). exact Hloop.
Qed.
End Fcp.

(** A file of 16 records of 32 bytes, with its identifier first. *)
Lemma fcp_read_witness :
  let fcp := [0x62; 11; 0x83; 2; 0x2F; 0x00; 0x82; 5; 0x42; 0x21; 0; 32; 16] in
  @int_bits 64 = 64 ∧
  @ParseLinearFixedMetaFromFCP 64 fcp = Ok (32, 16).
Proof.
  intros fcp. split; [reflexivity|].
  refine (proj2 (@fcp_read 64 (or_introl eq_refl) fcp) [(0x83, [0x2F; 0x00]); (0x82, [0x42; 0x21; 0; 32; 16])] [0x83; 2; 0x2F; 0x00; 0x82; 5; 0x42; 0x21; 0; 32; 16] _ _ _); [|vm_compute; reflexivity|left; reflexivity].
  apply (template_cons 0x83 [2] [0x2F; 0x00] _ [0x82; 5; 0x42; 0x21; 0; 32; 16]); [vm_compute; (split; congruence)|apply (bool_decide_unpack _); vm_compute; exact I|apply (bool_decide_unpack _); vm_compute; exact I|apply short; lia|].
  apply (template_cons 0x82 [5] [0x42; 0x21; 0; 32; 16] _ []); [vm_compute; (split; congruence)|apply (bool_decide_unpack _); vm_compute; exact I|apply (bool_decide_unpack _); vm_compute; exact I|apply short; lia|constructor].
Defined.

(** A length of eight bytes that is negative as an [int] is taken for one that
    fits, and the slice panics. *)
Lemma fcp_length_overflow :
  @ParseLinearFixedMetaFromFCP 64 [0x83; 0x88; 0x80; 0; 0; 0; 0; 0; 0; 0] = Panic.
Proof. vm_compute. reflexivity. Qed.

(** ** Reading the directory *)

(** The identifiers in the answer to the reading of a record. *)
Definition record_values (x : exchange bytes) : list bytes :=
  match x_answer x with
  | inl rsp =>
      match APDUStatus rsp with
      | Some (sw1, sw2) => if IsSuccess sw1 sw2 then CollectTLVValues (payload rsp) 0x4F else []
      | None => []
      end
  | inr _ => []
  end.

(** The answers that end the reading: there is no such record, or file. *)
Definition no_more (x : exchange bytes) : bool :=
  match x_answer x with
  | inl rsp =>
      match APDUStatus rsp with
      | Some (sw1, sw2) => bool_decide (sw1 = 0x6A) && (bool_decide (sw2 = 0x83) || bool_decide (sw2 = 0x82))
      | None => false
      end
  | inr _ => false
  end.

Definition read_commands (n : nat) (record recordLen : Z) : list bytes :=
  (λ k, read_record k recordLen) <$> seqZ record (Z.of_nat n).

Lemma read_commands_S n record recordLen :
  read_commands (S n) record recordLen = read_record record recordLen :: read_commands n (record + 1) recordLen.
Proof. unfold read_commands. rewrite seqZ_cons by lia. cbn. do 3 f_equal; lia. Qed.

Lemma read_records_exec n record recordLen aids t found :
  exec (read_records n record recordLen aids) t found →
  found = AppendUniqueAIDs aids (List.concat (record_values <$> t)) ∧
  ∃ k, x_request <$> t = take k (read_commands n record recordLen) ∧
       (k = n ∨ (k < n)%nat ∧ ∃ x, last t = Some x ∧ no_more x = true).
Proof.
  revert record aids t. induction n as [|n IH]; intros record aids t.
  { intros [-> ->]. split; [done|]. exists 0%nat. split; [done|by left]. }
  cbn [read_records]. intros (rsp & t' & -> & Hx). cbn [bind] in Hx. rewrite read_commands_S.
  assert (Hcont : ∀ aids', exec (read_records n (record + 1) recordLen aids') t' found →
    aids' = AppendUniqueAIDs aids (record_values (mkExchange (C:=bytes) (read_record record recordLen) rsp)) →
    found = AppendUniqueAIDs aids (List.concat (record_values <$> mkExchange (C:=bytes) (read_record record recordLen) rsp :: t')) ∧
    ∃ k, x_request <$> mkExchange (C:=bytes) (read_record record recordLen) rsp :: t' = take k (read_record record recordLen :: read_commands n (record + 1) recordLen) ∧
       (k = S n ∨ (k < S n)%nat ∧ ∃ x, last (mkExchange (C:=bytes) (read_record record recordLen) rsp :: t') = Some x ∧ no_more x = true)).
  { intros aids' (-> & k & Hreq & Hk)%IH ->. cbn [fmap list_fmap List.concat]. rewrite AppendUniqueAIDs_app.
    split; [done|]. exists (S k). cbn. rewrite Hreq. split; [done|].
    destruct Hk as [->|(Hk & x & Hl & Hm)]; [by left|]. right. split; [lia|]. exists x. split; [|done].
    destruct t' as [|y t']; [done|]. by rewrite last_cons_cons. }
  unfold record_values at 1 in Hcont. cbn [x_answer] in Hcont.
  destruct rsp as [rsp|e]; [|by apply (Hcont aids Hx)].
  destruct (APDUStatus rsp) as [[sw1 sw2]|] eqn:Hst; [|by apply (Hcont aids Hx)].
  destruct (bool_decide (sw1 = 0x6A) && _) eqn:Hend.
  - destruct Hx as [-> ->]. cbn. unfold record_values. cbn. rewrite Hst.
    assert (IsSuccess sw1 sw2 = false) as ->.
    { apply andb_true_iff in Hend as [->%bool_decide_eq_true_1 _]. done. }
    split; [done|]. exists 1%nat. split; [done|]. destruct n; [by left|]. right. split; [lia|].
    eexists. split; [done|]. unfold no_more. cbn. by rewrite Hst.
  - destruct (IsSuccess sw1 sw2); cbn [negb] in Hx; [|by apply (Hcont aids Hx)]. by apply (Hcont _ Hx).
Qed.

(** The answer to a SELECT that succeeds. *)
Lemma select_exec apdu t rsp :
  exec (selectFileWithTransmit apdu) t (Some rsp) →
  t = [mkExchange (C:=bytes) apdu (inl rsp)].
Proof.
  intros (t1 & t2 & a & -> & (r & t' & -> & -> & ->) & [-> Hr])%exec_bind. cbn.
  destruct r as [r|]; [|done]. destruct (APDUStatus r) as [[sw1 sw2]|]; [|done].
  by destruct (IsSelectSuccess sw1 sw2); simplify_eq.
Qed.

Lemma directory_plan_bounds recordLen recordCount :
  let '(l, n) := directory_plan recordLen recordCount in 1 ≤ n ≤ 32 ∧ 0 ≤ l < 256.
Proof.
  unfold directory_plan. destruct (bool_decide (recordLen < 0)) eqn:H1, (bool_decide (recordLen > 0xFF)) eqn:H2,
    (bool_decide (recordCount > 0)) eqn:H3, (bool_decide (recordCount < 32)) eqn:H4;
    rewrite ?bool_decide_eq_true, ?bool_decide_eq_false in *; cbn; lia.
Qed.

(** The directory of the card is read to its end.  Whatever the card answers,
    a reading that succeeds has selected the master file and the directory, then
    asked for the records from the first on, at most 32 and no more than the
    directory has, each with the length that its control parameters give; it
    stopped early only where the card said that there is no such record.  Its
    result is the identifiers of all the records that were read, in order and
    each once, none empty. *)
Theorem directory_read `{IntSize} t aids :
  exec ReadDirectoryAIDs t (Ok aids) →
  ∃ mf rsp fcp recordLen recordCount records,
    t = mkExchange (C:=bytes) select_mf (inl mf) :: mkExchange (C:=bytes) select_ef_dir (inl rsp) :: records ∧
    ExtractSuccessData rsp = Some fcp ∧
    ParseLinearFixedMetaFromFCP fcp = Ok (recordLen, recordCount) ∧
    aids = AppendUniqueAIDs [] (List.concat (record_values <$> records)) ∧
    aids ≠ [] ∧ aids_ok aids ∧
    let '(l, n) := directory_plan recordLen recordCount in
    1 ≤ n ≤ 32 ∧ 0 ≤ l < 256 ∧
    ∃ k, x_request <$> records = take k (read_commands (Z.to_nat n) 1 l) ∧
         (k = Z.to_nat n ∨ (k < Z.to_nat n)%nat ∧ ∃ x, last records = Some x ∧ no_more x = true).
Proof.
  intros (t1 & t2 & mf & -> & Hmf & Hx)%exec_bind. destruct mf as [mf|]; [|by destruct Hx].
  apply select_exec in Hmf as ->.
  apply exec_bind in Hx as (t3 & t4 & dir & -> & Hdir & Hx). destruct dir as [rsp|]; [|by destruct Hx].
  apply select_exec in Hdir as ->.
  destruct (ExtractSuccessData rsp) as [fcp|] eqn:Hfcp; [|by destruct Hx].
  destruct (ParseLinearFixedMetaFromFCP fcp) as [[rl rc]|e|] eqn:Hmeta; [|by destruct Hx|by destruct Hx].
  destruct (directory_plan rl rc) as [l n] eqn:Hplan.
  apply exec_bind in Hx as (t5 & t6 & found & -> & Hread & [-> Hok]).
  apply read_records_exec in Hread as (Hfound & Hk).
  destruct (decide (len found = 0)) as [H0|H0]; [by rewrite bool_decide_eq_true_2 in Hok|].
  rewrite bool_decide_eq_false_2 in Hok by done. injection Hok as ->.
  pose proof (directory_plan_bounds rl rc) as Hb. rewrite Hplan in Hb. destruct Hb as [Hn Hl].
  exists mf, rsp, fcp, rl, rc, t5. rewrite app_nil_r, Hplan. split_and!; try done; try apply Hn; try apply Hl.
  - by intros ->.
  - rewrite Hfound. apply AppendUniqueAIDs_ok. split; [constructor|constructor].
Qed.

(** ** Selecting an application *)

Definition candidates (aids : list bytes) (matches : option (bytes → bool)) : list bytes :=
  filter (λ aid, default (λ _, true) matches aid = true ∧ 0 < len aid < 256) aids.
Definition select_commands (aids : list bytes) : list bytes :=
  List.concat ((λ aid, [select_aid 0x04 aid; select_aid 0x00 aid]) <$> aids).
Definition refused (x : exchange bytes) : Prop := accepted (x_answer x) = false.

(** The first application that the card accepts is selected.  The candidates
    are tried in order, each with the two forms of the command.  When one is
    returned, the last command was a SELECT of it that the card accepted and all
    the commands before it were refused; when none is, every command was sent
    and refused. *)
Theorem select_first aids matches t r :
  exec (SelectAIDWithTransmit aids matches) t r →
  match r with
  | Some aid =>
      ∃ before after x tried,
        candidates aids matches = before ++ aid :: after ∧
        t = tried ++ [x] ∧ Forall refused tried ∧ accepted (x_answer x) = true ∧
        (x_request <$> tried, x_request x) ∈
          [(select_commands before, select_aid 0x04 aid); (select_commands before ++ [select_aid 0x04 aid], select_aid 0x00 aid)]
  | None => x_request <$> t = select_commands (candidates aids matches) ∧ Forall refused t
  end.
Proof.
  revert t. induction aids as [|aid aids IH]; intros t; cbn [SelectAIDWithTransmit].
  { intros [-> ->]. by split. }
  unfold candidates in *. rewrite filter_cons.
  destruct (default (λ _, true) matches aid) eqn:Hm; cbn [negb].
  2:{ rewrite decide_False by naive_solver. apply IH. }
  destruct (decide (0 < len aid < 256)) as [Hl|Hl].
  2:{ rewrite decide_False by naive_solver. pose proof (len_nonneg aid).
      destruct (decide (len aid = 0)) as [H0|H0].
      - rewrite (bool_decide_eq_true_2 (len aid = 0)) by done. apply IH.
      - rewrite (bool_decide_eq_true_2 (len aid > 0xFF)), orb_true_r by lia. apply IH. }
  rewrite decide_True by done. do 2 rewrite bool_decide_eq_false_2 by lia. cbn [orb].
  intros (r1 & t1 & -> & Hx). cbn [bind] in Hx. destruct (accepted r1) eqn:H1.
  { destruct Hx as [-> ->]. exists [], (filter (λ aid, default (λ _, true) matches aid = true ∧ 0 < len aid < 256) aids).
    eexists _, []. split_and!; [done|done|constructor|done|]. cbn. constructor. }
  destruct Hx as (r2 & t2 & -> & Hx). cbn [bind] in Hx. destruct (accepted r2) eqn:H2.
  { destruct Hx as [-> ->]. exists [], (filter (λ aid, default (λ _, true) matches aid = true ∧ 0 < len aid < 256) aids).
    exists (mkExchange (C:=bytes) (select_aid 0 aid) r2), [mkExchange (C:=bytes) (select_aid 4 aid) r1].
    split_and!; [done|done|by repeat constructor|done|]. cbn. right. constructor. }
  specialize (IH t2 Hx). destruct r as [found|].
  - destruct IH as (before & after & x & tried & Hc & -> & Hf & Hacc & Hin).
    exists (aid :: before), after, x, (mkExchange (C:=bytes) (select_aid 4 aid) r1 :: mkExchange (C:=bytes) (select_aid 0 aid) r2 :: tried).
    rewrite Hc. split_and!; [done|done|by repeat constructor|done|].
    apply list_elem_of_In in Hin. destruct Hin as [[= Hq Hr]|[[= Hq Hr]|[]]]; cbn; rewrite <-Hq, <-Hr; set_solver.
  - destruct IH as [Hq Hf]. cbn. rewrite Hq. split; [done|by repeat constructor].
Qed.

(** A card with a USIM and an ISIM in its directory of two records. *)
Definition sample_records : list bytes :=
  [directory_record (usimPrefix ++ [0xFF]) [85; 83; 73; 77]; directory_record (isimPrefix ++ [0xFF]) []].

Definition sample_card (s : unit) (c : bytes) : answer c * unit :=
  (match c with
   | [0x00; 0xB2; k; 0x04; _] =>
       inl match sample_records !! Z.to_nat (k - 1) with
           | Some r => r ++ [0x90; 0x00]
           | None => [0x6A; 0x83]
           end
   | [0x00; 0xA4; 0x00; 0x04; 0x02; 0x2F; 0x00] => inl [0x62; 7; 0x82; 5; 0x42; 0x21; 0; 32; 2; 0x90; 0x00]
   | 0x00 :: 0xA4 :: 0x04 :: p2 :: l :: aid =>
       if bool_decide (p2 = 0x00) && IsISIM aid then inl [0x61; 0x10] else inl [0x6A; 0x82]
   | _ => inl [0x90; 0x00]
   end, s).

Definition directory_run : list (exchange bytes) * go unit (list bytes) * unit :=
  run_on sample_card (@ReadDirectoryAIDs 64) tt.

Lemma directory_run_exec : exec (@ReadDirectoryAIDs 64) directory_run.1.1 directory_run.1.2.
Proof.
  pose proof (run_on_exec sample_card (@ReadDirectoryAIDs 64) tt) as H.
  unfold directory_run. destruct (run_on _ _ _) as [[t a] s]. exact H.
Qed.

Lemma directory_read_witness :
  directory_run.1.2 = Ok [(usimPrefix ++ [0xFF])%list; (isimPrefix ++ [0xFF])%list] ∧
  List.length directory_run.1.1 = 4%nat ∧ aids_ok [(usimPrefix ++ [0xFF])%list; (isimPrefix ++ [0xFF])%list].
Proof.
  assert (Hr : directory_run.1.2 = Ok [(usimPrefix ++ [0xFF])%list; (isimPrefix ++ [0xFF])%list]) by (vm_compute; reflexivity).
  split; [exact Hr|]. split; [vm_compute; reflexivity|].
  pose proof directory_run_exec as H. rewrite Hr in H.
  destruct (@directory_read 64 _ _ H) as (_ & _ & _ & _ & _ & _ & _ & _ & _ & _ & _ & Hok & _). exact Hok.
Defined.

Definition select_run : list (exchange bytes) * option bytes * unit :=
  run_on sample_card (SelectAIDWithTransmit [[]; (usimPrefix ++ [0xFF])%list; (isimPrefix ++ [0xFF])%list] (Some IsISIM)) tt.

Lemma select_run_exec :
  exec (SelectAIDWithTransmit [[]; (usimPrefix ++ [0xFF])%list; (isimPrefix ++ [0xFF])%list] (Some IsISIM)) select_run.1.1 select_run.1.2.
Proof.
  pose proof (run_on_exec sample_card (SelectAIDWithTransmit [[]; (usimPrefix ++ [0xFF])%list; (isimPrefix ++ [0xFF])%list] (Some IsISIM)) tt) as H.
  unfold select_run. destruct (run_on _ _ _) as [[t a] s]. exact H.
Qed.

Lemma select_first_witness :
  select_run.1.2 = Some (isimPrefix ++ [0xFF])%list ∧
  ∃ before after, candidates [[]; (usimPrefix ++ [0xFF])%list; (isimPrefix ++ [0xFF])%list] (Some IsISIM)
                  = before ++ (isimPrefix ++ [0xFF])%list :: after.
Proof.
  assert (Hr : select_run.1.2 = Some (isimPrefix ++ [0xFF])%list) by (vm_compute; reflexivity).
  split; [exact Hr|]. pose proof select_run_exec as H. rewrite Hr in H.
  destruct (select_first _ _ _ _ H) as (before & after & _ & _ & Hc & _). by exists before, after.
Defined.
