(* ===== verification/ModemVoice.v ===== *)
(** * Voice calls of a modem (internal/modemvoice)

    The list of calls that a modem reports is parsed, followed from one report
    to the next by a tracker, and consulted before every command that controls
    a call.  A session is a program over the requests below: the contexts, the
    channels that give one operation at a time, and the modem answer.  Its
    tracker is passed along.  The text of the errors is left out. *)

From S2P Require Import Prelude GoText SmsCodec Interaction.
From stdpp Require Import strings gmap sorting pretty.
From Stdlib Require Import Ascii String.

#[local] Open Scope Z_scope.

(** ** The report of calls (clcc.go) *)

Definition Active : Z := 0.
Definition Held : Z := 1.
Definition Dialing : Z := 2.
Definition Alerting : Z := 3.
Definition Incoming : Z := 4.
Definition Waiting : Z := 5.

Record Call := mkCall {
  Index : Z; Inbound : bool; State : Z; Mode : Z; Multiparty : bool; Number : string; NumberType : Z }.
#[global] Instance Call_eq_dec : EqDecision Call.
Proof. solve_decision. Defined.

Definition quote : ascii := ascii_of_nat 34.

(** The fields of one line, as package csv reads them: a field in quotation
    marks, where two stand for one, or a field without any, up to a comma.
    [quoted] gives the field and what follows the comma, if there is one. *)
Fixpoint quoted (line : string) : option (string * option string) :=
  match line with
  | EmptyString => None
  | String a line =>
      if Ascii.eqb a quote then
        match line with
        | EmptyString => Some (EmptyString, None)
        | String b line =>
            if Ascii.eqb b quote then '(f, rest) ← quoted line; Some (String quote f, rest)
            else if Ascii.eqb b ","%char then Some (EmptyString, Some line)
            else None
        end
      else '(f, rest) ← quoted line; Some (String a f, rest)
  end.

Fixpoint unquoted (line : string) : option (string * option string) :=
  match line with
  | EmptyString => Some (EmptyString, None)
  | String a line =>
      if Ascii.eqb a ","%char then Some (EmptyString, Some line)
      else if Ascii.eqb a quote then None
      else '(f, rest) ← unquoted line; Some (String a f, rest)
  end.

Fixpoint csv_fields (fuel : nat) (line : string) : option (list string) :=
  match fuel with
  | O => None
  | S fuel =>
      let line := TrimLeftSpace line in
      '(f, rest) ← match line with
                   | String a line' => if Ascii.eqb a quote then quoted line' else unquoted line
                   | EmptyString => unquoted line
                   end;
      match rest with
      | None => Some [f]
      | Some rest => l ← csv_fields fuel rest; Some (f :: l)
      end
  end.

(** [Reader.Read] with [TrimLeadingSpace], on a text without line ends. *)
Definition csv_read (line : string) : option (list string) :=
  if bool_decide (line = EmptyString) then None else csv_fields (S (String.length line)) line.

Definition field (fields : list string) (i : nat) : option Z := Atoi (TrimSpace (nth i fields EmptyString)).

Definition parseCall (line : string) : option Call :=
  fields ← csv_read line;
  let n := List.length fields in
  if negb (bool_decide (n = 5%nat) || bool_decide (n = 7%nat) || bool_decide (n = 8%nat)) then None
  else
    v0 ← field fields 0; v1 ← field fields 1; v2 ← field fields 2; v3 ← field fields 3; v4 ← field fields 4;
    if bool_decide (v0 <= 0) || bool_decide (v1 < 0) || bool_decide (v1 > 1) ||
       bool_decide (v2 < Active) || bool_decide (v2 > Waiting) ||
       (bool_decide (v3 ≠ 0) && bool_decide (v3 ≠ 1) && bool_decide (v3 ≠ 2) && bool_decide (v3 ≠ 9)) ||
       bool_decide (v4 < 0) || bool_decide (v4 > 1)
    then None
    else
      let call number numberType :=
        mkCall v0 (bool_decide (v1 = 1)) v2 v3 (bool_decide (v4 = 1)) number numberType in
      if bool_decide (7 <= n)%nat then
        t ← field fields 6;
        if bool_decide (t < 0) || bool_decide (t > 255) then None
        else
          let number := nth 5 fields EmptyString in
          Some (call (if bool_decide (t = 145) && bool_decide (number ≠ EmptyString) && negb (HasPrefix number "+")
                      then ("+" +:+ number)%string else number) t)
      else Some (call EmptyString 0).

Definition clcc_prefix : string := "+CLCC:".

(** The loop of [ParseCLCC] over the lines. *)
Fixpoint parse_lines (lines : list string) (seen : list Z) (calls : list Call) : option (list Call) :=
  match lines with
  | [] => Some calls
  | raw :: lines =>
      let line := TrimSpace raw in
      if bool_decide (line = EmptyString) || bool_decide (line = "OK"%string) || bool_decide (line = "AT+CLCC"%string)
      then parse_lines lines seen calls
      else
        match cut_prefix clcc_prefix line with
        | None => None
        | Some text =>
            call ← parseCall (TrimSpace text);
            if bool_decide (Index call ∈ seen) then None
            else parse_lines lines (Index call :: seen) (calls ++ [call])
        end
  end.

Definition ParseCLCC (response : string) : option (list Call) :=
  parse_lines (split_char (ascii_of_nat 10) (remove_char (ascii_of_nat 13) response)) [] [].

(** ** Calls that control and that are the same (client.go) *)

Definition establishedDataCall (call : Call) : bool :=
  (bool_decide (Mode call = 1) || bool_decide (Mode call = 2)) && bool_decide (State call = Active).

Definition voiceControlCalls (calls : list Call) : list Call := filter (λ c, establishedDataCall c = false) calls.

Definition sameCall (previous current : Call) : bool :=
  if (bool_decide (State previous = Active) || bool_decide (State previous = Held)) && bool_decide (State current >= Dialing)
  then false
  else
    bool_decide (Index previous = Index current) && bool_decide (Inbound previous = Inbound current) &&
    bool_decide (Mode previous = Mode current) &&
    (bool_decide (Number previous = EmptyString) || bool_decide (Number current = EmptyString) ||
     bool_decide (Number previous = Number current)).

(** ** The tracker (tracker.go) *)

Record TrackedCall := mkTracked { ID : string; tracked_call : Call }.
Record Change := mkChange { changed : TrackedCall; Ended : bool }.
Record Tracker := mkTracker { tprefix : string; next : Z; active : gmap Z TrackedCall }.

Definition NewTracker (uuid : string) : Tracker := mkTracker uuid 0 ∅.

(** [fmt.Sprintf] of the identifier. *)
Definition call_id (prefix : string) (n : Z) : string := ("modem-" +:+ prefix +:+ "-" +:+ pretty n)%string.

(** One call of a report: the call as it is tracked, the counter, and the
    changes. *)
Definition track (prefix : string) (active : gmap Z TrackedCall) (next : Z) (call : Call)
    : TrackedCall * Z * list Change :=
  let fresh changes :=
    let next := u64 (next + 1) in
    let tracked := mkTracked (call_id prefix next) call in
    (tracked, next, changes ++ [mkChange tracked false]) in
  match active !! Index call with
  | None => fresh []
  | Some previous =>
      if sameCall (tracked_call previous) call then
        let p := tracked_call previous in
        let call :=
          if bool_decide (Number call = EmptyString)
          then mkCall (Index call) (Inbound call) (State call) (Mode call) (Multiparty call) (Number p) (NumberType p)
          else call in
        let tracked := mkTracked (ID previous) call in
        (tracked, next, if bool_decide (p = call) then [] else [mkChange tracked false])
      else fresh [mkChange previous true]
  end.

Fixpoint track_all (prefix : string) (active : gmap Z TrackedCall) (calls : list Call) (n : Z)
    (next : gmap Z TrackedCall) (changes : list Change) : Z * gmap Z TrackedCall * list Change :=
  match calls with
  | [] => (n, next, changes)
  | call :: calls =>
      let '(tracked, n, ch) := track prefix active n call in
      track_all prefix active calls n (<[Index call := tracked]> next) (changes ++ ch)
  end.

(** [range t.active]: the order is not specified, so that it is a parameter. *)
Section Order.
Context (order : list (Z * TrackedCall) → list (Z * TrackedCall)).

Definition ended (active next : gmap Z TrackedCall) : list Change :=
  (λ p, mkChange p.2 true) <$> filter (λ p, next !! p.1 = None) (order (map_to_list active)).

Definition applyCalls (t : Tracker) (calls : list Call) : list Change * Tracker :=
  let '(n, next', changes) := track_all (tprefix t) (active t) calls (next t) ∅ [] in
  (changes ++ ended (active t) next', mkTracker (tprefix t) n next').

Definition Apply (t : Tracker) (response : string) : option (list Change * Tracker) :=
  calls ← ParseCLCC response; Some (applyCalls t calls).

Definition by_index (a b : TrackedCall) : Prop := Index (tracked_call a) <= Index (tracked_call b).
#[global] Instance by_index_dec a b : Decision (by_index a b).
Proof. unfold by_index. apply _. Defined.

Definition Calls (t : Tracker) : list TrackedCall :=
  merge_sort by_index (snd <$> map_to_list (active t)).
End Order.

(** ** The requests of a client and a session

    [Enter] is [enter]: the context of the session and of the call, and the
    gate; [Lock] is [lock] of the client.  [ExecuteAT] is [ExecuteATContext]
    with its command.  An error is one of the two that the package names, or
    another. *)

Inductive voice_error := ErrSessionClosed | ErrCallChanged | OtherError.
#[global] Instance voice_error_eq_dec : EqDecision voice_error.
Proof. solve_decision. Defined.

Inductive request :=
  | Enter | Leave
  | Lock | Unlock
  | ExecuteAT (command : string)
  | SessionDone
  | WakePoll.

#[export] Instance voice_requests : Requests request := λ r,
  match r with
  | Enter | Lock => option voice_error
  | ExecuteAT _ => (string + voice_error)%type
  | SessionDone => bool
  | Leave | Unlock | WakePoll => unit
  end.

(** *** The client (client.go) *)

Definition query : string := "AT+CLCC".

Definition client_calls : prog request (list Call + voice_error) :=
  let? response := ask (ExecuteAT query) in
  Ret (match response with
       | inr e => inr e
       | inl response => match ParseCLCC response with Some calls => inl calls | None => inr OtherError end
       end).

Definition locked {A} (failed : voice_error → A) (body : prog request A) : prog request A :=
  let? e := ask Lock in
  match e with
  | Some e => Ret (failed e)
  | None => let? r := body in let? _ := ask Unlock in Ret r
  end.

Definition client_Calls : prog request (list Call + voice_error) := locked inr client_calls.

Definition dialCommand (number : string) : option string :=
  let digits := match number with
                | String a rest => if Ascii.eqb a "+"%char then rest else number
                | EmptyString => EmptyString
                end in
  if bool_decide (digits = EmptyString) then None
  else if negb (forallb is_digit (list_ascii_of_string digits)) then None
  else Some ("ATD" +:+ number +:+ ";")%string.

Definition issue (command : string) : prog request (option voice_error) :=
  let? r := ask (ExecuteAT command) in
  Ret (match r with inl _ => None | inr e => Some e end).

Definition client_Dial (number : string) : prog request (option voice_error) :=
  match dialCommand number with
  | None => Ret (Some OtherError)
  | Some command =>
      locked Some
        (let? calls := client_calls in
         match calls with
         | inr e => Ret (Some e)
         | inl calls => if bool_decide (voiceControlCalls calls ≠ []) then Ret (Some OtherError) else issue command
         end)
  end.

Definition control_command (answer : bool) (call : Call) : option string :=
  if answer then
    if negb (Inbound call) || bool_decide (State call ≠ Incoming) then None else Some "ATA"%string
  else Some "AT+CHUP"%string.

Definition client_control (expected : Call) (answer : bool) : prog request (option voice_error) :=
  locked Some
    (let? calls := client_calls in
     match calls with
     | inr e => Ret (Some e)
     | inl calls =>
         match voiceControlCalls calls with
         | [call] =>
             if bool_decide (Mode call ≠ 0) || Multiparty call || negb (sameCall expected call) then Ret (Some OtherError)
             else match control_command answer call with
                  | None => Ret (Some OtherError)
                  | Some command => issue command
                  end
         | _ => Ret (Some OtherError)
         end
     end).

(** *** The session (session.go, session_control.go, session_dtmf.go) *)

Record Update := mkUpdate { Changes : list Change; Accepted : bool; Attempted : bool }.
Definition no_update : Update := mkUpdate [] false false.

(** An operation returns an update, an error and the tracker it leaves. *)
Definition outcome : Type := Update * option voice_error * Tracker.

Section Session.
Context (order : list (Z * TrackedCall) → list (Z * TrackedCall)).

Definition refresh (t : Tracker) : prog request outcome :=
  let? calls := client_Calls in
  match calls with
  | inr e => Ret (no_update, Some e, t)
  | inl calls =>
      let? closed := ask SessionDone in
      if closed : bool then Ret (no_update, Some ErrSessionClosed, t)
      else let '(changes, t) := applyCalls order t calls in Ret (mkUpdate changes false false, None, t)
  end.

(** [enter], and the release that is deferred. *)
Definition entered (t : Tracker) (body : prog request outcome) : prog request outcome :=
  let? e := ask Enter in
  match e with
  | Some e => Ret (no_update, Some e, t)
  | None => let? r := body in let? _ := ask Leave in Ret r
  end.

Definition Refresh (t : Tracker) : prog request outcome := entered t (refresh t).

Definition voice_calls (t : Tracker) : list TrackedCall :=
  filter (λ c, establishedDataCall (tracked_call c) = false) (Calls t).

Definition containsCallID (calls : list TrackedCall) (id : string) : bool :=
  existsb (λ c, bool_decide (id ≠ EmptyString) && bool_decide (ID c = id)) calls.

Definition executeCommand (command : string) (update : Update) (t : Tracker) : prog request outcome :=
  let? r := ask (ExecuteAT command) in
  let? _ := ask WakePoll in
  Ret (match r with
       | inl _ => (mkUpdate (Changes update) true true, None, t)
       | inr e => (mkUpdate (Changes update) false true, Some e, t)
       end).

Definition Dial (number : string) (t : Tracker) : prog request outcome :=
  match dialCommand number with
  | None => Ret (no_update, Some OtherError, t)
  | Some command =>
      entered t
        (let? r := refresh t in
         let '(update, e, t) := r in
         match e with
         | Some _ => Ret r
         | None =>
             if bool_decide (voice_calls t ≠ []) then Ret (update, Some OtherError, t)
             else executeCommand command update t
         end)
  end.

(** What [control] and [DTMF] share: the call is known, it is still there after
    a fresh report, and [decide] gives the command for the voice calls. *)
Definition on_call (id : string) (choose : list TrackedCall → option string) (t : Tracker) : prog request outcome :=
  entered t
    (if negb (containsCallID (Calls t) id) then Ret (no_update, Some ErrCallChanged, t)
     else
       let? r := refresh t in
       let '(update, e, t) := r in
       match e with
       | Some _ => Ret r
       | None =>
           let calls := voice_calls t in
           if negb (containsCallID calls id) then Ret (update, Some ErrCallChanged, t)
           else match choose calls with
                | None => Ret (update, Some OtherError, t)
                | Some command => executeCommand command update t
                end
       end).

Definition control (id : string) (answer : bool) : Tracker → prog request outcome :=
  on_call id (λ calls,
    match calls with
    | [c] =>
        if bool_decide (Mode (tracked_call c) ≠ 0) || Multiparty (tracked_call c) then None
        else control_command answer (tracked_call c)
    | _ => None
    end).

Definition Answer (id : string) := control id true.
Definition Hangup (id : string) := control id false.

Definition dtmf_keys : string := "0123456789*#".
Definition dtmfDurationTenths : N := 3.

Definition dtmf_command (digit : string) : string :=
  ("AT+VTS=" +:+ String quote (digit +:+ String quote ("," +:+ pretty dtmfDurationTenths)))%string.

Definition DTMF (id digit : string) (t : Tracker) : prog request outcome :=
  match digit with
  | String a EmptyString =>
      if existsb (Ascii.eqb a) (list_ascii_of_string dtmf_keys) then
        on_call id (λ calls,
          match calls with
          | [c] =>
              if bool_decide (Mode (tracked_call c) ≠ 0) || Multiparty (tracked_call c) ||
                 bool_decide (State (tracked_call c) ≠ Active)
              then None else Some (dtmf_command digit)
          | _ => None
          end) t
      else Ret (no_update, Some OtherError, t)
  | _ => Ret (no_update, Some OtherError, t)
  end.
End Session.
