(* ===== verification/ModemVoiceProofs.v ===== *)
(** * Properties of the voice calls of a modem

    The changes that the tracker reports rebuild its state, an identifier is
    given to one call only, the printed report of calls is read back, and a
    session sends a command only for the call that a fresh report shows. *)

From S2P Require Import Prelude GoText SmsCodec SmsCodecProofs Lines Interaction ModemVoice.
From stdpp Require Import strings gmap sorting pretty.
From Stdlib Require Import Ascii String.

#[local] Open Scope Z_scope.

(** ** What the changes say

    An observer of the changes keeps the calls under their identifiers, and the
    identifiers of the calls that have ended.  It accepts a change only if a
    call that ends is one it knows, as it was last reported, and a call that
    goes on is the same call as before, and has not ended. *)
Definition observer : Type := gmap string Call * gset string.

Definition observe1 (s : observer) (c : Change) : option observer :=
  let '(known, dead) := s in
  let id := ID (changed c) in
  let call := tracked_call (changed c) in
  if Ended c then
    if bool_decide (known !! id = Some call) then Some (delete id known, {[id]} ∪ dead) else None
  else if bool_decide (id ∈ dead) then None
  else match known !! id with
       | Some previous => if sameCall previous call then Some (<[id := call]> known, dead) else None
       | None => Some (<[id := call]> known, dead)
       end.

Fixpoint observe (s : observer) (log : list Change) : option observer :=
  match log with
  | [] => Some s
  | c :: log => s ← observe1 s c; observe s log
  end.

Lemma observe_app s log log' : observe s (log ++ log') = (s ← observe s log; observe s log').
Proof. revert s. induction log as [|c log IH]; intros s; cbn; [done|]. destruct (observe1 s c); cbn; [apply IH|done]. Qed.

(** The calls of a state under their identifiers. *)
Definition by_id (m : gmap Z TrackedCall) : gmap string Call :=
  list_to_map ((λ p, (ID p.2, tracked_call p.2)) <$> map_to_list m).

(** ** The state of a tracker

    A call is kept under its index; its identifier has a number that was given
    out, no two calls have the same, and none is that of a call that ended. *)
Definition numbered (prefix : string) (n : Z) (id : string) : Prop := ∃ k, 0 < k <= n ∧ id = call_id prefix k.

Record calls_ok (prefix : string) (n : Z) (m : gmap Z TrackedCall) (dead : gset string) : Prop := {
  ok_counter : 0 <= n;
  ok_index i c : m !! i = Some c → Index (tracked_call c) = i;
  ok_number i c : m !! i = Some c → numbered prefix n (ID c);
  ok_alive i c : m !! i = Some c → ID c ∉ dead;
  ok_distinct i j c d : m !! i = Some c → m !! j = Some d → ID c = ID d → i = j;
  ok_dead id : id ∈ dead → numbered prefix n id }.

Lemma call_id_inj prefix n m : call_id prefix n = call_id prefix m → n = m.
Proof.
  intros Heq. unfold call_id in Heq. do 3 apply (inj _) in Heq.
  by apply (inj pretty) in Heq.
Qed.

Lemma numbered_fresh prefix n id : numbered prefix n id → id ≠ call_id prefix (n + 1).
Proof. intros (k & Hk & ->) He%call_id_inj. lia. Qed.

Lemma numbered_mono prefix n n' id : n <= n' → numbered prefix n id → numbered prefix n' id.
Proof. intros Hn (k & Hk & ->). exists k. split; [lia|done]. Qed.

Section ById.
Context (m : gmap Z TrackedCall).
Context (distinct : ∀ i j c d, m !! i = Some c → m !! j = Some d → ID c = ID d → i = j).

Lemma by_id_lookup id c : by_id m !! id = Some c ↔ ∃ i t, m !! i = Some t ∧ ID t = id ∧ tracked_call t = c.
Proof.
  unfold by_id. rewrite <-elem_of_list_to_map.
  - rewrite list_elem_of_fmap. split.
    + intros ([i t] & [= -> ->] & Hin%elem_of_map_to_list). by exists i, t.
    + intros (i & t & Hin & <- & <-). exists (i, t). split; [done|]. by apply elem_of_map_to_list.
  - rewrite <-list_fmap_compose. apply NoDup_fmap_2_strong; [|apply NoDup_map_to_list].
    intros [i c1] [j c2] Hi%elem_of_map_to_list Hj%elem_of_map_to_list Heq. cbn in Heq.
    assert (i = j) as -> by by eapply distinct. by simplify_eq.
Qed.

Lemma by_id_none id : (∀ i t, m !! i = Some t → ID t ≠ id) → by_id m !! id = None.
Proof.
  intros Hn. destruct (by_id m !! id) as [c|] eqn:E; [|done].
  apply by_id_lookup in E as (i & t & Hi & Hid & _). by destruct (Hn i t).
Qed.
End ById.

Lemma by_id_insert m i t :
  (∀ i j c d, m !! i = Some c → m !! j = Some d → ID c = ID d → i = j) →
  (∀ j d, m !! j = Some d → ID d = ID t → i = j) →
  (∀ c, m !! i = Some c → ID c = ID t) →
  by_id (<[i := t]> m) = <[ID t := tracked_call t]> (by_id m).
Proof.
  intros Hm Ht Hi. apply map_eq. intros id. apply option_eq. intros c.
  assert (Hm' : ∀ i0 j c d, <[i := t]> m !! i0 = Some c → <[i := t]> m !! j = Some d → ID c = ID d → i0 = j).
  { intros i0 j c0 d [[<- <-]|[? H0]]%lookup_insert_Some [[<- <-]|[? H1]]%lookup_insert_Some He; eauto.
    symmetry. eauto. }
  rewrite by_id_lookup by done. destruct (decide (id = ID t)) as [->|Hne].
  - rewrite lookup_insert_eq. split.
    + intros (j & d & [[<- <-]|[Hj Hd]]%lookup_insert_Some & He & <-); [done|]. by destruct Hj; eauto.
    + intros [= <-]. exists i, t. by rewrite lookup_insert_eq.
  - rewrite lookup_insert_ne by done. rewrite by_id_lookup by done. split.
    + intros (j & d & [[<- <-]|[Hj Hd]]%lookup_insert_Some & He & <-); [by destruct Hne|]. by exists j, d.
    + intros (j & d & Hd & <- & <-). exists j, d. rewrite lookup_insert_ne; [done|].
      intros <-. by destruct Hne; apply Hi.
Qed.

Lemma by_id_delete m i t :
  (∀ i j c d, m !! i = Some c → m !! j = Some d → ID c = ID d → i = j) →
  m !! i = Some t → by_id (delete i m) = delete (ID t) (by_id m).
Proof.
  intros Hm Hi. apply map_eq. intros id. apply option_eq. intros c.
  rewrite lookup_delete_Some, !by_id_lookup.
  - split.
    + intros (j & d & [Hj Hd]%lookup_delete_Some & <- & <-). split; [|by exists j, d].
      intros He. destruct Hj. by eapply Hm.
    + intros (Hne & j & d & Hd & <- & <-). exists j, d. split; [|done]. apply lookup_delete_Some. split; [|done].
      intros ->. naive_solver.
  - done.
  - intros i0 j c0 d [_ H0]%lookup_delete_Some [_ H1]%lookup_delete_Some. eauto.
Qed.

(** ** One report *)

(** A change to one index: the call keeps its identifier, or an old call ends
    and a new one begins. *)
Lemma sameCall_fill p call :
  sameCall p call = true → Number call = EmptyString →
  sameCall p (mkCall (Index call) (Inbound call) (State call) (Mode call) (Multiparty call) (Number p) (NumberType p)) = true.
Proof.
  unfold sameCall. cbn. destruct (_ && bool_decide (State call >= Dialing)); [done|].
  rewrite !andb_true_iff, !orb_true_iff. intros [? _] _. split; [done|]. right. by apply bool_decide_eq_true_2.
Qed.

Lemma sameCall_index p call : sameCall p call = true → Index p = Index call.
Proof.
  unfold sameCall. destruct (_ && bool_decide (State call >= Dialing)); [done|].
  rewrite !andb_true_iff. by intros [[[H%bool_decide_eq_true_1 _] _] _].
Qed.

Lemma u64_id n : 0 <= n < 2 ^ 64 → u64 n = n.
Proof. intros. unfold u64. by apply Z.mod_small. Qed.

(** A new call under an index that is free. *)
Lemma begin_call prefix n m dead call :
  calls_ok prefix n m dead → m !! Index call = None →
  let t := mkTracked (call_id prefix (n + 1)) call in
  observe1 (by_id m, dead) (mkChange t false) = Some (by_id (<[Index call := t]> m), dead) ∧
  calls_ok prefix (n + 1) (<[Index call := t]> m) dead.
Proof.
  intros Hok Hfree t.
  assert (Hfresh : ∀ j d, m !! j = Some d → ID d ≠ ID t).
  { intros j d Hd. apply numbered_fresh. by eapply ok_number. }
  split.
  - unfold observe1. cbn [changed Ended]. rewrite bool_decide_eq_false_2.
    2:{ intros Hd%(ok_dead _ _ _ _ Hok)%numbered_fresh. by apply Hd. }
    rewrite (by_id_none m) by (eauto using ok_distinct).
    rewrite by_id_insert; [done|by eapply ok_distinct| |by intros c; rewrite Hfree].
    intros j d Hd He. by destruct (Hfresh j d).
  - split.
    + pose proof (ok_counter _ _ _ _ Hok). lia.
    + intros i c [[<- <-]|[_ H]]%lookup_insert_Some; [done|by eapply ok_index].
    + intros i c [[<- <-]|[_ H]]%lookup_insert_Some.
      * exists (n + 1). pose proof (ok_counter _ _ _ _ Hok). split; [lia|done].
      * eapply numbered_mono; [|by eapply ok_number]. lia.
    + intros i c [[<- <-]|[_ H]]%lookup_insert_Some; [|by eapply ok_alive].
      intros Hd%(ok_dead _ _ _ _ Hok)%numbered_fresh. by apply Hd.
    + intros i j c d [[<- <-]|[? H0]]%lookup_insert_Some [[<- <-]|[? H1]]%lookup_insert_Some He; [done| | |].
      * by destruct (Hfresh j d).
      * by destruct (Hfresh i c).
      * by eapply ok_distinct.
    + intros id Hid. eapply numbered_mono; [|by eapply ok_dead]. lia.
Qed.

(** A call that ends. *)
Lemma end_call prefix n m dead i t :
  calls_ok prefix n m dead → m !! i = Some t →
  observe1 (by_id m, dead) (mkChange t true) = Some (by_id (delete i m), {[ID t]} ∪ dead) ∧
  calls_ok prefix n (delete i m) ({[ID t]} ∪ dead).
Proof.
  intros Hok Ht. split.
  - unfold observe1. cbn [changed Ended]. rewrite bool_decide_eq_true_2.
    2:{ apply by_id_lookup; [by eapply ok_distinct|]. by exists i, t. }
    rewrite (by_id_delete m i t); [done|by eapply ok_distinct|done].
  - split.
    + by eapply ok_counter.
    + intros j c [_ H]%lookup_delete_Some. by eapply ok_index.
    + intros j c [_ H]%lookup_delete_Some. by eapply ok_number.
    + intros j c [Hj H]%lookup_delete_Some [Hid%elem_of_singleton|Hd]%elem_of_union; [|by eapply ok_alive].
      by destruct Hj; eapply ok_distinct.
    + intros j k c d [_ H0]%lookup_delete_Some [_ H1]%lookup_delete_Some. by eapply ok_distinct.
    + intros id [->%elem_of_singleton|Hd]%elem_of_union; [by eapply ok_number|by eapply ok_dead].
Qed.

(** A call that goes on. *)
Lemma update_call prefix n m dead i t call :
  calls_ok prefix n m dead → m !! i = Some t → sameCall (tracked_call t) call = true →
  let t' := mkTracked (ID t) call in
  observe1 (by_id m, dead) (mkChange t' false) = Some (by_id (<[i := t']> m), dead) ∧
  calls_ok prefix n (<[i := t']> m) dead.
Proof.
  intros Hok Ht Hs t'. split.
  - unfold observe1. cbn [changed Ended ID t']. rewrite bool_decide_eq_false_2 by by eapply ok_alive.
    assert (E : by_id m !! ID t = Some (tracked_call t)).
    { apply by_id_lookup; [by eapply ok_distinct|]. by exists i, t. }
    rewrite E. change (tracked_call t') with call. rewrite Hs.
    rewrite by_id_insert; [done|by eapply ok_distinct| |].
    + intros j d Hd He. symmetry. by eapply ok_distinct.
    + intros c Hc. by simplify_eq.
  - split.
    + by eapply ok_counter.
    + intros j c [[<- <-]|[_ H]]%lookup_insert_Some; [|by eapply ok_index].
      cbn. rewrite <-(sameCall_index _ _ Hs). by eapply ok_index.
    + intros j c [[<- <-]|[_ H]]%lookup_insert_Some; [by eapply (ok_number _ _ _ _ Hok i t)|by eapply ok_number].
    + intros j c [[<- <-]|[_ H]]%lookup_insert_Some; [by eapply (ok_alive _ _ _ _ Hok i t)|by eapply ok_alive].
    + intros j k c d [[<- <-]|[? H0]]%lookup_insert_Some [[<- <-]|[? H1]]%lookup_insert_Some He; [done| | |].
      * by eapply (ok_distinct _ _ _ _ Hok i k t d).
      * by eapply (ok_distinct _ _ _ _ Hok j i c t).
      * by eapply ok_distinct.
    + by eapply ok_dead.
Qed.

Lemma track_step prefix n m dead old call t n' changes :
  calls_ok prefix n m dead → n + 1 < 2 ^ 64 → old !! Index call = m !! Index call →
  track prefix old n call = (t, n', changes) →
  ∃ dead', observe (by_id m, dead) changes = Some (by_id (<[Index call := t]> m), dead') ∧
    calls_ok prefix n' (<[Index call := t]> m) dead' ∧ n <= n' <= n + 1 ∧ Index (tracked_call t) = Index call.
Proof.
  intros Hok Hn Hold. unfold track. rewrite Hold. pose proof (ok_counter _ _ _ _ Hok).
  destruct (m !! Index call) as [p|] eqn:Hp.
  2:{ intros [= <- <- <-]. rewrite u64_id by lia. exists dead.
      destruct (begin_call prefix n m dead call Hok Hp) as [Hobs Hok']. cbn [app observe]. rewrite Hobs.
      split_and!; [done|done|lia|lia|done]. }
  destruct (sameCall (tracked_call p) call) eqn:Hs.
  - set (call' := if bool_decide (Number call = EmptyString) then _ else call).
    assert (Hs' : sameCall (tracked_call p) call' = true).
    { subst call'. case_bool_decide; [by apply sameCall_fill|done]. }
    assert (Hi : Index call' = Index call) by (subst call'; by case_bool_decide).
    intros [= <- <- <-]. exists dead.
    destruct (update_call prefix n m dead (Index call) p call' Hok Hp Hs') as [Hobs Hok'].
    case_bool_decide as Heq.
    + assert (mkTracked (ID p) call' = p) as Hp' by (destruct p; cbn in *; congruence).
      rewrite Hp'. rewrite insert_id by done. split_and!; [done|done|lia|lia|by rewrite Heq].
    + cbn [observe]. rewrite Hobs. split_and!; [done|done|lia|lia|done].
  - intros [= <- <- <-]. rewrite u64_id by lia. exists ({[ID p]} ∪ dead).
    destruct (end_call prefix n m dead (Index call) p Hok Hp) as [Hend Hok1].
    destruct (begin_call prefix n (delete (Index call) m) ({[ID p]} ∪ dead) call Hok1) as [Hobs Hok2];
      [by rewrite lookup_delete_eq|].
    cbn [app observe]. rewrite Hend. cbn [mbind option_bind]. rewrite Hobs. rewrite insert_delete_eq in Hok2 |- *.
    split_and!; [done|done|lia|lia|done].
Qed.

Lemma track_all_steps prefix old calls : ∀ n next dead changes log n' next',
  calls_ok prefix n (next ∪ old) dead → n + len calls < 2 ^ 64 →
  NoDup (Index <$> calls) → (∀ c, c ∈ calls → next !! Index c = None) →
  track_all prefix old calls n next changes = (n', next', log) →
  ∃ dead' log', log = changes ++ log' ∧
    observe (by_id (next ∪ old), dead) log' = Some (by_id (next' ∪ old), dead') ∧
    calls_ok prefix n' (next' ∪ old) dead' ∧ n <= n' <= n + len calls.
Proof.
  induction calls as [|call calls IH]; intros n next dead changes log n' next' Hok Hn Hnd Hfree.
  { intros [= <- <- <-]. exists dead, []. rewrite app_nil_r. change (len (@nil Call)) with 0; split_and!; [done|done|done|lia|lia]. }
  cbn [track_all]. destruct (track prefix old n call) as [[t n1] ch] eqn:Ht. intros Hall.
  rewrite len_cons in Hn. pose proof (len_nonneg calls).
  apply NoDup_cons in Hnd as [Hni Hnd].
  destruct (track_step prefix n (next ∪ old) dead old call t n1 ch Hok) as (dead1 & Hobs & Hok1 & Hn1 & Hidx); [lia| |done|].
  { rewrite lookup_union_r; [done|]. apply Hfree. left. }
  rewrite insert_union_l in Hobs, Hok1.
  assert (Hfree1 : ∀ c, c ∈ calls → <[Index call := t]> next !! Index c = None).
  { intros c Hc. rewrite lookup_insert_ne; [apply Hfree; by right|].
    intros He. apply Hni. rewrite He. by apply list_elem_of_fmap_2. }
  destruct (IH _ _ _ _ _ _ _ Hok1 ltac:(lia) Hnd Hfree1 Hall) as (dead2 & log' & -> & Hobs2 & Hok2 & Hn2).
  exists dead2, (ch ++ log')%list. rewrite app_assoc, observe_app, Hobs. cbn. rewrite len_cons.
  split_and!; [done|done|done|lia|lia].
Qed.

(** ** The calls that are no longer reported *)

Definition remove_all (keys : list Z) (m : gmap Z TrackedCall) : gmap Z TrackedCall := foldl (λ m i, delete i m) m keys.

Lemma lookup_remove_all keys m i :
  remove_all keys m !! i = if bool_decide (i ∈ keys) then None else m !! i.
Proof.
  unfold remove_all. revert m. induction keys as [|k keys IH]; intros m; cbn; [by case_bool_decide; [set_solver|]|].
  rewrite IH. destruct (decide (i = k)) as [->|Hne].
  - rewrite (bool_decide_eq_true_2 (k ∈ k :: keys)) by left. rewrite lookup_delete_eq. by case_bool_decide.
  - rewrite lookup_delete_ne by done. by rewrite (bool_decide_ext (i ∈ k :: keys) (i ∈ keys)) by set_solver.
Qed.

Lemma end_calls prefix n l : ∀ m dead,
  calls_ok prefix n m dead → NoDup l.*1 → (∀ p, p ∈ l → m !! p.1 = Some p.2) →
  ∃ dead', observe (by_id m, dead) ((λ p, mkChange p.2 true) <$> l) = Some (by_id (remove_all l.*1 m), dead') ∧
    calls_ok prefix n (remove_all l.*1 m) dead'.
Proof.
  induction l as [|[i t] l IH]; intros m dead Hok Hnd Hl; [by exists dead|].
  apply NoDup_cons in Hnd as [Hni Hnd]. cbn.
  destruct (end_call prefix n m dead i t Hok) as [Hobs Hok']; [by apply (Hl (i, t)); left|].
  destruct (IH _ _ Hok' Hnd) as (dead' & Hobs' & Hok'').
  { intros [j d] Hj. cbn. rewrite lookup_delete_ne; [by apply (Hl (j, d)); right|].
    intros ->. apply Hni, list_elem_of_fmap. by exists (j, d). }
  exists dead'. cbn in Hobs. by rewrite Hobs.
Qed.

(** ** A report has each index once *)

Lemma parse_lines_indexes lines : ∀ seen calls out,
  parse_lines lines seen calls = Some out → NoDup (Index <$> calls) → (∀ c, c ∈ calls → Index c ∈ seen) →
  NoDup (Index <$> out).
Proof.
  induction lines as [|raw lines IH]; intros seen calls out; cbn [parse_lines]; [by intros [= <-]|].
  destruct (_ || _ || _); [apply IH|]. destruct (cut_prefix clcc_prefix (TrimSpace raw)) as [text|]; [|done].
  destruct (parseCall (TrimSpace text)) as [call|]; cbn; [|done]. case_bool_decide as Hseen; [done|].
  intros Hp Hnd Hc. eapply IH; [exact Hp| |].
  - rewrite fmap_app. apply NoDup_app. split_and!; [done| |apply NoDup_singleton].
    intros i Hi ->%list_elem_of_singleton. apply list_elem_of_fmap in Hi as (c & Hic & Hin).
    apply Hseen. rewrite Hic. by apply Hc.
  - intros c [Hin| ->%list_elem_of_singleton]%elem_of_app; [right; by apply Hc|left].
Qed.

Lemma ParseCLCC_indexes response calls : ParseCLCC response = Some calls → NoDup (Index <$> calls).
Proof. intros H. eapply parse_lines_indexes; [exact H|constructor|set_solver]. Qed.

Section Order.
Context (order : list (Z * TrackedCall) → list (Z * TrackedCall)) (Horder : ∀ l, order l ≡ₚ l).

Lemma track_all_indexes prefix old calls : ∀ n next changes n' next' log,
  track_all prefix old calls n next changes = (n', next', log) →
  ∀ i, is_Some (next' !! i) ↔ is_Some (next !! i) ∨ i ∈ Index <$> calls.
Proof.
  induction calls as [|call calls IH]; intros n next changes n' next' log; cbn [track_all].
  { intros [= <- <- <-] i. set_solver. }
  destruct (track prefix old n call) as [[t n1] ch]. intros H i. rewrite (IH _ _ _ _ _ _ H i).
  rewrite fmap_cons, elem_of_cons, lookup_insert_is_Some. destruct (decide (i = Index call)); naive_solver.
Qed.

(** A report of calls with distinct indexes. *)
Lemma applyCalls_ok t calls dead changes t' :
  calls_ok (tprefix t) (next t) (active t) dead → next t + len calls < 2 ^ 64 → NoDup (Index <$> calls) →
  applyCalls order t calls = (changes, t') →
  ∃ dead', observe (by_id (active t), dead) changes = Some (by_id (active t'), dead') ∧
    calls_ok (tprefix t') (next t') (active t') dead' ∧ tprefix t' = tprefix t ∧
    next t <= next t' <= next t + len calls ∧
    ∀ i, is_Some (active t' !! i) ↔ i ∈ Index <$> calls.
Proof.
  intros Hok Hn Hnd. unfold applyCalls.
  destruct (track_all (tprefix t) (active t) calls (next t) ∅ []) as [[n next'] log] eqn:Hall.
  intros [= <- <-]. cbn.
  assert (Hok0 : calls_ok (tprefix t) (next t) (∅ ∪ active t) dead) by (by rewrite (left_id_L ∅ (∪))).
  destruct (track_all_steps _ _ _ _ _ _ _ _ _ _ Hok0 Hn Hnd (λ c _, lookup_empty _) Hall) as (dead1 & log' & -> & Hobs & Hok1 & Hn1).
  rewrite (left_id_L ∅ (∪)) in Hobs. cbn [app].
  set (gone := filter (λ p, next' !! p.1 = None) (order (map_to_list (active t)))).
  assert (Hgone : ∀ i c, (i, c) ∈ gone ↔ next' !! i = None ∧ active t !! i = Some c).
  { intros i c. subst gone. rewrite list_elem_of_filter, (Horder _). by rewrite elem_of_map_to_list. }
  assert (Hfst : NoDup gone.*1).
  { apply NoDup_fmap_2_strong.
    - intros [i c] [j d] [_ Hc]%Hgone [_ Hd]%Hgone Heq. cbn in Heq. subst. by rewrite Hc in Hd; simplify_eq.
    - apply NoDup_filter. rewrite (Horder _). apply NoDup_map_to_list. }
  destruct (end_calls (tprefix t) n gone (next' ∪ active t) dead1 Hok1 Hfst) as (dead2 & Hobs2 & Hok2).
  { intros [i c] [Hi Hc]%Hgone. cbn. by rewrite lookup_union_r. }
  assert (Hfinal : remove_all gone.*1 (next' ∪ active t) = next').
  { apply map_eq. intros i. rewrite lookup_remove_all. case_bool_decide as Hi.
    - apply list_elem_of_fmap in Hi as ([j c] & -> & [Hj _]%Hgone). done.
    - destruct (next' !! i) as [c|] eqn:E; [by apply lookup_union_Some_l|].
      rewrite lookup_union_r by done. destruct (active t !! i) as [c|] eqn:Ea; [|done].
      destruct Hi. apply list_elem_of_fmap. exists (i, c). split; [done|]. by apply Hgone. }
  rewrite Hfinal in Hobs2, Hok2. exists dead2. unfold ended. fold gone.
  rewrite observe_app, Hobs. cbn. rewrite Hobs2. split_and!; [done|done|done|lia|lia|].
  intros i. rewrite (track_all_indexes _ _ _ _ _ _ _ _ _ Hall i), lookup_empty. rewrite is_Some_alt. naive_solver.
Qed.

(** ** Sequences of reports *)

(** Reports in sequence; one that cannot be read changes nothing. *)
Fixpoint apply_all (t : Tracker) (responses : list string) : list Change * Tracker :=
  match responses with
  | [] => ([], t)
  | r :: responses =>
      match Apply order t r with
      | None => apply_all t responses
      | Some (changes, t) => let '(log, t) := apply_all t responses in (changes ++ log, t)
      end
  end.

Fixpoint reported (responses : list string) : Z :=
  match responses with
  | [] => 0
  | r :: responses => match ParseCLCC r with Some calls => len calls | None => 0 end + reported responses
  end.

Lemma reported_nonneg responses : 0 <= reported responses.
Proof.
  induction responses as [|r responses IH]; cbn; [lia|]. destruct (ParseCLCC r) as [calls|]; [|lia].
  pose proof (len_nonneg calls). lia.
Qed.

Lemma apply_all_ok responses : ∀ t dead log t',
  calls_ok (tprefix t) (next t) (active t) dead → next t + reported responses < 2 ^ 64 →
  apply_all t responses = (log, t') →
  ∃ dead', observe (by_id (active t), dead) log = Some (by_id (active t'), dead').
Proof.
  induction responses as [|r responses IH]; intros t dead log t' Hok Hn; cbn.
  { intros [= <- <-]. by exists dead. }
  cbn in Hn. pose proof (reported_nonneg responses). unfold Apply.
  destruct (ParseCLCC r) as [calls|] eqn:Hr; cbn; [|apply IH; [done|lia]].
  destruct (applyCalls order t calls) as [changes t1] eqn:Ha.
  destruct (applyCalls_ok t calls dead changes t1 Hok ltac:(lia) (ParseCLCC_indexes _ _ Hr) Ha)
    as (dead1 & Hobs & Hok1 & _ & Hn1 & _).
  destruct (apply_all t1 responses) as [log1 t2] eqn:Hrest. intros [= <- <-].
  destruct (IH t1 dead1 log1 t2 Hok1 ltac:(lia) Hrest) as (dead2 & Hobs2).
  exists dead2. by rewrite observe_app, Hobs.
Qed.

(** C29: the changes that a tracker reports tell all, and an identifier stands for
    one call.  Over any sequence of reports from the modem, readable or not, in
    whatever order the calls of a map are visited: an observer of the changes
    alone ends up with the calls of the tracker; it never meets an end of a
    call it does not know as it was last reported, a call that goes on under an
    identifier is the same call as before, and an identifier whose call has
    ended never comes back. *)
Theorem changes_tell_all uuid responses :
  reported responses < 2 ^ 64 →
  let '(log, t) := apply_all (NewTracker uuid) responses in
  ∃ dead, observe (∅, ∅) log = Some (by_id (active t), dead).
Proof.
  intros Hn. destruct (apply_all (NewTracker uuid) responses) as [log t] eqn:Ha.
  apply (apply_all_ok responses (NewTracker uuid) ∅ log t); [|cbn; lia|done].
  split; cbn; [lia|set_solver..].
Qed.
End Order.

(** ** The commands of a session

    A monitor of the gate and of the commands: a command is sent between
    [Enter] and [Leave] only. *)
Definition gate_state : Type := bool * list (string * (string + voice_error)).

Definition gate_step (s : gate_state) (x : exchange request) : option gate_state :=
  let '(inside, sent) := s in
  let 'mkExchange c r := x in
  match c return answer c → option gate_state with
  | Enter => λ r, if inside then None else Some (bool_decide (r = None), sent)
  | Leave => λ _, if inside then Some (false, sent) else None
  | ExecuteAT command => λ r, if inside then Some (true, (sent ++ [(command, r)])%list) else None
  | _ => λ _, Some s
  end r.

Inductive operation :=
  | OpRefresh | OpDial (number : string) | OpAnswer (id : string) | OpHangup (id : string) | OpDTMF (id digit : string).

Section Session.
Context (order : list (Z * TrackedCall) → list (Z * TrackedCall)).

Definition run (op : operation) (t : Tracker) : prog request outcome :=
  match op with
  | OpRefresh => Refresh order t
  | OpDial number => Dial order number t
  | OpAnswer id => Answer order id t
  | OpHangup id => Hangup order id t
  | OpDTMF id digit => DTMF order id digit t
  end.

Definition known (t : Tracker) (id : string) : Prop := id ≠ EmptyString ∧ ∃ c, c ∈ Calls t ∧ ID c = id.

(** The only voice call is that of [id], and [p] holds of it. *)
Definition only_call (t : Tracker) (id : string) (p : Call → Prop) : Prop :=
  ∃ c, voice_calls t = [mkTracked id c] ∧ Mode c = 0 ∧ Multiparty c = false ∧ p c.

(** When an operation may send a command, [t] and [t'] being the tracker before
    and after the report that it asked for. *)
Definition permitted (op : operation) (t t' : Tracker) (command : string) : Prop :=
  match op with
  | OpRefresh => False
  | OpDial number => dialCommand number = Some command ∧ voice_calls t' = []
  | OpAnswer id => command = "ATA"%string ∧ known t id ∧ only_call t' id (λ c, Inbound c = true ∧ State c = Incoming)
  | OpHangup id => command = "AT+CHUP"%string ∧ known t id ∧ only_call t' id (λ _, True)
  | OpDTMF id digit =>
      (∃ a, digit = String a EmptyString ∧ a ∈ list_ascii_of_string dtmf_keys) ∧
      command = dtmf_command digit ∧ known t id ∧ only_call t' id (λ c, State c = Active)
  end.

(** What was sent, against what an operation on [t] returns. *)
Definition accounted (op : operation) (t : Tracker) (r : outcome) (sent : list (string * (string + voice_error))) : Prop :=
  let '(u, e, t') := r in
  let rejected := u = no_update ∧ e ≠ None ∧ t' = t in
  let reported response := ∃ calls, ParseCLCC response = Some calls ∧ applyCalls order t calls = (Changes u, t') in
  match sent with
  | [] => rejected
  | [(q, a)] =>
      q = query ∧
      (rejected ∨ ∃ response, a = inl response ∧ reported response ∧ Attempted u = false ∧ Accepted u = false ∧
         (e = None → op = OpRefresh))
  | [(q, a); (command, b)] =>
      q = query ∧ permitted op t t' command ∧ (∃ response, a = inl response ∧ reported response) ∧
      Attempted u = true ∧
      match b with inl _ => Accepted u = true ∧ e = None | inr x => Accepted u = false ∧ e = Some x end
  | _ => False
  end.

Notation sends P p Q := (triple gate_step P p Q).

(** What a report leaves: an error, or the tracker after it. *)
Definition refreshed (t : Tracker) (r : outcome) (s : gate_state) : Prop :=
  let '(u, e, t') := r in
  s.1 = true ∧
  ((e ≠ None ∧ u = no_update ∧ t' = t ∧ (s.2 = [] ∨ ∃ a, s.2 = [(query, a)])) ∨
   (e = None ∧ Attempted u = false ∧ Accepted u = false ∧
    ∃ response calls, s.2 = [(query, inl response)] ∧ ParseCLCC response = Some calls ∧
      applyCalls order t calls = (Changes u, t'))).

Lemma quiet c s : (∀ r, gate_step s (mkExchange c r) = Some s) → sends (eq s) (ask c) (λ _, eq s).
Proof. intros Hc. apply triple_ask. intros s' r <-. exists s. by rewrite Hc. Qed.

Lemma execute_sends command sent :
  sends (eq (true, sent)) (ask (ExecuteAT command)) (λ r, eq (true, (sent ++ [(command, r)])%list)).
Proof. apply triple_ask. intros s r <-. by eexists. Qed.

Definition read_calls (r : list Call + voice_error) (s : gate_state) : Prop :=
  s.1 = true ∧
  match r with
  | inr _ => s.2 = [] ∨ ∃ a, s.2 = [(query, a)]
  | inl calls => ∃ response, s.2 = [(query, inl response)] ∧ ParseCLCC response = Some calls
  end.

Lemma client_Calls_sends : sends (eq (true, [])) client_Calls read_calls.
Proof.
  unfold client_Calls, locked. eapply triple_bind; [by apply quiet|]. intros [e|].
  { apply triple_ret. intros s <-. split; [done|by left]. }
  eapply triple_bind with (R := read_calls).
  - eapply triple_bind; [apply (execute_sends query [])|]. intros response. apply triple_ret. intros s <-.
    split; [done|]. destruct response as [response|e]; [|right; by exists (inr e)].
    destruct (ParseCLCC response) as [calls|] eqn:Hp; [by exists response|right; by exists (inl response)].
  - intros r. eapply triple_bind with (R := λ _, read_calls r); [|intros u; by apply triple_ret].
    apply triple_ask. intros s u Hs. exists s. by destruct s.
Qed.

Lemma refresh_sends t : sends (eq (true, [])) (refresh order t) (refreshed t).
Proof.
  unfold refresh. eapply triple_bind; [apply client_Calls_sends|]. intros [calls|e].
  2:{ apply triple_ret. intros s [H1 H2]. split; [done|]. left. by split_and!. }
  eapply triple_bind with (R := λ _ s, read_calls (inl calls) s).
  { apply triple_ask. intros s r Hs. exists s. by destruct s. }
  intros [|].
  - apply triple_ret. intros s (H1 & response & H2 & H3). split; [done|]. left.
    split_and!; [done|done|done|]. right. by exists (inl response).
  - destruct (applyCalls order t calls) as [changes t'] eqn:Ha. apply triple_ret.
    intros s (H1 & response & H2 & H3). split; [done|]. right. split_and!; [done|done|done|].
    by exists response, calls.
Qed.

Definition outcome_sent (op : operation) (t : Tracker) (r : outcome) (s : gate_state) : Prop :=
  s.1 = true ∧ accounted op t r s.2.

(** An error after the report, and nothing sent. *)
Lemma refreshed_rejected op t u e t' e' s :
  refreshed t (u, e, t') s → (e = None → e' = None → op = OpRefresh) → (e ≠ None → e' = e) → outcome_sent op t (u, e', t') s.
Proof.
  destruct s as [inside sent]. intros [H1 H2] Hn He. split; [done|]. cbn in *.
  destruct H2 as [(H3 & -> & -> & [->|[a ->]])|(-> & H4 & H5 & response & calls & -> & Hp & Ha)].
  - rewrite He by done. by split_and!.
  - rewrite He by done. split; [done|]. left. by split_and!.
  - split; [done|]. right. exists response. split_and!; [done|by exists calls|done|done|auto].
Qed.

Definition sent_on (t : Tracker) (u : Update) (t' : Tracker) (command : string) (r : string + voice_error) (s : gate_state) : Prop :=
  ∃ sent, refreshed t (u, None, t') (true, sent) ∧ s = (true, (sent ++ [(command, r)])%list).

Lemma executeCommand_sends op t u t' command :
  permitted op t t' command →
  sends (refreshed t (u, None, t')) (executeCommand command u t') (outcome_sent op t).
Proof.
  intros Hp. unfold executeCommand.
  eapply (triple_bind gate_step _ (ask (ExecuteAT command)) _ (sent_on t u t' command : answer (ExecuteAT command) → gate_state → Prop)).
  { apply triple_ask. intros [inside sent] r Hs. pose proof Hs as [H1 _]. cbn in H1. subst. by eexists; split; [|exists sent]. }
  intros r. eapply triple_bind with (R := λ _, sent_on t u t' command r).
  { apply triple_ask. intros s x Hs. exists s. by destruct s. }
  intros x. apply triple_ret. intros s (sent & [_ [(? & _)|(_ & _ & _ & response & calls & Hsent & Hparse & Ha)]] & ->); [done|].
  cbn in Hsent. subst sent. split; [done|]. cbn [app accounted].
  destruct r as [ok|e]; cbn; split_and!; try done; exists response; (split; [done|by exists calls]).
Qed.

Lemma entered_sends op t body :
  sends (eq (true, [])) body (outcome_sent op t) →
  sends (eq (false, [])) (entered t body) (λ r s, s.1 = false ∧ accounted op t r s.2).
Proof.
  intros Hb. unfold entered.
  eapply (triple_bind gate_step _ (ask Enter) _ ((λ e s, s = (bool_decide (e = None), [])) : answer Enter → gate_state → Prop)).
  { apply triple_ask. intros s r <-. by eexists. }
  intros [e|].
  - apply triple_ret. intros s ->. by split_and!.
  - eapply triple_bind with (R := outcome_sent op t); [intros s tr a -> Hx; by eapply Hb|]. intros r.
    eapply triple_bind with (R := λ _ s, s.1 = false ∧ accounted op t r s.2); [|intros u; by apply triple_ret].
    apply triple_ask. intros [inside sent] u [H1 H2]. cbn in H1. subst. by exists (false, sent).
Qed.

Lemma containsCallID_known calls id :
  containsCallID calls id = true → id ≠ EmptyString ∧ ∃ c, c ∈ calls ∧ ID c = id.
Proof.
  unfold containsCallID. rewrite existsb_exists. setoid_rewrite <-list_elem_of_In.
  intros (c & Hc & [H1%bool_decide_eq_true_1 H2%bool_decide_eq_true_1]%andb_true_iff). split; [done|]. by exists c.
Qed.

(** An operation on a call, by what it may choose for the voice calls. *)
Lemma on_call_sends op t id choose :
  (∀ t' c command, known t id → c ∈ voice_calls t' → ID c = id → choose (voice_calls t') = Some command →
     permitted op t t' command) →
  sends (eq (false, [])) (on_call order id choose t) (λ r s, s.1 = false ∧ accounted op t r s.2).
Proof.
  intros Hchoose. apply entered_sends.
  destruct (containsCallID (Calls t) id) eqn:Hk; cbn [negb].
  2:{ apply triple_ret. intros s <-. by split_and!. }
  apply containsCallID_known in Hk.
  eapply triple_bind; [apply refresh_sends|]. intros [[u [e|]] t'].
  { apply triple_ret. intros s Hs. by eapply refreshed_rejected. }
  destruct (containsCallID (voice_calls t') id) eqn:Hc; cbn [negb].
  2:{ apply triple_ret. intros s Hs. by eapply refreshed_rejected. }
  apply containsCallID_known in Hc as (_ & c & Hin & Hid).
  destruct (choose (voice_calls t')) as [command|] eqn:Hch.
  2:{ apply triple_ret. intros s Hs. by eapply refreshed_rejected. }
  apply executeCommand_sends. by eapply Hchoose.
Qed.

(** The shape that the choices of [control] and [DTMF] have. *)
Lemma only_call_intro t' id c0 c (p : Call → Prop) :
  voice_calls t' = [c0] → c ∈ voice_calls t' → ID c = id →
  (bool_decide (Mode (tracked_call c0) ≠ 0) || Multiparty (tracked_call c0)) = false → p (tracked_call c0) →
  only_call t' id p.
Proof.
  intros Hv Hin Hid [H1 H2]%orb_false_iff Hp. rewrite Hv in Hin. apply list_elem_of_singleton in Hin as ->.
  exists (tracked_call c0). rewrite Hv. apply bool_decide_eq_false_1 in H1. split_and!; [|lia|done|done].
  destruct c0. cbn in *. by subst.
Qed.

(** C30: a session commands only the call that a fresh report shows.  In every run
    of an operation, whatever the modem and the contexts answer: the commands
    are sent between entering and leaving the gate, which is left; a report is
    asked for first, and one command follows at most, never twice.  ATD is sent
    only when the report has no voice call; ATA, AT+CHUP and the keys only for
    an identifier that was known, when the report still has that call under it
    and no other voice call, a voice call that is not a conference, incoming
    for ATA and active for the keys.  The update carries the changes of the
    report even when the command fails; it is attempted exactly when the
    command was sent, and accepted exactly when it was answered. *)
Theorem session_commands op t tr r :
  exec (run op t) tr r →
  ∃ sent, watch gate_step (false, []) tr = Some (false, sent) ∧ accounted op t r sent.
Proof.
  intros Hx.
  assert (H : sends (eq (false, [])) (run op t) (λ r s, s.1 = false ∧ accounted op t r s.2)).
  2:{ destruct (H _ _ _ eq_refl Hx) as ([inside sent] & Hw & Hi & Ha). cbn in *. subst. by exists sent. }
  destruct op as [|number|id|id|id digit]; cbn [run].
  - apply entered_sends. eapply triple_conseq; [apply refresh_sends|done|].
    intros [[u e] t'] s Hs. by eapply refreshed_rejected.
  - unfold Dial. destruct (dialCommand number) as [command|] eqn:Hd.
    2:{ apply triple_ret. intros s <-. by split_and!. }
    apply entered_sends. eapply triple_bind; [apply refresh_sends|]. intros [[u [e|]] t'].
    { apply triple_ret. intros s Hs. by eapply refreshed_rejected. }
    case_bool_decide as Hv.
    { apply triple_ret. intros s Hs. by eapply refreshed_rejected. }
    apply executeCommand_sends. split; [done|]. by destruct (voice_calls t').
  - apply on_call_sends. intros t' c command Hk Hin Hid Hch.
    destruct (voice_calls t') as [|c0 [|]] eqn:Hv; try done.
    destruct (bool_decide _ || _) eqn:Hm; [done|]. unfold control_command in Hch.
    destruct (negb _ || _) eqn:Hi; [done|]. injection Hch as <-.
    apply orb_false_iff in Hi as [H1%negb_false_iff H2%bool_decide_eq_false_1].
    split_and!; [done|done|]. rewrite <-Hv in Hin. eapply only_call_intro; [done|done|done|done|].
    split; [done|]. destruct (decide (State (tracked_call c0) = Incoming)); [done|contradiction].
  - apply on_call_sends. intros t' c command Hk Hin Hid Hch.
    destruct (voice_calls t') as [|c0 [|]] eqn:Hv; try done.
    destruct (bool_decide _ || _) eqn:Hm; [done|]. injection Hch as <-.
    split_and!; [done|done|]. rewrite <-Hv in Hin. by eapply only_call_intro.
  - unfold DTMF. destruct digit as [|a [|b digit]]; [apply triple_ret; intros s <-; by split_and!| |apply triple_ret; intros s <-; by split_and!].
    destruct (existsb _ _) eqn:Ha; [|apply triple_ret; intros s <-; by split_and!].
    apply on_call_sends. intros t' c command Hk Hin Hid Hch.
    destruct (voice_calls t') as [|c0 [|]] eqn:Hv; try done.
    destruct (bool_decide _ || _ || _) eqn:Hm; [done|]. injection Hch as <-.
    apply orb_false_iff in Hm as [Hm H2%bool_decide_eq_false_1].
    apply existsb_exists in Ha as (b & Hb & ->%Ascii.eqb_eq). apply list_elem_of_In in Hb.
    split_and!; [by exists b|done|done|]. rewrite <-Hv in Hin. eapply only_call_intro; [done|done|done|done|].
    cbn. destruct (decide (State (tracked_call c0) = Active)); [done|contradiction].
Qed.
End Session.

(** ** Reading the report of calls *)

Lemma unquoted_comma f rest :
  free_of ","%char f → free_of quote f → unquoted (f +:+ String "," rest) = Some (f, Some rest).
Proof.
  induction f as [|a f IH]; [done|]. intros [Hc Hc']%Forall_cons [Hq Hq']%Forall_cons.
  rewrite append_cons. cbn [unquoted]. by rewrite !ascii_eqb_neq, IH by done.
Qed.

Lemma unquoted_end f : free_of ","%char f → free_of quote f → unquoted f = Some (f, None).
Proof.
  induction f as [|a f IH]; [done|]. intros [Hc Hc']%Forall_cons [Hq Hq']%Forall_cons.
  cbn [unquoted]. by rewrite !ascii_eqb_neq, IH by done.
Qed.

Lemma quoted_comma f rest : free_of quote f → quoted (f +:+ String quote (String "," rest)) = Some (f, Some rest).
Proof.
  induction f as [|a f IH]; [done|]. intros [Hq Hq']%Forall_cons.
  rewrite append_cons. cbn [quoted]. by rewrite ascii_eqb_neq, IH by done.
Qed.

Lemma csv_digits fuel s n rest :
  decimal_text s n → csv_fields (S fuel) (s +:+ String "," rest) = cons s <$> csv_fields fuel rest.
Proof.
  intros Hs. pose proof (digits_free s n ","%char Hs eq_refl) as Hc. pose proof (digits_free s n quote Hs eq_refl) as Hq.
  cbn [csv_fields]. destruct s as [|a s]; [by destruct Hs|]. destruct Hs as (_ & Hd & _). apply Forall_inv in Hd as Ha.
  rewrite append_cons, TrimLeft_visible by by apply digit_visible.
  rewrite ascii_eqb_neq by by apply Forall_inv in Hq. rewrite <-append_cons, unquoted_comma by done. cbn.
  by destruct (csv_fields fuel rest).
Qed.

Lemma csv_last fuel s n : decimal_text s n → csv_fields (S fuel) s = Some [s].
Proof.
  intros Hs. pose proof (digits_free s n ","%char Hs eq_refl) as Hc. pose proof (digits_free s n quote Hs eq_refl) as Hq.
  cbn [csv_fields]. destruct s as [|a s]; [by destruct Hs|]. destruct Hs as (_ & Hd & _). apply Forall_inv in Hd as Ha.
  rewrite TrimLeft_visible by by apply digit_visible.
  rewrite ascii_eqb_neq by by apply Forall_inv in Hq. by rewrite unquoted_end.
Qed.

Lemma csv_quoted fuel f rest :
  free_of quote f → csv_fields (S fuel) (String quote (f +:+ String quote (String "," rest))) = cons f <$> csv_fields fuel rest.
Proof.
  intros Hf. cbn [csv_fields]. rewrite TrimLeft_visible by done. rewrite Ascii.eqb_refl, quoted_comma by done.
  cbn. by destruct (csv_fields fuel rest).
Qed.

(** A line of the report, its numbers as texts, and the call that it shows. *)
Record printed := mkPrinted {
  p_index : string; p_dir : string; p_stat : string; p_mode : string; p_mpty : string; p_number : string; p_type : string }.

Definition fields_of (p : printed) : string :=
  (p_index p +:+ String "," (p_dir p +:+ String "," (p_stat p +:+ String "," (p_mode p +:+ String "," (p_mpty p +:+
   String "," (String quote (p_number p +:+ String quote (String "," (p_type p)))))))))%string.
Definition line_of (p : printed) : string := (clcc_prefix +:+ String " " (fields_of p))%string.

Definition flag (b : bool) : Z := if b then 1 else 0.

Definition shows (p : printed) (c : Call) : Prop :=
  decimal_text (p_index p) (Index c) ∧ decimal_text (p_dir p) (flag (Inbound c)) ∧ decimal_text (p_stat p) (State c) ∧
  decimal_text (p_mode p) (Mode c) ∧ decimal_text (p_mpty p) (flag (Multiparty c)) ∧ decimal_text (p_type p) (NumberType c) ∧
  Forall (λ x, free_of x (p_number p)) [quote; ascii_of_nat 10; ascii_of_nat 13] ∧
  0 < Index c ∧ Active <= State c <= Waiting ∧ Mode c ∈ [0; 1; 2; 9] ∧ 0 <= NumberType c <= 255 ∧
  Number c = (if bool_decide (NumberType c = 145) && bool_decide (p_number p ≠ EmptyString) && negb (HasPrefix (p_number p) "+")
              then ("+" +:+ p_number p)%string else p_number p).

Lemma slen_app s t : String.length (s +:+ t) = (String.length s + String.length t)%nat.
Proof. induction s as [|a s IH]; [by rewrite append_nil|]. rewrite append_cons. cbn. by rewrite IH. Qed.

Lemma parseCall_shows p c : shows p c → parseCall (fields_of p) = Some c.
Proof.
  intros (H0 & H1 & H2 & H3 & H4 & H6 & Hn & Hi & Hs & Hm & Ht & Hnum).
  apply Forall_cons in Hn as [Hq _].
  assert (Hcsv : csv_read (fields_of p) = Some [p_index p; p_dir p; p_stat p; p_mode p; p_mpty p; p_number p; p_type p]).
  { unfold csv_read, fields_of. rewrite bool_decide_eq_false_2.
    2:{ destruct (p_index p) eqn:E; [by destruct H0|]. by rewrite append_cons. }
    set (line := (p_index p +:+ _)%string). assert (Hlen : (7 <= S (String.length line))%nat).
    { subst line. repeat (rewrite slen_app; cbn [String.length]). lia. }
    destruct (String.length line) as [|[|[|[|[|[|k]]]]]]; try lia. subst line.
    rewrite (csv_digits _ _ _ _ H0), (csv_digits _ _ _ _ H1), (csv_digits _ _ _ _ H2), (csv_digits _ _ _ _ H3), (csv_digits _ _ _ _ H4).
    by rewrite csv_quoted, (csv_last _ _ _ H6) by done. }
  unfold parseCall. rewrite Hcsv. cbn [mbind option_bind List.length bool_decide]. unfold field.
  cbn [nth]. rewrite (Atoi_decimal _ _ H0), (Atoi_decimal _ _ H1), (Atoi_decimal _ _ H2), (Atoi_decimal _ _ H3), (Atoi_decimal _ _ H4), (Atoi_decimal _ _ H6).
  cbn [mbind option_bind].
  unfold Active, Waiting in *. rewrite <-Hnum.
  assert (Hmode : (bool_decide (Mode c ≠ 0) && bool_decide (Mode c ≠ 1) && bool_decide (Mode c ≠ 2) && bool_decide (Mode c ≠ 9)) = false).
  { apply list_elem_of_In in Hm. by destruct Hm as [<-|[<-|[<-|[<-|[]]]]]. }
  rewrite Hmode. rewrite (bool_decide_eq_false_2 (Index c ≤ 0)), (bool_decide_eq_false_2 (State c < 0)),
    (bool_decide_eq_false_2 (State c > 5)), (bool_decide_eq_false_2 (NumberType c < 0)),
    (bool_decide_eq_false_2 (NumberType c > 255)) by lia.
  by destruct c as [ix [] st md [] nm ty].
Qed.

(** *** Lines *)

(** A report: lines of calls with distinct indexes among lines that say
    nothing. *)
Inductive report : list string → list Call → Prop :=
  | report_end : report [] []
  | report_skip l lines calls : l ∈ [EmptyString; "OK"; "AT+CLCC"]%string → report lines calls → report (l :: lines) calls
  | report_call p c lines calls : shows p c → report lines calls → report (line_of p :: lines) (c :: calls).

Lemma fields_last p c : shows p c → ends_visible (fields_of p).
Proof.
  intros (_ & _ & _ & _ & _ & H6 & _). apply decimal_ends in H6. unfold fields_of.
  by repeat (apply ends_visible_app || apply ends_visible_cons).
Qed.

Lemma fields_first p c : shows p c → ∃ a t, fields_of p = String a t ∧ visible a = true.
Proof.
  intros [(Hne & Hd & _) _]. unfold fields_of. destruct (p_index p) as [|a s]; [done|]. rewrite append_cons.
  eexists _, _. split; [done|]. apply digit_visible. by apply Forall_inv in Hd.
Qed.

Lemma line_trimmed p c : shows p c →
  TrimSpace (line_of p) = line_of p ∧ cut_prefix clcc_prefix (line_of p) = Some (String " " (fields_of p)) ∧
  TrimSpace (String " " (fields_of p)) = fields_of p.
Proof.
  intros H. pose proof (fields_last p c H) as Hl. split_and!.
  - unfold line_of. apply TrimSpace_ends; [done|]. by repeat apply ends_visible_cons.
  - done.
  - destruct (fields_first p c H) as (a & t & Ht & Ha). rewrite Ht in *. by apply TrimSpace_one.
Qed.

Lemma parse_lines_report lines calls : report lines calls →
  ∀ seen acc, NoDup (Index <$> calls) → (∀ c, c ∈ calls → Index c ∉ seen) →
  parse_lines (lines ++ [EmptyString]) seen acc = Some (acc ++ calls)%list.
Proof.
  induction 1 as [|l lines calls Hl _ IH|p c lines calls Hp _ IH]; intros seen acc Hnd Hs.
  - by rewrite app_nil_r.
  - rewrite <-(IH seen acc Hnd Hs). apply list_elem_of_In in Hl. by destruct Hl as [<-|[<-|[<-|[]]]].
  - apply NoDup_cons in Hnd as [Hni Hnd]. destruct (line_trimmed p c Hp) as (H1 & H2 & H3).
    cbn [app parse_lines]. rewrite H1, H2, H3, (parseCall_shows p c Hp). cbn [mbind option_bind].
    do 3 (rewrite bool_decide_eq_false_2 by done). cbn [orb].
    rewrite bool_decide_eq_false_2 by (apply Hs; left).
    rewrite IH; [by rewrite <-app_assoc|done|]. intros d Hd [Hi|Hi]%elem_of_cons.
    + apply Hni. rewrite <-Hi. by apply list_elem_of_fmap_2.
    + by apply (Hs d); [right|].
Qed.

Lemma line_free p c x : shows p c → x = CR ∨ x = LF → free_of x (line_of p).
Proof.
  intros (H0 & H1 & H2 & H3 & H4 & H6 & Hn & _) Hx.
  assert (Hnx : free_of x (p_number p)).
  { rewrite !Forall_cons in Hn. destruct Hn as (_ & ? & ? & _). by destruct Hx as [-> | ->]. }
  assert (is_digit x = false ∧ Forall (λ a, a ≠ x) [","%char; quote; " "%char]) as [Hd Hc].
  { destruct Hx as [-> | ->]; (split; [done|]); by repeat constructor. }
  rewrite !Forall_cons in Hc. destruct Hc as (? & ? & ? & _).
  assert (Hcons : ∀ a s, a ≠ x → free_of x s → free_of x (String a s)) by (intros; by constructor).
  unfold line_of, fields_of. apply free_of_app.
  { destruct Hx as [-> | ->]; by repeat constructor. }
  apply Hcons; [done|]. repeat first [apply free_of_app; [by eapply digits_free|] | apply Hcons; [done|]].
  apply free_of_app; [done|]. do 2 (apply Hcons; [done|]). by eapply digits_free.
Qed.

(** C31: the report of calls is read.  A response whose lines are calls with
    distinct indexes, in the format of the modem, among empty lines, the echo
    and the final OK, gives those calls in order, whatever the numbers hold
    (quoted, so commas too), an international number with its plus sign; and no
    response at all gives two calls with one index. *)
Theorem clcc_read response calls :
  (ParseCLCC response = Some calls → NoDup (Index <$> calls)) ∧
  (NoDup (Index <$> calls) → ∀ lines, report lines calls → response = crlf lines → ParseCLCC response = Some calls).
Proof.
  split; [apply ParseCLCC_indexes|]. intros Hnd lines Hr ->. unfold ParseCLCC.
  change (ascii_of_nat 10) with LF. change (ascii_of_nat 13) with CR. rewrite split_crlf.
  - rewrite (parse_lines_report _ _ Hr [] [] Hnd); [done|set_solver].
  - induction Hr as [|l lines calls Hl _ IH|p c lines calls Hp _ IH]; [constructor| |].
    + constructor; [|by apply IH]. apply list_elem_of_In in Hl. destruct Hl as [<-|[<-|[<-|[]]]]; split; by repeat constructor.
    + cbn in Hnd. apply NoDup_cons in Hnd as [_ Hnd]. constructor; [|by apply IH].
      split; eapply line_free; eauto.
Qed.

(** An incoming call, the same call active, and its end. *)
Definition sample_line (stat : string) : printed := mkPrinted "1" "1" stat "0" "0" "8613800138000" "145".
Definition sample_call (stat : Z) : Call := mkCall 1 true stat 0 false "+8613800138000" 145.
Definition sample_report (stat : string) : string := crlf ["AT+CLCC"%string; line_of (sample_line stat); EmptyString; "OK"%string].

Lemma sample_shows stat n : decimal_text stat n → 0 <= n <= 5 → shows (sample_line stat) (sample_call n).
Proof.
  intros Hs Hn. assert (Hd : decimal_text "0" 0 ∧ decimal_text "1" 1 ∧ decimal_text "145" 145).
  { split_and!; by repeat constructor. }
  destruct Hd as (H0 & H1 & H2). unfold shows. cbn.
  split_and!; try done; try (unfold Active, Waiting; lia); [by repeat constructor|by left].
Qed.

Lemma clcc_read_witness :
  report ["AT+CLCC"%string; line_of (sample_line "4"); EmptyString; "OK"%string] [sample_call 4] ∧
  ParseCLCC (sample_report "4") = Some [sample_call 4].
Proof.
  assert (H : report ["AT+CLCC"%string; line_of (sample_line "4"); EmptyString; "OK"%string] [sample_call 4]).
  { apply report_skip; [by right; right; left|]. apply report_call; [apply sample_shows; [by repeat constructor|lia]|].
    apply report_skip; [by left|]. apply report_skip; [by right; left|]. constructor. }
  split; [exact H|]. exact (proj2 (clcc_read (sample_report "4") [sample_call 4]) (NoDup_singleton _) _ H eq_refl).
Defined.

Definition sample_responses : list string := [sample_report "4"; "ERROR"%string; sample_report "0"; crlf ["OK"%string]].

Lemma changes_tell_all_witness :
  reported sample_responses = 2 ∧
  map (λ c, (State (tracked_call (changed c)), Ended c)) (apply_all id (NewTracker "u") sample_responses).1
    = [(4, false); (0, false); (0, true)] ∧
  let '(log, t) := apply_all id (NewTracker "u") sample_responses in
  ∃ dead, observe (∅, ∅) log = Some (by_id (active t), dead).
Proof.
  split; [vm_compute; reflexivity|]. split; [vm_compute; reflexivity|].
  refine (changes_tell_all id _ "u" sample_responses _); [intros l; reflexivity|vm_compute; reflexivity].
Defined.

(** A modem with an incoming call that takes every command. *)
Definition ringing (s : unit) (c : request) : answer c * unit :=
  (match c return answer c with
   | Enter => None
   | Lock => None
   | ExecuteAT command => inl (if String.eqb command query then sample_report "4" else "OK"%string)
   | SessionDone => false
   | Leave => tt
   | Unlock => tt
   | WakePoll => tt
   end, s).

Definition known_tracker : Tracker := (applyCalls id (NewTracker "u") [sample_call 4]).2.
Definition answer_run : list (exchange request) * outcome * unit :=
  run_on ringing (run id (OpAnswer "modem-u-1") known_tracker) tt.

Lemma answer_run_exec : exec (run id (OpAnswer "modem-u-1") known_tracker) answer_run.1.1 answer_run.1.2.
Proof.
  pose proof (run_on_exec ringing (run id (OpAnswer "modem-u-1") known_tracker) tt) as H.
  unfold answer_run. destruct (run_on _ _ _) as [[t a] s]. exact H.
Qed.

Lemma session_commands_witness :
  watch gate_step (false, []) answer_run.1.1
    = Some (false, [(query, inl (sample_report "4")); ("ATA"%string, inl "OK"%string)]) ∧
  ∃ sent, watch gate_step (false, []) answer_run.1.1 = Some (false, sent) ∧
          accounted id (OpAnswer "modem-u-1") known_tracker answer_run.1.2 sent.
Proof.
  split; [vm_compute; reflexivity|]. exact (session_commands id _ _ _ _ answer_run_exec).
Defined.
