(* ===== verification/DeviceHealth.v ===== *)
(** * The recovery of devices (internal/device)

    Three records that the device pool keeps: which devices are being
    recovered and how often their workers were rebuilt
    (transport_recovery_controller.go), the phase of each device
    (lifecycle.go), and the health of a worker (health_watchdog.go).  A time is
    a number of nanoseconds, [None] the zero time; the clock is an argument.
    Locks make each operation atomic. *)

From S2P Require Import Prelude GoText.
From stdpp Require Import strings gmap.
From Stdlib Require Import Ascii String.

#[local] Open Scope Z_scope.

Definition Second : Z := 10 ^ 9.
Definition Minute : Z := 60 * Second.

(** ** The controller of recoveries *)
Module Recovery.

Definition rebuildWindow : Z := 30 * Minute.
Definition rebuildMaxInWindow : Z := 5.

Inductive TransportRecoveryEventKind :=
  | RecoveryExhausted | HealthSuspect | MissingWorker | ManualReboot | UdevWake | OtherKind (kind : string).

Record TransportRecoveryEvent := mkEvent {
  DeviceID : string; WorkerGeneration : Z; Kind : TransportRecoveryEventKind; Source : string;
  Err : option string; At : option Z }.

Record TransportRecoveryController := mkController {
  active : gmap string TransportRecoveryEvent;
  workerGenerations : gmap string Z;
  rebuildTimes : gmap string (list Z) }.

Definition NewTransportRecoveryController : TransportRecoveryController := mkController ∅ ∅ ∅.

Definition startsRecovery (event : TransportRecoveryEvent) : bool :=
  match Kind event with OtherKind _ => false | _ => true end.

Definition Observe (c : TransportRecoveryController) (event : TransportRecoveryEvent) (now : Z)
    : bool * TransportRecoveryController :=
  let id := TrimSpace (DeviceID event) in
  if bool_decide (id = EmptyString) || negb (startsRecovery event) then (false, c)
  else
    let event := mkEvent id (WorkerGeneration event) (Kind event) (Source event) (Err event)
                   (Some (default now (At event))) in
    let currentGeneration := default 0 (workerGenerations c !! id) in
    if bool_decide (currentGeneration ≠ 0) && bool_decide (WorkerGeneration event ≠ 0) &&
       bool_decide (WorkerGeneration event ≠ currentGeneration) then (false, c)
    else if bool_decide (is_Some (active c !! id)) then (false, c)
    else (true, mkController (<[id := event]> (active c)) (workerGenerations c) (rebuildTimes c)).

Definition Finish (c : TransportRecoveryController) (deviceID : string) : TransportRecoveryController :=
  let id := TrimSpace deviceID in
  if bool_decide (id = EmptyString) then c
  else mkController (delete id (active c)) (workerGenerations c) (rebuildTimes c).

Definition SetWorkerGeneration (c : TransportRecoveryController) (deviceID : string) (generation : Z)
    : TransportRecoveryController :=
  let id := TrimSpace deviceID in
  if bool_decide (id = EmptyString) then c
  else
    mkController (active c) (<[id := generation]> (workerGenerations c))
      (if bool_decide (default 0 (workerGenerations c !! id) ≠ generation)
       then delete id (rebuildTimes c) else rebuildTimes c).

Definition allowRebuildAt (c : TransportRecoveryController) (deviceID : string) (now : Z)
    : bool * TransportRecoveryController :=
  if bool_decide (deviceID = EmptyString) then (false, c)
  else
    let cutoff := now - rebuildWindow in
    let kept := filter (λ ts, cutoff < ts) (default [] (rebuildTimes c !! deviceID)) in
    let store l := mkController (active c) (workerGenerations c) (<[deviceID := l]> (rebuildTimes c)) in
    if bool_decide (len kept >= rebuildMaxInWindow) then (false, store kept)
    else (true, store (kept ++ [now])).

Definition AllowRebuild (c : TransportRecoveryController) (deviceID : string) (now : Z) :=
  allowRebuildAt c (TrimSpace deviceID) now.

End Recovery.

(** ** The phases of a device *)
Module Lifecycle.

Inductive LifecyclePhase :=
  | Offline | Rebooting | USBWait | WorkerStarting | QMIStarting | Recovering | Online | Degraded | Evicting.
#[global] Instance LifecyclePhase_eq_dec : EqDecision LifecyclePhase.
Proof. solve_decision. Defined.

Definition qmiLifecycleRecoveryTTL : Z := 3 * Minute.

Record LifecycleSnapshot := mkSnapshot {
  Phase : LifecyclePhase; Reason : string; StartedAt : option Z; Deadline : option Z;
  IsRecovering : bool; CanEvictAfter : option Z }.

Notation states := (gmap string LifecycleSnapshot).

Definition lifecyclePhaseRecovering (phase : LifecyclePhase) : bool :=
  match phase with
  | Rebooting | USBWait | WorkerStarting | QMIStarting | Recovering => true
  | _ => false
  end.

Definition setPhaseAt (s : states) (deviceID : string) (phase : LifecyclePhase) (reason : string) (now ttl : Z) : states :=
  if bool_decide (deviceID = EmptyString) then s
  else
    let deadline := if bool_decide (ttl > 0) then Some (now + ttl) else None in
    <[deviceID := mkSnapshot phase reason (Some now) deadline (lifecyclePhaseRecovering phase) deadline]> s.

Definition BeginRecoveryAt (s : states) (deviceID : string) (phase : LifecyclePhase) (reason : string) (now ttl : Z) : states :=
  setPhaseAt s deviceID phase reason now (if bool_decide (ttl <= 0) then qmiLifecycleRecoveryTTL else ttl).

Definition FinishOnline (s : states) (deviceID : string) (now : Z) : states :=
  setPhaseAt s deviceID Online "control_online" now 0.
Definition MarkOffline (s : states) (deviceID reason : string) (now : Z) : states :=
  setPhaseAt s deviceID Offline reason now 0.

Definition GetSnapshot (s : states) (deviceID : string) : LifecycleSnapshot :=
  let offline := mkSnapshot Offline EmptyString None None false None in
  if bool_decide (deviceID = EmptyString) then offline else default offline (s !! deviceID).

(** [now] is the argument of the code, or the clock when that is zero. *)
Definition CanEvict (s : states) (deviceID : string) (now : Z) : bool :=
  let snap := GetSnapshot s deviceID in
  if negb (IsRecovering snap) then true
  else match Deadline snap with
       | None => false
       | Some deadline => negb (bool_decide (now < deadline))
       end.

End Lifecycle.

(** ** The health of a worker *)
Module Health.

Inductive HealthLayer := LayerAT | LayerQMI | LayerMBIM | LayerPCSC | LayerPool.
Inductive HealthState := Healthy | Suspect | Recovering | Invalid | Reprobing | Failed.

(** In an event [None] stands for the empty layer and the empty state, which
    have defaults. *)
Record WatchdogEvent := mkEvent {
  e_Layer : option HealthLayer; e_State : option HealthState; e_EventType : string; e_Reason : string;
  e_Err : option string; e_ConsecutiveFailures : Z; e_Threshold : Z; e_RecoveryUntil : option Z; e_At : option Z }.

Record Snapshot := mkSnapshot {
  h_State : option HealthState; h_Layer : option HealthLayer; h_EventType : string; h_Reason : string; h_Error : string;
  h_ConsecutiveFailures : Z; h_Threshold : Z; h_RecoveryUntil : option Z; h_UpdatedAt : option Z }.

(** The fields of a worker that concern its health; [metaHealthy] is
    [state.Meta.Healthy]. *)
Record Worker := mkWorker {
  healthSnapshot : Snapshot; healthConsecutiveFailures : Z; healthGraceUntil : option Z; metaHealthy : bool }.

(** [a.After(b)] *)
Definition After (a b : option Z) : bool :=
  match a, b with
  | Some a, Some b => bool_decide (b < a)
  | Some _, None => true
  | None, _ => false
  end.

Definition RecordWatchdogEvent (w : Worker) (event : WatchdogEvent) (now : Z) : Snapshot * Worker :=
  let at_ := default now (e_At event) in
  let layer := default LayerPool (e_Layer event) in
  let st := default Suspect (e_State event) in
  let reason := TrimSpace (e_Reason event) in
  let reason := if bool_decide (reason = EmptyString) then TrimSpace (e_EventType event) else reason in
  let snap failures until :=
    mkSnapshot (Some st) (Some layer) (TrimSpace (e_EventType event)) reason (default EmptyString (e_Err event))
      failures (e_Threshold event) until (Some at_) in
  let until_or_grace := match e_RecoveryUntil event with None => healthGraceUntil w | Some t => Some t end in
  let '(snapshot, failures, grace) :=
    match st with
    | Healthy => (snap (e_ConsecutiveFailures event) (e_RecoveryUntil event), 0, None)
    | Recovering =>
        let grace := if After (e_RecoveryUntil event) (healthGraceUntil w) then e_RecoveryUntil event else healthGraceUntil w in
        (snap (e_ConsecutiveFailures event) grace, 0, grace)
    | Suspect | Invalid =>
        let failures := if bool_decide (e_ConsecutiveFailures event > 0) then e_ConsecutiveFailures event
                        else healthConsecutiveFailures w in
        (snap failures until_or_grace, failures, healthGraceUntil w)
    | Reprobing | Failed =>
        (snap (e_ConsecutiveFailures event) until_or_grace, healthConsecutiveFailures w, healthGraceUntil w)
    end in
  let healthy :=
    match st with
    | Healthy => true
    | Invalid | Failed => false
    | _ => metaHealthy w
    end in
  (snapshot, mkWorker snapshot failures grace healthy).

Definition HealthSnapshot (w : Worker) : Snapshot :=
  let s := healthSnapshot w in
  mkSnapshot (Some (default Healthy (h_State s))) (Some (default LayerPool (h_Layer s))) (h_EventType s) (h_Reason s)
    (h_Error s)
    (if bool_decide (h_ConsecutiveFailures s = 0) then healthConsecutiveFailures w else h_ConsecutiveFailures s)
    (h_Threshold s)
    (match h_RecoveryUntil s with None => healthGraceUntil w | Some t => Some t end)
    (h_UpdatedAt s).

End Health.

(** ** The cap on rebuilds *)

Inductive operation :=
  | OpObserve (event : Recovery.TransportRecoveryEvent) (now : Z)
  | OpFinish (deviceID : string)
  | OpSetWorkerGeneration (deviceID : string) (generation : Z)
  | OpAllowRebuild (deviceID : string) (now : Z).

(** The controller, and for each device the times at which a rebuild was
    allowed since its generation last changed. *)
Notation rebuilds := (gmap string (list Z)).
Definition times_of (h : rebuilds) (id : string) : list Z := default [] (h !! id).

Definition perform (s : Recovery.TransportRecoveryController * rebuilds) (op : operation)
    : Recovery.TransportRecoveryController * rebuilds :=
  let '(c, h) := s in
  match op with
  | OpObserve event now => ((Recovery.Observe c event now).2, h)
  | OpFinish id => (Recovery.Finish c id, h)
  | OpSetWorkerGeneration id g =>
      (Recovery.SetWorkerGeneration c id g,
       if bool_decide (TrimSpace id = EmptyString) || bool_decide (default 0 (Recovery.workerGenerations c !! TrimSpace id) = g)
       then h else delete (TrimSpace id) h)
  | OpAllowRebuild id now =>
      let '(ok, c) := Recovery.AllowRebuild c id now in
      (c, if ok : bool then <[TrimSpace id := (times_of h (TrimSpace id) ++ [now])%list]> h else h)
  end.

(** The clock does not go back from one question to the next. *)
Definition next_time (t : Z) (op : operation) : Z :=
  match op with OpAllowRebuild _ now => now | _ => t end.

Fixpoint clock_ok (t : Z) (ops : list operation) : Prop :=
  match ops with
  | [] => True
  | op :: ops => t <= next_time t op ∧ clock_ok (next_time t op) ops
  end.

Definition in_window (t : Z) (times : list Z) : list Z :=
  filter (λ x, t - Recovery.rebuildWindow < x ∧ x <= t) times.

(** What the controller keeps of a device: the times after a cutoff that is
    out of every window to come; and no window holds more than the cap. *)
Definition device_ok (t : Z) (kept times : list Z) : Prop :=
  Forall (λ x, x <= t) times ∧
  (∃ cutoff, cutoff <= t - Recovery.rebuildWindow ∧ kept = filter (λ x, cutoff < x) times) ∧
  ∀ u, len (in_window u times) <= Recovery.rebuildMaxInWindow.

Definition caps_ok (t : Z) (s : Recovery.TransportRecoveryController * rebuilds) : Prop :=
  ∀ id, device_ok t (default [] (Recovery.rebuildTimes s.1 !! id)) (times_of s.2 id).

Lemma filter_later (c c' : Z) (l : list Z) : c <= c' → filter (λ x, c' < x) (filter (λ x, c < x) l) = filter (λ x, c' < x) l.
Proof. intros H. rewrite list_filter_filter. apply list_filter_iff. intros x. split; [by intros []|]. intros; split; lia. Qed.

Lemma in_window_now t times : Forall (λ x, x <= t) times → in_window t times = filter (λ x, t - Recovery.rebuildWindow < x) times.
Proof.
  intros H. unfold in_window. induction H as [|x l Hx _ IH]; [done|]. rewrite !filter_cons, IH.
  destruct (decide (t - Recovery.rebuildWindow < x)).
  - by rewrite decide_True by done.
  - by rewrite decide_False by naive_solver.
Qed.

Lemma len_filter_impl (P Q : Z → Prop) `{∀ x, Decision (P x), ∀ x, Decision (Q x)} (l : list Z) :
  (∀ x, x ∈ l → P x → Q x) → len (filter P l) <= len (filter Q l).
Proof.
  induction l as [|x l IH]; intros HPQ; [done|]. rewrite !filter_cons.
  assert (len (filter P l) <= len (filter Q l)) by (apply IH; intros y Hy; apply HPQ; by right).
  destruct (decide (P x)); destruct (decide (Q x)); rewrite ?len_cons; try lia.
  destruct n. apply HPQ; [left|done].
Qed.

Lemma device_ok_later t t' kept times : t <= t' → device_ok t kept times → device_ok t' kept times.
Proof.
  intros Ht (H1 & (c & Hc & Hk) & H2). split_and!; [|exists c; split; [lia|done]|done].
  eapply Forall_impl; [exact H1|]. cbn. lia.
Qed.

Lemma device_ok_nil t : device_ok t [] [].
Proof. split_and!; [constructor|by exists (t - Recovery.rebuildWindow)|]. intros u. cbn. unfold len, Recovery.rebuildMaxInWindow. cbn. lia. Qed.

(** What is kept at a question is the window that ends there. *)
Lemma device_ok_window t kept times now :
  t <= now → device_ok t kept times →
  filter (λ x, now - Recovery.rebuildWindow < x) kept = in_window now times.
Proof.
  intros Ht (H1 & (c & Hc & ->) & _). rewrite filter_later by lia. symmetry. apply in_window_now.
  eapply Forall_impl; [exact H1|]. cbn. lia.
Qed.

Lemma device_ok_refused t kept times now :
  t <= now → device_ok t kept times → device_ok now (in_window now times) times.
Proof.
  intros Ht Hok. pose proof (device_ok_later _ now _ _ Ht Hok) as (H1 & _ & H2).
  split_and!; [done| |done]. exists (now - Recovery.rebuildWindow). split; [lia|]. by apply in_window_now.
Qed.

Lemma device_ok_allowed t kept times now :
  t <= now → device_ok t kept times → len (in_window now times) < Recovery.rebuildMaxInWindow →
  device_ok now (in_window now times ++ [now])%list (times ++ [now])%list.
Proof.
  intros Ht Hok Hlt. pose proof (device_ok_later _ now _ _ Ht Hok) as (H1 & _ & H2).
  assert (HW : 0 < Recovery.rebuildWindow) by (vm_compute; reflexivity).
  split_and!.
  - apply Forall_app. split; [done|]. by repeat constructor.
  - exists (now - Recovery.rebuildWindow). split; [lia|]. rewrite filter_app, in_window_now by done. f_equal.
    rewrite filter_cons, decide_True by lia. done.
  - intros u. unfold in_window. rewrite filter_app, len_app. destruct (decide (now <= u)) as [Hu|Hu].
    + assert (len (filter (λ x, u - Recovery.rebuildWindow < x ∧ x <= u) times) <= len (in_window now times)).
      { apply len_filter_impl. intros x Hx. rewrite Forall_forall in H1. specialize (H1 x Hx). lia. }
      rewrite filter_cons. destruct (decide _); rewrite ?filter_nil, ?len_cons, len_nil; lia.
    + rewrite filter_cons, decide_False, filter_nil, len_nil by lia. specialize (H2 u). unfold in_window in H2. lia.
Qed.

Lemma times_of_insert h id l : times_of (<[id := l]> h) id = l.
Proof. unfold times_of. by rewrite lookup_insert_eq. Qed.

(** Changing one device leaves the others. *)
Lemma caps_ok_insert t c c' h h' id :
  caps_ok t (c, h) →
  (∀ j, j ≠ id → Recovery.rebuildTimes c' !! j = Recovery.rebuildTimes c !! j ∧ h' !! j = h !! j) →
  device_ok t (default [] (Recovery.rebuildTimes c' !! id)) (times_of h' id) → caps_ok t (c', h').
Proof.
  intros Hok Hj Hid j. destruct (decide (j = id)) as [->|Hne]; [done|]. destruct (Hj j Hne) as [H1 H2].
  cbn. unfold times_of. rewrite H1, H2. apply Hok.
Qed.

Lemma perform_ok t s op : caps_ok t s → t <= next_time t op → caps_ok (next_time t op) (perform s op).
Proof.
  destruct s as [c h]. intros Hok Ht. destruct op as [event now|id|id g|id now]; cbn [next_time perform] in *.
  - unfold Recovery.Observe.
    repeat match goal with |- context [if ?b then _ else _] => destruct b end; exact Hok.
  - unfold Recovery.Finish. by case_bool_decide.
  - unfold Recovery.SetWorkerGeneration.
    destruct (decide (TrimSpace id = EmptyString)) as [He|He]; [by rewrite bool_decide_eq_true_2|].
    rewrite bool_decide_eq_false_2 by done. cbn [orb].
    destruct (decide (default 0 (Recovery.workerGenerations c !! TrimSpace id) = g)) as [Hg|Hg].
    + rewrite (bool_decide_eq_true_2 (_ = g)), bool_decide_eq_false_2 by (try (intros Hn; exact (Hn Hg)); done). exact Hok.
    + rewrite (bool_decide_eq_false_2 (_ = g)), bool_decide_eq_true_2 by done.
      apply (caps_ok_insert t c _ h _ (TrimSpace id) Hok); cbn.
      * intros j Hne. split; by apply lookup_delete_ne, not_eq_sym.
      * unfold times_of. rewrite !lookup_delete_eq. apply device_ok_nil.
  - assert (Hok' : caps_ok now (c, h)) by (intros j; by eapply device_ok_later).
    unfold Recovery.AllowRebuild, Recovery.allowRebuildAt. set (id' := TrimSpace id).
    destruct (decide (id' = EmptyString)) as [He|He]; [by rewrite bool_decide_eq_true_2|].
    rewrite (bool_decide_eq_false_2 (id' = EmptyString)) by done. pose proof (Hok id') as Hid. cbn in Hid.
    rewrite (device_ok_window t _ _ now Ht Hid).
    destruct (decide (len (in_window now (times_of h id')) >= Recovery.rebuildMaxInWindow)) as [Hl|Hl].
    + rewrite bool_decide_eq_true_2 by done. apply (caps_ok_insert now c _ h _ id' Hok'); cbn.
      * intros j Hne. split; [|done]. by apply lookup_insert_ne, not_eq_sym.
      * rewrite lookup_insert_eq. by eapply device_ok_refused.
    + rewrite bool_decide_eq_false_2 by done. apply (caps_ok_insert now c _ h _ id' Hok'); cbn.
      * intros j Hne. split; by apply lookup_insert_ne, not_eq_sym.
      * rewrite times_of_insert, lookup_insert_eq. cbn. eapply device_ok_allowed; [done|done|lia].
Qed.

Fixpoint perform_all (s : Recovery.TransportRecoveryController * rebuilds) (ops : list operation) :=
  match ops with
  | [] => s
  | op :: ops => perform_all (perform s op) ops
  end.

Definition start : Recovery.TransportRecoveryController * rebuilds := (Recovery.NewTransportRecoveryController, ∅).

Lemma perform_all_ok ops : ∀ t s,
  caps_ok t s → clock_ok t ops → caps_ok (foldl next_time t ops) (perform_all s ops).
Proof.
  induction ops as [|op ops IH]; intros t s Hok; cbn; [done|]. intros [Ht Hc]. apply IH; [|done]. by apply perform_ok.
Qed.

Lemma start_ok t : caps_ok t start.
Proof. intros id. apply device_ok_nil. Qed.

(** C34: workers are not rebuilt without end.  After any sequence of operations, the
    clock not going back: for every device and every window of half an hour, at
    most five rebuilds were allowed in it since the generation of the worker
    last changed; and a rebuild is refused only when the window that ends now
    holds five, or the device has no name. *)
Theorem rebuild_cap t ops :
  clock_ok t ops →
  let '(c, h) := perform_all start ops in
  (∀ id u, len (in_window u (times_of h id)) <= 5) ∧
  ∀ id now, foldl next_time t ops <= now →
    (Recovery.AllowRebuild c id now).1 = true ↔
    TrimSpace id ≠ EmptyString ∧ len (in_window now (times_of h (TrimSpace id))) < 5.
Proof.
  intros Hc. pose proof (perform_all_ok ops t start (start_ok t) Hc) as Hok.
  destruct (perform_all start ops) as [c h]. split; [intros id u; apply (Hok id)|].
  intros id now Hnow. pose proof (Hok (TrimSpace id)) as Hid. cbn in Hid.
  unfold Recovery.AllowRebuild, Recovery.allowRebuildAt. set (id' := TrimSpace id) in *.
  destruct (decide (id' = EmptyString)) as [He|He]; [rewrite bool_decide_eq_true_2 by done; naive_solver|].
  rewrite (bool_decide_eq_false_2 (id' = EmptyString)) by done.
  rewrite (device_ok_window _ _ _ now Hnow Hid). unfold Recovery.rebuildMaxInWindow.
  destruct (decide (len (in_window now (times_of h id')) >= 5)).
  - rewrite bool_decide_eq_true_2 by done. split; [done|lia].
  - rewrite bool_decide_eq_false_2 by done. split; [intros _; split; [done|lia]|done].
Qed.

Definition sample_operations : list operation :=
  (λ k, OpAllowRebuild " usb1" (k * Minute)) <$> seqZ 1 6.

Lemma rebuild_cap_witness :
  clock_ok 0 sample_operations ∧ len (times_of (perform_all start sample_operations).2 "usb1") = 5 ∧
  let '(c, h) := perform_all start sample_operations in
  (∀ id u, len (in_window u (times_of h id)) <= 5) ∧
  ∀ id now, foldl next_time 0 sample_operations <= now →
    (Recovery.AllowRebuild c id now).1 = true ↔
    TrimSpace id ≠ EmptyString ∧ len (in_window now (times_of h (TrimSpace id))) < 5.
Proof.
  assert (H : clock_ok 0 sample_operations) by (vm_compute; (repeat split); discriminate).
  split; [exact H|]. split; [vm_compute; reflexivity|]. exact (rebuild_cap 0 sample_operations H).
Defined.

(** ** Evicting a device

    A device whose recovery has begun is kept for its time to live, three
    minutes when none is given, whatever happens to other devices. *)
Definition phase_change : Type := string * Lifecycle.LifecyclePhase * string * Z * Z.
Definition change_phase (s : Lifecycle.states) (p : phase_change) : Lifecycle.states :=
  let '(id, phase, reason, now, ttl) := p in Lifecycle.setPhaseAt s id phase reason now ttl.

Lemma change_phase_other ops : ∀ s id,
  Forall (λ p : phase_change, p.1.1.1.1 ≠ id) ops → foldl change_phase s ops !! id = s !! id.
Proof.
  induction ops as [|[[[[j ph] r] n] l] ops IH]; intros s id H; [done|]. apply Forall_cons in H as [Hj H]. cbn in *.
  rewrite IH by done. unfold Lifecycle.setPhaseAt. case_bool_decide; [done|]. by apply lookup_insert_ne, not_eq_sym.
Qed.

Lemma eviction_time s id phase reason t ttl ops now :
  id ≠ EmptyString → Lifecycle.lifecyclePhaseRecovering phase = true → Forall (λ p : phase_change, p.1.1.1.1 ≠ id) ops →
  Lifecycle.CanEvict (foldl change_phase (Lifecycle.BeginRecoveryAt s id phase reason t ttl) ops) id now = true ↔
  t + (if bool_decide (ttl <= 0) then 3 * Minute else ttl) <= now.
Proof.
  intros Hid Hph Hops. unfold Lifecycle.CanEvict, Lifecycle.GetSnapshot.
  rewrite bool_decide_eq_false_2, change_phase_other by done.
  unfold Lifecycle.BeginRecoveryAt, Lifecycle.setPhaseAt. rewrite bool_decide_eq_false_2 by done.
  rewrite lookup_insert_eq. cbn. rewrite Hph. cbn.
  unfold Lifecycle.qmiLifecycleRecoveryTTL.
  assert (0 < 3 * Minute) by (vm_compute; reflexivity).
  destruct (decide (ttl <= 0)).
  - rewrite (bool_decide_eq_true_2 (ttl <= 0)), bool_decide_eq_true_2 by lia.
    rewrite negb_true_iff, bool_decide_eq_false. lia.
  - rewrite (bool_decide_eq_false_2 (ttl <= 0)), bool_decide_eq_true_2 by lia.
    rewrite negb_true_iff, bool_decide_eq_false. lia.
Qed.

(** ** The grace of a recovery

    Since the last healthy event, the end of the grace is the latest that a
    recovering event gave. *)
Definition later (a b : option Z) : option Z := if Health.After a b then a else b.

Fixpoint grace_of (g : option Z) (events : list Health.WatchdogEvent) : option Z :=
  match events with
  | [] => g
  | e :: events =>
      grace_of (match Health.e_State e with
                | Some Health.Healthy => None
                | Some Health.Recovering => later (Health.e_RecoveryUntil e) g
                | _ => g
                end) events
  end.

Definition record_all (w : Health.Worker) (events : list Health.WatchdogEvent) (now : Z) : Health.Worker :=
  foldl (λ w e, (Health.RecordWatchdogEvent w e now).2) w events.

Lemma grace_recorded events : ∀ w now,
  Health.healthGraceUntil (record_all w events now) = grace_of (Health.healthGraceUntil w) events.
Proof.
  unfold record_all. induction events as [|e events IH]; intros w now; [done|]. cbn [foldl grace_of]. rewrite IH. f_equal.
  unfold Health.RecordWatchdogEvent. destruct (Health.e_State e) as [[]|]; done.
Qed.
