(* ===== verification/Automation.v ===== *)
(** * Automatic tasks (internal/automation)

    The validation of a task (types.go) and one run of it (runner.go): a
    program over the requests below, which the store, the executor, the clock
    and the context of the service answer.  A run is the record that the store
    keeps.  The scheduling of the next run, which needs the calendar and the
    time zones of the Go library, is not modelled. *)

From S2P Require Import Prelude GoText Interaction.
From stdpp Require Import strings.
From Stdlib Require Import Ascii String.

#[local] Open Scope Z_scope.

Definition minIntervalDays : Z := 1.
Definition maxIntervalDays : Z := 365.
Definition maxRetryCount : Z := 10.
Definition maxCallSeconds : Z := 60.
Definition Second : Z := 10 ^ 9.
Definition retryDelayUnit : Z := 5 * Second.

Record Payload := mkPayload { Phone : string; Message : string; HoldSeconds : Z }.

(** The fields of a task that validation and a run read. *)
Record Task := mkTask {
  TaskID : Z; Name : string; DeviceID : string; ProfileICCID : string; ProfileAID : string; TaskType : string;
  Environment : string; IntervalDays : Z; StartDate : string; RunTime : string; Timezone : string;
  TaskPayload : Payload; RetryCount : Z; Notify : bool }.

Inductive RunStatus := Queued | Running | Success | Failed.
#[global] Instance RunStatus_eq_dec : EqDecision RunStatus.
Proof. solve_decision. Defined.

Record Run := mkRun {
  RunID : Z; RunTaskID : Z; StartedAt : option Z; FinishedAt : option Z; Status : RunStatus;
  Attempts : Z; Output : string; Error : string }.

(** ** Validation (types.go) *)

Definition digits_only (s : string) : bool := forallb is_digit (list_ascii_of_string s).

Definition validDialAddress (value : string) : bool :=
  let digits := match value with
                | String a rest => if Ascii.eqb a "+"%char then rest else value
                | EmptyString => EmptyString
                end in
  let n := Z.of_nat (String.length digits) in
  if bool_decide (n < 2) || bool_decide (n > 15) then false else digits_only digits.

Definition validateTaskKind (task : Task) : bool :=
  let p := TaskPayload task in
  if String.eqb (TaskType task) "sms" then
    if bool_decide (Phone p = EmptyString) || bool_decide (TrimSpace (Message p) = EmptyString) then false
    else validDialAddress (Phone p)
  else if String.eqb (TaskType task) "call" then
    if bool_decide (Phone p = EmptyString) then false
    else if negb (validDialAddress (Phone p)) then false
    else negb (bool_decide (HoldSeconds p < 1) || bool_decide (HoldSeconds p > maxCallSeconds))
  else String.eqb (TaskType task) "public_ip".

Definition validateTask (task : Task) : bool :=
  if bool_decide (Name task = EmptyString) then false
  else if bool_decide (DeviceID task = EmptyString) then false
  else if bool_decide (ProfileICCID task = EmptyString) then false
  else if bool_decide (IntervalDays task < minIntervalDays) || bool_decide (IntervalDays task > maxIntervalDays) then false
  else if bool_decide (RetryCount task < 0) || bool_decide (RetryCount task > maxRetryCount) then false
  else if negb (validateTaskKind task) then false
  else if negb (String.eqb (Environment task) "vowifi") && negb (String.eqb (Environment task) "cellular") then false
  else if String.eqb (TaskType task) "public_ip" && negb (String.eqb (Environment task) "cellular") then false
  else true.

(** ** Errors and requests of a run *)

(** An error: its text, and whether it was made by [Permanent]. *)
Record exec_error := mkError { err_text : string; permanent : bool }.

Definition Permanent (err : option exec_error) : option exec_error :=
  match err with None => None | Some e => Some (mkError (err_text e) true) end.
Definition IsRetryable (err : option exec_error) : bool :=
  match err with None => false | Some e => negb (permanent e) end.

(** [Execute] answers with the outputs that the executor reported on the way,
    in order, its output and its error; [CtxErr] is [ctx.Err()] once the
    context of the service is done. *)
Inductive request :=
  | GetTask (id : Z)
  | UpdateRun (run : Run)
  | Now
  | Execute (task : Task)
  | WaitRetry (delay : Z)
  | CtxErr
  | SendNotify (task : Task) (run : Run)
  | Report.

#[export] Instance automation_requests : Requests request := λ r,
  match r with
  | GetTask _ => (Task + exec_error)%type
  | UpdateRun _ | SendNotify _ _ => option exec_error
  | Now => Z
  | Execute _ => (list string * string * option exec_error)%type
  | WaitRetry _ => bool
  | CtxErr => exec_error
  | Report => unit
  end.

Definition set_output (run : Run) (output : string) : Run :=
  mkRun (RunID run) (RunTaskID run) (StartedAt run) (FinishedAt run) (Status run) (Attempts run) output (Error run).
Definition set_attempts (run : Run) (n : Z) : Run :=
  mkRun (RunID run) (RunTaskID run) (StartedAt run) (FinishedAt run) (Status run) n (Output run) (Error run).
Definition set_finished (run : Run) (finished : Z) (status : RunStatus) (error : string) : Run :=
  mkRun (RunID run) (RunTaskID run) (StartedAt run) (Some finished) status (Attempts run) (Output run) error.

(** ** One run (runner.go) *)

Definition appendRunOutput (output line : string) : string :=
  if bool_decide (output = EmptyString) then line
  else (output +:+ String (ascii_of_nat 10) line)%string.

Section Service.
(** Whether [options.Notify] is set. *)
Context (notify_set : bool).

Definition finish (task : Task) (run : Run) (executeErr : option exec_error) : prog request unit :=
  let? finishedAt := ask Now in
  let run := set_finished run finishedAt
               (match executeErr with None => Success | Some _ => Failed end)
               (match executeErr with None => EmptyString | Some e => err_text e end) in
  let? err := ask (UpdateRun run) in
  match err with
  | Some _ => ask Report
  | None =>
      if Notify task && notify_set then
        let? err := ask (SendNotify task run) in
        match err with
        | None => Ret tt
        | Some e =>
            let? _ := ask Report in
            let? updateErr := ask (UpdateRun (set_output run (appendRunOutput (Output run) ("notification_error=" +:+ err_text e)%string))) in
            match updateErr with None => Ret tt | Some _ => ask Report end
        end
      else Ret tt
  end.

(** The updates that the executor asks for; it is told their errors. *)
Fixpoint progress (run : Run) (values : list string) : prog request Run :=
  match values with
  | [] => Ret run
  | v :: values => let run := set_output run v in let? _ := ask (UpdateRun run) in progress run values
  end.

(** The attempts from [attempt] on, [n] of them at most: the output, the error
    and the run. *)
Fixpoint attempts (n : nat) (attempt : Z) (task : Task) (run : Run) (output : string) (err : option exec_error)
    : prog request (string * option exec_error * Run) :=
  match n with
  | O => Ret (output, err, run)
  | S n =>
      let run := set_attempts run attempt in
      let? r := ask (Execute task) in
      let '(values, output, err) := r in
      let? run := progress run values in
      if bool_decide (err = None) || negb (IsRetryable err) || bool_decide (attempt > RetryCount task)
      then Ret (output, err, run)
      else
        let? waited := ask (WaitRetry (attempt * retryDelayUnit)) in
        if waited : bool then attempts n (attempt + 1) task run output err
        else let? e := ask CtxErr in Ret (output, Some e, run)
  end.

(** [for attempt := 1; attempt <= task.RetryCount+1; attempt++] *)
Definition executeAttempts (task : Task) (run : Run) : prog request (string * option exec_error * Run) :=
  attempts (Z.to_nat (RetryCount task + 1)) 1 task run EmptyString None.

(** The task of [finishWithError]: only its identifier is known. *)
Definition unknown_task (id : Z) : Task :=
  mkTask id EmptyString EmptyString EmptyString EmptyString EmptyString EmptyString 0 EmptyString EmptyString EmptyString
    (mkPayload EmptyString EmptyString 0) 0 false.

Definition finishWithError (run : Run) (executeErr : exec_error) : prog request unit :=
  finish (unknown_task (RunTaskID run)) run (Some executeErr).

Definition execute (run : Run) : prog request unit :=
  let? task := ask (GetTask (RunTaskID run)) in
  match task with
  | inr err => finishWithError run err
  | inl task =>
      let? startedAt := ask Now in
      let run := mkRun (RunID run) (RunTaskID run) (Some startedAt) (FinishedAt run) Running (Attempts run) (Output run) (Error run) in
      let? err := ask (UpdateRun run) in
      match err with
      | Some _ => ask Report
      | None =>
          let? r := executeAttempts task run in
          let '(output, executeErr, run) := r in
          finish task (set_output run output) executeErr
      end
  end.
End Service.
