(* ===== verification/AutomationProofs.v ===== *)
(** * The life of an automatic run

    A state machine of what is recorded and attempted, which every run of
    [execute] follows whatever the store and the executor answer. *)

From S2P Require Import Prelude GoText SmsCodecProofs Interaction Automation.
From stdpp Require Import strings.
From Stdlib Require Import Ascii String.

#[local] Open Scope Z_scope.

#[local] Instance Payload_eq_dec : EqDecision Payload.
Proof. solve_decision. Defined.
#[local] Instance Task_eq_dec : EqDecision Task.
Proof. solve_decision. Defined.
#[local] Instance Run_eq_dec : EqDecision Run.
Proof. solve_decision. Defined.

(** The phases: the task is loaded, an attempt may start, it has ended with
    outputs that are not stored yet, an output and an error, the wait before the next was cut short, the result is
    known, it is recorded; or a record failed, which ends everything; or the
    store gave a task that validation excludes, of which nothing is claimed. *)
Inductive phase :=
  | Starting
  | Loaded (task : Task)
  | Ready (task : Task) (n : Z)
  | Attempted (task : Task) (n : Z) (pending : list string) (output : string) (err : option exec_error)
  | Stopped (task : Task) (n : Z) (output : string)
  | Ended (notify : bool) (n : Z) (output : string) (err : option exec_error)
  | Recorded (notify : bool) (run : Run)
  | Aborted
  | Unclaimed.

(** An attempt after which there is no other. *)
Definition conclusive (task : Task) (n : Z) (err : option exec_error) : bool :=
  match err with None => true | Some e => permanent e || bool_decide (RetryCount task < n) end.

Section Machine.
Context (run0 : Run).

(** The record of a result. *)
Definition records (u : Run) (n : Z) (output : string) (err : option exec_error) : bool :=
  bool_decide (RunID u = RunID run0) && bool_decide (FinishedAt u ≠ None) &&
  bool_decide (Attempts u = n) && bool_decide (Output u = output) &&
  match err with
  | None => bool_decide (Status u = Success) && bool_decide (Error u = EmptyString)
  | Some e => bool_decide (Status u = Failed) && bool_decide (Error u = err_text e)
  end.

Definition recorded (notify : bool) (u : Run) (stored : option exec_error) : phase :=
  match stored with None => Recorded notify u | Some _ => Aborted end.

Definition update (s : phase) (u : Run) (stored : option exec_error) : option phase :=
  match s with
  | Loaded task =>
      if bool_decide (RunID u = RunID run0) && bool_decide (Status u = Running) && bool_decide (StartedAt u ≠ None)
      then Some (match stored with None => Ready task 1 | Some _ => Aborted end) else None
  | Attempted task n (v :: pending) output err =>
      if bool_decide (RunID u = RunID run0) && bool_decide (Status u = Running) &&
         bool_decide (Attempts u = n) && bool_decide (Output u = v)
      then Some (Attempted task n pending output err) else None
  | Attempted task n [] output err =>
      if conclusive task n err && records u n output err then Some (recorded (Notify task) u stored) else None
  | Ended notify n output err => if records u n output err then Some (recorded notify u stored) else None
  | Recorded notify v =>
      if bool_decide (set_output u (Output v) = v) && HasPrefix (Output u) (Output v) then Some s else None
  | _ => None
  end.

Definition run_step (s : phase) (x : exchange request) : option phase :=
  let 'mkExchange c r := x in
  match s with
  | Unclaimed => Some Unclaimed
  | _ =>
    match c return answer c → option phase with
    | GetTask id => λ r,
        match s, r with
        | Starting, inl task =>
            if bool_decide (id = RunTaskID run0)
            then Some (if bool_decide (0 <= RetryCount task <= maxRetryCount) then Loaded task else Unclaimed) else None
        | Starting, inr e => Some (Ended false (Attempts run0) (Output run0) (Some e))
        | _, _ => None
        end
    | UpdateRun u => λ r, update s u r
    | Now => λ _, match s with Starting => None | _ => Some s end
    | Execute task' => λ r,
        match s with
        | Ready task n =>
            if bool_decide (task' = task) && bool_decide (n <= RetryCount task + 1)
            then Some (Attempted task n r.1.1 r.1.2 r.2) else None
        | _ => None
        end
    | WaitRetry delay => λ r,
        match s with
        | Attempted task n [] output err =>
            if negb (conclusive task n err) && bool_decide (delay = n * retryDelayUnit)
            then Some (if r : bool then Ready task (n + 1) else Stopped task n output) else None
        | _ => None
        end
    | CtxErr => λ e, match s with Stopped task n output => Some (Ended (Notify task) n output (Some e)) | _ => None end
    | SendNotify _ u => λ _,
        match s with Recorded true v => if bool_decide (u = v) then Some s else None | _ => None end
    | Report => λ _, match s with Recorded _ _ | Aborted => Some s | _ => None end
    end r
  end.

Notation follows P p Q := (triple run_step P p Q).

Lemma triple_pure {A} (φ : Prop) (P : phase → Prop) (p : prog request A) Q :
  (φ → follows P p Q) → follows (λ s, φ ∧ P s) p Q.
Proof. intros H s t a [Hφ HP] Hx. by eapply H. Qed.

(** A run on its way, with [n] attempts. *)
Definition running (u : Run) (n : Z) : Prop := RunID u = RunID run0 ∧ Status u = Running ∧ Attempts u = n.

Lemma progress_follows task n output err values : ∀ u,
  running u n →
  follows (eq (Attempted task n values output err)) (progress u values)
    (λ u' s, running u' n ∧ Attempted task n [] output err = s).
Proof.
  induction values as [|v values IH]; intros u Hu; [by apply triple_ret; intros s <-|].
  cbn [progress]. destruct Hu as (H1 & H2 & H3).
  eapply triple_bind with (R := λ _, eq (Attempted task n values output err)); [|intros r; by apply IH].
  apply triple_ask. intros s r <-. eexists. split; [|done]. cbn.
  by rewrite !bool_decide_eq_true_2.
Qed.

(** What [finish] finds. *)
Definition to_record (notify : bool) (u : Run) (output : string) (err : option exec_error) (s : phase) : Prop :=
  RunID u = RunID run0 ∧
  ((∃ task, s = Attempted task (Attempts u) [] output err ∧ conclusive task (Attempts u) err = true ∧ notify = Notify task) ∨
   s = Ended notify (Attempts u) output err).

Lemma attempts_follow task n : ∀ attempt u output err,
  0 < Z.of_nat n → Z.of_nat n = RetryCount task + 2 - attempt → RunID u = RunID run0 → Status u = Running →
  follows (eq (Ready task attempt)) (attempts n attempt task u output err)
    (λ r s, to_record (Notify task) r.2 r.1.1 r.1.2 s).
Proof.
  induction n as [|n IH]; intros attempt u output err Hn Hc H1 H2; [lia|]. cbn [attempts].
  eapply (triple_bind run_step _ (ask (Execute task)) _ (λ r, eq (Attempted task attempt r.1.1 r.1.2 r.2) : phase → Prop)).
  { apply triple_ask. intros s r <-. eexists. split; [|done]. cbn. by rewrite !bool_decide_eq_true_2 by (done || lia). }
  intros [[values output'] err']. cbn [fst snd].
  eapply triple_bind; [apply (progress_follows task attempt output' err' values (set_attempts u attempt)); done|].
  intros u'. apply triple_pure. intros (Hu1 & Hu2 & Hu3).
  assert (Hcon : bool_decide (err' = None) || negb (IsRetryable err') || bool_decide (attempt > RetryCount task)
                 = conclusive task attempt err').
  { unfold conclusive, IsRetryable. destruct err' as [e|]; [|done]. rewrite (bool_decide_eq_false_2 (Some e = None)) by done.
    cbn [orb]. rewrite negb_involutive. f_equal. apply bool_decide_ext. lia. }
  rewrite Hcon. destruct (conclusive task attempt err') eqn:Hfin.
  { apply triple_ret. intros s <-. split; [done|]. left. exists task. cbn. by rewrite Hu3. }
  eapply (triple_bind run_step _ (ask (WaitRetry _)) _ ((λ (r : bool), eq (if r then Ready task (attempt + 1) else Stopped task attempt output')) : answer (WaitRetry _) → phase → Prop)).
  { apply triple_ask. intros s r <-. eexists. split; [|done]. cbn. by rewrite Hfin, bool_decide_eq_true_2 by done. }
  intros [|].
  - unfold conclusive in Hfin. destruct err' as [e|]; [|done]. apply orb_false_iff in Hfin as [_ Hfin%bool_decide_eq_false_1].
    apply IH; [lia|lia|done|done].
  - eapply (triple_bind run_step _ (ask CtxErr) _ ((λ e, eq (Ended (Notify task) attempt output' (Some e))) : answer CtxErr → phase → Prop)).
    { apply triple_ask. intros s e <-. by eexists. }
    intros e. apply triple_ret. intros s <-. split; [done|]. right. cbn. by rewrite Hu3.
Qed.

Lemma records_finished u output err finishedAt :
  RunID u = RunID run0 → Output u = output →
  let u' := set_finished u finishedAt (match err with None => Success | Some _ => Failed end)
              (match err with None => EmptyString | Some e => err_text e end) in
  records u' (Attempts u) output err = true.
Proof.
  intros H1 H2. unfold records. cbn. rewrite !bool_decide_eq_true_2 by done. cbn. by destruct err; rewrite !bool_decide_eq_true_2 by done.
Qed.

Lemma report_follows s : (match s with Recorded _ _ | Aborted => True | _ => False end) → follows (eq s) (ask Report) (λ _, eq s).
Proof. intros Hs. apply triple_ask. intros s' r <-. exists s. by destruct s. Qed.

(** The end of a run: recorded, or not recorded. *)
Definition over (s : phase) : Prop := s = Aborted ∨ s = Unclaimed ∨ ∃ notify u, s = Recorded notify u.

Lemma appendRunOutput_prefix output line : HasPrefix (appendRunOutput output line) output = true.
Proof.
  unfold appendRunOutput. case_bool_decide as He; [by subst; destruct line|]. apply HasPrefix_app.
Qed.

Lemma note_step v line r :
  run_step (Recorded true v) (mkExchange (UpdateRun (set_output v (appendRunOutput (Output v) line))) r) = Some (Recorded true v).
Proof.
  destruct v as [i t sa fa st at_ out er].
  change ((if bool_decide (mkRun i t sa fa st at_ out er = mkRun i t sa fa st at_ out er) && HasPrefix (appendRunOutput out line) out
           then Some (Recorded true (mkRun i t sa fa st at_ out er)) else None) = Some (Recorded true (mkRun i t sa fa st at_ out er))).
  by rewrite bool_decide_eq_true_2, appendRunOutput_prefix by done.
Qed.

(** [finish], from a result that is not recorded yet. *)
Lemma finish_follows notify_set task u output err :
  Output u = output →
  follows (to_record (Notify task) u output err) (finish notify_set task u err) (λ _, over).
Proof.
  intros Hout. unfold finish.
  eapply (triple_bind run_step _ (ask Now) _ (λ _, to_record (Notify task) u output err)).
  { apply triple_ask. intros s r Hs. exists s. split; [|done]. destruct Hs as [_ [(t & -> & _)| ->]]; done. }
  intros finishedAt. set (u' := set_finished u finishedAt _ _).
  eapply (triple_bind run_step _ (ask (UpdateRun u')) _ ((λ r, eq (recorded (Notify task) u' r)) : answer (UpdateRun u') → phase → Prop)).
  { apply triple_ask. intros s r [Hid Hs]. exists (recorded (Notify task) u' r). split; [|done].
    pose proof (records_finished u output err finishedAt Hid Hout) as Hrec. fold u' in Hrec.
    destruct Hs as [(t & -> & Hc & ->)| ->]; cbn.
    - by rewrite Hc, Hrec.
    - by rewrite Hrec. }
  intros [e|]; cbn [recorded].
  { eapply triple_conseq; [exact (report_follows Aborted I)|done|]. intros a s Hs. by left. }
  assert (Hend : ∀ s, Recorded (Notify task) u' = s → over s) by (intros s <-; right; right; eauto).
  destruct (Notify task) eqn:Hn; [|by apply triple_ret]. destruct notify_set; [|by apply triple_ret]. cbn [andb].
  eapply (triple_bind run_step _ (ask (SendNotify _ _)) _ (λ _, eq (Recorded true u'))).
  { apply triple_ask. intros s r <-. eexists. split; [|done]. cbn. by rewrite bool_decide_eq_true_2. }
  intros [e|]; [|by apply triple_ret].
  eapply triple_bind; [by apply report_follows|]. intros ?.
  set (u'' := set_output u' _).
  eapply (triple_bind run_step _ (ask (UpdateRun u'')) _ (λ _, eq (Recorded true u'))).
  { apply triple_ask. intros s r <-. eexists. split; [apply note_step|done]. }
  intros [e2|]; [|by apply triple_ret].
  eapply triple_conseq; [exact (report_follows (Recorded true u') I)|done|]. intros ? s Hs. auto.
Qed.

Lemma unclaimed_follows {A} (p : prog request A) : follows (eq Unclaimed) p (λ _, over).
Proof.
  induction p as [a|c k IH]; [apply triple_ret; intros s <-; by right; left|].
  intros s t a Hs (r & t' & -> & Hx). destruct (IH r s t' a Hs Hx) as (s' & Hw & Ho).
  exists s'. cbn. subst s. by split.
Qed.

(** C35: what becomes of a run.  Every run follows the state machine above,
    whatever the store, the executor and the context answer: it is marked as
    running before anything is attempted; an attempt follows another only when
    that failed with an error that is not permanent, after a wait of five
    seconds times its number, and there are at most one more than the task
    allows; the outputs that the executor reports are stored in their order, with
    the number of the attempt; the result that is stored is that of the last attempt, a success
    exactly when it had no error, and no attempt follows it; and the run ends
    there, unless the store fails. *)
Theorem run_life notify_set t r :
  exec (execute notify_set run0) t r →
  ∃ s, watch run_step Starting t = Some s ∧ over s.
Proof.
  intros Hx. assert (H : follows (eq Starting) (execute notify_set run0) (λ _, over)).
  2:{ destruct (H Starting t r eq_refl Hx) as (s & Hw & Ho). by exists s. }
  unfold execute.
  eapply (triple_bind run_step _ (ask (GetTask _)) _ ((λ r, eq (match r with
     | inl task => if bool_decide (0 <= RetryCount task <= maxRetryCount) then Loaded task else Unclaimed
     | inr e => Ended false (Attempts run0) (Output run0) (Some e) end)) : answer (GetTask (RunTaskID run0)) → phase → Prop)).
  { apply triple_ask. intros s a <-. eexists. split; [|done]. cbn. destruct a; [|done].
    by rewrite bool_decide_eq_true_2. }
  intros [task|e].
  2:{ eapply triple_conseq; [apply (finish_follows notify_set (unknown_task (RunTaskID run0)) run0 (Output run0) (Some e) eq_refl)| |done].
      intros s <-. split; [done|]. by right. }
  case_bool_decide as Hr; [|by apply unclaimed_follows]. unfold maxRetryCount in Hr.
  eapply (triple_bind run_step _ (ask Now) _ (λ _, eq (Loaded task))).
  { apply triple_ask. intros s a <-. by eexists. }
  intros startedAt. set (u := mkRun _ _ _ _ _ _ _ _).
  eapply (triple_bind run_step _ (ask (UpdateRun u)) _ ((λ r, eq (match r with None => Ready task 1 | Some _ => Aborted end)) : answer (UpdateRun u) → phase → Prop)).
  { apply triple_ask. intros s a <-. eexists. split; [|done]. cbn. by rewrite !bool_decide_eq_true_2 by done. }
  intros [e|].
  { eapply triple_conseq; [exact (report_follows Aborted I)|done|]. intros a s Hs. by left. }
  eapply triple_bind; [apply (attempts_follow task (Z.to_nat (RetryCount task + 1))); [lia|lia|done|done]|].
  intros [[output err] u2]. cbn [fst snd]. apply (finish_follows notify_set task (set_output u2 output) output err eq_refl).
Qed.
End Machine.

(** A task that validation accepted is claimed, so the number of attempts and
    the waits between them are bounded. *)
Lemma validated_retries task : validateTask task = true → 0 <= RetryCount task <= maxRetryCount.
Proof.
  unfold validateTask. intros H. repeat (case_match; try discriminate H).
  match goal with H : bool_decide (RetryCount task < 0) || _ = false |- _ =>
    apply orb_false_iff in H as [?%bool_decide_eq_false_1 ?%bool_decide_eq_false_1] end. lia.
Qed.

(** ** A run with one retry *)

Definition demo_task : Task :=
  mkTask 7 "check" "modem0" "8901" EmptyString "sms" "cellular" 1 EmptyString EmptyString EmptyString
    (mkPayload "10086" "balance" 0) 2 true.
Definition demo_run : Run := mkRun 40 7 None None Queued 0 EmptyString EmptyString.

(** The first attempt fails after a report, the second succeeds; the
    notification fails.  The state counts the attempts. *)
Definition demo_device (n : Z) (c : request) : answer c * Z :=
  match c return answer c * Z with
  | GetTask _ => (inl demo_task, n)
  | UpdateRun _ => (None, n)
  | Now => (1000, n)
  | Execute _ => (if bool_decide (n = 0) then (["sending"%string], EmptyString, Some (mkError "timeout" false))
                  else ([], "sent"%string, None), n + 1)
  | WaitRetry _ => (true, n)
  | CtxErr => (mkError "canceled" false, n)
  | SendNotify _ _ => (Some (mkError "offline" false), n)
  | Report => (tt, n)
  end.

Lemma run_life_witness :
  let x := run_on demo_device (execute true demo_run) 0 in
  x.2 = 2 ∧ ∃ s, watch (run_step demo_run) Starting x.1.1 = Some s ∧ over s.
Proof.
  split; [vm_compute; reflexivity|].
  exact (run_life demo_run true _ tt (run_on_exec demo_device (execute true demo_run) 0)).
Defined.
