(* ===== verification/VolteCalls.v ===== *)
(** * Calls over native VoLTE (internal/volte/voice.go)

    The tracker of the calls of one device: what the modem reports about its
    calls ([handleVoiceInfo]), and what the user does to them, become the state
    of [voiceSession] and the events that the subscribers get.  The state of an
    operation is the [tracker]; its results are the outputs, in order.  Every
    method of [voiceSession] is a critical section; [handleVoiceInfo] runs alone
    (it holds [session.events]), and an operation that waits for the modem is
    cut at the wait ([finishLocalCall], [storeHold]).

    The texts of the log, the time of an event and the handlers' list are left
    out.  A map is never nil here, which the code restores before each write. *)

From S2P Require Import Prelude GoText.
From stdpp Require Import strings gmap pretty.
From Stdlib Require Import Ascii String.

#[local] Open Scope Z_scope.
#[local] Open Scope string_scope.

(** ** The report of the modem *)

Definition qmiCallIdle : Z := 0.
Definition qmiCallOriginating : Z := 1.
Definition qmiCallIncoming : Z := 2.
Definition qmiCallConversation : Z := 3.
Definition qmiCallCCInProgress : Z := 4.
Definition qmiCallAlerting : Z := 5.
Definition qmiCallHolding : Z := 6.
Definition qmiCallWaiting : Z := 7.
Definition qmiCallDisconnecting : Z := 8.
Definition qmiCallEnd : Z := 9.
Definition qmiCallSetup : Z := 10.
Definition qmiDirMT : Z := 2.

Definition VoiceCallModeNoService : Z := 0.
Definition VoiceCallModeCDMA : Z := 1.
Definition VoiceCallModeLTE : Z := 4.
Definition VoiceCallModeUnknown : Z := 6.
Definition VoiceCallModeWLAN : Z := 7.

Definition PacketSwitched (m : Z) : bool :=
  bool_decide (m = VoiceCallModeLTE) || bool_decide (m = VoiceCallModeWLAN).

Record VoiceCallInfo := mkInfo { InfoID : Z; InfoState : Z; InfoDirection : Z; InfoMode : Z }.

(** End reasons, codecs and numbers carry the identifier of their call. *)
Record VoiceAllCallInfo := mkAll {
  Calls : list VoiceCallInfo;
  RemotePartyNumbers : list (Z * string);
  EndReasons : list (Z * Z);
  SpeechCodecs : list (Z * Z) }.

(** ** Calls, states and events *)

Inductive CallState := NoState | Calling | Ringing | Waiting | Connected | Completed | Busy | Rejected | Failed.
Inductive Direction := NoDirection | Outbound | Inbound.
Inductive EventType :=
  | CallRinging | CallAnswered | CallWaiting | CallEnded | CallCanceled | CallFinalized | CallMediaUpdated.

#[global] Instance CallState_eq_dec : EqDecision CallState.
Proof. solve_decision. Defined.
#[global] Instance Direction_eq_dec : EqDecision Direction.
Proof. solve_decision. Defined.
#[global] Instance EventType_eq_dec : EqDecision EventType.
Proof. solve_decision. Defined.

Record nativeCall := mkCall {
  ID : string; QMI : Z; Mode : Z; Dir : Direction; Peer : string; State : CallState; Start : option Z;
  ClientSDP : string; Reason : string; Codec : string; Held : bool }.

Definition no_call : nativeCall := mkCall "" 0 0 NoDirection "" NoState None "" "" "" false.

Record qmiTombstone := mkTombstone { TombPeer : string; TombDirection : Direction; TombAt : Z }.

Record CallEvent := mkEvent {
  EvType : EventType; EvCall : string; EvCaller : string; EvCallee : string; EvDirection : Direction; EvState : CallState;
  EvReason : string; EvCodec : string; EvHeld : bool; EvRecordingError : string }.

Inductive output :=
  | EmitEvent (event : CallEvent)
  | EmitIncoming (id caller sdp : string)
  | StartAudio (id : string)
  | ReleaseAudio (id : string)
  | VoiceActivity.

(** ** The session (voiceSession)

    [media] is the media table of the controller, with the SDP of each entry;
    [callIDSeq] is the counter of identifiers. *)
Record tracker := mkTracker {
  active : gmap string nativeCall;
  byQMI : gmap Z string;
  emitted : gmap string (gset Z);
  incomingSeen : gset string;
  recentlyEnded : gmap Z qmiTombstone;
  media : gmap string string;
  callIDSeq : Z }.

(** [newVoiceSession], in a process that has named [n] calls. *)
Definition newVoiceSession (n : Z) : tracker := mkTracker ∅ ∅ ∅ ∅ ∅ ∅ n.

Definition with_calls (t : tracker) (a : gmap string nativeCall) (q : gmap Z string) : tracker :=
  mkTracker a q (emitted t) (incomingSeen t) (recentlyEnded t) (media t) (callIDSeq t).
Definition with_emitted (t : tracker) (m : gmap string (gset Z)) : tracker :=
  mkTracker (active t) (byQMI t) m (incomingSeen t) (recentlyEnded t) (media t) (callIDSeq t).
Definition with_incoming (t : tracker) (s : gset string) : tracker :=
  mkTracker (active t) (byQMI t) (emitted t) s (recentlyEnded t) (media t) (callIDSeq t).
Definition with_ended (t : tracker) (m : gmap Z qmiTombstone) : tracker :=
  mkTracker (active t) (byQMI t) (emitted t) (incomingSeen t) m (media t) (callIDSeq t).
Definition with_media (t : tracker) (m : gmap string string) : tracker :=
  mkTracker (active t) (byQMI t) (emitted t) (incomingSeen t) (recentlyEnded t) m (callIDSeq t).
Definition with_seq (t : tracker) (n : Z) : tracker :=
  mkTracker (active t) (byQMI t) (emitted t) (incomingSeen t) (recentlyEnded t) (media t) n.

Definition put (t : tracker) (call : nativeCall) : tracker :=
  with_calls t (<[ID call := call]> (active t)) (<[QMI call := ID call]> (byQMI t)).

Definition get (t : tracker) (id : string) : option nativeCall := active t !! id.

Definition getByQMI (t : tracker) (qmiID : Z) : nativeCall * bool :=
  match byQMI t !! qmiID with
  | None => (no_call, false)
  | Some id => match active t !! id with Some call => (call, true) | None => (no_call, false) end
  end.

(** [list]: in the order [o] of the map. *)
Definition list_calls (o : list nativeCall → list nativeCall) (t : tracker) : list nativeCall :=
  o (map_to_list (active t)).*2.

Definition marks (t : tracker) (id : string) : gset Z := default ∅ (emitted t !! id).

Definition markEmitted (t : tracker) (id : string) (rank : Z) : bool * tracker :=
  if bool_decide (rank ∈ marks t id) then (false, t)
  else (true, with_emitted t (<[id := {[rank]} ∪ marks t id]> (emitted t))).

Definition markIncoming (t : tracker) (id : string) : bool * tracker :=
  if bool_decide (id ∈ incomingSeen t) then (false, t)
  else (true, with_incoming t ({[id]} ∪ incomingSeen t)).

(** [forget], at the time [at_]. *)
Definition forget (t : tracker) (id : string) (at_ : Z) : tracker :=
  let '(q, ended) :=
    match active t !! id with
    | Some call =>
        (if bool_decide (byQMI t !! QMI call = Some id) then delete (QMI call) (byQMI t) else byQMI t,
         <[QMI call := mkTombstone (Peer call) (Dir call) at_]> (recentlyEnded t))
    | None => (byQMI t, recentlyEnded t)
    end in
  mkTracker (delete id (active t)) q (delete id (emitted t)) (incomingSeen t ∖ {[id]}) ended (media t) (callIDSeq t).

Definition qmiSlotReuseGrace : Z := 3 * 10 ^ 9.

Definition ignoreReusedQMISlot (t : tracker) (qmiID : Z) (peer : string) (direction : Direction) (now : Z) : bool * tracker :=
  match recentlyEnded t !! qmiID with
  | None => (false, t)
  | Some tomb =>
      if bool_decide (now - TombAt tomb > qmiSlotReuseGrace) then (false, with_ended t (delete qmiID (recentlyEnded t)))
      else if bool_decide (peer ≠ "") && bool_decide (TombPeer tomb ≠ "") && bool_decide (peer ≠ TombPeer tomb) then (false, t)
      else if bool_decide (direction ≠ NoDirection) && bool_decide (TombDirection tomb ≠ NoDirection)
              && bool_decide (direction ≠ TombDirection tomb) then (false, t)
      else (true, t)
  end.

(** ** States and their ranks *)

Definition mapQMIState (state : Z) : CallState * option EventType :=
  if bool_decide (state = qmiCallOriginating) then (Calling, Some CallRinging)
  else if bool_decide (state = qmiCallIncoming) || bool_decide (state = qmiCallAlerting)
       || bool_decide (state = qmiCallSetup) || bool_decide (state = qmiCallCCInProgress) then (Ringing, Some CallRinging)
  else if bool_decide (state = qmiCallConversation) || bool_decide (state = qmiCallHolding) then (Connected, Some CallAnswered)
  else if bool_decide (state = qmiCallWaiting) then (Waiting, Some CallWaiting)
  else if bool_decide (state = qmiCallIdle) || bool_decide (state = qmiCallDisconnecting)
       || bool_decide (state = qmiCallEnd) then (Completed, Some CallEnded)
  else (Calling, None).

Definition rankTerminal : Z := 4.

Definition stateRank (state : CallState) : Z :=
  match state with
  | Calling => 1
  | Ringing | Waiting => 2
  | Connected => 3
  | Completed | Busy | Rejected | Failed => rankTerminal
  | NoState => 0
  end.

Definition unansweredInbound (direction : Direction) (state : CallState) : bool :=
  match direction with
  | Inbound => match state with NoState | Calling | Ringing | Waiting => true | _ => false end
  | _ => false
  end.

Definition qmiEndReasonName (code : Z) : string :=
  if bool_decide (code = 16) || bool_decide (code = 31) then "normal"
  else if bool_decide (code = 17) then "busy"
  else if bool_decide (code = 21) then "rejected"
  else "qmi_end_" +:+ pretty code.

Definition qmiCodecName (code : Z) : string :=
  if bool_decide (code = 6) then "AMR"
  else if bool_decide (code = 7) then "AMR-WB"
  else if bool_decide (code = 8) then "EVS"
  else "codec_" +:+ pretty code.

Fixpoint remote_number (numbers : list (Z * string)) (id : Z) : string :=
  match numbers with
  | [] => ""
  | (call, number) :: numbers => if bool_decide (call = id) then number else remote_number numbers id
  end.
Definition remoteNumber (info : VoiceAllCallInfo) (id : Z) : string := remote_number (RemotePartyNumbers info) id.

(** The last entry of a call, over a list of pairs. *)
Definition last_of (l : list (Z * Z)) (id : Z) : option Z :=
  fold_left (λ found p, if bool_decide (p.1 = id) then Some p.2 else found) l None.

Definition startedAt (prev : nativeCall) (now : Z) : option Z :=
  match Start prev with Some s => Some s | None => Some now end.

(** The fields of [Status] that [audioError] reads. *)
Record Status := mkStatus {
  UACUnusable : bool; QPCMVFailed : bool; AudioDevice : string; UACEnabled : bool; RebootRequired : bool }.

Definition audioError (st : Status) : string :=
  if UACUnusable st then "模组 USB 声卡不可用，VoLTE 可打但没有模组音频"
  else if QPCMVFailed st then "模组无法把通话 PCM 接到 USB 声卡（QPCMV 失败），能打通但没有声音"
  else if bool_decide (TrimSpace (AudioDevice st) ≠ "") && UACEnabled st && negb (RebootRequired st) then ""
  else if RebootRequired st then "VoLTE 音频需要 UAC，模组可能要重启后才有声卡"
  else "VoLTE 音频不可用：未检测到 UAC 声卡".

(** ** What an operation meets

    The time; the clock when a call is named and when it is forgotten; the SDP
    of the media of a call, if it can be made; whether audio is configured; the
    status of the device; and the order in which the map of calls is walked. *)
Record env := mkEnv {
  e_now : Z;
  e_nano : Z → Z;
  e_forget : string → Z;
  e_media : string → option string;
  e_audio : bool;
  e_status : Status;
  e_order : list nativeCall → list nativeCall }.

Section Device.
Context (deviceID : string).

Definition call_id (qmiID nanos seq : Z) : string :=
  "volte-" +:+ TrimSpace deviceID +:+ "-" +:+ pretty qmiID +:+ "-" +:+ pretty nanos +:+ "-" +:+ pretty seq.

Definition newPersistentCallID (e : env) (t : tracker) (qmiID : Z) : string * tracker :=
  let seq := u64 (callIDSeq t + 1) in
  (call_id qmiID (e_nano e seq) seq, with_seq t seq).

Definition releaseCallAudio (t : tracker) (id : string) : tracker * list output :=
  (with_media t (delete id (media t)), [ReleaseAudio id]).

Definition emit (e : env) (type : EventType) (call : nativeCall) (state : CallState) (reason : string) : output :=
  EmitEvent (mkEvent type (ID call) (Peer call) (Peer call) (Dir call) state reason (Codec call) false (audioError (e_status e))).

Definition emitCallFinalized (e : env) (call : nativeCall) (reason : string) : output :=
  emit e CallFinalized call Completed reason.

Definition set_sdp (call : nativeCall) (sdp : string) : nativeCall :=
  mkCall (ID call) (QMI call) (Mode call) (Dir call) (Peer call) (State call) (Start call) sdp (Reason call) (Codec call) (Held call).
Definition set_state (call : nativeCall) (state : CallState) : nativeCall :=
  mkCall (ID call) (QMI call) (Mode call) (Dir call) (Peer call) state (Start call) (ClientSDP call) (Reason call) (Codec call) (Held call).
Definition set_held (call : nativeCall) (held : bool) : nativeCall :=
  mkCall (ID call) (QMI call) (Mode call) (Dir call) (Peer call) (State call) (Start call) (ClientSDP call) (Reason call) (Codec call) held.

(** ** The report (handleVoiceInfo) *)

(** What the report says of a call that was [prev]: its state, the event of
    that state, and the reason. *)
Definition reported (info : VoiceAllCallInfo) (item : VoiceCallInfo) (prev : nativeCall)
    : CallState * option EventType * string :=
  let '(state, eventType) := mapQMIState (InfoState item) in
  let reason := if negb (PacketSwitched (InfoMode item)) && negb (bool_decide (InfoMode item = 0)) then "cs_fallback"
                else Reason prev in
  match last_of (EndReasons info) (InfoID item) with
  | None => (state, eventType, reason)
  | Some code =>
      if bool_decide (stateRank state ≠ rankTerminal) then (Completed, Some CallEnded, qmiEndReasonName code)
      else (state, eventType, qmiEndReasonName code)
  end.

(** A call that comes in is announced once, with its media. *)
Definition announce (e : env) (t : tracker) (next : nativeCall) : tracker * list output :=
  if bool_decide (Dir next = Inbound) then
    let '(first, t) := markIncoming t (ID next) in
    if first then
      let '(next, t) :=
        if bool_decide (ClientSDP next = "") then
          match e_media e (ID next) with
          | Some sdp => let next := set_sdp next sdp in (next, with_media (put t next) (<[ID next := sdp]> (media t)))
          | None => (next, t)
          end
        else (next, t) in
      (t, [EmitIncoming (ID next) (Peer next) (ClientSDP next)])
    else (t, [])
  else (t, []).

(** From [vs.put(next)] to the end of the body of the loop. *)
Definition settle (e : env) (t : tracker) (prev next : nativeCall) (eventType : option EventType) : tracker * list output :=
  let '(t, out) := announce e (put t next) next in
  let eventType :=
    if bool_decide (eventType = Some CallEnded) && unansweredInbound (Dir next) (State prev)
    then Some CallCanceled else eventType in
  match eventType with
  | None => (t, out)
  | Some type =>
      let '(first, t) := markEmitted t (ID next) (stateRank (State next)) in
      if first then
        let out := (out ++ [emit e type next (State next) (Reason next)])%list in
        let out := if bool_decide (type = CallAnswered) && e_audio e then (out ++ [StartAudio (ID next)])%list else out in
        if bool_decide (type = CallEnded) || bool_decide (type = CallCanceled) then
          let out := if bool_decide (State prev = Connected) then (out ++ [emitCallFinalized e next (Reason next)])%list else out in
          let '(t, released) := releaseCallAudio t (ID next) in
          (forget t (ID next) (e_forget e (ID next)), (out ++ released)%list)
        else (t, out)
      else (t, out)
  end.

(** The body of the loop over the calls of the report. *)
Definition voice_item (e : env) (info : VoiceAllCallInfo) (item : VoiceCallInfo) (t : tracker) (seen : gset string)
    : tracker * gset string * list output :=
  let peer := remoteNumber info (InfoID item) in
  let dir := if bool_decide (InfoDirection item = qmiDirMT) then Inbound else Outbound in
  let '(prev, existed) := getByQMI t (InfoID item) in
  let '(state, eventType, reason) := reported info item prev in
  if negb existed && bool_decide (stateRank state = rankTerminal) then (t, seen, [])
  else
    let '(ignored, t) := if existed then (false, t) else ignoreReusedQMISlot t (InfoID item) peer dir (e_now e) in
    if ignored then (t, seen, [])
    else
      let '(id, t) := if existed then (ID prev, t) else newPersistentCallID e t (InfoID item) in
      let seen := {[id]} ∪ seen in
      if existed && bool_decide (stateRank state < stateRank (State prev)) && bool_decide (stateRank state ≠ rankTerminal)
      then (t, seen, [])
      else
        let next :=
          mkCall id (InfoID item) (InfoMode item)
            (if bool_decide (dir = Outbound) && bool_decide (Dir prev ≠ NoDirection) then Dir prev else dir)
            (if bool_decide (peer = "") then Peer prev else peer)
            state (startedAt prev (e_now e)) (ClientSDP prev) reason
            (match last_of (SpeechCodecs info) (InfoID item) with Some code => qmiCodecName code | None => Codec prev end)
            (Held prev) in
        let '(t, out) := settle e t prev next eventType in (t, seen, out).

Fixpoint voice_items (e : env) (info : VoiceAllCallInfo) (items : list VoiceCallInfo) (t : tracker) (seen : gset string)
    : tracker * gset string * list output :=
  match items with
  | [] => (t, seen, [])
  | item :: items =>
      let '(t, seen, out) := voice_item e info item t seen in
      let '(t, seen, out') := voice_items e info items t seen in (t, seen, (out ++ out')%list)
  end.

(** A call that the report does not name any more. *)
Definition voice_gone (e : env) (seen : gset string) (t : tracker) (call : nativeCall) : tracker * list output :=
  if bool_decide (ID call ∈ seen) || bool_decide (stateRank (State call) = rankTerminal) then (t, [])
  else
    let eventType := if unansweredInbound (Dir call) (State call) then CallCanceled else CallEnded in
    let wasConnected := bool_decide (State call = Connected) in
    let call := set_state call Completed in
    let t := put t call in
    let '(first, t) := markEmitted t (ID call) (stateRank Completed) in
    if first then
      let out := [emit e eventType call Completed (Reason call)] in
      let out := if wasConnected then (out ++ [emitCallFinalized e call (Reason call)])%list else out in
      let '(t, released) := releaseCallAudio t (ID call) in
      (forget t (ID call) (e_forget e (ID call)), (out ++ released)%list)
    else (t, []).

Fixpoint voice_rest (e : env) (seen : gset string) (t : tracker) (calls : list nativeCall) : tracker * list output :=
  match calls with
  | [] => (t, [])
  | call :: calls =>
      let '(t, out) := voice_gone e seen t call in
      let '(t, out') := voice_rest e seen t calls in (t, (out ++ out')%list)
  end.

Definition handleVoiceInfo (e : env) (info : VoiceAllCallInfo) (t : tracker) : tracker * list output :=
  let activity := match Calls info with [] => [] | _ => [VoiceActivity] end in
  let '(t, seen, out) := voice_items e info (Calls info) t ∅ in
  let '(t, out') := voice_rest e seen t (list_calls (e_order e) t) in
  (t, (activity ++ out ++ out')%list).

(** ** The user's operations *)

(** [beginCall], when the modem answered the dialling with [qmiID]; what the
    checks before it say is the caller's. *)
Definition begin_dialed (e : env) (callee : string) (t : tracker) (qmiID : Z) : tracker * list output * string :=
  let '(prev, ok) := getByQMI t qmiID in
  let current := ok && bool_decide (stateRank (State prev) ≠ rankTerminal) in
  let now := if current then match Start prev with Some s => s | None => e_now e end else e_now e in
  let mode := if current then Mode prev else VoiceCallModeNoService in
  let '(id, t) := if current && bool_decide (ID prev ≠ "") then (ID prev, t) else newPersistentCallID e t qmiID in
  let '(sdp, t) :=
    match e_media e id with
    | Some sdp => (sdp, with_media t (<[id := sdp]> (media t)))
    | None => ("", t)
    end in
  let call := mkCall id qmiID mode Outbound callee Calling (Some now) sdp "" "" false in
  let '(_, t) := markEmitted (put t call) id (stateRank Calling) in
  (t, [EmitEvent (mkEvent CallRinging id "" callee Outbound Calling "" "" false (audioError (e_status e)))], id).

Definition beginCall (e : env) (registered indications subscribed : bool) (dialed : option Z) (callee : string) (t : tracker)
    : tracker * list output * option string :=
  if negb registered then (t, [], None)
  else if negb indications then (t, [], None)
  else if negb subscribed then (t, [], None)
  else match dialed with
       | None => (t, [], None)
       | Some qmiID => let '(t, out, id) := begin_dialed e callee t qmiID in (t, out, Some id)
       end.

Definition lookup_call (t : tracker) (id : string) : option nativeCall := get t id.

(** [call] is what was looked up before the modem was asked. *)
Definition finishLocalCall (e : env) (t : tracker) (call : nativeCall) (reason : string) : tracker * list output :=
  let reason := if bool_decide (TrimSpace reason = "") then Reason call else reason in
  let '(first, t) := markEmitted t (ID call) (stateRank Completed) in
  if negb first then (forget t (ID call) (e_forget e (ID call)), [])
  else
    let '(t, released) := releaseCallAudio t (ID call) in
    let t := forget t (ID call) (e_forget e (ID call)) in
    (t, (released ++ [VoiceActivity; emit e CallEnded call Completed reason] ++
         (if bool_decide (State call = Connected) then [emitCallFinalized e call reason] else []))%list).

(** The errors of a hang-up that the code tells apart. *)
Inductive hangup_error := AlreadyGone | ControlLost | Refused.

Definition hangupReason (err : option hangup_error) : string :=
  match err with None => "local_hangup" | Some _ => "already_ended" end.

(** [HangupCall] after the modem's answer; [false] when the error is returned. *)
Definition hangup_finish (e : env) (t : tracker) (call : nativeCall) (err : option hangup_error) (reason : string)
    : tracker * list output * bool :=
  match err with
  | Some Refused => (t, [], false)
  | _ => let '(t, out) := finishLocalCall e t call reason in (t, out, true)
  end.

Definition HangupCall (e : env) (t : tracker) (id : string) (err : option hangup_error) : tracker * list output * bool :=
  match lookup_call t id with
  | None => (t, [], true)
  | Some call =>
      let '(t, released) := releaseCallAudio t id in
      let '(t, out, ok) := hangup_finish e t call err (hangupReason err) in (t, (released ++ out)%list, ok)
  end.

Definition RejectIncomingCall (e : env) (t : tracker) (id : string) (err : option hangup_error) : tracker * list output * bool :=
  match lookup_call t id with
  | None => (t, [], true)
  | Some call =>
      let '(t, released) := releaseCallAudio t id in
      let '(t, out, ok) := hangup_finish e t call err "rejected" in (t, (released ++ out)%list, ok)
  end.

(** [setNativeHold] after the modem's answer. *)
Definition storeHold (e : env) (t : tracker) (call : nativeCall) (hold : bool) : tracker * list output :=
  let call := set_held call hold in
  (put t call, [EmitEvent (mkEvent CallMediaUpdated (ID call) (Peer call) (Peer call) (Dir call) (State call) "" "" hold (audioError (e_status e)))]).

(** [accepted]: the modem took the request or the fallback. *)
Definition setNativeHold (e : env) (t : tracker) (id : string) (hold accepted : bool) : tracker * list output * bool :=
  match lookup_call t id with
  | None => (t, [], false)
  | Some call =>
      if bool_decide (Held call = hold) then (t, [], true)
      else if negb accepted then (t, [], false)
      else let '(t, out) := storeHold e t call hold in (t, out, true)
  end.

Definition release_retired (audio : bool) (t : tracker) (call : nativeCall) : list output :=
  if audio || bool_decide (media t !! ID call ≠ None) then [ReleaseAudio (ID call)] else [].

(** [RetireDevice]: the calls are dropped without an event; the session that
    the device gets next is a new one. *)
Definition RetireDevice (e : env) (t : tracker) : tracker * list output :=
  let calls := list_calls (e_order e) t in
  (mkTracker ∅ ∅ ∅ ∅ ∅ (fold_left (λ m call, delete (ID call) m) calls (media t)) (callIDSeq t),
   List.concat (release_retired (e_audio e) t <$> calls)).

Definition ActiveCall (o : list nativeCall → list nativeCall) (t : tracker) : option nativeCall :=
  List.find (λ call, negb (bool_decide (State call = Completed))) (list_calls o t).
End Device.
