(* ===== verification/VolteCallsProofs.v ===== *)
(** * The life of a native VoLTE call

    Identifiers are never given twice; the session keeps its calls under their
    identifier and under the modem's; and what the subscribers are told of a
    call is a life: it rises, ends once and is finalised exactly when it was
    answered. *)

From S2P Require Import Prelude GoText SmsCodecProofs VolteCalls.
From Stdlib Require Import Ascii String.
From stdpp Require Import strings gmap pretty functions list.

#[local] Open Scope Z_scope.

(** ** Identifiers *)

Definition dash : ascii := "-"%char.

Lemma pretty_N_go_no_dash x : ∀ s, dash ∉ list_ascii_of_string s → dash ∉ list_ascii_of_string (pretty_N_go x s).
Proof.
  induction (N.lt_wf_0 x) as [x _ IH]; intros s Hs.
  destruct (decide (x = 0)%N) as [->|Hx]; [by rewrite pretty_N_go_0|].
  rewrite pretty_N_go_step by lia. apply IH; [apply N.div_lt; lia|].
  cbn [list_ascii_of_string]. apply not_elem_of_cons. split; [|done].
  unfold pretty_N_char, dash. by repeat case_match.
Qed.

Lemma pretty_no_dash n : 0 <= n → dash ∉ list_ascii_of_string (pretty n).
Proof.
  intros Hn. destruct n as [|p|p]; [|unfold pretty, pretty_Z|lia].
  - change (dash ∉ ["0"%char]). apply not_elem_of_cons. split; [done|apply not_elem_of_nil].
  - unfold pretty, pretty_positive, pretty, pretty_N. case_decide; [done|]. apply pretty_N_go_no_dash, not_elem_of_nil.
Qed.

Lemma last_field {A} (c : A) l1 l2 d1 d2 :
  c ∉ d1 → c ∉ d2 → l1 ++ c :: d1 = l2 ++ c :: d2 → d1 = d2.
Proof.
  intros H1 H2. revert l2. induction l1 as [|a l1 IH]; intros [|b l2] Heq; cbn in Heq.
  - by injection Heq.
  - injection Heq as -> ->. set_solver.
  - injection Heq as -> <-. set_solver.
  - injection Heq as -> Heq. by eapply IH.
Qed.

Section Names.
Context (deviceID : string).

Lemma call_id_fields q n k :
  call_id deviceID q n k =
  ((("volte-" +:+ TrimSpace deviceID +:+ "-" +:+ pretty q +:+ "-" +:+ pretty n)%string) +:+ String dash (pretty k))%string.
Proof. unfold call_id. by rewrite <- !append_assoc. Qed.

Lemma call_id_seq q n k q' n' k' :
  0 <= k → 0 <= k' → call_id deviceID q n k = call_id deviceID q' n' k' → k = k'.
Proof.
  intros Hk Hk' Heq. apply (f_equal list_ascii_of_string) in Heq. rewrite !call_id_fields, !list_ascii_app in Heq.
  apply last_field in Heq; [|by apply pretty_no_dash..].
  apply (f_equal string_of_list_ascii) in Heq. rewrite !string_of_list_ascii_of_string in Heq.
  by apply (inj pretty) in Heq.
Qed.

(** An identifier that was given before the counter stood at [seq]. *)
Definition named (seq : Z) (id : string) : Prop := ∃ q n k, 0 < k <= seq ∧ id = call_id deviceID q n k.

Lemma named_mono seq seq' id : seq <= seq' → named seq id → named seq' id.
Proof. intros Hle (q & n & k & Hk & ->). exists q, n, k. split; [lia|done]. Qed.

Lemma named_fresh seq q n : 0 <= seq → ¬ named seq (call_id deviceID q n (seq + 1)).
Proof. intros Hs (q' & n' & k & Hk & Heq). apply call_id_seq in Heq; lia. Qed.

Lemma named_nonempty seq id : named seq id → id ≠ EmptyString.
Proof. by intros (q & n & k & _ & ->). Qed.
End Names.

(** ** What is told of a call

    The highest rank that was told, and whether the call was announced as
    incoming; after the end of an answered call its finalisation is due. *)
Inductive phase :=
  | Alive (top : Z) (announced : bool)
  | Closing
  | Over.

#[global] Instance phase_eq_dec : EqDecision phase.
Proof. solve_decision. Defined.

Definition born : phase := Alive 0 false.

Definition told (p : phase) (ev : CallEvent) : option phase :=
  match EvType ev, p with
  | CallMediaUpdated, Alive _ _ => Some p
  | CallRinging, Alive top announced =>
      let r := stateRank (EvState ev) in
      if bool_decide (r = 1 ∨ r = 2) && (bool_decide (top < r) || (bool_decide (r = 1) && bool_decide (top = 1)))
      then Some (Alive r announced) else None
  | CallWaiting, Alive top announced =>
      if bool_decide (EvState ev = Waiting) && bool_decide (top < 2) then Some (Alive 2 announced) else None
  | CallAnswered, Alive top announced =>
      if bool_decide (EvState ev = Connected) && bool_decide (top < 3) then Some (Alive 3 announced) else None
  | CallEnded, Alive top _ =>
      if bool_decide (EvState ev = Completed) then Some (if bool_decide (top = 3) then Closing else Over) else None
  | CallCanceled, Alive top _ =>
      if bool_decide (EvState ev = Completed) && bool_decide (EvDirection ev = Inbound) && bool_decide (top < 3)
      then Some Over else None
  | CallFinalized, Closing => if bool_decide (EvState ev = Completed) then Some Over else None
  | _, _ => None
  end.

(** What an output means for the call [id]. *)
Definition life_step (id : string) (p : phase) (o : output) : option phase :=
  match o with
  | EmitEvent ev => if bool_decide (EvCall ev = id) then told p ev else Some p
  | EmitIncoming id' _ _ =>
      if bool_decide (id' = id) then
        match p with Alive top false => Some (Alive top true) | _ => None end
      else Some p
  | StartAudio id' => if bool_decide (id' = id) then match p with Alive 3 _ => Some p | _ => None end else Some p
  | ReleaseAudio _ | VoiceActivity => Some p
  end.

Fixpoint life (id : string) (p : phase) (out : list output) : option phase :=
  match out with
  | [] => Some p
  | o :: out => match life_step id p o with Some p => life id p out | None => None end
  end.

Lemma life_app id p out out' :
  life id p (out ++ out') = match life id p out with Some p => life id p out' | None => None end.
Proof. revert p. induction out as [|o out IH]; intros p; cbn; [done|]. by destruct (life_step id p o). Qed.

(** The phases of all calls. *)
Abbreviation phases := (string → phase).

Definition follows (ph : phases) (out : list output) (ph' : phases) : Prop :=
  ∀ id, life id (ph id) out = Some (ph' id).

Lemma follows_nil ph : follows ph [] ph.
Proof. done. Qed.

Lemma follows_app ph out ph' out' ph'' : follows ph out ph' → follows ph' out' ph'' → follows ph (out ++ out') ph''.
Proof. intros H1 H2 id. by rewrite life_app, H1. Qed.

(** Outputs about one call. *)
Definition about (id : string) (o : output) : Prop :=
  match o with
  | EmitEvent ev => EvCall ev = id
  | EmitIncoming id' _ _ | StartAudio id' => id' = id
  | ReleaseAudio _ | VoiceActivity => True
  end.

Lemma life_other id id' p out : Forall (about id) out → id' ≠ id → life id' p out = Some p.
Proof.
  intros Hout Hne. revert p. induction Hout as [|o out Ho _ IH]; intros p; [done|]. cbn.
  assert (life_step id' p o = Some p) as ->; [|done].
  destruct o; cbn in *; subst; rewrite ?bool_decide_eq_false_2 by congruence; done.
Qed.

Lemma follows_one ph id p out :
  Forall (about id) out → life id (ph id) out = Some p → follows ph out (<[id := p]> ph).
Proof.
  intros Hout Hp id'. destruct (decide (id' = id)) as [->|Hne].
  - by rewrite fn_lookup_insert.
  - rewrite fn_lookup_insert_ne by done. by apply (life_other id).
Qed.

(** ** The invariant *)
Section Session.
Context (deviceID : string).
Notation named := (named deviceID).

(** The ranks that are marked as told, under the highest. *)
Record marked (m : gset Z) (top : Z) : Prop := {
  marked_pos : 0 <= top;
  marked_le r : r ∈ m → r <= top;
  marked_top : 0 < top → top ∈ m }.

(** A tracked state, and what was told. *)
Definition linked (s : CallState) (top : Z) : Prop := top <= stateRank s <= 3 ∧ (s = Connected ↔ top = 3).

Definition is_announced (t : tracker) (id : string) : bool := bool_decide (id ∈ incomingSeen t).

Record tracked (t : tracker) (ph : phases) (id : string) (c : nativeCall) (top : Z) : Prop := {
  tr_id : ID c = id;
  tr_qmi : byQMI t !! QMI c = Some id;
  tr_named : named (callIDSeq t) id;
  tr_phase : ph id = Alive top (is_announced t id);
  tr_marks : marked (marks t id) top }.

Record unknown (t : tracker) (ph : phases) (id : string) : Prop := {
  un_emitted : emitted t !! id = None;
  un_incoming : id ∉ incomingSeen t;
  un_media : media t !! id = None;
  un_closing : ph id ≠ Closing;
  un_named : ph id ≠ born → named (callIDSeq t) id }.

Definition good (t : tracker) (ph : phases) (id : string) : Prop :=
  match active t !! id with
  | Some c => ∃ top, tracked t ph id c top ∧ linked (State c) top
  | None => unknown t ph id
  end.

Record common (t : tracker) : Prop := {
  com_qmi q id : byQMI t !! q = Some id → ∃ c, active t !! id = Some c ∧ QMI c = q;
  com_seq : 0 <= callIDSeq t < 2 ^ 64 }.

Definition Inv (t : tracker) (ph : phases) : Prop := common t ∧ ∀ id, good t ph id.

(** In the middle of an operation on the call [id]: its state may run ahead of
    what was told. *)
Record Mid (t : tracker) (ph : phases) (id : string) (c : nativeCall) (top : Z) : Prop := {
  mid_common : common t;
  mid_others id' : id' ≠ id → good t ph id';
  mid_active : active t !! id = Some c;
  mid_tracked : tracked t ph id c top }.

Lemma inv_mid t ph id c : Inv t ph → active t !! id = Some c → ∃ top, Mid t ph id c top ∧ linked (State c) top.
Proof.
  intros [Hc Hg] Ha. specialize (Hg id) as Hid. unfold good in Hid. rewrite Ha in Hid.
  destruct Hid as (top & Ht & Hl). exists top. by split.
Qed.

Lemma mid_inv t ph id c top : Mid t ph id c top → linked (State c) top → Inv t ph.
Proof.
  intros [Hc Ho Ha Ht] Hl. split; [done|]. intros id'. destruct (decide (id' = id)) as [->|Hne]; [|by apply Ho].
  unfold good. rewrite Ha. by exists top.
Qed.

(** ** The steps of an operation *)

Lemma good_frame t t' ph ph' id :
  active t' !! id = active t !! id → emitted t' !! id = emitted t !! id →
  (id ∈ incomingSeen t' ↔ id ∈ incomingSeen t) → media t' !! id = media t !! id →
  (∀ c, active t !! id = Some c → byQMI t !! QMI c = Some id → byQMI t' !! QMI c = Some id) →
  callIDSeq t <= callIDSeq t' → ph' id = ph id → good t ph id → good t' ph' id.
Proof.
  intros Ha He Hi Hm Hq Hs Hp Hg. unfold good in *. rewrite Ha. destruct (active t !! id) as [c|].
  - destruct Hg as (top & [H1 H2 H3 H4 H5] & Hl). exists top. split; [|done]. split; [done|by apply Hq| | |].
    + by eapply named_mono.
    + rewrite Hp, H4. f_equal. unfold is_announced. by apply bool_decide_ext.
    + unfold marks in *. by rewrite He.
  - destruct Hg as [H1 H2 H3 H4 H5]. split; [by rewrite He|by rewrite Hi|by rewrite Hm|by rewrite Hp|].
    rewrite Hp. intros Hb. by eapply named_mono; [|apply H5].
Qed.

Lemma frame_seq t ph n : callIDSeq t <= n < 2 ^ 64 → Inv t ph → Inv (with_seq t n) ph.
Proof.
  intros Hn [[Hq Hs] Hg]. split; [split; [done|cbn; lia]|]. intros id.
  by apply (good_frame t) with (ph := ph); [done..|apply Hn| |].
Qed.

Lemma frame_ended t ph m : Inv t ph → Inv (with_ended t m) ph.
Proof. intros [[Hq Hs] Hg]. split; [by split|]. intros id. by apply (good_frame t) with (ph := ph). Qed.

Lemma put_same t ph id c c' top :
  Mid t ph id c top → ID c' = id → QMI c' = QMI c → Mid (put t c') ph id c' top.
Proof.
  intros [[Hq Hs] Ho Ha [H1 H2 H3 H4 H5]] Hid Hqmi. split; [split; [|done]| | |split]; cbn; rewrite ?Hid, ?Hqmi.
  - intros q id' [[<- <-]|[? Hb]]%lookup_insert_Some.
    + exists c'. by rewrite lookup_insert_eq.
    + destruct (Hq q id' Hb) as (d & Hd & Hdq). destruct (decide (id' = id)) as [->|Hne].
      * by simplify_eq.
      * exists d. by rewrite lookup_insert_ne.
  - intros id' Hne. apply (good_frame t) with (ph := ph); cbn; rewrite ?Hid, ?Hqmi; try done; [by rewrite lookup_insert_ne| |by apply Ho].
    intros d Hd Hb. rewrite lookup_insert_ne; [done|]. intros Heq. rewrite Heq in H2. congruence.
  - by rewrite lookup_insert_eq.
  - done.
  - by rewrite lookup_insert_eq.
  - done.
  - done.
  - done.
Qed.

Lemma put_fresh t ph c :
  Inv t ph → active t !! ID c = None → byQMI t !! QMI c = None → ph (ID c) = born → named (callIDSeq t) (ID c) →
  Mid (put t c) ph (ID c) c 0.
Proof.
  intros [[Hq Hs] Hg] Ha Hb Hp Hn. pose proof (Hg (ID c)) as Hu. unfold good in Hu. rewrite Ha in Hu.
  destruct Hu as [U1 U2 U3 U4 U5]. split; [split; [|done]| | |split]; cbn.
  - intros q id' [[<- <-]|[? Hb']]%lookup_insert_Some.
    + exists c. by rewrite lookup_insert_eq.
    + destruct (Hq q id' Hb') as (d & Hd & Hdq). exists d. rewrite lookup_insert_ne; [done|]. congruence.
  - intros id' Hne. apply (good_frame t) with (ph := ph); cbn; try done; [by rewrite lookup_insert_ne|].
    intros d Hd Hb'. rewrite lookup_insert_ne; [done|]. congruence.
  - by rewrite lookup_insert_eq.
  - done.
  - by rewrite lookup_insert_eq.
  - done.
  - rewrite Hp. unfold born, is_announced. cbn. by rewrite bool_decide_eq_false_2.
  - unfold marks. cbn. rewrite U1. split; [lia|set_solver|lia].
Qed.

Lemma media_put t ph id c top sdp : Mid t ph id c top → Mid (with_media t (<[id := sdp]> (media t))) ph id c top.
Proof.
  intros [[Hq Hs] Ho Ha [H1 H2 H3 H4 H5]]. split; [by split| |done|by split].
  intros id' Hne. apply (good_frame t) with (ph := ph); cbn; try done; [by rewrite lookup_insert_ne|by apply Ho].
Qed.

Lemma mark_incoming t ph id c top :
  Mid t ph id c top → id ∉ incomingSeen t →
  Mid (with_incoming t ({[id]} ∪ incomingSeen t)) (<[id := Alive top true]> ph) id c top.
Proof.
  intros [[Hq Hs] Ho Ha [H1 H2 H3 H4 H5]] Hi. split; [by split| |done|split; try done].
  - intros id' Hne. apply (good_frame t) with (ph := ph); cbn; try done; [set_solver|by rewrite fn_lookup_insert_ne|by apply Ho].
  - rewrite fn_lookup_insert. f_equal. unfold is_announced. cbn. rewrite bool_decide_eq_true_2; set_solver.
Qed.

Lemma mark_emitted t ph id c top r :
  Mid t ph id c top → top < r →
  Mid (with_emitted t (<[id := {[r]} ∪ marks t id]> (emitted t))) (<[id := Alive r (is_announced t id)]> ph) id c r.
Proof.
  intros [[Hq Hs] Ho Ha [H1 H2 H3 H4 [M1 M2 M3]]] Hr. split; [by split| |done|split; try done].
  - intros id' Hne. apply (good_frame t) with (ph := ph); cbn; try done; [by rewrite lookup_insert_ne|by rewrite fn_lookup_insert_ne|by apply Ho].
  - by rewrite fn_lookup_insert.
  - unfold marks. cbn. rewrite lookup_insert_eq. cbn. split; [lia| |set_solver].
    intros r' [->%elem_of_singleton|Hr']%elem_of_union; [lia|]. specialize (M2 r' Hr'). lia.
Qed.

(** The end of a call. *)
Lemma forget_over t ph id c top at_ t1 :
  Mid t ph id c top → t1 = (releaseCallAudio t id).1 ∨ (∃ m, t1 = (releaseCallAudio (with_emitted t (<[id := m]> (emitted t))) id).1) →
  Inv (forget t1 id at_) (<[id := Over]> ph).
Proof.
  intros [[Hq Hs] Ho Ha [H1 H2 H3 H4 H5]] Ht1.
  assert (Hf : active t1 = active t ∧ byQMI t1 = byQMI t ∧ delete id (emitted t1) = delete id (emitted t) ∧
               incomingSeen t1 = incomingSeen t ∧ media t1 = delete id (media t) ∧ callIDSeq t1 = callIDSeq t).
  { destruct Ht1 as [->|(m & ->)]; cbn; split_and!; try done. by rewrite delete_insert_eq. }
  destruct Hf as (F1 & F2 & F3 & F4 & F5 & F6).
  unfold forget. rewrite F1, F2, F3, F4, F5, F6, Ha, H2. rewrite bool_decide_eq_true_2 by done.
  split; [split; [|done]|]; cbn.
  - intros q id' [Hne Hb]%lookup_delete_Some. destruct (Hq q id' Hb) as (d & Hd & Hdq).
    exists d. rewrite lookup_delete_ne; [done|]. intros <-. simplify_eq.
  - intros id'. destruct (decide (id' = id)) as [->|Hne].
    + unfold good. cbn. rewrite lookup_delete_eq. split; cbn; rewrite ?lookup_delete_eq, ?fn_lookup_insert; try done. set_solver.
    + apply (good_frame t) with (ph := ph); cbn; rewrite ?lookup_delete_ne by done; try done;
        [set_solver| |by rewrite fn_lookup_insert_ne|by apply Ho].
      intros d Hd Hb. rewrite lookup_delete_ne; [done|]. congruence.
Qed.

(** ** The report of the modem *)

Lemma announce_mid e t ph next top :
  Mid t ph (ID next) next top →
  ∃ ph' next', follows ph (announce e t next).2 ph' ∧ Mid (announce e t next).1 ph' (ID next) next' top ∧
    State next' = State next ∧ callIDSeq (announce e t next).1 = callIDSeq t.
Proof.
  intros Hm. unfold announce. destruct (decide (Dir next = Inbound)) as [Hd|Hd].
  2:{ rewrite bool_decide_eq_false_2 by done. by exists ph, next. }
  rewrite bool_decide_eq_true_2 by done. unfold markIncoming. case_bool_decide as Hi; [by exists ph, next|].
  pose proof (mark_incoming _ _ _ _ _ Hm Hi) as Hm1.
  assert (Hf : ∀ caller sdp, follows ph [EmitIncoming (ID next) caller sdp] (<[ID next := Alive top true]> ph)).
  { intros caller sdp. apply follows_one; [by repeat constructor|]. cbn. rewrite bool_decide_eq_true_2 by done.
    rewrite (tr_phase _ _ _ _ _ (mid_tracked _ _ _ _ _ Hm)). unfold is_announced. by rewrite bool_decide_eq_false_2. }
  destruct (decide (ClientSDP next = EmptyString)) as [Hs|Hs].
  2:{ rewrite bool_decide_eq_false_2 by done. eexists _, next. split_and!; [apply Hf|exact Hm1|done|done]. }
  rewrite bool_decide_eq_true_2 by done. destruct (e_media e (ID next)) as [sdp|].
  - eexists _, (set_sdp next sdp). split_and!; [apply Hf| |done|done].
    apply (media_put (put (with_incoming t ({[ID next]} ∪ incomingSeen t)) (set_sdp next sdp))). by eapply put_same.
  - eexists _, next. split_and!; [apply Hf|exact Hm1|done|done].
Qed.

(** The event that a state brings. *)
Definition fits (s : CallState) (type : option EventType) : Prop :=
  match s with
  | Calling => type = None ∨ type = Some CallRinging
  | Ringing => type = Some CallRinging
  | Waiting => type = Some CallWaiting
  | Connected => type = Some CallAnswered
  | Completed => type = Some CallEnded
  | _ => False
  end.

Lemma reported_fits info item prev : fits (reported info item prev).1.1 (reported info item prev).1.2.
Proof.
  unfold reported, mapQMIState.
  repeat case_bool_decide; cbn; destruct (last_of _ _); cbn; auto; by case_bool_decide.
Qed.

Lemma end_told e t ph id call top type c rest :
  tracked t ph id c top → ID call = id → top <= 3 →
  (type = CallEnded ∨ (type = CallCanceled ∧ Dir call = Inbound ∧ top < 3)) →
  Forall (λ o, ∃ id, o = ReleaseAudio id) rest →
  ∀ reason, follows ph ([emit e type call Completed reason] ++
    (if bool_decide (top = 3) then [emitCallFinalized e call reason] else []) ++ rest) (<[id := Over]> ph).
Proof.
  intros Ht Hid Htop Htype Hrest reason.
  assert (Hr : ∀ p, life id p rest = Some p).
  { clear -Hrest. induction Hrest as [|o rest (id' & ->) _ IH]; intros p; [done|]. apply IH. }
  apply follows_one.
  - repeat (apply Forall_app; split); [by repeat constructor|case_bool_decide; by repeat constructor|].
    eapply Forall_impl; [exact Hrest|]. by intros o (id' & ->).
  - rewrite (tr_phase _ _ _ _ _ Ht). cbn [app life life_step emit]. cbn [EvCall emit]. rewrite bool_decide_eq_true_2 by done.
    destruct Htype as [->|(-> & Hd & Hlt)]; unfold told; cbn [EvType EvState EvDirection];
      rewrite (bool_decide_eq_true_2 (Completed = Completed)) by done; cbn [andb].
    + destruct (decide (top = 3)) as [->|Hne].
      * rewrite !bool_decide_eq_true_2 by done. cbn. rewrite bool_decide_eq_true_2 by done. apply Hr.
      * rewrite !bool_decide_eq_false_2 by done. apply Hr.
    + rewrite Hd, (bool_decide_eq_true_2 (Inbound = Inbound)), (bool_decide_eq_true_2 (top < 3)), bool_decide_eq_false_2 by (done || lia).
      apply Hr.
Qed.

(** A state that goes on, with its event if it has one. *)
Lemma event_told e t ph next type top c :
  tracked t ph (ID next) c top → fits (State next) (Some type) → State next ≠ Completed →
  top < stateRank (State next) →
  follows ph (emit e type next (State next) (Reason next) ::
              (if bool_decide (type = CallAnswered) && e_audio e then [StartAudio (ID next)] else []))
    (<[ID next := Alive (stateRank (State next)) (is_announced t (ID next))]> ph).
Proof.
  intros Ht Hfits Hne Htop. apply follows_one.
  - constructor; [done|]. destruct (_ && _); by repeat constructor.
  - rewrite (tr_phase _ _ _ _ _ Ht). cbn [life life_step emit EvCall]. rewrite bool_decide_eq_true_2 by done.
    unfold told. cbn [EvType EvState EvDirection].
    destruct (State next); cbn in Hfits; try done; destruct_or?; simplify_eq; cbn in *;
      rewrite ?(bool_decide_eq_true_2 (top < _)) by done; cbn; try done.
    destruct (e_audio e); cbn; [|by rewrite andb_false_r]. rewrite !bool_decide_eq_true_2 by done. cbn. by rewrite bool_decide_eq_true_2.
Qed.

Lemma fits_rank s type : fits s type → 1 <= stateRank s <= 4 ∧ (stateRank s = 4 ↔ s = Completed) ∧ (stateRank s = 3 ↔ s = Connected).
Proof. destruct s; cbn; intros H; try done; unfold rankTerminal; repeat split; try lia; done. Qed.

Lemma not_marked m top r : marked m top → r ∉ m → top <= r → 1 <= r → top < r.
Proof. intros [H1 H2 H3] Hr Hle Hp. destruct (decide (top = r)) as [->|]; [|lia]. exfalso. apply Hr, H3. lia. Qed.

Lemma settle_inv e t ph prev next top type :
  Mid (put t next) ph (ID next) next top → linked (State prev) top → fits (State next) type →
  stateRank (State prev) <= stateRank (State next) →
  ∃ ph', follows ph (settle e t prev next type).2 ph' ∧ Inv (settle e t prev next type).1 ph' ∧
    callIDSeq (settle e t prev next type).1 = callIDSeq t.
Proof.
  intros Hm [Hl1 Hl2] Hfits Hrank. unfold settle.
  destruct (announce_mid e _ _ _ _ Hm) as (ph1 & next1 & Hf1 & Hm1 & HS1 & Hs1).
  destruct (announce e (put t next) next) as [t1 out1]. cbn [fst snd] in *. change (callIDSeq t1 = callIDSeq t) in Hs1.
  pose proof (fits_rank _ _ Hfits) as (Hr & Hr4 & Hr3).
  pose proof (mid_tracked _ _ _ _ _ Hm1) as Ht1. pose proof (tr_marks _ _ _ _ _ Ht1) as Hmk.
  destruct (decide (State next = Completed)) as [Hend|Hend].
  - rewrite Hend in Hfits. cbn in Hfits. subst type. rewrite (bool_decide_eq_true_2 (Some CallEnded = _)) by done. cbn [andb].
    set (un := unansweredInbound _ _).
    replace (if un then Some CallCanceled else Some CallEnded) with (Some (if un then CallCanceled else CallEnded)) by (by destruct un).
    unfold markEmitted. rewrite bool_decide_eq_false_2.
    2:{ intros Hin%(marked_le _ _ Hmk). rewrite Hend in Hin. cbn in Hin. unfold rankTerminal in Hin. lia. }
    rewrite (bool_decide_eq_false_2 ((if un then CallCanceled else CallEnded) = CallAnswered)) by (by destruct un). cbn [andb].
    rewrite (proj2 (orb_true_iff _ _)) by (destruct un; [right|left]; by rewrite bool_decide_eq_true_2).
    exists (<[ID next := Over]> ph1). cbn [fst snd releaseCallAudio]. split_and!.
    + pose proof (end_told e t1 ph1 (ID next) next top (if un then CallCanceled else CallEnded) next1 [ReleaseAudio (ID next)] Ht1 eq_refl) as Htold.
      rewrite Hend. rewrite (bool_decide_ext (State prev = Connected) (top = 3)) by done.
      assert (Hty : (if un then CallCanceled else CallEnded) = CallEnded ∨
        ((if un then CallCanceled else CallEnded) = CallCanceled ∧ Dir next = Inbound ∧ top < 3)).
      { subst un. unfold unansweredInbound. destruct (Dir next); auto. destruct (State prev) eqn:Hp; auto; right; split_and!; try done;
          assert (top ≠ 3) by (intros ?%Hl2; done); lia. }
      specialize (Htold ltac:(lia) Hty ltac:(repeat constructor; eauto) (Reason next)).
      eapply follows_app in Htold; [|exact Hf1].
      case_bool_decide; cbn [app] in *; by rewrite <- ?app_assoc.
    + eapply forget_over; [exact Hm1|]. right. by eexists.
    + unfold forget. cbn. repeat case_match; simplify_eq; exact Hs1.
  - assert (Htype : (if bool_decide (type = Some CallEnded) && unansweredInbound (Dir next) (State prev) then Some CallCanceled else type) = type).
    { rewrite bool_decide_eq_false_2; [done|]. intros ->. destruct (State next); cbn in Hfits; destruct_or?; done. }
    rewrite Htype. clear Htype. destruct type as [type|].
    2:{ exists ph1. split_and!; [done| |done]. eapply mid_inv; [exact Hm1|]. rewrite HS1.
        destruct (State next); unfold linked; cbn in *; try done. split; [lia|]. split; [done|lia]. }
    unfold markEmitted. destruct (decide (stateRank (State next) ∈ marks t1 (ID next))) as [Hin|Hin].
    + rewrite bool_decide_eq_true_2 by done. exists ph1. split_and!; [done| |done]. eapply mid_inv; [exact Hm1|]. rewrite HS1.
      apply (marked_le _ _ Hmk) in Hin. assert (stateRank (State next) ≠ 4) by tauto. split; [lia|].
      rewrite <- Hr3. lia.
    + rewrite bool_decide_eq_false_2 by done.
      assert (Htop : top < stateRank (State next)) by (eapply not_marked; [done..|lia|lia]).
      pose proof (event_told e t1 ph1 next type top next1 Ht1 Hfits Hend Htop) as Htold.
      rewrite (bool_decide_eq_false_2 (type = CallEnded)), (bool_decide_eq_false_2 (type = CallCanceled))
        by (intros ->; destruct (State next); cbn in Hfits; destruct_or?; done).
      cbn [orb]. eexists. split_and!; cbn [fst snd].
      * eapply follows_app in Htold; [|exact Hf1]. destruct (_ && _); cbn [app] in *; by rewrite <- ?app_assoc.
      * eapply mid_inv; [by apply (mark_emitted _ _ _ next1 top)|]. rewrite HS1. assert (stateRank (State next) ≠ 4) by tauto.
        split; [lia|]. by rewrite Hr3.
      * exact Hs1.
Qed.

(** The next identifier names no call. *)
Lemma fresh_call t ph q n :
  Inv t ph → active t !! call_id deviceID q n (callIDSeq t + 1) = None ∧ ph (call_id deviceID q n (callIDSeq t + 1)) = born.
Proof.
  intros [[_ Hs] Hg]. set (id := call_id _ _ _ _).
  assert (Hfresh : ¬ named (callIDSeq t) id). { apply named_fresh. lia. }
  specialize (Hg id). unfold good in Hg. destruct (active t !! id) as [c|]; [by destruct Hg as (top & [] & _)|].
  destruct Hg as [_ _ _ _ Hnamed]. split; [done|]. destruct (decide (ph id = born)); [done|]. exfalso. auto.
Qed.

(** A call that the report shows, and one that it does not show any more. *)
Lemma voice_item_inv e info item t ph seen :
  Inv t ph → callIDSeq t + 1 < 2 ^ 64 →
  ∃ ph', follows ph (voice_item deviceID e info item t seen).2 ph' ∧ Inv (voice_item deviceID e info item t seen).1.1 ph' ∧
    callIDSeq (voice_item deviceID e info item t seen).1.1 <= callIDSeq t + 1.
Proof.
  intros HI Hn. pose proof HI as [[Hq Hs] Hg]. unfold voice_item.
  set (dir := if bool_decide (InfoDirection item = qmiDirMT) then Inbound else Outbound). set (peer := remoteNumber _ _).
  destruct (getByQMI t (InfoID item)) as [prev existed] eqn:Hprev.
  pose proof (reported_fits info item prev) as Hfits.
  destruct (reported info item prev) as [[state type] reason]. cbn [fst snd] in Hfits.
  pose proof (fits_rank _ _ Hfits) as (Hr & Hr4 & Hr3).
  unfold getByQMI in Hprev. destruct existed; cbn [negb andb].
  - destruct (byQMI t !! InfoID item) as [id|] eqn:Hb; [|done].
    destruct (active t !! id) as [c|] eqn:Ha; simplify_eq.
    destruct (inv_mid _ _ _ _ HI Ha) as (top & Hm & Hl).
    destruct (Hq _ _ Hb) as (c & Hc & Hcq). simplify_eq.
    pose proof (tr_id _ _ _ _ _ (mid_tracked _ _ _ _ _ Hm)) as Hid.
    destruct (bool_decide (stateRank state < stateRank (State prev)) && bool_decide (stateRank state ≠ rankTerminal)) eqn:Hlow.
    { exists ph. split_and!; [done..|cbn; lia]. }
    set (next := mkCall _ _ _ _ _ _ _ _ _ _ _).
    destruct (settle_inv e t ph prev next top type) as (ph' & Hf & HI' & Hseq).
    + change (ID next) with (ID prev). rewrite Hid. by apply (put_same _ _ _ prev).
    + done.
    + done.
    + destruct Hl as [Hl _]. apply andb_false_iff in Hlow as [Hlow%bool_decide_eq_false_1|Hlow%bool_decide_eq_false_1];
        change (State next) with state; [lia|]. apply dec_stable in Hlow. rewrite Hlow. unfold rankTerminal. lia.
    + exists ph'. destruct (settle _ _ _ _ _). cbn in *. split_and!; [done..|lia].
  - assert (Hno : byQMI t !! InfoID item = None ∧ prev = no_call).
    { destruct (byQMI t !! InfoID item) as [id|] eqn:Hb; [|by simplify_eq].
      destruct (Hq _ _ Hb) as (c & Hc & _). rewrite Hc in Hprev. done. }
    destruct Hno as [Hb ->]. case_bool_decide as Hterm; [exists ph; split_and!; [done..|cbn; lia]|].
    assert (Htomb : ∃ m, (ignoreReusedQMISlot t (InfoID item) peer dir (e_now e)).2 = with_ended t m).
    { unfold ignoreReusedQMISlot. destruct t. repeat case_match; by eexists. }
    destruct (ignoreReusedQMISlot _ _ _ _ _) as [ignored t1]. destruct Htomb as (m & Ht1). cbn in Ht1. subst t1.
    pose proof (frame_ended t ph m HI) as HI1.
    destruct ignored; [exists ph; split_and!; [done..|cbn; lia]|].
    unfold newPersistentCallID. cbn [callIDSeq with_ended].
    assert (u64 (callIDSeq t + 1) = callIDSeq t + 1) as -> by (unfold u64; rewrite Z.mod_small; lia).
    set (id := call_id _ _ _ _). set (t2 := with_seq _ _). set (next := mkCall _ _ _ _ _ _ _ _ _ _ _).
    assert (HI2 : Inv t2 ph) by (apply frame_seq; [cbn; lia|done]).
    pose proof (fresh_call t ph (InfoID item) (e_nano e (callIDSeq t + 1)) HI) as Hu. fold id in Hu.
    destruct (settle_inv e t2 ph no_call next 0 type) as (ph' & Hf & HI' & Hseq).
    + apply put_fresh; try done; [apply Hu|apply Hu|]. exists (InfoID item), (e_nano e (callIDSeq t + 1)), (callIDSeq t + 1). split; [cbn; lia|done].
    + unfold linked. cbn. split; [lia|]. split; [done|lia].
    + done.
    + cbn. lia.
    + exists ph'. destruct (settle _ _ _ _ _). cbn in *. split_and!; [done..|lia].
Qed.
Lemma voice_items_inv e info items : ∀ t ph seen,
  Inv t ph → callIDSeq t + len items < 2 ^ 64 →
  ∃ ph', follows ph (voice_items deviceID e info items t seen).2 ph' ∧ Inv (voice_items deviceID e info items t seen).1.1 ph' ∧
    callIDSeq (voice_items deviceID e info items t seen).1.1 <= callIDSeq t + len items.
Proof.
  induction items as [|item items IH]; intros t ph seen HI Hn; cbn [voice_items].
  { exists ph. split_and!; [done..|unfold len; cbn; lia]. }
  unfold len in *. cbn [Datatypes.length] in *.
  destruct (voice_item_inv e info item t ph seen HI ltac:(lia)) as (ph1 & Hf1 & HI1 & Hs1).
  destruct (voice_item deviceID e info item t seen) as [[t1 seen1] out1]. cbn [fst snd] in *.
  destruct (IH t1 ph1 seen1 HI1 ltac:(lia)) as (ph2 & Hf2 & HI2 & Hs2).
  destruct (voice_items deviceID e info items t1 seen1) as [[t2 seen2] out2]. cbn [fst snd] in *.
  exists ph2. split_and!; [by eapply follows_app|done|lia].
Qed.

(** [voice_gone] and [finishLocalCall] end a call in the same way. *)
Lemma voice_gone_inv e seen t ph call :
  Inv t ph → active t !! ID call = Some call →
  ∃ ph', follows ph (voice_gone e seen t call).2 ph' ∧ Inv (voice_gone e seen t call).1 ph' ∧
    callIDSeq (voice_gone e seen t call).1 = callIDSeq t ∧
    (∀ id, id ≠ ID call → active (voice_gone e seen t call).1 !! id = active t !! id).
Proof.
  intros HI Ha. destruct (inv_mid _ _ _ _ HI Ha) as (top & Hm & [Hl1 Hl2]). unfold voice_gone.
  destruct (_ || _); [by exists ph|].
  set (type := if unansweredInbound _ _ then CallCanceled else CallEnded).
  assert (Hm1 : Mid (put t (set_state call Completed)) ph (ID call) (set_state call Completed) top) by (by apply (put_same _ _ _ call)).
  unfold markEmitted. rewrite bool_decide_eq_false_2.
  2:{ intros Hin%(marked_le _ _ (tr_marks _ _ _ _ _ (mid_tracked _ _ _ _ _ Hm1))). cbn in Hin. unfold rankTerminal in Hin. lia. }
  cbn [fst snd releaseCallAudio]. exists (<[ID call := Over]> ph). split_and!.
  - pose proof (end_told e _ ph (ID call) (set_state call Completed) top type (set_state call Completed)
      [ReleaseAudio (ID call)] (mid_tracked _ _ _ _ _ Hm1) eq_refl) as Htold.
    rewrite (bool_decide_ext (State call = Connected) (top = 3)) by done.
    assert (Hty : type = CallEnded ∨ (type = CallCanceled ∧ Dir call = Inbound ∧ top < 3)).
    { subst type. unfold unansweredInbound. destruct (Dir call); auto. destruct (State call) eqn:Hp; auto; right; split_and!; try done;
        assert (top ≠ 3) by (intros ?%Hl2; done); lia. }
    specialize (Htold ltac:(lia) Hty ltac:(repeat constructor; eauto) (Reason call)).
    case_bool_decide; cbn [app] in *; exact Htold.
  - eapply forget_over; [exact Hm1|]. right. by eexists.
  - unfold forget. cbn. by repeat case_match; simplify_eq.
  - intros id Hne. unfold forget. cbn. repeat case_match; simplify_eq; cbn; by rewrite lookup_delete_ne, lookup_insert_ne by done.
Qed.

Lemma voice_rest_inv e seen calls : ∀ t ph,
  Inv t ph → NoDup (ID <$> calls) → Forall (λ c, active t !! ID c = Some c) calls →
  ∃ ph', follows ph (voice_rest e seen t calls).2 ph' ∧ Inv (voice_rest e seen t calls).1 ph' ∧
    callIDSeq (voice_rest e seen t calls).1 = callIDSeq t.
Proof.
  induction calls as [|call calls IH]; intros t ph HI Hnd Hall; cbn [voice_rest]; [by exists ph|].
  apply NoDup_cons in Hnd as [Hni Hnd]. apply Forall_cons in Hall as [Ha Hall].
  destruct (voice_gone_inv e seen t ph call HI Ha) as (ph1 & Hf1 & HI1 & Hs1 & Hoff).
  destruct (voice_gone e seen t call) as [t1 out1]. cbn [fst snd] in *.
  destruct (IH t1 ph1 HI1 Hnd) as (ph2 & Hf2 & HI2 & Hs2).
  { apply Forall_forall. intros c Hc. rewrite Hoff; [by eapply Forall_forall in Hall|].
    intros Heq. apply Hni. rewrite <- Heq. by apply list_elem_of_fmap_2. }
  destruct (voice_rest e seen t1 calls) as [t2 out2]. cbn [fst snd] in *.
  exists ph2. split_and!; [by eapply follows_app|done|lia].
Qed.

(** The map of calls, walked in any order. *)
Lemma list_calls_ok o t ph :
  (∀ l, o l ≡ₚ l) → Inv t ph → NoDup (ID <$> list_calls o t) ∧ Forall (λ c, active t !! ID c = Some c) (list_calls o t) ∧
  (∀ id c, active t !! id = Some c → c ∈ list_calls o t).
Proof.
  intros Ho HI. unfold list_calls. rewrite !Ho.
  assert (Hid : ∀ id c, active t !! id = Some c → ID c = id).
  { intros id c Hc. destruct (inv_mid _ _ _ _ HI Hc) as (top & Hm & _). apply (tr_id _ _ _ _ _ (mid_tracked _ _ _ _ _ Hm)). }
  split_and!.
  - assert (Heq : ID <$> (map_to_list (active t)).*2 = (map_to_list (active t)).*1).
    { rewrite <- list_fmap_compose. apply list_fmap_ext. intros i [id c] Hi%list_elem_of_lookup_2.
      cbn. apply Hid. by apply elem_of_map_to_list. }
    rewrite Heq. apply NoDup_fst_map_to_list.
  - apply Forall_forall. intros c ([id c'] & -> & Hin)%list_elem_of_fmap. apply elem_of_map_to_list in Hin. cbn. by rewrite (Hid _ _ Hin).
  - intros id c Hc. rewrite Ho. apply list_elem_of_fmap. exists (id, c). split; [done|]. by apply elem_of_map_to_list.
Qed.

Lemma handleVoiceInfo_inv e info t ph :
  (∀ l, e_order e l ≡ₚ l) → Inv t ph → callIDSeq t + len (Calls info) < 2 ^ 64 →
  ∃ ph', follows ph (handleVoiceInfo deviceID e info t).2 ph' ∧ Inv (handleVoiceInfo deviceID e info t).1 ph'.
Proof.
  intros Ho HI Hn. unfold handleVoiceInfo.
  destruct (voice_items_inv e info (Calls info) t ph ∅ HI Hn) as (ph1 & Hf1 & HI1 & _).
  destruct (voice_items _ _ _ _ _ _) as [[t1 seen] out1]. cbn [fst snd] in *.
  destruct (list_calls_ok (e_order e) t1 ph1 Ho HI1) as (Hnd & Hall & _).
  destruct (voice_rest_inv e seen _ t1 ph1 HI1 Hnd Hall) as (ph2 & Hf2 & HI2 & _).
  destruct (voice_rest _ _ _ _) as [t2 out2]. cbn [fst snd] in *.
  exists ph2. split; [|done]. apply (follows_app _ _ ph); [by destruct (Calls info)|]. by eapply follows_app.
Qed.

(** ** The user's operations *)

Lemma follows_same ph id out : Forall (about id) out → life id (ph id) out = Some (ph id) → follows ph out ph.
Proof.
  intros Ho Hl id'. destruct (decide (id' = id)) as [->|Hne]; [done|]. by apply (life_other id).
Qed.

Lemma dialed_inv e t ph id callee call top :
  Mid t ph id call top → State call = Calling → top <= 1 →
  ∃ ph', follows ph [EmitEvent (mkEvent CallRinging id "" callee Outbound Calling "" "" false (audioError (e_status e)))] ph' ∧
    Inv (markEmitted t id (stateRank Calling)).2 ph'.
Proof.
  intros Hm HS Htop. cbn [stateRank]. unfold markEmitted.
  pose proof (mid_tracked _ _ _ _ _ Hm) as Ht. pose proof (tr_marks _ _ _ _ _ Ht) as Hmk. pose proof (marked_pos _ _ Hmk) as Hpos.
  assert (Htold : ∀ ev, EvCall ev = id → EvType ev = CallRinging → EvState ev = Calling →
            life id (ph id) [EmitEvent ev] = Some (Alive 1 (is_announced t id))).
  { intros ev H1 H2 H3. cbn. rewrite bool_decide_eq_true_2 by done. rewrite (tr_phase _ _ _ _ _ Ht). unfold told. rewrite H2, H3. cbn.
    assert (top = 0 ∨ top = 1) as [-> | ->] by lia; done. }
  assert (Hlink : linked Calling 1) by (unfold linked; cbn; split; [lia|]; split; [done|lia]).
  case_bool_decide as Hin.
  - exists ph. assert (top = 1) as -> by (apply (marked_le _ _ Hmk) in Hin; lia). split.
    + apply (follows_same _ id); [by repeat constructor|]. rewrite Htold by done. by rewrite (tr_phase _ _ _ _ _ Ht).
    + eapply mid_inv; [exact Hm|]. by rewrite HS.
  - exists (<[id := Alive 1 (is_announced t id)]> ph). split.
    + apply follows_one; [by repeat constructor|]. by apply Htold.
    + eapply mid_inv; [apply (mark_emitted _ _ _ call top); [done|]|by rewrite HS]. by apply (not_marked (marks t id)).
Qed.

Lemma begin_dialed_inv e callee t ph qmiID :
  Inv t ph → callIDSeq t + 1 < 2 ^ 64 → (∀ c, getByQMI t qmiID = (c, true) → State c = Calling) →
  ∃ ph', follows ph (begin_dialed deviceID e callee t qmiID).1.2 ph' ∧ Inv (begin_dialed deviceID e callee t qmiID).1.1 ph'.
Proof.
  intros HI Hn Hcur. pose proof HI as [[Hq Hs] Hg]. unfold begin_dialed.
  assert (Hmedia : ∀ t1 c sdp top, Mid (put t1 c) ph (ID c) c top → Mid (put (with_media t1 (<[ID c := sdp]> (media t1))) c) ph (ID c) c top).
  { intros t1 c sdp top Hm. by apply (media_put (put t1 c)). }
  destruct (getByQMI t qmiID) as [prev ok] eqn:Hprev. unfold getByQMI in Hprev. destruct ok; cbn [andb].
  - specialize (Hcur prev eq_refl). rewrite Hcur. rewrite bool_decide_eq_true_2 by done. cbn [andb].
    destruct (byQMI t !! qmiID) as [id|] eqn:Hb; [|done]. destruct (active t !! id) as [c|] eqn:Ha; simplify_eq.
    destruct (inv_mid _ _ _ _ HI Ha) as (top & Hm & [Hl _]). destruct (Hq _ _ Hb) as (c & Hc & Hcq). simplify_eq.
    pose proof (mid_tracked _ _ _ _ _ Hm) as Ht. pose proof (tr_id _ _ _ _ _ Ht) as Hid.
    rewrite bool_decide_eq_true_2 by (rewrite Hid; by eapply named_nonempty, (tr_named _ _ _ _ _ Ht)).
    rewrite Hcur in Hl. cbn in Hl.
    destruct (e_media e (ID prev)) as [sdp|]; set (call := mkCall _ _ _ _ _ _ _ _ _ _ _);
      (assert (Hm1 : Mid (put t call) ph (ID call) call top) by (change (ID call) with (ID prev); rewrite Hid; by apply (put_same _ _ _ prev)));
      [apply (Hmedia t call sdp) in Hm1|];
      (destruct (dialed_inv e _ ph (ID call) callee call top Hm1 eq_refl ltac:(lia)) as (ph' & Hf & HI');
       change (ID call) with (ID prev) in *; destruct (markEmitted _ _ _) as [? t2]; by exists ph').
  - assert (Hb : byQMI t !! qmiID = None).
    { destruct (byQMI t !! qmiID) as [id|] eqn:Hb; [|done]. destruct (Hq _ _ Hb) as (c & Hc & _). by rewrite Hc in Hprev. }
    unfold newPersistentCallID.
    assert (u64 (callIDSeq t + 1) = callIDSeq t + 1) as -> by (unfold u64; rewrite Z.mod_small; lia).
    pose proof (fresh_call t ph qmiID (e_nano e (callIDSeq t + 1)) HI) as Hu.
    set (id := call_id _ _ _ _) in *. set (t1 := with_seq t _).
    assert (HI1 : Inv t1 ph) by (apply frame_seq; [lia|done]).
    destruct (e_media e id) as [sdp|]; set (call := mkCall _ _ _ _ _ _ _ _ _ _ _);
      (assert (Hm1 : Mid (put t1 call) ph (ID call) call 0) by
        (apply put_fresh; try done; [apply Hu|apply Hu|]; exists qmiID, (e_nano e (callIDSeq t + 1)), (callIDSeq t + 1); split; [cbn; lia|done]));
      [apply (Hmedia t1 call sdp) in Hm1|];
      (destruct (dialed_inv e _ ph (ID call) callee call 0 Hm1 eq_refl ltac:(lia)) as (ph' & Hf & HI');
       change (ID call) with id in *; destruct (markEmitted _ _ _) as [? t2]; by exists ph').
Qed.

Lemma release_inv t ph id : Inv t ph → Inv (releaseCallAudio t id).1 ph.
Proof.
  intros [[Hq Hs] Hg]. split; [by split|]. intros id'. specialize (Hg id'). unfold good in *. cbn.
  destruct (active t !! id') as [c|].
  - destruct Hg as (top & [] & Hl). exists top. split; [by split|done].
  - destruct Hg. split; try done. cbn. by apply lookup_delete_None; right.
Qed.

Lemma finish_inv e t ph call reason :
  Inv t ph → active t !! ID call = Some call →
  ∃ ph', follows ph (finishLocalCall e t call reason).2 ph' ∧ Inv (finishLocalCall e t call reason).1 ph'.
Proof.
  intros HI Ha. destruct (inv_mid _ _ _ _ HI Ha) as (top & Hm & [Hl1 Hl2]). unfold finishLocalCall.
  pose proof (mid_tracked _ _ _ _ _ Hm) as Ht.
  unfold markEmitted. rewrite bool_decide_eq_false_2.
  2:{ intros Hin%(marked_le _ _ (tr_marks _ _ _ _ _ Ht)). cbn in Hin. unfold rankTerminal in Hin. lia. }
  cbn [fst snd negb releaseCallAudio]. set (reason' := if bool_decide _ then Reason call else reason).
  exists (<[ID call := Over]> ph). split.
  - pose proof (end_told e t ph (ID call) call top CallEnded call [] Ht eq_refl ltac:(lia) ltac:(by left) ltac:(constructor) reason') as Htold.
    rewrite app_nil_r in Htold. rewrite (bool_decide_ext (State call = Connected) (top = 3)) by done. exact Htold.
  - eapply forget_over; [exact Hm|]. right. by eexists.
Qed.

Lemma hold_inv e t ph call hold :
  Inv t ph → active t !! ID call = Some call →
  ∃ ph', follows ph (storeHold e t call hold).2 ph' ∧ Inv (storeHold e t call hold).1 ph'.
Proof.
  intros HI Ha. destruct (inv_mid _ _ _ _ HI Ha) as (top & Hm & Hl). exists ph. split.
  - apply (follows_same _ (ID call)); [by repeat constructor|]. cbn. rewrite bool_decide_eq_true_2 by done.
    by rewrite (tr_phase _ _ _ _ _ (mid_tracked _ _ _ _ _ Hm)).
  - apply (mid_inv _ _ (ID call) (set_held call hold) top); [|exact Hl]. by apply (put_same _ _ _ call).
Qed.

Lemma retire_inv e t ph :
  (∀ l, e_order e l ≡ₚ l) → Inv t ph → follows ph (RetireDevice e t).2 ph ∧ Inv (RetireDevice e t).1 ph.
Proof.
  intros Ho HI. destruct (list_calls_ok (e_order e) t ph Ho HI) as (_ & _ & Hall). destruct HI as [[Hq Hs] Hg]. split.
  - intros id. cbn. generalize (list_calls (e_order e) t). intros calls. clear. revert ph.
    induction calls as [|c calls IH]; intros ph; [done|]. cbn. rewrite life_app. unfold release_retired at 1.
    destruct (_ || _); cbn; apply IH.
  - split; [split; [done|exact Hs]|]. intros id. unfold good. cbn. specialize (Hg id). unfold good in Hg.
    assert (Hdel : ∀ calls m, (m : gmap string string) !! id = None ∨ (∃ c, c ∈ calls ∧ ID c = id) →
                     fold_left (λ m c, delete (ID c) m) calls m !! id = None).
    { induction calls as [|c calls IH]; intros m [Hm|(d & Hd & Hid)]; cbn; [done|set_solver|apply IH|apply IH].
      - left. by apply lookup_delete_None; right.
      - apply elem_of_cons in Hd as [->|Hd]; [left; by apply lookup_delete_None; left|right; by exists d]. }
    destruct (active t !! id) as [c|] eqn:Ha.
    + destruct Hg as (top & [] & _). split; cbn; try done; [|by rewrite tr_phase0].
      apply Hdel. right. exists c. split; [by eapply Hall|done].
    + destruct Hg. split; cbn; try done. apply Hdel. by left.
Qed.
End Session.

(** ** Runs

    What happens to a device, in order: reports, and operations of the user, at
    once or cut where they wait for the modem. *)
Inductive op :=
  | Report (e : env) (info : VoiceAllCallInfo)
  | Begin (e : env) (registered indications subscribed : bool) (dialed : option Z) (callee : string)
  | Hangup (e : env) (id : string) (err : option hangup_error)
  | Reject (e : env) (id : string) (err : option hangup_error)
  | HangupStart (id : string)
  | HangupFinish (e : env) (call : nativeCall) (err : option hangup_error) (reason : string)
  | Hold (e : env) (id : string) (hold accepted : bool)
  | HoldFinish (e : env) (call : nativeCall) (hold : bool)
  | Retire (e : env).

Section Runs.
Context (deviceID : string).

Definition op_step (t : tracker) (o : op) : tracker * list output :=
  match o with
  | Report e info => handleVoiceInfo deviceID e info t
  | Begin e registered indications subscribed dialed callee =>
      (beginCall deviceID e registered indications subscribed dialed callee t).1
  | Hangup e id err => (HangupCall e t id err).1
  | Reject e id err => (RejectIncomingCall e t id err).1
  | HangupStart id => releaseCallAudio t id
  | HangupFinish e call err reason => (hangup_finish e t call err reason).1
  | Hold e id hold accepted => (setNativeHold e t id hold accepted).1
  | HoldFinish e call hold => storeHold e t call hold
  | Retire e => RetireDevice e t
  end.

(** A map is walked in some order; the counter of calls does not wrap; a
    dialled call was not reported further than originating before the modem
    answered the dialling; and an operation that waited for the modem finds its
    call as it was. *)
Definition op_ok (t : tracker) (o : op) : Prop :=
  match o with
  | Report e info => (∀ l, e_order e l ≡ₚ l) ∧ callIDSeq t + len (Calls info) < 2 ^ 64
  | Begin e _ _ _ (Some qmiID) _ => callIDSeq t + 1 < 2 ^ 64 ∧ ∀ c, getByQMI t qmiID = (c, true) → State c = Calling
  | HangupFinish _ call _ _ | HoldFinish _ call _ => active t !! ID call = Some call
  | Retire e => ∀ l, e_order e l ≡ₚ l
  | _ => True
  end.

Fixpoint run (t : tracker) (ops : list op) : tracker * list output :=
  match ops with
  | [] => (t, [])
  | o :: ops => let '(t, out) := op_step t o in let '(t, out') := run t ops in (t, out ++ out')
  end.

Fixpoint run_ok (t : tracker) (ops : list op) : Prop :=
  match ops with
  | [] => True
  | o :: ops => op_ok t o ∧ run_ok (op_step t o).1 ops
  end.

Notation Inv := (Inv deviceID).

Lemma hangup_inv e t ph call err reason :
  Inv t ph → active t !! ID call = Some call →
  ∃ ph', follows ph (hangup_finish e t call err reason).1.2 ph' ∧ Inv (hangup_finish e t call err reason).1.1 ph'.
Proof.
  intros HI Ha. unfold hangup_finish. pose proof (finish_inv deviceID e t ph call reason HI Ha) as Hf.
  destruct (finishLocalCall e t call reason). destruct err as [[]|]; try exact Hf. by exists ph.
Qed.

Lemma hangup_whole_inv e t ph id err reason call :
  Inv t ph → active t !! id = Some call →
  ∃ ph', follows ph (hangup_finish e (releaseCallAudio t id).1 call err reason).1.2 ph' ∧
    Inv (hangup_finish e (releaseCallAudio t id).1 call err reason).1.1 ph'.
Proof.
  intros HI Ha. apply hangup_inv; [by apply release_inv|]. cbn.
  destruct (inv_mid _ _ _ _ _ HI Ha) as (top & Hm & _). by rewrite (tr_id _ _ _ _ _ _ (mid_tracked _ _ _ _ _ _ Hm)).
Qed.

Lemma op_step_inv t ph o :
  Inv t ph → op_ok t o → ∃ ph', follows ph (op_step t o).2 ph' ∧ Inv (op_step t o).1 ph'.
Proof.
  intros HI Hok. destruct o as [e info|e r i s d callee|e id err|e id err|id|e call err reason|e id hold acc|e call hold|e]; cbn [op_step op_ok] in *.
  - destruct Hok. by apply handleVoiceInfo_inv.
  - unfold beginCall. destruct r, i, s; cbn; try by exists ph. destruct d as [q|]; [|by exists ph].
    destruct Hok as [Hn Hcur]. pose proof (begin_dialed_inv deviceID e callee t ph q HI Hn Hcur) as Hb.
    by destruct (begin_dialed _ _ _ _ _) as [[t1 out] id].
  - unfold HangupCall, lookup_call, VolteCalls.get. destruct (active t !! id) as [call|] eqn:Ha; [|by exists ph].
    pose proof (hangup_whole_inv e t ph id err (hangupReason err) call HI Ha) as (ph' & Hf & HI').
    cbn [releaseCallAudio fst] in *. destruct (hangup_finish _ _ _ _ _) as [[t1 out] ok]. by exists ph'.
  - unfold RejectIncomingCall, lookup_call, VolteCalls.get. destruct (active t !! id) as [call|] eqn:Ha; [|by exists ph].
    pose proof (hangup_whole_inv e t ph id err "rejected" call HI Ha) as (ph' & Hf & HI').
    cbn [releaseCallAudio fst] in *. destruct (hangup_finish _ _ _ _ _) as [[t1 out] ok]. by exists ph'.
  - exists ph. split; [done|]. by apply release_inv.
  - by apply hangup_inv.
  - unfold setNativeHold, lookup_call, VolteCalls.get. destruct (active t !! id) as [call|] eqn:Ha; [|by exists ph].
    case_bool_decide; [by exists ph|]. destruct acc; cbn; [|by exists ph].
    pose proof (hold_inv deviceID e t ph call hold HI) as Hh. destruct (inv_mid _ _ _ _ _ HI Ha) as (top & Hm & _).
    rewrite (tr_id _ _ _ _ _ _ (mid_tracked _ _ _ _ _ _ Hm)) in Hh. specialize (Hh Ha). destruct Hh as (ph1 & Hf & HI1). by exists ph1.
  - by apply hold_inv.
  - exists ph. by apply retire_inv.
Qed.

Lemma run_inv ops : ∀ t ph, Inv t ph → run_ok t ops → ∃ ph', follows ph (run t ops).2 ph' ∧ Inv (run t ops).1 ph'.
Proof.
  induction ops as [|o ops IH]; intros t ph HI Hok; cbn [run]; [by exists ph|].
  destruct Hok as [Ho Hok]. destruct (op_step_inv t ph o HI Ho) as (ph1 & Hf1 & HI1).
  destruct (op_step t o) as [t1 out1]. cbn [fst snd] in *.
  destruct (IH t1 ph1 HI1 Hok) as (ph2 & Hf2 & HI2). destruct (run t1 ops) as [t2 out2]. cbn [fst snd] in *.
  exists ph2. split; [by eapply follows_app|done].
Qed.

Lemma start_inv n : 0 <= n < 2 ^ 64 → Inv (newVoiceSession n) (λ _, born).
Proof. intros Hn. split; [split; [done|exact Hn]|]. intros id. by split. Qed.

(** C32: the life of a call, as long as nothing happens to it while one of its
    operations waits for the modem.  Over any sequence of reports, dials,
    hang-ups, rejections, holds and retirements in which a hang-up or hold that
    waited for the modem finds its call as it was, and a call that is dialled was
    not reported further than originating before the modem acknowledged it (the
    code does not check either: [hangup_ends_twice], [hold_revives],
    [dialling_resets]), and the counter of calls does not wrap: what the
    subscribers are told of each call is a life.  It is announced once at
    most, ringing comes before answered, each is told once (a call that is
    dialled may be told to ring once more), it ends at most once, as canceled
    only when it came in and was not answered, nothing is told after the end
    except one finalisation, which follows exactly when the call was answered.
    The session keeps a call under its identifier and the modem's, answered
    exactly when that was told; a call that it does not keep has no media. *)
Theorem call_life n ops :
  0 <= n < 2 ^ 64 → run_ok (newVoiceSession n) ops →
  let t := (run (newVoiceSession n) ops).1 in
  ∀ id, ∃ p, life id born (run (newVoiceSession n) ops).2 = Some p ∧
    match active t !! id with
    | Some c => ID c = id ∧ byQMI t !! QMI c = Some id ∧ ∃ top announced, p = Alive top announced ∧ (State c = Connected ↔ top = 3)
    | None => media t !! id = None ∧ p ≠ Closing
    end.
Proof.
  intros Hn Hok t id. destruct (run_inv ops _ _ (start_inv n Hn) Hok) as (ph & Hf & [_ Hg]).
  exists (ph id). split; [apply Hf|]. specialize (Hg id). unfold good in Hg. fold t in Hg.
  destruct (active t !! id) as [c|]; [|by destruct Hg].
  destruct Hg as (top & [] & Hl). split_and!; [done..|]. exists top, (is_announced t id). split; [done|apply Hl].
Qed.
End Runs.

(** ** A call that comes in, one that is dialled, and the race of a hang-up *)
Section Sample.
Let e0 : env := mkEnv 100 (λ n, 7 * n) (λ _, 101) (λ _, Some "sdp"%string) true (mkStatus false false "hw:1" true false) id.
Let incoming state : VoiceAllCallInfo := mkAll [mkInfo 1 state qmiDirMT VoiceCallModeLTE] [(1, "10086"%string)] [] [].
Let id1 : string := call_id "m" 1 7 1.

Lemma call_life_witness :
  let ops := [Report e0 (incoming qmiCallIncoming); Report e0 (incoming qmiCallConversation);
              Begin e0 true true true (Some 2) "112"; Report e0 (incoming qmiCallEnd)] in
  (State <$> active (run "m" (newVoiceSession 0) (take 3 ops)).1 !! id1) = Some Connected ∧
  ∀ id, ∃ p, life id born (run "m" (newVoiceSession 0) ops).2 = Some p ∧
    let t := (run "m" (newVoiceSession 0) ops).1 in
    match active t !! id with
    | Some c => ID c = id ∧ byQMI t !! QMI c = Some id ∧ ∃ top announced, p = Alive top announced ∧ (State c = Connected ↔ top = 3)
    | None => media t !! id = None ∧ p ≠ Closing
    end.
Proof.
  intros ops. split; [vm_compute; reflexivity|].
  apply (call_life "m" 0 ops); [lia|]. subst ops. cbn [run_ok op_ok].
  split_and!; first [exact I | vm_compute; reflexivity | intros l; exact (reflexivity l) | idtac].
  intros c Hc. vm_compute in Hc. discriminate Hc.
Defined.

(** The types of the events of a call. *)
Definition told_types (id : string) (out : list output) : list EventType :=
  omap (λ o, match o with EmitEvent ev => if bool_decide (EvCall ev = id) then Some (EvType ev) else None | _ => None end) out.

(** What a hang-up or a hold looked up before it asked the modem. *)
Definition looked_up (ops : list op) (id : string) : nativeCall :=
  default no_call (active (run "m" (newVoiceSession 0) ops).1 !! id).

(** The hypothesis on operations that waited for the modem is needed.  When the
    modem reports the end of a call before it answers the hang-up, the marks of
    the call are gone with the call, and it is told to end and finalised again. *)
Lemma hangup_ends_twice :
  let before := [Report e0 (incoming qmiCallIncoming); Report e0 (incoming qmiCallConversation); HangupStart id1] in
  told_types id1 (run "m" (newVoiceSession 0)
    (before ++ [Report e0 (incoming qmiCallEnd); HangupFinish e0 (looked_up before id1) None "local_hangup"])).2
  = [CallRinging; CallAnswered; CallEnded; CallFinalized; CallEnded; CallFinalized].
Proof. vm_compute. reflexivity. Qed.

(** A hold that the modem answers after the end of its call brings the call
    back, and the next report ends it again. *)
Lemma hold_revives :
  let before := [Report e0 (incoming qmiCallIncoming); Report e0 (incoming qmiCallConversation)] in
  let ops := before ++ [Report e0 (incoming qmiCallEnd); HoldFinish e0 (looked_up before id1) true] in
  (State <$> active (run "m" (newVoiceSession 0) ops).1 !! id1) = Some Connected ∧
  told_types id1 (run "m" (newVoiceSession 0) (ops ++ [Report e0 (mkAll [] [] [] [])])).2
  = [CallRinging; CallAnswered; CallEnded; CallFinalized; CallMediaUpdated; CallEnded; CallFinalized].
Proof. split; vm_compute; reflexivity. Qed.

(** The hypothesis on dialling is needed: a call that was answered before the
    modem acknowledged the dialling is told to ring again, and its end is not
    finalised. *)
Lemma dialling_resets :
  let outgoing state := mkAll [mkInfo 1 state 1 VoiceCallModeLTE] [] [] [] in
  told_types id1 (run "m" (newVoiceSession 0)
    [Report e0 (outgoing qmiCallConversation); Begin e0 true true true (Some 1) "112"; Report e0 (outgoing qmiCallEnd)]).2
  = [CallAnswered; CallRinging; CallEnded].
Proof. vm_compute. reflexivity. Qed.
End Sample.
