(* ===== verification/VolteControl.v ===== *)
(** * Which backend has a call, and the keys of a call (internal/volte)

    Module [Routing] is mux.go: which of the three voice backends a request
    goes to.  Module [Keys] is dtmf.go: one key of a native call, a program over
    the requests to the session and to the modem. *)

From Stdlib Require Import Ascii String.
From S2P Require Import Prelude GoText SmsCodecProofs Interaction VolteCalls.
From stdpp Require Import strings.

#[local] Open Scope Z_scope.
#[local] Open Scope string_scope.

Module Routing.
Inductive backend := IMS | Native | Modem.
#[global] Instance backend_eq_dec : EqDecision backend.
Proof. solve_decision. Defined.

(** Which backends are configured, and the tests of the device's mode; an
    interface or a function of the code may be nil. *)
Record Mux := mkMux {
  has : backend → bool;
  IsNative : option (string → bool);
  IsModem : option (string → bool) }.

Definition native (m : Mux) (deviceID : string) : bool :=
  match IsNative m with None => false | Some f => f (TrimSpace deviceID) end.

Definition is_modem (m : Mux) (deviceID : string) : bool :=
  match IsModem m with None => false | Some f => f deviceID end.

Definition pick (m : Mux) (deviceID : string) : backend :=
  if is_modem m deviceID && has m Modem then Modem
  else if native m deviceID && has m Native then Native
  else IMS.

Definition pickCall (m : Mux) (deviceID callID : string) : backend :=
  if HasPrefix callID "modemvoice-" && has m Modem then Modem
  else if HasPrefix callID "volte-" && has m Native then Native
  else if is_modem m deviceID then IMS
  else pick m deviceID.

(** A method of a backend: a nil interface panics. *)
Definition on {E} (m : Mux) (b : backend) : go E backend := if has m b then Ok b else Panic.

(** [BeginCall]: [refused] is the error of [BeforeDial], if it is set. *)
Definition BeginCall (m : Mux) (deviceID : string) (refused : option string) : go string backend :=
  match refused with Some e => Err e | None => on m (pick m deviceID) end.

(** [ActiveCall]: [modem] is what the modem backend has. *)
Definition ActiveCall {A} (m : Mux) (deviceID : string) (active : backend → option A) : go unit (option A) :=
  if has m Modem && bool_decide (is_Some (active Modem)) then Ok (active Modem)
  else b ← on m (pick m deviceID); Ok (active b).

(** The methods on one call all go through [pickCall]. *)
Inductive call_method :=
  | AnswerIncomingCall | RejectIncomingCall | HangupCall | SendCallDTMF | HoldCall | ResumeCall | SwitchCall
  | StartCallCapture.

Definition call_method_on (m : Mux) (c : call_method) (deviceID callID : string) : go unit backend :=
  on m (pickCall m deviceID callID).

(** [UpdateCallMedia]: only a backend that has the method is asked. *)
Definition UpdateCallMedia (m : Mux) (has_update : backend → bool) (deviceID callID : string) : option backend :=
  let b := pickCall m deviceID callID in
  if has m b && has_update b then Some b else None.

Definition DeviceStatus (m : Mux) (deviceID : string) : option backend :=
  let b := pick m deviceID in if has m b then Some b else None.

(** [SubscribeIncomingCalls], [SubscribeCallEvents]: the backends that are
    subscribed, in order; the function that they return undoes them all. *)
Definition subscribed (m : Mux) : list backend := filter (λ b, has m b = true) [Modem; IMS; Native].

(** ** Calls keep their backend *)

(** The shape of the identifiers that a backend gives. *)
Definition names (b : backend) (deviceID callID : string) : Prop :=
  match b with
  | Modem => ∃ rest, callID = "modemvoice-" +:+ rest
  | Native => ∃ q n k, callID = call_id deviceID q n k
  | IMS => HasPrefix callID "modemvoice-" = false ∧ HasPrefix callID "volte-" = false
  end.

(** A call stays with its backend.  A call that [BeginCall] gave to a
    backend is found there by every later method, whatever the mode of the
    device has become, unless it is an IMS call and the device is native by
    then; and no method panics. *)
Theorem calls_keep_backend m m' deviceID callID b c :
  BeginCall m deviceID None = Ok b → has m' = has m → names b deviceID callID →
  (b = IMS → pick m' deviceID ≠ Native) →
  call_method_on m' c deviceID callID = Ok b.
Proof.
  unfold BeginCall, on, call_method_on. intros Hb Hh Hn Hims.
  destruct (has m (pick m deviceID)) eqn:Hp; [|done]. injection Hb as <-. unfold on.
  assert (Hpick : pickCall m' deviceID callID = pick m deviceID); [|by rewrite Hpick, Hh, Hp].
  unfold pickCall. rewrite !Hh. destruct (pick m deviceID) eqn:Hd; cbn in Hn.
  - destruct Hn as [-> ->]. cbn [andb]. destruct (is_modem m' deviceID) eqn:Hm; [done|].
    specialize (Hims eq_refl). unfold pick in *. rewrite Hm in *. rewrite Hh in *. cbn [andb] in *.
    by destruct (native m' deviceID && has m Native).
  - destruct Hn as (q & n & k & ->). unfold call_id.
    assert (Hother : ∀ rest, HasPrefix ("volte-" +:+ rest) "modemvoice-" = false) by reflexivity.
    by rewrite Hother, HasPrefix_app, Hp.
  - destruct Hn as (rest & ->). by rewrite HasPrefix_app, Hp.
Qed.

Definition demo_mux (native modem : bool) : Mux := mkMux (λ _, true) (Some (λ _, native)) (Some (λ _, modem)).

Lemma calls_keep_backend_witness :
  call_method_on (demo_mux false false) HangupCall "m" (call_id "m" 1 7 1) = Ok Native.
Proof.
  apply (calls_keep_backend (demo_mux true false)); [reflexivity|reflexivity|exists 1, 7, 1; reflexivity|discriminate].
Defined.

(** The exception is real, against the comment of [pickCall]: an IMS call of a
    device whose mode becomes native is looked for at the native backend. *)
Lemma ims_call_misrouted :
  BeginCall (demo_mux false false) "m" None = Ok IMS ∧
  call_method_on (demo_mux true false) HangupCall "m" "ims-1" = Ok Native.
Proof. split; reflexivity. Qed.
End Routing.

Module Keys.

(** The codes of the modem's errors that the code names. *)
Definition QMIErrOpNetworkUnsupported : Z := 0x18.
Definition QMIErrOpDeviceUnsupported : Z := 0x34.
Definition QMIErrInvalidQmiCmd : Z := 0x47.
Definition QMIErrNotSupported : Z := 0x5E.

(** An error: the code that the modem gave, or another error. *)
Inductive dtmf_error :=
  | Invalid | NotFound (id : string) | Unbound | Stale
  | FromModem (code : option Z)
  | BurstFailed (continuous burst : dtmf_error).

Definition qmi_code (err : dtmf_error) : option Z := match err with FromModem code => code | _ => None end.

Definition continuousDTMFUnsupported (err : dtmf_error) : bool :=
  match qmi_code err with
  | None => false
  | Some code => bool_decide (code = QMIErrOpNetworkUnsupported) || bool_decide (code = QMIErrOpDeviceUnsupported)
                 || bool_decide (code = QMIErrInvalidQmiCmd) || bool_decide (code = QMIErrNotSupported)
  end.

Definition unknownDTMFMode (mode : Z) : bool :=
  bool_decide (mode = VoiceCallModeNoService) || bool_decide (mode = VoiceCallModeUnknown) || bool_decide (mode > VoiceCallModeWLAN).

(** [len(digit) == 1 && strings.Contains("0123456789*#", digit)] *)
Definition validNativeDTMF (digit : string) : bool :=
  match digit with
  | String a EmptyString => existsb (Ascii.eqb a) (list_ascii_of_string "0123456789*#")
  | _ => false
  end.

(** [Lookup] is what the session has under the identifier; [Current] what it
    has under the modem's number, [None] when there is no session; the others
    are commands to the modem, which answers with an error or none. *)
Inductive request :=
  | Lookup (id : string)
  | Bind
  | Current (qmiID : Z)
  | StartTone (qmiID : Z) (digit : ascii)
  | Sleep
  | StopTone (qmiID : Z)
  | Burst (qmiID : Z) (digit : string).

#[export] Instance dtmf_requests : Requests request := λ r,
  match r with
  | Lookup _ => option nativeCall
  | Bind => bool
  | Current _ => option (option nativeCall)
  | Sleep => unit
  | StartTone _ _ | StopTone _ | Burst _ _ => option (option Z)
  end.

Definition validateDTMFCall (call : nativeCall) : prog request (option dtmf_error) :=
  let? current := ask (Current (QMI call)) in
  Ret (match current with
       | None => Some Stale
       | Some None => Some Stale
       | Some (Some c) =>
           if bool_decide (ID c ≠ ID call) || bool_decide (State c = Completed) then Some Stale else None
       end).

Definition sendContinuousDTMF (call : nativeCall) (digit : ascii) : prog request (bool * option dtmf_error) :=
  let? err := validateDTMFCall call in
  match err with
  | Some e => Ret (false, Some e)
  | None =>
      let? started := ask (StartTone (QMI call) digit) in
      match started with
      | Some code => Ret (false, Some (FromModem code))
      | None =>
          let? _ := ask Sleep in
          let? err := validateDTMFCall call in
          match err with
          | Some e => Ret (true, Some e)
          | None =>
              let? stopped := ask (StopTone (QMI call)) in
              match stopped with
              | Some code => Ret (true, Some (FromModem code))
              | None => Ret (true, None)
              end
          end
      end
  end.

Definition sendBurstDTMF (call : nativeCall) (digit : string) : prog request (option dtmf_error) :=
  let? err := validateDTMFCall call in
  match err with
  | Some e => Ret (Some e)
  | None =>
      let? sent := ask (Burst (QMI call) digit) in
      Ret (match sent with Some code => Some (FromModem code) | None => None end)
  end.

(** [digit[0]] of a digit of one character. *)
Definition first_char (digit : string) : ascii := match digit with String a _ => a | EmptyString => "000"%char end.

Definition sendBoundDTMF (call : nativeCall) (digit : string) : prog request (option dtmf_error) :=
  if bool_decide (Mode call = VoiceCallModeCDMA) then sendBurstDTMF call digit
  else
    let? r := sendContinuousDTMF call (first_char digit) in
    match r with
    | (_, None) => Ret None
    | (started, Some err) =>
        if started || negb (unknownDTMFMode (Mode call)) || negb (continuousDTMFUnsupported err) then Ret (Some err)
        else
          let? burstErr := sendBurstDTMF call digit in
          Ret (match burstErr with Some b => Some (BurstFailed err b) | None => None end)
    end.

Definition SendCallDTMF (id digit : string) : prog request (option dtmf_error) :=
  if negb (validNativeDTMF digit) then Ret (Some Invalid)
  else
    let? call := ask (Lookup id) in
    match call with
    | None => Ret (Some (NotFound id))
    | Some call =>
        let? bound := ask Bind in
        if bound : bool then sendBoundDTMF call digit else Ret (Some Unbound)
    end.

(** ** What a key does *)

(** The call that was looked up; whether the last look at the session showed
    it as current; and what the modem took: nothing, refused the tone, started
    it, stopped it, or a burst. *)
Inductive tone := Silent | RefusedAs (code : option Z) | Started | Stopped | Bursted.
Inductive stage := Asked | Bound (call : nativeCall) (fresh : bool) (t : tone).

Definition accept (call : nativeCall) (answer : option (option Z)) (taken refused : tone) : option stage :=
  Some (Bound call false (match answer with None => taken | Some _ => refused end)).

(** A command goes to the number of the call, at once after a look that showed
    the call as current.  A burst comes first only for CDMA, and after a tone
    that the modem refused as unsupported, for a mode that is not known. *)
Definition key_step (digit : string) (s : stage) (x : exchange request) : option stage :=
  let 'mkExchange c r := x in
  match c return answer c → option stage with
  | Lookup _ => λ r, match s, r with Asked, Some call => Some (Bound call false Silent) | Asked, None => Some Asked | _, _ => None end
  | Bind => λ _, match s with Bound _ _ Silent => Some s | _ => None end
  | Current q => λ r,
      match s with
      | Bound call _ t =>
          if bool_decide (q = QMI call) then
            Some (Bound call (match r with Some (Some c) => bool_decide (ID c = ID call) && negb (bool_decide (State c = Completed)) | _ => false end) t)
          else None
      | Asked => None
      end
  | Sleep => λ _, match s with Bound call _ Started => Some (Bound call false Started) | _ => None end
  | StartTone q d => λ r,
      match s with
      | Bound call true Silent =>
          if bool_decide (q = QMI call) && bool_decide (String d EmptyString = digit) && negb (bool_decide (Mode call = VoiceCallModeCDMA))
          then accept call r Started (match r with Some code => RefusedAs code | None => Silent end) else None
      | _ => None
      end
  | StopTone q => λ r,
      match s with
      | Bound call true Started => if bool_decide (q = QMI call) then accept call r Stopped Started else None
      | _ => None
      end
  | Burst q d => λ r,
      match s with
      | Bound call true t =>
          if bool_decide (q = QMI call) && bool_decide (d = digit) &&
             (match t with
              | Silent => bool_decide (Mode call = VoiceCallModeCDMA)
              | RefusedAs code => unknownDTMFMode (Mode call) && continuousDTMFUnsupported (FromModem code)
              | _ => false
              end)
          then accept call r Bursted t else None
      | _ => None
      end
  end r.

(** Success is a tone that was started and stopped, or a burst. *)
Definition key_done (err : option dtmf_error) (s : stage) : Prop :=
  match s with
  | Asked => err ≠ None
  | Bound _ _ t => err = None ↔ t = Stopped ∨ t = Bursted
  end.

Section Steps.
Context (digit : string).
Notation follows P p Q := (triple (key_step digit) P p Q).

Lemma validate_follows call t :
  follows (λ s, ∃ fresh, s = Bound call fresh t) (validateDTMFCall call)
    (λ err s, (err = None ∧ s = Bound call true t) ∨ (err = Some Stale ∧ ∃ fresh, s = Bound call fresh t)).
Proof.
  unfold validateDTMFCall.
  eapply (triple_bind (key_step digit) _ (ask (Current (QMI call))) _
    ((λ r s, s = Bound call (match r with Some (Some c) => bool_decide (ID c = ID call) && negb (bool_decide (State c = Completed)) | _ => false end) t)
       : answer (Current (QMI call)) → stage → Prop)).
  { apply triple_ask. intros s r (fresh & ->). eexists. split; [|done]. cbn. by rewrite bool_decide_eq_true_2. }
  intros r. apply triple_ret. intros s ->. destruct r as [[c|]|]; [|right; eauto..].
  rewrite bool_decide_not. destruct (bool_decide (ID c = ID call)), (bool_decide (State c = Completed)); cbn; eauto.
Qed.

Lemma burst_follows call t :
  (match t with
   | Silent => Mode call = VoiceCallModeCDMA
   | RefusedAs code => unknownDTMFMode (Mode call) && continuousDTMFUnsupported (FromModem code) = true
   | _ => False
   end) →
  follows (λ s, ∃ fresh, s = Bound call fresh t) (sendBurstDTMF call digit) key_done.
Proof.
  intros Ht. unfold sendBurstDTMF. eapply triple_bind; [apply validate_follows|]. intros [e|]; cbn beta match.
  { apply triple_ret. intros s [[? _]|(_ & fresh & ->)]; [done|]. cbn. destruct t; split; try done; intros [?|?]; done. }
  eapply (triple_bind (key_step digit) _ (ask (Burst (QMI call) digit)) _
    ((λ r s, s = Bound call false (match r with None => Bursted | Some _ => t end)) : answer (Burst (QMI call) digit) → stage → Prop)).
  { apply triple_ask. intros s r [(_ & ->)|(? & _)]; [|done]. eexists. split; [|done]. cbn.
    rewrite !(bool_decide_eq_true_2 (_ = _)) by done. cbn. destruct t; try done; [by rewrite bool_decide_eq_true_2|by rewrite Ht]. }
  intros r. apply triple_ret. intros s ->. cbn. destruct r; [|by split; auto]. destruct t; split; try done; intros [?|?]; done.
Qed.

Definition continued (call : nativeCall) (r : bool * option dtmf_error) (s : stage) : Prop :=
  match r with
  | (_, None) => ∃ fresh, s = Bound call fresh Stopped
  | (started, Some err) =>
      ∃ fresh t, s = Bound call fresh t ∧ t ≠ Stopped ∧ t ≠ Bursted ∧
        (started = false → continuousDTMFUnsupported err = true → ∃ code, t = RefusedAs code ∧ err = FromModem code)
  end.

Lemma continuous_follows call a :
  String a EmptyString = digit → Mode call ≠ VoiceCallModeCDMA →
  follows (eq (Bound call false Silent)) (sendContinuousDTMF call a) (continued call).
Proof.
  intros Ha Hmode. unfold sendContinuousDTMF.
  eapply triple_bind; [eapply triple_conseq; [apply (validate_follows call Silent)|by intros s <-; eexists|by intros ??]|].
  intros [e|]; cbn beta match.
  { apply triple_ret. intros s [[? _]|(He & fresh & ->)]; [done|]. injection He as ->. by exists fresh, Silent. }
  eapply (triple_bind (key_step digit) _ (ask (StartTone (QMI call) a)) _
    ((λ r s, s = Bound call false (match r with None => Started | Some code => RefusedAs code end)) : answer (StartTone (QMI call) a) → stage → Prop)).
  { apply triple_ask. intros s r [(_ & ->)|(? & _)]; [|done]. eexists. split; [|done]. cbn.
    rewrite !(bool_decide_eq_true_2 (_ = _)), bool_decide_eq_false_2 by done. cbn. by destruct r. }
  intros [code|].
  { apply triple_ret. intros s ->. exists false, (RefusedAs code). split_and!; try done. intros _ _. by exists code. }
  eapply (triple_bind (key_step digit) _ (ask Sleep) _ (λ _ s, ∃ fresh, s = Bound call fresh Started)).
  { apply triple_ask. intros s r ->. eexists. split; [done|]. by eexists. }
  intros _. eapply triple_bind; [apply validate_follows|]. intros [e|].
  { apply triple_ret. intros s [[? _]|(_ & fresh & ->)]; [done|]. by exists fresh, Started. }
  eapply (triple_bind (key_step digit) _ (ask (StopTone (QMI call))) _
    ((λ r s, s = Bound call false (match r with None => Stopped | Some _ => Started end)) : answer (StopTone (QMI call)) → stage → Prop)).
  { apply triple_ask. intros s r [(_ & ->)|(? & _)]; [|done]. eexists. split; [|done]. cbn. by rewrite bool_decide_eq_true_2. }
  intros [code|]; apply triple_ret; intros s ->; [by exists false, Started|by exists false].
Qed.

Lemma bound_follows call a :
  String a EmptyString = digit → follows (eq (Bound call false Silent)) (sendBoundDTMF call digit) key_done.
Proof.
  intros Ha. unfold sendBoundDTMF. case_bool_decide as Hmode.
  { eapply triple_conseq; [exact (burst_follows call Silent Hmode)|by intros s <-; eexists|done]. }
  assert (first_char digit = a) as -> by (by subst digit).
  eapply triple_bind; [by apply continuous_follows|]. intros [started [err|]].
  2:{ apply triple_ret. intros s (fresh & ->). split; auto. }
  destruct (started || negb (unknownDTMFMode (Mode call)) || negb (continuousDTMFUnsupported err)) eqn:Hstop.
  { apply triple_ret. intros s (fresh & t & -> & H1 & H2 & _). split; [done|]. by intros [?|?]. }
  apply orb_false_iff in Hstop as [[-> Hu%negb_false_iff]%orb_false_iff Hc%negb_false_iff].
  intros s tr r (fresh & t & -> & _ & _ & Hcode) Hx. destruct (Hcode eq_refl Hc) as (code & -> & ->).
  assert (Hb : follows (λ s, ∃ fresh, s = Bound call fresh (RefusedAs code))
    (let? burstErr := sendBurstDTMF call digit in
     Ret (match burstErr with Some b => Some (BurstFailed (FromModem code) b) | None => None end)) key_done).
  { eapply triple_bind; [apply (burst_follows call (RefusedAs code)); by rewrite Hu|]. intros b. apply triple_ret. intros s Hs. destruct b; [|done]. destruct s; [done|]. cbn in *. destruct Hs as [_ Hs]. split; [done|]. by intros ?%Hs. }
  by apply (Hb _ tr r (ex_intro _ fresh eq_refl)).
Qed.
End Steps.

(** One key is one tone.  In every run, whatever the session and the modem
    answer, commands go to the number of the call that was looked up, each at
    once after a look at the session that shows that call under the number and
    not ended; a tone is started once, and stopped only while the call is
    there; a burst is sent for CDMA, or after the modem refused the tone as
    unsupported for a call whose mode is not known, and never after a tone was
    started.  There is no error exactly when a tone was started and stopped or a
    burst was taken. *)
Theorem key_is_one_tone id digit tr err :
  exec (SendCallDTMF id digit) tr err →
  (validNativeDTMF digit = false ∧ tr = [] ∧ err = Some Invalid) ∨
  ∃ s, watch (key_step digit) Asked tr = Some s ∧ key_done err s.
Proof.
  intros Hx. unfold SendCallDTMF in Hx. destruct (validNativeDTMF digit) eqn:Hv; cbn [negb] in Hx; [|by left; destruct Hx].
  right. assert (∃ a, String a EmptyString = digit) as (a & Ha) by (destruct digit as [|a [|]]; try done; by exists a).
  match type of Hx with exec ?p _ _ => assert (H : triple (key_step digit) (eq Asked) p key_done) end.
  2:{ by apply (H Asked tr err eq_refl). }
  eapply (triple_bind (key_step digit) _ (ask (Lookup id)) _
    ((λ r s, s = match r with Some call => Bound call false Silent | None => Asked end) : answer (Lookup id) → stage → Prop)).
  { apply triple_ask. intros s r <-. eexists. split; [|done]. cbn. by destruct r. }
  intros [call|]; [|by apply triple_ret; intros s ->].
  eapply triple_bind with (R := λ _ s, s = Bound call false Silent).
  { apply triple_ask. intros s r ->. by eexists. }
  intros [|].
  - eapply triple_conseq; [by apply (bound_follows digit call a)|done|done].
  - apply triple_ret. intros s ->. split; [done|]. by intros [?|?].
Qed.

(** A modem that does not know tones, and a call whose mode is not known. *)
Definition demo_call : nativeCall := mkCall "volte-m-1-7-1" 1 VoiceCallModeUnknown Outbound "112" Connected None "" "" "" false.
Definition old_modem (n : Z) (c : request) : answer c * Z :=
  match c return answer c * Z with
  | Lookup _ => (Some demo_call, n)
  | Bind => (true, n)
  | Current _ => (Some (Some demo_call), n)
  | StartTone _ _ => (Some (Some QMIErrNotSupported), n)
  | Sleep => (tt, n)
  | StopTone _ => (None, n)
  | Burst _ _ => (None, n + 1)
  end.

Lemma key_is_one_tone_witness :
  let x := run_on old_modem (SendCallDTMF "volte-m-1-7-1" "5") 0 in
  x.2 = 1 ∧ x.1.2 = None ∧
  ((validNativeDTMF "5" = false ∧ x.1.1 = [] ∧ x.1.2 = Some Invalid) ∨
   ∃ s, watch (key_step "5") Asked x.1.1 = Some s ∧ key_done x.1.2 s).
Proof.
  split; [vm_compute; reflexivity|]. split; [vm_compute; reflexivity|].
  exact (key_is_one_tone "volte-m-1-7-1" "5" _ _ (run_on_exec old_modem (SendCallDTMF "volte-m-1-7-1" "5") 0)).
Defined.
End Keys.
