(* ===== verification/EsimErrors.v ===== *)
(** * The errors of the eSIM manager (internal/esim)

    An error of the code is a chain: [%w] and the error types of the package
    wrap another error, and [errors.Is] and [errors.As] search the chain.  What
    callers do with an error depends on the class that is found there: errors.go,
    download_error.go, [wrapQMIChannelError] of qmi_channel.go, and the parts of
    manager.go that tell the reset of a card from a failure.

    The operations, results and reasons of the SGP.22 library are parameters, as
    is the test for its "CAT busy" error. *)

From Stdlib Require Import Ascii String.
From S2P Require Import Prelude GoText SmsCodecProofs.
From stdpp Require Import strings.

#[local] Open Scope Z_scope.
#[local] Open Scope string_scope.

(** The constants of the SGP.22 library that the code names. *)
Class Sgp22 := {
  EnableProfile : Z; DisableProfile : Z; DeleteProfile : Z;
  ICCIDOrAIDNotFound : Z; NotInDisabledState : Z; NotInEnabledState : Z; DisallowedByPolicy : Z;
  WrongProfileReenabling : Z; CATBusy : Z;
  LoadProfileElements : Z;
  ICCIDAlreadyExists : Z; InsufficientMemory : Z; Interruption : Z; DataMismatch : Z; PPRNotAllowed : Z }.

(** ** Error values *)

Inductive sentinel :=
  | ErrQMITransportNotAvailable | ErrQMIUIMNotAvailable | ErrQMIUIMNotSupported | ErrQMIUIMApplicationMissing
  | ErrQMIControlDeviceMissing | ErrQMIUIMCardReset | ErrMBIMUICCInvalidChannel | ErrOperationInProgress | ErrNoEUICC.
#[global] Instance sentinel_eq_dec : EqDecision sentinel.
Proof. solve_decision. Defined.

Definition sentinel_text (s : sentinel) : string :=
  match s with
  | ErrQMITransportNotAvailable => "qmi_transport_not_available"
  | ErrQMIUIMNotAvailable => "qmi_uim_not_available"
  | ErrQMIUIMNotSupported => "qmi_uim_not_supported"
  | ErrQMIUIMApplicationMissing => "qmi_uim_application_missing"
  | ErrQMIControlDeviceMissing => "qmi_control_device_missing"
  | ErrQMIUIMCardReset => "qmi_uim_card_reset"
  | ErrMBIMUICCInvalidChannel => "mbim_uicc_invalid_channel"
  | ErrOperationInProgress => "eSIM 操作进行中，请稍后重试"
  | ErrNoEUICC => "未检测到 eUICC"
  end.

(** The error types of the package that carry a code. *)
Inductive kind := SwitchError | DisableError | DeleteError | NotificationError.
#[global] Instance kind_eq_dec : EqDecision kind.
Proof. solve_decision. Defined.

(** What is told of a download that failed. *)
Record DownloadErrorInfo := mkDownloadInfo {
  Code : string; Message : string; Details : string; BPPCommandID : Z; BPPErrorReason : Z; OriginalMessage : string }.

Inductive error :=
  | Sentinel (s : sentinel)
  | Errorf (before : string) (inner : error) (after : string)
  | QMIError (service message code : Z) (text : string)
  | NotSupportedError (text : string)
  | StatusError (status : Z) (text : string)
  | ProfileOperationError (operation result : Z) (text : string)
  | LoadBoundProfilePackageError (command reason : Z) (text : string)
  | Coded (k : kind) (code message : string) (inner : option error)
  | DownloadProfileError (info : DownloadErrorInfo) (inner : option error)
  | Plain (text : string).

(** What [Error] gives when there is neither a message nor a wrapped error. *)
Definition default_text (k : kind) : string :=
  match k with
  | SwitchError => "switch profile failed"
  | DisableError => "disable profile failed"
  | DeleteError => "delete profile failed"
  | NotificationError => "notification operation failed"
  end.

(** [err.Error()] *)
Fixpoint Error (e : error) : string :=
  match e with
  | Sentinel s => sentinel_text s
  | Errorf before inner after => before +:+ Error inner +:+ after
  | QMIError _ _ _ text | NotSupportedError text | StatusError _ text | ProfileOperationError _ _ text
  | LoadBoundProfilePackageError _ _ text | Plain text => text
  | Coded k _ message inner =>
      if bool_decide (message ≠ "") then message
      else match inner with Some inner => Error inner | None => default_text k end
  | DownloadProfileError info inner =>
      if bool_decide (Message info ≠ "") then Message info
      else match inner with Some inner => Error inner | None => "下载 profile 失败" end
  end.

(** [errors.Unwrap] *)
Definition Unwrap (e : error) : option error :=
  match e with
  | Errorf _ inner _ => Some inner
  | Coded _ _ _ inner | DownloadProfileError _ inner => inner
  | _ => None
  end.

(** [errors.As]: the first of the chain that [f] accepts; [errors.Is] finds a
    sentinel. *)
Fixpoint As {A} (f : error → option A) (e : error) : option A :=
  match f e with
  | Some a => Some a
  | None =>
      match e with
      | Errorf _ inner _ | Coded _ _ _ (Some inner) | DownloadProfileError _ (Some inner) => As f inner
      | _ => None
      end
  end.

Definition is_sentinel (s : sentinel) (e : error) : option unit :=
  match e with Sentinel s' => if bool_decide (s' = s) then Some tt else None | _ => None end.
Definition Is (e : error) (s : sentinel) : bool := bool_decide (As (is_sentinel s) e ≠ None).

Definition as_coded (k : kind) (e : error) : option string :=
  match e with Coded k' code _ _ => if bool_decide (k' = k) then Some code else None | _ => None end.
Definition as_operation (e : error) : option (Z * Z) :=
  match e with ProfileOperationError operation result _ => Some (operation, result) | _ => None end.
Definition as_qmi (e : error) : option (Z * Z * Z) :=
  match e with QMIError service message code _ => Some (service, message, code) | _ => None end.
Definition as_status (e : error) : option Z := match e with StatusError status _ => Some status | _ => None end.
Definition as_bpp (e : error) : option (Z * Z * string) :=
  match e with LoadBoundProfilePackageError command reason text => Some (command, reason, text) | _ => None end.

(** ** errors.go *)
Section Classes.
Context `{Sgp22}.

(** [errors.Is(err, sgp22.ErrCatBusy)] *)
Context (is_cat_busy : error → bool).

Definition NewSwitchProfileError (code message : string) (err : option error) : error := Coded SwitchError code message err.
Definition NewDisableProfileError (code message : string) (err : option error) : error := Coded DisableError code message err.
Definition NewDeleteProfileError (code message : string) (err : option error) : error := Coded DeleteError code message err.
Definition NewNotificationError (code message : string) (err : option error) : error := Coded NotificationError code message err.

(** The code of the first error of the type in the chain, unless it is empty. *)
Definition coded (k : kind) (e : error) : option string :=
  match As (as_coded k) e with Some code => if bool_decide (code ≠ "") then Some code else None | None => None end.

(** The result of the first operation error, when it is of [operation]. *)
Definition operation_result (operation : Z) (e : error) : option Z :=
  match As as_operation e with
  | Some (op, result) => if bool_decide (op = operation) then Some result else None
  | None => None
  end.

Definition classifySwitchProfileOperationResult (result : Z) : string :=
  if bool_decide (result = ICCIDOrAIDNotFound) then "PROFILE_NOT_FOUND"
  else if bool_decide (result = NotInDisabledState) then "PROFILE_NOT_DISABLED"
  else if bool_decide (result = DisallowedByPolicy) then "DISALLOWED_BY_POLICY"
  else if bool_decide (result = WrongProfileReenabling) then "WRONG_PROFILE_REENABLING"
  else if bool_decide (result = CATBusy) then "CAT_BUSY"
  else "INTERNAL".

Definition ClassifySwitchProfileError (err : option error) : string :=
  match err with
  | None => ""
  | Some e =>
      match coded SwitchError e with
      | Some code => code
      | None =>
          match operation_result EnableProfile e with
          | Some result => classifySwitchProfileOperationResult result
          | None => "INTERNAL"
          end
      end
  end.

Definition classifyDisableProfileOperationResult (result : Z) : string :=
  if bool_decide (result = ICCIDOrAIDNotFound) then "PROFILE_NOT_FOUND"
  else if bool_decide (result = NotInEnabledState) then "PROFILE_NOT_ENABLED"
  else if bool_decide (result = DisallowedByPolicy) then "DISALLOWED_BY_POLICY"
  else if bool_decide (result = CATBusy) then "CAT_BUSY"
  else "INTERNAL".

Definition ClassifyDisableProfileError (err : option error) : string :=
  match err with
  | None => ""
  | Some e =>
      if Is e ErrOperationInProgress then "BUSY"
      else match coded DisableError e with
           | Some code => code
           | None =>
               match operation_result DisableProfile e with
               | Some result => classifyDisableProfileOperationResult result
               | None => if is_cat_busy e then "CAT_BUSY" else "INTERNAL"
               end
           end
  end.

Definition IsDisableProfileBusy (err : option error) : bool := String.eqb (ClassifyDisableProfileError err) "BUSY".

Definition ClassifyDeleteProfileError (err : option error) : string :=
  match err with
  | None => ""
  | Some e =>
      if Is e ErrOperationInProgress then "BUSY"
      else match coded DeleteError e with
           | Some code => code
           | None =>
               match operation_result DeleteProfile e with
               | Some result =>
                   if bool_decide (result = ICCIDOrAIDNotFound) then "PROFILE_NOT_FOUND"
                   else if bool_decide (result = NotInDisabledState) then "PROFILE_ENABLED"
                   else if bool_decide (result = DisallowedByPolicy) then "DISALLOWED_BY_POLICY"
                   else "INTERNAL"
               | None => "INTERNAL"
               end
           end
  end.

Definition one_of (s : string) (l : list string) : bool := existsb (String.eqb s) l.

Definition IsDeleteProfileInvalidInput (err : option error) : bool :=
  one_of (ClassifyDeleteProfileError err) ["INVALID_ICCID"; "INVALID_AID_HEX"].
Definition IsDeleteProfileNotFound (err : option error) : bool :=
  one_of (ClassifyDeleteProfileError err) ["PROFILE_NOT_FOUND"; "EUICC_NOT_FOUND"].
Definition IsDeleteProfileBusy (err : option error) : bool := String.eqb (ClassifyDeleteProfileError err) "BUSY".
Definition IsDeleteProfileConflict (err : option error) : bool :=
  one_of (ClassifyDeleteProfileError err) ["BUSY"; "PROFILE_ENABLED"; "DISALLOWED_BY_POLICY"].

Definition ClassifyNotificationError (err : option error) : string :=
  match err with
  | None => ""
  | Some e =>
      if Is e ErrOperationInProgress then "BUSY"
      else match coded NotificationError e with Some code => code | None => "INTERNAL" end
  end.

(** ** download_error.go *)

Definition classifyBPPErrorCode (command reason : Z) : string :=
  if bool_decide (command ≠ LoadProfileElements) then "euicc_profile_install_failed"
  else if bool_decide (reason = ICCIDAlreadyExists) then "euicc_iccid_already_exists"
  else if bool_decide (reason = InsufficientMemory) then "euicc_insufficient_memory"
  else if bool_decide (reason = Interruption) then "euicc_profile_install_interrupted"
  else if bool_decide (reason = DataMismatch) then "euicc_profile_data_mismatch"
  else if bool_decide (reason = PPRNotAllowed) then "euicc_ppr_not_allowed"
  else "euicc_profile_install_failed".

Definition downloadBPPErrorMessage (command reason : Z) (text : string) : string :=
  let failed := "eUICC 安装 profile 失败（" +:+ text +:+ "）" in
  if bool_decide (command ≠ LoadProfileElements) then failed
  else if bool_decide (reason = ICCIDAlreadyExists) then "eUICC 已存在相同 ICCID 的 profile"
  else if bool_decide (reason = InsufficientMemory) then "eUICC 安装 profile 时空间不足，请删除未使用的 profile 后重试"
  else if bool_decide (reason = Interruption) then "eUICC 安装 profile 时被中断，请稍后重试"
  else if bool_decide (reason = DataMismatch) then "eUICC 安装 profile 时数据校验不匹配"
  else if bool_decide (reason = PPRNotAllowed) then "eUICC 策略规则不允许安装该 profile"
  else failed.

Definition ClassifyDownloadError (err : option error) : DownloadErrorInfo :=
  match err with
  | None => mkDownloadInfo "download_failed" "下载 profile 失败" "" 0 0 ""
  | Some e =>
      match As as_bpp e with
      | Some (command, reason, text) =>
          mkDownloadInfo (classifyBPPErrorCode command reason) (downloadBPPErrorMessage command reason text) text
            (u8 command) (u8 reason) (Error e)
      | None => mkDownloadInfo "download_failed" ("下载 profile 失败: " +:+ Error e) "" 0 0 (Error e)
      end
  end.

Definition NewDownloadProfileError (err : option error) : error := DownloadProfileError (ClassifyDownloadError err) err.

(** [isRecoverableDownloadInstallFinalizeError] of manager.go *)
Definition isRecoverableDownloadInstallFinalizeError (unicode_lower : string → string) (err : option error) : bool :=
  match err with
  | None => false
  | Some e =>
      match As as_bpp e with
      | Some _ => false
      | None => existsb (Contains (ToLower unicode_lower (Error e)))
                  ["apdu"; "pc/sc"; "cancel session"; "execution error"; "unexpected response"]
      end
  end.

(** ** The errors of the card's channel (qmi_channel.go) *)

Definition QMIErrSIMFileNotFound : Z := 0x50.
Definition QMIErrNotSupported : Z := 0x5E.
Definition QMIErrInvalidQmiCmd : Z := 0x47.
Definition QMIErrDeviceNotReady : Z := 0x05.
Definition QMIErrInvalidID : Z := 0x29.
Definition QMIErrCardCallControlRefFail : Z := 0x30.
Definition ServiceUIM : Z := 0x0B.
Definition UIMOpenLogicalChannel : Z := 0x42.
Definition StatusMSNoLogicalChannels : Z := 0x87430001.
Definition StatusMSSelectFailed : Z := 0x87430002.
Definition StatusMSInvalidLogicalChannel : Z := 0x87430003.

Section Channel.
Context (unicode_lower : string → string).

(** [fmt.Errorf("%w: %s", s, operation)] *)
Definition classed (s : sentinel) (operation : string) : error := Errorf "" (Sentinel s) (": " +:+ operation).

(** The class of a QMI error code, if it has one. *)
Definition qmi_class (e : error) : option sentinel :=
  match As as_qmi e with
  | None => None
  | Some (service, message, code) =>
      if bool_decide (code = QMIErrSIMFileNotFound) then
        if bool_decide (service = ServiceUIM) && bool_decide (message = UIMOpenLogicalChannel)
        then Some ErrQMIUIMApplicationMissing else None
      else if bool_decide (code = QMIErrNotSupported) || bool_decide (code = QMIErrInvalidQmiCmd) then Some ErrQMIUIMNotSupported
      else if bool_decide (code = QMIErrDeviceNotReady) || bool_decide (code = QMIErrInvalidID) then Some ErrQMIUIMNotAvailable
      else if bool_decide (code = QMIErrCardCallControlRefFail) then Some ErrQMIUIMCardReset
      else None
  end.

Definition reset_status (status : Z) : bool :=
  bool_decide (status = StatusMSInvalidLogicalChannel) || bool_decide (status = StatusMSSelectFailed)
  || bool_decide (status = StatusMSNoLogicalChannels).

Definition wrapQMIChannelError (operation : string) (err : option error) : option error :=
  match err with
  | None => None
  | Some e =>
      if Is e ErrQMIControlDeviceMissing || Is e ErrQMITransportNotAvailable then Some e
      else match qmi_class e with
      | Some s => Some (classed s operation)
      | None =>
          match e with
          | NotSupportedError _ => Some (classed ErrQMIUIMNotSupported operation)
          | _ =>
              if match As as_status e with Some status => reset_status status | None => false end
              then Some (classed ErrMBIMUICCInvalidChannel operation)
              else
                let msg := ToLower unicode_lower (Error e) in
                if Contains msg "uim service not available" || Contains msg "qmi_uim_not_available"
                then Some (classed ErrQMIUIMNotAvailable operation)
                else Some (Errorf (operation +:+ ": ") e "")
          end
      end
  end.

(** ** The result of a switch (manager.go) *)

Definition isExpectedCardResetSignal (e : error) : bool := Is e ErrQMIUIMCardReset || Is e ErrMBIMUICCInvalidChannel.

Definition finalizeEnableProfileResult (targetICCID : string) (enableErr : option error) : option error :=
  match enableErr with
  | None => None
  | Some e =>
      if isExpectedCardResetSignal e then None
      else Some (NewSwitchProfileError (ClassifySwitchProfileError enableErr)
                   ("启用 profile " +:+ targetICCID +:+ " 失败: " +:+ Error e) enableErr)
  end.

Definition isExpectedPostResetLPAClientCloseError (operation : string) (err : option error) : bool :=
  match err with
  | None => false
  | Some e =>
      if one_of (TrimSpace operation)
           ["switch_profile_pre_refresh"; "switch_profile_deferred"; "disable_profile_pre_refresh"; "disable_profile_deferred"]
      then
        let msg := ToLower unicode_lower (Error e) in
        Contains msg "close logical channel" && (Contains msg "qmi_uim_card_reset" || Contains msg "error=0x0030")
      else false
  end.
End Channel.
End Classes.

(** ** Proofs *)

(** What callers put around an error on its way up. *)
Definition wraps (frames : list (string * string)) (e : error) : error :=
  foldr (λ f e, Errorf f.1 e f.2) e frames.

Lemma As_wraps {A} (f : error → option A) frames e :
  (∀ before inner after, f (Errorf before inner after) = None) → As f (wraps frames e) = As f e.
Proof. intros Hf. induction frames as [|[b a] frames IH]; [done|]. cbn. by rewrite Hf. Qed.

Lemma Is_wraps frames e s : Is (wraps frames e) s = Is e s.
Proof. unfold Is. by rewrite As_wraps. Qed.

Lemma classed_Is s operation s' : Is (classed s operation) s' = bool_decide (s = s').
Proof.
  unfold Is, classed. cbn. destruct (decide (s = s')) as [->|Hne].
  - by rewrite (bool_decide_eq_true_2 (s' = s')).
  - by rewrite (bool_decide_eq_false_2 (s = s')).
Qed.

Section Proofs.
Context `{Sgp22} (is_cat_busy : error → bool) (unicode_lower : string → string).

Lemma coded_wraps k frames e : coded k (wraps frames e) = coded k e.
Proof. unfold coded. by rewrite As_wraps. Qed.

Lemma operation_result_wraps op frames e : operation_result op (wraps frames e) = operation_result op e.
Proof. unfold operation_result. by rewrite As_wraps. Qed.

Lemma qmi_class_wraps frames e : qmi_class (wraps frames e) = qmi_class e.
Proof. unfold qmi_class. by rewrite As_wraps. Qed.

(** The class of an error survives what callers put around it. *)
Lemma class_wraps frames e :
  ClassifySwitchProfileError (Some (wraps frames e)) = ClassifySwitchProfileError (Some e) ∧
  ClassifyDeleteProfileError (Some (wraps frames e)) = ClassifyDeleteProfileError (Some e) ∧
  ClassifyNotificationError (Some (wraps frames e)) = ClassifyNotificationError (Some e).
Proof. cbn. by rewrite !Is_wraps, !coded_wraps, !operation_result_wraps. Qed.

Lemma class_nonempty e : ClassifySwitchProfileError (Some e) ≠ "".
Proof.
  cbn. unfold coded. destruct (As _ e) as [code|]; [case_bool_decide; [done|]|];
    (destruct (operation_result _ e) as [r|]; [|done]; unfold classifySwitchProfileOperationResult; by repeat case_bool_decide).
Qed.

(** The errors that the drivers of the modem give, and those of them that
    announce a reset of the card. *)
Definition from_driver (root : error) : Prop :=
  match root with QMIError _ _ _ _ | StatusError _ _ | NotSupportedError _ | Plain _ => True | _ => False end.

Definition resets (root : error) : bool :=
  match root with
  | QMIError _ _ code _ => bool_decide (code = QMIErrCardCallControlRefFail)
  | StatusError status _ => reset_status status
  | _ => false
  end.

Lemma driver_Is root s : from_driver root → Is root s = false.
Proof. by destruct root. Qed.

(** What [wrapQMIChannelError] makes of an error without a QMI class. *)
Definition unclassed (operation : string) (e : error) : error :=
  if match As as_status e with Some status => reset_status status | None => false end
  then classed ErrMBIMUICCInvalidChannel operation
  else
    let msg := ToLower unicode_lower (Error e) in
    if Contains msg "uim service not available" || Contains msg "qmi_uim_not_available"
    then classed ErrQMIUIMNotAvailable operation
    else Errorf (operation +:+ ": ") e "".

Lemma wrap_driver operation e :
  Is e ErrQMIControlDeviceMissing = false → Is e ErrQMITransportNotAvailable = false →
  wrapQMIChannelError unicode_lower operation (Some e) =
    Some (match qmi_class e with
          | Some s => classed s operation
          | None => match e with NotSupportedError _ => classed ErrQMIUIMNotSupported operation | _ => unclassed operation e end
          end).
Proof.
  intros H1 H2. unfold wrapQMIChannelError, unclassed. rewrite H1, H2. cbn [orb]. destruct (qmi_class e); [done|].
  destruct e; try reflexivity; (destruct (match As as_status _ with Some _ => _ | None => _ end); [done|]; cbn zeta; by destruct (_ || _)).
Qed.

Lemma unclassed_signal operation frames root :
  from_driver root →
  isExpectedCardResetSignal (unclassed operation (wraps frames root)) = match root with StatusError status _ => reset_status status | _ => false end.
Proof.
  intros Hroot. unfold unclassed. rewrite As_wraps by done.
  assert (Hgeneric : isExpectedCardResetSignal (Errorf (operation +:+ ": ") (wraps frames root) "") = false).
  { change (Errorf ?b (wraps frames root) ?a) with (wraps ((b, a) :: frames) root). unfold isExpectedCardResetSignal.
    by rewrite !Is_wraps, !driver_Is. }
  destruct root; try done; cbn [As as_status]; try destruct (reset_status _) eqn:Hr;
    try (unfold isExpectedCardResetSignal; rewrite !classed_Is; done);
    (cbn zeta; destruct (_ || _); [unfold isExpectedCardResetSignal; by rewrite !classed_Is|exact Hgeneric]).
Qed.

Lemma signal_wraps frames e : isExpectedCardResetSignal (wraps frames e) = isExpectedCardResetSignal e.
Proof. unfold isExpectedCardResetSignal. by rewrite !Is_wraps. Qed.

Lemma reset_signal operation frames root :
  from_driver root →
  ∃ e, wrapQMIChannelError unicode_lower operation (Some (wraps frames root)) = Some e ∧ isExpectedCardResetSignal e = resets root.
Proof.
  intros Hroot. rewrite wrap_driver by (rewrite Is_wraps; by apply driver_Is). eexists. split; [done|].
  rewrite qmi_class_wraps. destruct (qmi_class root) as [s|] eqn:Hq.
  - destruct root; try done. unfold qmi_class in Hq. cbn [As as_qmi] in Hq.
    unfold isExpectedCardResetSignal. rewrite !classed_Is. cbn [resets].
    repeat case_bool_decide; cbn [andb orb] in *; simplify_eq; done.
  - assert (Hu : isExpectedCardResetSignal (unclassed operation (wraps frames root)) = resets root).
    { rewrite unclassed_signal by done. destruct root; try done. unfold qmi_class in Hq. cbn [As as_qmi] in Hq. cbn [resets].
      repeat case_bool_decide; cbn [andb orb] in *; simplify_eq; done. }
    destruct frames as [|[b a] frames]; [|exact Hu]. destruct root; try exact Hu. unfold isExpectedCardResetSignal. cbn. by rewrite !classed_Is.
Qed.

(** The result of a switch.  Whatever frames the callers below and above
    [wrapQMIChannelError] put around an error of the modem, enabling a profile
    counts as done exactly when the modem announced the reset of the card: the
    QMI code 0x30, or one of the three MBIM statuses of a lost channel.  Any
    other error is returned as an error of the switch, which keeps the class
    that the error had and its text. *)
Theorem switch_result target operation frames frames' root :
  from_driver root →
  ∃ e, wrapQMIChannelError unicode_lower operation (Some (wraps frames root)) = Some e ∧
    let enableErr := Some (wraps frames' e) in
    if resets root then finalizeEnableProfileResult target enableErr = None
    else ∃ f, finalizeEnableProfileResult target enableErr = Some f ∧
         ClassifySwitchProfileError (Some f) = ClassifySwitchProfileError enableErr ∧ Unwrap f = enableErr.
Proof.
  intros Hroot. destruct (reset_signal operation frames root Hroot) as (e & He & Hs). exists e. split; [done|].
  cbn zeta. unfold finalizeEnableProfileResult. rewrite signal_wraps, Hs. destruct (resets root); [done|].
  eexists. split; [done|]. split; [|done]. pose proof (class_nonempty (wraps frames' e)) as Hne.
  unfold NewSwitchProfileError. unfold ClassifySwitchProfileError at 1. unfold coded at 1. cbn [As as_coded].
  rewrite (bool_decide_eq_true_2 (SwitchError = SwitchError)) by done. by rewrite bool_decide_eq_true_2.
Qed.
End Proofs.

(** The constants of the library, with their published values where they are
    results of operations. *)
#[local] Instance demo_sgp22 : Sgp22 := {|
  EnableProfile := 1; DisableProfile := 2; DeleteProfile := 3;
  ICCIDOrAIDNotFound := 1; NotInDisabledState := 2; NotInEnabledState := 2; DisallowedByPolicy := 3;
  WrongProfileReenabling := 4; CATBusy := 5; LoadProfileElements := 5;
  ICCIDAlreadyExists := 9; InsufficientMemory := 10; Interruption := 11; DataMismatch := 13; PPRNotAllowed := 15 |}.

Lemma switch_result_witness :
  ∃ e, wrapQMIChannelError id "transmit APDU" (Some (wraps [("send: ", "")] (QMIError ServiceUIM 0x3B 0x30 "error=0x0030"))) = Some e ∧
    finalizeEnableProfileResult "8901" (Some (wraps [("enable: ", "")] e)) = None.
Proof.
  exact (switch_result id "8901" "transmit APDU" [("send: ", "")] [("enable: ", "")]
    (QMIError ServiceUIM 0x3B 0x30 "error=0x0030") I).
Defined.

(** The classes that the web interface tells apart do not overlap. *)
Lemma delete_classes_disjoint `{Sgp22} err :
  IsDeleteProfileInvalidInput err && IsDeleteProfileNotFound err = false ∧
  IsDeleteProfileInvalidInput err && IsDeleteProfileConflict err = false ∧
  IsDeleteProfileNotFound err && IsDeleteProfileConflict err = false.
Proof.
  unfold IsDeleteProfileInvalidInput, IsDeleteProfileNotFound, IsDeleteProfileConflict, one_of.
  generalize (ClassifyDeleteProfileError err). intros s. cbn.
  destruct (String.eqb_spec s "INVALID_ICCID") as [->|]; [done|]. destruct (String.eqb_spec s "INVALID_AID_HEX") as [->|]; [done|].
  cbn. split_and!; try done. destruct (String.eqb_spec s "PROFILE_NOT_FOUND") as [->|]; [done|].
  by destruct (String.eqb_spec s "EUICC_NOT_FOUND") as [->|].
Qed.

(** An operation in progress is reported as such under any class. *)
Lemma busy_first `{Sgp22} cat e :
  Is e ErrOperationInProgress = true →
  IsDisableProfileBusy cat (Some e) = true ∧ IsDeleteProfileBusy (Some e) = true ∧ ClassifyNotificationError (Some e) = "BUSY".
Proof.
  intros Hb. unfold IsDisableProfileBusy, IsDeleteProfileBusy, ClassifyDisableProfileError, ClassifyDeleteProfileError,
    ClassifyNotificationError. by rewrite Hb.
Qed.
