(* ===== verification/EsimSwitch.v ===== *)
(** * Switching a profile (internal/esim/manager.go)

    [SwitchProfileWithResult] and [DisableProfile] as programs: the lock of write
    operations, the lease of the device, the client of the card, the barrier of
    the APDU arbiter, the attempts on the card and the deferred functions, which
    run in the reverse order of their [defer] statements.  Each call that leaves
    the function is a request: to the card, to the arbiter, to a callback, or to
    another part of the manager.

    Parameters: the ICCID of the SGP.22 library and its parser, the test for its
    CAT busy error, and the texts of two formatted values. *)

From Stdlib Require Import Ascii String.
From S2P Require Import Prelude GoText SmsCodec Arbiter Interaction EsimErrors.
From stdpp Require Import strings.

#[local] Open Scope Z_scope.
#[local] Open Scope string_scope.

Inductive SwitchOperation := SwitchOperationEnableProfile | SwitchOperationDisableProfile.
#[global] Instance switch_operation_eq_dec : EqDecision SwitchOperation.
Proof. solve_decision. Defined.

(** The phases that these two functions report. *)
Inductive SwitchPhase := SwitchPhaseAPDUSwitching | SwitchPhaseCardResetSettling | SwitchPhaseFailed.
#[global] Instance switch_phase_eq_dec : EqDecision SwitchPhase.
Proof. solve_decision. Defined.

(** What the manager is configured with: which callbacks are set, whether there
    is an arbiter, the transport and the refresh flag. *)
Record config := mkConfig {
  onBeforeSwitch : bool; onAfterSwitch : bool; onSwitchFailed : bool; onSwitchPhase : bool;
  acquireSwitchLease : bool; apduArbiter : bool; transport : string;
  switchUseRefreshTrue : bool; postSwitchMinDelay : Z }.

Record SwitchProfileResult := mkResult {
  SwitchToken : Z; Phase : option SwitchPhase; SwitchAccepted : bool; RecoveryPending : bool;
  PostSwitchAsync : bool; TargetICCID : string; CachePatched : bool }.

(** What the acquirer of a lease returns. *)
Inductive lease := LeaseRefused (e : error) | LeaseWithoutRelease | LeaseHeld.

Section Switch.
Context {ICCID : Type} (NewICCID : string → ICCID + error).
Context (is_cat_busy : error → bool).
Context `{Sgp22}.
(** [%q], the error of [hex.DecodeString], and [strings.ToUpper] beyond ASCII. *)
Context (Quote : string → string) (hex_error : string → error) (unicode_upper : string → string).

Inductive request :=
  | LockOperation | UnlockOperation | WriteDone
  | StoreChannelCtx (active : bool)
  | AcquireSwitchLease (o : SwitchOperation) (target : string) | ReleaseOwnership
  | DrainSwitchSignals
  | FindAIDForICCID (target : string)
  | CreateLPA (aid : bytes)
  | CloseLPA (operation : string)
  | OnBeforeSwitch (o : SwitchOperation) (target : string)
  | OnSwitchPhase (o : SwitchOperation) (token : Z) (phase : SwitchPhase)
  | OnSwitchFailed (o : SwitchOperation) (token : Z) (failure : option error)
  | OnAfterSwitch (o : SwitchOperation) (token : Z)
  | BeginBarrier (req : Request) (blocked : list string) | BarrierRelease
  | BeginSwitchOverviewSuppression
  | EnableOnCard (i : ICCID) (refresh : bool) | DisableOnCard (i : ICCID) (refresh : bool)
  | Sleep (ms : Z)
  | PatchCachedActiveProfile (target aidHex : string)
  | InvalidateOverviewCache (reason : string) | TriggerOverviewReload (reason : string)
  | GoPostSwitch (o : SwitchOperation) (token : Z) (target : string).

#[global] Instance switch_answer : Requests request := λ c,
  match c with
  | AcquireSwitchLease _ _ => lease
  | FindAIDForICCID _ => (bytes + error)%type
  | CreateLPA _ | CloseLPA _ | BeginBarrier _ _ | EnableOnCard _ _ | DisableOnCard _ _ => option error
  | OnBeforeSwitch _ _ => Z
  | PatchCachedActiveProfile _ _ => bool
  | _ => unit
  end.

Context (cfg : config).

Definition defaultPostSwitchMinDelay : Z := 1000.
Definition maxCatBusyRetries : nat := 3.

(** A request that is made only when [b]. *)
Definition ask_if (b : bool) (c : request) : prog request unit := if b then let? _ := ask c in Ret tt else Ret tt.

(** [Left] is whether there is a lease to release. *)
Definition holdSwitchLease (o : SwitchOperation) (targetICCID : string) : prog request (bool + error) :=
  if negb (acquireSwitchLease cfg) then Ret (inl false)
  else
    let? r := ask (AcquireSwitchLease o targetICCID) in
    match r with
    | LeaseRefused e => Ret (inr (Errorf "eSIM 切卡设备归属已失效: " e ""))
    | LeaseWithoutRelease => Ret (inr (Plain "eSIM 切卡设备归属租约未返回释放函数"))
    | LeaseHeld => Ret (inl true)
    end.

Definition emitSwitchPhase (o : SwitchOperation) (token : Z) (phase : SwitchPhase) : prog request unit :=
  ask_if (onSwitchPhase cfg) (OnSwitchPhase o token phase).

(** [Left] is whether there is a barrier to release. *)
Definition beginSwitchAPDUBarrier : prog request (bool + error) :=
  if negb (apduArbiter cfg) then Ret (inl false)
  else
    let? r := ask (BeginBarrier
      (mkRequest "esim_switch" (ToUpper unicode_upper (transport cfg)) APDUClassSwitchBarrier 0 "")
      [APDUClassUSIMAKA; APDUClassSMSC]) in
    match r with Some e => Ret (inr e) | None => Ret (inl true) end.

(** [releaseSwitchBarrier], with [switchBarrier != nil && !barrierReleased];
    without a phase it emits none. *)
Definition releaseSwitchBarrier (o : SwitchOperation) (token : Z) (held : bool) (nextPhase : option SwitchPhase) : prog request unit :=
  let? _ := ask_if held BarrierRelease in
  match nextPhase with Some phase => emitSwitchPhase o token phase | None => Ret tt end.

(** The variables that the first deferred function reads when it runs. *)
Record ending := mkEnding { succeeded : bool; started : bool; switchToken : Z; switchFailureErr : option error }.
Definition early : ending := mkEnding false false 0 None.

Definition deferred_end (o : SwitchOperation) (e : ending) : prog request unit :=
  let? _ := (if succeeded e then Ret tt else emitSwitchPhase o (switchToken e) SwitchPhaseFailed) in
  let? _ := ask (StoreChannelCtx false) in
  let? _ := ask UnlockOperation in
  let? _ := ask WriteDone in
  ask_if (negb (succeeded e) && started e && onSwitchFailed cfg) (OnSwitchFailed o (switchToken e) (switchFailureErr e)).

(** The AID of the card that holds the profile. *)
Definition target_aid (err : string → string → option error → error) (targetICCID aidHex : string) : prog request (bytes + error) :=
  if bool_decide (aidHex ≠ "") then
    match DecodeString aidHex with
    | Some aid => Ret (inl aid)
    | None => Ret (inr (err "INVALID_AID_HEX" ("无效的 AID hex " +:+ Quote aidHex +:+ ": " +:+ Error (hex_error aidHex)) (Some (hex_error aidHex))))
    end
  else
    let? r := ask (FindAIDForICCID targetICCID) in
    match r with
    | inl aid => Ret (inl aid)
    | inr e => Ret (inr (err (if IsDeleteProfileNotFound (Some e) then "PROFILE_NOT_FOUND" else "INTERNAL") (Error e) (Some e)))
    end.

(** ** SwitchProfileWithResult *)

Fixpoint enable_attempts (i : ICCID) (retries : nat) : prog request (option error) :=
  let? enableErr := ask (EnableOnCard i (switchUseRefreshTrue cfg)) in
  match enableErr with
  | None => Ret None
  | Some e =>
      if negb (is_cat_busy e) then Ret (Some e)
      else match retries with
           | O => Ret (Some e)
           | S retries => let? _ := ask (Sleep 800) in enable_attempts i retries
           end
  end.

Definition switch_result_of (targetICCID : string) : SwitchProfileResult := mkResult 0 None false false false targetICCID false.

(** From the callback before the switch on, with the client open; the last
    component says that the client was closed. *)
Definition switch_client (i : ICCID) (targetICCID : string) (targetAID : bytes) :
    prog request (SwitchProfileResult * option error * ending * bool) :=
  let o := SwitchOperationEnableProfile in
  let? token := (if onBeforeSwitch cfg then ask (OnBeforeSwitch o targetICCID) else Ret (A := Z) 0) in
  let begun := onBeforeSwitch cfg in
  let result := mkResult token (Some SwitchPhaseAPDUSwitching) false false false targetICCID false in
  let? _ := emitSwitchPhase o token SwitchPhaseAPDUSwitching in
  let? barrier := beginSwitchAPDUBarrier in
  match barrier with
  | inr e => Ret (result, Some (Errorf "等待切卡 APDU barrier 失败: " e ""), mkEnding false begun token (Some e), false)
  | inl held =>
      let? _ := ask BeginSwitchOverviewSuppression in
      let? enableErr := enable_attempts i maxCatBusyRetries in
      let? closeErr := ask (CloseLPA "switch_profile_pre_refresh") in
      let closed := bool_decide (closeErr = None) in
      let? _ := ask (Sleep 200) in
      let? _ := releaseSwitchBarrier o token held (Some SwitchPhaseCardResetSettling) in
      let result := mkResult token (Some SwitchPhaseCardResetSettling) false false false targetICCID false in
      let failed := match enableErr with Some e => negb (isExpectedCardResetSignal e) | None => false end in
      match (if failed then finalizeEnableProfileResult targetICCID enableErr else None) with
      | Some e => Ret (result, Some e, mkEnding false begun token enableErr, closed)
      | None =>
          let? patched := ask (PatchCachedActiveProfile targetICCID (HexUpper targetAID)) in
          let? _ := ask (GoPostSwitch o token targetICCID) in
          Ret (mkResult token (Some SwitchPhaseCardResetSettling) true true true targetICCID patched, None, mkEnding true begun token None, closed)
      end
  end.

(** With the lease held: open the client, switch, and close it if that was not
    done. *)
Definition switch_leased (i : ICCID) (targetICCID aidHex : string) : prog request (SwitchProfileResult * option error * ending) :=
  let result := switch_result_of targetICCID in
  let? _ := ask DrainSwitchSignals in
  let? aid := target_aid NewSwitchProfileError targetICCID aidHex in
  match aid with
  | inr e => Ret (result, Some e, early)
  | inl targetAID =>
      let? opened := ask (CreateLPA targetAID) in
      match opened with
      | Some e => Ret (result, Some e, early)
      | None =>
          let? r := switch_client i targetICCID targetAID in
          let '(result, err, e, closed) := r in
          let? _ := ask_if (negb closed) (CloseLPA "switch_profile_deferred") in
          Ret (result, err, e)
      end
  end.

Definition switch_locked (targetICCID aidHex : string) : prog request (SwitchProfileResult * option error * ending) :=
  let result := switch_result_of targetICCID in
  match NewICCID targetICCID with
  | inr e => Ret (result, Some (NewSwitchProfileError "INVALID_ICCID" ("无效的 ICCID " +:+ Quote targetICCID +:+ ": " +:+ Error e) (Some e)), early)
  | inl i =>
      let? ownership := holdSwitchLease SwitchOperationEnableProfile targetICCID in
      match ownership with
      | inr e => Ret (result, Some e, mkEnding false false 0 (Some e))
      | inl held =>
          let? r := switch_leased i targetICCID aidHex in
          let? _ := ask_if held ReleaseOwnership in
          Ret r
      end
  end.

Definition SwitchProfileWithResult (targetICCID aidHex : string) : prog request (SwitchProfileResult * option error) :=
  let? _ := ask LockOperation in
  let? _ := ask (StoreChannelCtx true) in
  let? r := switch_locked targetICCID aidHex in
  let '(result, err, e) := r in
  let? _ := deferred_end SwitchOperationEnableProfile e in
  Ret (result, err).

Definition SwitchProfile (targetICCID aidHex : string) : prog request (option error) :=
  let? r := SwitchProfileWithResult targetICCID aidHex in Ret r.2.

(** ** DisableProfile *)

(** The end of a disabling that the card accepted. *)
Definition disable_accepted (token : Z) (begun closed : bool) : prog request (option error * ending * bool) :=
  let? _ := ask BeginSwitchOverviewSuppression in
  let? _ := ask (InvalidateOverviewCache "disable_profile") in
  let? _ := ask (TriggerOverviewReload "disable_profile") in
  let? _ := ask (GoPostSwitch SwitchOperationDisableProfile token "") in
  Ret (None, mkEnding true begun token None, closed).

Definition disable_client (i : ICCID) (targetICCID : string) : prog request (option error * ending * bool) :=
  let o := SwitchOperationDisableProfile in
  let? token := (if onBeforeSwitch cfg then ask (OnBeforeSwitch o "") else Ret (A := Z) 0) in
  let begun := onBeforeSwitch cfg in
  let? _ := emitSwitchPhase o token SwitchPhaseAPDUSwitching in
  let? barrier := beginSwitchAPDUBarrier in
  match barrier with
  | inr e => Ret (Some (Errorf "等待禁用 profile APDU barrier 失败: " e ""), mkEnding false begun token (Some e), false)
  | inl held =>
      let? disableErr := ask (DisableOnCard i true) in
      let? closeErr := ask (CloseLPA "disable_profile_pre_refresh") in
      let closed := bool_decide (closeErr = None) in
      let? _ := ask (Sleep 200) in
      let? _ := releaseSwitchBarrier o token held (Some SwitchPhaseCardResetSettling) in
      match disableErr with
      | Some e =>
          if isExpectedCardResetSignal e then disable_accepted token begun closed
          else Ret (Some (Errorf ("禁用 profile " +:+ targetICCID +:+ " 失败: ") e ""), mkEnding false begun token (Some e), closed)
      | None => disable_accepted token begun closed
      end
  end.

Definition disable_leased (i : ICCID) (targetICCID aidHex : string) : prog request (option error * ending) :=
  let? aid := target_aid NewDisableProfileError targetICCID aidHex in
  match aid with
  | inr e => Ret (Some e, early)
  | inl targetAID =>
      let? opened := ask (CreateLPA targetAID) in
      match opened with
      | Some e => Ret (Some e, early)
      | None =>
          let? r := disable_client i targetICCID in
          let '(err, e, closed) := r in
          let? _ := ask_if (negb closed) (CloseLPA "disable_profile_deferred") in
          Ret (err, e)
      end
  end.

Definition disable_locked (targetICCID aidHex : string) : prog request (option error * ending) :=
  match NewICCID targetICCID with
  | inr e => Ret (Some (NewDisableProfileError "INVALID_ICCID" ("无效的 ICCID " +:+ Quote targetICCID +:+ ": " +:+ Error e) (Some e)), early)
  | inl i =>
      let? ownership := holdSwitchLease SwitchOperationDisableProfile targetICCID in
      match ownership with
      | inr e => Ret (Some e, mkEnding false false 0 (Some e))
      | inl held =>
          let? r := disable_leased i targetICCID aidHex in
          let? _ := ask_if held ReleaseOwnership in
          Ret r
      end
  end.

Definition DisableProfile (targetICCID aidHex : string) : prog request (option error) :=
  let? _ := ask LockOperation in
  let? _ := ask (StoreChannelCtx true) in
  let? r := disable_locked targetICCID aidHex in
  let '(err, e) := r in
  let? _ := deferred_end SwitchOperationDisableProfile e in
  Ret err.

(** ** What runs afterwards *)

Definition waitPostSwitchHookDelay : prog request unit :=
  ask (Sleep (if bool_decide (postSwitchMinDelay cfg <= 0) then defaultPostSwitchMinDelay else postSwitchMinDelay cfg)).

Definition runPostSwitchHook (o : SwitchOperation) (token : Z) : prog request unit :=
  if negb (onAfterSwitch cfg) then Ret tt
  else let? _ := waitPostSwitchHookDelay in ask (OnAfterSwitch o token).

Definition runPostSwitchRecovery (o : SwitchOperation) (token : Z) : prog request unit :=
  let? _ := waitPostSwitchHookDelay in ask_if (onAfterSwitch cfg) (OnAfterSwitch o token).
End Switch.
