(* ===== verification/EsimSwitchProofs.v ===== *)
(** * Properties of switching a profile

    The monitor below follows the lock, the lease, the client, the barrier and
    what was told to the callbacks; the two operations of EsimSwitch.v keep it
    content whatever the card, the arbiter and the callbacks answer. *)

From Stdlib Require Import Ascii String.
From S2P Require Import Prelude GoText SmsCodec Arbiter Interaction EsimErrors EsimSwitch.
From stdpp Require Import strings.

#[local] Open Scope Z_scope.
#[local] Open Scope string_scope.

Inductive client_state := NoClient | Opened | CloseFailed.
#[global] Instance client_state_eq_dec : EqDecision client_state.
Proof. solve_decision. Defined.

Definition phase_rank (p : option SwitchPhase) : nat :=
  match p with
  | None => 0 | Some SwitchPhaseAPDUSwitching => 1 | Some SwitchPhaseCardResetSettling => 2 | Some SwitchPhaseFailed => 3
  end.

(** What has been done so far: the resources that are held, the token of the
    callback, the commands to the card and the answer of the last, whether a
    pause allows another, the phase, whether the work after the switch began,
    and what was told of a failure. *)
Record view := mkView {
  v_locked : bool; v_ctx : bool; v_lease : bool; v_client : client_state; v_token : option Z; v_barrier : bool;
  v_tries : nat; v_last : option (option error); v_again : bool; v_phase : option SwitchPhase; v_after : bool;
  v_told : option (option error) }.

Definition idle : view := mkView false false false NoClient None false 0 None false None false None.

(** The answers of the card that count as done. *)
Definition accepted (r : option error) : bool := match r with None => true | Some e => isExpectedCardResetSignal e end.

Section Proofs.
Context {ICCID : Type} `{EqDecision ICCID} (NewICCID : string → ICCID + error).
Context (is_cat_busy : error → bool) `{Sgp22}.
Context (Quote : string → string) (hex_error : string → error) (unicode_upper : string → string).
Context (cfg : config).

Definition allow (b : bool) (s : view) : option view := if b then Some s else None.

(** One request of the operation [o] on the profile [i].  A command reaches the
    card only with the lock and the lease held, the client open, the callback
    told and the barrier up. *)
Definition watch_step (o : SwitchOperation) (i : ICCID) (s : view) (x : exchange (request (ICCID := ICCID))) : option view :=
  let '(mkView locked ctx lease client token barrier tries last again phase after told) := s in
  let may := locked && ctx && (lease || negb (acquireSwitchLease cfg)) in
  let on_card := may && bool_decide (client = Opened) && (barrier || negb (apduArbiter cfg)) &&
                 (bool_decide (token ≠ None) || negb (onBeforeSwitch cfg)) in
  let free := negb lease && bool_decide (client = NoClient) && negb barrier in
  let done := match last with Some r => accepted r | None => false end in
  let same o' token' := bool_decide (o' = o) && bool_decide (token' = default 0 token) in
  match x_request x as c return answer c → option view with
  | LockOperation => λ _, allow (negb locked) (mkView true ctx lease client token barrier tries last again phase after told)
  | StoreChannelCtx b => λ _, allow (locked && free) (mkView locked b lease client token barrier tries last again phase after told)
  | UnlockOperation => λ _, allow (locked && negb ctx && free) (mkView false ctx lease client token barrier tries last again phase after told)
  | WriteDone => λ _, allow (negb locked) s
  | AcquireSwitchLease o' _ => λ r,
      allow (locked && ctx && free && bool_decide (o' = o))
        (mkView locked ctx (match r with LeaseHeld => true | _ => false end) client token barrier tries last again phase after told)
  | ReleaseOwnership => λ _,
      allow (lease && bool_decide (client = NoClient) && negb barrier)
        (mkView locked ctx false client token barrier tries last again phase after told)
  | DrainSwitchSignals | FindAIDForICCID _ => λ _, allow (may && bool_decide (client = NoClient)) s
  | CreateLPA _ => λ r,
      allow (may && bool_decide (client = NoClient))
        (mkView locked ctx lease (if bool_decide (r = None) then Opened else NoClient) token barrier tries last again phase after told)
  | CloseLPA _ => λ r,
      if bool_decide (client = Opened) && bool_decide (tries ≠ O) then
        allow (barrier || negb (apduArbiter cfg))
          (mkView locked ctx lease (if bool_decide (r = None) then NoClient else CloseFailed) token barrier tries last again phase after told)
      else allow (bool_decide (client ≠ NoClient) && negb barrier)
             (mkView locked ctx lease NoClient token barrier tries last again phase after told)
  | OnBeforeSwitch o' _ => λ r,
      allow (may && bool_decide (client = Opened) && bool_decide (o' = o) && bool_decide (token = None))
        (mkView locked ctx lease client (Some r) barrier tries last again phase after told)
  | OnSwitchPhase o' token' p => λ _,
      allow (same o' token' && locked && bool_decide (phase_rank phase < phase_rank (Some p))%nat &&
             match p with
             | SwitchPhaseAPDUSwitching => bool_decide (client = Opened) && bool_decide (tries = O)
             | SwitchPhaseCardResetSettling => bool_decide (client ≠ Opened) && negb barrier
             | SwitchPhaseFailed => free && negb after
             end)
        (mkView locked ctx lease client token barrier tries last again (Some p) after told)
  | OnSwitchFailed o' token' e => λ _,
      allow (same o' token' && negb locked && negb after && bool_decide (token ≠ None) && bool_decide (told = None))
        (mkView locked ctx lease client token barrier tries last again phase after (Some e))
  | OnAfterSwitch _ _ => λ _, None
  | BeginBarrier _ _ => λ r,
      allow (may && bool_decide (client = Opened) && bool_decide (tries = O) && negb barrier)
        (mkView locked ctx lease client token (bool_decide (r = None)) tries last again phase after told)
  | BarrierRelease => λ _,
      allow (barrier && bool_decide (client ≠ Opened))
        (mkView locked ctx lease client token false tries last again phase after told)
  | BeginSwitchOverviewSuppression => λ _, allow (bool_decide (tries = O) || done) s
  | EnableOnCard i' refresh => λ r,
      allow (on_card && bool_decide (o = SwitchOperationEnableProfile) && bool_decide (i' = i) &&
             bool_decide (refresh = switchUseRefreshTrue cfg) &&
             (bool_decide (tries = O) || again && match last with Some (Some e) => is_cat_busy e | _ => false end) &&
             bool_decide (tries < 4)%nat)
        (mkView locked ctx lease client token barrier (S tries) (Some r) false phase after told)
  | DisableOnCard i' refresh => λ r,
      allow (on_card && bool_decide (o = SwitchOperationDisableProfile) && bool_decide (i' = i) && refresh && bool_decide (tries = O))
        (mkView locked ctx lease client token barrier (S tries) (Some r) false phase after told)
  | Sleep ms => λ _, Some (mkView locked ctx lease client token barrier tries last (bool_decide (ms = 800)) phase after told)
  | PatchCachedActiveProfile _ _ | InvalidateOverviewCache _ | TriggerOverviewReload _ => λ _, allow (done && negb barrier) s
  | GoPostSwitch o' token' _ => λ _,
      allow (same o' token' && done && negb barrier && negb after)
        (mkView locked ctx lease client token barrier tries last again phase true told)
  end (x_answer x).

(** What the programs leave behind: nothing held, and the view of what was
    told. *)
Definition free_view (token : option Z) tries last again phase after : view :=
  mkView true true false NoClient token false tries last again phase after None.

Definition told_of (e : ending) : option Z := if started e then Some (switchToken e) else None.

(** Which ending belongs to which result: success without an error, and an
    error of which the callback learns after it was told of the start. *)
Definition ending_of (err : option error) (e : ending) : Prop :=
  succeeded e = bool_decide (err = None) ∧
  (started e = false → switchToken e = 0) ∧
  (succeeded e = false → started e = true → ∃ f g, switchFailureErr e = Some f ∧ err = Some g ∧ Unwrap g = Some f).

Notation T o i s p Q := (triple (watch_step o (i : ICCID)) (eq s) p Q).


Ltac guards :=
  cbn [accepted];
  repeat match goal with H : _ = true |- _ => progress rewrite H | H : _ = false |- _ => progress rewrite H end;
  cbn [allow negb andb orb];
  repeat match goal with
  | |- context [bool_decide ?P] =>
      first [rewrite (bool_decide_eq_true_2 P) by (done || lia) | rewrite (bool_decide_eq_false_2 P) by (done || lia)]
  end;
  cbn [allow negb andb orb]; reflexivity.

Ltac settle :=
  repeat match goal with
  | |- context [bool_decide (?x = @None ?A)] =>
      first [is_var x; destruct x
            |change (bool_decide (x = @None A)) with true
            |change (bool_decide (x = @None A)) with false]
  end.

Ltac next := cbn [bind ask negb andb]; lazymatch goal with |- triple _ _ (Do _ _) _ => idtac end; apply triple_next; intros ?; eexists; split; [unfold watch_step; cbn beta iota delta [x_request x_answer]; guards|settle].

Lemma enable_allowed i token lease phase barrier tries last again r :
  lease || negb (acquireSwitchLease cfg) = true → barrier || negb (apduArbiter cfg) = true →
  bool_decide (token ≠ None) || negb (onBeforeSwitch cfg) = true → (tries < 4)%nat →
  tries = O ∨ again = true ∧ match last with Some (Some e) => is_cat_busy e | _ => false end = true →
  watch_step SwitchOperationEnableProfile i (mkView true true lease Opened token barrier tries last again phase false None)
    (mkExchange (EnableOnCard i (switchUseRefreshTrue cfg)) r) =
    Some (mkView true true lease Opened token barrier (S tries) (Some r) false phase false None).
Proof.
  intros Hl Hb Ht Hn Ha. unfold watch_step. cbn beta iota delta [x_request x_answer]. rewrite Hl, Hb, Ht.
  rewrite (bool_decide_eq_true_2 (tries < 4)%nat) by done.
  assert (Hg : bool_decide (tries = O) || again && match last with Some (Some e) => is_cat_busy e | _ => false end = true)
    by (destruct Ha as [->|[-> ->]]; [done|by rewrite orb_true_r]).
  rewrite Hg. guards.
Qed.

Lemma enable_attempts_ok i retries token lease phase barrier tries last again :
  lease || negb (acquireSwitchLease cfg) = true → barrier || negb (apduArbiter cfg) = true →
  bool_decide (token ≠ None) || negb (onBeforeSwitch cfg) = true →
  (tries + retries = 3)%nat → tries = O ∨ again = true ∧ match last with Some (Some e) => is_cat_busy e | _ => false end = true →
  T SwitchOperationEnableProfile i (mkView true true lease Opened token barrier tries last again phase false None)
    (enable_attempts is_cat_busy cfg i retries)
    (λ r s, ∃ tries', s = mkView true true lease Opened token barrier (S tries') (Some r) false phase false None).
Proof.
  intros Hl Hb Ht. revert tries last again. induction retries as [|retries IH]; intros tries last again Hn Ha;
    cbn [enable_attempts bind ask]; apply triple_next; intros r; eexists; (split; [apply enable_allowed; [done..|lia|done]|]);
    (destruct r as [e|]; [destruct (is_cat_busy e) eqn:He; cbn [negb]|]); try (apply triple_done; by eauto).
  next. apply IH; [lia|]. right. by rewrite He.
Qed.

(** The state that [switch_client] and [disable_client] leave. *)
Definition left_by (lease : bool) (err : option error) (e : ending) (closed : bool) (s : view) : Prop :=
  ending_of err e ∧ ∃ client tries last phase,
    s = mkView true true lease client (told_of e) false tries last false phase (succeeded e) None ∧
    bool_decide (client = NoClient) = closed ∧ (client = Opened → tries = O) ∧ (phase_rank phase < 3)%nat ∧
    (onSwitchPhase cfg = false → phase = None).


Ltac finish := apply triple_done; repeat split; eauto; try (intros; discriminate);
  eexists _, _, _, _; (split; [reflexivity|split_and!; (reflexivity || (cbn; lia) || congruence || done)]).

Lemma switch_client_ok i target aid lease :
  lease || negb (acquireSwitchLease cfg) = true →
  T SwitchOperationEnableProfile i (mkView true true lease Opened None false 0 None false None false None)
    (switch_client is_cat_busy unicode_upper cfg i target aid)
    (λ '(result, err, e, closed) s, SwitchAccepted result = succeeded e ∧ left_by lease err e closed s).
Proof.
  intros Hl. unfold switch_client, beginSwitchAPDUBarrier, releaseSwitchBarrier, emitSwitchPhase, ask_if.
  destruct (onBeforeSwitch cfg) eqn:Hb, (onSwitchPhase cfg) eqn:Hp, (apduArbiter cfg) eqn:Ha; cbn [negb bind];
    repeat next; try finish;
    (eapply triple_call; [apply enable_attempts_ok; rewrite ?Hb, ?Ha; auto|]; cbn beta; intros r3 ? (tries & ->);
     unfold finalizeEnableProfileResult; destruct r3 as [f|]; [destruct (isExpectedCardResetSignal f) eqn:Hs; cbn [negb]|];
     repeat next; try finish).
Qed.

Lemma disable_client_ok i target lease :
  lease || negb (acquireSwitchLease cfg) = true →
  T SwitchOperationDisableProfile i (mkView true true lease Opened None false 0 None false None false None)
    (disable_client unicode_upper cfg i target) (λ '(err, e, closed) s, left_by lease err e closed s).
Proof.
  intros Hl. unfold disable_client, disable_accepted, beginSwitchAPDUBarrier, releaseSwitchBarrier, emitSwitchPhase, ask_if.
  destruct (onBeforeSwitch cfg) eqn:Hb, (onSwitchPhase cfg) eqn:Hp, (apduArbiter cfg) eqn:Ha; cbn [negb bind];
    repeat next; try finish;
    (match goal with |- triple _ _ (match ?r with _ => _ end) _ => destruct r as [f|]; [destruct (isExpectedCardResetSignal f) eqn:Hs|] end;
     repeat next; finish).
Qed.

(** With the client closed. *)
Definition left_closed (lease : bool) (err : option error) (e : ending) (s : view) : Prop :=
  ending_of err e ∧ ∃ tries last phase again,
    s = mkView true true lease NoClient (told_of e) false tries last again phase (succeeded e) None ∧
    (phase_rank phase < 3)%nat ∧ (onSwitchPhase cfg = false → phase = None).

Lemma deferred_close_ok o i lease err e closed label s :
  left_by lease err e closed s → T o i s (ask_if (negb closed) (CloseLPA label)) (λ _, left_closed lease err e).
Proof.
  intros (He & client & tries & last & phase & -> & Hc & Hf & Hr & Hp). unfold ask_if. destruct closed; cbn [negb].
  - apply bool_decide_eq_true in Hc as ->. apply triple_done. split; [done|]. by eexists _, _, _, _.
  - apply bool_decide_eq_false in Hc. destruct client; [done|specialize (Hf eq_refl) as ->|];
      next; apply triple_done; (split; [done|by eexists _, _, _, _]).
Qed.

(** After the lease is released. *)
Definition left_free (err : option error) (e : ending) (s : view) : Prop := left_closed false err e s.

Lemma release_ok o i (held : bool) err e s :
  left_closed held err e s → T o i s (ask_if held ReleaseOwnership) (λ _, left_closed false err e).
Proof.
  intros (He & tries & last & phase & again & -> & Hr & Hp). unfold ask_if. destruct held.
  - next. apply triple_done. split; [done|]. by eexists _, _, _, _.
  - apply triple_done. split; [done|]. by eexists _, _, _, _.
Qed.

(** The final view: everything released, the work after the switch begun
    exactly on success, and a failure told exactly when the start was. *)
Definition finished (err : option error) (s : view) : Prop :=
  v_locked s = false ∧ v_ctx s = false ∧ v_lease s = false ∧ v_client s = NoClient ∧ v_barrier s = false ∧
  v_after s = bool_decide (err = None) ∧
  (v_phase s = Some SwitchPhaseFailed ↔ err ≠ None ∧ onSwitchPhase cfg = true) ∧
  match v_told s with
  | None => err = None ∨ v_token s = None ∨ onSwitchFailed cfg = false
  | Some failure => v_token s ≠ None ∧ ∃ f g, failure = Some f ∧ err = Some g ∧ Unwrap g = Some f
  end.

Lemma deferred_end_ok o i err e s :
  left_closed false err e s → T o i s (deferred_end cfg o e) (λ _, finished err).
Proof.
  intros ([Hs [Hb Hf]] & tries & last & phase & again & -> & Hr & Hp). unfold deferred_end, emitSwitchPhase, ask_if, told_of, finished.
  destruct e as [ok st tok failure]. cbn [succeeded started switchToken switchFailureErr] in *. subst ok.
  destruct err as [g|]; settle; cbn [negb andb].
  - destruct st; [|rewrite Hb by done]; destruct (onSwitchPhase cfg) eqn:Hph, (onSwitchFailed cfg) eqn:Hfl; repeat next; cbn [bind negb andb];
      apply triple_done; cbn; split_and!; try done; try (split; [congruence|by intros []]); auto;
      try (rewrite Hp by done; split; [done|by intros []]).
  - repeat next. apply triple_done. cbn. split_and!; auto. split; [intros ->; cbn in Hr; lia|by intros []].
Qed.

(** ** The two operations *)

Lemma hold_lease_ok o i target :
  T o i (mkView true true false NoClient None false 0 None false None false None) (holdSwitchLease cfg o target)
    (λ r s, ∃ held, s = mkView true true held NoClient None false 0 None false None false None ∧
       match r with inl h => held = h ∧ held || negb (acquireSwitchLease cfg) = true | inr e => held = false end).
Proof.
  unfold holdSwitchLease. destruct (acquireSwitchLease cfg) eqn:Ha; cbn [negb].
  - next. match goal with r : answer _ |- _ => destruct r end; apply triple_done; eexists; split; (reflexivity || eauto).
  - apply triple_done. by exists false.
Qed.

Lemma early_ending e : ending_of (Some e) early.
Proof. split_and!; done. Qed.

Lemma target_aid_ok o i (err : string → string → option error → error) target aidHex lease :
  lease || negb (acquireSwitchLease cfg) = true →
  T o i (mkView true true lease NoClient None false 0 None false None false None) (target_aid Quote hex_error err target aidHex)
    (λ _ s, s = mkView true true lease NoClient None false 0 None false None false None).
Proof.
  intros Hl. unfold target_aid. case_bool_decide.
  - destruct (DecodeString aidHex); by apply triple_done.
  - next. match goal with r : answer _ |- _ => destruct r end; by apply triple_done.
Qed.

Lemma early_closed lease e failure : 
  left_closed lease (Some e) (mkEnding false false 0 failure) (mkView true true lease NoClient None false 0 None false None false None).
Proof. split; [by split_and!|]. eexists _, _, _, _. split; [reflexivity|]. split; [cbn; lia|done]. Qed.

Lemma switch_leased_ok i target aidHex lease :
  lease || negb (acquireSwitchLease cfg) = true →
  T SwitchOperationEnableProfile i (mkView true true lease NoClient None false 0 None false None false None)
    (switch_leased is_cat_busy Quote hex_error unicode_upper cfg i target aidHex)
    (λ '(result, err, e) s, SwitchAccepted result = succeeded e ∧ left_closed lease err e s).
Proof.
  intros Hl. unfold switch_leased. next.
  eapply triple_call; [by apply target_aid_ok|]. cbn beta. intros [aid|e] ? ->.
  2:{ apply triple_done. split; [done|]. apply early_closed. }
  next; [apply triple_done; split; [done|]; apply early_closed|].
  eapply triple_call; [by apply switch_client_ok|]. intros [[[result err] e] closed] s [Hr Hs].
  eapply triple_call; [by eapply deferred_close_ok|]. intros ? s' Hs'. by apply triple_done.
Qed.

Lemma disable_leased_ok i target aidHex lease :
  lease || negb (acquireSwitchLease cfg) = true →
  T SwitchOperationDisableProfile i (mkView true true lease NoClient None false 0 None false None false None)
    (disable_leased Quote hex_error unicode_upper cfg i target aidHex)
    (λ '(err, e) s, left_closed lease err e s).
Proof.
  intros Hl. unfold disable_leased.
  eapply triple_call; [by apply target_aid_ok|]. cbn beta. intros [aid|e] ? ->.
  2:{ apply triple_done. apply early_closed. }
  next; [apply triple_done; apply early_closed|].
  eapply triple_call; [by apply disable_client_ok|]. intros [[err e] closed] s Hs.
  eapply triple_call; [by eapply deferred_close_ok|]. intros ? s' Hs'. by apply triple_done.
Qed.

(** The profile that a target names. *)
Definition names (target : string) (i : ICCID) : Prop := ∀ j, NewICCID target = inl j → j = i.

Lemma switch_ok i target aidHex :
  names target i →
  T SwitchOperationEnableProfile i idle
    (SwitchProfileWithResult NewICCID is_cat_busy Quote hex_error unicode_upper cfg target aidHex)
    (λ '(result, err) s, SwitchAccepted result = bool_decide (err = None) ∧ finished err s).
Proof.
  intros Hn. unfold SwitchProfileWithResult, idle. next. next.
  eapply triple_call with (R := λ '(result, err, e) s, SwitchAccepted result = succeeded e ∧ left_closed false err e s).
  - unfold switch_locked. destruct (NewICCID target) as [j|e] eqn:Hj; [rewrite (Hn j Hj)|].
    2:{ apply triple_done. split; [done|]. apply early_closed. }
    eapply triple_call; [apply hold_lease_ok|]. intros [h|e] ? (held & -> & Hh).
    2:{ subst held. apply triple_done. split; [done|]. apply early_closed. }
    destruct Hh as [-> Hl].
    eapply triple_call; [by apply switch_leased_ok|]. intros [[result err] e] s [Hr Hs].
    eapply triple_call; [by apply release_ok|]. intros ? s' Hs'. by apply triple_done.
  - intros [[result err] e] s [Hr Hs]. 
    eapply triple_call; [by apply deferred_end_ok|]. intros ? s' Hs'. apply triple_done. split; [|done].
    rewrite Hr. apply Hs.
Qed.

Lemma disable_ok i target aidHex :
  names target i →
  T SwitchOperationDisableProfile i idle (DisableProfile NewICCID Quote hex_error unicode_upper cfg target aidHex) (λ err s, finished err s).
Proof.
  intros Hn. unfold DisableProfile, idle. next. next.
  eapply triple_call with (R := λ '(err, e) s, left_closed false err e s).
  - unfold disable_locked. destruct (NewICCID target) as [j|e] eqn:Hj; [rewrite (Hn j Hj)|].
    2:{ apply triple_done. apply early_closed. }
    eapply triple_call; [apply hold_lease_ok|]. intros [h|e] ? (held & -> & Hh).
    2:{ subst held. apply triple_done. apply early_closed. }
    destruct Hh as [-> Hl].
    eapply triple_call; [by apply disable_leased_ok|]. intros [err e] s Hs.
    eapply triple_call; [by apply release_ok|]. intros ? s' Hs'. by apply triple_done.
  - intros [err e] s Hs.
    eapply triple_call; [by apply deferred_end_ok|]. intros ? s' Hs'. by apply triple_done.
Qed.

(** C11: an operation on a profile, for every answer of the card, the arbiter,
    the lease and the callbacks.  Commands go to the card only with the lock and
    the lease held, the client open, the start told and the barrier up; the
    profile is enabled at most four times, again only after a CAT busy answer and
    a pause of 800 ms, and disabled once.  Whatever happens, the client and the
    barrier are released before the lease and the lock last, the phases that are
    reported go forward and end in the failed one exactly on an error,
    the work after the switch starts exactly without one, and once the start was
    told, a failure is told with its cause after the lock was released. *)
Theorem operation_life i target aidHex :
  names target i →
  (∀ t result err,
    exec (SwitchProfileWithResult NewICCID is_cat_busy Quote hex_error unicode_upper cfg target aidHex) t (result, err) →
    ∃ s, watch (watch_step SwitchOperationEnableProfile i) idle t = Some s ∧ finished err s ∧ SwitchAccepted result = bool_decide (err = None)) ∧
  (∀ t err,
    exec (DisableProfile NewICCID Quote hex_error unicode_upper cfg target aidHex) t err →
    ∃ s, watch (watch_step SwitchOperationDisableProfile i) idle t = Some s ∧ finished err s).
Proof.
  intros Hn. split.
  - intros t result err Hx. destruct (switch_ok i target aidHex Hn idle t (result, err) eq_refl Hx) as (s & ? & ? & ?). eauto.
  - intros t err Hx. exact (disable_ok i target aidHex Hn idle t err eq_refl Hx).
Qed.
End Proofs.

(** A card that is busy once, an arbiter and callbacks that answer 7. *)
#[local] Instance demo_library : Sgp22 := demo_sgp22.
Definition demo_cfg : config := mkConfig true true true true true true "qmi" true 0.
Definition demo_busy (e : error) : bool := match e with Plain "CatBusy" => true | _ => false end.
Definition demo_device (n : nat) (c : request (ICCID := string)) : answer c * nat :=
  match c return answer c * nat with
  | AcquireSwitchLease _ _ => (LeaseHeld, n)
  | FindAIDForICCID _ => (inl [0xA0], n)
  | CreateLPA _ | CloseLPA _ | BeginBarrier _ _ | DisableOnCard _ _ => (None, n)
  | EnableOnCard _ _ => (match n with O => Some (Plain "CatBusy") | _ => None end, S n)
  | OnBeforeSwitch _ _ => (7, n)
  | PatchCachedActiveProfile _ _ => (true, n)
  | _ => (tt, n)
  end.
Definition demo_run :=
  run_on demo_device (SwitchProfileWithResult (ICCID := string) inl demo_busy id Plain id demo_cfg "8901" "A0") O.

Lemma operation_life_witness :
  ∃ s, watch (watch_step demo_busy demo_cfg SwitchOperationEnableProfile "8901") idle demo_run.1.1 = Some s ∧
    finished demo_cfg demo_run.1.2.2 s ∧ SwitchAccepted demo_run.1.2.1 = bool_decide (demo_run.1.2.2 = None).
Proof.
  exact (proj1 (operation_life inl demo_busy id Plain id demo_cfg "8901" "8901" "A0" (λ j Hj, eq_sym (f_equal (λ x, match x with inl i => i | inr _ => "" end) Hj)))
    demo_run.1.1 demo_run.1.2.1 demo_run.1.2.2
    (run_on_exec demo_device (SwitchProfileWithResult (ICCID := string) inl demo_busy id Plain id demo_cfg "8901" "A0") O)).
Defined.

Example demo_tries :
  option_map (λ s, (v_tries s, v_told s, v_phase s)) (watch (watch_step demo_busy demo_cfg SwitchOperationEnableProfile "8901") idle demo_run.1.1) =
    Some (2%nat, None, Some SwitchPhaseCardResetSettling).
Proof. vm_compute. reflexivity. Qed.
