(* ===== verification/EsimLock.v ===== *)
(** * The lock of write operations (internal/esim/manager.go)

    Switching, downloading, renaming and deleting hold [opMu]; whoever ends
    replaces the channel [opDone] and closes the old one, which wakes those who
    wait with a limit.  The lock is a mutex, but the channel is a field that
    nothing protects: the steps below are the single reads and writes of the
    threads, in any order. *)

From S2P Require Import Prelude.
From stdpp Require Import gmap.

(** Where a thread stands.  [Trying again]: about to call [TryLock], for the
    first time or after it was woken. *)
Inductive pc :=
  | Outside
  | Trying
  | Sampling
  | Waiting (done : nat)
  | Holding
  | Notifying
  | Replacing (old : nat)
  | Closing (old : nat)
  | TimedOut
  | Panicked.
#[global] Instance pc_eq_dec : EqDecision pc.
Proof. solve_decision. Defined.

(** What a thread does next: [keep] is whether it keeps the lock that it took,
    as a writer does; a reader gives it back at once. *)
Inductive event := Enter | Run (keep : bool) | Expire.

Record state := mkState { opMu : bool; opDone : nat; fresh : nat; closed : gset nat; threads : gmap nat pc }.

Definition initial : state := mkState false 0 1 ∅ ∅.

Definition at_pc (i : nat) (p : pc) (s : state) : state :=
  mkState (opMu s) (opDone s) (fresh s) (closed s) (<[i := p]> (threads s)).

Definition thread (s : state) (i : nat) : pc := default Outside (threads s !! i).

(** [opMu.TryLock]: a writer holds the lock from here on, a reader unlocks and
    returns. *)
Definition try_lock (keep : bool) (i : nat) (failed : pc) (s : state) : state :=
  if opMu s then at_pc i failed s
  else if keep then at_pc i Holding (mkState true (opDone s) (fresh s) (closed s) (threads s))
  else at_pc i Outside s.

(** One step of a thread, unless it must wait.  [acquireOperationLock] and
    [waitForNoWriteOperation]: try, then read the channel, wait for it, and try
    again; [lockOperation] returns a function that unlocks and then notifies:
    [notifyWriteDone] reads the channel, stores a new one, and closes the old. *)
Definition step (i : nat) (e : event) (s : state) : option state :=
  match thread s i, e with
  | Outside, Enter | TimedOut, Enter => Some (at_pc i Trying s)
  | Trying, Run keep => Some (try_lock keep i Sampling s)
  | Sampling, Run _ => Some (at_pc i (Waiting (opDone s)) s)
  | Waiting done, Run _ => if bool_decide (done ∈ closed s) then Some (at_pc i Trying s) else None
  | Waiting _, Expire => Some (at_pc i TimedOut s)
  | Holding, Run _ => Some (at_pc i Notifying (mkState false (opDone s) (fresh s) (closed s) (threads s)))
  | Notifying, Run _ => Some (at_pc i (Replacing (opDone s)) s)
  | Replacing old, Run _ => Some (at_pc i (Closing old) (mkState (opMu s) (fresh s) (S (fresh s)) (closed s) (threads s)))
  | Closing old, Run _ =>
      if bool_decide (old ∈ closed s) then Some (at_pc i Panicked s)
      else Some (at_pc i Outside (mkState (opMu s) (opDone s) (fresh s) ({[old]} ∪ closed s) (threads s)))
  | _, _ => None
  end.

Fixpoint run (l : list (nat * event)) (s : state) : option state :=
  match l with
  | [] => Some s
  | (i, e) :: l => match step i e s with Some s => run l s | None => None end
  end.

(** ** The mutex *)

Definition holders (s : state) : Prop := ∀ i, thread s i = Holding → opMu s = true ∧ ∀ j, thread s j = Holding → i = j.

Lemma thread_at_pc i p s j : thread (at_pc i p s) j = if decide (i = j) then p else thread s j.
Proof.
  unfold thread, at_pc. cbn. destruct (decide (i = j)) as [<-|Hne]; [by rewrite lookup_insert_eq|by rewrite lookup_insert_ne].
Qed.

Lemma try_lock_thread keep i failed s j :
  thread (try_lock keep i failed s) j =
    if decide (i = j) then (if opMu s then failed else if keep then Holding else Outside) else thread s j.
Proof. unfold try_lock. destruct (opMu s), keep; by rewrite thread_at_pc. Qed.

Lemma try_lock_opMu keep i failed s : opMu (try_lock keep i failed s) = opMu s || keep.
Proof. unfold try_lock. by destruct (opMu s) eqn:E, keep. Qed.

(** Only one thread holds the lock, whatever the others do. *)
Lemma lock_exclusive i e s s' : holders s → step i e s = Some s' → holders s'.
Proof.
  intros Hs Hstep. unfold step in Hstep.
  assert (Hout : ∀ p s0, thread s0 = thread s → opMu s0 = opMu s → p ≠ Holding → holders (at_pc i p s0)).
  { intros p s0 Ht Hm Hp j Hj. rewrite thread_at_pc in Hj. destruct (decide (i = j)); [done|]. rewrite Ht in Hj.
    destruct (Hs j Hj) as [Hlock Huniq]. split; [by cbn; rewrite Hm|]. intros k Hk. rewrite thread_at_pc, Ht in Hk.
    destruct (decide (i = k)); [done|]. by apply Huniq. }
  destruct (thread s i) eqn:Hi, e; try discriminate; try case_bool_decide; simplify_eq; try (by apply Hout).
  - intros j Hj. rewrite try_lock_thread in Hj. rewrite try_lock_opMu.
    destruct (decide (i = j)) as [<-|Hne].
    + destruct (opMu s) eqn:Hm; [done|]. destruct keep; [|done]. split; [done|]. intros k Hk. rewrite try_lock_thread, Hm in Hk.
      destruct (decide (i = k)); [done|]. destruct (Hs k Hk). congruence.
    + destruct (Hs j Hj) as [Hlock Huniq]. rewrite Hlock. split; [done|]. intros k Hk.
      rewrite try_lock_thread, Hlock in Hk. destruct (decide (i = k)); [done|]. by apply Huniq.
  - intros j Hj. rewrite thread_at_pc in Hj. destruct (decide (i = j)) as [|Hne]; [done|]. destruct (Hs i Hi) as [_ Huniq].
    by rewrite (Huniq j Hj) in Hne.
Qed.

(** ** The channel *)

Definition ending (p : pc) : bool := match p with Notifying | Replacing _ | Closing _ => true | _ => false end.

(** The channels when at most one thread notifies. *)
Definition orderly (s : state) : Prop :=
  opDone s ∉ closed s ∧ (opDone s < fresh s)%nat ∧ (∀ c, c ∈ closed s → (c < fresh s)%nat) ∧
  (∀ i j, ending (thread s i) = true → ending (thread s j) = true → i = j) ∧
  (∀ i, match thread s i with
        | Replacing old => old = opDone s
        | Closing old => old ∉ closed s ∧ old ≠ opDone s ∧ (old < fresh s)%nat
        | Panicked => False
        | _ => True
        end).

(** As long as no operation ends while another is notifying, no channel is
    closed twice. *)
Lemma no_double_close i e s s' :
  orderly s → (thread s i = Holding → ∀ j, ending (thread s j) = false) → step i e s = Some s' → orderly s'.
Proof.
  intros (H1 & H2 & H3 & H4 & H5) Hquiet Hstep. unfold step in Hstep.
  assert (Hsame : ∀ p s0, thread s0 = thread s → opDone s0 = opDone s → fresh s0 = fresh s → closed s0 = closed s →
            ending p = false → p ≠ Panicked → orderly (at_pc i p s0)).
  { intros p s0 Ht Hd Hf Hc Hp Hnp. unfold orderly. cbn. rewrite Hd, Hf, Hc. split_and!; try done.
    - intros j k. rewrite !thread_at_pc, Ht. repeat case_decide; subst; try congruence; auto.
    - intros j. rewrite thread_at_pc, Ht. case_decide; [by destruct p|]. apply H5. }
  assert (Hone : ∀ p s0, thread s0 = thread s → (∀ j, j ≠ i → ending (thread s j) = false) →
            ∀ j k, ending (thread (at_pc i p s0) j) = true → ending (thread (at_pc i p s0) k) = true → j = k).
  { intros p s0 Ht Hq j k. rewrite !thread_at_pc, Ht. repeat case_decide; subst; try done; rewrite ?Hq by done; done. }
  assert (Hends : ending (thread s i) = true → ∀ j, j ≠ i → ending (thread s j) = false).
  { intros Hi j Hne. destruct (ending (thread s j)) eqn:Hj; [|done]. by destruct Hne; apply H4. }
  pose proof (H5 i) as Hi5.
  destruct (thread s i) eqn:Hi, e; try discriminate; try case_bool_decide; simplify_eq; try (by apply Hsame).
  - unfold try_lock. destruct (opMu s), keep; by apply Hsame.
  - split_and!; try done; [apply Hone; auto|]. intros j. rewrite thread_at_pc. case_decide; [done|]. apply H5.
  - split_and!; try done; [apply Hone; auto|]. intros j. rewrite thread_at_pc. case_decide; [done|]. apply H5.
  - split_and!; cbn; try lia; [intros Hin%H3; lia|intros c Hc%H3; lia|apply Hone; auto|].
    intros j. rewrite thread_at_pc. case_decide; [split_and!; [done|lia|lia]|].
    specialize (H5 j). specialize (Hends eq_refl j). change (thread _ j) with (thread s j). destruct (thread s j); try done; by discriminate Hends.
  - destruct Hi5 as [Hc Hi5]. done.
  - destruct Hi5 as (Hc & Hne & Hlt). split_and!; cbn; [set_solver|lia|set_solver|apply Hone; auto|].
    intros j. rewrite thread_at_pc. case_decide; [done|].
    specialize (H5 j). specialize (Hends eq_refl j). change (thread _ j) with (thread s j). destruct (thread s j); try done; by discriminate Hends.
Qed.

(** Two operations that end one after the other may both read the channel before
    either replaces it: the second to close it panics. *)
Lemma double_close_panics :
  ∃ s, run [(0, Enter); (1, Enter); (0, Run true); (0, Run true); (1, Run true); (1, Run true);
            (0, Run true); (1, Run true); (0, Run true); (1, Run true); (0, Run true); (1, Run true)]%nat initial = Some s ∧
    thread s 1%nat = Panicked.
Proof. eexists. split; [vm_compute; reflexivity|vm_compute; reflexivity]. Qed.

(** A thread that fails to take the lock reads the channel afterwards: when the
    operation ended in between, it waits for a channel that nobody will close,
    with the lock free, until its time is over. *)
Lemma wakeup_missed :
  ∃ s, run [(0, Enter); (0, Run true); (1, Enter); (1, Run true); (0, Run true); (0, Run true); (0, Run true); (0, Run true);
            (1, Run true)]%nat initial = Some s ∧
    opMu s = false ∧ thread s 0%nat = Outside ∧ thread s 1%nat = Waiting 1 ∧ 1%nat ∉ closed s.
Proof. eexists. split; [vm_compute; reflexivity|]. split_and!; try (vm_compute; reflexivity). apply (bool_decide_unpack _). vm_compute. exact I. Qed.
