(* ===== verification/EsimScan.v ===== *)
(** * The search for the chips of a card (internal/esim/manager.go)

    The applications that are tried, in their order, what is kept of a chip that
    was found, and the search itself: [forEachEUICC], [doForEachEUICC] and
    [findAIDForICCID], as programs that open a client, ask, and close it.

    The standard application identifier, the parser of ICCIDs and the list of
    profiles belong to the SGP.22 library: parameters. *)

From Stdlib Require Import Ascii String.
From S2P Require Import Prelude GoText SmsCodec Interaction EsimErrors ModemVoice.
From stdpp Require Import strings pretty.

#[local] Open Scope Z_scope.
#[local] Open Scope string_scope.

(** ** Applications *)

Definition estkmeAIDPrefix : bytes := [0xA0; 0x65; 0x73; 0x74; 0x6B; 0x6D; 0x65].

Definition AIDs (GSMAISDRApplicationAID : bytes) : list bytes :=
  [ [0xA0; 0x65; 0x73; 0x74; 0x6B; 0x6D; 0x65; 0xFF; 0xFF; 0x49; 0x53; 0x44; 0x2D; 0x52; 0x20; 0x30];
    [0xA0; 0x65; 0x73; 0x74; 0x6B; 0x6D; 0x65; 0xFF; 0xFF; 0x49; 0x53; 0x44; 0x2D; 0x52; 0x20; 0x31];
    GSMAISDRApplicationAID;
    [0xA0; 0x00; 0x00; 0x05; 0x59; 0x10; 0x10; 0x00; 0x00; 0x00; 0x00; 0x89; 0x00; 0x00; 0x03; 0x00];
    [0xA0; 0x00; 0x00; 0x05; 0x59; 0x10; 0x10; 0x00; 0x00; 0x00; 0x89; 0x00; 0x00; 0x00; 0x03; 0x00];
    [0xA0; 0x00; 0x00; 0x05; 0x59; 0x10; 0x10; 0xFF; 0xFF; 0xFF; 0xFF; 0x89; 0x00; 0x05; 0x05; 0x00];
    [0xA0; 0x00; 0x00; 0x05; 0x59; 0x10; 0x10; 0xFF; 0xFF; 0xFF; 0xFF; 0x89; 0x00; 0x00; 0x01; 0x77];
    [0xA0; 0x00; 0x00; 0x05; 0x59; 0x10; 0x4C; 0x69; 0x6E; 0x6B; 0x73; 0x66; 0x69; 0x65; 0x6C; 0x64];
    [0xA0; 0x00; 0x00; 0x06; 0x28; 0x10; 0x10; 0xFF; 0xFF; 0xFF; 0xFF; 0x89; 0x00; 0x00; 0x01; 0x00];
    [0xA0; 0x65; 0x73; 0x74; 0x6B; 0x6D; 0x65; 0xFF; 0xFF; 0xFF; 0xFF; 0x49; 0x53; 0x44; 0x2D; 0x52] ].

(** The list that is searched: a copy without empty entries. *)
Definition cloneAIDList (aids : list bytes) : list bytes := filter (λ a, a ≠ []) aids.
Definition getEffectiveAIDs (GSMAISDRApplicationAID : bytes) : list bytes := cloneAIDList (AIDs GSMAISDRApplicationAID).

Definition isESTKmeAID (aid : bytes) : bool :=
  bool_decide (len estkmeAIDPrefix <= len aid) && bool_decide (take 7 aid = estkmeAIDPrefix).

Definition shouldContinueAIDScanAfterSuccess (successAIDs : list bytes) (nextAID : bytes) : bool :=
  bool_decide (successAIDs = []) || existsb (λ a, isESTKmeAID a && isESTKmeAID nextAID) successAIDs.

(** ** What is known of a chip *)

Record EUICCInfo := mkInfo {
  AID : bytes; AIDHex : string; EID : string; Spec : string; SpecGuess : string; SpecConfidence : string;
  FreeNvramBytes : Z; FreeNvram : string; Firmware : string; Manufacturer : string; Certificates : list string;
  InfoSource : string; InfoVersion : string; InfoError : string; SASAccreditationNumber : string;
  DefaultSMDPAddress : string; RootSMDSAddress : string }.

#[global] Instance info_eq_dec : EqDecision EUICCInfo.
Proof. solve_decision. Defined.

Definition buildDiscoveredEUICCInfo (aid : bytes) (eidStr : string) : EUICCInfo :=
  mkInfo aid (HexUpper aid) eidStr "" "sgp22_compatible" "inferred" 0 "" "" "" [] "" "" "" "" "" "".

Section Inventory.
(** [strings.ToUpper] beyond ASCII, and the standard application. *)
Context (unicode_upper : string → string) (GSMAISDRApplicationAID : bytes).

Notation Upper s := (ToUpper unicode_upper s).

(** The last of [AIDs] with this text wins, as in the map that is built once. *)
Fixpoint rank_from (i : Z) (aids : list bytes) (key : string) : option Z :=
  match aids with
  | [] => None
  | aid :: aids =>
      match rank_from (i + 1) aids key with
      | Some r => Some r
      | None => if bool_decide (HexUpper aid = key) then Some i else None
      end
  end.

Definition getAIDRank (aidHex : string) : Z :=
  default (2 ^ 30) (rank_from 0 (AIDs GSMAISDRApplicationAID) (Upper (TrimSpace aidHex))).

(** The order of [sortEUICCProfilesStable] and [sortEUICCInfosStable], from the
    two texts that they compare. *)
Definition before (aidHex eid aidHex' eid' : string) : bool :=
  let ri := getAIDRank aidHex in
  let rj := getAIDRank aidHex' in
  if bool_decide (ri ≠ rj) then bool_decide (ri < rj)
  else if bool_decide (eid ≠ eid') then String.ltb eid eid'
  else String.ltb (Upper aidHex) (Upper aidHex').

(** [sort.SliceStable]: each element goes behind those that are not greater. *)
Fixpoint insert_stable {A} (less : A → A → bool) (x : A) (l : list A) : list A :=
  match l with
  | [] => [x]
  | y :: l => if less x y then x :: y :: l else y :: insert_stable less x l
  end.
Definition sort_stable {A} (less : A → A → bool) (l : list A) : list A := foldl (λ acc x, insert_stable less x acc) [] l.

Definition sortEUICCInfosStable (infos : list EUICCInfo) : list EUICCInfo :=
  sort_stable (λ a b, before (AIDHex a) (EID a) (AIDHex b) (EID b)) infos.

Definition normalizeEUICCInfo (i : EUICCInfo) : EUICCInfo * bool :=
  let aidHex := Upper (TrimSpace (AIDHex i)) in
  let aid :=
    if bool_decide (AID i = []) && bool_decide (aidHex ≠ "")
    then match DecodeString aidHex with Some aid => aid | None => AID i end else AID i in
  let aidHex := if bool_decide (aid ≠ []) && bool_decide (aidHex = "") then HexUpper aid else aidHex in
  let eid := TrimSpace (EID i) in
  (mkInfo aid aidHex eid (Spec i) (TrimSpace (SpecGuess i)) (TrimSpace (SpecConfidence i)) (FreeNvramBytes i) (FreeNvram i)
     (Firmware i) (Manufacturer i) (Certificates i) (InfoSource i) (InfoVersion i) (InfoError i) (SASAccreditationNumber i)
     (DefaultSMDPAddress i) (RootSMDSAddress i),
   bool_decide (aidHex ≠ "") || bool_decide (eid ≠ "")).

Definition same_text (a b : string) : bool := bool_decide (a ≠ "") && bool_decide (b ≠ "") && bool_decide (a = b).

Definition sameEUICCIdentity (a b : EUICCInfo) : bool :=
  same_text (Upper (TrimSpace (AIDHex a))) (Upper (TrimSpace (AIDHex b))) || same_text (TrimSpace (EID a)) (TrimSpace (EID b)).

(** A field of the new information, unless it is blank. *)
Definition newer (old new : string) : string := if bool_decide (TrimSpace new ≠ "") then TrimSpace new else old.

Definition mergeEUICCInfo (o n : EUICCInfo) : EUICCInfo :=
  mkInfo (if bool_decide (AID n ≠ []) then AID n else AID o)
    (if bool_decide (TrimSpace (AIDHex n) ≠ "") then Upper (TrimSpace (AIDHex n)) else AIDHex o)
    (newer (EID o) (EID n)) (if bool_decide (Spec n ≠ "") then Spec n else Spec o)
    (newer (SpecGuess o) (SpecGuess n)) (newer (SpecConfidence o) (SpecConfidence n))
    (if bool_decide (FreeNvramBytes n ≠ 0) then FreeNvramBytes n else FreeNvramBytes o)
    (newer (FreeNvram o) (FreeNvram n)) (newer (Firmware o) (Firmware n)) (newer (Manufacturer o) (Manufacturer n))
    (if bool_decide (Certificates n ≠ []) then Certificates n else Certificates o)
    (newer (InfoSource o) (InfoSource n)) (newer (InfoVersion o) (InfoVersion n)) (newer (InfoError o) (InfoError n))
    (newer (SASAccreditationNumber o) (SASAccreditationNumber n)) (newer (DefaultSMDPAddress o) (DefaultSMDPAddress n))
    (newer (RootSMDSAddress o) (RootSMDSAddress n)).

Definition cloneEUICCInfoList (infos : list EUICCInfo) : list EUICCInfo :=
  omap (λ i, let '(n, ok) := normalizeEUICCInfo i in if ok then Some n else None) infos.

Definition cloneEUICCInfoListWithEID (infos : list EUICCInfo) : list EUICCInfo :=
  filter (λ n, TrimSpace (EID n) ≠ "") (cloneEUICCInfoList infos).

(** The first of the same identity is updated; otherwise it is added. *)
Fixpoint merge_one (out : list EUICCInfo) (n : EUICCInfo) : list EUICCInfo :=
  match out with
  | [] => [n]
  | o :: out => if sameEUICCIdentity o n then mergeEUICCInfo o n :: out else o :: merge_one out n
  end.

Definition mergeEUICCInfosLocked (existing incoming : list EUICCInfo) : list EUICCInfo :=
  sortEUICCInfosStable
    (foldl (λ out i, let '(n, ok) := normalizeEUICCInfo i in if ok then merge_one out n else out) (cloneEUICCInfoList existing) incoming).

(** [m.discoveredEUICCs] after it. *)
Definition SeedDiscoveredEUICCs (discovered infos : list EUICCInfo) : list EUICCInfo := mergeEUICCInfosLocked discovered infos.
End Inventory.

(** The name of a 9eSIM card from its identifier and firmware. *)
Definition predict_version (v1 v2 v3 : Z) : string :=
  if bool_decide (37 < v1) || bool_decide (v1 = 37) && bool_decide (4 <= v2) then "v3.2"
  else if bool_decide (v1 = 37) && bool_decide (v2 = 1) && bool_decide (41 <= v3) then "v3.1"
  else if bool_decide (v1 = 36) && bool_decide (18 <= v2) then "v3"
  else if bool_decide (v1 = 36) && bool_decide (17 <= v2) && bool_decide (39 <= v3) then "v3 (beta)"
  else if bool_decide (v1 = 36) && bool_decide (v2 = 17) && bool_decide (4 <= v3) then "v2s"
  else if bool_decide (v1 = 36) && bool_decide (9 <= v2) then "v2.1"
  else if bool_decide (v1 = 36) && bool_decide (7 <= v2) then "v2"
  else if bool_decide (v1 < 36) then "v" +:+ pretty v1
  else "".

Definition predictSkuName (eid firmware : string) : string :=
  if bool_decide (eid = "") || bool_decide (firmware = "") then ""
  else if HasPrefix eid "890440458467274948" || HasPrefix eid "890440452167274948" then
    match split_char "."%char firmware with
    | [a; b; c] =>
        let verName := predict_version (AtoiValue a) (AtoiValue b) (AtoiValue c) in
        if bool_decide (verName ≠ "") then "9eSIM " +:+ verName else "9eSIM"
    | _ => "9eSIM"
    end
  else "".

Example predict_ex : predictSkuName "89044045846727494800" "36.17.39" = "9eSIM v3 (beta)".
Proof. vm_compute. reflexivity. Qed.
Example predict_ex2 : predictSkuName "89044045846727494800" "25.1.2" = "9eSIM v25".
Proof. vm_compute. reflexivity. Qed.

(** ** The search *)

(** What a callback did: return, or panic with this value. *)
Inductive callback_answer := Returned (err : option error) | Panicked (value : string).

Section Search.
(** The text form of the ICCID that is parsed from a string, and [%q]. *)
Context (NewICCID : string → string + error) (Quote : string → string).

Inductive request :=
  | WaitForNoWriteOperation | WaitForAPDUIdle | PreCleanChannels
  | CreateLPA (aid : bytes) | ReadEID | CloseLPA (operation : string)
  | Seed (i : EUICCInfo)
  | Callback (aid : bytes) (eidStr : string)
  | ListBasicProfiles.

#[global] Instance search_answer : Requests request := λ c,
  match c with
  | WaitForNoWriteOperation | WaitForAPDUIdle | CreateLPA _ | CloseLPA _ => option error
  | ReadEID => (bytes + error)%type
  | Callback _ _ => callback_answer
  | ListBasicProfiles => (list string + error)%type
  | _ => unit
  end.

(** Lower-case hexadecimal. *)
Definition HexLower (b : bytes) : string := ToLower id (HexUpper b).

(** [createLPAWithAID] wraps what the factory gives. *)
Definition createLPAWithAID (aid : bytes) : prog request (option error) :=
  let? r := ask (CreateLPA aid) in
  match r with
  | Some e => Ret (Some (Errorf ("创建 LPA client 失败 (AID=" +:+ HexUpper aid +:+ "): ") e ""))
  | None => Ret None
  end.

Definition runEUICCCallback (aid : bytes) (eidStr : string) : prog request (option error) :=
  let? r := ask (Callback aid eidStr) in
  match r with
  | Returned err => Ret err
  | Panicked value => Ret (Some (Plain ("eUICC 回调处理失败 (AID=" +:+ HexUpper aid +:+ "): " +:+ value)))
  end.

(** The variables of the loop. *)
Record scan := mkScan {
  seenEIDs : list string; successAIDs : list bytes; foundAny : bool; lastErr : option error; lastUnexpectedErr : option error }.
Definition scan_start : scan := mkScan [] [] false None None.

(** One application, with its client open. *)
Definition scan_opened (aid : bytes) (s : scan) : prog request (option error * scan) :=
  let? r := ask ReadEID in
  match r with
  | inr e => Ret (Some e, s)
  | inl eid =>
      let eidStr := HexLower eid in
      if bool_decide (eidStr ∈ seenEIDs s) then Ret (None, s)
      else
        let s := mkScan (eidStr :: seenEIDs s) (successAIDs s ++ [aid]) true (lastErr s) (lastUnexpectedErr s) in
        let? _ := ask (Seed (buildDiscoveredEUICCInfo aid eidStr)) in
        let? err := runEUICCCallback aid eidStr in
        Ret (err, s)
  end.

Definition scan_one (aid : bytes) (s : scan) : prog request scan :=
  let? opened := createLPAWithAID aid in
  let? r := match opened with
            | Some e => Ret (Some e, s)
            | None =>
                let? r := scan_opened aid s in
                let? _ := ask (CloseLPA "for_each_euicc") in
                Ret r
            end in
  let '(err, s) := r in
  match err with
  | None => Ret s
  | Some e =>
      Ret (mkScan (seenEIDs s) (successAIDs s) (foundAny s) (Some e)
             (if negb (Is e ErrQMIUIMApplicationMissing) then Some e else lastUnexpectedErr s))
  end.

Fixpoint scan_all (aids : list bytes) (s : scan) : prog request scan :=
  match aids with
  | [] => Ret s
  | aid :: aids =>
      if negb (shouldContinueAIDScanAfterSuccess (successAIDs s) aid) then Ret s
      else let? s := scan_one aid s in scan_all aids s
  end.

Definition doForEachEUICC (aids : list bytes) : prog request (bool * option error) :=
  let? s := scan_all aids scan_start in
  if negb (foundAny s) then
    match lastUnexpectedErr s with
    | Some e => Ret (false, Some e)
    | None => Ret (false, lastErr s)
    end
  else Ret (true, None).

(** What the caller of the search gets. *)
Definition search_error (foundAny : bool) (err : option error) : option error :=
  if foundAny then err
  else match err with
       | None => Some (Sentinel ErrNoEUICC)
       | Some e =>
           if Is e ErrQMIUIMApplicationMissing then Some (Errorf "" (Sentinel ErrNoEUICC) (": " +:+ Error e))
           else Some (Errorf "未发现任何 eUICC: " e "")
       end.

(** [arbiter] and [clean] say whether the manager has an arbiter to wait for and
    a callback that clears the channels. *)
Definition forEachEUICC (arbiter clean : bool) (aids : list bytes) : prog request (option error) :=
  let? busy := ask WaitForNoWriteOperation in
  match busy with
  | Some e => Ret (Some e)
  | None =>
      let? idle := (if arbiter then ask WaitForAPDUIdle else Ret None) in
      match idle with
      | Some _ => Ret (Some (Sentinel ErrOperationInProgress))
      | None =>
          let? _ := (if clean then ask PreCleanChannels else Ret tt) in
          let? r := doForEachEUICC aids in
          let '(foundAny, err) := r in Ret (search_error foundAny err)
      end
  end.

(** ** The chip of a profile

    A list of profiles is the list of the text forms of their ICCIDs. *)

Fixpoint find_aid (i : string) (aids : list bytes) (tried : Z) (lastErr : option error) : prog request (bytes + Z * option error) :=
  match aids with
  | [] => Ret (inr (tried, lastErr))
  | aid :: aids =>
      let tried := tried + 1 in
      let? opened := createLPAWithAID aid in
      match opened with
      | Some e => find_aid i aids tried (Some e)
      | None =>
          let? profiles := ask ListBasicProfiles in
          let? _ := ask (CloseLPA "find_aid_for_iccid") in
          match profiles with
          | inr e => find_aid i aids tried (Some e)
          | inl profiles =>
              if existsb (λ p, String.eqb p i) profiles then Ret (inl aid)
              else find_aid i aids tried lastErr
          end
      end
  end.

Definition findAIDForICCID (aids : list bytes) (targetICCID : string) : prog request (bytes + error) :=
  match NewICCID targetICCID with
  | inr e => Ret (inr (NewDeleteProfileError "INVALID_ICCID" ("无效的 ICCID " +:+ Quote targetICCID +:+ ": " +:+ Error e) (Some e)))
  | inl i =>
      let? r := find_aid i aids 0 None in
      match r with
      | inl aid => Ret (inl aid)
      | inr (tried, lastErr) =>
          let msg := "在所有 eUICC 中未找到 ICCID " +:+ targetICCID +:+ " (triedCount=" +:+ pretty tried +:+ ")" in
          Ret (inr (NewDeleteProfileError "PROFILE_NOT_FOUND"
                      (match lastErr with Some e => msg +:+ "，lastErr=" +:+ Error e | None => msg end) None))
      end
  end.
End Search.
