(* ===== verification/EsimScanProofs.v ===== *)
(** * Properties of the search for the chips of a card

    The monitor follows the client that is open, what it was asked, the chips
    that were found and the errors; the searches of EsimScan.v keep it content
    whatever the card answers. *)

From Stdlib Require Import Ascii String.
From S2P Require Import Prelude GoText SmsCodec Interaction EsimErrors EsimScan.
From stdpp Require Import strings.

#[local] Open Scope Z_scope.
#[local] Open Scope string_scope.

(** The applications that are left, whether the card may be used, the client
    that is open, the identifier that it gave, and what was found so far. *)
Record view := mkView {
  v_rest : list bytes; v_free : bool; v_idle : bool; v_open : option bytes; v_eid : option string;
  v_seen : list string; v_found : list bytes; v_last : option error; v_unexpected : option error }.

Definition search_view (aids : list bytes) : view := mkView aids false false None None [] [] None None.

Definition unexpected (e : error) (old : option error) : option error :=
  if negb (Is e ErrQMIUIMApplicationMissing) then Some e else old.

Section Proofs.
Context (arbiter clean : bool).

Definition allow (b : bool) (s : view) : option view := if b then Some s else None.

(** A client is opened for the next application only, with the card free and
    none open, as long as nothing was found or both are of eSTK.me; the callback
    is called with the client open, for an identifier that it just gave and that
    was not seen before. *)
Definition scan_step (s : view) (x : exchange request) : option view :=
  let '(mkView rest free idle opened eid seen found last unexp) := s in
  match x_request x as c return answer c → option view with
  | WaitForNoWriteOperation => λ r, Some (mkView rest (bool_decide (r = None)) idle opened eid seen found last unexp)
  | WaitForAPDUIdle => λ r, allow free (mkView rest free (bool_decide (r = None)) opened eid seen found last unexp)
  | PreCleanChannels => λ _, allow (free && (idle || negb arbiter) && bool_decide (opened = None)) s
  | CreateLPA a => λ r,
      match rest with
      | [] => None
      | a' :: rest =>
          let e' := λ e, Errorf ("创建 LPA client 失败 (AID=" +:+ HexUpper a +:+ "): ") e "" in
          allow (free && (idle || negb arbiter) && bool_decide (a = a') && bool_decide (opened = None) &&
                 (bool_decide (found = []) || existsb isESTKmeAID found && isESTKmeAID a))
            match r with
            | None => mkView rest free idle (Some a) None seen found last unexp
            | Some e => mkView rest free idle None None seen found (Some (e' e)) (unexpected (e' e) unexp)
            end
      end
  | ReadEID => λ r,
      allow (bool_decide (opened ≠ None) && bool_decide (eid = None))
        match r with
        | inr e => mkView rest free idle opened eid seen found (Some e) (unexpected e unexp)
        | inl b => mkView rest free idle opened (Some (HexLower b)) seen found last unexp
        end
  | Seed i => λ _,
      allow (bool_decide (i = buildDiscoveredEUICCInfo (default [] opened) (default "" eid)) && bool_decide (eid ≠ None)) s
  | Callback a e => λ r,
      allow (bool_decide (opened = Some a) && bool_decide (eid = Some e) && negb (bool_decide (e ∈ seen)))
        (let s err := mkView rest free idle opened None (e :: seen) (found ++ [a]) (Some err) (unexpected err unexp) in
         match r with
         | Returned None => mkView rest free idle opened None (e :: seen) (found ++ [a]) last unexp
         | Returned (Some err) => s err
         | Panicked v => s (Plain ("eUICC 回调处理失败 (AID=" +:+ HexUpper a +:+ "): " +:+ v))
         end)
  | CloseLPA _ => λ _,
      allow (bool_decide (opened ≠ None)) (mkView rest free idle None None seen found last unexp)
  | ListBasicProfiles => λ _, None
  end (x_answer x).

(** Where a search stands, from the variables of its loop. *)
Definition at_scan (rest : list bytes) (s : scan) : view :=
  mkView rest true arbiter None None (seenEIDs s) (successAIDs s) (lastErr s) (lastUnexpectedErr s).

Definition scan_ok (s : scan) : Prop :=
  foundAny s = bool_decide (seenEIDs s ≠ []) ∧ NoDup (seenEIDs s) ∧ length (seenEIDs s) = length (successAIDs s) ∧
  (lastUnexpectedErr s = None → ∀ e, lastErr s = Some e → Is e ErrQMIUIMApplicationMissing = true) ∧
  (∀ e, lastUnexpectedErr s = Some e → Is e ErrQMIUIMApplicationMissing = false).

Notation T s p Q := (triple scan_step (eq s) p Q).

Ltac guards :=
  cbn [allow negb andb orb default from_option id];
  repeat match goal with
  | |- context [bool_decide ?P] =>
      first [rewrite (bool_decide_eq_true_2 P) by done | rewrite (bool_decide_eq_false_2 P) by done]
  end;
  cbn [allow negb andb orb]; reflexivity.

Ltac next := cbn [bind ask]; apply triple_next; intros ?; eexists; split; [unfold scan_step, at_scan; cbn beta iota delta [x_request x_answer]; try guards|].

Lemma scan_error rest s e :
  at_scan rest (mkScan (seenEIDs s) (successAIDs s) (foundAny s) (Some e)
     (if negb (Is e ErrQMIUIMApplicationMissing) then Some e else lastUnexpectedErr s)) =
  mkView rest true arbiter None None (seenEIDs s) (successAIDs s) (Some e) (unexpected e (lastUnexpectedErr s)).
Proof. done. Qed.

Lemma scan_error_ok s e :
  scan_ok s →
  scan_ok (mkScan (seenEIDs s) (successAIDs s) (foundAny s) (Some e)
     (if negb (Is e ErrQMIUIMApplicationMissing) then Some e else lastUnexpectedErr s)).
Proof.
  intros (H1 & H2 & H2' & H3 & H4). unfold scan_ok. cbn. split_and!; try done; destruct (Is e _) eqn:He; cbn; naive_solver.
Qed.

Lemma continue_found (found : list bytes) aid :
  shouldContinueAIDScanAfterSuccess found aid = true → bool_decide (found = []) || existsb isESTKmeAID found && isESTKmeAID aid = true.
Proof.
  unfold shouldContinueAIDScanAfterSuccess. destruct (bool_decide _); [done|]. cbn [orb].
  intros (a & Hin & [Ha Haid]%andb_true_iff)%existsb_exists. apply andb_true_iff. split; [|done]. apply existsb_exists. eauto.
Qed.

Lemma open_allowed aid rest s r :
  shouldContinueAIDScanAfterSuccess (successAIDs s) aid = true →
  scan_step (at_scan (aid :: rest) s) (mkExchange (CreateLPA aid) r) =
    Some match r with
         | None => mkView rest true arbiter (Some aid) None (seenEIDs s) (successAIDs s) (lastErr s) (lastUnexpectedErr s)
         | Some e =>
             let e := Errorf ("创建 LPA client 失败 (AID=" +:+ HexUpper aid +:+ "): ") e "" in
             mkView rest true arbiter None None (seenEIDs s) (successAIDs s) (Some e) (unexpected e (lastUnexpectedErr s))
         end.
Proof.
  intros Hc%continue_found. unfold scan_step, at_scan. cbn beta iota delta [x_request x_answer]. rewrite Hc.
  rewrite (bool_decide_eq_true_2 (aid = aid)) by done. by destruct arbiter, r.
Qed.

(** An application after which the search goes on without an error. *)
Lemma found_ok s aid eid :
  scan_ok s → eid ∉ seenEIDs s → scan_ok (mkScan (eid :: seenEIDs s) (successAIDs s ++ [aid]) true (lastErr s) (lastUnexpectedErr s)).
Proof.
  intros (H1 & H2 & H2' & H3 & H4) Hn. unfold scan_ok. cbn. rewrite length_app. cbn. split_and!; try done; [by constructor|lia].
Qed.

Lemma scan_one_ok aid rest s :
  scan_ok s → shouldContinueAIDScanAfterSuccess (successAIDs s) aid = true →
  T (at_scan (aid :: rest) s) (scan_one aid s) (λ s' v, v = at_scan rest s' ∧ scan_ok s').
Proof.
  intros Hs Hc. unfold scan_one, createLPAWithAID, scan_opened, runEUICCCallback.
  cbn [bind ask]. apply triple_next. intros opened. eexists. split; [by apply open_allowed|].
  destruct opened as [e|]; cbn [bind ask].
  { apply triple_done. split; [done|by apply scan_error_ok]. }
  next. match goal with r : answer ReadEID |- _ => destruct r as [eid|e] end; cbn [bind ask].
  2:{ next. apply triple_done. split; [done|by apply scan_error_ok]. }
  destruct (decide (HexLower eid ∈ seenEIDs s)) as [Hin|Hin].
  { rewrite bool_decide_eq_true_2 by done. next. apply triple_done. by split. }
  rewrite bool_decide_eq_false_2 by done. next.
  cbn [bind ask]. apply triple_next. intros called. eexists. split.
  { unfold scan_step. cbn beta iota delta [x_request x_answer]. rewrite !bool_decide_eq_true_2 by done.
    rewrite (bool_decide_eq_false_2 (HexLower eid ∈ seenEIDs s)) by done. cbn [andb negb allow]. reflexivity. }
  pose proof (found_ok s aid (HexLower eid) Hs Hin) as Hs'.
  destruct called as [[e|]|v]; cbn [bind ask]; next; apply triple_done; (split; [done|]);
    first [exact Hs'|exact (scan_error_ok _ _ Hs')].
Qed.

(** Where the search stops: at the end of the list, or at an application that
    need not be tried. *)
Definition stopped (rest : list bytes) (s : scan) : Prop :=
  rest = [] ∨ ∃ aid rest', rest = aid :: rest' ∧ shouldContinueAIDScanAfterSuccess (successAIDs s) aid = false.

Lemma scan_all_ok aids s :
  scan_ok s → T (at_scan aids s) (scan_all aids s) (λ s' v, scan_ok s' ∧ ∃ rest, v = at_scan rest s' ∧ stopped rest s').
Proof.
  revert s. induction aids as [|aid aids IH]; intros s Hs; cbn [scan_all].
  { apply triple_done. split; [done|]. exists []. by split; [|left]. }
  destruct (shouldContinueAIDScanAfterSuccess (successAIDs s) aid) eqn:Hc; cbn [negb].
  - eapply triple_call; [by apply scan_one_ok|]. intros s' v [-> Hs']. by apply IH.
  - apply triple_done. split; [done|]. exists (aid :: aids). split; [done|]. right. eauto.
Qed.

(** The outcome, from the last view. *)
Definition found_result (v : view) (found : bool) (err : option error) : Prop :=
  found = bool_decide (v_seen v ≠ []) ∧
  err = if found then None else match v_unexpected v with Some e => Some e | None => v_last v end.

Lemma doForEachEUICC_ok aids :
  T (mkView aids true arbiter None None [] [] None None) (doForEachEUICC aids)
    (λ '(found, err) v, v_open v = None ∧ found_result v found err ∧ v_free v = true ∧ NoDup (v_seen v) ∧ length (v_seen v) = length (v_found v) ∧
       (v_unexpected v = None → ∀ e, v_last v = Some e → Is e ErrQMIUIMApplicationMissing = true) ∧
       (∀ e, v_unexpected v = Some e → Is e ErrQMIUIMApplicationMissing = false) ∧
       (v_rest v = [] ∨ ∃ aid rest, v_rest v = aid :: rest ∧ shouldContinueAIDScanAfterSuccess (v_found v) aid = false)).
Proof.
  unfold doForEachEUICC. eapply triple_call.
  { apply (scan_all_ok aids scan_start). unfold scan_ok. cbn. split_and!; try done. constructor. }
  intros s v ((H1 & H2 & H2' & H3 & H4) & rest & -> & Hstop). unfold found_result.
  destruct (foundAny s) eqn:Hf; cbn [negb].
  - apply triple_done. cbn. by rewrite <-H1.
  - destruct (lastUnexpectedErr s) eqn:Hl; apply triple_done; cbn; rewrite <-H1, ?Hl; split_and!; try done; intros; simplify_eq; eauto.
Qed.

(** The end of a search that was let to run. *)
Definition search_end (aids : list bytes) (err : option error) (v : view) : Prop :=
  NoDup (v_seen v) ∧ length (v_seen v) = length (v_found v) ∧
  (v_rest v = [] ∨ ∃ aid rest, v_rest v = aid :: rest ∧ shouldContinueAIDScanAfterSuccess (v_found v) aid = false) ∧
  match err with
  | None => v_seen v ≠ []
  | Some err =>
      v_seen v = [] ∧
      match v_unexpected v with
      | None => Is err ErrNoEUICC = true ∧ ∀ e, v_last v = Some e → Is e ErrQMIUIMApplicationMissing = true
      | Some e => Unwrap err = Some e ∧ Is e ErrQMIUIMApplicationMissing = false
      end
  end.

Lemma search_run_ok (cl : bool) aids :
  T (mkView aids true arbiter None None [] [] None None)
    (let? _ := (if cl then ask PreCleanChannels else Ret tt) in
     let? r := doForEachEUICC aids in let '(found, err) := r in Ret (search_error found err))
    (λ err v, v_open v = None ∧ search_end aids err v).
Proof.
  assert (Hrun : T (mkView aids true arbiter None None [] [] None None)
    (let? r := doForEachEUICC aids in let '(found, err) := r in Ret (search_error found err)) (λ err v, v_open v = None ∧ search_end aids err v)).
  { eapply triple_call; [apply doForEachEUICC_ok|]. intros [found err] v (Ho & (Hf & He) & _ & Hnd & Hl & Hm & Hu & Hs).
    apply triple_done. unfold search_end, search_error. destruct found.
    - subst err. split_and!; try done. symmetry in Hf. by apply bool_decide_eq_true in Hf.
    - symmetry in Hf. apply bool_decide_eq_false, dec_stable in Hf. destruct (v_unexpected v) as [e|] eqn:Hv; subst err.
      + rewrite (Hu e eq_refl). split_and!; auto.
      + specialize (Hm eq_refl). destruct (v_last v) as [e|] eqn:Hlast; [rewrite (Hm e eq_refl)|]; split_and!; try done. }
  destruct cl; [|exact Hrun]. next; [destruct arbiter; guards|exact Hrun].
Qed.

Lemma forEachEUICC_ok aids :
  T (search_view aids) (forEachEUICC arbiter clean aids)
    (λ err v, v_open v = None ∧ (search_end aids err v ∨ err ≠ None ∧ v = mkView aids (v_free v) false None None [] [] None None)).
Proof.
  pose proof (search_run_ok clean aids) as Hrun. unfold forEachEUICC, search_view. next. cbn [bind].
  match goal with r : answer _ |- _ => destruct r as [e|] end; cbn [bind].
  { apply triple_done. cbn. split; [done|]. by right. }
  destruct arbiter eqn:Ha.
  - next. match goal with r : answer WaitForAPDUIdle |- _ => destruct r as [e|] end.
    + apply triple_done. cbn. split; [done|]. by right.
    + cbn [bind]. eapply triple_conseq; [apply Hrun|done|]. intros a v [? ?]. auto.
  - cbn [bind]. eapply triple_conseq; [apply Hrun|done|]. intros a v [? ?]. auto.
Qed.

(** C18: the search for the chips of a card, for every answer.  One client is
    open at a time, for the next application of the list, and it is closed before
    the next; the callback is called once for each identifier, with the client
    open, even when it panics; after a chip only applications of eSTK.me are
    tried behind one of eSTK.me.  There is no error exactly when a chip was found;
    otherwise the error says that there is no eUICC when every error was of a
    missing application, and wraps the last other error if there was one.  A busy
    card is left alone. *)
Theorem search_life aids t err :
  exec (forEachEUICC arbiter clean aids) t err →
  ∃ v, watch scan_step (search_view aids) t = Some v ∧ v_open v = None ∧
    (search_end aids err v ∨ err ≠ None ∧ v_seen v = [] ∧ v_rest v = aids).
Proof.
  intros Hx. destruct (forEachEUICC_ok aids _ t err eq_refl Hx) as (v & Hw & Ho & Hv). exists v. split_and!; [done..|].
  destruct Hv as [Hv|[He ->]]; [by left|by right].
Qed.
End Proofs.

(** A card of eSTK.me with two chips, of which the second breaks the reader of
    profiles. *)
Definition demo_aids : list bytes := AIDs [0xA0; 0x00; 0x00; 0x05; 0x59; 0x10; 0x10; 0xFF; 0xFF; 0xFF; 0xFF; 0x89; 0x00; 0x00; 0x01; 0x00].
Definition demo_card (n : Z) (c : request) : answer c * Z :=
  match c return answer c * Z with
  | WaitForNoWriteOperation | WaitForAPDUIdle | CreateLPA _ | CloseLPA _ => (None, n)
  | ReadEID => (inl [0x89; n], n + 1)
  | Callback _ _ => (if bool_decide (n = 1) then Returned None else Panicked "nil", n)
  | ListBasicProfiles => (inl [], n)
  | _ => (tt, n)
  end.
Definition demo_search := run_on demo_card (forEachEUICC true true demo_aids) 0.

Lemma search_life_witness :
  ∃ v, watch (scan_step true) (search_view demo_aids) demo_search.1.1 = Some v ∧ v_open v = None ∧
    (search_end demo_aids demo_search.1.2 v ∨ demo_search.1.2 ≠ None ∧ v_seen v = [] ∧ v_rest v = demo_aids).
Proof. exact (search_life true true demo_aids demo_search.1.1 demo_search.1.2 (run_on_exec demo_card (forEachEUICC true true demo_aids) 0)). Defined.

Example demo_found :
  (demo_search.1.2, option_map v_seen (watch (scan_step true) (search_view demo_aids) demo_search.1.1)) = (None, Some ["8901"; "8900"]).
Proof. vm_compute. reflexivity. Qed.

(** The last application of the list is of eSTK.me, but the search never comes
    to it once a chip was found: it stops at the standard application, or at the
    one behind another maker's. *)
Lemma deprecated_never_tried gsma found :
  gsma ≠ [] → isESTKmeAID gsma = false → found ≠ [] →
  getEffectiveAIDs gsma !! 2%nat = Some gsma ∧ shouldContinueAIDScanAfterSuccess found gsma = false ∧
  option_map isESTKmeAID (getEffectiveAIDs gsma !! 9%nat) = Some true.
Proof.
  intros Hne Hg Hf. unfold getEffectiveAIDs, cloneAIDList, AIDs. rewrite !filter_cons. repeat case_decide; try done.
  split_and!; [done| |by vm_compute]. unfold shouldContinueAIDScanAfterSuccess. rewrite (bool_decide_eq_false_2 (found = [])) by done.
  cbn. rewrite Hg. clear. induction found as [|a l IH]; [done|]. cbn. by rewrite andb_false_r.
Qed.

(** ** The chip of a profile *)

(** What a search for a profile may do: list the profiles of an open client. *)
Definition find_step (s : option bytes) (x : exchange request) : option (option bytes) :=
  match x_request x as c return answer c → option (option bytes) with
  | CreateLPA a => λ r, if bool_decide (s = None) then Some (match r with None => Some a | Some _ => None end) else None
  | ListBasicProfiles => λ _, if bool_decide (s = None) then None else Some s
  | CloseLPA _ => λ _, if bool_decide (s = None) then None else Some None
  | _ => λ _, None
  end (x_answer x).

(** A client is open at most for one application, and closed at the end; the
    application that is returned listed the profile just before. *)
Lemma find_aid_ok i aids tried lastErr :
  triple find_step (eq None) (find_aid i aids tried lastErr) (λ r s, s = None ∧ match r with inl aid => aid ∈ aids | inr _ => True end).
Proof.
  revert tried lastErr. induction aids as [|aid aids IH]; intros tried lastErr; cbn [find_aid]; [by apply triple_done|].
  unfold createLPAWithAID. cbn [bind ask]. apply triple_next. intros opened. eexists. split; [reflexivity|].
  assert (Hweak : ∀ tried lastErr, triple find_step (eq None) (find_aid i aids tried lastErr)
    (λ r s, s = None ∧ match r with inl aid' => aid' ∈ aid :: aids | inr _ => True end)).
  { intros tr le. eapply triple_conseq; [apply IH|done|]. intros [r|r] s [-> Hr]; split; try done. set_solver. }
  destruct opened as [e|]; cbn [bind]; [apply Hweak|].
  apply triple_next. intros profiles. eexists. split; [reflexivity|]. cbn [bind ask].
  apply triple_next. intros closed. eexists. split; [reflexivity|]. cbn [bind].
  destruct profiles as [profiles|e]; [|apply Hweak]. destruct (existsb _ profiles); [|apply Hweak].
  apply triple_done. set_solver.
Qed.

Lemma find_aid_listed i aids tried lastErr t aid :
  exec (find_aid i aids tried lastErr) t (inl aid) →
  ∃ t1 t2 profiles, t = (t1 ++ [mkExchange (CreateLPA aid) None; mkExchange ListBasicProfiles (inl profiles)] ++ t2)%list ∧ i ∈ profiles.
Proof.
  revert tried lastErr t. induction aids as [|a aids IH]; intros tried lastErr t; cbn [find_aid]; [by intros [_ ?]|].
  unfold createLPAWithAID. cbn [bind ask exec]. intros (opened & t1 & -> & Hx).
  assert (Hlater : ∀ tried lastErr t0 t, exec (find_aid i aids tried lastErr) t (inl aid) →
    ∃ t1 t2 profiles, (t0 ++ t)%list = (t1 ++ [mkExchange (CreateLPA aid) None; mkExchange ListBasicProfiles (inl profiles)] ++ t2)%list ∧ i ∈ profiles).
  { intros tr le t0 t (t2 & t3 & ps & -> & Hin)%IH. exists (t0 ++ t2)%list, t3, ps. by rewrite <-app_assoc. }
  destruct opened as [e|]; cbn [bind] in Hx; [by apply (Hlater _ _ [_] _ Hx)|].
  destruct Hx as (profiles & t2 & -> & closed & t3 & -> & Hx).
  destruct profiles as [profiles|e]; cbn [bind] in Hx; [|by apply (Hlater _ _ [_; _; _] _ Hx)].
  destruct (existsb _ profiles) eqn:Hp; cbn [exec] in Hx; [|by apply (Hlater _ _ [_; _; _] _ Hx)].
  destruct Hx as [-> [= ->]]. apply existsb_exists in Hp as (p & Hin & ->%String.eqb_eq).
  exists [], [mkExchange (CloseLPA "find_aid_for_iccid") closed], profiles. split; [done|]. by apply list_elem_of_In.
Qed.
