(* ===== verification/EsimCache.v ===== *)
(** * The overview that the manager keeps (internal/esim/manager.go)

    What was read of the chips of a card and their profiles is kept under
    [cacheMu]; each operation below is one section under that lock, from the
    state before to the state after.  A load reads the generation, then the card
    without the lock, and stores what it read if the generation is the same.

    A slice of Go that is nil and an empty one are both the empty list.  Pointers
    are not modelled: [cachedOverview] hands out the overview itself, which
    [patchCachedActiveProfile] writes in place.  The states of the SGP.22 library
    are parameters. *)

From Stdlib Require Import Ascii String.
From S2P Require Import Prelude GoText SmsCodec SimIdentity EsimErrors EsimScan.
From stdpp Require Import strings.

#[local] Open Scope Z_scope.
#[local] Open Scope string_scope.

Record ProfileItem := mkProfile {
  ICCID : string; Name : string; ServiceProviderName : string; State : Z; StateText : string; ClassText : string;
  DisablingNotAllowed : bool; DeletionNotAllowed : bool }.

Record EUICCProfiles := mkGroup { g_EID : string; g_AIDHex : string; Profiles : list ProfileItem }.

Record EUICCChipInfo := mkChip { EIDs : list EUICCInfo; SkuName : string; SerialNumber : string; c_Firmware : string }.

Record EsimOverview := mkOverview { ChipInfo : option EUICCChipInfo; o_Profiles : list EUICCProfiles }.

(** A profile as the SGP.22 library lists it, by the fields that the code reads. *)
Record ProfileInfo := mkProfileInfo {
  i_ICCID : string; i_Nickname : string; i_Name : string; i_ServiceProviderName : string; i_State : Z; i_Class : string;
  i_DisablingNotAllowed : bool; i_DeletionNotAllowed : bool }.

(** The fields of the manager under [cacheMu]; a time is in nanoseconds, and the
    zero time is [None]. *)
Record cache := mkCache {
  overviewCache : option EsimOverview; overviewLastErr : option error; overviewReloading : bool; overviewGeneration : Z;
  chipInfoCache : option EUICCChipInfo; discoveredEUICCs : list EUICCInfo; suppressOverviewReloadUntil : option Z }.

Definition normalizeICCIDValue (s : string) : string := CanonicalICCID s.

Definition isTargetICCIDActive (targetICCID currentICCID : string) : bool :=
  let target := normalizeICCIDValue targetICCID in
  let current := normalizeICCIDValue currentICCID in
  bool_decide (target ≠ "") && bool_decide (current ≠ "") && bool_decide (target = current).

Definition hasReusableChipProductInfo (info : option EUICCChipInfo) : bool :=
  match info with
  | None => false
  | Some info => bool_decide (TrimSpace (SkuName info) ≠ "") || bool_decide (TrimSpace (SerialNumber info) ≠ "")
  end.

(** ** The generation *)

Definition cachedOverview (c : cache) : option EsimOverview := overviewCache c.

Definition setOverviewCache (overview : option EsimOverview) (err : option error) (generation : Z) (c : cache) : cache :=
  if bool_decide (generation ≠ overviewGeneration c) then c
  else mkCache overview err (overviewReloading c) (overviewGeneration c)
         (match overview with Some o => ChipInfo o | None => chipInfoCache c end) (discoveredEUICCs c) (suppressOverviewReloadUntil c).

Definition invalidateOverviewCache (c : cache) : cache :=
  mkCache None None (overviewReloading c) (u64 (overviewGeneration c + 1)) None (discoveredEUICCs c) (suppressOverviewReloadUntil c).

Definition clearHardwareDiscoveryCachesLocked (c : cache) : cache :=
  mkCache None None (overviewReloading c) (u64 (overviewGeneration c + 1)) None [] (suppressOverviewReloadUntil c).

(** ** Suppressed reloads *)

Definition shouldSuppressOverviewReload (now : Z) (c : cache) : bool :=
  match suppressOverviewReloadUntil c with None => false | Some until => bool_decide (now < until) end.

Definition overviewReloadDelay (now : Z) (c : cache) : Z :=
  match suppressOverviewReloadUntil c with
  | None => 0
  | Some until => let delay := until - now in if bool_decide (delay < 0) then 0 else delay
  end.

Definition beginOverviewReloadSuppression (delay now : Z) (c : cache) : cache :=
  if bool_decide (delay <= 0) then c
  else
    let until := now + delay in
    match suppressOverviewReloadUntil c with
    | Some old =>
        if bool_decide (old < until)
        then mkCache (overviewCache c) (overviewLastErr c) (overviewReloading c) (overviewGeneration c) (chipInfoCache c) (discoveredEUICCs c) (Some until)
        else c
    | None => mkCache (overviewCache c) (overviewLastErr c) (overviewReloading c) (overviewGeneration c) (chipInfoCache c) (discoveredEUICCs c) (Some until)
    end.

Definition beginSwitchOverviewSuppression (now : Z) (c : cache) : cache := beginOverviewReloadSuppression (5 * 10 ^ 9) now c.

(** [triggerOverviewReload]: whether a reload was started in the background;
    [reload_ended] is what it does at its end. *)
Definition set_reloading (b : bool) (c : cache) : cache :=
  mkCache (overviewCache c) (overviewLastErr c) b (overviewGeneration c) (chipInfoCache c) (discoveredEUICCs c) (suppressOverviewReloadUntil c).
Definition triggerOverviewReload (c : cache) : bool * cache :=
  if overviewReloading c then (false, c) else (true, set_reloading true c).
Definition reload_ended (c : cache) : cache := set_reloading false c.

(** ** Loading *)

(** Before the card is read: the cached overview, or the generation to keep. *)
Definition load_begin (c : cache) : EsimOverview + Z :=
  match cachedOverview c with Some o => inl o | None => inr (overviewGeneration c) end.

(** Afterwards, with what the loader returned. *)
Definition load_end (generation : Z) (loaded : EsimOverview + error) (c : cache) : cache * (EsimOverview + error) :=
  match loaded with
  | inl o => (setOverviewCache (Some o) None generation c, inl o)
  | inr e =>
      if Is e ErrNoEUICC then
        let empty := mkOverview None [] in (setOverviewCache (Some empty) None generation c, inl empty)
      else (setOverviewCache None (Some e) generation c, inr e)
  end.

(** [RefreshProfiles], after its loader returned these profiles. *)
Definition refresh_profiles (profiles : list EUICCProfiles) (c : cache) : cache :=
  mkCache (Some (mkOverview (match overviewCache c with Some o => ChipInfo o | None => None end) profiles)) None
    (overviewReloading c) (overviewGeneration c) (chipInfoCache c) (discoveredEUICCs c) (suppressOverviewReloadUntil c).

(** [RefreshOverview], when no reload is in progress, up to its load; and what
    it does when that returned an overview. *)
Definition refresh_overview (c : cache) : cache :=
  mkCache None None (overviewReloading c) (u64 (overviewGeneration c + 1))
    (if hasReusableChipProductInfo (chipInfoCache c) then chipInfoCache c else None) [] (suppressOverviewReloadUntil c).
Definition refresh_overview_end (o : EsimOverview) (c : cache) : cache :=
  match ChipInfo o with
  | Some _ => c
  | None => mkCache (overviewCache c) (overviewLastErr c) (overviewReloading c) (overviewGeneration c) None (discoveredEUICCs c) (suppressOverviewReloadUntil c)
  end.

Definition GetEUICCChipInfo_cached (forceRefresh : bool) (c : cache) : option EUICCChipInfo :=
  if forceRefresh then None else chipInfoCache c.

(** ** Indications *)

Definition NotifyUIMIndication (now : Z) (c : cache) : bool * cache :=
  if shouldSuppressOverviewReload now c then (false, c) else triggerOverviewReload (invalidateOverviewCache c).

Definition NotifyModemReset (now : Z) (c : cache) : bool * cache :=
  let c := clearHardwareDiscoveryCachesLocked c in
  if shouldSuppressOverviewReload now c then (false, c) else triggerOverviewReload c.

Definition NotifyModemResetDelayed (delay now : Z) (c : cache) : bool * cache :=
  let c := clearHardwareDiscoveryCachesLocked c in
  if shouldSuppressOverviewReload now c then (false, c)
  else triggerOverviewReload (if bool_decide (0 < delay) then beginOverviewReloadSuppression delay now c else c).

(** ** Lookups *)

Definition all_profiles (o : EsimOverview) : list ProfileItem := List.concat (Profiles <$> o_Profiles o).

Definition ActiveProfileName (c : cache) : string :=
  match cachedOverview c with
  | None => ""
  | Some o => match list_find (λ p, State p = 1) (all_profiles o) with Some (_, p) => TrimSpace (Name p) | None => "" end
  end.

Definition CachedProfileGroups (c : cache) : list EUICCProfiles :=
  match cachedOverview c with Some o => o_Profiles o | None => [] end.

Definition LookupProfilePPR (iccid : string) (c : cache) : bool * bool :=
  let target := normalizeICCIDValue iccid in
  if bool_decide (target = "") then (false, false)
  else match list_find (λ p, normalizeICCIDValue (ICCID p) = target) (List.concat (Profiles <$> CachedProfileGroups c)) with
       | Some (_, p) => (DisablingNotAllowed p, true)
       | None => (false, false)
       end.

Definition ProfileDisablingNotAllowed (iccid : string) (c : cache) : bool := (LookupProfilePPR iccid c).1.

Definition CachedProfileNameForICCID (iccid : string) (c : cache) : string * bool :=
  match cachedOverview c with
  | None => ("", false)
  | Some o =>
      let target := normalizeICCIDValue iccid in
      match list_find (λ p, normalizeICCIDValue (ICCID p) = target ∧ target ≠ "") (all_profiles o) with
      | Some (_, p) => (TrimSpace (Name p), true)
      | None => ("", false)
      end
  end.

Section Cache.
Context (unicode_upper : string → string) (GSMAISDRApplicationAID : bytes) (ProfileEnabled ProfileDisabled : Z).

Notation key s := (ToUpper unicode_upper (TrimSpace s)).

Definition buildProfileGroup (eidStr : string) (aid : bytes) (profiles : list ProfileInfo) : EUICCProfiles :=
  mkGroup eidStr (HexUpper aid)
    ((λ p, mkProfile (i_ICCID p) (if bool_decide (i_Nickname p = "") then i_Name p else i_Nickname p) (i_ServiceProviderName p)
             (i_State p) (if bool_decide (i_State p = ProfileEnabled) then "已启用" else "已禁用") (i_Class p)
             (i_DisablingNotAllowed p) (i_DeletionNotAllowed p)) <$> profiles).

Definition sortEUICCProfilesStable (groups : list EUICCProfiles) : list EUICCProfiles :=
  sort_stable (λ a b, before unicode_upper GSMAISDRApplicationAID (g_AIDHex a) (g_EID a) (g_AIDHex b) (g_EID b)) groups.

Definition cachedEIDForAID (aidHex : string) (c : cache) : string :=
  let aidHex := key aidHex in
  if bool_decide (aidHex = "") then ""
  else
    match list_find (λ g, key (g_AIDHex g) = aidHex) (CachedProfileGroups c) with
    | Some (_, g) => g_EID g
    | None =>
        match chipInfoCache c with
        | Some chip => match list_find (λ i, key (AIDHex i) = aidHex) (EIDs chip) with Some (_, i) => EID i | None => "" end
        | None => ""
        end
    end.

(** The first group of the application is replaced, and keeps its identifier
    when the new one has none. *)
Fixpoint replace_group (aidHex : string) (group : EUICCProfiles) (groups : list EUICCProfiles) : list EUICCProfiles :=
  match groups with
  | [] => [group]
  | g :: groups =>
      if bool_decide (key (g_AIDHex g) = aidHex)
      then mkGroup (if bool_decide (g_EID group = "") then g_EID g else g_EID group) (g_AIDHex group) (Profiles group) :: groups
      else g :: replace_group aidHex group groups
  end.

Definition replaceCachedProfileGroup (group : EUICCProfiles) (c : cache) : cache :=
  let aidHex := key (g_AIDHex group) in
  if bool_decide (aidHex = "") then c
  else
    let o := default (mkOverview None []) (overviewCache c) in
    mkCache (Some (mkOverview (ChipInfo o) (sortEUICCProfilesStable (replace_group aidHex group (o_Profiles o))))) None
      (overviewReloading c) (overviewGeneration c) (chipInfoCache c) (discoveredEUICCs c) (suppressOverviewReloadUntil c).

(** ** The profile that a switch made active *)

(** Whether a group holds the target: first among those of the application,
    then among all. *)
Definition holds (target : string) (g : EUICCProfiles) : bool := existsb (λ p, isTargetICCIDActive target (ICCID p)) (Profiles g).
Definition target_group (target groupKey : string) (groups : list EUICCProfiles) : bool :=
  existsb (λ g, (bool_decide (groupKey = "") || bool_decide (key (g_AIDHex g) = groupKey)) && holds target g) groups
  || existsb (holds target) groups.

Definition patch_profile (target : string) (p : ProfileItem) : ProfileItem :=
  let '(state, text) := if isTargetICCIDActive target (ICCID p) then (ProfileEnabled, "已启用") else (ProfileDisabled, "已禁用") in
  mkProfile (ICCID p) (Name p) (ServiceProviderName p) state text (ClassText p) (DisablingNotAllowed p) (DeletionNotAllowed p).

Definition patch_group (target : string) (g : EUICCProfiles) : EUICCProfiles :=
  mkGroup (g_EID g) (g_AIDHex g) (patch_profile target <$> Profiles g).

Definition patchCachedActiveProfile (targetICCID aidHex : string) (c : cache) : bool * cache :=
  match overviewCache c with
  | None => (false, c)
  | Some o =>
      let target := normalizeICCIDValue targetICCID in
      if bool_decide (target = "") then (false, c)
      else if negb (target_group target (key aidHex) (o_Profiles o)) then (false, c)
      else
        let patched := existsb (holds target) (o_Profiles o) in
        (patched,
         mkCache (Some (mkOverview (ChipInfo o) (patch_group target <$> o_Profiles o)))
           (if patched then None else overviewLastErr c)
           (overviewReloading c) (overviewGeneration c) (chipInfoCache c) (discoveredEUICCs c) (suppressOverviewReloadUntil c))
  end.
End Cache.

(** ** Proofs *)

Section Proofs.
Context (unicode_upper : string → string) (GSMAISDRApplicationAID : bytes) (ProfileEnabled ProfileDisabled : Z).

Notation patch := (patchCachedActiveProfile unicode_upper ProfileEnabled ProfileDisabled).

Lemma existsb_concat {A B} (f : B → bool) (g : A → list B) (l : list A) :
  existsb f (List.concat (g <$> l)) = existsb (λ a, existsb f (g a)) l.
Proof. induction l as [|a l IH]; [done|]. cbn. by rewrite existsb_app, IH. Qed.

(** The profile of a canonical target is recognised by its canonical form. *)
Lemma active_canonical target current :
  CanonicalICCID target = target → target ≠ "" →
  isTargetICCIDActive target current = bool_decide (normalizeICCIDValue current = target).
Proof.
  intros Ht Hne. unfold isTargetICCIDActive, normalizeICCIDValue. rewrite Ht, (bool_decide_eq_true_2 (target ≠ "")) by done.
  destruct (decide (CanonicalICCID current = target)) as [->|Hd].
  - by rewrite !bool_decide_eq_true_2.
  - rewrite (bool_decide_eq_false_2 (target = CanonicalICCID current)) by congruence.
    rewrite (bool_decide_eq_false_2 (CanonicalICCID current = target)) by done. by rewrite andb_false_r.
Qed.

Lemma target_group_holds target groupKey groups :
  target_group unicode_upper target groupKey groups = existsb (holds target) groups.
Proof.
  unfold target_group. destruct (existsb (holds target) groups) eqn:Hh; [by rewrite orb_true_r|]. rewrite orb_false_r.
  apply not_true_is_false. intros (g & Hin & [_ Hg]%andb_true_iff)%existsb_exists.
  apply not_true_iff_false in Hh. apply Hh. apply existsb_exists. eauto.
Qed.

Lemma patch_profiles target groups :
  List.concat (Profiles <$> (patch_group ProfileEnabled ProfileDisabled target <$> groups)) =
  patch_profile ProfileEnabled ProfileDisabled target <$> List.concat (Profiles <$> groups).
Proof. induction groups as [|g groups IH]; [done|]. rewrite !fmap_cons. cbn [List.concat]. rewrite fmap_app. by f_equal. Qed.

(** A search that looks at nothing but what [f] keeps finds the same element. *)
Lemma list_find_kept {A} (P Q : A → Prop) `{∀ a, Decision (P a), ∀ a, Decision (Q a)} (f : A → A) (l : list A) :
  (∀ a, P (f a) ↔ Q a) → list_find P (f <$> l) = prod_map id f <$> list_find Q l.
Proof.
  intros HPQ. rewrite list_find_fmap. f_equal. induction l as [|a l IH]; [done|]. cbn. unfold compose.
  destruct (decide (P (f a))) as [Hp|Hp], (decide (Q a)) as [Hq|Hq]; try done; [by apply HPQ in Hp|by apply HPQ in Hq|].
  unfold compose in IH. by rewrite IH.
Qed.

Lemma patch_keeps target p :
  ICCID (patch_profile ProfileEnabled ProfileDisabled target p) = ICCID p ∧
  Name (patch_profile ProfileEnabled ProfileDisabled target p) = Name p ∧
  DisablingNotAllowed (patch_profile ProfileEnabled ProfileDisabled target p) = DisablingNotAllowed p.
Proof. unfold patch_profile. by destruct (isTargetICCIDActive _ _). Qed.

Lemma patch_state target p :
  ProfileEnabled = 1 → ProfileDisabled ≠ 1 →
  State (patch_profile ProfileEnabled ProfileDisabled target p) = 1 ↔ isTargetICCIDActive target (ICCID p) = true.
Proof. intros He Hd. unfold patch_profile. destruct (isTargetICCIDActive _ _); cbn; split; congruence. Qed.

(** Two caches of which the second holds the patched profiles of the first. *)
Section Patched.
Context (target : string) (o : EsimOverview) (c c' : cache).
Hypothesis before_patch : overviewCache c = Some o.
Hypothesis after_patch :
  overviewCache c' = Some (mkOverview (ChipInfo o) (patch_group ProfileEnabled ProfileDisabled target <$> o_Profiles o)).

Lemma patched_name iccid : CachedProfileNameForICCID iccid c' = CachedProfileNameForICCID iccid c.
Proof.
  unfold CachedProfileNameForICCID, cachedOverview. rewrite before_patch, after_patch. unfold all_profiles. cbn [o_Profiles].
  rewrite patch_profiles, (list_find_kept _ (λ p, normalizeICCIDValue (ICCID p) = normalizeICCIDValue iccid ∧ normalizeICCIDValue iccid ≠ "")).
  - destruct (list_find _ _) as [[n p]|]; [|done]. cbn. by rewrite (proj1 (proj2 (patch_keeps target p))).
  - intros p. by rewrite (proj1 (patch_keeps target p)).
Qed.

Lemma patched_ppr iccid : LookupProfilePPR iccid c' = LookupProfilePPR iccid c.
Proof.
  unfold LookupProfilePPR, CachedProfileGroups, cachedOverview. rewrite before_patch, after_patch. cbn [o_Profiles]. case_bool_decide; [done|].
  rewrite patch_profiles, (list_find_kept _ (λ p, normalizeICCIDValue (ICCID p) = normalizeICCIDValue iccid)).
  - destruct (list_find _ _) as [[n p]|]; [|done]. cbn. by rewrite (proj2 (proj2 (patch_keeps target p))).
  - intros p. by rewrite (proj1 (patch_keeps target p)).
Qed.

Lemma patched_active iccid :
  ProfileEnabled = 1 → ProfileDisabled ≠ 1 → CanonicalICCID target = target → target ≠ "" → CanonicalICCID iccid = target →
  ActiveProfileName c' = (CachedProfileNameForICCID iccid c).1.
Proof.
  intros He Hd Ht Hne Hi. unfold ActiveProfileName, CachedProfileNameForICCID, cachedOverview. rewrite before_patch, after_patch.
  unfold all_profiles. cbn [o_Profiles]. change (normalizeICCIDValue iccid) with (CanonicalICCID iccid). rewrite Hi.
  rewrite patch_profiles, (list_find_kept _ (λ p, normalizeICCIDValue (ICCID p) = target ∧ target ≠ "")).
  - destruct (list_find _ _) as [[n p]|]; [|done]. cbn. by rewrite (proj1 (proj2 (patch_keeps target p))).
  - intros p. rewrite patch_state, active_canonical, bool_decide_eq_true by done. by intuition.
Qed.
End Patched.

(** Whether the overview holds the target is whether its name is known. *)
Lemma holds_target target iccid o c :
  overviewCache c = Some o → CanonicalICCID target = target → target ≠ "" → CanonicalICCID iccid = target →
  existsb (holds target) (o_Profiles o) = (CachedProfileNameForICCID iccid c).2.
Proof.
  intros Ho Ht Hne Hi. unfold CachedProfileNameForICCID, cachedOverview. rewrite Ho.
  change (normalizeICCIDValue iccid) with (CanonicalICCID iccid). rewrite Hi.
  unfold holds, all_profiles. rewrite <-existsb_concat. generalize (List.concat (Profiles <$> o_Profiles o)). intros l.
  induction l as [|p l IH]; [done|]. cbn. rewrite active_canonical by done.
  destruct (decide (normalizeICCIDValue (ICCID p) = target)) as [Hp|Hp].
  - rewrite bool_decide_eq_true_2 by done. by rewrite decide_True by done.
  - rewrite bool_decide_eq_false_2 by done. rewrite decide_False by naive_solver. cbn [orb]. rewrite IH.
    by destruct (list_find _ l) as [[]|].
Qed.

(** After a switch was patched into the overview, the profile that is shown
    as active is the one that the card's identity names: the name of the active
    profile and the name that belongs to the target are the same.  The overview
    is patched exactly when it holds the target; otherwise nothing changes, and
    in both cases no other lookup does, nor the generation. *)
Theorem patched_profile_active targetICCID aidHex c :
  ProfileEnabled = 1 → ProfileDisabled ≠ 1 →
  let target := CanonicalICCID targetICCID in
  CanonicalICCID target = target → target ≠ "" →
  let '(patched, c') := patch targetICCID aidHex c in
  patched = (CachedProfileNameForICCID targetICCID c).2 ∧
  (if patched then (ActiveProfileName c', true) = CachedProfileNameForICCID targetICCID c' else c' = c) ∧
  (∀ iccid, CachedProfileNameForICCID iccid c' = CachedProfileNameForICCID iccid c ∧ LookupProfilePPR iccid c' = LookupProfilePPR iccid c) ∧
  overviewGeneration c' = overviewGeneration c.
Proof.
  intros He Hd target Ht Hne. unfold patchCachedActiveProfile. destruct (overviewCache c) as [o|] eqn:Ho.
  2:{ unfold CachedProfileNameForICCID, cachedOverview. rewrite Ho. split_and!; done. }
  change (normalizeICCIDValue targetICCID) with target. rewrite (bool_decide_eq_false_2 (target = "")) by done.
  rewrite target_group_holds, (holds_target target targetICCID o c) by done.
  destruct (CachedProfileNameForICCID targetICCID c) as [name found] eqn:Hname. cbn [snd].
  destruct found; cbn [negb]; [|by split_and!].
  set (c' := mkCache _ _ _ _ _ _ _).
  assert (Hc : overviewCache c' = Some (mkOverview (ChipInfo o) (patch_group ProfileEnabled ProfileDisabled target <$> o_Profiles o))) by done.
  split_and!; [done| |intros iccid; split; [by eapply patched_name|by eapply patched_ppr]|done].
  rewrite (patched_name target o c c' Ho Hc), Hname. f_equal.
  rewrite (patched_active target o c c' Ho Hc targetICCID), Hname by done. done.
Qed.

(** ** Loads and generations *)

(** What may happen to the overview while a load reads the card. *)
Inductive event :=
  | Invalidated | ModemReset | RefreshBegun
  | Suppressed (delay now : Z) | ReloadTriggered | ReloadEnded
  | Patched (targetICCID aidHex : string) | GroupReplaced (g : EUICCProfiles) | ProfilesRefreshed (l : list EUICCProfiles)
  | Loaded (generation : Z) (loaded : EsimOverview + error).

Definition apply (e : event) (c : cache) : cache :=
  match e with
  | Invalidated => invalidateOverviewCache c
  | ModemReset => clearHardwareDiscoveryCachesLocked c
  | RefreshBegun => refresh_overview c
  | Suppressed delay now => beginOverviewReloadSuppression delay now c
  | ReloadTriggered => (triggerOverviewReload c).2
  | ReloadEnded => reload_ended c
  | Patched t a => (patch t a c).2
  | GroupReplaced g => replaceCachedProfileGroup unicode_upper GSMAISDRApplicationAID g c
  | ProfilesRefreshed l => refresh_profiles l c
  | Loaded g loaded => (load_end g loaded c).1
  end.

Definition outdates (e : event) : bool := match e with Invalidated | ModemReset | RefreshBegun => true | _ => false end.
Definition outdated (l : list event) : Z := Z.of_nat (length (filter (λ e, outdates e = true) l)).

Lemma setOverviewCache_generation o err g c : overviewGeneration (setOverviewCache o err g c) = overviewGeneration c.
Proof. unfold setOverviewCache. by case_bool_decide. Qed.

Lemma apply_generation e c :
  overviewGeneration (apply e c) = if outdates e then u64 (overviewGeneration c + 1) else overviewGeneration c.
Proof.
  destruct e as [| | |d n| | |t a|g|l|g [o|er]]; cbn [apply outdates]; try done.
  - unfold beginOverviewReloadSuppression. repeat case_bool_decide; try done. destruct (suppressOverviewReloadUntil c); [|done]. by case_bool_decide.
  - unfold triggerOverviewReload. by destruct (overviewReloading c).
  - unfold patchCachedActiveProfile. destruct (overviewCache c); [|done]. case_bool_decide; [done|]. by destruct (negb _).
  - unfold replaceCachedProfileGroup. by case_bool_decide.
  - cbn. apply setOverviewCache_generation.
  - cbn. destruct (Is er ErrNoEUICC); apply setOverviewCache_generation.
Qed.

Lemma run_generation l c :
  0 <= overviewGeneration c < 2 ^ 64 →
  overviewGeneration (foldl (λ c e, apply e c) c l) = u64 (overviewGeneration c + outdated l).
Proof.
  unfold outdated. revert c. induction l as [|e l IH]; intros c Hc; cbn [foldl].
  - cbn. unfold u64. rewrite Z.add_0_r, Z.mod_small; lia.
  - rewrite IH, apply_generation, filter_cons.
    + destruct (outdates e); [rewrite decide_True by done|rewrite decide_False by done]; [|done].
      unfold u64. rewrite Zplus_mod_idemp_l. f_equal. cbn [length]. lia.
    + rewrite apply_generation. destruct (outdates e); [apply Z.mod_pos_bound; lia|done].
Qed.

(** A load stores what it read exactly when the overview was not invalidated
    while the card was read.  If it was, by an indication, a reset of the modem
    or a refresh, fewer than 2^64 times, then what the load read changes nothing;
    if it was not, the overview is what the load returns. *)
Theorem stale_load_dropped l c loaded :
  0 <= overviewGeneration c < 2 ^ 64 → outdated l < 2 ^ 64 →
  let now := foldl (λ c e, apply e c) c l in
  let '(c', r) := load_end (overviewGeneration c) loaded now in
  if bool_decide (0 < outdated l) then c' = now
  else overviewGeneration c' = overviewGeneration c ∧
       match r with inl o => overviewCache c' = Some o ∧ overviewLastErr c' = None | inr e => overviewCache c' = None ∧ overviewLastErr c' = Some e end.
Proof.
  intros Hc Hl now. pose proof (run_generation l c Hc) as Hg. fold now in Hg.
  assert (Hset : ∀ o err, setOverviewCache o err (overviewGeneration c) now =
    if bool_decide (0 < outdated l) then now
    else mkCache o err (overviewReloading now) (overviewGeneration now) (match o with Some o => ChipInfo o | None => chipInfoCache now end)
           (discoveredEUICCs now) (suppressOverviewReloadUntil now)).
  { intros o err. unfold setOverviewCache. rewrite Hg. assert (0 <= outdated l) by (unfold outdated; lia). unfold u64.
    destruct (decide (0 < outdated l)) as [Hpos|Hzero].
    - rewrite !bool_decide_eq_true_2; [done|done|].
      destruct (decide (overviewGeneration c + outdated l < 2 ^ 64)).
      + rewrite Z.mod_small by lia. lia.
      + replace (overviewGeneration c + outdated l) with (overviewGeneration c + outdated l - 2 ^ 64 + 1 * 2 ^ 64) by lia.
        rewrite Z.mod_add, Z.mod_small by lia. lia.
    - rewrite !bool_decide_eq_false_2; [done|done|]. assert (outdated l = 0) as -> by lia. rewrite Z.add_0_r, Z.mod_small by lia. by intros []. }
  unfold load_end. destruct loaded as [o|e]; [|destruct (Is e ErrNoEUICC)]; rewrite Hset; case_bool_decide as Hp; try done;
    (assert (Hz : outdated l = 0) by (unfold outdated in *; lia));
    (split; [cbn [overviewGeneration]; rewrite Hg, Hz, Z.add_0_r; unfold u64; by rewrite Z.mod_small|done]).
Qed.
End Proofs.

Definition demo_profile (iccid name : string) (state : Z) : ProfileItem := mkProfile iccid name "" state "" "" false false.
Definition demo_cache : cache :=
  mkCache (Some (mkOverview None [mkGroup "89" "A0" [demo_profile "89860012345678901234" "old" 1; demo_profile "89440012345678901234" "new" 0]]))
    None false 3 None [] None.

Lemma patched_profile_active_witness :
  let '(patched, c') := patchCachedActiveProfile id 1 0 "89440012345678901234" "A0" demo_cache in
  patched = (CachedProfileNameForICCID "89440012345678901234" demo_cache).2 ∧
  (if patched then (ActiveProfileName c', true) = CachedProfileNameForICCID "89440012345678901234" c' else c' = demo_cache) ∧
  (∀ iccid, CachedProfileNameForICCID iccid c' = CachedProfileNameForICCID iccid demo_cache ∧ LookupProfilePPR iccid c' = LookupProfilePPR iccid demo_cache) ∧
  overviewGeneration c' = overviewGeneration demo_cache.
Proof.
  apply (patched_profile_active id 1 0 "89440012345678901234" "A0" demo_cache); [reflexivity|discriminate|vm_compute; reflexivity|vm_compute; discriminate].
Defined.

Lemma stale_load_dropped_witness :
  let now := foldl (λ c e, apply id [] 1 0 e c) demo_cache [Suppressed 5 0; ModemReset] in
  (load_end 3 (inl (mkOverview None [])) now).1 = now.
Proof.
  exact (stale_load_dropped id [] 1 0 [Suppressed 5 0; ModemReset] demo_cache (inl (mkOverview None []))
    (conj (proj1 (Z.leb_le 0 3) eq_refl) eq_refl) eq_refl).
Defined.

(** ** Two loads that the generation does not stop *)

(** A refresh of the profiles that began before the modem was reset stores the
    profiles of the card that is gone. *)
Lemma refresh_outlives_reset profiles now c :
  CachedProfileGroups (refresh_profiles profiles (NotifyModemReset now c).2) = profiles.
Proof. done. Qed.

(** A switch does not outdate a load: with no overview yet it patches nothing,
    and a load that read the profiles before it stores the profile that was
    active then; for five seconds the indications of the card do not correct
    it. *)
Lemma switch_shows_old_profile (o : EsimOverview) now g :
  let empty := mkCache None None false g None [] None in
  let switched := (patchCachedActiveProfile id 1 0 "89440012345678901234" "A0" (beginSwitchOverviewSuppression now empty)).2 in
  load_begin empty = inr g ∧
  let c := (load_end g (inl o) switched).1 in
  cachedOverview c = Some o ∧ ∀ later, later < now + 5 * 10 ^ 9 → NotifyUIMIndication later c = (false, c).
Proof.
  intros empty switched. assert (switched = mkCache None None false g None [] (Some (now + 5 * 10 ^ 9))) as -> by reflexivity.
  split; [done|]. unfold load_end, setOverviewCache. cbn [overviewGeneration fst]. rewrite bool_decide_eq_false_2 by (intros []; done).
  split; [done|]. intros later Hl. unfold NotifyUIMIndication, shouldSuppressOverviewReload. cbn [suppressOverviewReloadUntil].
  by rewrite bool_decide_eq_true_2 by done.
Qed.
