(* ===== verification/EsimTransport.v ===== *)
(** * The way of an APDU to the chip (internal/esim)

    The coordinator of apdu_coordinator.go, the two transports that share it
    (qmi_uim_transport.go and mbim_apdu_transport.go), and the logical channel of
    qmi_channel.go on top of either, as programs.  Requests go to the arbiter, to
    the mutexes, to the registry of sessions and to the driver of the card;
    [defer] is what a program does on its way out, the last first.

    The driver of a card is a parameter: it answers what it likes. *)

From Stdlib Require Import Ascii String.
From S2P Require Import Prelude GoText SmsCodec Arbiter Interaction EsimErrors.
From stdpp Require Import strings gmap.

#[local] Open Scope Z_scope.
#[local] Open Scope string_scope.

Inductive request :=
  | AcquireTransport (req : Request) (timeout : Z) | ReleaseLease | TouchLease
  | LockChannel (channel : Z) | UnlockChannel (channel : Z)
  | BindSession (channel : Z) (owner : string) | HasSession (channel : Z) | TakeSession (channel : Z)
  | GetUIM
  | CardOpen (aid : bytes) | CardClose (channel : Z) | CardSend (channel : Z) (command : bytes).

#[global] Instance transport_answer : Requests request := λ c,
  match c with
  | AcquireTransport _ _ | GetUIM | CardClose _ => option error
  | HasSession _ => bool
  | CardOpen _ => (Z + error)%type
  | CardSend _ _ => (bytes + error)%type
  | _ => unit
  end.

(** ** apdu_coordinator.go *)

Record apduCoordinator := mkCoord { mode : string; arbiter : bool }.

(** [Left] is whether there is a lease to release. *)
Definition acquireLease (c : apduCoordinator) (timeout : Z) (owner class : string) (channel : Z) (scope : string) : prog request (bool + error) :=
  if negb (arbiter c) then Ret (inl false)
  else
    let timeout := if bool_decide (timeout <= 0) then 10 else timeout in
    let? r := ask (AcquireTransport (mkRequest (TrimSpace owner) (mode c) class channel scope) timeout) in
    match r with Some e => Ret (inr e) | None => Ret (inl true) end.

Definition touch (held : bool) : prog request unit := if held then ask TouchLease else Ret tt.

(** [if lease != nil { defer lease.Release() }] around a body. *)
Definition with_lease {A} (c : apduCoordinator) (owner class : string) (channel : Z) (scope : string)
    (failed : error → A) (body : bool → prog request A) : prog request A :=
  let? r := acquireLease c 10 owner class channel scope in
  match r with
  | inr e => Ret (failed e)
  | inl held =>
      let? _ := touch held in
      let? a := body held in
      let? _ := (if held then ask ReleaseLease else Ret tt) in
      Ret a
  end.

(** [mu.Lock(); defer mu.Unlock()] around a body. *)
Definition with_channel {A} (channel : Z) (body : prog request A) : prog request A :=
  let? _ := ask (LockChannel channel) in
  let? a := body in
  let? _ := ask (UnlockChannel channel) in
  Ret a.

(** The transport that a logical channel uses. *)
Record QMIAPDUTransport := mkTransport {
  OpenEUICCLogicalChannel : bytes → prog request (Z + error);
  CloseEUICCLogicalChannel : Z → prog request (option error);
  TransmitEUICCAPDU : Z → bytes → prog request (bytes + error) }.

Definition exclusive : string := TransportScopeExclusive.

(** ** qmi_uim_transport.go *)
Module QMI.
Definition coord (arbitrated : bool) : apduCoordinator := mkCoord "QMI" arbitrated.

(** [uim, err := t.getUIM()] *)
Definition with_uim {A} (failed : error → A) (body : prog request A) : prog request A :=
  let? r := ask GetUIM in
  match r with Some e => Ret (failed e) | None => body end.

Definition OpenEUICCLogicalChannel (arbitrated : bool) (aid : bytes) : prog request (Z + error) :=
  with_lease (coord arbitrated) "esim_session_open" APDUClassEUICCWrite 0 exclusive inr (λ held,
    with_channel 0 (with_uim inr (
      let? r := ask (CardOpen aid) in
      match r with
      | inr e => Ret (inr e)
      | inl channel =>
          let? _ := touch held in
          let? _ := ask (BindSession channel "esim") in
          Ret (inl channel)
      end))).

Definition CloseEUICCLogicalChannel (arbitrated : bool) (channel : Z) : prog request (option error) :=
  let? _ := ask (TakeSession channel) in
  with_lease (coord arbitrated) "esim_session_close" APDUClassEUICCWrite channel exclusive Some (λ held,
    with_channel 0 (with_uim Some (
      let? err := ask (CardClose channel) in
      let? _ := touch held in
      Ret err))).

Definition TransmitEUICCAPDU (arbitrated : bool) (channel : Z) (command : bytes) : prog request (bytes + error) :=
  let? named := (if bool_decide (channel = 0) then Ret ("vowifi_aka", APDUClassUSIMAKA)
                 else let? bound := ask (HasSession channel) in
                      Ret (if (bound : bool) then "esim_apdu" else "unbound_channel_apdu", APDUClassEUICCWrite)) in
  let '(owner, class) := named in
  let scope := if bool_decide (0 < channel) then TransportScopeQMIChannel else exclusive in
  with_lease (coord arbitrated) owner class channel scope inr (λ held,
    with_channel channel (with_uim inr (
      let? resp := ask (CardSend channel command) in
      let? _ := touch held in
      Ret resp))).

Definition transport (arbitrated : bool) : QMIAPDUTransport :=
  mkTransport (OpenEUICCLogicalChannel arbitrated) (CloseEUICCLogicalChannel arbitrated) (TransmitEUICCAPDU arbitrated).
End QMI.

(** ** mbim_apdu_transport.go *)
Module MBIM.
Definition coord (arbitrated : bool) : apduCoordinator := mkCoord "MBIM" arbitrated.

(** The driver's channel has 32 bits, of which eight are kept. *)
Definition OpenEUICCLogicalChannel (arbitrated : bool) (aid : bytes) : prog request (Z + error) :=
  with_lease (coord arbitrated) "esim_session_open" APDUClassEUICCWrite 0 exclusive inr (λ held,
    with_channel 0 (
      let? r := ask (CardOpen aid) in
      match r with
      | inr e => Ret (inr e)
      | inl ch =>
          let? _ := touch held in
          let? _ := ask (BindSession (u8 ch) "esim") in
          Ret (inl (u8 ch))
      end)).

Definition CloseEUICCLogicalChannel (arbitrated : bool) (channel : Z) : prog request (option error) :=
  let? _ := ask (TakeSession channel) in
  with_lease (coord arbitrated) "esim_session_close" APDUClassEUICCWrite channel exclusive Some (λ held,
    with_channel 0 (
      let? err := ask (CardClose channel) in
      match err with
      | Some e => Ret (Some e)
      | None => let? _ := touch held in Ret None
      end)).

Definition TransmitEUICCAPDU (arbitrated : bool) (channel : Z) (command : bytes) : prog request (bytes + error) :=
  with_lease (coord arbitrated) "esim_apdu" APDUClassEUICCWrite channel exclusive inr (λ held,
    with_channel channel (
      let? resp := ask (CardSend channel command) in
      let? _ := touch held in
      Ret resp)).

Definition transport (arbitrated : bool) : QMIAPDUTransport :=
  mkTransport (OpenEUICCLogicalChannel arbitrated) (CloseEUICCLogicalChannel arbitrated) (TransmitEUICCAPDU arbitrated).
End MBIM.

(** ** qmi_channel.go *)
Module Channel.
Section Channel.
Context (unicode_lower : string → string) (t : QMIAPDUTransport).

(** [opened] and [channel] of a [QMIChannel], under its own mutex. *)
Record QMIChannel := mkChannel { channel : Z; opened : bool }.
Definition NewQMIChannel : QMIChannel := mkChannel 0 false.
Definition CurrentChannel (c : QMIChannel) : Z := channel c.

(** [NewQMIChannel]: slot 0 means slot 1. *)
Definition slot_of (slot : Z) : Z := if bool_decide (slot = 0) then 1 else slot.

Definition Connect (transport_set : bool) (controlDevice : string) : option error :=
  if negb transport_set then Some (Sentinel ErrQMITransportNotAvailable)
  else if bool_decide (TrimSpace controlDevice = "") then Some (Sentinel ErrQMIControlDeviceMissing)
  else None.

Definition wrapped (operation : string) (e : error) : error :=
  default e (wrapQMIChannelError unicode_lower operation (Some e)).

Definition OpenLogicalChannel (c : QMIChannel) (aid : bytes) : prog request ((Z + error) * QMIChannel) :=
  let? r := OpenEUICCLogicalChannel t aid in
  match r with
  | inr e => Ret (inr (wrapped "open logical channel" e), c)
  | inl ch => Ret (inl ch, mkChannel ch true)
  end.

Definition Transmit (c : QMIChannel) (command : bytes) : prog request (bytes + error) :=
  if negb (opened c) || bool_decide (channel c = 0) then Ret (inr (Plain "QMI logical channel is not open"))
  else
    let? r := TransmitEUICCAPDU t (channel c) command in
    match r with inr e => Ret (inr (wrapped "transmit APDU" e)) | inl resp => Ret (inl resp) end.

Definition CloseLogicalChannel (c : QMIChannel) (ch : Z) : prog request (option error * QMIChannel) :=
  let? r := CloseEUICCLogicalChannel t ch in
  match r with
  | Some e => Ret (Some (wrapped "close logical channel" e), c)
  | None => Ret (None, mkChannel 0 false)
  end.
End Channel.
End Channel.

(** ** What a transport promises

    The view of one caller: the lease and the mutex that it holds, the registered
    sessions, the channels that were ever registered, and where APDUs went. *)

Record view := mkView { v_lease : option Request; v_mutex : option Z; v_sessions : gset Z; v_ever : list Z; v_sent : list Z }.

#[global] Instance request_eq_dec : EqDecision Request.
Proof. solve_decision. Defined.

Definition allow (b : bool) (s : view) : option view := if b then Some s else None.

(** The lease under which the card may be used, and how: alone, or alone on its
    channel. *)
Definition covers (md : string) (arbitrated : bool) (lease : option Request) (class : string) (channel : Z) (shared : bool) : bool :=
  match lease with
  | None => negb arbitrated
  | Some r =>
      bool_decide (rMode r = md) && bool_decide (rClass r = class) && bool_decide (rChannel r = channel) &&
      (bool_decide (rScope r = exclusive) || shared && bool_decide (rScope r = TransportScopeQMIChannel))
  end.

(** The class of an APDU: authentication is on the basic channel of a QMI
    transport. *)
Definition send_class (md : string) (channel : Z) : string :=
  if bool_decide (md = "QMI") && bool_decide (channel = 0) then APDUClassUSIMAKA else APDUClassEUICCWrite.

(** Channels are opened and closed under the mutex of channel 0 and an exclusive
    lease; an APDU goes out under the mutex and the lease of its channel; a
    channel is closed only after its session was taken out. *)
Definition transport_step (md : string) (arbitrated : bool) (s : view) (x : exchange request) : option view :=
  let '(mkView lease mutex sessions ever sent) := s in
  match x_request x as c return answer c → option view with
  | AcquireTransport r _ => λ err,
      allow (arbitrated && bool_decide (lease = None) && bool_decide (mutex = None))
        (mkView (match err with None => Some r | Some _ => None end) mutex sessions ever sent)
  | TouchLease => λ _, allow (bool_decide (lease ≠ None)) s
  | ReleaseLease => λ _, allow (bool_decide (lease ≠ None) && bool_decide (mutex = None)) (mkView None mutex sessions ever sent)
  | LockChannel ch => λ _,
      allow (bool_decide (mutex = None) && (bool_decide (lease ≠ None) || negb arbitrated)) (mkView lease (Some ch) sessions ever sent)
  | UnlockChannel ch => λ _, allow (bool_decide (mutex = Some ch)) (mkView lease None sessions ever sent)
  | BindSession ch _ => λ _, allow (bool_decide (mutex = Some 0)) (mkView lease mutex ({[ch]} ∪ sessions) (ch :: ever) sent)
  | HasSession _ => λ _, Some s
  | TakeSession ch => λ _, Some (mkView lease mutex (sessions ∖ {[ch]}) ever sent)
  | GetUIM => λ _, Some s
  | CardOpen _ => λ _, allow (bool_decide (mutex = Some 0) && covers md arbitrated lease APDUClassEUICCWrite 0 false) s
  | CardClose ch => λ _,
      allow (bool_decide (mutex = Some 0) && covers md arbitrated lease APDUClassEUICCWrite ch false && bool_decide (ch ∉ sessions)) s
  | CardSend ch _ => λ _,
      allow (bool_decide (mutex = Some ch) && covers md arbitrated lease (send_class md ch) ch (bool_decide (0 < ch)))
        (mkView lease mutex sessions ever (sent ++ [ch]))
  end (x_answer x).

(** Nothing is held. *)
Definition quiet (sessions : gset Z) (ever sent : list Z) : view := mkView None None sessions ever sent.

Class Guarded (md : string) (arbitrated : bool) (t : QMIAPDUTransport) := {
  open_ok aid S ever sent :
    triple (transport_step md arbitrated) (eq (quiet S ever sent)) (OpenEUICCLogicalChannel t aid)
      (λ r s, s = match r with inl ch => quiet ({[ch]} ∪ S) (ch :: ever) sent | inr _ => quiet S ever sent end);
  close_ok ch S ever sent :
    triple (transport_step md arbitrated) (eq (quiet S ever sent)) (CloseEUICCLogicalChannel t ch)
      (λ _ s, s = quiet (S ∖ {[ch]}) ever sent);
  transmit_ok ch cmd S ever sent :
    triple (transport_step md arbitrated) (eq (quiet S ever sent)) (TransmitEUICCAPDU t ch cmd)
      (λ r s, s = quiet S ever (sent ++ [ch]) ∨ s = quiet S ever sent ∧ ∃ e, r = inr e) }.

Ltac guards :=
  cbn [allow negb andb orb covers rMode rClass rChannel rScope];
  repeat match goal with
  | |- context [bool_decide ?P] =>
      first [rewrite (bool_decide_eq_true_2 P) by (done || set_solver) | rewrite (bool_decide_eq_false_2 P) by (done || lia)]
  end;
  cbn [allow negb andb orb]; reflexivity.

Ltac next := cbn [bind ask touch]; lazymatch goal with |- triple _ _ (Do _ _) _ => idtac end;
  apply triple_next; intros ?; eexists; split; [unfold transport_step, quiet, send_class, exclusive, TransportScopeQMIChannel, TransportScopeExclusive; cbn beta iota delta [x_request x_answer]; guards|].
Ltac branch := match goal with |- context [match ?r with _ => _ end] => is_var r; destruct r end; cbn [bind ask touch].
Ltac finish := apply triple_done; first [reflexivity | by left | right; by eauto].
Ltac settle :=
  repeat match goal with
  | |- context [bool_decide ?P] => first [rewrite (bool_decide_eq_true_2 P) by (done || lia) | rewrite (bool_decide_eq_false_2 P) by (done || lia)]
  end; cbn [bind ask touch].
Ltac go := repeat (next || branch); finish.

#[global] Instance qmi_guarded arbitrated : Guarded "QMI" arbitrated (QMI.transport arbitrated).
Proof.
  split.
  - intros aid S ever sent. cbn [OpenEUICCLogicalChannel QMI.transport]. unfold QMI.OpenEUICCLogicalChannel, with_lease, acquireLease, with_channel, QMI.with_uim.
    destruct arbitrated; cbn [QMI.coord arbiter negb bind touch]; go.
  - intros ch S ever sent. cbn [CloseEUICCLogicalChannel QMI.transport]. unfold QMI.CloseEUICCLogicalChannel, with_lease, acquireLease, with_channel, QMI.with_uim.
    destruct arbitrated; cbn [QMI.coord arbiter negb bind touch]; go.
  - intros ch cmd S ever sent. cbn [TransmitEUICCAPDU QMI.transport]. unfold QMI.TransmitEUICCAPDU, with_lease, acquireLease, with_channel, QMI.with_uim.
    destruct arbitrated; cbn [QMI.coord arbiter negb bind touch];
      (destruct (decide (ch = 0)) as [->|Hne]; [settle; go|]); (destruct (decide (0 < ch)); settle; go).
Qed.

#[global] Instance mbim_guarded arbitrated : Guarded "MBIM" arbitrated (MBIM.transport arbitrated).
Proof.
  split.
  - intros aid S ever sent. cbn [OpenEUICCLogicalChannel MBIM.transport]. unfold MBIM.OpenEUICCLogicalChannel, with_lease, acquireLease, with_channel.
    destruct arbitrated; cbn [MBIM.coord arbiter negb bind touch]; go.
  - intros ch S ever sent. cbn [CloseEUICCLogicalChannel MBIM.transport]. unfold MBIM.CloseEUICCLogicalChannel, with_lease, acquireLease, with_channel.
    destruct arbitrated; cbn [MBIM.coord arbiter negb bind touch]; go.
  - intros ch cmd S ever sent. cbn [TransmitEUICCAPDU MBIM.transport]. unfold MBIM.TransmitEUICCAPDU, with_lease, acquireLease, with_channel.
    destruct arbitrated; cbn [MBIM.coord arbiter negb bind touch]; go.
Qed.

(** ** A logical channel over any such transport *)

Section Session.
Context (unicode_lower : string → string) (t : QMIAPDUTransport) (md : string) (arbitrated : bool) `{!Guarded md arbitrated t}.

(** What the owner of a [QMIChannel] may call, in any order. *)
Inductive op := OpenOp (aid : bytes) | SendOp (command : bytes) | CloseOp (channel : Z).

Definition run_op (c : Channel.QMIChannel) (o : op) : prog request Channel.QMIChannel :=
  match o with
  | OpenOp aid => let? r := Channel.OpenLogicalChannel unicode_lower t c aid in Ret r.2
  | SendOp command => let? _ := Channel.Transmit unicode_lower t c command in Ret c
  | CloseOp ch => let? r := Channel.CloseLogicalChannel unicode_lower t c ch in Ret r.2
  end.

Fixpoint run_ops (c : Channel.QMIChannel) (l : list op) : prog request Channel.QMIChannel :=
  match l with [] => Ret c | o :: l => let? c := run_op c o in run_ops c l end.

Definition session_ok (c : Channel.QMIChannel) (s : view) : Prop :=
  ∃ S ever sent, s = quiet S ever sent ∧ (Channel.opened c = true → Channel.channel c ∈ ever) ∧ Forall (λ ch, ch ≠ 0 ∧ ch ∈ ever) sent.

Lemma run_op_ok c o s : session_ok c s → triple (transport_step md arbitrated) (eq s) (run_op c o) session_ok.
Proof.
  intros (S & ever & sent & -> & Hc & Hs). destruct o as [aid|cmd|ch]; cbn [run_op].
  - unfold Channel.OpenLogicalChannel. eapply triple_call.
    { eapply triple_call; [apply open_ok|]. intros r s ->. destruct r as [ch|e];
        apply triple_done with (Q := λ r s, session_ok r.2 s).
      - eexists _, _, _. split; [reflexivity|]. cbn. split; [set_solver|]. eapply Forall_impl; [exact Hs|]. set_solver.
      - by exists S, ever, sent. }
    intros r s Hr. by apply triple_done.
  - unfold Channel.Transmit. destruct (Channel.opened c) eqn:Ho; cbn [negb orb].
    2:{ apply triple_done. exists S, ever, sent. by rewrite Ho. }
    destruct (decide (Channel.channel c = 0)) as [Hz|Hz].
    { rewrite bool_decide_eq_true_2 by done. apply triple_done. exists S, ever, sent. by rewrite Ho. }
    rewrite bool_decide_eq_false_2 by done. eapply triple_call.
    { eapply triple_call; [apply transmit_ok|]. intros r s Hr.
      assert (Hq : session_ok c s).
      { destruct Hr as [->|[-> _]]; eexists _, _, _; (split; [reflexivity|]); rewrite Ho; (split; [done|]); [|done].
        apply Forall_app. split; [done|]. constructor; [|done]. by auto. }
      destruct r; apply triple_done with (Q := λ _ s, session_ok c s); exact Hq. }
    intros r s Hr. by apply triple_done.
  - unfold Channel.CloseLogicalChannel. eapply triple_call.
    { eapply triple_call; [apply close_ok|]. intros r s ->. destruct r as [e|]; apply triple_done with (Q := λ r s, session_ok r.2 s);
        eexists _, _, _; (split; [reflexivity|]); done. }
    intros r s Hr. by apply triple_done.
Qed.

Lemma run_ops_ok l c s : session_ok c s → triple (transport_step md arbitrated) (eq s) (run_ops c l) session_ok.
Proof.
  revert c s. induction l as [|o l IH]; intros c s Hs; cbn [run_ops]; [by apply triple_done|].
  eapply triple_call; [by apply run_op_ok|]. intros c' s' Hs'. by apply IH.
Qed.

(** C19: a logical channel over a transport.  In any order of opening, sending
    and closing, whatever the card, the arbiter and the registry answer: the card
    is used only under the lease for the purpose (its class, its channel, alone
    or alone on the channel) and the mutex, both are given back after each call,
    and every APDU goes to a channel that was opened and registered before, never
    to the basic channel. *)
Theorem channel_session l tr c :
  exec (run_ops Channel.NewQMIChannel l) tr c →
  ∃ S ever sent, watch (transport_step md arbitrated) (quiet ∅ [] []) tr = Some (quiet S ever sent) ∧
    (Channel.opened c = true → Channel.channel c ∈ ever) ∧ Forall (λ ch, ch ≠ 0 ∧ ch ∈ ever) sent.
Proof.
  intros Hx. destruct (run_ops_ok l Channel.NewQMIChannel (quiet ∅ [] []) ltac:(by exists ∅, [], []) _ tr c eq_refl Hx)
    as (s & Hw & S & ever & sent & -> & Hc & Hs). by exists S, ever, sent.
Qed.
End Session.

(** A driver that opens channel 2 and answers every APDU with success. *)
Definition demo_driver (n : nat) (c : request) : answer c * nat :=
  match c return answer c * nat with
  | AcquireTransport _ _ | GetUIM | CardClose _ => (None, n)
  | HasSession _ => (true, n)
  | CardOpen _ => (inl 2, n)
  | CardSend _ _ => (inl [0x90; 0x00], S n)
  | _ => (tt, n)
  end.
Definition demo_ops : list op := [SendOp [0x00]; OpenOp [0xA0]; SendOp [0x80]; SendOp [0x81]; CloseOp 2; SendOp [0x82]].
Definition demo_session := run_on demo_driver (run_ops id (QMI.transport true) Channel.NewQMIChannel demo_ops) O.

Lemma channel_session_witness :
  ∃ S ever sent, watch (transport_step "QMI" true) (quiet ∅ [] []) demo_session.1.1 = Some (quiet S ever sent) ∧
    (Channel.opened demo_session.1.2 = true → Channel.channel demo_session.1.2 ∈ ever) ∧ Forall (λ ch, ch ≠ 0 ∧ ch ∈ ever) sent.
Proof.
  exact (channel_session id (QMI.transport true) "QMI" true demo_ops demo_session.1.1 demo_session.1.2
    (run_on_exec demo_driver (run_ops id (QMI.transport true) Channel.NewQMIChannel demo_ops) O)).
Defined.

Example demo_sent : option_map v_sent (watch (transport_step "QMI" true) (quiet ∅ [] []) demo_session.1.1) = Some [2; 2].
Proof. vm_compute. reflexivity. Qed.

(** A close that fails for want of a lease has taken the session out: the channel
    stays open, and its APDUs are from then on those of an unbound channel. *)
Definition no_lease (n : nat) (c : request) : answer c * nat :=
  match c return answer c * nat with
  | AcquireTransport _ _ => (Some (Plain "deadline"), n)
  | GetUIM | CardClose _ => (None, n)
  | HasSession _ => (false, n)
  | CardOpen _ => (inl 2, n)
  | CardSend _ _ => (inl [], n)
  | _ => (tt, n)
  end.
Lemma failed_close_unbinds :
  let '(t, (err, c), _) := run_on no_lease (Channel.CloseLogicalChannel id (QMI.transport true) (Channel.mkChannel 2 true) 2) O in
  Channel.opened c = true ∧ is_Some err ∧ option_map v_sessions (watch (transport_step "QMI" true) (quiet {[2]} [2] []) t) = Some ∅.
Proof. vm_compute. split_and!; try reflexivity. by eexists. Qed.

(** ** The mutexes of the channels

    [getOrCreateChanMu] gives a channel its mutex; [resetChanMu] forgets all of
    them.  A call is in flight from the locking of the mutex that it got. *)
Module Locks.
Record state := mkState { chanMu : gmap Z nat; fresh : nat; flying : gmap nat (Z * nat) }.
Definition start : state := mkState ∅ O ∅.

Definition getOrCreateChanMu (channel : Z) (s : state) : nat * state :=
  match chanMu s !! channel with
  | Some mu => (mu, s)
  | None => (fresh s, mkState (<[channel := fresh s]> (chanMu s)) (S (fresh s)) (flying s))
  end.
Definition resetChanMu (s : state) : state := mkState ∅ (fresh s) (flying s).

Inductive event := Enter (i : nat) (channel : Z) | Leave (i : nat) | Reset.

(** A call enters when nobody holds the mutex that it got. *)
Definition step (e : event) (s : state) : option state :=
  match e with
  | Enter i channel =>
      let '(mu, s) := getOrCreateChanMu channel s in
      if bool_decide (i ∈ dom (flying s)) || existsb (λ c, bool_decide (c.2.2 = mu)) (map_to_list (flying s)) then None
      else Some (mkState (chanMu s) (fresh s) (<[i := (channel, mu)]> (flying s)))
  | Leave i => Some (mkState (chanMu s) (fresh s) (delete i (flying s)))
  | Reset => Some (resetChanMu s)
  end.

Definition alone (s : state) : Prop := ∀ i j c m m', flying s !! i = Some (c, m) → flying s !! j = Some (c, m') → i = j.

(** Without a reset a channel has one mutex, and one call in flight at most. *)
Definition orderly (s : state) : Prop :=
  alone s ∧ (∀ i c m, flying s !! i = Some (c, m) → chanMu s !! c = Some m).

Lemma enter_alone e s s' : e ≠ Reset → orderly s → step e s = Some s' → orderly s'.
Proof.
  intros He [Ha Hm] Hstep. destruct e as [i channel|i|]; [| |done]; cbn in Hstep.
  - assert (Hget : ∃ mu s1, getOrCreateChanMu channel s = (mu, s1) ∧ flying s1 = flying s ∧ chanMu s1 !! channel = Some mu ∧
        ∀ c m, chanMu s !! c = Some m → chanMu s1 !! c = Some m).
    { unfold getOrCreateChanMu. destruct (chanMu s !! channel) as [mu|] eqn:Hc; eexists _, _; (split; [reflexivity|]); [done|].
      cbn. split_and!; [done|by rewrite lookup_insert_eq|]. intros c m Hcm. rewrite lookup_insert_ne by congruence. done. }
    destruct Hget as (mu & s1 & Hg & Hf & Hmu & Hkeep). rewrite Hg in Hstep. rewrite Hf in Hstep.
    destruct (bool_decide _ || _) eqn:Hbusy; [done|]. apply orb_false_iff in Hbusy as [Hi Hnone]. simplify_eq.
    assert (Hfree : ∀ j c m, flying s !! j = Some (c, m) → c ≠ channel).
    { intros j c m Hj ->. apply not_true_iff_false in Hnone. apply Hnone. apply existsb_exists.
      exists (j, (channel, m)). split; [by apply list_elem_of_In, elem_of_map_to_list|]. apply bool_decide_eq_true_2. cbn.
      apply Hm in Hj. apply Hkeep in Hj. congruence. }
    unfold orderly, alone; cbn [flying chanMu]; split.
    + intros j k c m m' [[? ?]|[? Hj]]%lookup_insert_Some [[? ?]|[? Hk]]%lookup_insert_Some; simplify_eq; try done.
      * by destruct (Hfree _ _ _ Hk).
      * by destruct (Hfree _ _ _ Hj).
      * by eapply Ha.
    + intros j c m [[? ?]|[? Hj]]%lookup_insert_Some; simplify_eq; [done|]. eauto.
  - simplify_eq. unfold orderly, alone; cbn [flying chanMu]. split.
    + intros j k c m m' [? Hj]%lookup_delete_Some [? Hk]%lookup_delete_Some. by eapply Ha.
    + intros j c m [? Hj]%lookup_delete_Some. eauto.
Qed.

(** [Stop] forgets the mutexes while a call is in flight: another then enters the
    same channel beside it. *)
Lemma reset_lets_two_in :
  ∃ s, foldl (λ s e, s ≫= step e) (Some start) [Enter 0 2; Reset; Enter 1 2] = Some s ∧
    flying s !! 0%nat = Some (2, 0%nat) ∧ flying s !! 1%nat = Some (2, 1%nat).
Proof. eexists. split; [vm_compute; reflexivity|]. by split; vm_compute. Qed.
End Locks.
