(* ===== verification/EsimProfiles.v ===== *)
(** * Downloading, deleting and renaming profiles, and the notifications of a
      card (internal/esim/manager.go)

    Each operation is a program: the lock of write operations, the client of the
    card, the calls of the LPA library and the caches are requests.  The card
    queues a notification for every change of a profile; after a download or a
    deletion it is looked for, fetched and sent to its server.

    Parameters: the texts of ICCIDs and their parser, the tests for errors of the
    SGP.22 library, and the address that activation_code.go and the URL package
    make of what the user typed.  A pointer that may be nil is an option; the
    manager has a channel factory. *)

From Stdlib Require Import Ascii String.
From S2P Require Import Prelude GoText SmsCodec Interaction EsimErrors EsimScan.
From stdpp Require Import strings pretty.

#[local] Open Scope Z_scope.
#[local] Open Scope string_scope.

(** ** Notifications *)

Inductive NotificationEvent := EventInstall | EventEnable | EventDisable | EventDelete | EventOther.
#[global] Instance event_eq_dec : EqDecision NotificationEvent.
Proof. solve_decision. Defined.

Record NotificationMetadata := mkMeta { SequenceNumber : Z; Operation : NotificationEvent; Address : string; n_ICCID : bytes }.

(** A notification as it is sent; only its identity matters. *)
Record PendingNotification := mkPending { p_id : Z }.

Record NotificationItem := mkItem {
  i_SequenceNumber : Z; i_Event : string; i_ICCID : string; i_Address : string; i_AIDHex : string; i_CanRetry : bool }.

Record SpaceDelta := mkDelta { released : bool; delta_bytes : Z }.

(** [DeleteProfileResult] and [DownloadProfileResult], which have the same
    fields. *)
Record ProfileResult := mkProfileResult { Warning : string; WarningCode : string; delta : option SpaceDelta }.
Definition no_warning : ProfileResult := mkProfileResult "" "" None.

Definition maxNotificationSequence (l : list (option NotificationMetadata)) : Z :=
  foldl (λ last n, match n with Some n => if bool_decide (last < SequenceNumber n) then SequenceNumber n else last | None => last end) 0 l.

(** The sequence number of the result of a download, if it has one. *)
Definition downloadResultNotificationMetadata (seq : option Z) : option Z :=
  match seq with Some seq => if bool_decide (seq <= 0) then None else Some seq | None => None end.

Definition downloadNotificationBaseline (l : list (option NotificationMetadata)) (result : option Z) : Z :=
  let baseline := maxNotificationSequence l in
  match result with
  | Some seq => if bool_decide (0 < seq) && bool_decide (baseline < seq - 1) then seq - 1 else baseline
  | None => baseline
  end.

Definition notification_result (prefix text : string) (observed : bool) (retrieveErr handleErr : option error) : ProfileResult :=
  if negb observed then mkProfileResult text (prefix +:+ "_notification_not_observed") None
  else match retrieveErr with
       | Some _ => mkProfileResult text (prefix +:+ "_notification_retrieve_failed") None
       | None => match handleErr with
                 | Some _ => mkProfileResult text (prefix +:+ "_notification_handle_failed") None
                 | None => no_warning
                 end
       end.
Definition downloadNotificationResult := notification_result "download" "Profile 下载完成，但通知未完全确认".
Definition deleteNotificationResult := notification_result "delete" "Profile 已删除，但删除通知发送未完全确认".

Definition downloadFinalizeRecoveredResult : ProfileResult :=
  mkProfileResult "Profile 已安装，下载会话收尾返回异常；安装通知已发送，已按成功处理" "download_installed_finalize_error_recovered" None.

Definition buildSpaceDeltaForOperation (download : bool) (before after : Z) : option SpaceDelta :=
  if bool_decide (before <= 0) || bool_decide (after <= 0) then None
  else if download then (if bool_decide (before <= after) then None else Some (mkDelta false (before - after)))
  else (if bool_decide (after <= before) then None else Some (mkDelta true (after - before))).

Definition notificationEventName (e : NotificationEvent) : string :=
  match e with
  | EventInstall => "install" | EventEnable => "enable" | EventDisable => "disable" | EventDelete => "delete" | EventOther => "unknown"
  end.

Definition isAutoCleanableLoadedNotification (n : option NotificationMetadata) : bool :=
  match n with
  | None => false
  | Some n => negb (bool_decide (SequenceNumber n <= 0)) && match Operation n with EventEnable | EventDisable => true | _ => false end
  end.

Definition filterCleanedNotifications (l : list (option NotificationMetadata)) (cleaned : list Z) : list (option NotificationMetadata) :=
  match cleaned with
  | [] => l
  | _ => List.filter (λ n, match n with Some n => negb (bool_decide (SequenceNumber n ∈ cleaned)) | None => true end) l
  end.

(** The first notification that is newer, and for a deletion of the profile. *)
Definition findMatchingNotificationAfterSeq (l : list (option NotificationMetadata)) (lastSeq : Z) : option NotificationMetadata :=
  head (filter (λ n, lastSeq < SequenceNumber n) (omap id l)).
Definition findMatchingDeleteNotification (l : list (option NotificationMetadata)) (lastSeq : Z) (iccid : bytes) : option NotificationMetadata :=
  head (filter (λ n, lastSeq < SequenceNumber n ∧ n_ICCID n = iccid) (omap id l)).

Definition sort_items (items : list NotificationItem) : list NotificationItem :=
  sort_stable (λ a b, bool_decide (i_SequenceNumber b < i_SequenceNumber a)) items.

(** ** The IMEI of a download *)

Definition digit_value (a : ascii) : Z := code a - 48.

(** The digits from the last to the first, the last of them doubled. *)
Fixpoint luhn_sum (digits : list ascii) (double : bool) (sum : Z) : Z :=
  match digits with
  | [] => sum
  | a :: digits =>
      let n := digit_value a in
      let n := if double then (if bool_decide (9 < 2 * n) then 2 * n - 9 else 2 * n) else n in
      luhn_sum digits (negb double) (sum + n)
  end.
Definition imeiLuhnCheckDigit (base : list ascii) : Z := 48 + (10 - luhn_sum (rev base) true 0 `mod` 10) `mod` 10.

Definition validateDownloadIMEI (imei : string) : string + error :=
  let imei := TrimSpace imei in
  let digits := list_ascii_of_string imei in
  if bool_decide (length digits ≠ 15%nat) then inr (Plain "无效的 IMEI：必须为 15 位数字")
  else if negb (forallb is_digit digits) then inr (Plain "无效的 IMEI：必须为 15 位数字")
  else if bool_decide (option_map code (last digits) ≠ Some (imeiLuhnCheckDigit (take 14 digits))) then inr (Plain "无效的 IMEI：校验位不正确")
  else inl imei.

Example imei_example : validateDownloadIMEI " 490154203237518 " = inl "490154203237518".
Proof. vm_compute. reflexivity. Qed.
Example imei_bad_digit : validateDownloadIMEI "490154203237519" = inr (Plain "无效的 IMEI：校验位不正确").
Proof. vm_compute. reflexivity. Qed.

(** ** Requests *)

(** What a call of the library returns: a value, an error, or a panic that is
    recovered. *)
Inductive called (A : Type) := Got (a : A) | Failed (e : error) | Panicked (value : string).
Arguments Got {A} a.
Arguments Failed {A} e.
Arguments Panicked {A} value.

Inductive stage := StageAuthenticateClient | StageAuthenticateServer | StageInstall | StageOther.
#[global] Instance stage_eq_dec : EqDecision stage.
Proof. solve_decision. Defined.

(** The end of [client.DownloadProfile]: the stages that it reported, and its
    error or the sequence number of the notification in its result. *)
Record download := mkDownload { d_stages : list stage; d_result : option Z + error }.

Record ActivationCode := mkActivation { SMDP : string; MatchingID : string; IMEI : string; ConfirmationCode : string }.

Inductive request :=
  | LockOperation | AcquireOperationLock | UnlockOperation | WriteDone
  | StoreChannelCtx (active : bool) | CtxErr
  | WaitForAPDUIdle | PreCleanChannels
  | FindAIDForICCID (target : string)
  | CreateLPA (aid : bytes) | CloseLPA (operation : string)
  | ListNotification (filter : option NotificationEvent)
  | RetrieveNotificationList (seq : Z) | HandleNotification (n : option PendingNotification) | RemoveNotificationFromList (seq : Z)
  | ReadFreeNvram
  | DeleteOnCard (iccid : bytes) | SetNickname (iccid : bytes) (name : string) | DownloadToCard (code : ActivationCode)
  | ProviderIMEI | BackendIMEI
  | Report (step message : string) (pct : Z)
  | Sleep (ms : Z)
  | InvalidateOverviewCache (reason : string) | SuppressOverviewReload (ms : Z) | TriggerOverviewReload (reason : string).

#[global] Instance profile_answer : Requests request := λ c,
  match c with
  | AcquireOperationLock | CtxErr | WaitForAPDUIdle | CreateLPA _ | CloseLPA _ => option error
  | HandleNotification _ | RemoveNotificationFromList _ | DeleteOnCard _ | SetNickname _ _ => option error
  | FindAIDForICCID _ => (bytes + error)%type
  | ListNotification _ => called (list (option NotificationMetadata))
  | RetrieveNotificationList _ => called (list (option PendingNotification))
  | ReadFreeNvram => Z
  | DownloadToCard _ => download
  | ProviderIMEI | BackendIMEI => (string * option error)%type
  | _ => unit
  end.

Section Operations.
(** The parser of ICCIDs and the text of one, [%q], the error of
    [hex.DecodeString], the two tests for errors of the library, the address of
    the server and the code that come from what the user typed, and the host of
    the URL that the address makes. *)
Context (NewICCID : string → bytes + error) (ICCID_String : bytes → string).
Context (Quote : string → string) (hex_error : string → error).
Context (is_undefined is_unexpected_tag is_nothing_to_delete : error → bool).
Context (ResolveDownloadAddress : string → string → (string * string) + error) (url_host : string → option string).
(** The text of the free space of a chip. *)
Context (FreeNvram : Z → string).
Context (unicode_lower : string → string).
Context `{Sgp22}.

Definition ask_if (b : bool) (c : request) : prog request unit := if b then let? _ := ask c in Ret tt else Ret tt.

(** [retryWithBackoff]: at most [retries] more attempts, each after a wait that
    doubles. *)
Fixpoint retryWithBackoff {A} (retries : nat) (delay : Z) (op : prog request (A + error)) : prog request (A + error) :=
  let? r := op in
  match r with
  | inl a => Ret (inl a)
  | inr e =>
      match retries with
      | O => Ret (inr e)
      | S retries => let? _ := ask (Sleep delay) in retryWithBackoff retries (2 * delay) op
      end
  end.

Definition checked (r : option error) : unit + error := match r with None => inl tt | Some e => inr e end.

Definition wrapNotificationParseError (prefix : string) (e : error) : error :=
  if is_undefined e || is_unexpected_tag e then Errorf (prefix +:+ ": ") e "" else e.

Definition safely {A} (prefix : string) (r : called A) : A + error :=
  match r with
  | Got a => inl a
  | Failed e => inr (wrapNotificationParseError prefix e)
  | Panicked v => inr (Plain (prefix +:+ ": " +:+ v))
  end.

Definition safeListNotification (f : option NotificationEvent) : prog request (list (option NotificationMetadata) + error) :=
  let? r := ask (ListNotification f) in Ret (safely "解析通知列表响应失败" r).

Definition safeRetrieveNotificationList (seq : Z) : prog request (list (option PendingNotification) + error) :=
  let? r := ask (RetrieveNotificationList seq) in Ret (safely "解析待发送通知响应失败" r).

Definition createLPAWithAID (aid : bytes) : prog request (option error) :=
  let? r := ask (CreateLPA aid) in
  match r with
  | Some e => Ret (Some (Errorf ("创建 LPA client 失败 (AID=" +:+ HexUpper aid +:+ "): ") e ""))
  | None => Ret None
  end.

(** A body under [opMu], with the deferred unlock and notification; and one with
    a deferred close of the client. *)
Definition under_lock {A} (body : prog request A) : prog request A :=
  let? _ := ask LockOperation in
  let? a := body in
  let? _ := ask UnlockOperation in
  let? _ := ask WriteDone in
  Ret a.

Definition and_close {A} (label : string) (body : prog request A) : prog request A :=
  let? a := body in
  let? _ := ask (CloseLPA label) in
  Ret a.

(** ** Sending a notification *)

(** Up to [attempts] looks at the list, with a pause between two. *)
Fixpoint find_wait (find : list (option NotificationMetadata) → option NotificationMetadata) (f : NotificationEvent)
    (attempts : nat) (delay : Z) : prog request (option NotificationMetadata) :=
  match attempts with
  | O => Ret None
  | S attempts =>
      let? r := safeListNotification (Some f) in
      match (match r with inl l => find l | inr _ => None end) with
      | Some n => Ret (Some n)
      | None =>
          let? _ := ask_if (bool_decide (attempts ≠ O)) (Sleep delay) in
          find_wait find f attempts delay
      end
  end.

Definition findDeleteNotificationWithWait (lastSeq : Z) (iccid : bytes) (attempts : nat) (delay : Z) :=
  find_wait (λ l, findMatchingDeleteNotification l lastSeq iccid) EventDelete attempts delay.
Definition findNotificationWithWait (lastSeq : Z) (attempts : nat) (delay : Z) :=
  find_wait (λ l, findMatchingNotificationAfterSeq l lastSeq) EventInstall attempts delay.

Definition handle_one (n : option PendingNotification) : prog request (unit + error) :=
  retryWithBackoff 3 300 (let? r := ask (HandleNotification n) in Ret (checked r)).

Fixpoint handle_pending (l : list (option PendingNotification)) : prog request (option error) :=
  match l with
  | [] => Ret None
  | n :: l =>
      let? r := handle_one n in
      match r with inr e => Ret (Some e) | inl _ => handle_pending l end
  end.

(** [resolveDeleteNotificationResult] and [resolveDownloadNotificationResult]
    with the functions that they are given. *)
Definition resolve_notification (find : prog request (option NotificationMetadata))
    (result : bool → option error → option error → ProfileResult) : prog request ProfileResult :=
  let? found := find in
  match found with
  | None => Ret (result false None None)
  | Some n =>
      let? pending := retryWithBackoff 3 300 (safeRetrieveNotificationList (SequenceNumber n)) in
      match pending with
      | inr e => Ret (result true (Some e) None)
      | inl pending =>
          let? handled := handle_pending pending in
          match handled with
          | Some e => Ret (result true None (Some e))
          | None => Ret no_warning
          end
      end
  end.

Definition resolveDeleteNotificationResult (lastSeq : Z) (iccid : bytes) (delay : Z) : prog request ProfileResult :=
  resolve_notification (findDeleteNotificationWithWait lastSeq iccid 3 delay) deleteNotificationResult.
Definition sendDownloadInstallNotification (lastSeq delay : Z) : prog request ProfileResult :=
  resolve_notification (findNotificationWithWait lastSeq 3 delay) downloadNotificationResult.

(** [readFreeNvramBytesWithRetry] *)
Fixpoint readFreeNvramBytesWithRetry (attempts : nat) (delay : Z) : prog request Z :=
  match attempts with
  | O => Ret 0
  | S attempts =>
      let? free := ask ReadFreeNvram in
      if bool_decide (0 < (free : Z)) then Ret free
      else
        let? _ := ask_if (bool_decide (attempts ≠ O)) (Sleep delay) in
        readFreeNvramBytesWithRetry attempts delay
  end.

Definition with_delta (r : ProfileResult) (d : option SpaceDelta) : ProfileResult := mkProfileResult (Warning r) (WarningCode r) d.

(** ** DeleteProfile *)

(** The operation returns, or panics at a nil element of the list that it reads
    without a look; deferred functions run in both cases. *)
Inductive outcome (A : Type) := Returned (a : A) | PanickedOut.
Arguments Returned {A} a.
Arguments PanickedOut {A}.

Definition delete_client (iccid : bytes) (targetICCID : string) : prog request (outcome (ProfileResult * option error)) :=
  let? before := ask ReadFreeNvram in
  let? current := safeListNotification None in
  if match current with inl l => existsb (λ n, match n with None => true | Some _ => false end) l | inr _ => false end then Ret PanickedOut
  else
    let lastSeq := match current with inl l => maxNotificationSequence l | inr _ => 0 end in
    let? deleted := ask (DeleteOnCard iccid) in
    match deleted with
    | Some e =>
        Ret (Returned (no_warning, Some (NewDeleteProfileError (ClassifyDeleteProfileError (Some e))
               ("删除 profile " +:+ targetICCID +:+ " 失败: " +:+ Error e) (Some e))))
    | None =>
        let? result := resolveDeleteNotificationResult lastSeq iccid 300 in
        let? after := readFreeNvramBytesWithRetry 3 300 in
        let? _ := ask (InvalidateOverviewCache "delete_profile") in
        let? _ := ask (TriggerOverviewReload "delete_profile") in
        Ret (Returned (with_delta result (buildSpaceDeltaForOperation false before after), None))
    end.

(** The application of the card; [err] makes the error of a bad hexadecimal
    text. *)
Definition target_aid (err : error) (targetICCID aidHex : string) : prog request (bytes + error) :=
  if bool_decide (aidHex ≠ "") then
    match DecodeString aidHex with Some aid => Ret (inl aid) | None => Ret (inr err) end
  else ask (FindAIDForICCID targetICCID).

Definition delete_locked (targetICCID aidHex : string) : prog request (outcome (ProfileResult * option error)) :=
  let fail e := Ret (Returned (no_warning, Some e)) in
  match NewICCID targetICCID with
  | inr e => fail (NewDeleteProfileError "INVALID_ICCID" ("无效的 ICCID " +:+ Quote targetICCID +:+ ": " +:+ Error e) (Some e))
  | inl iccid =>
      let? aid := target_aid (NewDeleteProfileError "INVALID_AID_HEX"
        ("无效的 AID hex " +:+ Quote aidHex +:+ ": " +:+ Error (hex_error aidHex)) (Some (hex_error aidHex))) targetICCID aidHex in
      match aid with
      | inr e => fail e
      | inl aid =>
          let? opened := createLPAWithAID aid in
          match opened with
          | Some e => fail (NewDeleteProfileError "INTERNAL" ("创建 LPA client 失败: " +:+ Error e) (Some e))
          | None => and_close "delete_profile" (delete_client iccid targetICCID)
          end
      end
  end.

Definition DeleteProfile (targetICCID aidHex : string) : prog request (outcome (ProfileResult * option error)) :=
  under_lock (delete_locked targetICCID aidHex).

(** ** RenameProfile *)

Definition rename_client (iccid : bytes) (newName : string) : prog request (option error) :=
  let? r := ask (SetNickname iccid newName) in
  match r with
  | Some e => Ret (Some (Errorf "修改 profile 名称失败: " e ""))
  | None =>
      let? _ := ask (InvalidateOverviewCache "rename_profile") in
      let? _ := ask (TriggerOverviewReload "rename_profile") in
      Ret None
  end.

Definition RenameProfile (targetICCID newName aidHex : string) : prog request (option error) :=
  under_lock
    match NewICCID targetICCID with
    | inr e => Ret (Some (Errorf ("无效的 ICCID " +:+ Quote targetICCID +:+ ": ") e ""))
    | inl iccid =>
        let? aid := target_aid (Errorf ("无效的 AID hex " +:+ Quote aidHex +:+ ": ") (hex_error aidHex) "") targetICCID aidHex in
        match aid with
        | inr e => Ret (Some e)
        | inl aid =>
            let? opened := createLPAWithAID aid in
            match opened with
            | Some e => Ret (Some e)
            | None => and_close "rename_profile" (rename_client iccid newName)
            end
        end
    end.

(** ** Notifications of the card *)

Definition resolveNotificationAID (aidHex : string) : bytes + error :=
  if bool_decide (aidHex ≠ "") then
    match DecodeString aidHex with
    | Some aid => inl aid
    | None => inr (NewNotificationError "INVALID_AID_HEX" ("无效的 AID hex " +:+ Quote aidHex +:+ ": " +:+ Error (hex_error aidHex)) (Some (hex_error aidHex)))
    end
  else inl [].

Fixpoint retry_pending (l : list (option PendingNotification)) : prog request (option error) :=
  match l with
  | [] => Ret None
  | None :: l => retry_pending l
  | Some n :: l =>
      let? r := handle_one (Some n) in
      match r with
      | inr e => Ret (Some (NewNotificationError "INTERNAL" ("重试发送通知失败: " +:+ Error e) (Some e)))
      | inl _ => retry_pending l
      end
  end.

Definition retry_client (sequenceNumber : Z) : prog request (option error) :=
  let missing inner := Some (NewNotificationError "NOT_FOUND" ("通知 " +:+ pretty sequenceNumber +:+ " 不存在") inner) in
  let? pending := safeRetrieveNotificationList sequenceNumber in
  match pending with
  | inr e =>
      if is_undefined e then Ret (missing (Some e))
      else Ret (Some (NewNotificationError "INTERNAL" ("获取待发送通知失败: " +:+ Error e) (Some e)))
  | inl [] => Ret (missing None)
  | inl l => retry_pending l
  end.

Definition RetryNotification (sequenceNumber : Z) (aidHex : string) : prog request (option error) :=
  under_lock (
    if bool_decide (sequenceNumber <= 0)
    then Ret (Some (NewNotificationError "INVALID_SEQUENCE" ("无效的通知序号 " +:+ pretty sequenceNumber) None))
    else match resolveNotificationAID aidHex with
         | inr e => Ret (Some e)
         | inl aid =>
             let? opened := createLPAWithAID aid in
             match opened with
             | Some e => Ret (Some (NewNotificationError "INTERNAL" ("创建 LPA client 失败: " +:+ Error e) (Some e)))
             | None => and_close "retry_notification" (retry_client sequenceNumber)
             end
         end).

(** Sending the pending notifications that are not nil; [Left] is whether there
    was one. *)
Fixpoint clean_pending (l : list (option PendingNotification)) (handledAny : bool) : prog request (bool + error) :=
  match l with
  | [] => Ret (inl handledAny)
  | None :: l => clean_pending l handledAny
  | Some n :: l =>
      let? r := handle_one (Some n) in
      match r with inr e => Ret (inr e) | inl _ => clean_pending l true end
  end.

(** Whether a notification of an enabling or a disabling was sent and removed. *)
Definition clean_one (n : NotificationMetadata) : prog request bool :=
  let seq := SequenceNumber n in
  let? pending := retryWithBackoff 3 300 (safeRetrieveNotificationList seq) in
  match pending with
  | inr _ | inl [] => Ret false
  | inl l =>
      let? handled := clean_pending l false in
      match handled with
      | inr _ | inl false => Ret false
      | inl true =>
          let? removed := retryWithBackoff 3 300 (
            let? r := ask (RemoveNotificationFromList seq) in
            Ret (checked (match r with Some e => if is_nothing_to_delete e then None else Some e | None => None end))) in
          Ret (match removed with inl _ => true | inr _ => false end)
      end
  end.

Fixpoint autoCleanLoadedNotifications (l : list (option NotificationMetadata)) (cleaned : list Z) : prog request (list Z) :=
  match l with
  | [] => Ret cleaned
  | n :: l =>
      match n with
      | Some n' =>
          if isAutoCleanableLoadedNotification n then
            let? done := clean_one n' in
            autoCleanLoadedNotifications l (if done then SequenceNumber n' :: cleaned else cleaned)
          else autoCleanLoadedNotifications l cleaned
      | None => autoCleanLoadedNotifications l cleaned
      end
  end.

Definition buildNotificationItems (l : list (option NotificationMetadata)) (aidHex : string) : list NotificationItem :=
  sort_items ((λ n, mkItem (SequenceNumber n) (notificationEventName (Operation n))
    (if bool_decide (n_ICCID n = []) then "" else ICCID_String (n_ICCID n)) (Address n) aidHex (bool_decide (Address n ≠ ""))) <$> omap id l).

Definition listNotificationItemsWithCleanup (aidHex : string) : prog request (list NotificationItem + error) :=
  let? listed := safeListNotification None in
  match listed with
  | inr e => Ret (inr e)
  | inl l =>
      let? cleaned := autoCleanLoadedNotifications l [] in
      match cleaned with
      | [] => Ret (inl (buildNotificationItems l aidHex))
      | _ =>
          let? refreshed := safeListNotification None in
          Ret (inl (buildNotificationItems (match refreshed with inl l' => l' | inr _ => filterCleanedNotifications l cleaned end) aidHex))
      end
  end.

(** [lockOperation], with the deferred [unlock]. *)
Definition under_operation_lock {A} (busy : error → A) (body : prog request A) : prog request A :=
  let? r := ask AcquireOperationLock in
  match r with
  | Some e => Ret (busy e)
  | None =>
      let? a := body in
      let? _ := ask UnlockOperation in
      let? _ := ask WriteDone in
      Ret a
  end.

(** Over the applications: the items, the successes and the last error. *)
Fixpoint list_all (aids : list bytes) (items : list NotificationItem) (successCount : nat) (lastErr : option error) :
    prog request (list NotificationItem * nat * option error) :=
  match aids with
  | [] => Ret (items, successCount, lastErr)
  | aid :: aids =>
      let? opened := createLPAWithAID aid in
      match opened with
      | Some e => list_all aids items successCount (Some e)
      | None =>
          let? listed := listNotificationItemsWithCleanup (HexUpper aid) in
          let? _ := ask (CloseLPA "list_notifications_current_card") in
          match listed with
          | inr e => list_all aids items successCount (Some e)
          | inl l => list_all aids (items ++ l)%list (S successCount) lastErr
          end
      end
  end.

Definition listed_result (r : list NotificationItem * nat * option error) : list NotificationItem + error :=
  let '(items, successCount, lastErr) := r in
  if bool_decide (items ≠ []) then inl (sort_items items)
  else if bool_decide (successCount ≠ O) then inl []
  else match lastErr with
       | Some e => inr (NewNotificationError "INTERNAL" ("获取通知列表失败: " +:+ Error e) (Some e))
       | None => inl []
       end.

(** Both lists start in the same way: with an arbiter the card must be idle. *)
Definition when_idle {A} (arbiter clean : bool) (busy : error → A) (body : prog request A) : prog request A :=
  let? r := (if arbiter then ask WaitForAPDUIdle else Ret None) in
  match r with
  | Some e => Ret (busy e)
  | None => let? _ := ask_if clean PreCleanChannels in body
  end.

Definition listNotificationsForCurrentCard (arbiter clean : bool) (aids : list bytes) : prog request (list NotificationItem + error) :=
  under_operation_lock inr (when_idle arbiter clean inr (let? r := list_all aids [] O None in Ret (listed_result r))).

Definition ListNotifications (arbiter clean : bool) (aids : list bytes) (aidHex : string) : prog request (list NotificationItem + error) :=
  match resolveNotificationAID aidHex with
  | inr e => Ret (inr e)
  | inl [] => listNotificationsForCurrentCard arbiter clean aids
  | inl targetAID =>
      under_operation_lock inr (when_idle arbiter clean inr (
        let? opened := createLPAWithAID targetAID in
        match opened with
        | Some e => Ret (inr (NewNotificationError "INTERNAL" ("创建 LPA client 失败: " +:+ Error e) (Some e)))
        | None =>
            let? items := listNotificationItemsWithCleanup (HexUpper targetAID) in
            let? closed := ask (CloseLPA "list_notifications") in
            match (match items with inr e => Some e | inl _ => closed end) with
            | Some e => Ret (inr (NewNotificationError "INTERNAL" ("获取通知列表失败: " +:+ Error e) (Some e)))
            | None => Ret items
            end
        end))
  end.

(** ** DownloadProfile *)

(** Which sources of the device's IMEI the manager has. *)
Record sources := mkSources { imeiProvider : bool; backend : bool }.

Definition resolveDownloadIMEI (m : sources) (downloadIMEI : string) : prog request (string + error) :=
  if bool_decide (TrimSpace downloadIMEI ≠ "") then Ret (validateDownloadIMEI downloadIMEI)
  else
    let? provided := (if imeiProvider m then let? r := ask ProviderIMEI in Ret (TrimSpace r.1) else Ret "") in
    if bool_decide (provided ≠ "") then Ret (inl provided)
    else
      let? own := (if backend m then let? r := ask BackendIMEI in Ret (TrimSpace r.1) else Ret "") in
      if bool_decide (own ≠ "") then Ret (inl own) else Ret (inr (Plain "无法获取设备 IMEI")).

Definition report (step message : string) (pct : Z) : prog request unit := let? _ := ask (Report step message pct) in Ret tt.

(** What the library tells of its stages while it downloads. *)
Fixpoint report_stages (l : list stage) : prog request unit :=
  match l with
  | [] => Ret tt
  | s :: l =>
      let? _ := match s with
                | StageAuthenticateClient => report "auth_client" "正在向 SM-DP+ 进行客户端身份认证..." 30
                | StageAuthenticateServer => report "auth_server" "正在向 SM-DP+ 请求 Profile 数据包..." 60
                | StageInstall => report "install" "正在将 Profile 写入 eUICC..." 80
                | StageOther => Ret tt
                end in
      report_stages l
  end.

(** The application of the download: the given one, or the first that opens. *)
Fixpoint first_open (aids : list bytes) : prog request (option bytes) :=
  match aids with
  | [] => Ret None
  | aid :: aids =>
      let? opened := createLPAWithAID aid in
      match opened with Some _ => first_open aids | None => Ret (Some aid) end
  end.

Definition open_target (aids : list bytes) (aidHex : string) : prog request (bytes + error) :=
  if bool_decide (aidHex ≠ "") then
    match DecodeString aidHex with
    | None => Ret (inr (Errorf ("无效的 AID hex " +:+ Quote aidHex +:+ ": ") (hex_error aidHex) ""))
    | Some aid =>
        let? opened := createLPAWithAID aid in
        match opened with Some e => Ret (inr e) | None => Ret (inl aid) end
    end
  else
    let? found := first_open aids in
    match found with Some aid => Ret (inl aid) | None => Ret (inr (Plain "未找到可用的 eUICC AID")) end.

Definition recoverDownloadInstallFinalizeError (targetAID : bytes) (pre : list (option NotificationMetadata)) (downloadErr : error) :
    prog request (option ProfileResult) :=
  if bool_decide (targetAID = []) || negb (isRecoverableDownloadInstallFinalizeError unicode_lower (Some downloadErr)) then Ret None
  else
    let? cancelled := ask CtxErr in
    match cancelled with
    | Some _ => Ret None
    | None =>
        let? opened := createLPAWithAID targetAID in
        match opened with
        | Some _ => Ret None
        | None =>
            and_close "download_finalize_recovery" (
              let? r := sendDownloadInstallNotification (downloadNotificationBaseline pre None) 300 in
              if bool_decide (TrimSpace (WarningCode r) ≠ "") then Ret None else Ret (Some downloadFinalizeRecoveredResult))
        end
    end.

(** The caches after a download that changed the card. *)
Definition download_done (reason : string) : prog request unit :=
  let? _ := ask (InvalidateOverviewCache reason) in
  let? _ := ask (SuppressOverviewReload 2000) in
  let? _ := ask (TriggerOverviewReload reason) in
  Ret tt.

(** After an error of the download; the last component says that the client is
    still open. *)
Definition download_failed (targetAID : bytes) (pre : list (option NotificationMetadata) + error) (started : bool) (err : error) :
    prog request (ProfileResult * option error * bool) :=
  let failed still := 
    let? _ := ask (InvalidateOverviewCache "download_profile_failed") in
    Ret (no_warning, Some (NewDownloadProfileError (Some err)), still) in
  match pre with
  | inl pre =>
      if started then
        let? _ := report "notify" "安装结果异常，正在确认并发送下载通知..." 90 in
        let? _ := ask (CloseLPA "download_profile_finalize_error") in
        let? recovered := recoverDownloadInstallFinalizeError targetAID pre err in
        match recovered with
        | Some r => let? _ := download_done "download_profile_recovered" in Ret (r, None, false)
        | None => failed false
        end
      else failed true
  | inr _ => failed true
  end.

Definition download_succeeded (pre : list (option NotificationMetadata) + error) (before : Z) (result : option Z) :
    prog request (ProfileResult * option error * bool) :=
  let? _ := report "notify" "正在向运营商发送下载通知..." 90 in
  let lastSeq := downloadNotificationBaseline (match pre with inl l => l | inr _ => [] end) (downloadResultNotificationMetadata result) in
  let? r := sendDownloadInstallNotification lastSeq 300 in
  let? after := readFreeNvramBytesWithRetry 3 300 in
  let? _ := download_done "download_profile" in
  Ret (with_delta r (buildSpaceDeltaForOperation true before after), None, true).

Definition enough_space (free : Z) : bool := negb (bool_decide (0 < free) && bool_decide (free < 81920)).

(** With the client open. *)
Definition download_client (m : sources) (targetAID : bytes) (smdp matchingID confirmationCode downloadIMEI : string) :
    prog request (ProfileResult * option error * bool) :=
  let fail e := Ret (no_warning, Some e, true) in
  let? pre := safeListNotification (Some EventInstall) in
  let? _ := report "preflight" "正在检查 eUICC 剩余空间..." 10 in
  let? before := ask ReadFreeNvram in
  if negb (enough_space before)
  then fail (Plain ("已触发防炸卡保护拦截：目标 EID 剩余空间极度紧张（" +:+ pretty (before : Z) +:+ " Bytes / " +:+ FreeNvram before +:+ "，低于安全阈值 80KB）。请先删除多余的 Profile 释放空间后再试。"))
  else
    let? imei := resolveDownloadIMEI m downloadIMEI in
    match imei with
    | inr e => fail e
    | inl imei =>
        match ResolveDownloadAddress smdp matchingID with
        | inr e => fail e
        | inl (smdpHost, matchingID) =>
            match url_host ("https://" +:+ smdpHost) with
            | None => fail (Plain ("无效的 SM-DP+ 地址 " +:+ Quote smdp))
            | Some host =>
                if bool_decide (host = "") then fail (Plain ("无效的 SM-DP+ 地址 " +:+ Quote smdp))
                else
                  let? d := ask (DownloadToCard (mkActivation host matchingID imei (TrimSpace confirmationCode))) in
                  let? _ := report_stages (d_stages d) in
                  match d_result d with
                  | inr err => download_failed targetAID pre (bool_decide (StageInstall ∈ d_stages d)) err
                  | inl result => download_succeeded pre before result
                  end
            end
        end
    end.

Definition DownloadProfile (m : sources) (aids : list bytes) (aidHex smdp matchingID confirmationCode downloadIMEI : string) :
    prog request (ProfileResult * option error) :=
  let? _ := ask LockOperation in
  let? _ := ask (StoreChannelCtx true) in
  let? r :=
    (let? target := open_target aids aidHex in
     match target with
     | inr e => Ret (no_warning, Some e)
     | inl targetAID =>
         let? r := download_client m targetAID smdp matchingID confirmationCode downloadIMEI in
         let '(result, err, still) := r in
         let? _ := ask_if still (CloseLPA "download_profile") in
         Ret (result, err)
     end) in
  let? _ := ask (StoreChannelCtx false) in
  let? _ := ask UnlockOperation in
  let? _ := ask WriteDone in
  Ret r.
End Operations.
