(* ===== verification/EsimProfilesProofs.v ===== *)
(** * Properties of the operations on profiles and notifications

    The monitor follows the lock, the client, the one change of the card that an
    operation makes, the notifications that the card listed and those that were
    fetched; the programs of EsimProfiles.v keep it content whatever the card
    and the servers answer. *)

From Stdlib Require Import Ascii String.
From S2P Require Import Prelude GoText SmsCodec Interaction EsimErrors EsimScan EsimProfiles.
From stdpp Require Import strings.

#[local] Open Scope Z_scope.
#[local] Open Scope string_scope.

(** [v_changed] is how the change of the card ended; [v_sent] is whether the last
    of the fetched notifications that was sent arrived. *)
Record view := mkView {
  v_locked : bool; v_ctx : bool; v_client : bool; v_changed : option bool; v_outdated : bool; v_free : option Z;
  v_listed : list Z; v_fetched : Z; v_pending : list (option PendingNotification); v_sent : bool }.

Definition idle : view := mkView false false false None false None [] 0 [] false.

#[global] Instance pending_eq_dec : EqDecision PendingNotification.
Proof. solve_decision. Defined.

(** How the change of a card ended. *)
Definition ended (r : option error) : bool := bool_decide (r = None).

Definition allow (b : bool) (s : view) : option view := if b then Some s else None.

(** [asked] is the notification that the user named.  The card is used only with
    the lock held and one client open; it is changed once, and downloaded to only
    with enough space; only notifications that were listed or asked for are
    fetched, only fetched ones are sent, and one is removed only after it
    arrived; the overview is outdated only after a change was tried. *)
Definition profile_step (asked : Z) (s : view) (x : exchange request) : option view :=
  let '(mkView locked ctx client changed outdated free listed fetched pending sent) := s in
  let working := locked && client in
  match x_request x as c return answer c → option view with
  | LockOperation => λ _, allow (negb locked) (mkView true ctx client changed outdated free listed fetched pending sent)
  | AcquireOperationLock => λ r, allow (negb locked) (mkView (ended r) ctx client changed outdated free listed fetched pending sent)
  | UnlockOperation => λ _, allow (locked && negb client && negb ctx) (mkView false ctx client changed outdated free listed fetched pending sent)
  | WriteDone => λ _, allow (negb locked) s
  | StoreChannelCtx b => λ _, allow (locked && negb client) (mkView locked b client changed outdated free listed fetched pending sent)
  | CtxErr => λ _, allow ctx s
  | WaitForAPDUIdle | PreCleanChannels => λ _, allow (locked && negb client) s
  | FindAIDForICCID _ => λ _, allow (locked && negb client) s
  | CreateLPA _ => λ r, allow (locked && negb client) (mkView locked ctx (ended r) changed outdated free listed fetched pending sent)
  | CloseLPA _ => λ _, allow working (mkView locked ctx false changed outdated free listed fetched pending sent)
  | ListNotification _ => λ r,
      allow working (mkView locked ctx client changed outdated free
        (match r with Got l => SequenceNumber <$> omap id l | _ => listed end) fetched pending sent)
  | RetrieveNotificationList seq => λ r,
      allow (working && (bool_decide (seq ∈ listed) || bool_decide (seq = asked)))
        (mkView locked ctx client changed outdated free listed seq (match r with Got l => l | _ => [] end) false)
  | HandleNotification n => λ r,
      allow (working && bool_decide (n ∈ pending)) (mkView locked ctx client changed outdated free listed fetched pending (ended r))
  | RemoveNotificationFromList seq => λ _, allow (working && bool_decide (seq = fetched) && sent) s
  | ReadFreeNvram => λ r, allow working (mkView locked ctx client changed outdated (Some r) listed fetched pending sent)
  | DeleteOnCard _ | SetNickname _ _ => λ r,
      allow (working && bool_decide (changed = None)) (mkView locked ctx client (Some (ended r)) outdated free listed fetched pending sent)
  | DownloadToCard _ => λ d,
      allow (working && ctx && bool_decide (changed = None) && match free with Some f => enough_space f | None => false end)
        (mkView locked ctx client (Some (match d_result d with inl _ => true | inr _ => false end)) outdated free listed fetched pending sent)
  | ProviderIMEI | BackendIMEI | Report _ _ _ | Sleep _ => λ _, Some s
  | InvalidateOverviewCache _ => λ _,
      allow (locked && bool_decide (changed ≠ None)) (mkView locked ctx client changed true free listed fetched pending sent)
  | SuppressOverviewReload _ | TriggerOverviewReload _ => λ _, allow (locked && outdated) s
  end (x_answer x).

(** ** What the parts keep *)

(** Everything but the notifications and the space that was read. *)
Record core := mkCore { k_ctx : bool; k_client : bool; k_changed : option bool; k_outdated : bool }.

Definition at_core (k : core) (free : option Z) (listed : list Z) (fetched : Z) (pending : list (option PendingNotification)) (sent : bool) : view :=
  mkView true (k_ctx k) (k_client k) (k_changed k) (k_outdated k) free listed fetched pending sent.

(** Every pending notification that was fetched was sent. *)
Definition notified (pending : list (option PendingNotification)) (sent : bool) : Prop := pending = [] ∨ sent = true.

(** What an operation leaves in the end. *)
Definition released_all (s : view) : Prop := v_locked s = false ∧ v_ctx s = false ∧ v_client s = false.

(** The warning that the code of a result gives, spaces trimmed. *)
Definition unconfirmed (r : ProfileResult) : Prop := TrimSpace (WarningCode r) ≠ "".
Lemma confirmed_result r : WarningCode r = "" → ¬ unconfirmed r.
Proof. unfold unconfirmed. intros -> Hr. by apply Hr. Qed.

Section Parts.
Context (asked : Z) (is_undefined is_unexpected_tag is_nothing_to_delete : error → bool).
Notation T s p Q := (triple (profile_step asked) (eq s) p Q).

Ltac next := cbn [bind ask]; lazymatch goal with |- triple _ _ (Do _ _) _ => idtac end;
  apply triple_next; intros ?; eexists;
  split; [unfold profile_step, at_core; cbn beta iota delta [x_request x_answer]; cbn [k_ctx k_client k_changed k_outdated];
          repeat match goal with
                 | H : _ = true |- _ => progress rewrite H
                 | |- context [bool_decide ?P] =>
                     first [rewrite (bool_decide_eq_true_2 P) by (done || auto) | rewrite (bool_decide_eq_false_2 P) by done]
                 end; cbn [allow negb andb orb]; reflexivity|].

(** With the client open. *)
Section Open.
Context (ctx outdated : bool) (changed : option bool).
Notation at' := (at_core (mkCore ctx true changed outdated)).

(** Waiting changes nothing. *)
Lemma pause_ok b ms free listed fetched pending sent :
  T (at' free listed fetched pending sent) (ask_if b (Sleep ms)) (λ _ s, s = at' free listed fetched pending sent).
Proof. unfold ask_if. destruct b; [next|]; by apply triple_done. Qed.

(** Retrying keeps what every attempt keeps. *)
Lemma retry_ok {A} (I : view → Prop) (Q : A → view → Prop) n delay (op : prog request (A + error)) :
  (∀ s, I s → ∃ free listed fetched pending sent, s = at' free listed fetched pending sent) →
  triple (profile_step asked) I op (λ r s, match r with inl a => Q a s | inr _ => I s end) →
  triple (profile_step asked) I (retryWithBackoff n delay op) (λ r s, match r with inl a => Q a s | inr _ => I s end).
Proof.
  intros HI Hop. revert delay. induction n as [|n IH]; intros delay; cbn [retryWithBackoff]; apply triple_from; intros s Hs;
    (eapply triple_call; [apply (triple_at _ I); [exact Hop|exact Hs]|]); intros [a|e] s' Hs'; try (by apply triple_done).
  destruct (HI s' Hs') as (free & listed & fetched & pending & sent & ->). next. by apply (triple_at _ I).
Qed.

Lemma list_ok f free listed fetched pending sent :
  T (at' free listed fetched pending sent) (safeListNotification is_undefined is_unexpected_tag f)
    (λ r s, ∃ listed', s = at' free listed' fetched pending sent ∧ match r with inl l => listed' = SequenceNumber <$> omap id l | inr _ => True end).
Proof.
  unfold safeListNotification. next. match goal with r : answer _ |- _ => destruct r end; apply triple_done; eexists; (split; [reflexivity|done]).
Qed.

Lemma find_wait_ok find f n delay free listed fetched pending sent :
  (∀ l m, find l = Some m → Some m ∈ l) →
  T (at' free listed fetched pending sent) (find_wait is_undefined is_unexpected_tag find f n delay)
    (λ r s, ∃ listed', s = at' free listed' fetched pending sent ∧ match r with Some m => SequenceNumber m ∈ listed' | None => True end).
Proof.
  intros Hf. revert listed. induction n as [|n IH]; intros listed; cbn [find_wait]; [apply triple_done; eauto|].
  eapply triple_call; [apply list_ok|]. intros r s (listed' & -> & Hl).
  destruct (match r with inl l => find l | inr _ => None end) as [m|] eqn:Hm.
  - apply triple_done. exists listed'. split; [done|]. destruct r as [l|e]; [subst|done]. apply Hf in Hm.
    apply list_elem_of_fmap. exists m. split; [done|]. apply list_elem_of_omap. by exists (Some m).
  - eapply triple_call; [apply pause_ok|]. intros ? ? ->. apply IH.
Qed.

Lemma retrieve_ok seq free listed fetched pending sent :
  seq ∈ listed ∨ seq = asked →
  T (at' free listed fetched pending sent)
    (retryWithBackoff 3 300 (safeRetrieveNotificationList is_undefined is_unexpected_tag seq))
    (λ r s, match r with inl l => s = at' free listed seq l false
            | inr _ => ∃ fetched' pending' sent', s = at' free listed fetched' pending' sent' end).
Proof.
  intros Hseq. eapply triple_at with (P := λ s, ∃ fetched' pending' sent', s = at' free listed fetched' pending' sent'); [|eauto].
  apply retry_ok; [naive_solver|]. apply triple_from. intros s (fetched' & pending' & sent' & ->).
  assert (Hg : bool_decide (seq ∈ listed) || bool_decide (seq = asked) = true)
    by (destruct Hseq; [by rewrite bool_decide_eq_true_2|by rewrite orb_comm, bool_decide_eq_true_2]).
  unfold safeRetrieveNotificationList. next. match goal with r : answer _ |- _ => destruct r end; apply triple_done; cbn; eauto 6.
Qed.

Lemma handle_one_ok n free listed fetched pending sent :
  n ∈ pending →
  T (at' free listed fetched pending sent) (handle_one n)
    (λ r s, ∃ sent', s = at' free listed fetched pending sent' ∧ match r with inl _ => sent' = true | inr _ => True end).
Proof.
  intros Hn. eapply triple_conseq with (P' := λ s, ∃ sent', s = at' free listed fetched pending sent')
    (Q' := λ r s, match r with inl _ => s = at' free listed fetched pending true | inr _ => ∃ sent', s = at' free listed fetched pending sent' end);
    [|intros s <-; eauto|intros [r|e] s; naive_solver].
  apply retry_ok; [naive_solver|]. apply triple_from. intros s (sent' & ->).
  next. match goal with r : answer _ |- _ => destruct r end; apply triple_done; cbn; eauto.
Qed.

Lemma handle_pending_ok l free listed fetched pending sent :
  l ⊆ pending → (sent = true ∨ l = pending) →
  T (at' free listed fetched pending sent) (handle_pending l)
    (λ r s, ∃ sent', s = at' free listed fetched pending sent' ∧ match r with None => notified pending sent' | Some _ => True end).
Proof.
  revert sent. induction l as [|n l IH]; intros sent Hl Hs; cbn [handle_pending].
  { apply triple_done. exists sent. split; [done|]. destruct Hs as [->|<-]; [by right|by left]. }
  eapply triple_call; [apply handle_one_ok; set_solver|]. intros [[]|e] s (sent' & -> & Hr).
  - apply IH; [set_solver|by left].
  - apply triple_done. eauto.
Qed.

Lemma resolve_ok find result free listed fetched pending sent :
  (∀ listed, T (at' free listed fetched pending sent) find
     (λ r s, ∃ listed', s = at' free listed' fetched pending sent ∧ match r with Some m => SequenceNumber m ∈ listed' | None => True end)) →
  unconfirmed (result false None None) → (∀ e h, unconfirmed (result true (Some e) h)) → (∀ e, unconfirmed (result true None (Some e))) →
  T (at' free listed fetched pending sent) (resolve_notification is_undefined is_unexpected_tag find result)
    (λ r s, ∃ listed' fetched' pending' sent', s = at' free listed' fetched' pending' sent' ∧
       (¬ unconfirmed r → fetched' ∈ listed' ∧ notified pending' sent')).
Proof.
  intros Hfind Hw1 Hw2 Hw3. unfold resolve_notification. eapply triple_call; [apply Hfind|]. intros [m|] s (listed' & -> & Hm).
  2:{ apply triple_done. do 4 eexists. split; [done|]. intros Hr; by destruct Hr. }
  eapply triple_call; [apply retrieve_ok; by left|]. intros [l|e] s Hs; cbn beta match in Hs.
  2:{ destruct Hs as (? & ? & ? & ->). apply triple_done. do 4 eexists. split; [done|]. intros Hr; by destruct Hr. }
  subst s. eapply triple_call; [apply handle_pending_ok; [done|by right]|]. intros [e|] s (sent' & -> & Hr); apply triple_done; do 4 eexists; (split; [done|]).
  - intros Hr'; by destruct Hr'.
  - by intros _.
Qed.

Lemma matching_after l lastSeq m : findMatchingNotificationAfterSeq l lastSeq = Some m → Some m ∈ l.
Proof.
  intros Hm%head_Some_elem_of. apply list_elem_of_filter in Hm as [_ Hm]. apply list_elem_of_omap in Hm as ([n|] & Hn & [= ->]). done.
Qed.
Lemma matching_delete l lastSeq i m : findMatchingDeleteNotification l lastSeq i = Some m → Some m ∈ l.
Proof.
  intros Hm%head_Some_elem_of. apply list_elem_of_filter in Hm as [_ Hm]. apply list_elem_of_omap in Hm as ([n|] & Hn & [= ->]). done.
Qed.

Lemma delete_notification_ok lastSeq iccid delay free listed fetched pending sent :
  T (at' free listed fetched pending sent) (resolveDeleteNotificationResult is_undefined is_unexpected_tag lastSeq iccid delay)
    (λ r s, ∃ listed' fetched' pending' sent', s = at' free listed' fetched' pending' sent' ∧
       (¬ unconfirmed r → fetched' ∈ listed' ∧ notified pending' sent')).
Proof. apply resolve_ok; [|by vm_compute..]. intros l. apply find_wait_ok. intros ? ?. apply matching_delete. Qed.

Lemma install_notification_ok lastSeq delay free listed fetched pending sent :
  T (at' free listed fetched pending sent) (sendDownloadInstallNotification is_undefined is_unexpected_tag lastSeq delay)
    (λ r s, ∃ listed' fetched' pending' sent', s = at' free listed' fetched' pending' sent' ∧
       (¬ unconfirmed r → fetched' ∈ listed' ∧ notified pending' sent')).
Proof. apply resolve_ok; [|by vm_compute..]. intros l. apply find_wait_ok. intros ? ?. apply matching_after. Qed.

Lemma free_retry_ok n delay free listed fetched pending sent :
  T (at' free listed fetched pending sent) (readFreeNvramBytesWithRetry n delay)
    (λ _ s, ∃ free', s = at' free' listed fetched pending sent).
Proof.
  revert free. induction n as [|n IH]; intros free; cbn [readFreeNvramBytesWithRetry]; [apply triple_done; eauto|].
  next. case_bool_decide; [apply triple_done; eauto|]. eapply triple_call; [apply pause_ok|]. intros ? ? ->. apply IH.
Qed.
End Open.

(** ** Whole operations *)

(** The view when everything is released. *)
Definition rest_view changed outdated free listed fetched pending sent : view :=
  mkView false false false changed outdated free listed fetched pending sent.

(** The operation has come to [a] with the lock held, and [R] will hold when
    everything is released. *)
Definition reached {A} (ctx client : bool) (R : A → view → Prop) (a : A) (s : view) : Prop :=
  ∃ changed outdated free listed fetched pending sent,
    s = at_core (mkCore ctx client changed outdated) free listed fetched pending sent ∧
    R a (rest_view changed outdated free listed fetched pending sent).

Notation start_view := (at_core (mkCore false false None false) None [] 0 [] false).

Lemma and_close_ok {A} ctx (R : A → view → Prop) label (body : prog request A) s :
  T s body (reached ctx true R) → T s (and_close label body) (reached ctx false R).
Proof.
  intros Hb. unfold and_close. eapply triple_call; [exact Hb|]. intros a s' (c & o & f & l & q & p & st & -> & HR).
  next. apply triple_done. by exists c, o, f, l, q, p, st.
Qed.

Lemma under_lock_ok {A} (R : A → view → Prop) (body : prog request A) :
  T start_view body (reached false false R) → T idle (under_lock body) (λ a s, released_all s ∧ R a s).
Proof.
  intros Hb. unfold under_lock, idle. next. eapply triple_call; [exact Hb|]. intros a s (c & o & f & l & q & p & st & -> & HR).
  next. next. by apply triple_done.
Qed.

Lemma open_ok {A} ctx c o aid free listed fetched pending sent (f : option error → prog request A) Q :
  T (at_core (mkCore ctx true c o) free listed fetched pending sent) (f None) Q →
  (∀ e, T (at_core (mkCore ctx false c o) free listed fetched pending sent) (f (Some e)) Q) →
  T (at_core (mkCore ctx false c o) free listed fetched pending sent) (let? r := createLPAWithAID aid in f r) Q.
Proof.
  intros Ho Hf. unfold createLPAWithAID. next. match goal with r : answer _ |- _ => destruct r end; cbn [bind]; [apply Hf|apply Ho].
Qed.

(** ** DeleteProfile and RenameProfile *)

Definition delete_left (r : outcome (ProfileResult * option error)) (s : view) : Prop :=
  match r with
  | PanickedOut _ => v_changed s = None
  | Returned _ (result, err) =>
      (err = None ↔ v_changed s = Some true) ∧ (err = None → v_outdated s = true) ∧
      (err = None → WarningCode result = "" → v_fetched s ∈ v_listed s ∧ notified (v_pending s) (v_sent s))
  end.

Definition rename_left (err : option error) (s : view) : Prop :=
  (err = None ↔ v_changed s = Some true) ∧ (err = None → v_outdated s = true).

Lemma delete_client_ok `{Sgp22} iccid target :
  T (at_core (mkCore false true None false) None [] 0 [] false) (delete_client is_undefined is_unexpected_tag iccid target)
    (reached false true delete_left).
Proof.
  unfold delete_client. next. eapply triple_call; [apply list_ok|]. intros current s (listed' & -> & Hl).
  destruct (match current with inl l => existsb _ l | inr _ => false end).
  { apply triple_done. by do 7 eexists. }
  next. match goal with r : answer (DeleteOnCard _) |- _ => destruct r end.
  { apply triple_done. do 7 eexists. split; [reflexivity|]. by split_and!. }
  eapply triple_call; [apply delete_notification_ok|]. intros sent_result s (? & ? & ? & ? & -> & Hw).
  eapply triple_call; [apply free_retry_ok|]. intros after s (free' & ->).
  next. next. apply triple_done. do 7 eexists. split; [reflexivity|]. split_and!; [done|done|]. by intros _ ?%(confirmed_result sent_result)%Hw.
Qed.

Lemma rename_client_ok iccid name :
  T (at_core (mkCore false true None false) None [] 0 [] false) (rename_client iccid name) (reached false true rename_left).
Proof.
  unfold rename_client. next. match goal with r : answer (SetNickname _ _) |- _ => destruct r end.
  - apply triple_done. do 7 eexists. split; [reflexivity|]. by split.
  - next. next. apply triple_done. do 7 eexists. split; [reflexivity|]. by split.
Qed.

Lemma application_ok {A} err target aidHex (f : bytes + error → prog request A) Q :
  (∀ r, T start_view (f r) Q) → T start_view (let? r := target_aid err target aidHex in f r) Q.
Proof.
  intros Hf. unfold target_aid. case_bool_decide; [destruct (DecodeString aidHex); apply Hf|]. next. apply Hf.
Qed.

Context (NewICCID : string → bytes + error) (ICCID_String : bytes → string) (Quote : string → string) (hex_error : string → error) `{Sgp22}.

(** An operation that fails before it touches the card. *)
Lemma reached_early {A} ctx client (R : A → view → Prop) a s :
  R a (rest_view None false None [] 0 [] false) → s = at_core (mkCore ctx client None false) None [] 0 [] false → reached ctx client R a s.
Proof. intros HR ->. by do 7 eexists. Qed.

Lemma delete_failed e s : delete_left (Returned _ (no_warning, Some e)) (rest_view None false s [] 0 [] false).
Proof. by split_and!. Qed.

Lemma rename_failed e s : rename_left (Some e) (rest_view None false s [] 0 [] false).
Proof. by split. Qed.

Lemma delete_ok target aidHex :
  T idle (DeleteProfile NewICCID Quote hex_error is_undefined is_unexpected_tag target aidHex) (λ r s, released_all s ∧ delete_left r s).
Proof.
  apply under_lock_ok. unfold delete_locked. destruct (NewICCID target) as [iccid|e].
  2:{ apply triple_done, reached_early; [apply delete_failed|done]. }
  apply application_ok. intros [aid|e]; [|apply triple_done, reached_early; [apply delete_failed|done]].
  apply open_ok; [|intros e; apply triple_done, reached_early; [apply delete_failed|done]].
  apply and_close_ok, delete_client_ok.
Qed.

Lemma rename_ok target name aidHex :
  T idle (RenameProfile NewICCID Quote hex_error target name aidHex) (λ r s, released_all s ∧ rename_left r s).
Proof.
  apply under_lock_ok. destruct (NewICCID target) as [iccid|e].
  2:{ apply triple_done, reached_early; [apply rename_failed|done]. }
  apply application_ok. intros [aid|e]; [|apply triple_done, reached_early; [apply rename_failed|done]].
  apply open_ok; [|intros e; apply triple_done, reached_early; [apply rename_failed|done]].
  apply and_close_ok, rename_client_ok.
Qed.

(** ** Notifications *)

(** Sending the notifications of enablings and disablings and removing them. *)
Section Cleaning.
Notation at' := (at_core (mkCore false true None false)).

Lemma clean_pending_ok l any free listed fetched pending sent :
  l ⊆ pending → (any = true → sent = true) →
  T (at' free listed fetched pending sent) (clean_pending l any)
    (λ r s, ∃ sent', s = at' free listed fetched pending sent' ∧ match r with inl any' => any' = true → sent' = true | inr _ => True end).
Proof.
  revert any sent. induction l as [|[n|] l IH]; intros any sent Hl Hs; cbn [clean_pending]; [apply triple_done; eauto| |apply IH; [set_solver|done]].
  eapply triple_call; [apply handle_one_ok; set_solver|]. intros [[]|e] s (sent' & -> & Hr); [apply IH; [set_solver|done]|apply triple_done; eauto].
Qed.

Lemma clean_one_ok n free listed fetched pending sent :
  SequenceNumber n ∈ listed →
  T (at' free listed fetched pending sent) (clean_one is_undefined is_unexpected_tag is_nothing_to_delete n)
    (λ _ s, ∃ fetched' pending' sent', s = at' free listed fetched' pending' sent').
Proof.
  intros Hn. unfold clean_one. eapply triple_call; [apply retrieve_ok; by left|].
  intros [l|e] s Hs; cbn beta match in Hs; [subst s|destruct Hs as (? & ? & ? & ->); apply triple_done; eauto].
  destruct l as [|m l]; [apply triple_done; eauto|].
  eapply triple_call; [apply clean_pending_ok; [done|discriminate]|]. intros [[]|e] s (sent' & -> & Hs); [|apply triple_done; eauto|apply triple_done; eauto].
  rewrite Hs by done. set (s0 := at' _ _ _ _ _).
  eapply triple_call with (R := λ r s, match r with inl _ => s = s0 | inr _ => s = s0 end); [|intros [] ? ->; apply triple_done; eauto].
  apply (triple_at _ (λ s, s = s0)); [|done].
  apply (retry_ok false false None (λ s, s = s0) (λ _ s, s = s0)); [intros ? ->; unfold s0; by do 5 eexists|].
  apply triple_from. intros ? ->. unfold s0. next. apply triple_done. by destruct (checked _).
Qed.

Lemma clean_ok l cleaned free listed fetched pending sent :
  SequenceNumber <$> omap id l ⊆ listed →
  T (at' free listed fetched pending sent) (autoCleanLoadedNotifications is_undefined is_unexpected_tag is_nothing_to_delete l cleaned)
    (λ _ s, ∃ fetched' pending' sent', s = at' free listed fetched' pending' sent').
Proof.
  revert cleaned fetched pending sent. induction l as [|[n|] l IH]; intros cleaned fetched pending sent Hl; cbn [autoCleanLoadedNotifications];
    [apply triple_done; eauto| |by apply IH].
  cbn in Hl. destruct (isAutoCleanableLoadedNotification _); [|apply IH; set_solver].
  eapply triple_call; [apply clean_one_ok; set_solver|]. intros r s (? & ? & ? & ->). apply IH. set_solver.
Qed.

Lemma list_cleaned_ok aidHex free listed fetched pending sent :
  T (at' free listed fetched pending sent)
    (listNotificationItemsWithCleanup ICCID_String is_undefined is_unexpected_tag is_nothing_to_delete aidHex)
    (λ _ s, ∃ listed' fetched' pending' sent', s = at' free listed' fetched' pending' sent').
Proof.
  unfold listNotificationItemsWithCleanup. eapply triple_call; [apply list_ok|]. intros [l|e] s (listed' & -> & Hl); [|apply triple_done; eauto].
  eapply triple_call; [apply clean_ok; by rewrite Hl|]. intros [|c cleaned] s (? & ? & ? & ->); [apply triple_done; eauto 6|].
  eapply triple_call; [apply list_ok|]. intros r s (? & -> & _). apply triple_done. eauto 6.
Qed.
End Cleaning.

(** Listing changes no profile. *)
Definition list_left {A} (r : A) (s : view) : Prop := v_changed s = None ∧ v_outdated s = false.

Lemma list_all_ok aids items n e listed fetched pending sent :
  T (at_core (mkCore false false None false) None listed fetched pending sent)
    (list_all ICCID_String is_undefined is_unexpected_tag is_nothing_to_delete aids items n e) (reached false false list_left).
Proof.
  revert items n e listed fetched pending sent. induction aids as [|aid aids IH]; intros; cbn [list_all].
  { apply triple_done. do 7 eexists. by split. }
  apply open_ok; [|intros; apply IH]. eapply triple_call; [apply list_cleaned_ok|]. intros r s (? & ? & ? & ? & ->).
  next. destruct r; apply IH.
Qed.

Lemma under_operation_lock_ok {A} busy (R : A → view → Prop) (body : prog request A) :
  (∀ e, R (busy e) idle) → T start_view body (reached false false R) →
  T idle (under_operation_lock busy body) (λ a s, released_all s ∧ R a s).
Proof.
  intros HR Hb. unfold under_operation_lock, idle. next. match goal with r : answer _ |- _ => destruct r end; cbn [ended].
  { apply triple_done. split; [done|]. apply HR. }
  eapply triple_call; [exact Hb|]. intros a s (c & o & f & l & q & p & st & -> & Ha). next. next. by apply triple_done.
Qed.

Lemma when_idle_ok {A} arbiter clean busy (body : prog request A) R :
  (∀ e, R (busy e) start_view) → T start_view body R → T start_view (when_idle arbiter clean busy body) R.
Proof.
  intros HR Hb. unfold when_idle. eapply triple_call with (R := λ _ s, s = start_view).
  { destruct arbiter; [unfold ask; next|]; by apply triple_done. }
  intros [e|] ? ->; [apply triple_done, HR|]. destruct clean; [cbn [ask_if]; next; exact Hb|exact Hb].
Qed.

Lemma list_operation_ok arbiter clean aids aidHex :
  T idle (ListNotifications ICCID_String Quote hex_error is_undefined is_unexpected_tag is_nothing_to_delete arbiter clean aids aidHex)
    (λ r s, released_all s ∧ list_left r s).
Proof.
  assert (He : ∀ A (a : A), reached false false list_left a start_view) by (intros; do 7 eexists; by split).
  unfold ListNotifications, listNotificationsForCurrentCard. destruct (resolveNotificationAID _ _ _) as [[|b l]|e]; [| |by apply triple_done].
  all: apply under_operation_lock_ok; [done|]; apply when_idle_ok; [intros; apply He|].
  - eapply triple_call; [apply list_all_ok|]. intros r s (? & ? & ? & ? & ? & ? & ? & -> & HR). apply triple_done. by do 7 eexists.
  - apply open_ok; [|intros; apply triple_done; apply He].
    eapply triple_call; [apply list_cleaned_ok|]. intros r s (? & ? & ? & ? & ->). next.
    destruct (match r with inl _ => _ | inr _ => _ end); apply triple_done; do 7 eexists; by split.
Qed.

(** Sending again: without an error every pending notification was sent. *)
Definition retry_left (err : option error) (s : view) : Prop :=
  v_changed s = None ∧ (err = None → v_fetched s = asked ∧ v_pending s ≠ []).

Lemma retry_pending_ok l free listed fetched pending sent :
  l ⊆ pending →
  T (at_core (mkCore false true None false) free listed fetched pending sent) (retry_pending l)
    (λ _ s, ∃ sent', s = at_core (mkCore false true None false) free listed fetched pending sent').
Proof.
  revert sent. induction l as [|[n|] l IH]; intros sent Hl; cbn [retry_pending]; [apply triple_done; eauto| |apply IH; set_solver].
  eapply triple_call; [apply handle_one_ok; set_solver|]. intros [[]|e] s (sent' & -> & _); [apply IH; set_solver|apply triple_done; eauto].
Qed.

Lemma retry_operation_ok aidHex :
  T idle (RetryNotification Quote hex_error is_undefined is_unexpected_tag asked aidHex) (λ r s, released_all s ∧ retry_left r s).
Proof.
  assert (Hfail : ∀ e s, retry_left (Some e) (rest_view None false s [] 0 [] false)) by (intros; by split).
  apply under_lock_ok. case_bool_decide; [apply triple_done, reached_early; [apply Hfail|done]|].
  destruct (resolveNotificationAID _ _ _) as [aid|e]; [|apply triple_done, reached_early; [apply Hfail|done]].
  apply open_ok; [|intros e; apply triple_done, reached_early; [apply Hfail|done]].
  apply and_close_ok. unfold retry_client, safeRetrieveNotificationList. next.
  match goal with r : answer _ |- _ => destruct r as [l|e|v] end; cbn [safely].
  - destruct l as [|n l].
    + apply triple_done. do 7 eexists. split; [reflexivity|]. by split.
    + eapply triple_conseq; [apply retry_pending_ok; done|intros s <-; reflexivity|].
      intros err s (sent' & ->). do 7 eexists. split; [reflexivity|]. by split.
  - destruct (is_undefined _); apply triple_done; do 7 eexists; (split; [reflexivity|]); by split.
  - destruct (is_undefined _); apply triple_done; do 7 eexists; (split; [reflexivity|]); by split.
Qed.

(** ** Downloads *)

Context (ResolveDownloadAddress : string → string → (string * string) + error) (url_host : string → option string).
Context (FreeNvram : Z → string) (unicode_lower : string → string).

(** Success is a download that ended well, or one whose notification was sent
    all the same; the overview is outdated by every attempt. *)
Definition download_left (r : ProfileResult * option error) (s : view) : Prop :=
  let '(result, err) := r in
  let confirmed := v_fetched s ∈ v_listed s ∧ notified (v_pending s) (v_sent s) in
  (v_changed s = Some true → err = None) ∧
  (err = None → WarningCode result = "" → v_changed s = Some true ∧ confirmed) ∧
  (err = None → v_changed s = Some false → result = downloadFinalizeRecoveredResult ∧ confirmed) ∧
  (err = None → v_changed s ≠ None) ∧
  (v_changed s ≠ None → v_outdated s = true).

Notation at_download client changed := (at_core (mkCore true client changed false)).

Lemma download_untouched e free listed fetched pending sent :
  download_left (no_warning, Some e) (rest_view None false free listed fetched pending sent).
Proof. by split_and!. Qed.

Lemma report_stages_ok l s : v_locked s = true → T s (report_stages l) (λ _ s', s' = s).
Proof.
  intros Hs. destruct s. induction l as [|[] l IH]; cbn [report_stages]; [by apply triple_done|..]; unfold report; try next; exact IH.
Qed.

Lemma download_done_ok reason client changed free listed fetched pending sent :
  changed ≠ None →
  T (at_download client changed free listed fetched pending sent) (download_done reason)
    (λ _ s, s = at_core (mkCore true client changed true) free listed fetched pending sent).
Proof. intros Hc. unfold download_done. next. next. next. by apply triple_done. Qed.

Lemma imei_ok m downloadIMEI client changed free listed fetched pending sent :
  T (at_download client changed free listed fetched pending sent) (resolveDownloadIMEI m downloadIMEI)
    (λ _ s, s = at_download client changed free listed fetched pending sent).
Proof.
  unfold resolveDownloadIMEI. case_bool_decide; [by apply triple_done|].
  eapply triple_call with (R := λ _ s, s = at_download client changed free listed fetched pending sent).
  { destruct (imeiProvider m); [next|]; by apply triple_done. }
  intros provided ? ->. case_bool_decide; [by apply triple_done|].
  eapply triple_call with (R := λ _ s, s = at_download client changed free listed fetched pending sent).
  { destruct (backend m); [next|]; by apply triple_done. }
  intros own ? ->. case_bool_decide; by apply triple_done.
Qed.

(** After the client was closed: it is closed again, and a result means that the
    notification was sent. *)
Lemma recover_ok target pre err free listed fetched pending sent :
  T (at_download false (Some false) free listed fetched pending sent)
    (recoverDownloadInstallFinalizeError is_undefined is_unexpected_tag unicode_lower target pre err)
    (λ r s, ∃ listed' fetched' pending' sent', s = at_download false (Some false) free listed' fetched' pending' sent' ∧
       (∀ result, r = Some result → result = downloadFinalizeRecoveredResult ∧ fetched' ∈ listed' ∧ notified pending' sent')).
Proof.
  unfold recoverDownloadInstallFinalizeError. destruct (_ || _); [apply triple_done; by do 5 eexists|].
  next. match goal with r : answer _ |- _ => destruct r end; [apply triple_done; by do 5 eexists|].
  apply open_ok; [|intros; apply triple_done; by do 5 eexists].
  unfold and_close. eapply triple_call.
  { eapply triple_call; [apply install_notification_ok|]. intros r s Hs.
    instantiate (1 := λ r s, ∃ listed' fetched' pending' sent', s = at_download true (Some false) free listed' fetched' pending' sent' ∧
       (∀ result, r = Some result → result = downloadFinalizeRecoveredResult ∧ fetched' ∈ listed' ∧ notified pending' sent')).
    destruct Hs as (l & q & p & st & -> & Hw). cbn beta. case_bool_decide as Ht; apply triple_done; exists l, q, p, st; (split; [done|]); [done|].
    intros ? [= <-]. split; [done|]. apply Hw. unfold unconfirmed. tauto. }
  intros r s (l & q & p & st & -> & Hr). next. apply triple_done. by exists l, q, p, st.
Qed.

(** After the library's error, with the client open: the last component tells
    whether it still is. *)
Lemma download_failed_ok target pre started err free listed fetched pending sent :
  T (at_download true (Some false) free listed fetched pending sent)
    (download_failed is_undefined is_unexpected_tag unicode_lower target pre started err)
    (λ '(result, err, still), reached true still download_left (result, err)).
Proof.
  assert (Hlost : ∀ client free listed fetched pending sent,
    T (at_download client (Some false) free listed fetched pending sent)
      (let? _ := ask (InvalidateOverviewCache "download_profile_failed") in
       Ret (no_warning, Some (NewDownloadProfileError (Some err)), client))
      (λ '(result, err, still), reached true still download_left (result, err))).
  { intros. next. apply triple_done. do 7 eexists. split; [reflexivity|]. by split_and!. }
  unfold download_failed. destruct pre as [pre|e]; [|apply Hlost]. destruct started; [|apply Hlost].
  unfold report. next. next. eapply triple_call; [apply recover_ok|]. intros [found|] s (l & q & p & st & -> & Hr); [|apply Hlost].
  destruct (Hr found eq_refl) as [-> Hc]. eapply triple_call; [by apply download_done_ok|]. intros _ s ->. apply triple_done.
  do 7 eexists. split; [reflexivity|]. by split_and!.
Qed.

Lemma download_succeeded_ok pre before result free listed fetched pending sent :
  T (at_download true (Some true) free listed fetched pending sent)
    (download_succeeded is_undefined is_unexpected_tag pre before result)
    (λ '(result, err, still), reached true still download_left (result, err)).
Proof.
  unfold download_succeeded, report. next. eapply triple_call; [apply install_notification_ok|]. intros told s (? & ? & ? & ? & -> & Hw).
  eapply triple_call; [apply free_retry_ok|]. intros after s (free' & ->).
  eapply triple_call; [by apply download_done_ok|]. intros _ s ->. apply triple_done.
  do 7 eexists. split; [reflexivity|]. split_and!; try done. intros _ Hc. split; [done|]. by apply Hw, (confirmed_result told).
Qed.

Lemma download_client_ok m target smdp matchingID confirmationCode downloadIMEI :
  T (at_download true None None [] 0 [] false)
    (download_client Quote is_undefined is_unexpected_tag ResolveDownloadAddress url_host FreeNvram unicode_lower m target smdp matchingID confirmationCode downloadIMEI)
    (λ '(result, err, still), reached true still download_left (result, err)).
Proof.
  assert (Hfail : ∀ e free listed, reached true true download_left (no_warning, Some e) (at_download true None free listed 0 [] false)).
  { intros. do 7 eexists. split; [reflexivity|]. apply download_untouched. }
  unfold download_client, report. eapply triple_call; [apply list_ok|]. intros pre s (listed' & -> & _). next. next.
  match goal with r : answer ReadFreeNvram |- _ => rename r into before end.
  destruct (enough_space before) eqn:Hspace; cbn [negb]; [|apply triple_done, Hfail].
  eapply triple_call; [apply imei_ok|]. intros [imei|e] s ->; [|apply triple_done, Hfail].
  destruct (ResolveDownloadAddress _ _) as [[smdpHost mid]|e]; [|apply triple_done, Hfail].
  destruct (url_host _) as [host|]; [|apply triple_done, Hfail]. case_bool_decide; [apply triple_done, Hfail|].
  next. eapply triple_call; [by apply report_stages_ok|]. intros [] s ->. cbn beta. destruct (d_result _) as [result|err].
  - apply download_succeeded_ok.
  - apply download_failed_ok.
Qed.

Lemma first_open_ok aids :
  T (at_download false None None [] 0 [] false) (first_open aids)
    (λ r s, s = at_download (bool_decide (is_Some r)) None None [] 0 [] false).
Proof.
  induction aids as [|aid aids IH]; cbn [first_open]; [by apply triple_done|]. apply open_ok; [by apply triple_done|intros; apply IH].
Qed.

Lemma open_target_ok aids aidHex :
  T (at_download false None None [] 0 [] false) (open_target Quote hex_error aids aidHex)
    (λ r s, s = at_download (match r with inl _ => true | inr _ => false end) None None [] 0 [] false).
Proof.
  unfold open_target. case_bool_decide.
  - destruct (DecodeString aidHex); [|by apply triple_done]. apply open_ok; intros; by apply triple_done.
  - eapply triple_call; [apply first_open_ok|]. intros [aid|] s ->; by apply triple_done.
Qed.

Lemma download_ok m aids aidHex smdp matchingID confirmationCode downloadIMEI :
  T idle (DownloadProfile Quote hex_error is_undefined is_unexpected_tag ResolveDownloadAddress url_host FreeNvram unicode_lower m aids aidHex smdp matchingID confirmationCode downloadIMEI)
    (λ r s, released_all s ∧ download_left r s).
Proof.
  unfold DownloadProfile, idle. next. next. eapply triple_call with (R := reached true false download_left).
  - eapply triple_call; [apply open_target_ok|]. intros [target|e] s ->.
    + eapply triple_call; [apply download_client_ok|]. intros [[result err] still] s (c & o & f & l & q & p & st & -> & HR).
      destruct still; cbn [ask_if]; [next|]; apply triple_done; by exists c, o, f, l, q, p, st.
    + apply triple_done. do 7 eexists. split; [reflexivity|]. apply download_untouched.
  - intros res s (c & o & f & l & q & p & st & -> & HR). next. next. next. by apply triple_done.
Qed.
End Parts.

(** ** The operations together *)

Inductive operation :=
  | Delete (targetICCID aidHex : string)
  | Rename (targetICCID newName aidHex : string)
  | Retry (sequenceNumber : Z) (aidHex : string)
  | ListAll (arbiter clean : bool) (aids : list bytes) (aidHex : string)
  | Download (m : sources) (aids : list bytes) (aidHex smdp matchingID confirmationCode downloadIMEI : string).

Definition result_of (op : operation) : Type :=
  match op with
  | Delete _ _ => outcome (ProfileResult * option error)
  | Rename _ _ _ | Retry _ _ => option error
  | ListAll _ _ _ _ => list NotificationItem + error
  | Download _ _ _ _ _ _ _ => ProfileResult * option error
  end.

(** The notification that the caller asks for; their numbers are positive. *)
Definition asked_by (op : operation) : Z := match op with Retry n _ => n | _ => 0 end.

Definition left_by (op : operation) : result_of op → view → Prop :=
  match op with
  | Delete _ _ => delete_left
  | Rename _ _ _ => rename_left
  | Retry n _ => retry_left n
  | ListAll _ _ _ _ => list_left
  | Download _ _ _ _ _ _ _ => download_left
  end.

Section Run.
Context (NewICCID : string → bytes + error) (ICCID_String : bytes → string) (Quote : string → string) (hex_error : string → error).
Context (is_undefined is_unexpected_tag is_nothing_to_delete : error → bool).
Context (ResolveDownloadAddress : string → string → (string * string) + error) (url_host : string → option string).
Context (FreeNvram : Z → string) (unicode_lower : string → string) `{Sgp22}.

Definition run (op : operation) : prog request (result_of op) :=
  match op with
  | Delete target aidHex => DeleteProfile NewICCID Quote hex_error is_undefined is_unexpected_tag target aidHex
  | Rename target name aidHex => RenameProfile NewICCID Quote hex_error target name aidHex
  | Retry n aidHex => RetryNotification Quote hex_error is_undefined is_unexpected_tag n aidHex
  | ListAll arbiter clean aids aidHex =>
      ListNotifications ICCID_String Quote hex_error is_undefined is_unexpected_tag is_nothing_to_delete arbiter clean aids aidHex
  | Download m aids aidHex smdp matchingID confirmationCode downloadIMEI =>
      DownloadProfile Quote hex_error is_undefined is_unexpected_tag ResolveDownloadAddress url_host FreeNvram unicode_lower
        m aids aidHex smdp matchingID confirmationCode downloadIMEI
  end.

(** C20: whatever the card, the library and the servers answer, an operation on
    profiles or notifications opens at most one client at a time and only under
    the lock, gives both back however it ends, makes at most one change of the
    card, downloads only with enough space, fetches only notifications that the
    card listed or the caller asked for, sends only fetched ones and removes one
    only after it arrived.  An error is returned exactly when a deletion or a
    renaming did not happen, a download without error changed the card or was
    confirmed by its notification, no warning means that the notifications were
    sent, and every change outdates the overview. *)
Theorem profile_operations (op : operation) trace (r : result_of op) :
  exec (run op) trace r →
  ∃ s, watch (profile_step (asked_by op)) idle trace = Some s ∧ released_all s ∧ left_by op r s.
Proof.
  intros Hx. assert (Ht : triple (profile_step (asked_by op)) (eq idle) (run op) (λ a s, released_all s ∧ left_by op a s)).
  { destruct op; [apply delete_ok|apply rename_ok|apply retry_operation_ok|apply list_operation_ok|apply download_ok]; done. }
  exact (Ht idle trace r eq_refl Hx).
Qed.
End Run.

(** A deletion on a card that lists its notification after it, and sends it at
    the second attempt: the state counts the attempts. *)
Definition deleting_card (s : Z) (c : request) : answer c * Z :=
  match c return answer c * Z with
  | AcquireOperationLock | CtxErr | WaitForAPDUIdle | CreateLPA _ | CloseLPA _ => (None, s)
  | RemoveNotificationFromList _ | SetNickname _ _ => (None, s)
  | DeleteOnCard _ => (None, 1)
  | HandleNotification _ => (if bool_decide (s = 1) then Some (Plain "timeout") else None, s + 1)
  | FindAIDForICCID _ => (inl [160], s)
  | ListNotification _ =>
      (Got (if bool_decide (s = 0) then [Some (mkMeta 4 EventEnable "" [1])] else [Some (mkMeta 4 EventEnable "" [1]); Some (mkMeta 5 EventDelete "" [1])]), s)
  | RetrieveNotificationList n => (Got [Some (mkPending n)], s)
  | ReadFreeNvram => (if bool_decide (s = 0) then 100000 else 150000, s)
  | DownloadToCard _ => (mkDownload [] (inl None), s)
  | ProviderIMEI | BackendIMEI => (("", None), s)
  | LockOperation | UnlockOperation | WriteDone | StoreChannelCtx _ | PreCleanChannels | Report _ _ _ | Sleep _
  | InvalidateOverviewCache _ | SuppressOverviewReload _ | TriggerOverviewReload _ => (tt, s)
  end.

#[local] Instance demo_card_library : Sgp22 := demo_sgp22.

(** The deletion of a profile, its notification sent again, 50000 bytes more
    free. *)
Lemma profile_operations_witness :
  ∃ trace r,
    r = Returned _ (mkProfileResult "" "" (Some (mkDelta true 50000)), None) ∧
    ∃ s, watch (profile_step 0) idle trace = Some s ∧ released_all s ∧ delete_left r s.
Proof.
  set (program := run (λ _, inl [1]) (λ _, "") (λ s, s) (λ _, Plain "hex") (λ _, false) (λ _, false) (λ _, false) (λ _ _, inr (Plain ""))
    (λ _, None) (λ _, "") (λ s, s) (Delete "8901" "")).
  exists (run_on deleting_card program 0).1.1, (run_on deleting_card program 0).1.2.
  split; [vm_compute; reflexivity|].
  refine (profile_operations (λ _, inl [1]) (λ _, "") (λ s, s) (λ _, Plain "hex") (λ _, false) (λ _, false) (λ _, false) (λ _ _, inr (Plain ""))
    (λ _, None) (λ _, "") (λ s, s) (Delete "8901" "") (run_on deleting_card program 0).1.1 (run_on deleting_card program 0).1.2 _).
  exact (run_on_exec deleting_card program 0).
Defined.

(** ** The check digit of an IMEI *)

Definition luhn_weight (double : bool) (a : ascii) : Z :=
  let n := digit_value a in if double then (if bool_decide (9 < 2 * n) then 2 * n - 9 else 2 * n) else n.

Lemma luhn_sum_from digits d sum : luhn_sum digits d sum = sum + luhn_sum digits d 0.
Proof.
  revert d sum. induction digits as [|a digits IH]; intros d sum; cbn [luhn_sum]; [lia|].
  rewrite IH, (IH _ (0 + _)). lia.
Qed.

Lemma luhn_sum_cons a l d : luhn_sum (a :: l) d 0 = luhn_weight d a + luhn_sum l (negb d) 0.
Proof. cbn [luhn_sum]. rewrite luhn_sum_from. unfold luhn_weight. lia. Qed.

Lemma luhn_sum_app l1 l2 d :
  luhn_sum (l1 ++ l2) d 0 = luhn_sum l1 d 0 + luhn_sum l2 (xorb d (Nat.odd (length l1))) 0.
Proof.
  revert d. induction l1 as [|a l1 IH]; intros d; cbn [app length].
  - by rewrite xorb_false_r.
  - rewrite !luhn_sum_cons, IH,  Nat.odd_succ, <-Nat.negb_odd.
    replace (xorb (negb d) (Nat.odd (length l1))) with (xorb d (negb (Nat.odd (length l1)))) by (by destruct d, (Nat.odd _)). lia.
Qed.

Lemma is_digit_value a : is_digit a = true → (0 ≤ digit_value a ≤ 9)%Z.
Proof. unfold is_digit, digit_value, code. intros [?%Nat.leb_le ?%Nat.leb_le]%andb_prop. lia. Qed.

(** Doubling and adding the digits permutes them. *)
Lemma luhn_weight_inj d a b :
  is_digit a = true → is_digit b = true → luhn_weight d a mod 10 = luhn_weight d b mod 10 → digit_value a = digit_value b.
Proof.
  intros Ha%is_digit_value Hb%is_digit_value. unfold luhn_weight. set (x := digit_value a) in *. set (y := digit_value b) in *. clearbody x y.
  destruct d; repeat case_bool_decide; intros He; Z.to_euclidean_division_equations; lia.
Qed.

Lemma digit_value_inj a b : digit_value a = digit_value b → a = b.
Proof.
  unfold digit_value, code. intros He. rewrite <-(ascii_nat_embedding a), <-(ascii_nat_embedding b). f_equal. lia.
Qed.

Lemma check_digit_sum digits :
  length digits = 15%nat → forallb is_digit digits = true →
  option_map code (last digits) = Some (imeiLuhnCheckDigit (take 14 digits)) ↔ luhn_sum (rev digits) false 0 mod 10 = 0.
Proof.
  intros Hl Hd. destruct digits as [|c base _] using rev_ind; [done|]. rewrite length_app in Hl. cbn [length] in Hl.
  rewrite last_snoc, take_app_length', rev_app_distr by lia. cbn [rev app option_map]. rewrite luhn_sum_cons. cbn [negb].
  rewrite forallb_app in Hd. apply andb_prop in Hd as [_ Hd]. cbn in Hd. rewrite andb_true_r in Hd. apply is_digit_value in Hd.
  unfold imeiLuhnCheckDigit, luhn_weight. unfold digit_value in *. generalize dependent (luhn_sum (rev base) true 0). intros S.
  split; [intros [= He]|intros He; f_equal]; Z.to_euclidean_division_equations; lia.
Qed.

(** An IMEI is accepted for a download when it has, spaces trimmed, fifteen
    digits whose Luhn sum is divisible by ten, and so two accepted IMEIs never
    differ in one digit. *)
Theorem imei_checked :
  (∀ s i, validateDownloadIMEI s = inl i ↔
     i = TrimSpace s ∧ length (list_ascii_of_string i) = 15%nat ∧ forallb is_digit (list_ascii_of_string i) = true ∧
     luhn_sum (rev (list_ascii_of_string i)) false 0 mod 10 = 0) ∧
  (∀ s1 s2 i1 i2 l a b r,
     validateDownloadIMEI s1 = inl i1 → validateDownloadIMEI s2 = inl i2 →
     list_ascii_of_string i1 = (l ++ a :: r)%list → list_ascii_of_string i2 = (l ++ b :: r)%list → i1 = i2).
Proof.
  assert (Hiff : ∀ s i, validateDownloadIMEI s = inl i ↔
     i = TrimSpace s ∧ length (list_ascii_of_string i) = 15%nat ∧ forallb is_digit (list_ascii_of_string i) = true ∧
     luhn_sum (rev (list_ascii_of_string i)) false 0 mod 10 = 0).
  { intros s i. unfold validateDownloadIMEI. case_bool_decide as Hl.
    { split; [done|]. by intros (-> & H15 & _). }
    destruct (forallb is_digit _) eqn:Hd; cbn [negb]; [|split; [done|]; intros (-> & _ & Hd' & _); congruence].
    case_bool_decide as Hc; (split; [try discriminate|]).
    - intros (-> & H15 & _ & Hs). destruct Hc. by apply check_digit_sum.
    - intros [= <-]. split_and!; [done..|]. by apply check_digit_sum.
    - intros (-> & _). done. }
  split; [done|]. intros s1 s2 i1 i2 l a b r (_ & _ & Hd1 & Hs1)%Hiff (_ & _ & Hd2 & Hs2)%Hiff E1 E2.
  rewrite E1 in *. rewrite E2 in *.
  rewrite <-(string_of_list_ascii_of_string i1), <-(string_of_list_ascii_of_string i2), E1, E2. do 3 f_equal.
  apply digit_value_inj. rewrite forallb_app in Hd1, Hd2. cbn in Hd1, Hd2. apply andb_prop in Hd1 as [_ [Ha _]%andb_prop], Hd2 as [_ [Hb _]%andb_prop].
  apply (luhn_weight_inj (Nat.odd (length (rev r)))); [done..|].
  rewrite rev_app_distr in Hs1, Hs2. cbn [rev] in Hs1, Hs2. rewrite <-app_assoc in Hs1, Hs2. cbn [app] in Hs1, Hs2.
  rewrite luhn_sum_app, luhn_sum_cons in Hs1, Hs2. rewrite xorb_false_l in *. 
  set (w1 := luhn_weight _ a) in *. set (w2 := luhn_weight _ b) in *. clearbody w1 w2.
  set (A := luhn_sum (rev r) _ 0) in *. set (B := luhn_sum (rev l) _ 0) in *. clearbody A B. clear - Hs1 Hs2.
  Z.to_euclidean_division_equations. lia.
Qed.

Lemma imei_checked_witness :
  validateDownloadIMEI " 490154203237518" = inl "490154203237518" ∧
  luhn_sum (rev (list_ascii_of_string "490154203237518")) false 0 mod 10 = 0.
Proof.
  assert (H : validateDownloadIMEI " 490154203237518" = inl "490154203237518") by (vm_compute; reflexivity).
  split; [exact H|]. exact (proj2 (proj2 (proj2 (proj1 (proj1 imei_checked _ _) H)))).
Defined.
