(* ===== verification/SimAuthGate.v ===== *)
(** * The gate of SIM authentication (internal/apduarbiter/simauth_ready.go)

    After a switch of the card nobody may authenticate before a probe found the
    card ready.  Callers of [WaitSIMAuthReady] share one probe: the first one
    runs it, the others wait on a channel that is closed when it is over.  Each
    section under [mu] is one step; callers, contexts that end and
    [InvalidateSIMAuthReady] interleave between them.  [probed] is not in the
    code: it collects the generations in which a probe began and succeeded. *)

From S2P Require Import Prelude.
From stdpp Require Import gmap.

#[local] Open Scope Z_scope.

Inductive outcome := GateReady | GateCancelled | GateProbeFailed.

(** Where a caller is. *)
Inductive pc :=
  | Checking
  | Waiting (c : nat)
  | Probing (generation : Z) (c : nat)
  | Returned (r : outcome).

(** [simAuthReadyState] and the callers; channels are numbered. *)
Record gate := mkGate {
  generation : Z; ready : bool; probing : bool; waitC : option nat;
  closed : gset nat; made : nat; callers : gmap nat pc; probed : gset Z }.

Definition start : gate := mkGate 0 false false None ∅ 0 ∅ ∅.

Definition at_pc (s : gate) (i : nat) (p : pc) : gate :=
  mkGate (generation s) (ready s) (probing s) (waitC s) (closed s) (made s) (<[i := p]> (callers s)) (probed s).

Definition InvalidateSIMAuthReady (s : gate) : gate :=
  mkGate (u64 (generation s + 1)) false (probing s) (waitC s) (closed s) (made s) (callers s) (probed s).

(** The section at the top of the loop. *)
Definition look (i : nat) (s : gate) : gate :=
  if ready s then at_pc s i (Returned GateReady)
  else if probing s then
    match waitC s with
    | Some c => at_pc s i (Waiting c)
    | None =>
        mkGate (generation s) (ready s) (probing s) (Some (made s)) (closed s) (S (made s)) (<[i := Waiting (made s)]> (callers s)) (probed s)
    end
  else
    mkGate (generation s) (ready s) true (Some (made s)) (closed s) (S (made s)) (<[i := Probing (generation s) (made s)]> (callers s)) (probed s).

(** The section after the probe. *)
Definition finish (i : nat) (g : Z) (c : nat) (ok : bool) (s : gate) : gate :=
  let stale := negb (bool_decide (generation s = g)) in
  let mine := bool_decide (waitC s = Some c) in
  mkGate (generation s) (if stale then ready s else ok) false
    (if mine then None else waitC s) (if mine then {[c]} ∪ closed s else closed s) (made s)
    (<[i := if negb ok then Returned GateProbeFailed else if stale then Checking else Returned GateReady]> (callers s))
    (if ok then {[g]} ∪ probed s else probed s).

Inductive event :=
  | Call (i : nat)
  | Cancelled (i : nat)
  | Look (i : nat)
  | Woken (i : nat)
  | Probed (i : nat) (ok : bool)
  | Invalidated.

Definition step (e : event) (s : gate) : option gate :=
  match e with
  | Call i => match callers s !! i with None => Some (at_pc s i Checking) | Some _ => None end
  | Cancelled i =>
      match callers s !! i with
      | Some Checking | Some (Waiting _) => Some (at_pc s i (Returned GateCancelled))
      | _ => None
      end
  | Look i => match callers s !! i with Some Checking => Some (look i s) | _ => None end
  | Woken i =>
      match callers s !! i with
      | Some (Waiting c) => if bool_decide (c ∈ closed s) then Some (at_pc s i Checking) else None
      | _ => None
      end
  | Probed i ok => match callers s !! i with Some (Probing g c) => Some (finish i g c ok s) | _ => None end
  | Invalidated => Some (InvalidateSIMAuthReady s)
  end.

Fixpoint steps (l : list event) (s : gate) : option gate :=
  match l with
  | [] => Some s
  | e :: l => match step e s with Some s => steps l s | None => None end
  end.

(** The probe that runs is the one whose channel the others wait for. *)
Definition inv (s : gate) : Prop :=
  (∀ i g c, callers s !! i = Some (Probing g c) → probing s = true ∧ waitC s = Some c) ∧
  (∀ c, waitC s = Some c → c < made s ∧ c ∉ closed s ∧ ∃ i g, callers s !! i = Some (Probing g c))%nat ∧
  (probing s = true → is_Some (waitC s)) ∧
  (∀ i j g g' c c', callers s !! i = Some (Probing g c) → callers s !! j = Some (Probing g' c') → i = j) ∧
  (∀ i c, callers s !! i = Some (Waiting c) → c ∈ closed s ∨ waitC s = Some c) ∧
  (∀ c, c ∈ closed s → c < made s)%nat ∧
  (ready s = true → generation s ∈ probed s).

Lemma gate_start_inv : inv start.
Proof. unfold inv, start. cbn. split_and!; try done; intros *; rewrite ?lookup_empty; try done; set_solver. Qed.

(** A caller that neither starts nor ends a probe. *)
Lemma at_pc_inv s i p :
  inv s → (∀ g c, p ≠ Probing g c) → (∀ g c, callers s !! i ≠ Some (Probing g c)) →
  (∀ c, p = Waiting c → waitC s = Some c) → inv (at_pc s i p).
Proof.
  intros (H1 & H2 & H3 & H4 & H5 & H6 & H7) Hp Hi Hw. unfold inv, at_pc; cbn. split_and!; try done.
  - intros j g c [[-> Hj]|[_ Hj]]%lookup_insert_Some; [by apply Hp in Hj|by eapply H1].
  - intros c Hc. destruct (H2 c Hc) as (? & ? & j & g & Hj). split_and!; [done|done|]. exists j, g.
    rewrite lookup_insert_ne; [done|]. intros ->. by eapply Hi.
  - intros j j' g g' c c' [[-> Hj]|[_ Hj]]%lookup_insert_Some [[-> Hj']|[_ Hj']]%lookup_insert_Some; try done; [by apply Hp in Hj|by apply Hp in Hj'|by eapply H4].
  - intros j c [[-> Hj]|[_ Hj]]%lookup_insert_Some; [right; by apply Hw|by apply H5 in Hj].
Qed.

Lemma look_inv s i : inv s → callers s !! i = Some Checking → inv (look i s).
Proof.
  intros Hinv Hi. unfold look. destruct (ready s) eqn:Hr; [apply at_pc_inv; [done| |rewrite Hi|]; congruence|].
  destruct (probing s) eqn:Hp.
  - destruct Hinv as (H1 & H2 & H3 & H4 & H5 & H6 & H7). destruct (H3 Hp) as [c Hc]. rewrite Hc. apply at_pc_inv; [unfold inv; by split_and!| |rewrite Hi|]; congruence.
  - destruct Hinv as (H1 & H2 & H3 & H4 & H5 & H6 & H7).
    assert (Hno : ∀ j g c, callers s !! j ≠ Some (Probing g c)) by (intros j g c Hj; apply H1 in Hj as [? _]; congruence).
    assert (Hw : waitC s = None) by (destruct (waitC s) as [c|] eqn:Hc; [|done]; destruct (H2 c eq_refl) as (_ & _ & j & g & Hj); by apply Hno in Hj).
    unfold inv; cbn. split_and!; try done.
    + intros j g c [[-> [= <- <-]]|[_ Hj]]%lookup_insert_Some; [done|by apply Hno in Hj].
    + intros c [= <-]. split_and!; [lia| |exists i, (generation s); by rewrite lookup_insert_eq]. intros Hc%H6. lia.
    + intros j j' g g' c c' [[<- Hj]|[_ Hj]]%lookup_insert_Some [[<- Hj']|[_ Hj']]%lookup_insert_Some; try done; [by apply Hno in Hj'|by apply Hno in Hj|by apply Hno in Hj].
    + intros j c [[-> Hj]|[_ Hj]]%lookup_insert_Some; [done|]. left. destruct (H5 j c Hj) as [|Hc]; [done|by rewrite Hw in Hc].
    + intros c Hc%H6. lia.
Qed.

Lemma gate_finish_inv s i g c ok : inv s → callers s !! i = Some (Probing g c) → inv (finish i g c ok s).
Proof.
  intros (H1 & H2 & H3 & H4 & H5 & H6 & H7) Hi. destruct (H1 _ _ _ Hi) as [Hp Hc]. unfold finish. rewrite (bool_decide_eq_true_2 (waitC s = Some c)) by done.
  assert (Hother : ∀ j g' c', j ≠ i → callers s !! j ≠ Some (Probing g' c')) by (intros j g' c' Hj Hj'; by apply Hj, (H4 _ _ _ _ _ _ Hj' Hi)).
  set (p := if negb ok then _ else _). assert (Hnp : ∀ g' c', p ≠ Probing g' c') by (intros; unfold p; by repeat case_match).
  assert (Hnw : ∀ c', p ≠ Waiting c') by (intros; unfold p; by repeat case_match).
  unfold inv; cbn. split_and!; try done.
  - intros j g' c' [[-> Hj]|[Hne Hj]]%lookup_insert_Some; [by apply Hnp in Hj|]. by apply (Hother j g' c') in Hj.
  - intros j j' g1 g2 c1 c2 [[-> Hj]|[Hne Hj]]%lookup_insert_Some; [by apply Hnp in Hj|by apply (Hother j g1 c1) in Hj].
  - intros j c' [[-> Hj]|[_ Hj]]%lookup_insert_Some; [by apply Hnw in Hj|]. left. destruct (H5 j c' Hj) as [|Hc']; [set_solver|].
    rewrite Hc in Hc'. injection Hc' as ->. set_solver.
  - intros c' [->%elem_of_singleton|Hc'%H6]%elem_of_union; [|done]. by apply H2.
  - case_bool_decide as Hg; cbn; [intros ->; set_solver|]. intros Hr%H7. destruct ok; set_solver.
Qed.

Lemma gate_step_inv e s s' : inv s → step e s = Some s' → inv s'.
Proof.
  intros Hinv. destruct e as [i|i|i|i|i ok|]; cbn.
  - destruct (callers s !! i) eqn:Hi; [done|]. intros [= <-]. apply at_pc_inv; [done| |rewrite Hi|]; congruence.
  - destruct (callers s !! i) as [[]|] eqn:Hi; try done; intros [= <-]; (apply at_pc_inv; [done| |rewrite Hi|]; congruence).
  - destruct (callers s !! i) as [[]|] eqn:Hi; try done. intros [= <-]. by apply look_inv.
  - destruct (callers s !! i) as [[|c| |]|] eqn:Hi; try done. case_bool_decide; [|done]. intros [= <-]. apply at_pc_inv; [done| |rewrite Hi|]; congruence.
  - destruct (callers s !! i) as [[| |g c|]|] eqn:Hi; try done. intros [= <-]. by apply gate_finish_inv.
  - intros [= <-]. destruct Hinv as (H1 & H2 & H3 & H4 & H5 & H6 & H7). by unfold inv; cbn; split_and!.
Qed.

Lemma steps_inv l s s' : inv s → steps l s = Some s' → inv s'.
Proof.
  revert s. induction l as [|e l IH]; intros s Hs; cbn; [by intros [= <-]|].
  destruct (step e s) eqn:He; [|done]. apply IH. by eapply gate_step_inv.
Qed.

(** C17: at most one probe runs; a caller that waits is woken or waits for the
    channel of the probe that runs; and a caller that is told that the card is
    ready is told so while a probe that began in the generation of that moment
    has succeeded, so never on a probe from before the last invalidation. *)
Theorem gate_is_current l e s s' :
  steps l start = Some s → step e s = Some s' →
  (∀ i j g g' c c', callers s !! i = Some (Probing g c) → callers s !! j = Some (Probing g' c') → i = j) ∧
  (∀ i c, callers s !! i = Some (Waiting c) → c ∈ closed s ∨ ∃ j g, callers s !! j = Some (Probing g c)) ∧
  (∀ i, callers s !! i ≠ Some (Returned GateReady) → callers s' !! i = Some (Returned GateReady) →
     ready s' = true ∧ generation s' ∈ probed s').
Proof.
  intros Hl He. pose proof (steps_inv _ _ _ gate_start_inv Hl) as Hinv. pose proof (gate_step_inv _ _ _ Hinv He) as Hinv'.
  destruct Hinv as (H1 & H2 & _ & H4 & H5 & _). split_and!; [done| |].
  - intros i c [|Hc]%H5; [by left|right]. by apply H2.
  - intros i Hi Hi'. enough (Hr : ready s' = true) by (split; [done|by apply Hinv']).
    destruct e as [j|j|j|j|j ok|]; cbn in He.
    + destruct (callers s !! j); [done|]. injection He as <-. cbn in Hi'. apply lookup_insert_Some in Hi' as [[_ ?]|[_ ?]]; done.
    + destruct (callers s !! j) as [[]|]; try done; injection He as <-; cbn in Hi'; apply lookup_insert_Some in Hi' as [[_ ?]|[_ ?]]; done.
    + destruct (callers s !! j) as [[]|]; try done. injection He as <-. unfold look in *. destruct (ready s) eqn:Hr; [done|].
      destruct (probing s); [destruct (waitC s)|]; cbn in *; apply lookup_insert_Some in Hi' as [[_ ?]|[_ ?]]; done.
    + destruct (callers s !! j) as [[]|]; try done. case_bool_decide; [|done]. injection He as <-. cbn in Hi'. apply lookup_insert_Some in Hi' as [[_ ?]|[_ ?]]; done.
    + destruct (callers s !! j) as [[| |g c|]|]; try done. injection He as <-. unfold finish in *. cbn in *.
      apply lookup_insert_Some in Hi' as [[_ Hp]|[_ ?]]; [|done]. destruct ok; [|done]. by destruct (bool_decide (generation s = g)).
    + injection He as <-. done.
Qed.

(** Two callers; the card changes during the first probe, which is run again. *)
Lemma gate_is_current_witness :
  ∃ s s', steps [Call 0; Call 1; Look 0; Look 1; Invalidated; Probed 0 true; Woken 1; Look 0; Look 1] start = Some s ∧
    step (Probed 0 true) s = Some s' ∧ callers s' !! 0%nat = Some (Returned GateReady) ∧ generation s' ∈ probed s'.
Proof.
  eexists _, _. split; [vm_compute; reflexivity|]. split; [vm_compute; reflexivity|]. split; [vm_compute; reflexivity|].
  refine (proj2 (proj2 (proj2 (gate_is_current [Call 0; Call 1; Look 0; Look 1; Invalidated; Probed 0 true; Woken 1; Look 0; Look 1] (Probed 0 true) _ _ _ _)) 0%nat _ _)).
  - vm_compute. reflexivity.
  - vm_compute. reflexivity.
  - vm_compute. discriminate.
  - vm_compute. reflexivity.
Defined.
