(* ===== verification/DeviceIdentity.v ===== *)
(** * The SIM identity of a device and its switches (internal/device)

    Module [Identity] is what a worker remembers of its card (pool_state.go and
    [refreshIdentityLive] of pool.go), one operation per section under
    [cacheMu].  Module [Registry] is what the pool remembers of the switches that
    are running (pool_esim_switch.go), one operation per section under
    [switchMu].  [validatePolicyOwner] of policy_owner.go reads both before a
    policy is applied.

    Times are left out of the identity; nothing reads them there.  The name of a
    service provider and the metadata that come with an identity are kept as they
    were read. *)

From Stdlib Require Import Ascii String.
From S2P Require Import Prelude GoText SimIdentity.
From stdpp Require Import strings gmap.

#[local] Open Scope Z_scope.
#[local] Open Scope string_scope.

Definition normalizeSIMIdentity (v : string) : string := TrimSpace v.
Definition normalizeSIMIdentityForCompare (v : string) : string := CanonicalICCID v.

Module Identity.

(** [backend.SIMMetadata], which the state keeps as fields of its own. *)
Record PNNRecord := mkPNN { pnn_Record : Z; FullName : string; ShortName : string; pnn_RawHex : string }.
Record OPLRecord := mkOPL { opl_Record : Z; PLMN : string; LACStart : Z; LACEnd : Z; opl_PNNRecord : Z; opl_RawHex : string }.
Record SIMServiceTable := mkTable { Kind : string; table_RawHex : string; EnabledServices : list Z }.
Record SIMMetadata := mkMetadata {
  NativeMCC : string; NativeMNC : string; GID1 : string; GID2 : string;
  PNN : list PNNRecord; OPL : list OPLRecord; ServiceTable : option SIMServiceTable }.

Inductive phase := Initial | Ready_ | Transitioning | Degraded.
#[global] Instance phase_eq_dec : EqDecision phase.
Proof. solve_decision. Defined.

(** [deviceIdentityState] *)
Record state := mkState {
  IMEI : string; ICCID : string; IMSI : string; NativeSPN : string; Metadata : SIMMetadata;
  Ready : bool; Phase : phase; TargetICCID : string; Generation : Z; LastReason : string; LastError : string }.

Definition no_metadata : SIMMetadata := mkMetadata "" "" "" "" [] [] None.
Definition initial : state := mkState "" "" "" "" no_metadata false Initial "" 0 "" "".

Definition hasSIMMetadata (m : option SIMMetadata) : bool :=
  match m with
  | None => false
  | Some m => bool_decide (TrimSpace (NativeMCC m) ≠ "") || bool_decide (TrimSpace (NativeMNC m) ≠ "")
              || bool_decide (TrimSpace (GID1 m) ≠ "") || bool_decide (TrimSpace (GID2 m) ≠ "")
              || negb (bool_decide (length (PNN m) = O)) || negb (bool_decide (length (OPL m) = O))
              || match ServiceTable m with Some _ => true | None => false end
  end.

Definition with_metadata (s : state) (m : SIMMetadata) : state :=
  mkState (IMEI s) (ICCID s) (IMSI s) (NativeSPN s) m (Ready s) (Phase s) (TargetICCID s) (Generation s) (LastReason s) (LastError s).
Definition clearSIMMetadataLocked (s : state) : state := with_metadata s no_metadata.

Definition mergeSIMMetadataLocked (s : state) (m : option SIMMetadata) : bool * state :=
  match m with
  | Some m' =>
      if hasSIMMetadata m then
        (true, with_metadata s (mkMetadata (TrimSpace (NativeMCC m')) (TrimSpace (NativeMNC m')) (TrimSpace (GID1 m')) (TrimSpace (GID2 m'))
                 (PNN m') (OPL m') (ServiceTable m')))
      else (false, s)
  | None => (false, s)
  end.

Definition next_generation (g : Z) : Z := u64 (g + 1).

(** [beginSIMIdentityTransitionLocked] *)
Definition begin_transition (target reason : string) (s : state) : state :=
  mkState (IMEI s) "" "" "" no_metadata false Transitioning (normalizeSIMIdentity target) (next_generation (Generation s)) (TrimSpace reason) "".

Definition BeginSIMIdentityTransition (target reason : string) (s : state) : Z * state :=
  let s := begin_transition target reason s in (Generation s, s).

(** A transition to the same target goes on, with its generation. *)
Definition under_way (target : string) (s : state) : bool :=
  (bool_decide (Phase s = Transitioning) || bool_decide (Phase s = Degraded))
  && bool_decide (normalizeSIMIdentity (TargetICCID s) = normalizeSIMIdentity target).

Definition EnsureSIMIdentityTransition (target reason : string) (s : state) : Z * state :=
  let s :=
    if under_way target s
    then mkState (IMEI s) (ICCID s) (IMSI s) (NativeSPN s) (Metadata s) (Ready s) (Phase s) (TargetICCID s) (Generation s) (TrimSpace reason) ""
    else begin_transition (normalizeSIMIdentity target) reason s in
  (Generation s, s).

(** The text of the error, if there is one. *)
Definition MarkSIMIdentityDegraded (reason : string) (err : option string) (s : state) : state :=
  mkState (IMEI s) (ICCID s) (IMSI s) (NativeSPN s) (Metadata s) false Degraded (TargetICCID s) (Generation s) (TrimSpace reason)
    (match err with Some e => e | None => "" end).

Definition restoreSIMIdentityAfterTransitionFailure (iccid imsi reason : string) (s : state) : state :=
  let iccid := normalizeSIMIdentity iccid in
  let imsi := normalizeSIMIdentity imsi in
  let ready := bool_decide (iccid ≠ "") || bool_decide (imsi ≠ "") in
  mkState (IMEI s) iccid imsi (NativeSPN s) (Metadata s) ready (if ready then Ready_ else Degraded) "" (Generation s) (TrimSpace reason)
    (if ready then "" else "esim_switch_failed_without_previous_identity").

Definition SIMIdentityAllowsOverviewFallback (s : state) : bool :=
  match Phase s with
  | Transitioning | Degraded => false
  | _ => Ready s && bool_decide (TrimSpace (IMSI s) ≠ "")
  end.

Definition SIMIdentitySuppressesOverviewIMSI (s : state) : bool :=
  bool_decide (Phase s = Transitioning) || bool_decide (Phase s = Degraded).

(** Whether a task that was started for [target] in [generation] may still bring
    the identity to its end. *)
Definition SIMIdentityConvergenceMatches (target : string) (generation : Z) (s : state) : bool :=
  let target := normalizeSIMIdentityForCompare target in
  let current := normalizeSIMIdentityForCompare (TargetICCID s) in
  if bool_decide (generation ≠ 0) && negb (bool_decide (Generation s = generation)) then false
  else if bool_decide (Phase s = Ready_) then false
  else if bool_decide (current ≠ "") || bool_decide (target ≠ "") then bool_decide (current = target)
  else bool_decide (Phase s = Transitioning) || bool_decide (Phase s = Degraded) || negb (Ready s).

(** ** What was read of the card is stored *)

(** The results of [refreshIdentityLive] before it takes the lock; the two flags
    tell that the name and the metadata could be read. *)
Record live := mkLive { l_iccid : string; l_imsi : string; l_imei : string; l_spn : string; l_metadata : option SIMMetadata;
  spnReadOK : bool; metadataReadOK : bool }.

Definition live_empty (l : live) : bool :=
  bool_decide (l_iccid l = "") && bool_decide (l_imsi l = "") && bool_decide (l_spn l = "") && negb (hasSIMMetadata (l_metadata l)).

Definition refused (reason err : string) (s : state) : state :=
  mkState (IMEI s) (ICCID s) (IMSI s) (NativeSPN s) (Metadata s) (Ready s) (Phase s) (TargetICCID s) (Generation s) (TrimSpace reason) err.

Definition identity_changed (l : live) (s : state) : bool :=
  (bool_decide (l_iccid l ≠ "") && negb (bool_decide (l_iccid l = TrimSpace (ICCID s))))
  || (bool_decide (l_imsi l ≠ "") && negb (bool_decide (l_imsi l = TrimSpace (IMSI s)))).

(** Another card was put in, without a transition. *)
Definition swapped (l : live) (s : state) : bool :=
  bool_decide (l_iccid l ≠ "") && bool_decide (ICCID s ≠ "")
  && negb (bool_decide (normalizeSIMIdentityForCompare (l_iccid l) = normalizeSIMIdentityForCompare (ICCID s))).

Definition store_metadata (l : live) (changed : bool) (s : state) : state :=
  let '(merged, s) := mergeSIMMetadataLocked s (l_metadata l) in
  if merged || metadataReadOK l
  then if changed && negb (hasSIMMetadata (l_metadata l)) then clearSIMMetadataLocked s else s
  else if changed then clearSIMMetadataLocked s else s.

(** The section under the lock: an error, or the stored identity. *)
Definition refresh_store (reason : string) (l : live) (s : state) : option string * state :=
  let incomplete := xorb (bool_decide (l_iccid l = "")) (bool_decide (l_imsi l = "")) in
  let cached := bool_decide (TrimSpace (ICCID s) ≠ "") || bool_decide (TrimSpace (IMSI s) ≠ "") in
  let target := normalizeSIMIdentityForCompare (TargetICCID s) in
  if incomplete && cached then (Some "live_identity_incomplete", refused reason "live_identity_incomplete" s)
  else if bool_decide (target ≠ "") && (bool_decide (Phase s = Transitioning) || bool_decide (Phase s = Degraded))
          && negb (bool_decide (normalizeSIMIdentityForCompare (l_iccid l) = target))
  then (Some "live_identity_target_not_active", refused reason "live_identity_target_not_active" s)
  else
    let changed := identity_changed l s in
    let m := store_metadata l changed s in
    (None, mkState
       (if bool_decide (l_imei l ≠ "") then l_imei l else IMEI s)
       (if bool_decide (l_iccid l ≠ "") then l_iccid l else ICCID s)
       (if bool_decide (l_imsi l ≠ "") then l_imsi l else IMSI s)
       (if bool_decide (l_spn l ≠ "") then l_spn l else if changed && spnReadOK l then "" else NativeSPN s)
       (Metadata m) true Ready_ ""
       (if swapped l s then next_generation (Generation s) else Generation s)
       (TrimSpace reason) "").

(** The section of [refreshPostSwitchIdentityWithPolling]: the identity that was
    read after a switch, and whether each of its parts could be read. *)
Definition post_switch_store (newICCID newIMSI : string) (iccidOK imsiOK changedForSPN : bool) (s : state) : state :=
  let iccid := if iccidOK then newICCID else ICCID s in
  let imsi := if imsiOK then newIMSI else IMSI s in
  let ready := if iccidOK || imsiOK then bool_decide (normalizeSIMIdentity iccid ≠ "") || bool_decide (normalizeSIMIdentity imsi ≠ "") else Ready s in
  mkState (IMEI s) iccid imsi
    (if changedForSPN then "" else NativeSPN s) (if changedForSPN then no_metadata else Metadata s)
    ready (if ready then Ready_ else Phase s) (if ready then "" else TargetICCID s) (Generation s)
    (if ready then "post_switch_finalize" else LastReason s) (if ready then "" else LastError s).

(** A transition that is under way has no card, a target belongs to one, and an
    identity that is ready is in the phase that says so. *)
Definition ok (s : state) : Prop :=
  (Ready s = true → Phase s = Ready_) ∧
  (TargetICCID s ≠ "" → Phase s = Transitioning ∨ Phase s = Degraded) ∧
  (Phase s = Transitioning → Ready s = false ∧ TrimSpace (ICCID s) = "" ∧ TrimSpace (IMSI s) = "").

Lemma begin_transition_ok target reason s : ok (begin_transition target reason s).
Proof. unfold ok. cbn. naive_solver. Qed.

Lemma ensure_ok target reason s : ok s → ok (EnsureSIMIdentityTransition target reason s).2.
Proof. intros Hs. unfold EnsureSIMIdentityTransition. destruct (under_way _ _); [exact Hs|apply begin_transition_ok]. Qed.

Lemma mark_degraded_ok reason err s : ok s → ok (MarkSIMIdentityDegraded reason err s).
Proof. intros Hs. unfold ok. cbn. naive_solver. Qed.

Lemma restore_ok iccid imsi reason s : ok (restoreSIMIdentityAfterTransitionFailure iccid imsi reason s).
Proof. unfold ok, restoreSIMIdentityAfterTransitionFailure. cbn. destruct (_ || _); naive_solver. Qed.

Lemma refresh_store_ok reason l s : ok s → ok (refresh_store reason l s).2.
Proof.
  intros Hs. unfold refresh_store. destruct (xorb _ _ && _); [exact Hs|]. destruct (bool_decide (normalizeSIMIdentityForCompare _ ≠ "") && _ && _); [exact Hs|].
  unfold ok. cbn. naive_solver.
Qed.

Lemma post_switch_store_ok iccid imsi a b c s : ok s → ok (post_switch_store iccid imsi a b c s).
Proof.
  intros (Hr & Ht & Hp). unfold post_switch_store, ok, normalizeSIMIdentity. cbn.
  destruct (a || b) eqn:Hab; [|destruct a, b; try done; destruct (Ready s); naive_solver].
  destruct (bool_decide (TrimSpace (if a then iccid else ICCID s) ≠ "")) eqn:H1; [cbn; naive_solver|].
  destruct (bool_decide (TrimSpace (if b then imsi else IMSI s) ≠ "")) eqn:H2; [cbn; naive_solver|].
  apply bool_decide_eq_false, dec_stable in H1, H2. cbn. naive_solver.
Qed.

(** The section after a switch looks neither at the generation nor at the
    target: a refresh that read the card before another transition began ends
    that transition with its own card, and whoever waits for the new card may not
    go on. *)
Lemma late_store_ends_transition target reason iccid imsi s :
  normalizeSIMIdentity iccid ≠ "" →
  let s' := post_switch_store iccid imsi true true true (begin_transition target reason s) in
  Ready s' = true ∧ Phase s' = Ready_ ∧ ICCID s' = iccid ∧ TargetICCID s' = "" ∧
  ∀ t g, SIMIdentityConvergenceMatches t g s' = false.
Proof.
  intros Hi. unfold post_switch_store. cbn. rewrite bool_decide_eq_true_2 by done. cbn. split_and!; try done.
  intros t g. unfold SIMIdentityConvergenceMatches. cbn. by destruct (_ && _).
Qed.
End Identity.

(** ** The switches that run *)
Module Registry.

(** The phases that the pool writes (internal/esim/manager.go). *)
Definition SwitchPhasePrepare : string := "prepare".
Definition SwitchPhaseIdentityRefresh : string := "identity_refresh".
Definition SwitchPhaseRuntimeRestore : string := "runtime_restore".
Definition SwitchPhaseVoWiFiRestore : string := "vowifi_restore".
Definition SwitchPhaseDegraded : string := "degraded".
Definition SwitchPhaseDone : string := "done".
Definition SwitchPhaseFailed : string := "failed".

(** The worker that a switch was begun on, by its number, and its generation. *)
Record workerLifecycleOwner := mkOwner { o_worker : Z; o_generation : Z }.

Record esimSwitchContext := mkContext {
  Owner : option workerLifecycleOwner;
  VoWiFiActiveBefore : bool; FlightModeBefore : bool; QMIConnectedBefore : bool; NetworkEnabledBefore : bool;
  ICCIDBefore : string; IMSIBefore : string; TargetICCID : string;
  TargetLebaraCandidate : bool; TargetClassifyFailed : bool;
  SwitchToken : Z; IdentityGeneration : Z; CapturedAt : Z; Phase : string; PhaseUpdatedAt : option Z }.

(** The zero value. *)
Definition no_context : esimSwitchContext := mkContext None false false false false "" "" "" false false 0 0 0 "" None.

Definition with_begin (c : esimSwitchContext) (token now : Z) : esimSwitchContext :=
  mkContext (Owner c) (VoWiFiActiveBefore c) (FlightModeBefore c) (QMIConnectedBefore c) (NetworkEnabledBefore c) (ICCIDBefore c) (IMSIBefore c)
    (TargetICCID c) (TargetLebaraCandidate c) (TargetClassifyFailed c) token (IdentityGeneration c) (CapturedAt c) SwitchPhasePrepare (Some now).
Definition with_phase (c : esimSwitchContext) (phase : string) (now : Z) : esimSwitchContext :=
  mkContext (Owner c) (VoWiFiActiveBefore c) (FlightModeBefore c) (QMIConnectedBefore c) (NetworkEnabledBefore c) (ICCIDBefore c) (IMSIBefore c)
    (TargetICCID c) (TargetLebaraCandidate c) (TargetClassifyFailed c) (SwitchToken c) (IdentityGeneration c) (CapturedAt c) phase (Some now).
Definition with_generation (c : esimSwitchContext) (g : Z) : esimSwitchContext :=
  mkContext (Owner c) (VoWiFiActiveBefore c) (FlightModeBefore c) (QMIConnectedBefore c) (NetworkEnabledBefore c) (ICCIDBefore c) (IMSIBefore c)
    (TargetICCID c) (TargetLebaraCandidate c) (TargetClassifyFailed c) (SwitchToken c) g (CapturedAt c) (Phase c) (PhaseUpdatedAt c).

Record state := mkState {
  switchContexts : gmap string esimSwitchContext; switchingDevices : gset string; switchTokens : gmap string Z; switchSeq : Z }.
Definition initial : state := mkState ∅ ∅ ∅ 0.

(** A key that is missing reads as zero. *)
Definition current (s : state) (deviceID : string) : Z := default 0 (switchTokens s !! deviceID).

Definition put (s : state) (deviceID : string) (c : esimSwitchContext) : state :=
  mkState (<[deviceID := c]> (switchContexts s)) (switchingDevices s) (switchTokens s) (switchSeq s).
Definition drop (s : state) (deviceID : string) : state :=
  mkState (delete deviceID (switchContexts s)) (switchingDevices s ∖ {[deviceID]}) (delete deviceID (switchTokens s)) (switchSeq s).

(** The section of [beginESIMSwitchForWorkerLocked], with the snapshot that was
    captured. *)
Definition begin_switch (deviceID : string) (snapshot : esimSwitchContext) (now : Z) (s : state) : esimSwitchContext * state :=
  let seq := u64 (switchSeq s + 1) in
  let c := with_begin snapshot seq now in
  (c, mkState (<[deviceID := c]> (switchContexts s)) ({[deviceID]} ∪ switchingDevices s) (<[deviceID := seq]> (switchTokens s)) seq).

(** After two minutes: the switch is dropped unless another one was captured. *)
Definition switch_timeout (deviceID : string) (capturedAt : Z) (s : state) : state :=
  match switchContexts s !! deviceID with
  | Some c => if bool_decide (CapturedAt c = capturedAt) then drop s deviceID else s
  | None => s
  end.

Definition markESIMSwitchPhaseIfToken (deviceID : string) (token : Z) (phase : string) (now : Z) (s : state) : bool * state :=
  let deviceID := TrimSpace deviceID in
  if bool_decide (deviceID = "") || bool_decide (phase = "") then (false, s)
  else if bool_decide (token ≠ 0) && negb (bool_decide (current s deviceID = token)) then (false, s)
  else match switchContexts s !! deviceID with
       | Some c => (true, put s deviceID (with_phase c phase now))
       | None => (false, s)
       end.

Definition markESIMSwitchPhase (deviceID phase : string) (now : Z) (s : state) : bool * state :=
  markESIMSwitchPhaseIfToken deviceID 0 phase now s.

Definition updateESIMSwitchIdentityGeneration (deviceID : string) (token generation : Z) (s : state) : state :=
  let deviceID := TrimSpace deviceID in
  if bool_decide (deviceID = "") || bool_decide (generation = 0) then s
  else if bool_decide (token ≠ 0) && negb (bool_decide (current s deviceID = token)) then s
  else match switchContexts s !! deviceID with
       | Some c => put s deviceID (with_generation c generation)
       | None => s
       end.

Definition isLatestSwitchToken (deviceID : string) (token : Z) (s : state) : bool :=
  bool_decide (token ≠ 0) && bool_decide (current s deviceID = token).

Definition finishESIMSwitch (deviceID : string) (s : state) : option esimSwitchContext := switchContexts s !! deviceID.

Definition clearESIMSwitch (deviceID : string) (s : state) : state := drop s deviceID.

Definition clearESIMSwitchIfToken (deviceID : string) (token : Z) (s : state) : state :=
  if bool_decide (token = 0) then s
  else if bool_decide (current s deviceID = token) then drop s deviceID else s.

(** [resolvePostSwitchSnapshotIfToken] with a token. *)
Definition resolve_if_token (deviceID : string) (token : Z) (s : state) : option esimSwitchContext :=
  if bool_decide (current s deviceID = token) then switchContexts s !! deviceID else None.

Definition switchTokenStillCurrent (deviceID : string) (token : Z) (s : state) : bool :=
  if bool_decide (token = 0) then true else isLatestSwitchToken deviceID token s.

(** [finishESIMSwitchForFailure] with a token. *)
Definition finish_failure (deviceID : string) (token : Z) (s : state) : option esimSwitchContext * state :=
  if bool_decide (current s deviceID = token) then
    match switchContexts s !! deviceID with
    | Some c => (Some c, drop s deviceID)
    | None => (None, s)
    end
  else (None, s).

(** ** Sequences of sections *)
Inductive op :=
  | Begin (deviceID : string) (snapshot : esimSwitchContext) (now : Z)
  | Timeout (deviceID : string) (capturedAt : Z)
  | Mark (deviceID : string) (token : Z) (phase : string) (now : Z)
  | Update (deviceID : string) (token generation : Z)
  | Clear (deviceID : string)
  | ClearIf (deviceID : string) (token : Z)
  | Finish (deviceID : string) (token : Z).

Definition apply (o : op) (s : state) : state :=
  match o with
  | Begin d c now => (begin_switch d c now s).2
  | Timeout d t => switch_timeout d t s
  | Mark d t p now => (markESIMSwitchPhaseIfToken d t p now s).2
  | Update d t g => updateESIMSwitchIdentityGeneration d t g s
  | Clear d => clearESIMSwitch d s
  | ClearIf d t => clearESIMSwitchIfToken d t s
  | Finish d t => (finish_failure d t s).2
  end.

Definition run (l : list op) (s : state) : state := foldl (λ s o, apply o s) s l.

(** Every running switch has its record, its mark and its token, the number of
    the switch, which no other has. *)
Definition ok (s : state) : Prop :=
  0 ≤ switchSeq s < 2 ^ 64 ∧
  (∀ d, d ∈ switchingDevices s ↔ is_Some (switchContexts s !! d)) ∧
  (∀ d, switchTokens s !! d = SwitchToken <$> switchContexts s !! d) ∧
  (∀ d t, switchTokens s !! d = Some t → 0 < t ≤ switchSeq s) ∧
  (∀ d d' t, switchTokens s !! d = Some t → switchTokens s !! d' = Some t → d = d').

Lemma initial_ok : ok initial.
Proof.
  split_and!; cbn; [done..| | | |].
  - intros d. rewrite lookup_empty. split; [set_solver|by intros []].
  - intros d. by rewrite !lookup_empty.
  - intros d t. by rewrite lookup_empty.
  - intros d d' t. by rewrite lookup_empty.
Qed.

Lemma drop_registry_ok s d : ok s → ok (drop s d).
Proof.
  intros (Hs & Hm & Ht & Hp & Hu). split_and!; cbn; [lia|lia| | | |].
  - intros d'. destruct (decide (d' = d)) as [->|Hd].
    + rewrite lookup_delete_eq. split; [set_solver|by intros []].
    + rewrite lookup_delete_ne by done. rewrite <-Hm. set_solver.
  - intros d'. destruct (decide (d' = d)) as [->|]; [by rewrite !lookup_delete_eq|]. by rewrite !lookup_delete_ne.
  - intros d' t Hd. apply lookup_delete_Some in Hd as [_ Hd]. by eapply Hp.
  - intros d1 d2 t [_ H1]%lookup_delete_Some [_ H2]%lookup_delete_Some. by eapply Hu.
Qed.

(** A record may change if its token does not. *)
Lemma put_ok s d c c' : ok s → switchContexts s !! d = Some c → SwitchToken c' = SwitchToken c → ok (put s d c').
Proof.
  intros (Hs & Hm & Ht & Hp & Hu) Hd Hc. split_and!; cbn; [lia|lia| | |done|done].
  - intros d'. rewrite Hm. destruct (decide (d' = d)) as [->|]; [by rewrite lookup_insert_eq, Hd|]. by rewrite lookup_insert_ne.
  - intros d'. rewrite Ht. destruct (decide (d' = d)) as [->|]; [by rewrite lookup_insert_eq, Hd; cbn; rewrite Hc|]. by rewrite lookup_insert_ne.
Qed.

Lemma begin_ok s d c now : ok s → switchSeq s + 1 < 2 ^ 64 → ok (begin_switch d c now s).2.
Proof.
  intros (Hs & Hm & Ht & Hp & Hu) Hw. unfold begin_switch, u64. rewrite Z.mod_small by lia.
  assert (Hfresh : ∀ d', switchTokens s !! d' ≠ Some (switchSeq s + 1)) by (intros d' Hd; apply Hp in Hd; lia).
  split_and!; cbn; [lia|lia|..].
  - intros d'. destruct (decide (d' = d)) as [->|Hd]; [rewrite lookup_insert_eq; set_solver|].
    rewrite lookup_insert_ne by done. rewrite <-Hm. set_solver.
  - intros d'. destruct (decide (d' = d)) as [->|Hd]; [by rewrite !lookup_insert_eq|]. by rewrite !lookup_insert_ne.
  - intros d' t. rewrite lookup_insert_Some. intros [[<- <-]|[_ Hd]]; [lia|]. apply Hp in Hd. lia.
  - intros d1 d2 t. rewrite !lookup_insert_Some. intros [[<- <-]|[? H1]] [[<- ?]|[? H2]]; try done.
    + by apply Hfresh in H2.
    + subst. by apply Hfresh in H1.
    + by eapply Hu.
Qed.

Definition is_begin (o : op) : bool := match o with Begin _ _ _ => true | _ => false end.
Definition begins (l : list op) : Z := Z.of_nat (length (List.filter is_begin l)).

Lemma begins_cons o l : begins (o :: l) = (if is_begin o then 1 else 0) + begins l.
Proof. unfold begins. cbn [List.filter]. destruct (is_begin o); cbn [length]; lia. Qed.

(** What each section does to the tokens: it gives the next one, takes one away,
    or leaves them. *)
Lemma apply_effect o s :
  (∃ d c now, o = Begin d c now) ∨ (∃ d, apply o s = drop s d) ∨
  (∃ d c c', switchContexts s !! d = Some c ∧ SwitchToken c' = SwitchToken c ∧ apply o s = put s d c') ∨ apply o s = s.
Proof.
  destruct o as [d c now|d t|d t p now|d t g|d|d t|d t]; cbn; eauto 6.
  - unfold switch_timeout. destruct (_ !! d); [|auto]. case_bool_decide; eauto.
  - unfold markESIMSwitchPhaseIfToken. destruct (_ || _); [by auto|]. destruct (_ && _); [by auto|].
    destruct (switchContexts s !! _) as [c|] eqn:Hc; [|by auto]. right; right; left. eexists _, c, _. split_and!; [exact Hc| |reflexivity]. done.
  - unfold updateESIMSwitchIdentityGeneration. destruct (_ || _); [by auto|]. destruct (_ && _); [by auto|].
    destruct (switchContexts s !! _) as [c|] eqn:Hc; [|by auto]. right; right; left. eexists _, c, _. split_and!; [exact Hc| |reflexivity]. done.
  - unfold clearESIMSwitchIfToken. case_bool_decide; [auto|]. case_bool_decide; eauto.
  - unfold finish_failure. case_bool_decide; [|auto]. destruct (_ !! d); eauto.
Qed.

Lemma begin_seq s d c now :
  ok s → switchSeq s + 1 < 2 ^ 64 →
  ok (apply (Begin d c now) s) ∧ switchSeq (apply (Begin d c now) s) = switchSeq s + begins [Begin d c now].
Proof.
  intros Hok Hw. split; [by apply begin_ok|]. destruct Hok as [? _]. cbn. unfold u64. rewrite Z.mod_small; [done|lia].
Qed.

Lemma apply_ok o s : ok s → switchSeq s + begins [o] < 2 ^ 64 → ok (apply o s) ∧ switchSeq (apply o s) = switchSeq s + begins [o].
Proof.
  intros Hok Hw. destruct (apply_effect o s) as [(d & c & now & ->)|Ho].
  { apply begin_seq; done. }
  destruct (is_begin o) eqn:Hb.
  { destruct o; try done. by apply begin_seq. }
  rewrite begins_cons, Hb. replace (begins []) with 0 by done.
  destruct Ho as [(d & ->)|[(d & c & c' & Hc & Hc' & ->)| ->]].
  - split; [by apply drop_registry_ok|cbn; lia].
  - split; [by eapply put_ok|cbn; lia].
  - split; [done|lia].
Qed.

(** A token that no device has, but for those in [D], is given to none. *)
Definition only (t : Z) (D : gset string) (s : state) : Prop := 0 < t ≤ switchSeq s ∧ ∀ d, d ∉ D → switchTokens s !! d ≠ Some t.
Notation over t := (only t ∅).

Lemma apply_only o s t D : ok s → switchSeq s + begins [o] < 2 ^ 64 → only t D s → only t D (apply o s).
Proof.
  intros Hok Hw [Ht Ho]. destruct (apply_ok o s Hok Hw) as [_ Hseq]. split; [rewrite Hseq; unfold begins; lia|]. intros d' HD.
  destruct (apply_effect o s) as [(d & c & now & ->)|[(d & ->)|[(d & c & c' & Hc & Hc' & ->)| ->]]].
  - cbn. destruct Hok as [? _]. unfold u64, begins in *. cbn in *. rewrite Z.mod_small by lia.
    destruct (decide (d' = d)) as [->|]; [rewrite lookup_insert_eq; intros [= ?]; lia|rewrite lookup_insert_ne by done; auto].
  - cbn. intros [_ Hd]%lookup_delete_Some. by eapply Ho.
  - by apply Ho.
  - by apply Ho.
Qed.

Lemma run_only l s t D :
  ok s → switchSeq s + begins l < 2 ^ 64 → only t D s →
  ok (run l s) ∧ only t D (run l s) ∧ switchSeq (run l s) = switchSeq s + begins l.
Proof.
  revert s. induction l as [|o l IH]; intros s Hok Hw Ht; [cbn; split_and!; try done; unfold begins; cbn; lia|]. rewrite begins_cons in Hw.
  assert (H1 : switchSeq s + begins [o] < 2 ^ 64) by (rewrite begins_cons; unfold begins in *; cbn; lia).
  destruct (apply_ok o s Hok H1) as [Hok' Hseq]. destruct (IH (apply o s)) as (IH1 & IH2 & IH3); [done| |by apply apply_only|].
  { rewrite Hseq, begins_cons. unfold begins in *. cbn. lia. }
  split_and!; [done|done|]. change (run (o :: l) s) with (run l (apply o s)). rewrite IH3, Hseq, !begins_cons. unfold begins. cbn. lia.
Qed.

(** An operation with a token that is over does nothing. *)
Lemma over_inert t s d : over t s →
  (∀ p now, markESIMSwitchPhaseIfToken d t p now s = (false, s)) ∧ (∀ g, updateESIMSwitchIdentityGeneration d t g s = s) ∧
  clearESIMSwitchIfToken d t s = s ∧ resolve_if_token d t s = None ∧ finish_failure d t s = (None, s) ∧ switchTokenStillCurrent d t s = false.
Proof.
  intros [Ht Ho]. assert (Hc : ∀ d, current s d ≠ t).
  { intros d'. specialize (Ho d'). specialize (Ho ltac:(set_solver)). unfold current. destruct (switchTokens s !! d'); cbn; [congruence|lia]. }
  assert (H0 : t ≠ 0) by lia.
  unfold markESIMSwitchPhaseIfToken, updateESIMSwitchIdentityGeneration, clearESIMSwitchIfToken, resolve_if_token, finish_failure,
    switchTokenStillCurrent, isLatestSwitchToken.
  rewrite !(bool_decide_eq_false_2 (t = 0)), !(bool_decide_eq_true_2 (t ≠ 0)), !(bool_decide_eq_false_2 (current s _ = t)) by done.
  cbn. split_and!; try done; intros; by destruct (_ || _).
Qed.

(** The token of the switch that a device has. *)
Lemma begin_token s d c now :
  ok s → switchSeq s + 1 < 2 ^ 64 →
  let t := SwitchToken (begin_switch d c now s).1 in
  t = switchSeq s + 1 ∧ switchTokens (begin_switch d c now s).2 !! d = Some t ∧
  (∀ d', d' ≠ d → switchTokens (begin_switch d c now s).2 !! d' = switchTokens s !! d').
Proof.
  intros [? _] Hw. cbn. unfold u64. rewrite Z.mod_small by lia. split_and!; [done|by rewrite lookup_insert_eq|].
  intros d' Hd. by rewrite lookup_insert_ne.
Qed.

(** What ends the switch of a device. *)
Definition ends (d : string) (t : Z) (s : state) (o : op) : Prop :=
  match o with
  | Begin d' _ _ | Clear d' => d' = d
  | ClearIf d' t' | Finish d' t' => d' = d ∧ t' = t
  | Timeout d' captured => d' = d ∧ CapturedAt <$> switchContexts s !! d = Some captured
  | Mark _ _ _ _ | Update _ _ _ => False
  end.

Lemma ends_over o s t d : ok s → switchSeq s + begins [o] < 2 ^ 64 → only t {[d]} s → ends d t s o → over t (apply o s).
Proof.
  intros Hok Hw Hon He. destruct (apply_only o s t _ Hok Hw Hon) as [Ht Ho]. split; [done|]. intros d' _.
  destruct (decide (d' = d)) as [->|]; [|apply Ho; set_solver].
  assert (Hdrop : switchTokens (drop s d) !! d ≠ Some t) by (cbn; by rewrite lookup_delete_eq).
  destruct Hon as [Ht0 _]. destruct o; cbn in He |- *; try done.
  - subst. destruct Hok as [? _]. unfold u64, begins in *. cbn in *. rewrite Z.mod_small, lookup_insert_eq by lia. intros [= ?]. lia.
  - destruct He as [-> He]. unfold switch_timeout. destruct (switchContexts s !! d) as [c'|]; [|done]. cbn in He. injection He as ->.
    by rewrite bool_decide_eq_true_2.
  - by subst.
  - destruct He as [-> ->]. unfold clearESIMSwitchIfToken. rewrite bool_decide_eq_false_2 by lia. case_bool_decide as Hc; [done|].
    unfold current in Hc. cbn. intros E. rewrite E in Hc. done.
  - destruct He as [-> ->]. unfold finish_failure. destruct Hok as (_ & _ & Htok & _). specialize (Htok d). case_bool_decide as Hc.
    + destruct (switchContexts s !! d); [done|]. cbn. unfold current in Hc. rewrite Htok in *. cbn in *. done.
    + unfold current in Hc. cbn. intros E. rewrite E in Hc. done.
Qed.

(** A switch that begins gets a token that no switch has had, and no other
    device has it; when another switch of the device begins, or the switch is
    cleared, fails or times out, the token is over: whatever follows, the phase,
    the generation and the end that the old switch reports change nothing, and it
    is told that it is not current. *)
Theorem finished_switch_inert s d c now l1 o l2 :
  ok s → switchSeq s + begins l1 + begins [o] + begins l2 + 1 < 2 ^ 64 →
  let t := SwitchToken (begin_switch d c now s).1 in
  let s1 := run l1 (begin_switch d c now s).2 in
  let s3 := run l2 (apply o s1) in
  ends d t s1 o →
  switchSeq s < t ∧ (∀ d', d' ≠ d → switchTokens s1 !! d' ≠ Some t) ∧ ok s3 ∧
  ∀ d', (∀ p now', markESIMSwitchPhaseIfToken d' t p now' s3 = (false, s3)) ∧ (∀ g, updateESIMSwitchIdentityGeneration d' t g s3 = s3) ∧
    clearESIMSwitchIfToken d' t s3 = s3 ∧ resolve_if_token d' t s3 = None ∧ finish_failure d' t s3 = (None, s3) ∧
    switchTokenStillCurrent d' t s3 = false.
Proof.
  intros Hok Hw t s1 s3 He. assert (H0 : switchSeq s + 1 < 2 ^ 64) by (unfold begins in *; lia).
  destruct (begin_token s d c now Hok H0) as (Ht & Hd & Hother). destruct (begin_seq s d c now Hok H0) as [Hok0 Hseq0].
  assert (Hon : only t {[d]} (begin_switch d c now s).2).
  { cbn [apply] in Hseq0. change (begins [Begin d c now]) with 1 in Hseq0. split; [change (t = switchSeq s + 1) in Ht; rewrite Hseq0, Ht; destruct Hok as [? _]; lia|].
    intros d' HD Hd'. rewrite Hother in Hd' by set_solver. destruct Hok as (_ & _ & _ & Hp & _). apply Hp in Hd'. unfold t in Hd'. lia. }
  destruct (run_only l1 _ t {[d]} Hok0) as (Hok1 & Hon1 & Hseq1); [rewrite Hseq0; unfold begins in *; cbn; lia|done|].
  cbn [apply] in Hok1, Hon1, Hseq1, Hseq0. fold s1 in Hok1, Hon1, Hseq1. rewrite Hseq0 in Hseq1.
  assert (Hw1 : switchSeq s1 + begins [o] < 2 ^ 64) by (rewrite Hseq1; unfold begins in *; cbn [List.filter is_begin length] in *; lia).
  destruct (apply_ok o s1 Hok1 Hw1) as [Hok2 Hseq2].
  destruct (run_only l2 _ t ∅ Hok2) as (Hok3 & Hov & _); [|by eapply ends_over|].
  { rewrite Hseq2, Hseq1. unfold begins in *; cbn [List.filter is_begin length] in *; lia. }
  split_and!; [unfold t; lia|intros d' Hd'; apply Hon1; set_solver|done|intros d'; by apply over_inert].
Qed.

(** The first switch of a device, another one, and what the first one still
    reports. *)
Lemma finished_switch_inert_witness :
  let s3 := run [Mark "wwan0" 1 SwitchPhaseDone 7] (apply (Begin "wwan0" no_context 5) (begin_switch "wwan0" no_context 3 initial).2) in
  isLatestSwitchToken "wwan0" 2 s3 = true ∧ (Phase <$> switchContexts s3 !! "wwan0") = Some SwitchPhasePrepare ∧
  resolve_if_token "wwan0" 1 s3 = None.
Proof.
  split; [vm_compute; reflexivity|]. split; [vm_compute; reflexivity|].
  destruct (finished_switch_inert initial "wwan0" no_context 3 [] (Begin "wwan0" no_context 5) [Mark "wwan0" 1 SwitchPhaseDone 7] initial_ok
    eq_refl eq_refl) as (_ & _ & _ & H).
  exact (proj1 (proj2 (proj2 (proj2 (H "wwan0"))))).
Defined.
End Registry.

(** ** Which device and card a policy is for *)
Module Policy.
Import Identity.
#[local] Open Scope Z_scope.

(** What [validatePolicyOwner] reads of a device: its identity, the running
    switches, the epoch of its transitions, whether its worker is still the one
    of the pool and whether that was told to stop. *)
Record world := mkWorld { identity : Identity.state; registry : Registry.state; switchEpoch : Z; worker_current : bool; worker_stopped : bool }.

Record policyOwner := mkPolicyOwner { iccid : string; identityGeneration : Z; ownerEpoch : Z }.

Definition capturePolicyOwner (w : world) : policyOwner :=
  mkPolicyOwner (TrimSpace (ICCID (identity w))) (Generation (identity w)) (switchEpoch w).

(** Whether the owner is valid, else [errPolicyOwnerChanged]. *)
Definition validatePolicyOwner (deviceID : string) (o : policyOwner) (w : world) : bool :=
  let i := identity w in
  let snapshot := default Registry.no_context (Registry.switchContexts (registry w) !! deviceID) in
  let target := normalizeSIMIdentityForCompare (Registry.TargetICCID snapshot) in
  if negb (worker_current w) || negb (bool_decide (switchEpoch w = ownerEpoch o)) then false
  else if negb (bool_decide (TrimSpace (ICCID i) = iccid o)) || negb (bool_decide (Generation i = identityGeneration o)) then false
  else if bool_decide (deviceID ∈ Registry.switchingDevices (registry w))
          && (negb (bool_decide (Phase i = Ready_)) || bool_decide (Registry.IdentityGeneration snapshot = 0)
              || negb (bool_decide (Generation i = Registry.IdentityGeneration snapshot))
              || (bool_decide (target ≠ "") && negb (bool_decide (normalizeSIMIdentityForCompare (iccid o) = target))))
  then false
  else negb (worker_stopped w).

(** The sections that change a device: those of the identity, the begin of a
    switch with its transition lock, and those of the registry. *)
Inductive event :=
  | BeginTransition (target reason : string)
  | EnsureTransition (target reason : string)
  | MarkDegraded (reason : string) (err : option string)
  | RestoreAfterFailure (iccid imsi reason : string)
  | RefreshStore (reason : string) (l : live)
  | PostSwitchStore (newICCID newIMSI : string) (iccidOK imsiOK changed : bool)
  | BeginSwitch (deviceID : string) (snapshot : Registry.esimSwitchContext) (now : Z)
  | RegistrySection (o : Registry.op)
  | WorkerRemoved | WorkerStopped.

Definition with_identity (w : world) (i : Identity.state) : world := mkWorld i (registry w) (switchEpoch w) (worker_current w) (worker_stopped w).
Definition with_registry (w : world) (r : Registry.state) : world := mkWorld (identity w) r (switchEpoch w) (worker_current w) (worker_stopped w).

Definition happen (e : event) (w : world) : world :=
  match e with
  | BeginTransition t r => with_identity w (BeginSIMIdentityTransition t r (identity w)).2
  | EnsureTransition t r => with_identity w (EnsureSIMIdentityTransition t r (identity w)).2
  | MarkDegraded r e => with_identity w (MarkSIMIdentityDegraded r e (identity w))
  | RestoreAfterFailure a b r => with_identity w (restoreSIMIdentityAfterTransitionFailure a b r (identity w))
  | RefreshStore r l => with_identity w (refresh_store r l (identity w)).2
  | PostSwitchStore a b x y c => with_identity w (post_switch_store a b x y c (identity w))
  | BeginSwitch d c now =>
      mkWorld (identity w) (Registry.begin_switch d c now (registry w)).2 (u64 (switchEpoch w + 1)) (worker_current w) (worker_stopped w)
  | RegistrySection o => with_registry w (Registry.apply o (registry w))
  | WorkerRemoved => mkWorld (identity w) (registry w) (switchEpoch w) false (worker_stopped w)
  | WorkerStopped => mkWorld (identity w) (registry w) (switchEpoch w) (worker_current w) true
  end.

Definition history (l : list event) (w : world) : world := foldl (λ w e, happen e w) w l.


(** The card that is recorded. *)
Definition card (w : world) : string := normalizeSIMIdentityForCompare (ICCID (identity w)).

(** The end of a switch, or of a failed one, recorded another card: the
    generation does not tell of it. *)
Definition stored_unseen (e : event) (w : world) : bool :=
  match e with
  | RestoreAfterFailure _ _ _ | PostSwitchStore _ _ _ _ _ => negb (bool_decide (card (happen e w) = card w))
  | _ => false
  end.

(** Some event of a history, in the world that it happened in. *)
Fixpoint happened (P : event → world → bool) (l : list event) (w : world) : bool :=
  match l with
  | [] => false
  | e :: l => P e w || happened P l (happen e w)
  end.








(** Whatever happens to a device keeps its identity in order. *)
Lemma history_identity_ok l w : Identity.ok (identity w) → Identity.ok (identity (history l w)).
Proof.
  revert w. induction l as [|e l IH]; intros w Hw; [done|]. apply IH. destruct e; cbn; try done.
  - apply begin_transition_ok.
  - by apply ensure_ok.
  - by apply mark_degraded_ok.
  - apply restore_ok.
  - by apply refresh_store_ok.
  - by apply post_switch_store_ok.
Qed.

(** The same card is read again while a policy is applied, after the refresh of an
    earlier switch stored it again. *)
Definition demo_card : live := mkLive "8986001" "46000" "" "" None false false.
Definition demo_world : world := mkWorld (refresh_store "boot" demo_card Identity.initial).2 Registry.initial 3 true false.


(** Two refreshes that an earlier switch scheduled record another card and then
    the first one again: the owner that was captured before is valid. *)
Lemma card_back_unseen :
  let l := [PostSwitchStore "8986002" "46001" true true true; PostSwitchStore "8986001" "46000" true true true] in
  card (history (take 1 l) demo_world) = "8986002" ∧ happened stored_unseen l demo_world = true ∧
  validatePolicyOwner "wwan0" (capturePolicyOwner demo_world) (history l demo_world) = true.
Proof. by vm_compute. Qed.
End Policy.
