(* ===== verification/DeviceSwitch.v ===== *)
(** * Switching the card of a device (internal/device)

    What the pool does around a switch of the eSIM (pool_esim_switch.go,
    post_switch_convergence.go and switch_reinit.go), as programs: the snapshot
    and the teardown before it, and after it the convergence of the card, the
    identity, the authentication gate, and the radio, network and calls over WiFi
    as they were.  The sections of DeviceIdentity.v, the gate of SimAuthGate.v,
    the drivers and the other parts of the pool are requests; the state of a
    device may change between any two of them.

    A wait until a time is over is a request as well; how often a loop goes round
    before its time is over is the answer of one. *)

From Stdlib Require Import Ascii String.
From S2P Require Import Prelude GoText SimIdentity Interaction DeviceIdentity.
From stdpp Require Import strings.
Import Registry.

#[local] Open Scope string_scope.
#[local] Open Scope Z_scope.

(** An error: its text and what [errors.Is] finds in it. *)
Record fault := mkFault { text : string; deadline_exceeded : bool; canceled : bool }.
Definition Errorf (t : string) : fault := mkFault t false false.

Inductive operating_mode := ModeOnline | ModeLowPower | ModeRFOff | OtherMode.
#[global] Instance mode_eq_dec : EqDecision operating_mode.
Proof. solve_decision. Defined.

Definition isFlightOperatingMode (m : operating_mode) : bool := bool_decide (m = ModeRFOff) || bool_decide (m = ModeLowPower).

(** A worker: which of its parts are there, which interfaces its backend has, and
    its configuration. *)
Record Worker := mkWorker {
  number : Z; worker_generation : Z;
  Backend : bool; pcsc : bool; OperatingModeController : bool; NetworkController : bool; QMICore : bool; APDUArbiter : bool; EsimMgr : bool;
  liveSIMIdentityReader : bool; postSwitchReadinessProvider : bool; postSwitchSIMReloader : bool; postSwitchSIMPowerController : bool;
  postSwitchCoreRecoveryRequester : bool; postSwitchCoreReadyWaiter : bool; postSwitchOperatingModeProbe : bool; postSwitchSignalProbe : bool;
  SIMAuthProvider : bool; SIMAuthAIDResolver : bool;
  VoWiFiEnabled : bool; NetworkEnabled : bool; RadioCycle : bool; EventGatedConverge : bool; NASAttachTimeoutMS : Z; ReinitWindowMS : Z;
  wants_native_volte : bool }.

(** [qmimanager.UIMReadiness] *)
Record UIMReadiness := mkReadiness {
  TransportReady : bool; ControlReady : bool; UIMReady : bool; r_ICCID : string; r_IMSI : string; r_Reason : string;
  SlotKnown : bool; ActiveSlot : Z; r_Err : option fault }.

Inductive switchEvent := SlotStatus | Refresh (stage : Z).

Inductive request :=
  (* the pool and its record of switches *)
  | LockTransition | UnlockTransition | BumpEpoch
  | GetWorker | WorkerOfOwner (o : workerLifecycleOwner) | OwnerCurrent (o : option workerLifecycleOwner) (worker : Z)
  | BeginSection (snapshot : esimSwitchContext) | FinishESIMSwitch | ResolveIfToken (token : Z) | FinishFailure (token : Z)
  | MarkPhase (token : Z) (phase : string) | UpdateGeneration (token generation : Z) | LatestToken (token : Z)
  | ClearSwitch | ClearIfToken (token : Z)
  | Now | Sleep (ms : Z) | WaitOrStop (ms : Z) | PollTurns (timeout interval : Z)
  (* the card and its identity *)
  | CachedProfileName (iccid : string) | ClassifyICCID (iccid name : string) | ClassifyWorker
  | CachedIdentity | BeginIdentity (target reason : string) | EnsureIdentity (target reason : string) | IdentityDegraded (reason err : string)
  | RestoreIdentity (iccid imsi reason : string) | ConvergenceMatches (target : string) (generation : Z)
  | ReadICCID | ReadIMSI | StoreIdentity (iccid imsi : string) (iccidOK imsiOK changed : bool) | PersistIdentity
  (* the radio and the network *)
  | GetOperatingMode | SetOperatingMode (m : operating_mode) | GetSignalInfo
  | NetConnected | StartNetwork | StopNetwork | ClearCachedIP | RefreshIPs
  | SuppressRadio (b : bool) | SuppressByConfig | EnterAirplane (reason : string) | LockRF | CancelReconcile (reason : string)
  | WaitControlReady (ms : Z) | WaitCoreReadyFor (ms : Z) | ScheduleNativeVoLTE (reason : string)
  (* the convergence of the card *)
  | NewEventSource | CurrentEventSource | DropEventSource | EventsInWindow (ms : Z)
  | GetUIMReadiness | InReinitWindow | RequestCoreRecovery (reason : string) | WaitCoreReady
  | PostSwitchReload | PowerOffSIM (slot : Z) | PowerOnSIM (slot : Z)
  (* the gate of the authentication *)
  | ConfigureArbiter | InvalidateSIMAuthReady (reason : string) | GateTurns | ProbeStale | GateClosed | ResolveSIMAuthAID
  (* the rest of the pool *)
  | MarkHealthWindow | ReleaseAPDULeases | ResetSnapshotIdentities | Broadcast
  | InvalidateDynamicCache | RefreshRuntime (reason : string) | PersistRuntime
  | ResolvePolicy (reason : string) | ScheduleRefreshes | WarmOverview (reason : string)
  | VoWiFiActive | SwitchBegin | SwitchEnd | RecoverBlocksVoWiFi | WaitHomeIdentity | LaunchRecover | ClearDesiredRecover.

#[global] Instance switch_answer : Requests request := λ c,
  match c with
  | GetWorker | WorkerOfOwner _ => option Worker
  | OwnerCurrent _ _ | LatestToken _ | MarkPhase _ _ | WaitOrStop _ | ConvergenceMatches _ _ => bool
  | NetConnected | InReinitWindow | RequestCoreRecovery _ | VoWiFiActive | RecoverBlocksVoWiFi | CurrentEventSource | ProbeStale => bool
  | BeginSection _ => esimSwitchContext
  | FinishESIMSwitch | ResolveIfToken _ | FinishFailure _ => option esimSwitchContext
  | Now | BeginIdentity _ _ | EnsureIdentity _ _ => Z
  | PollTurns _ _ | GateTurns => nat
  | CachedProfileName _ => string
  | ClassifyICCID _ _ => (bool * option fault)%type
  | ClassifyWorker => ((bool * string * bool) + fault)%type  (* Lebara, the live IMSI, and whether that is a flipped one *)
  | CachedIdentity => (string * string)%type
  | ReadICCID | ReadIMSI => (string * option fault)%type
  | GetOperatingMode => (operating_mode + fault)%type
  | GetSignalInfo | SetOperatingMode _ | StartNetwork | StopNetwork | WaitControlReady _ | WaitCoreReadyFor _ | WaitCoreReady => option fault
  | PowerOffSIM _ | PowerOnSIM _ | SwitchBegin | SwitchEnd => option fault
  | WaitHomeIdentity => option (fault * bool)%type  (* the error, and whether it is [ErrLebaraUKFlippedIMSI] *)
  | EventsInWindow _ => list switchEvent
  | GetUIMReadiness => (UIMReadiness * option fault)%type
  | PostSwitchReload => (Z * option fault)%type
  | GateClosed => option fault
  | ResolveSIMAuthAID => ((string * string) + fault)%type
  | _ => unit
  end.

Definition ask_if (b : bool) (c : request) : prog request unit := if b then let? _ := ask c in Ret tt else Ret tt.

Section Switching.
Context (unicode_lower : string → string).

(** [time.Duration.String] of the poll is not needed; the delays in
    milliseconds. *)
Definition postSwitchIdentityPollTimeout : Z := 10000.
Definition postSwitchIdentityPollInterval : Z := 500.

(** ** Before the switch *)

Definition captured (now : Z) (target : string) : esimSwitchContext :=
  mkContext None false false false false "" "" target false false 0 0 now "" None.

Definition captureESIMSwitchContext (targetICCID : string) : prog request esimSwitchContext :=
  let target := normalizeSIMIdentity targetICCID in
  let? now := ask Now in
  let? worker := ask GetWorker in
  match worker with
  | None => Ret (captured now target)
  | Some w =>
      let? class :=
        (if bool_decide (target ≠ "") then
           let? name := (if EsimMgr w then ask (CachedProfileName target) else Ret "") in
           ask (ClassifyICCID target name)
         else Ret (false, None)) in
      let? cached := ask CachedIdentity in
      let? connected := (if NetworkController w then ask NetConnected else Ret false) in
      let? vowifi := ask VoWiFiActive in
      let? flight :=
        (if Backend w && negb (pcsc w) then
           let? mode := ask GetOperatingMode in
           Ret (match mode with inl m => isFlightOperatingMode m | inr _ => false end)
         else Ret false) in
      Ret (mkContext (Some (mkOwner (number w) (worker_generation w))) vowifi flight connected (NetworkEnabled w)
             (TrimSpace cached.1) (TrimSpace cached.2) target class.1 (bool_decide (class.2 ≠ None)) 0 0 now "" None)
  end.

(** [expected] is the worker that the callbacks were made for. *)
Definition beginESIMSwitchForWorkerLocked (targetICCID : string) (expected : option Z) : prog request esimSwitchContext :=
  let begin :=
    let? _ := ask BumpEpoch in
    let? snapshot := captureESIMSwitchContext targetICCID in
    ask (BeginSection snapshot) in
  match expected with
  | None => begin
  | Some e =>
      let? worker := ask GetWorker in
      if bool_decide (number <$> worker = Some e) then begin else Ret no_context
  end.

Definition beginESIMSwitchForWorker (targetICCID : string) (expected : option Z) : prog request esimSwitchContext :=
  let? _ := ask LockTransition in
  let? c := beginESIMSwitchForWorkerLocked targetICCID expected in
  let? _ := ask UnlockTransition in
  Ret c.

Definition controls_radio (w : Worker) : bool := Backend w && negb (pcsc w) && OperatingModeController w.

Definition releaseRadioBeforeSwitch (w : Worker) : prog request unit :=
  if controls_radio w then let? _ := ask (SetOperatingMode ModeLowPower) in Ret tt else Ret tt.

(** [StopNetwork] if there is a connection. *)
Definition stop_connected (w : Worker) : prog request unit :=
  if NetworkController w then
    let? connected := ask NetConnected in
    if (connected : bool) then let? _ := ask StopNetwork in Ret tt else Ret tt
  else Ret tt.

Definition holdRadioOffForLebaraSwitchTarget (w : Worker) : prog request unit :=
  let? _ := ask (SuppressRadio true) in
  let? _ := stop_connected w in
  releaseRadioBeforeSwitch w.

Definition holds_radio (c : esimSwitchContext) : bool := TargetLebaraCandidate c || TargetClassifyFailed c.

Definition prepare_radio (c : esimSwitchContext) (w : Worker) : prog request unit :=
  if holds_radio c then holdRadioOffForLebaraSwitchTarget w
  else if RadioCycle w then releaseRadioBeforeSwitch w else Ret tt.

Definition handleESIMSwitchBeforeSnapshot (c : esimSwitchContext) : prog request Z :=
  if bool_decide (SwitchToken c = 0) then Ret 0
  else
    let? worker := ask GetWorker in
    let? _ :=
      match worker with
      | None => Ret tt
      | Some w =>
          let? _ := ask MarkHealthWindow in
          let? g := ask (BeginIdentity (TargetICCID c) "esim_switch_begin") in
          let? _ := ask (UpdateGeneration (SwitchToken c) g) in
          let? _ := ask Broadcast in
          let? _ := ask_if (negb (QMICore w) && APDUArbiter w) (InvalidateSIMAuthReady "esim_switch_teardown") in
          ask_if (EventGatedConverge w) NewEventSource
      end in
    let? _ := ask SwitchBegin in
    let? worker := ask GetWorker in
    match worker with
    | Some w =>
        if QMICore w then
          let? _ := prepare_radio c w in
          let? _ := ask ReleaseAPDULeases in
          let? _ := ask ResetSnapshotIdentities in
          Ret (SwitchToken c)
        else
          let? worker := ask GetWorker in
          let? _ := match worker with Some w => prepare_radio c w | None => Ret tt end in
          Ret (SwitchToken c)
    | None =>
        let? worker := ask GetWorker in
        let? _ := match worker with Some w => prepare_radio c w | None => Ret tt end in
        Ret (SwitchToken c)
    end.

Definition handleESIMSwitchBeforeWorker (targetICCID : string) (expected : option Z) : prog request Z :=
  let? c := beginESIMSwitchForWorker targetICCID expected in handleESIMSwitchBeforeSnapshot c.
Definition handleESIMSwitchBeforeWorkerLocked (targetICCID : string) (expected : option Z) : prog request Z :=
  let? c := beginESIMSwitchForWorkerLocked targetICCID expected in handleESIMSwitchBeforeSnapshot c.

(** ** Errors of a stalled service *)

Definition isPostSwitchQMIStallError (e : option fault) : bool :=
  match e with
  | None => false
  | Some e =>
      if canceled e then false
      else if deadline_exceeded e then true
      else
        let msg := ToLower unicode_lower (TrimSpace (text e)) in
        if bool_decide (msg = "") then false
        else existsb (λ f, Contains msg f)
          ["context deadline exceeded"; "timeout"; "timed out"; "qmi 服务未就绪"; "service not ready"; "service unavailable"; "device busy";
           "device or resource busy"; "qmi: read failed"; "read failed: eof"; "broken pipe"; "client closed"]
  end.

(** [setOperatingModeWithRetry]: again after each of the delays, while the
    service is stalled. *)
Fixpoint set_mode_retry (delays : list Z) (m : operating_mode) : prog request (option fault) :=
  let? r := ask (SetOperatingMode m) in
  match delays with
  | [] => Ret r
  | d :: delays =>
      match r with
      | None => Ret None
      | Some e =>
          if isPostSwitchQMIStallError (Some e) then
            let? fired := ask (WaitOrStop d) in
            if (fired : bool) then set_mode_retry delays m else Ret (Some e)
          else Ret (Some e)
      end
  end.
Definition setOperatingModeWithRetry (m : operating_mode) : prog request (option fault) := set_mode_retry [2000; 3000; 5000] m.

(** ** Network and radio as they were *)

Definition applyNetworkPreferenceForSwitchSnapshot (w : Worker) (c : esimSwitchContext) : prog request (option fault) :=
  let want := QMIConnectedBefore c || NetworkEnabledBefore c in
  if negb (NetworkController w) then Ret (if want then Some (Errorf "当前设备缺少数据面能力") else None)
  else
    let? connected := ask NetConnected in
    if want then (if (connected : bool) then Ret None else ask StartNetwork)
    else if (connected : bool) then ask StopNetwork
    else let? _ := ask ClearCachedIP in Ret None.

(** [enterAirplaneModeFromPolicy] of policy_projection.go *)
Definition enterAirplaneModeFromPolicy (w : Worker) (reason : string) : prog request unit :=
  let? _ := ask (SuppressRadio true) in
  let? _ := ask (CancelReconcile reason) in
  let? _ := stop_connected w in
  let? _ := ask ClearCachedIP in
  if negb (Backend w && OperatingModeController w) then Ret tt
  else
    let? mode := ask GetOperatingMode in
    match mode with
    | inl ModeRFOff => Ret tt
    | _ => let? _ := ask (SetOperatingMode ModeRFOff) in Ret tt
    end.

Definition enforceLebaraUKRadioOff (w : Worker) (reason : string) : prog request unit :=
  let? _ := ask LockRF in enterAirplaneModeFromPolicy w reason.

Definition keepLebaraUKRadioOffAfterSwitch (w : Worker) (c : esimSwitchContext) (reason : string) : prog request bool :=
  let? class := ask ClassifyWorker in
  match class with
  | inr _ => let? _ := enforceLebaraUKRadioOff w reason in Ret true
  | inl (is_lebara, liveIMSI, flipped) =>
      let liveIMSI := TrimSpace liveIMSI in
      let ambiguous := holds_radio c && (bool_decide (liveIMSI = "") || flipped) in
      if negb is_lebara && negb ambiguous then Ret false
      else let? _ := enforceLebaraUKRadioOff w reason in Ret true
  end.

Definition refresh_connected (w : Worker) : prog request unit :=
  if NetworkController w then
    let? connected := ask NetConnected in
    if (connected : bool) then let? _ := ask RefreshIPs in Ret tt else Ret tt
  else Ret tt.

Definition restoreRadioDataForSwitchSnapshot (w : Worker) (c : esimSwitchContext) (reason : string) (radioCycleAlreadyDone : bool) : prog request unit :=
  if Backend w && pcsc w then Ret tt
  else
    let? kept := keepLebaraUKRadioOffAfterSwitch w c reason in
    if (kept : bool) then Ret tt
    else if FlightModeBefore c then
      let? _ := (if Backend w then let? _ := setOperatingModeWithRetry ModeRFOff in Ret tt else Ret tt) in
      stop_connected w
    else
      let? _ := (if negb radioCycleAlreadyDone && Backend w then let? _ := setOperatingModeWithRetry ModeOnline in Ret tt else Ret tt) in
      let? _ := applyNetworkPreferenceForSwitchSnapshot w c in
      refresh_connected w.

(** ** The switch failed *)

Definition captured_when_lost (found : option esimSwitchContext) : prog request esimSwitchContext :=
  match found with Some c => Ret c | None => captureESIMSwitchContext "" end.

Definition finishESIMSwitchForFailure (token : Z) : prog request (option esimSwitchContext) :=
  if bool_decide (token = 0) then
    let? found := ask FinishESIMSwitch in
    match found with
    | Some c =>
        if bool_decide (SwitchToken c ≠ 0) then let? _ := ask (ClearIfToken (SwitchToken c)) in Ret (Some c)
        else let? _ := ask ClearSwitch in Ret (Some c)
    | None => let? _ := ask ClearSwitch in let? c := captureESIMSwitchContext "" in Ret (Some c)
    end
  else ask (FinishFailure token).

Definition handleESIMSwitchFailed (token : Z) : prog request unit :=
  let? found := finishESIMSwitchForFailure token in
  match found with
  | None => Ret tt
  | Some c =>
      let? worker := ask GetWorker in
      match worker with
      | None => Ret tt
      | Some w =>
          let? _ := ask (RestoreIdentity (ICCIDBefore c) (IMSIBefore c) "esim_switch_failed") in
          let? _ := ask SuppressByConfig in
          let? _ := restoreRadioDataForSwitchSnapshot w c "switch_failed" false in
          ask Broadcast
      end
  end.

Definition handleESIMSwitchDegradedWithError (token : Z) (phase : string) : prog request unit :=
  let? _ := ask (MarkPhase token (if bool_decide (phase = "") then SwitchPhaseDegraded else phase)) in Ret tt.

(** ** The convergence of the card *)

Inductive postSwitchAction := WaitControl | WaitSIM | WaitIdentity | RestoreRuntime.
#[global] Instance action_eq_dec : EqDecision postSwitchAction.
Proof. solve_decision. Defined.

Record postSwitchDecision := mkDecision { Action : postSwitchAction; d_Reason : string }.

Definition classifyPostSwitchReadiness (r : UIMReadiness) (targetICCID : string) : postSwitchDecision :=
  let target := normalizeSIMIdentityForCompare targetICCID in
  let current := normalizeSIMIdentityForCompare (r_ICCID r) in
  let reason := if bool_decide (r_Reason r = "") then "unknown" else r_Reason r in
  if negb (TransportReady r) || negb (ControlReady r) then mkDecision WaitControl reason
  else if negb (UIMReady r) then mkDecision WaitSIM reason
  else if bool_decide (TrimSpace target ≠ "") && negb (bool_decide (current = target)) then mkDecision WaitIdentity "target_iccid_not_active"
  else if bool_decide (TrimSpace (r_ICCID r) = "") && bool_decide (TrimSpace (r_IMSI r) = "") then mkDecision WaitIdentity "identity_empty"
  else mkDecision RestoreRuntime reason.

(** The reason that the library gives when the transport is lost. *)
Context (UIMReadinessTransportFatal : string).

Definition isPostSwitchQMIServiceStall (r : UIMReadiness) (err : option fault) : bool :=
  let err := match err with None => r_Err r | Some _ => err end in
  if bool_decide (r_Reason r = UIMReadinessTransportFatal) then true else isPostSwitchQMIStallError err.

Definition probePostSwitchQMIServiceStall (w : Worker) : prog request bool :=
  let? stalled :=
    (if postSwitchOperatingModeProbe w then
       let? mode := ask GetOperatingMode in
       Ret (match mode with inr e => isPostSwitchQMIStallError (Some e) | inl _ => false end)
     else Ret false) in
  if (stalled : bool) then Ret true
  else if postSwitchSignalProbe w then let? e := ask GetSignalInfo in Ret (isPostSwitchQMIStallError e)
  else Ret false.

Record convergence := mkConvergence { c_Ready : bool; c_Degraded : bool; c_Reason : string; c_Slot : Z }.

(** The card is powered off and on again, whatever the first answers. *)
Definition triggerPowerCycleFallback (slot : Z) : prog request (option fault) :=
  let? off := ask (PowerOffSIM slot) in
  let? _ := ask (Sleep 500) in
  let? on := ask (PowerOnSIM slot) in
  match off, on with
  | Some off, Some on => Ret (Some (mkFault ("power off failed: " +:+ text off +:+ "; power on failed: " +:+ text on) (deadline_exceeded on) (canceled on)))
  | _, Some on => Ret (Some on)
  | off, None => Ret off
  end.

(** The request to recover the core, and the wait for it. *)
Definition recover_core (w : Worker) : prog request unit :=
  let? requested := ask (RequestCoreRecovery "post_switch_qmi_service_stalled") in
  if postSwitchCoreReadyWaiter w then
    let? _ := ask_if requested (Sleep 1000) in
    let? _ := ask WaitCoreReady in Ret tt
  else ask_if requested (Sleep 8000).

(** The slot that is powered, the first when none is known. *)
Definition power_slot (r : UIMReadiness) : Z := if SlotKnown r && negb (bool_decide (ActiveSlot r = 0)) then ActiveSlot r else 1.

Definition reinit_window (windowMS : Z) : prog request bool :=
  if bool_decide (0 < windowMS) then ask InReinitWindow else Ret false.

Definition degraded_by (reason : string) (slot : Z) : convergence := mkConvergence false true reason slot.

(** An error of the call is kept with what it returned. *)
Definition with_error (r : UIMReadiness) (err : option fault) : UIMReadiness :=
  match err with
  | Some _ => mkReadiness (TransportReady r) (ControlReady r) (UIMReady r) (r_ICCID r) (r_IMSI r) (r_Reason r) (SlotKnown r) (ActiveSlot r) err
  | None => r
  end.

(** The end of the loop. *)
Definition converge_timeout (last : postSwitchDecision) (lastSlot : Z) : convergence :=
  if negb (bool_decide (lastSlot = 0)) then degraded_by "identity_convergence_timeout" lastSlot else degraded_by (d_Reason last) 0.

(** [attempts] are left; the card is reloaded when [untilReload] is one.
    The reset of the card is tried at that attempt only. *)
Fixpoint converge_loop (w : Worker) (target : string) (threshold windowMS : Z) (attempts untilReload : nat) (stalls : Z)
    (last : postSwitchDecision) (lastSlot : Z) : prog request convergence :=
  match attempts with
  | O => Ret (converge_timeout last lastSlot)
  | S attempts =>
      let? probe := ask GetUIMReadiness in
      let r := with_error probe.1 probe.2 in
      let d := classifyPostSwitchReadiness r target in
      if bool_decide (Action d = RestoreRuntime) then Ret (mkConvergence true false (d_Reason d) (ActiveSlot r))
      else
        let? stall := (if isPostSwitchQMIServiceStall r probe.2 then Ret true else probePostSwitchQMIServiceStall w) in
        let? inWindow := reinit_window windowMS in
        let counted := (stall : bool) && negb inWindow in
        let stalls := if counted then stalls + 1 else 0 in
        if counted && bool_decide (threshold ≤ stalls) && postSwitchCoreRecoveryRequester w then
          let? _ := recover_core w in
          converge_loop w target threshold windowMS attempts (untilReload - 1) 0 d (ActiveSlot r)
        else if bool_decide (untilReload = 1%nat) && TransportReady r && ControlReady r then
          if postSwitchSIMReloader w then
            let? reloaded := ask PostSwitchReload in
            match reloaded.2 with
            | Some _ => Ret (degraded_by "reload_degraded" reloaded.1)
            | None => converge_loop w target threshold windowMS attempts (untilReload - 1) stalls d (ActiveSlot r)
            end
          else if postSwitchSIMPowerController w then
            let? cycled := triggerPowerCycleFallback (power_slot r) in
            match cycled with
            | Some _ => Ret (degraded_by "reload_degraded" (power_slot r))
            | None => converge_loop w target threshold windowMS attempts (untilReload - 1) stalls d (ActiveSlot r)
            end
          else converge_loop w target threshold windowMS attempts (untilReload - 1) stalls d (ActiveSlot r)
        else converge_loop w target threshold windowMS attempts (untilReload - 1) stalls d (ActiveSlot r)
  end.

Definition IdentityAttempts : nat := 20.
Definition ReloadAfterAttempts : nat := 6.
Definition defaultPostSwitchCoreStallThreshold : Z := 2.

(** [convergePostSwitch] with the options that [runPostSwitchConvergence] gives
    it; they are set, but for the threshold. *)
Definition convergePostSwitch (w : Worker) (target : string) (windowMS : Z) : prog request convergence :=
  converge_loop w target defaultPostSwitchCoreStallThreshold windowMS IdentityAttempts ReloadAfterAttempts 0 (mkDecision WaitControl "") 0.

Definition effectivePostSwitchReinitWindow (w : Worker) : Z :=
  if negb (EventGatedConverge w) then 0 else if bool_decide (0 < ReinitWindowMS w) then ReinitWindowMS w else 5000.

Definition uimRefreshStageEndWithSuccess : Z := 2.
Definition isReinitConvergenceEvent (e : switchEvent) : bool :=
  match e with SlotStatus => true | Refresh stage => bool_decide (stage = uimRefreshStageEndWithSuccess) end.

(** The events that come before the window or the source ends. *)
Fixpoint await_events (target : string) (l : list switchEvent) : prog request bool :=
  match l with
  | [] => Ret false
  | e :: l =>
      if negb (isReinitConvergenceEvent e) then await_events target l
      else
        let? probe := ask GetUIMReadiness in
        if bool_decide (Action (classifyPostSwitchReadiness probe.1 target) = RestoreRuntime) then Ret true else await_events target l
  end.

Definition awaitReinitConverged (target : string) (windowMS : Z) : prog request bool :=
  if bool_decide (windowMS <= 0) then Ret false
  else let? events := ask (EventsInWindow windowMS) in await_events target events.

(** The controlled restart of the card after a window without its event. *)
Definition restart_card (w : Worker) : prog request unit :=
  if postSwitchSIMPowerController w then
    let? probe := ask GetUIMReadiness in
    let? _ := triggerPowerCycleFallback (match probe.2 with None => power_slot probe.1 | Some _ => 1 end) in Ret tt
  else Ret tt.

Definition converge_and_apply (w : Worker) (target : string) (windowMS : Z) : prog request convergence :=
  let? result := convergePostSwitch w target windowMS in
  let? _ := ask_if (c_Ready result) (ResolvePolicy "esim_switched") in
  Ret result.

Definition runPostSwitchConvergence (w : Worker) (c : esimSwitchContext) : prog request convergence :=
  if negb (Backend w) then Ret (degraded_by "worker_or_backend_missing" 0)
  else if pcsc w then Ret (mkConvergence true false "pcsc_card_reset_complete" 0)
  else if negb (postSwitchReadinessProvider w) then Ret (degraded_by "uim_readiness_not_supported" 0)
  else
    let windowMS := effectivePostSwitchReinitWindow w in
    if EventGatedConverge w then
      let? known := ask CurrentEventSource in
      let? _ := ask_if (negb known) NewEventSource in
      let? converged := awaitReinitConverged (TargetICCID c) windowMS in
      let? result :=
        (if (converged : bool) then
           let? _ := ask (ResolvePolicy "esim_switched") in
           Ret (mkConvergence true false "ready" 0)
         else
           let? _ := restart_card w in
           converge_and_apply w (TargetICCID c) windowMS) in
      let? _ := ask DropEventSource in
      Ret result
    else converge_and_apply w (TargetICCID c) windowMS.

(** ** The identity after the switch *)

(** What was read last: the ICCID, the IMSI and whether each could be read. *)
Record reading := mkReading { newICCID : string; newIMSI : string; iccidErr : option fault; imsiErr : option fault }.

(** The card is the one that was waited for. *)
Definition arrived (targetKey oldKey : string) (r : reading) : bool :=
  let key := normalizeSIMIdentityForCompare (newICCID r) in
  (bool_decide (targetKey ≠ "") && bool_decide (key = targetKey) && bool_decide (newIMSI r ≠ "") && bool_decide (imsiErr r = None))
  || (bool_decide (targetKey = "") && (bool_decide (oldKey = "") || (bool_decide (key ≠ "") && negb (bool_decide (key = oldKey))))).

(** [turns] times the deadline is not over after a reading. *)
Fixpoint poll_identity (targetKey oldKey : string) (turns : nat) (interval : Z) : prog request reading :=
  let? iccid := ask ReadICCID in
  let? imsi := ask ReadIMSI in
  let r := mkReading (normalizeSIMIdentity iccid.1) (normalizeSIMIdentity imsi.1) iccid.2 imsi.2 in
  if arrived targetKey oldKey r then Ret r
  else match turns with
       | O => Ret r
       | S turns => let? _ := ask (Sleep interval) in poll_identity targetKey oldKey turns interval
       end.

Definition refreshPostSwitchIdentityWithPolling (w : Worker) (c : esimSwitchContext) (pollTimeout pollInterval : Z) : prog request (bool * option string) :=
  let oldICCID := normalizeSIMIdentity (ICCIDBefore c) in
  let oldIMSI := normalizeSIMIdentity (IMSIBefore c) in
  let target := normalizeSIMIdentity (TargetICCID c) in
  let targetKey := normalizeSIMIdentityForCompare target in
  let oldKey := normalizeSIMIdentityForCompare oldICCID in
  let fail e := let? _ := ask (IdentityDegraded "post_switch_finalize" e) in Ret (false, Some e) in
  let? _ := ask (EnsureIdentity target "post_switch_finalize") in
  if negb (Backend w && liveSIMIdentityReader w) then fail "live_identity_not_supported"
  else
    let? turns := ask (PollTurns pollTimeout pollInterval) in
    let? r := poll_identity targetKey oldKey turns pollInterval in
    let key := normalizeSIMIdentityForCompare (newICCID r) in
    if bool_decide (targetKey ≠ "") && negb (bool_decide (key = targetKey)) then fail "post_switch_target_iccid_not_active"
    else
      let changed := (bool_decide (oldKey ≠ "") && bool_decide (key ≠ "") && negb (bool_decide (oldKey = key)))
                     || (bool_decide (oldIMSI ≠ "") && bool_decide (newIMSI r ≠ "") && negb (bool_decide (oldIMSI = newIMSI r))) in
      let? _ := ask (StoreIdentity (newICCID r) (newIMSI r) (bool_decide (iccidErr r = None)) (bool_decide (imsiErr r = None)) changed) in
      let? _ := ask PersistIdentity in
      if bool_decide (newICCID r = "") then fail "post_switch_iccid_empty" else Ret (true, None).

Definition refreshPostSwitchIdentity (w : Worker) (c : esimSwitchContext) : prog request (bool * option string) :=
  refreshPostSwitchIdentityWithPolling w c postSwitchIdentityPollTimeout postSwitchIdentityPollInterval.

(** [esimSwitchOwnerCurrent] *)
Definition esimSwitchOwnerCurrent (w : Worker) (c : esimSwitchContext) : prog request bool := ask (OwnerCurrent (Owner c) (number w)).

(** One of the goroutines of [schedulePostSwitchIdentityRefreshes]. *)
Definition delayed_identity_refresh (c : esimSwitchContext) (delay : Z) : prog request unit :=
  let? fired := ask (WaitOrStop delay) in
  if negb fired then Ret tt
  else
    let? worker := match Owner c with Some o => ask (WorkerOfOwner o) | None => ask GetWorker end in
    match worker with
    | None => Ret tt
    | Some w =>
        let? current := esimSwitchOwnerCurrent w c in
        if negb current || negb (Backend w) then Ret tt
        else
          let? matches := ask (ConvergenceMatches (TargetICCID c) (IdentityGeneration c)) in
          if negb matches then Ret tt
          else
            let? refreshed := refreshPostSwitchIdentityWithPolling w c postSwitchIdentityPollTimeout postSwitchIdentityPollInterval in
            match refreshed.2 with
            | Some _ => Ret tt
            | None =>
                let? current := esimSwitchOwnerCurrent w c in
                if negb current then Ret tt
                else let? _ := ask PersistIdentity in ask Broadcast
            end
    end.

Definition refreshPostSwitchRuntime : prog request unit :=
  let? _ := ask InvalidateDynamicCache in
  let? _ := ask (RefreshRuntime "post_switch_finalize") in
  let? _ := ask PersistRuntime in
  ask Broadcast.

Definition waitPostSwitchCoreReady (w : Worker) (c : esimSwitchContext) : prog request bool :=
  let? current := esimSwitchOwnerCurrent w c in
  if negb current then Ret false
  else
    let? late := ask (WaitControlReady 30000) in
    match late with
    | Some _ => esimSwitchOwnerCurrent w c
    | None =>
        let? current := esimSwitchOwnerCurrent w c in
        if negb current then Ret false
        else let? _ := ask_if (wants_native_volte w) (ScheduleNativeVoLTE "post_esim_switch") in Ret true
    end.

(** ** The gate of the authentication *)

Definition postSwitchSIMAuthUSIMAID : string := "A0000000871002".

Record postSwitchSIMAuthProbeResult := mkProbe { p_Ready : bool; p_Stage : string; p_AID : string; p_Source : string; p_Err : option fault }.

Definition aid_not_ready (t : string) : (string * string) + fault := inr (Errorf ("sim_auth_aid_not_ready: " +:+ t)).

Definition resolvePostSwitchSIMAuthAID (w : Worker) : prog request ((string * string) + fault) :=
  if negb (SIMAuthAIDResolver w) then Ret (aid_not_ready "resolver unavailable")
  else
    let? r := ask ResolveSIMAuthAID in
    Ret match r with
        | inr e => inr (mkFault ("sim_auth_aid_not_ready: " +:+ text e) (deadline_exceeded e) (canceled e))
        | inl (aid, source) =>
            let aid := ToUpper id (TrimSpace aid) in
            if bool_decide (aid = "") then aid_not_ready "empty resolved USIM AID"
            else if negb (HasPrefix aid postSwitchSIMAuthUSIMAID) then aid_not_ready ("resolved USIM AID prefix mismatch: " +:+ aid)
            else if bool_decide (String.length aid <= String.length postSwitchSIMAuthUSIMAID)%nat then aid_not_ready ("resolved USIM AID is not full AID: " +:+ aid)
            else inl (aid, if bool_decide (source = "") then "resolver" else source)
        end.

Definition probePostSwitchSIMAuthReady (w : Worker) : prog request postSwitchSIMAuthProbeResult :=
  let? r := resolvePostSwitchSIMAuthAID w in
  Ret match r with
      | inr e => mkProbe false "resolve_usim_full_aid" "" "" (Some e)
      | inl (aid, source) => mkProbe true "usim_full_aid_ready" aid source None
      end.

Definition postSwitchSIMAuthNotReadyError (r : postSwitchSIMAuthProbeResult) : fault :=
  let prefix := if bool_decide (p_Stage r = "") then "post_switch_sim_auth_not_ready" else "post_switch_sim_auth_not_ready probe_stage=" +:+ p_Stage r in
  match p_Err r with
  | Some e => mkFault (prefix +:+ ": " +:+ text e) (deadline_exceeded e) (canceled e)
  | None => Errorf prefix
  end.

Definition postSwitchSIMAuthRecoveryDelays : list Z := [500; 500; 500; 500; 500].

Fixpoint prewarm_again (w : Worker) (delays : list Z) (r : postSwitchSIMAuthProbeResult) : prog request postSwitchSIMAuthProbeResult :=
  match delays with
  | [] => Ret r
  | d :: delays =>
      let? fired := ask (WaitOrStop d) in
      if negb fired then Ret r
      else
        let? r := probePostSwitchSIMAuthReady w in
        if p_Ready r then Ret r else prewarm_again w delays r
  end.

Definition prewarmPostSwitchSIMAuth (w : Worker) : prog request postSwitchSIMAuthProbeResult :=
  if negb (Backend w) || negb (SIMAuthProvider w) then Ret (mkProbe true "" "" "" None)
  else
    let? r := probePostSwitchSIMAuthReady w in
    if p_Ready r then Ret r else prewarm_again w postSwitchSIMAuthRecoveryDelays r.

(** [WaitSIMAuthReady] of the arbiter, which runs the probe at most [turns]
    times: it runs again when the card changed meanwhile. *)
Fixpoint wait_gate (w : Worker) (turns : nat) : prog request (option fault) :=
  match turns with
  | O => ask GateClosed
  | S turns =>
      let? r := prewarmPostSwitchSIMAuth w in
      if p_Ready r then
        let? stale := ask ProbeStale in
        if (stale : bool) then wait_gate w turns else Ret None
      else Ret (Some (mkFault ("simauth not ready: " +:+ text (postSwitchSIMAuthNotReadyError r)) false false))
  end.

(** [configureWorkerAPDUArbiter] makes the arbiter when there is none. *)
Definition waitPostSwitchSIMAuthReady (w : Worker) : prog request (option fault) :=
  if negb (Backend w) || negb (VoWiFiEnabled w) then Ret None
  else
    let? _ := ask ConfigureArbiter in
    let? turns := ask GateTurns in
    wait_gate w turns.

(** ** Everything as it was *)

Definition shouldWaitLebaraUKHomeIdentity (c : esimSwitchContext) : prog request bool :=
  if TargetLebaraCandidate c then Ret true
  else let? class := ask ClassifyWorker in Ret (match class with inl (is_lebara, _, _) => is_lebara | inr _ => false end).

Definition restore_radio_after (w : Worker) (c : esimSwitchContext) : prog request unit :=
  restoreRadioDataForSwitchSnapshot w c "post_switch_finalize" (RadioCycle w).

(** Whether calls over WiFi were restored. *)
Definition restore_vowifi (w : Worker) (gateErr : bool) (markDegraded : bool) : prog request bool :=
  if gateErr then let? _ := (if markDegraded then let? _ := ask (MarkPhase 0 SwitchPhaseDegraded) in Ret tt else Ret tt) in Ret false
  else
    let? _ := ask ClearDesiredRecover in
    let? failed := ask SwitchEnd in
    match failed with
    | Some _ => let? _ := ask (MarkPhase 0 SwitchPhaseDegraded) in Ret false
    | None => Ret true
    end.

Definition restorePostSwitchConnectivity (w : Worker) (c : esimSwitchContext) (gateErr markDegraded : bool) : prog request unit :=
  let? blocked := ask RecoverBlocksVoWiFi in
  if (blocked : bool) then restore_radio_after w c
  else if VoWiFiEnabled w then
    let? gateErr :=
      (if negb gateErr then
         let? wait := shouldWaitLebaraUKHomeIdentity c in
         if (wait : bool) then
           let? home := ask WaitHomeIdentity in
           match home with
           | Some (_, flipped) => let? _ := ask_if flipped LaunchRecover in Ret true
           | None => Ret false
           end
         else Ret false
       else Ret true) in
    let? blocked := ask RecoverBlocksVoWiFi in
    if (blocked : bool) then restore_radio_after w c
    else
      let? restored := restore_vowifi w gateErr markDegraded in
      if (restored : bool) then Ret tt else restore_radio_after w c
  else restore_radio_after w c.

Definition bringRadioOnlineAfterSwitch (w : Worker) (attachTimeout : Z) : prog request unit :=
  if negb (controls_radio w) then Ret tt
  else
    let? err := ask (SetOperatingMode ModeOnline) in
    match err with
    | Some _ => Ret tt
    | None => if bool_decide (attachTimeout <= 0) then Ret tt else let? _ := ask (WaitCoreReadyFor attachTimeout) in Ret tt
    end.

(** ** After the switch *)

Definition resolvePostSwitchSnapshotIfToken (token : Z) : prog request (option esimSwitchContext) :=
  if bool_decide (token = 0) then
    let? found := ask FinishESIMSwitch in
    let? c := captured_when_lost found in Ret (Some c)
  else ask (ResolveIfToken token).

Definition mark (token : Z) (phase : string) : prog request unit := let? _ := ask (MarkPhase token phase) in Ret tt.

(** [switchTokenStillCurrent], and the owner. *)
Definition still_current (token : Z) (w : Worker) (c : esimSwitchContext) : prog request bool :=
  let? latest := (if bool_decide (token = 0) then Ret true else ask (LatestToken token)) in
  if (latest : bool) then esimSwitchOwnerCurrent w c else Ret false.

(** [if_current]: the rest runs while the switch is the current one; [false] is
    the result of a finish that did not come to its end. *)
Definition if_current (token : Z) (w : Worker) (c : esimSwitchContext) (rest : prog request bool) : prog request bool :=
  let? current := still_current token w c in
  if (current : bool) then rest else Ret false.

Definition finish_degraded (token : Z) (w : Worker) (c : esimSwitchContext) : prog request bool :=
  let? _ := mark token SwitchPhaseDegraded in
  let? _ := ask ScheduleRefreshes in
  let? _ := restorePostSwitchConnectivity w c true false in
  Ret false.

(** After the runtime was refreshed. *)
Definition finish_restore (token : Z) (w : Worker) (c : esimSwitchContext) : prog request bool :=
  let? _ := ask (ResolvePolicy "esim_switched") in
  let? _ := ask ScheduleRefreshes in
  let? blocked := (if VoWiFiEnabled w then ask RecoverBlocksVoWiFi else Ret true) in
  let restore gateErr :=
    let? _ := mark token SwitchPhaseVoWiFiRestore in
    if_current token w c (
      let? _ := restorePostSwitchConnectivity w c gateErr true in
      let? _ := ask_if (EsimMgr w) (WarmOverview "post_switch_finalize") in
      Ret true) in
  if (blocked : bool) then restore false
  else
    let? gate := waitPostSwitchSIMAuthReady w in
    if_current token w c (restore (bool_decide (gate ≠ None))).

Definition finish_identity (token : Z) (w : Worker) (c : esimSwitchContext) : prog request bool :=
  let? _ := mark token SwitchPhaseIdentityRefresh in
  let? refreshed := refreshPostSwitchIdentity w c in
  if_current token w c (
    let? _ := mark token SwitchPhaseRuntimeRestore in
    let? _ := refreshPostSwitchRuntime in
    if_current token w c (
      match refreshed.2 with
      | Some _ => finish_degraded token w c
      | None => finish_restore token w c
      end)).

Definition finish_converged (token : Z) (w : Worker) (c : esimSwitchContext) : prog request bool :=
  let? result := runPostSwitchConvergence w c in
  let? current := esimSwitchOwnerCurrent w c in
  if negb current then Ret false
  else if c_Degraded result then finish_degraded token w c
  else if RadioCycle w && negb (holds_radio c) then
    let? _ := bringRadioOnlineAfterSwitch w (NASAttachTimeoutMS w) in
    if_current token w c (finish_identity token w c)
  else finish_identity token w c.

(** With the snapshot; whether it came to the end. *)
Definition finish_switch (token : Z) (c : esimSwitchContext) : prog request bool :=
  let? worker := ask GetWorker in
  let? current := match worker with Some w => esimSwitchOwnerCurrent w c | None => Ret false end in
  match worker with
  | Some w =>
      if negb current then let? _ := mark token SwitchPhaseFailed in Ret false
      else
        let? g := ask (EnsureIdentity (TargetICCID c) "post_switch_finalize") in
        let c := with_generation c g in
        let? _ := ask (UpdateGeneration (SwitchToken c) g) in
        let? _ := ask Broadcast in
        let? ready := waitPostSwitchCoreReady w c in
        if negb ready then Ret false
        else if_current token w c (finish_converged token w c)
  | None => let? _ := mark token SwitchPhaseFailed in Ret false
  end.

Definition handleESIMSwitchAfter (token : Z) : prog request unit :=
  let? found := resolvePostSwitchSnapshotIfToken token in
  match found with
  | None => Ret tt
  | Some c =>
      let? finalizeOK := finish_switch token c in
      let? _ := (if (finalizeOK : bool) then mark token SwitchPhaseDone else Ret tt) in
      if bool_decide (SwitchToken c ≠ 0) then ask (ClearIfToken (SwitchToken c)) else ask ClearSwitch
  end.
End Switching.
