(* ===== verification/DeviceSwitchProofs.v ===== *)
(** * Properties of switching the card of a device

    The first monitor follows a finish of a switch: the snapshot that it works
    on, whether it was told that the switch is not the current one, what was
    learnt of the card, and its end.  The second one counts what the convergence
    does to the card. *)

From Stdlib Require Import Ascii String.
From S2P Require Import Prelude GoText SimIdentity Interaction DeviceIdentity DeviceSwitch.
From stdpp Require Import strings.
Import Registry.

#[local] Open Scope string_scope.
#[local] Open Scope Z_scope.

(** ** The finish *)

(** [v_stale]: the switch or its worker is not the current one; [v_clean]: the
    card was found not to be one whose radio stays off; [v_gate]: the gate was
    passed, or skipped for the maintenance of the card. *)
Record view := mkView {
  v_snapshot : option esimSwitchContext; v_worker : option Worker; v_stale : bool; v_identity : bool; v_clean : bool; v_gate : bool; v_done : bool; v_cleared : bool }.
Definition unknown : view := mkView None None false false false false false false.

Definition allow (b : bool) (s : view) : option view := if b then Some s else None.

(** The target of a switch is in the card. *)
Definition target_in (c : esimSwitchContext) (iccid : string) : bool :=
  bool_decide (iccid ≠ "") &&
  (bool_decide (normalizeSIMIdentityForCompare (normalizeSIMIdentity (TargetICCID c)) = "")
   || bool_decide (normalizeSIMIdentityForCompare iccid = normalizeSIMIdentityForCompare (normalizeSIMIdentity (TargetICCID c)))).

(** The card that was classified is none whose radio stays off. *)
Definition radio_allowed (c : esimSwitchContext) (class : (bool * string * bool) + fault) : bool :=
  match class with
  | inr _ => false
  | inl (is_lebara, liveIMSI, flipped) => negb is_lebara && negb (holds_radio c && (bool_decide (TrimSpace liveIMSI = "") || flipped))
  end.

(** [token] is that of the finish.  With a stale switch the only requests are the
    phase of a failure and the end of the record, which comes last; the phase
    [SwitchPhaseDone] comes before the end, with the card in; the radio goes
    online only for a card that may; calls over WiFi are restored only through
    the gate. *)
Definition finish_step (token : Z) (s : view) (x : exchange request) : option view :=
  let '(mkView snapshot worker stale identity clean gate done cleared) := s in
  let working := negb stale && negb done && negb cleared in
  let c := default no_context snapshot in
  match x_request x as q return answer q → option view with
  | ResolveIfToken t => λ r, allow (bool_decide (t = token) && bool_decide (snapshot = None)) (mkView r worker stale identity clean gate done cleared)
  | LatestToken _ | OwnerCurrent _ _ => λ r, allow working (mkView snapshot worker (negb r) identity clean gate done cleared)
  | GetWorker => λ r, allow (negb cleared) (mkView snapshot r stale identity clean gate done cleared)
  | MarkPhase t phase => λ _,
      if bool_decide (phase = SwitchPhaseDone)
      then allow (working && identity && bool_decide (t = token)) (mkView snapshot worker stale identity clean gate true cleared)
      else allow (negb done && negb cleared && (negb stale || bool_decide (phase = SwitchPhaseFailed))) s
  | ClearIfToken t => λ _,
      allow (negb cleared && bool_decide (snapshot ≠ None) && bool_decide (t = SwitchToken c)) (mkView snapshot worker stale identity clean gate done true)
  | ClearSwitch => λ _,
      allow (negb cleared && bool_decide (snapshot ≠ None) && bool_decide (SwitchToken c = 0)) (mkView snapshot worker stale identity clean gate done true)
  | StoreIdentity iccid _ _ _ _ => λ _, allow working (mkView snapshot worker stale (target_in c iccid) clean gate done cleared)
  | IdentityDegraded _ _ => λ _, allow working (mkView snapshot worker stale false clean gate done cleared)
  | ClassifyWorker => λ r, allow working (mkView snapshot worker stale identity (radio_allowed c r) gate done cleared)
  | RecoverBlocksVoWiFi => λ r, allow working (mkView snapshot worker stale identity clean (gate || r) done cleared)
  | ProbeStale => λ r, allow working (mkView snapshot worker stale identity clean (negb r) done cleared)
  | GateClosed => λ r, allow working (mkView snapshot worker stale identity clean (bool_decide (r = None)) done cleared)
  | SetOperatingMode ModeOnline => λ _, allow (working && (negb (holds_radio c) || clean)) s
  | SwitchEnd => λ _, allow (working && gate && match worker with Some w => VoWiFiEnabled w | None => false end) s
  | _ => λ _, allow working s
  end (x_answer x).

(** Requests that change nothing of the view while the switch is current. *)
Definition calm (q : request) : Prop :=
  match q with
  | ResolveIfToken _ | LatestToken _ | OwnerCurrent _ _ | GetWorker | ClearIfToken _ | ClearSwitch => False
  | MarkPhase _ phase => phase ≠ SwitchPhaseDone
  | StoreIdentity _ _ _ _ _ | IdentityDegraded _ _ | ClassifyWorker | RecoverBlocksVoWiFi | ProbeStale | GateClosed => False
  | SetOperatingMode ModeOnline | SwitchEnd => False
  | _ => True
  end.

Ltac quiet := repeat match goal with
  | |- asks_only _ (Ret _) => exact I
  | |- asks_only _ (ask _) => split; [first [exact I|discriminate]|intros ?; exact I]
  | |- asks_only _ (ask_if ?b _) => destruct b; cbn [ask_if]
  | |- asks_only _ (Do _ _) => split; [first [exact I|discriminate]|intros ?]
  | |- asks_only _ (bind _ _) => apply asks_only_bind; [|intros ?]
  | |- asks_only _ (if ?b then _ else _) => destruct b
  | |- asks_only _ (match ?x with _ => _ end) => destruct x
  | |- asks_only _ ((match ?x with _ => _ end) _) => destruct x; cbv beta
  end.

Section Finish.
Context (unicode_lower : string → string) (UIMReadinessTransportFatal : string) (token : Z).

Section Calm.
Lemma stop_connected_calm w : asks_only calm (stop_connected w).
Proof. unfold stop_connected. quiet. Qed.

Lemma refresh_connected_calm w : asks_only calm (refresh_connected w).
Proof. unfold refresh_connected. quiet. Qed.

Lemma network_calm w c : asks_only calm (applyNetworkPreferenceForSwitchSnapshot w c).
Proof. unfold applyNetworkPreferenceForSwitchSnapshot. quiet. Qed.

Lemma set_mode_calm delays m : m ≠ ModeOnline → asks_only calm (set_mode_retry unicode_lower delays m).
Proof. intros Hm. induction delays as [|d delays IH]; cbn [set_mode_retry]; (split; [by destruct m|intros r]); cbn; [done|]. quiet. exact IH. Qed.

Lemma airplane_calm w reason : asks_only calm (enforceLebaraUKRadioOff w reason).
Proof. unfold enforceLebaraUKRadioOff, enterAirplaneModeFromPolicy. quiet. apply stop_connected_calm. Qed.

Lemma power_cycle_calm slot : asks_only calm (triggerPowerCycleFallback slot).
Proof. unfold triggerPowerCycleFallback. quiet. Qed.

Lemma recover_calm w : asks_only calm (recover_core w).
Proof. unfold recover_core. quiet. Qed.

Lemma converge_loop_calm w target threshold windowMS attempts untilReload stalls last lastSlot :
  asks_only calm (converge_loop unicode_lower UIMReadinessTransportFatal w target threshold windowMS attempts untilReload stalls last lastSlot).
Proof.
  revert untilReload stalls last lastSlot. induction attempts as [|attempts IH]; intros; cbn [converge_loop]; [done|].
  cbn [bind ask]. split; [exact I|]. intros probe. cbv zeta.
  generalize (with_error probe.1 probe.2), (classifyPostSwitchReadiness (with_error probe.1 probe.2) target). intros r d.
  case_bool_decide; [exact I|]. apply asks_only_bind; [unfold probePostSwitchQMIServiceStall; quiet|intros stall].
  apply asks_only_bind; [unfold reinit_window; quiet|intros inWindow].
  generalize (stall && negb inWindow). intros counted. set (n := if counted then _ else _). clearbody n.
  destruct (_ && _ && _); [apply asks_only_bind; [apply recover_calm|intros _; apply IH]|].
  destruct (bool_decide _ && _ && _); [|apply IH]. destruct (postSwitchSIMReloader w).
  - cbn [bind ask]. split; [exact I|]. intros reloaded. destruct reloaded.2; [exact I|apply IH].
  - destruct (postSwitchSIMPowerController w); [|apply IH]. apply asks_only_bind; [apply power_cycle_calm|]. intros [e|]; [exact I|apply IH].
Qed.

Lemma await_calm target l : asks_only calm (await_events target l).
Proof. induction l as [|e l IH]; cbn [await_events]; quiet; apply IH. Qed.

Lemma convergence_calm w c : asks_only calm (runPostSwitchConvergence unicode_lower UIMReadinessTransportFatal w c).
Proof.
  unfold runPostSwitchConvergence, converge_and_apply, convergePostSwitch, restart_card, awaitReinitConverged.
  quiet; first [apply converge_loop_calm|apply await_calm|apply power_cycle_calm].
Qed.

Lemma poll_calm targetKey oldKey turns interval : asks_only calm (poll_identity targetKey oldKey turns interval).
Proof. induction turns as [|turns IH]; cbn [poll_identity]; quiet; apply IH. Qed.

Lemma runtime_calm : asks_only calm refreshPostSwitchRuntime.
Proof. unfold refreshPostSwitchRuntime. quiet. Qed.

Lemma prewarm_calm w : asks_only calm (prewarmPostSwitchSIMAuth w).
Proof.
  assert (Hp : asks_only calm (probePostSwitchSIMAuthReady w)).
  { unfold probePostSwitchSIMAuthReady, resolvePostSwitchSIMAuthAID. quiet. }
  assert (Ha : ∀ delays r, asks_only calm (prewarm_again w delays r)).
  { intros delays. induction delays as [|d delays IH]; intros r; cbn [prewarm_again]; quiet; [exact Hp|apply IH]. }
  unfold prewarmPostSwitchSIMAuth. quiet; [exact Hp|apply Ha].
Qed.
End Calm.

(** The view while the finish works on snapshot [c] and worker [w]. *)
Definition at_work (c : esimSwitchContext) (w : Worker) (identity clean gate : bool) : view :=
  mkView (Some c) (Some w) false identity clean gate false false.

(** After a check said that the switch is not current. *)
Definition stopped (c : esimSwitchContext) (s : view) : Prop :=
  ∃ w stale identity clean gate, s = mkView (Some c) w stale identity clean gate false false.

Notation T s p Q := (triple (finish_step token) (eq s) p Q).

Lemma calm_ok {A} (p : prog request A) c w identity clean gate :
  asks_only calm p → T (at_work c w identity clean gate) p (λ _ s, s = at_work c w identity clean gate).
Proof.
  intros Hp. apply (triple_at (finish_step token) (λ s, s = at_work c w identity clean gate)); [|done].
  eapply asks_only_triple; [|exact Hp]. intros s q r -> Hq. exists (at_work c w identity clean gate). split; [|done].
  destruct q; cbn in Hq |- *; try done; [by rewrite bool_decide_eq_false_2|by destruct m].
Qed.

Ltac next := cbn [bind ask]; lazymatch goal with |- triple _ _ (Do _ _) _ => idtac end;
  apply triple_next; intros ?; eexists;
  split; [unfold finish_step, at_work; cbn beta iota delta [x_request x_answer]; cbn [default id];
          repeat match goal with H : _ = true |- _ => progress rewrite H | H : _ = false |- _ => progress rewrite H end;
          cbn [allow negb andb orb default id]; reflexivity|].
Ltac calmly l := eapply triple_call; [apply calm_ok; l|intros ? ? ->].

(** The finish comes to its end, with the card in, or stops. *)
Definition finished (c : esimSwitchContext) (b : bool) (s : view) : Prop :=
  if b then ∃ w clean gate, s = at_work c w true clean gate else stopped c s.

Lemma stopped_at c w identity clean gate : stopped c (at_work c w identity clean gate).
Proof. by exists (Some w), false, identity, clean, gate. Qed.

Lemma current_ok w c c' identity clean gate A (f : bool → prog request A) Q :
  T (at_work c w identity clean gate) (f true) Q → (∀ s, stopped c s → v_stale s = true → T s (f false) Q) →
  T (at_work c w identity clean gate) (let? current := esimSwitchOwnerCurrent w c' in f current) Q.
Proof.
  intros Ht Hf. unfold esimSwitchOwnerCurrent. next. match goal with r : answer (OwnerCurrent _ _) |- _ => destruct r end; cbn [negb].
  - apply Ht.
  - apply Hf; [by do 5 eexists|done].
Qed.

Lemma if_current_ok w c c' identity clean gate rest :
  T (at_work c w identity clean gate) rest (finished c) →
  T (at_work c w identity clean gate) (if_current token w c' rest) (finished c).
Proof.
  intros Hr. unfold if_current, still_current.
  assert (Hgo : T (at_work c w identity clean gate) (let? current := esimSwitchOwnerCurrent w c' in if (current : bool) then rest else Ret false) (finished c)).
  { apply (current_ok w c c' _ _ _ _ (λ current : bool, if current then rest else Ret false)); [exact Hr|]. intros s Hs _. by apply triple_done. }
  case_bool_decide.
  - cbn [bind]. exact Hgo.
  - next. match goal with r : answer (LatestToken _) |- _ => destruct r end; cbn [negb bind]; [exact Hgo|].
    apply triple_done. by do 5 eexists.
Qed.

Lemma keep_radio_off_ok w c c' reason identity clean gate :
  holds_radio c' = holds_radio c →
  T (at_work c w identity clean gate) (keepLebaraUKRadioOffAfterSwitch w c' reason)
    (λ b s, ∃ clean', s = at_work c w identity clean' gate ∧ (b = false → clean' = true)).
Proof.
  intros Hh. unfold keepLebaraUKRadioOffAfterSwitch. next. match goal with r : answer ClassifyWorker |- _ => destruct r as [[[lebara imsi] flipped]|e] end.
  2:{ calmly ltac:(apply airplane_calm). apply triple_done. eexists. split; [reflexivity|done]. }
  unfold radio_allowed. rewrite Hh. cbn [bind default id]. destruct lebara; cbn [negb andb].
  { calmly ltac:(apply airplane_calm). apply triple_done. eexists. split; [reflexivity|done]. }
  destruct (holds_radio c && _); cbn [negb andb].
  - calmly ltac:(apply airplane_calm). apply triple_done. eexists. split; [reflexivity|done].
  - apply triple_done. eexists. split; [reflexivity|done].
Qed.

(** The radio goes online where it may. *)
Lemma set_online_ok delays c w identity clean gate :
  negb (holds_radio c) || clean = true →
  T (at_work c w identity clean gate) (set_mode_retry unicode_lower delays ModeOnline) (λ _ s, s = at_work c w identity clean gate).
Proof.
  intros Hc. induction delays as [|d delays IH]; cbn [set_mode_retry]; next; [by apply triple_done|].
  match goal with r : answer (SetOperatingMode _) |- _ => destruct r as [e|] end; [|by apply triple_done].
  destruct (isPostSwitchQMIStallError _ _); [|by apply triple_done]. next.
  match goal with r : answer (WaitOrStop _) |- _ => destruct r end; [exact IH|by apply triple_done].
Qed.

Lemma restore_radio_ok w c c' identity clean gate :
  holds_radio c' = holds_radio c →
  T (at_work c w identity clean gate) (restore_radio_after unicode_lower w c')
    (λ _ s, ∃ clean', s = at_work c w identity clean' gate).
Proof.
  intros Hh. unfold restore_radio_after, restoreRadioDataForSwitchSnapshot. destruct (Backend w && pcsc w); [apply triple_done; eauto|].
  eapply triple_call; [by apply keep_radio_off_ok|]. intros [] s (clean' & -> & Hc); [apply triple_done; eauto|]. specialize (Hc eq_refl). subst.
  destruct (FlightModeBefore c').
  - calmly ltac:(destruct (Backend w); quiet; by apply set_mode_calm).
    eapply triple_conseq; [apply calm_ok, stop_connected_calm|intros ? <-; done|intros ? ? ->; eauto].
  - eapply triple_call with (R := λ _ s, s = at_work c w identity true gate).
    { destruct (_ && _); [|by apply triple_done]. eapply triple_call; [apply set_online_ok; by rewrite orb_true_r|]. intros ? ? ->. by apply triple_done. }
    intros _ ? ->. calmly ltac:(apply network_calm).
    eapply triple_conseq; [apply calm_ok, refresh_connected_calm|intros ? <-; done|intros ? ? ->; eauto].
Qed.

(** Calls over WiFi come back only through the gate. *)
Lemma connectivity_ok w c c' gateErr markDegraded identity clean gate :
  holds_radio c' = holds_radio c → (gateErr = false → VoWiFiEnabled w = true → gate = true) →
  T (at_work c w identity clean gate) (restorePostSwitchConnectivity unicode_lower w c' gateErr markDegraded)
    (λ _ s, ∃ clean' gate', s = at_work c w identity clean' gate').
Proof.
  intros Hh Hg.
  assert (Hradio : ∀ clean gate, T (at_work c w identity clean gate) (restore_radio_after unicode_lower w c')
    (λ _ s, ∃ clean' gate', s = at_work c w identity clean' gate')).
  { intros. eapply triple_conseq; [by apply restore_radio_ok|intros ? <-; done|]. intros _ s (clean' & ->). eauto. }
  unfold restorePostSwitchConnectivity. next. match goal with r : answer RecoverBlocksVoWiFi |- _ => rename r into blocked; destruct blocked end; cbn [orb]; [apply Hradio|].
  destruct (VoWiFiEnabled w) eqn:Hv; [|apply Hradio].
  eapply triple_call with (R := λ e s, ∃ clean', s = at_work c w identity clean' (gate || false) ∧ (e = false → gate = true)).
  { destruct gateErr; cbn [negb]; [apply triple_done; eexists; split; [done|discriminate]|]. specialize (Hg eq_refl eq_refl). subst gate.
    eapply triple_call with (R := λ _ s, ∃ clean', s = at_work c w identity clean' true).
    - unfold shouldWaitLebaraUKHomeIdentity. destruct (TargetLebaraCandidate c'); [apply triple_done; eauto|]. next. apply triple_done. eauto.
    - intros [] s (clean' & ->); [|apply triple_done; eauto]. next. match goal with r : answer WaitHomeIdentity |- _ => destruct r as [[e []]|] end.
      + cbn [ask_if]. next. apply triple_done. eauto.
      + cbn [ask_if bind]. apply triple_done. eauto.
      + apply triple_done. eauto. }
  intros e s (clean' & -> & He). next. match goal with r : answer RecoverBlocksVoWiFi |- _ => rename r into blocked; destruct blocked end; [apply Hradio|].
  rewrite !orb_false_r. unfold restore_vowifi. destruct e.
  - eapply triple_call with (R := λ b s, b = false ∧ s = at_work c w identity clean' gate).
    + destruct markDegraded; [next|cbn [bind]]; by apply triple_done.
    + intros ? ? [-> ->]. apply Hradio.
  - rewrite (He eq_refl). cbn [bind ask]. next. next. match goal with r : answer SwitchEnd |- _ => destruct r end; cbn [bind ask].
    + next. apply Hradio.
    + apply triple_done. eauto.
Qed.

Lemma gate_ok w turns c identity clean gate :
  T (at_work c w identity clean gate) (wait_gate w turns)
    (λ r s, ∃ gate', s = at_work c w identity clean gate' ∧ (r = None → gate' = true)).
Proof.
  revert gate. induction turns as [|turns IH]; intros gate; cbn [wait_gate].
  - unfold ask. next. apply triple_done. eexists. split; [reflexivity|]. intros ->. done.
  - calmly ltac:(apply prewarm_calm). destruct (p_Ready _).
    + next. match goal with r : answer ProbeStale |- _ => destruct r end; [apply IH|]. apply triple_done. eexists. by split.
    + apply triple_done. eexists. by split.
Qed.

Lemma refresh_identity_ok w c c' timeout interval identity clean gate :
  TargetICCID c' = TargetICCID c →
  T (at_work c w identity clean gate) (refreshPostSwitchIdentityWithPolling w c' timeout interval)
    (λ r s, ∃ identity', s = at_work c w identity' clean gate ∧ (r.2 = None → identity' = true)).
Proof.
  intros Ht. unfold refreshPostSwitchIdentityWithPolling. rewrite Ht. next. destruct (negb _).
  { next. apply triple_done. eexists. by split. }
  next. calmly ltac:(apply poll_calm).
  match goal with r : reading |- _ => rename r into rd end.
  destruct (bool_decide _ && negb _) eqn:Hkey; [next; apply triple_done; eexists; by split|].
  next. next. destruct (bool_decide (newICCID rd = "")) eqn:He.
  { next. apply triple_done. eexists. by split. }
  apply triple_done. eexists. split; [reflexivity|]. intros _. unfold target_in.
  apply bool_decide_eq_false in He. rewrite bool_decide_eq_true_2 by done. cbn [andb].
  apply andb_false_iff in Hkey as [Hk%bool_decide_eq_false%dec_stable|Hk%negb_false_iff].
  - by rewrite bool_decide_eq_true_2.
  - rewrite Hk. apply orb_true_r.
Qed.

Lemma degraded_ok w c c' identity clean gate :
  holds_radio c' = holds_radio c → T (at_work c w identity clean gate) (finish_degraded unicode_lower token w c') (finished c).
Proof.
  intros Hh. unfold finish_degraded, mark. next. next.
  eapply triple_call; [by apply connectivity_ok|]. intros _ s (clean' & gate' & ->). apply triple_done, stopped_at.
Qed.

Lemma finish_restore_ok w c c' clean gate :
  holds_radio c' = holds_radio c → Backend w = true →
  T (at_work c w true clean gate) (finish_restore unicode_lower token w c') (finished c).
Proof.
  intros Hh Hb. unfold finish_restore.
  assert (Hrest : ∀ clean gate gateErr, (gateErr = false → VoWiFiEnabled w = true → gate = true) →
    T (at_work c w true clean gate)
      (let? _ := mark token SwitchPhaseVoWiFiRestore in
       if_current token w c' (
         let? _ := restorePostSwitchConnectivity unicode_lower w c' gateErr true in
         let? _ := ask_if (EsimMgr w) (WarmOverview "post_switch_finalize") in Ret true)) (finished c)).
  { intros cl g gateErr Hg. unfold mark. next. apply if_current_ok.
    eapply triple_call; [by apply connectivity_ok|]. intros _ s (clean' & gate' & ->).
    calmly ltac:(quiet). apply triple_done. by exists w, clean', gate'. }
  next. next. destruct (VoWiFiEnabled w) eqn:Hv.
  - next. match goal with r : answer RecoverBlocksVoWiFi |- _ => destruct r end.
    + apply Hrest. rewrite orb_true_r. done.
    + unfold waitPostSwitchSIMAuthReady. rewrite Hb, Hv. cbn [negb orb]. next. next.
      eapply triple_call; [apply gate_ok|]. intros res s (gate' & -> & Hres). apply if_current_ok. apply Hrest.
      intros E _. apply Hres. by apply bool_decide_eq_false, dec_stable in E.
  - cbn [bind]. apply Hrest. done.
Qed.

Lemma finish_identity_ok w c c' identity clean gate :
  holds_radio c' = holds_radio c → TargetICCID c' = TargetICCID c → Backend w = true →
  T (at_work c w identity clean gate) (finish_identity unicode_lower token w c') (finished c).
Proof.
  intros Hh Ht Hb. unfold finish_identity, mark, refreshPostSwitchIdentity. next.
  eapply triple_call; [by apply refresh_identity_ok|]. intros res s (identity' & -> & Hres). apply if_current_ok.
  next. calmly ltac:(apply runtime_calm). apply if_current_ok. destruct res.2; [by apply degraded_ok|].
  rewrite (Hres eq_refl). by apply finish_restore_ok.
Qed.

Lemma finish_converged_ok w c c' identity clean gate :
  holds_radio c' = holds_radio c → TargetICCID c' = TargetICCID c →
  T (at_work c w identity clean gate) (finish_converged unicode_lower UIMReadinessTransportFatal token w c') (finished c).
Proof.
  intros Hh Ht. unfold finish_converged.
  assert (Hend : ∀ result : convergence, (Backend w = false → c_Degraded result = true) →
    T (at_work c w identity clean gate)
      (let? current := esimSwitchOwnerCurrent w c' in
       if negb current then Ret false
       else if c_Degraded result then finish_degraded unicode_lower token w c'
       else if RadioCycle w && negb (holds_radio c') then
         let? _ := bringRadioOnlineAfterSwitch w (NASAttachTimeoutMS w) in
         if_current token w c' (finish_identity unicode_lower token w c')
       else finish_identity unicode_lower token w c') (finished c)).
  { intros result Hres. apply (current_ok w c c' _ _ _ bool (λ current : bool, if negb current then Ret false else _)); cbn [negb].
    2:{ intros s Hs _. by apply triple_done. }
    destruct (c_Degraded result); [by apply degraded_ok|].
    assert (Hb : Backend w = true) by (destruct (Backend w); [done|by discriminate Hres]).
    destruct (RadioCycle w && negb (holds_radio c')) eqn:Hcycle; [|by apply finish_identity_ok].
    apply andb_prop in Hcycle as [_ Hcycle]. rewrite Hh in Hcycle.
    eapply triple_call with (R := λ _ s, s = at_work c w identity clean gate).
    - unfold bringRadioOnlineAfterSwitch. destruct (negb (controls_radio w)); [by apply triple_done|]. next.
      match goal with r : answer (SetOperatingMode _) |- _ => destruct r end; [by apply triple_done|]. destruct (bool_decide _); [by apply triple_done|].
      next. by apply triple_done.
    - intros _ ? ->. apply if_current_ok. by apply finish_identity_ok. }
  destruct (Backend w) eqn:Hb.
  - calmly ltac:(apply convergence_calm). by apply Hend.
  - unfold runPostSwitchConvergence. rewrite Hb. cbn [negb bind]. by apply Hend.
Qed.

(** The view when the snapshot was just found. *)
Definition at_start (c : esimSwitchContext) : view := mkView (Some c) None false false false false false false.

Lemma wait_core_ok w c c' identity clean gate :
  T (at_work c w identity clean gate) (waitPostSwitchCoreReady w c')
    (λ b s, if (b : bool) then s = at_work c w identity clean gate else stopped c s).
Proof.
  assert (Hcur : T (at_work c w identity clean gate) (esimSwitchOwnerCurrent w c')
    (λ b s, if (b : bool) then s = at_work c w identity clean gate else stopped c s)).
  { unfold esimSwitchOwnerCurrent, ask. next. apply triple_done. match goal with r : answer (OwnerCurrent _ _) |- _ => destruct r end; [done|by do 5 eexists]. }
  unfold waitPostSwitchCoreReady. eapply triple_call; [exact Hcur|]. intros [] s Hs; cbn [negb]; [subst s|by apply triple_done].
  next. match goal with r : answer (WaitControlReady _) |- _ => destruct r end; [exact Hcur|].
  eapply triple_call; [exact Hcur|]. intros [] s Hs; cbn [negb]; [subst s|by apply triple_done].
  calmly ltac:(quiet). by apply triple_done.
Qed.

Lemma finish_switch_ok c :
  T (at_start c) (finish_switch unicode_lower UIMReadinessTransportFatal token c) (finished c).
Proof.
  unfold finish_switch, at_start. next. match goal with r : answer GetWorker |- _ => destruct r as [w|] end.
  2:{ cbn [bind]. unfold mark. next. apply triple_done. by do 5 eexists. }
  change (mkView (Some c) (Some w) false false false false false false) with (at_work c w false false false).
  unfold esimSwitchOwnerCurrent. next. match goal with r : answer (OwnerCurrent _ _) |- _ => destruct r end; cbn [negb].
  2:{ unfold mark. next. apply triple_done. by do 5 eexists. }
  change (mkView (Some c) (Some w) false false false false false false) with (at_work c w false false false).
  next. next. next. eapply triple_call; [apply wait_core_ok|]. intros [] s Hs; cbn [negb]; [subst s|by apply triple_done].
  apply if_current_ok. by apply finish_converged_ok.
Qed.

(** C13: whatever the device answers, the finish of a switch that is no longer
    known does nothing, and any other one ends the record of its own token
    exactly once, as its last request.  As soon as it is told that the switch or
    its worker is not the current one, it commands nothing more and does not
    report success; success is reported only with the target in the card; the
    radio goes online only for a card that may; and calls over WiFi are restored
    only through the gate of the authentication or after a maintenance lock was
    seen. *)
Theorem switch_finish trace :
  token ≠ 0 → exec (handleESIMSwitchAfter unicode_lower UIMReadinessTransportFatal token) trace tt →
  ∃ s, watch (finish_step token) unknown trace = Some s ∧
    match v_snapshot s with
    | None => trace = [mkExchange (ResolveIfToken token) None]
    | Some c => v_cleared s = true ∧ (v_done s = true → v_identity s = true ∧ v_stale s = false)
    end.
Proof.
  intros Ht Hx. unfold handleESIMSwitchAfter, resolvePostSwitchSnapshotIfToken in Hx. rewrite bool_decide_eq_false_2 in Hx by done.
  destruct Hx as (found & t & -> & Hx). destruct found as [c|].
  2:{ destruct Hx as [-> _]. exists unknown. split; [|done]. cbn. by rewrite bool_decide_eq_true_2. }
  assert (Hend : triple (finish_step token) (eq (at_start c))
    (let? finalizeOK := finish_switch unicode_lower UIMReadinessTransportFatal token c in
     let? _ := (if (finalizeOK : bool) then mark token SwitchPhaseDone else Ret tt) in
     if bool_decide (SwitchToken c ≠ 0) then ask (ClearIfToken (SwitchToken c)) else ask ClearSwitch)
    (λ _ s, v_snapshot s = Some c ∧ v_cleared s = true ∧ (v_done s = true → v_identity s = true ∧ v_stale s = false))).
  { eapply triple_call; [apply finish_switch_ok|].
    assert (Hclear : ∀ w stale identity clean gate done, (done = true → identity = true ∧ stale = false) →
      T (mkView (Some c) w stale identity clean gate done false)
        (if bool_decide (SwitchToken c ≠ 0) then ask (ClearIfToken (SwitchToken c)) else ask ClearSwitch)
        (λ _ s, v_snapshot s = Some c ∧ v_cleared s = true ∧ (v_done s = true → v_identity s = true ∧ v_stale s = false))).
    { intros w stale identity clean gate done Hdone. case_bool_decide as Hz; unfold ask; apply triple_next; intros r; eexists;
        (split; [cbn; rewrite ?bool_decide_eq_true_2 by (done || by apply dec_stable); reflexivity|by apply triple_done]). }
    intros [] s Hs; cbn [finished] in Hs.
    - destruct Hs as (w & clean & gate & ->). unfold mark. apply triple_next. intros r. eexists. split.
      { unfold at_work, finish_step. cbn beta iota delta [x_request x_answer]. rewrite !bool_decide_eq_true_2 by done. reflexivity. }
      cbn [bind]. by apply Hclear.
    - destruct Hs as (w & stale & identity & clean & gate & ->). cbn [bind]. by apply Hclear. }
  destruct (Hend (at_start c) t tt eq_refl Hx) as (s & Hw & Hc & Hcl & Hd). exists s. split; [|by rewrite Hc].
  cbn [watch]. cbn. by rewrite bool_decide_eq_true_2.
Qed.

(** ** The convergence *)

(** [v_events]: how many events came in the window; [v_probes]: the readings of
    the card; [v_good]: the last one was of the card that is waited for;
    [v_off]: the slot that was powered off and not told to power on since;
    [v_dark]: the slots whose last power-on the modem refused; [v_policy]: the
    policy of the card was applied. *)
Record counts := mkCounts {
  v_events : Z; v_probes : Z; v_good : bool; v_resets : Z; v_recoveries : Z; v_off : option Z; v_dark : list Z; v_policy : bool }.
Definition none_yet : counts := mkCounts 0 0 false 0 0 None [] false.

(** With a window for events, one reading for each event and one for the slot of
    the restart may come before the twenty of the loop, and the restart may come
    before the reset of the loop. *)
Definition readings (gated : bool) (events : Z) : Z := if gated then events + 21 else 20.
Definition resets (gated : bool) : Z := if gated then 2 else 1.

(** The card is not read again after a good reading, except that the restart that
    follows the window does not look at its own reading; what is powered off is
    told to power on before anything else; a recovery of the core follows two
    readings of its own; and the policy is applied once, after a good reading. *)
Definition converge_step (gated : bool) (target : string) (s : counts) (x : exchange request) : option counts :=
  let '(mkCounts events probes good rs recoveries off dark policy) := s in
  let free := bool_decide (off = None) && negb good && negb policy in
  let ok b s := if (b : bool) then Some s else None in
  match x_request x as q return answer q → option counts with
  | CurrentEventSource | NewEventSource => λ _, ok (gated && bool_decide (probes = 0)) s
  | EventsInWindow _ => λ r, ok (gated && bool_decide (probes = 0)) (mkCounts (Z.of_nat (length r)) probes good rs recoveries off dark policy)
  | DropEventSource => λ _, ok (gated && bool_decide (off = None)) s
  | GetUIMReadiness => λ r,
      ok (free && bool_decide (probes < readings gated events))
        (mkCounts events (probes + 1) (bool_decide (Action (classifyPostSwitchReadiness r.1 target) = RestoreRuntime)) rs recoveries off dark policy)
  | PostSwitchReload => λ _, ok (free && bool_decide (rs < resets gated)) (mkCounts events probes good (rs + 1) recoveries off dark policy)
  | PowerOffSIM slot => λ _,
      ok (bool_decide (off = None) && negb policy && (negb good || (gated && bool_decide (rs = 0))) && bool_decide (rs < resets gated))
        (mkCounts events probes false (rs + 1) recoveries (Some slot) dark policy)
  | PowerOnSIM slot => λ r,
      ok (bool_decide (off = Some slot))
        (mkCounts events probes good rs recoveries None (match r with None => filter (.≠ slot) dark | Some _ => slot :: dark end) policy)
  | RequestCoreRecovery _ => λ _, ok (free && bool_decide (2 * (recoveries + 1) <= probes)) (mkCounts events probes good rs (recoveries + 1) off dark policy)
  | ResolvePolicy _ => λ _, ok (good && negb policy && bool_decide (off = None)) (mkCounts events probes good rs recoveries off dark true)
  | Sleep _ => λ _, Some s
  | GetOperatingMode | GetSignalInfo | InReinitWindow | WaitCoreReady => λ _, ok free s
  | _ => λ _, None
  end (x_answer x).

Notation C gated target s p Q := (triple (converge_step gated target) (eq s) p Q).
Ltac probe_step := cbn [bind ask]; apply triple_next; intros ?; eexists;
  split; [unfold converge_step; cbn beta iota delta [x_request x_answer]; repeat match goal with |- context [bool_decide ?P] => rewrite (bool_decide_eq_true_2 P) by first [reflexivity|lia] end; cbn [andb negb orb]; rewrite ?orb_true_r; cbn [andb]; reflexivity|].

Lemma classify_with_error r e target : classifyPostSwitchReadiness (with_error r e) target = classifyPostSwitchReadiness r target.
Proof. by destruct e. Qed.

(** A slot that is powered off is told to power on. *)
Lemma power_cycle_ok gated target slot events probes good rs recoveries dark :
  rs < resets gated → good = false ∨ gated = true ∧ rs = 0 →
  C gated target (mkCounts events probes good rs recoveries None dark false) (triggerPowerCycleFallback slot)
    (λ _ s, ∃ dark, s = mkCounts events probes false (rs + 1) recoveries None dark false).
Proof.
  intros Hr Hg. unfold triggerPowerCycleFallback. cbn [bind ask]. apply triple_next. intros off. eexists. split.
  { unfold converge_step. cbn beta iota delta [x_request x_answer]. rewrite (bool_decide_eq_true_2 (rs < resets gated)) by done.
    replace (negb good || gated && bool_decide (rs = 0)) with true by (destruct Hg as [->|[-> ->]]; by destruct good || done). cbn [andb negb]. reflexivity. }
  probe_step. probe_step.
  match goal with on : answer (PowerOnSIM _) |- _ => destruct off, on end; apply triple_done; by eexists.
Qed.

(** What the loop leaves. *)
Definition converged (events : Z) (r : convergence) (s : counts) : Prop :=
  v_events s = events ∧ v_off s = None ∧ v_policy s = false ∧ v_good s = c_Ready r ∧ c_Degraded r = negb (c_Ready r).

Lemma converge_loop_ok gated events w target windowMS attempts untilReload stalls last lastSlot probes rs recoveries dark :
  0 <= stalls → 0 <= recoveries → 2 * recoveries + stalls <= probes → probes + Z.of_nat attempts <= readings gated events →
  (untilReload ≠ O → rs < resets gated) →
  C gated target (mkCounts events probes false rs recoveries None dark false)
    (converge_loop unicode_lower UIMReadinessTransportFatal w target defaultPostSwitchCoreStallThreshold windowMS attempts untilReload stalls last lastSlot)
    (converged events).
Proof.
  revert untilReload stalls last lastSlot probes rs recoveries dark.
  induction attempts as [|attempts IH]; intros untilReload stalls lst lastSlot probes rs recoveries dark Hs Hr Hle Hpr Hre; cbn [converge_loop].
  { apply triple_done. unfold converge_timeout. by destruct (negb _). }
  probe_step. match goal with r : answer GetUIMReadiness |- _ => rename r into probe end. cbv zeta. rewrite classify_with_error.
  assert (Hle' : 2 * recoveries + stalls + 1 <= probes + 1) by lia. assert (Hpr' : probes + 1 + Z.of_nat attempts <= readings gated events) by lia. clear Hle Hpr.
  revert Hle' Hpr'. generalize (probes + 1). clear probes. intros probes Hle' Hpr'.
  generalize (with_error probe.1 probe.2), (classifyPostSwitchReadiness probe.1 target). intros r d.
  case_bool_decide as Hd; [by apply triple_done|].
  eapply triple_call with (R := λ _ s, s = mkCounts events probes false rs recoveries None dark false).
  { destruct (isPostSwitchQMIServiceStall _ _ _ _); [by apply triple_done|]. unfold probePostSwitchQMIServiceStall.
    eapply triple_call with (R := λ _ s, s = mkCounts events probes false rs recoveries None dark false).
    - destruct (postSwitchOperatingModeProbe w); [probe_step|]; by apply triple_done.
    - intros [] ? ->; [by apply triple_done|]. destruct (postSwitchSignalProbe w); [probe_step|]; by apply triple_done. }
  intros stall ? ->. eapply triple_call with (R := λ _ s, s = mkCounts events probes false rs recoveries None dark false).
  { unfold reinit_window. case_bool_decide; [unfold ask; probe_step|]; by apply triple_done. }
  intros inWindow ? ->. cbn beta. generalize (stall && negb inWindow). intros counted.
  assert (Hn : 0 <= (if counted then stalls + 1 else 0) <= stalls + 1) by (destruct counted; lia).
  revert Hn. generalize (if counted then stalls + 1 else 0). intros n Hn.
  assert (Hnext : ∀ (rs : Z) dark, ((untilReload - 1)%nat ≠ O → rs < resets gated) →
    C gated target (mkCounts events probes false rs recoveries None dark false)
      (converge_loop unicode_lower UIMReadinessTransportFatal w target defaultPostSwitchCoreStallThreshold windowMS attempts (untilReload - 1) n d (ActiveSlot r))
      (converged events)).
  { intros. apply IH; [lia..|done]. }
  destruct (_ && _ && _) eqn:Hrec.
  - apply andb_prop in Hrec as [[_ H2%bool_decide_eq_true]%andb_prop _]. unfold defaultPostSwitchCoreStallThreshold in H2.
    eapply triple_call with (R := λ _ s, s = mkCounts events probes false rs (recoveries + 1) None dark false).
    + unfold recover_core. probe_step. destruct (postSwitchCoreReadyWaiter w).
      * match goal with r : answer (RequestCoreRecovery _) |- _ => destruct r end; cbn [ask_if]; [probe_step|cbn [bind ask]]; probe_step; by apply triple_done.
      * match goal with r : answer (RequestCoreRecovery _) |- _ => destruct r end; cbn [ask_if]; [probe_step|]; by apply triple_done.
    + intros _ ? ->. apply IH; [lia..|]. intros. apply Hre. lia.
  - destruct (bool_decide (untilReload = 1%nat) && _ && _) eqn:Hu; [|apply Hnext; intros; apply Hre; lia].
    apply andb_prop in Hu as [[Hu%bool_decide_eq_true _]%andb_prop _]. specialize (Hre ltac:(lia)). subst untilReload.
    destruct (postSwitchSIMReloader w).
    + probe_step. match goal with r : answer PostSwitchReload |- _ => destruct r as [slot [e|]] end; cbn [snd]; [by apply triple_done|]. by apply Hnext.
    + destruct (postSwitchSIMPowerController w); [|by apply Hnext]. eapply triple_call; [by apply power_cycle_ok; [|left]|].
      intros [e|] ? (dark' & ->); [by apply triple_done|by apply Hnext].
Qed.

Lemma convergePostSwitch_ok gated events w target windowMS probes rs dark :
  0 <= probes → probes + 20 <= readings gated events → rs < resets gated →
  C gated target (mkCounts events probes false rs 0 None dark false) (convergePostSwitch unicode_lower UIMReadinessTransportFatal w target windowMS) (converged events).
Proof. intros. unfold convergePostSwitch. apply converge_loop_ok; unfold IdentityAttempts; lia. Qed.

(** What the whole convergence leaves; [pcsc] has nothing to read. *)
Definition settled (pcsc : bool) (r : convergence) (s : counts) : Prop :=
  v_off s = None ∧ v_policy s = v_good s ∧ (v_good s = c_Ready r ∨ pcsc = true ∧ c_Ready r = true ∧ v_probes s = 0) ∧ c_Degraded r = negb (c_Ready r).

Lemma converge_and_apply_ok gated events w target windowMS probes rs dark :
  0 <= probes → probes + 20 <= readings gated events → rs < resets gated →
  C gated target (mkCounts events probes false rs 0 None dark false) (converge_and_apply unicode_lower UIMReadinessTransportFatal w target windowMS) (settled (pcsc w)).
Proof.
  intros. unfold converge_and_apply. eapply triple_call; [by apply convergePostSwitch_ok|]. intros r [ev pr good rs' rec off dark' pol] (E1 & E2 & E3 & E4 & E5).
  cbn in E1, E2, E3, E4. subst. unfold ask_if. destruct (c_Ready r) eqn:Er; cbn [bind]; [probe_step|]; apply triple_done; unfold settled; cbn; rewrite Er; split_and!; auto.
Qed.

Lemma await_ok target l events probes :
  0 <= probes → probes + Z.of_nat (length l) <= events →
  C true target (mkCounts events probes false 0 0 None [] false) (await_events target l)
    (λ ok s, ∃ probes, 0 <= probes <= events ∧ s = mkCounts events probes ok 0 0 None [] false).
Proof.
  revert probes. induction l as [|e l IH]; intros probes Hp Hl; cbn [await_events length] in *; [apply triple_done; exists probes; split; [lia|done]|].
  destruct (negb _); [apply IH; lia|]. unfold readings. cbn [bind ask]. apply triple_next. intros r. eexists. split.
  { unfold converge_step, readings. cbn beta iota delta [x_request x_answer]. rewrite (bool_decide_eq_true_2 (probes < _)) by lia. reflexivity. }
  case_bool_decide as Hd; [apply triple_done; eexists; split; [|reflexivity]; lia|]. apply IH; lia.
Qed.

Lemma restart_ok w target events probes :
  0 <= probes <= events →
  C true target (mkCounts events probes false 0 0 None [] false) (restart_card w)
    (λ _ s, ∃ probes rs dark, 0 <= probes <= events + 1 ∧ rs < 2 ∧ s = mkCounts events probes false rs 0 None dark false).
Proof.
  intros Hp. unfold restart_card. destruct (postSwitchSIMPowerController w); [|apply triple_done; exists probes, 0, []; split_and!; [lia..|done]].
  cbn [bind ask]. apply triple_next. intros r. eexists. split.
  { unfold converge_step, readings. cbn beta iota delta [x_request x_answer]. rewrite (bool_decide_eq_true_2 (probes < _)) by lia. reflexivity. }
  eapply triple_call; [apply power_cycle_ok; [done|by right]|]. intros _ s (dark & ->). apply triple_done. exists (probes + 1), 1, dark. split_and!; [lia..|done].
Qed.

(** C14: the convergence after a switch takes at most twenty readings of the card,
    and with a window for events one more for each event and one for the restart;
    but for the reading of that restart it stops at the first good one.  It
    reports a card that is ready exactly when the last reading was good (a card in
    a PC/SC reader is not read), and a degraded one otherwise, and it applies the
    policy once, for a card that was read as good.  It resets the card or cycles
    its power at most once, twice with a window; a slot that was powered off is
    told to power on right after, so that it stays off only when the modem
    refuses; and it asks for a recovery of the core only after two more readings
    each time. *)
Theorem convergence_bounded w c trace r :
  exec (runPostSwitchConvergence unicode_lower UIMReadinessTransportFatal w c) trace r →
  ∃ s, watch (converge_step (EventGatedConverge w) (TargetICCID c)) none_yet trace = Some s ∧ settled (pcsc w) r s.
Proof.
  intros Hx. cut (C (EventGatedConverge w) (TargetICCID c) none_yet (runPostSwitchConvergence unicode_lower UIMReadinessTransportFatal w c) (settled (pcsc w))).
  { intros Ht. exact (Ht none_yet trace r eq_refl Hx). }
  clear Hx. unfold runPostSwitchConvergence. assert (Hdeg : ∀ t n, settled (pcsc w) (degraded_by t n) none_yet) by (by intros; unfold settled; cbn; split_and!; auto).
  destruct (Backend w); [|by apply triple_done]. destruct (pcsc w) eqn:Hp; [apply triple_done; unfold settled; cbn; split_and!; auto|].
  destruct (postSwitchReadinessProvider w); [|by apply triple_done]. cbn [negb]. rewrite <-Hp in *. destruct (EventGatedConverge w) eqn:Hg; cbn zeta.
  2: { by apply converge_and_apply_ok. }
  cbn [bind ask]. apply triple_next. intros known. eexists. split; [reflexivity|]. eapply triple_call with (R := λ _ s, s = none_yet).
  { unfold ask_if. destruct known; cbn [negb]; [|probe_step]; by apply triple_done. }
  intros _ ? ->. eapply triple_call with (R := λ ok s, ∃ events probes, 0 <= probes <= events ∧ s = mkCounts events probes ok 0 0 None [] false).
  { unfold awaitReinitConverged. case_bool_decide; [apply triple_done; exists 0, 0; split; [lia|done]|]. cbn [bind ask].
    apply triple_next. intros l. eexists. split; [reflexivity|].
    eapply triple_conseq; [apply (await_ok _ l (Z.of_nat (length l)) 0); [done|lia]|by intros ? <-|]. intros ok s (probes & ? & ->). by eexists _, probes. }
  intros ok ? (events & probes & Hb & ->). eapply triple_call with (R := settled (pcsc w)).
  - destruct ok; [probe_step; apply triple_done; unfold settled; cbn; split_and!; auto|]. eapply triple_call; [by apply restart_ok|].
    intros _ ? (probes' & rs & dark & Hb' & Hrs & ->). apply converge_and_apply_ok; unfold readings, resets; lia.
  - intros r1 [ev pr good rs rec off dark pol] (E1 & E2 & E3 & E4). cbn in E1, E2. subst. probe_step. apply triple_done. by split_and!.
Qed.
End Finish.

(** ** Two switches in a row *)

(** A device with an operating mode and the record of its switch; the card is
    good, everything succeeds. *)
Record device := mkDevice { dev_mode : operating_mode; dev_snapshot : option esimSwitchContext; dev_seq : Z }.

Definition cycling_worker : Worker :=
  mkWorker 1 1 true false true true true true true true true true true true true true true true true false true true false 0 0 false.
Definition good_card : UIMReadiness := mkReadiness true true true "8901" "46000" "" true 1 None.

Definition cycling_device (d : device) (q : request) : answer q * device :=
  match q return answer q * device with
  | GetWorker | WorkerOfOwner _ => (Some cycling_worker, d)
  | OwnerCurrent _ _ | MarkPhase _ _ | WaitOrStop _ | ConvergenceMatches _ _ | NetConnected => (true, d)
  | LatestToken t => (bool_decide (t = dev_seq d), d)
  | InReinitWindow | RequestCoreRecovery _ | VoWiFiActive | RecoverBlocksVoWiFi | CurrentEventSource | ProbeStale => (false, d)
  | BeginSection c => (with_begin c (dev_seq d + 1) 0, mkDevice (dev_mode d) (Some (with_begin c (dev_seq d + 1) 0)) (dev_seq d + 1))
  | FinishESIMSwitch | FinishFailure _ => (dev_snapshot d, d)
  | ResolveIfToken t => ((if bool_decide (t = dev_seq d) then dev_snapshot d else None), d)
  | Now | BeginIdentity _ _ | EnsureIdentity _ _ => (1, d)
  | PollTurns _ _ | GateTurns => (O, d)
  | CachedProfileName _ => ("", d)
  | ClassifyICCID _ _ => ((false, None), d)
  | ClassifyWorker => (inl (false, "46000", false), d)
  | CachedIdentity => (("8901", "46000"), d)
  | ReadICCID => (("8901", None), d)
  | ReadIMSI => (("46000", None), d)
  | GetOperatingMode => (inl (dev_mode d), d)
  | SetOperatingMode m => (None, mkDevice m (dev_snapshot d) (dev_seq d))
  | GetSignalInfo | StartNetwork | StopNetwork | WaitControlReady _ | WaitCoreReadyFor _ | WaitCoreReady
  | PowerOffSIM _ | PowerOnSIM _ | SwitchBegin | SwitchEnd | GateClosed => (None, d)
  | WaitHomeIdentity => (None, d)
  | EventsInWindow _ => ([], d)
  | GetUIMReadiness => ((good_card, None), d)
  | PostSwitchReload => ((1, None), d)
  | ResolveSIMAuthAID => (inl ("A0000000871002FF", ""), d)
  | LockTransition | UnlockTransition | BumpEpoch | UpdateGeneration _ _ | ClearSwitch | ClearIfToken _ | Sleep _
  | IdentityDegraded _ _ | RestoreIdentity _ _ _ | StoreIdentity _ _ _ _ _ | PersistIdentity | ClearCachedIP | RefreshIPs | SuppressRadio _
  | SuppressByConfig | EnterAirplane _ | LockRF | CancelReconcile _ | ScheduleNativeVoLTE _ | NewEventSource | DropEventSource | ConfigureArbiter
  | InvalidateSIMAuthReady _ | MarkHealthWindow | ReleaseAPDULeases | ResetSnapshotIdentities | Broadcast | InvalidateDynamicCache
  | RefreshRuntime _ | PersistRuntime | ResolvePolicy _ | ScheduleRefreshes | WarmOverview _ | LaunchRecover | ClearDesiredRecover => (tt, d)
  end.

Definition switch_once : prog request unit :=
  let? token := handleESIMSwitchBeforeWorker "8901" None in handleESIMSwitchAfter id "fatal" token.
Definition switch_twice : prog request unit :=
  let? _ := handleESIMSwitchBeforeWorker "8902" None in switch_once.

Definition online : device := mkDevice ModeOnline None 0.

(** The radio that is turned down for the first switch is taken for the flight
    mode of the user when a second one begins before the first was finished: the
    device, which was online, is left with the radio off. *)
Lemma second_switch_grounded :
  dev_mode (run_on cycling_device switch_once online).2 = ModeOnline ∧
  dev_mode (run_on cycling_device switch_twice online).2 = ModeRFOff.
Proof. vm_compute. done. Qed.

Lemma switch_finish_witness :
  ∃ trace s, watch (finish_step 1) unknown trace = Some s ∧ v_cleared s = true.
Proof.
  set (d := mkDevice ModeOnline (Some (with_begin (captured 0 "8901") 1 0)) 1).
  set (program := handleESIMSwitchAfter id "fatal" 1). exists (run_on cycling_device program d).1.1.
  destruct (switch_finish id "fatal" 1 (run_on cycling_device program d).1.1) as (s & Hs & Hv).
  - discriminate.
  - exact (run_exec cycling_device program d).
  - exists s. split; [exact Hs|]. destruct (v_snapshot s) as [c|]; [exact (proj1 Hv)|]. apply (f_equal length) in Hv. vm_compute in Hv. discriminate.
Defined.

(** The device of a worker with a window for events, in which one event comes, the
    card is not there before its power is cycled, and the modem refuses to power
    it on once. *)
Definition gated_worker : Worker :=
  mkWorker 1 1 true false true true true true true true true false true true true true true true true false true true true 0 0 false.
Definition dark_device (d : device) (q : request) : answer q * device :=
  match q return answer q * device → answer q * device with
  | EventsInWindow _ => λ _, ([SlotStatus], d)
  | GetUIMReadiness => λ other, if bool_decide (dev_seq d < 2) then ((mkReadiness true true false "" "" "" true 2 None, None), d) else other
  | PowerOnSIM _ => λ _, (if bool_decide (dev_seq d = 0) then Some (Errorf "no power") else None, mkDevice (dev_mode d) (dev_snapshot d) (dev_seq d + 1))
  | _ => λ other, other
  end (cycling_device d q).

(** The first power-on of slot 2 is refused, the second one, in the loop, is not:
    the slot is not dark at the end. *)
Lemma convergence_bounded_witness :
  let r := run_on dark_device (runPostSwitchConvergence id "fatal" gated_worker (captured 0 "8901")) online in
  c_Ready r.1.2 = true ∧
  ∃ s, watch (converge_step true "8901") none_yet r.1.1 = Some s ∧ v_good s = true ∧ v_policy s = true ∧ v_off s = None ∧ v_resets s = 2 ∧ v_probes s = 9 ∧ v_dark s = [].
Proof.
  intros r. assert (Hr : c_Ready r.1.2 = true) by (vm_compute; reflexivity). split; [exact Hr|].
  destruct (convergence_bounded id "fatal" gated_worker (captured 0 "8901") r.1.1 r.1.2) as (s & Hs & Hoff & Hp & Hg & _).
  - exact (run_exec dark_device (runPostSwitchConvergence id "fatal" gated_worker (captured 0 "8901")) online).
  - exists s. split; [exact Hs|]. assert (Hc : watch (converge_step true "8901") none_yet r.1.1 = Some s → v_good s = true ∧ v_resets s = 2 ∧ v_probes s = 9 ∧ v_dark s = [])
      by (vm_compute; intros [= <-]; repeat split; reflexivity).
    destruct (Hc Hs) as (H1 & H2 & H3 & H4). rewrite Hp, Hoff. split_and!; [exact H1|exact H1|reflexivity|exact H2|exact H3|exact H4].
Defined.

(** The phases that a run writes, with the token that it gives. *)
Definition marks (trace : list (exchange request)) : list (Z * string) :=
  omap (λ x, match x_request x with MarkPhase t p => Some (t, p) | _ => None end) trace.

(** A device with calls over WiFi whose gate stays closed. *)
Definition calling_worker : Worker :=
  mkWorker 1 1 true false true true true true true true true true true true true true true true true true true true false 0 0 false.
Definition gated_device (d : device) (q : request) : answer q * device :=
  match q return answer q * device → answer q * device with
  | GetWorker => λ _, (Some calling_worker, d)
  | GateClosed => λ _, (Some (Errorf "simauth not ready"), d)
  | _ => λ other, other
  end (cycling_device d q).

(** The gate was not passed, calls over WiFi are not restored, and the switch is
    degraded; its last phase says all the same that it is done. *)
Lemma degraded_reported_done :
  let d := mkDevice ModeOnline (Some (with_begin (captured 0 "8901") 1 0)) 1 in
  marks (run_on gated_device (handleESIMSwitchAfter id "fatal" 1) d).1.1 =
    [(1, SwitchPhaseIdentityRefresh); (1, SwitchPhaseRuntimeRestore); (1, SwitchPhaseVoWiFiRestore); (0, SwitchPhaseDegraded); (1, SwitchPhaseDone)].
Proof. vm_compute. reflexivity. Qed.
