(* ===== verification/SimFiles.v ===== *)
(** * The files of a SIM card, as the modem reads them (internal/modem)

    The decoders of the elementary files with the network names, the operator
    list, the service table, the name of the provider and the subscriber
    (sim_metadata.go, spn.go and [DecodeSwappedBCD] of at_parse.go), and how the
    files are read (the programs at the end of commands.go), over requests to
    the modem.  The GSM 7-bit tables belong to the SMS package: a parameter. *)

From Stdlib Require Import Ascii String.
From S2P Require Import Prelude GoText GoUnicode SmsCodec DeviceIdentity.

#[local] Open Scope string_scope.
#[local] Open Scope Z_scope.

Import Identity.

Inductive sim_error := SIMError.

(** ** Padding and raw values *)

Definition padding (b : Z) : bool := bool_decide (b = 0xFF) || bool_decide (b = 0x00).

Fixpoint trim_end (data : bytes) (e : nat) : nat :=
  match e with
  | O => O
  | S e' => if padding (nth e' data 0) then trim_end data e' else S e'
  end.

Definition trimSIMPadding (data : bytes) : bytes := take (trim_end data (List.length data)) data.
Definition trimSPNPadding (data : bytes) : bytes := take (trim_end data (List.length data)) data.

Definition simRawHex (data : bytes) : string :=
  let data := trimSIMPadding data in
  if bool_decide (len data = 0) then "" else HexUpper data.

(** ** Names *)

Fixpoint be_units (b : bytes) : list Z :=
  match b with
  | h :: l :: b => h * 256 + l :: be_units b
  | _ => []
  end.

Definition decodeSPNUCS2 (data : bytes) : go sim_error string :=
  let data := trimSPNPadding data in
  if bool_decide (len data = 0) then Err SIMError
  else if bool_decide (len data `mod` 2 ≠ 0) then Err SIMError
  else Ok (string_of (utf8_encode (utf16_decode (be_units data)))).

Definition isPrintableASCII (data : bytes) : bool :=
  if bool_decide (len data = 0) then false
  else forallb (λ b, negb (bool_decide (b < 0x20) || bool_decide (b > 0x7E))) data.

Section Names.
(** [gsm7.Decode]; [None] is an error. *)
Context (gsm7_decode : bytes → option bytes).

(** [utf8.Valid] holds of the bytes that their runes give back. *)
Definition decodeSPNGSM (data : bytes) : go sim_error string :=
  match gsm7_decode data with
  | None => Err SIMError
  | Some decoded => if bool_decide (to_valid decoded = decoded) then Ok (string_of decoded) else Err SIMError
  end.

Fixpoint compressed_text (base : Z) (payload : bytes) (b : string) : go sim_error string :=
  match payload with
  | [] => Ok b
  | c :: payload =>
      if bool_decide (c < 0x80) then
        decoded ← decodeSPNGSM [c]; compressed_text base payload (b ++ decoded)%string
      else compressed_text base payload (b ++ string_of (utf8_rune (u16 (base + Z.land c 0x7F))))%string
  end.

Definition decodeSPNCompressedUCS2 (data : bytes) (baseBytes : Z) : go sim_error string :=
  if bool_decide (len data < 2 + baseBytes) then Err SIMError
  else
    count ← idx data 1;
    let payloadStart := 2 + baseBytes in
    if bool_decide (len data < payloadStart) then Err SIMError
    else
      payload ← slice_from data payloadStart;
      payload ← (if bool_decide (count < len payload) then slice payload 0 count else Ok payload);
      base ← (if bool_decide (baseBytes = 1) then h ← idx data 2; Ok (u16 (Z.shiftl h 7))
              else h ← idx data 2; l ← idx data 3; Ok (h * 256 + l));
      compressed_text base payload "".

(** [strings.TrimSpace(strings.ReplaceAll(decoded, NUL, ""))], which must not be empty. *)
Definition clean_name (decoded : string) : go sim_error string :=
  let decoded := TrimSpace (remove_char (char 0) decoded) in
  if bool_decide (decoded = "") then Err SIMError else Ok decoded.

Definition DecodeEFSPN (data : bytes) : go sim_error string :=
  if bool_decide (len data = 0) then Err SIMError
  else
    name ← (if bool_decide (len data > 1) then slice_from data 1 else Ok data);
    let name := trimSPNPadding name in
    if bool_decide (len name = 0) then Err SIMError
    else
      tag ← idx name 0;
      decoded ←
        (if bool_decide (tag = 0x80) then rest ← slice_from name 1; decodeSPNUCS2 rest
         else if bool_decide (tag = 0x81) then decodeSPNCompressedUCS2 name 1
         else if bool_decide (tag = 0x82) then decodeSPNCompressedUCS2 name 2
         else if isPrintableASCII name then Ok (string_of name)
         else decodeSPNGSM name);
      clean_name decoded.

Definition decodeSIMAlphaIdentifier (data : bytes) : go sim_error string :=
  let data := trimSIMPadding data in
  if bool_decide (len data = 0) then Err SIMError
  else
    tag ← idx data 0;
    if bool_decide (tag = 0x80) then rest ← slice_from data 1; decodeSPNUCS2 rest
    else if bool_decide (tag = 0x81) then decodeSPNCompressedUCS2 data 1
    else if bool_decide (tag = 0x82) then decodeSPNCompressedUCS2 data 2
    else if isPrintableASCII data then Ok (TrimSpace (string_of data))
    else decodeSPNGSM data.

(** The inner loop of [decodePackedGSM7]: there are at most two septets in the
    bits that are held, and [unpack_bytes] gives it three turns.  The buffer
    holds fewer than 22 bits. *)
Fixpoint unpack_bits (fuel : nat) (septets : Z) (buf bits : Z) (unpacked : bytes) : Z * Z * bytes :=
  match fuel with
  | O => (buf, bits, unpacked)
  | S fuel =>
      if bool_decide (bits >= 7) && bool_decide (len unpacked < septets)
      then unpack_bits fuel septets (Z.shiftr buf 7) (bits - 7) (unpacked ++ [Z.land buf 0x7F])
      else (buf, bits, unpacked)
  end.

Fixpoint unpack_bytes (data : bytes) (septets : Z) (buf bits : Z) (unpacked : bytes) : bytes :=
  match data with
  | [] => unpacked
  | b :: data =>
      let '(buf, bits, unpacked) := unpack_bits 3 septets (Z.lor buf (Z.shiftl b bits)) (bits + 8) unpacked in
      unpack_bytes data septets buf bits unpacked
  end.

Definition decodePackedGSM7 (data : bytes) (spareBits : Z) : go sim_error string :=
  let spareBits := if bool_decide (spareBits < 0) || bool_decide (spareBits > 7) then 0 else spareBits in
  let septets := Z.quot (len data * 8 - spareBits) 7 in
  if bool_decide (septets <= 0) then Err SIMError
  else
    decoded ← decodeSPNGSM (unpack_bytes data septets 0 0 []);
    clean_name decoded.

Definition decodePNNNetworkName (data : bytes) : go sim_error string :=
  let data := trimSIMPadding data in
  if bool_decide (len data = 0) then Err SIMError
  else if bool_decide (len data >= 2) then
    info ← idx data 0;
    let coding := Z.land (Z.shiftr info 4) 0x07 in
    payload ← slice_from data 1;
    if bool_decide (coding = 0) then decodePackedGSM7 payload (Z.land info 0x07)
    else if bool_decide (coding = 1) then decodeSPNUCS2 payload
    else decodeSIMAlphaIdentifier data
  else decodeSIMAlphaIdentifier data.

(** ** Records *)

Definition tag_full : Z := 0x43.
Definition tag_short : Z := 0x45.

(** A turn of the loops over the elements reads two bytes or more: the length of
    the record is enough fuel. *)
Fixpoint tlv_length_loop (fuel : nat) (data : bytes) (i e : Z) : go sim_error Z :=
  match fuel with
  | O => Ok e
  | S fuel =>
      if bool_decide (i + 2 <= len data) then
        tag ← idx data i;
        if bool_decide (tag = 0x00) || bool_decide (tag = 0xFF) then Ok e
        else if bool_decide (tag ≠ tag_full) && bool_decide (tag ≠ tag_short) then Ok e
        else
          length ← idx data (i + 1);
          if bool_decide (length = 0) || bool_decide (i + 2 + length > len data) then Ok e
          else tlv_length_loop fuel data (i + 2 + length) (i + 2 + length)
      else Ok e
  end.

Definition pnnTLVLength (data : bytes) : go sim_error Z :=
  let data := trimSIMPadding data in
  tlv_length_loop (List.length data) data 0 0.

Definition trimPNNTLVRecord (data : bytes) : go sim_error bytes :=
  length ← pnnTLVLength data;
  if bool_decide (length = 0) then Ok [] else slice data 0 length.

Definition set_name (tag : Z) (name : go sim_error string) (out : PNNRecord) : go sim_error PNNRecord :=
  match name with
  | Ok name =>
      if bool_decide (tag = tag_full) then Ok (mkPNN (pnn_Record out) name (ShortName out) (pnn_RawHex out))
      else if bool_decide (tag = tag_short) then Ok (mkPNN (pnn_Record out) (FullName out) name (pnn_RawHex out))
      else Ok out
  | Err _ => Ok out
  | Panic => Panic
  end.

Fixpoint pnn_loop (fuel : nat) (data : bytes) (i : Z) (out : PNNRecord) : go sim_error PNNRecord :=
  match fuel with
  | O => Ok out
  | S fuel =>
      if bool_decide (i + 2 <= len data) then
        tag ← idx data i;
        length ← idx data (i + 1);
        let i := i + 2 in
        if bool_decide (i + length > len data) then Ok out
        else
          value ← slice data i (i + length);
          out ← (if bool_decide (tag = tag_full) || bool_decide (tag = tag_short)
                 then set_name tag (decodePNNNetworkName value) out else Ok out);
          pnn_loop fuel data (i + length) out
      else Ok out
  end.

Definition DecodePNNRecord (record : Z) (data : bytes) : go sim_error (option PNNRecord) :=
  data ← trimPNNTLVRecord data;
  let raw := simRawHex data in
  if bool_decide (len data = 0) then Ok None
  else
    out ← pnn_loop (List.length data) data 0 (mkPNN record "" "" raw);
    Ok (if bool_decide (FullName out ≠ "") || bool_decide (ShortName out ≠ "") || bool_decide (pnn_RawHex out ≠ "")
        then Some out else None).
End Names.

Fixpoint plmn_digits (nibbles : list Z) (b : string) : option string :=
  match nibbles with
  | [] => Some b
  | n :: nibbles =>
      if bool_decide (n = 0x0F) then plmn_digits nibbles (b ++ "x")%string
      else if bool_decide (n > 9) then None
      else plmn_digits nibbles (b ++ String (char (48 + n)) "")%string
  end.

Definition decodeOPLPLMN (data : bytes) : go sim_error string :=
  if bool_decide (len data < 3) then Ok ""
  else
    d0 ← idx data 0; d1 ← idx data 1; d2 ← idx data 2;
    let nibbles := [Z.land d0 0x0F; Z.shiftr d0 4; Z.land d1 0x0F; Z.land d2 0x0F; Z.shiftr d2 4; Z.shiftr d1 4] in
    Ok (match plmn_digits nibbles "" with None => "" | Some b => TrimRightChar "x"%char b end).

(** [binary.BigEndian.Uint16] *)
Definition be_u16 (b : bytes) : go sim_error Z := h ← idx b 0; l ← idx b 1; Ok (h * 256 + l).

Definition DecodeOPLRecord (record : Z) (data : bytes) : go sim_error (option OPLRecord) :=
  let raw := simRawHex data in
  let data := trimSIMPadding data in
  if bool_decide (len data < 8) then Ok None
  else
    plmn ← (s ← slice data 0 3; decodeOPLPLMN s);
    start ← (s ← slice data 3 5; be_u16 s);
    end_ ← (s ← slice data 5 7; be_u16 s);
    pnn ← idx data 7;
    let out := mkOPL record plmn start end_ pnn raw in
    Ok (if bool_decide (PLMN out ≠ "") || bool_decide (opl_RawHex out ≠ "") then Some out else None).

Definition isExactDecimalPLMN (plmn : string) : bool := forallb is_digit (list_ascii_of_string plmn).

Fixpoint NativeMCCMNCFromOPLRecords (records : list OPLRecord) : option (string * string) :=
  match records with
  | [] => None
  | rec :: records =>
      let plmn := TrimSpace (PLMN rec) in
      if negb (bool_decide (String.length plmn = 5%nat)) && negb (bool_decide (String.length plmn = 6%nat))
      then NativeMCCMNCFromOPLRecords records
      else if negb (isExactDecimalPLMN plmn) then NativeMCCMNCFromOPLRecords records
      else Some (substring 0 3 plmn, substring 3 (String.length plmn - 3) plmn)
  end.

(** The services of one byte, whose first has the number [8 * i + 1]. *)
Definition byte_services (i : nat) (b : Z) : list Z :=
  (λ bit : nat, Z.of_nat i * 8 + Z.of_nat bit + 1) <$>
    List.filter (λ bit : nat, negb (bool_decide (Z.land b (Z.shiftl 1 (Z.of_nat bit)) = 0))) (seq 0 8).

Definition DecodeSIMServiceTable (kind : string) (data : bytes) : option SIMServiceTable :=
  let raw := simRawHex data in
  let data := trimSIMPadding data in
  if bool_decide (len data = 0) then None
  else Some (mkTable kind raw (List.concat (imap byte_services data))).

(** ** The subscriber *)

Definition bcd_digit (n : Z) : string := if bool_decide (n <= 9) then String (char (48 + n)) "" else "".

Fixpoint DecodeSwappedBCD (data : bytes) : string :=
  match data with
  | [] => ""
  | b :: data => (bcd_digit (Z.land b 0x0F) ++ bcd_digit (Z.land (Z.shiftr b 4) 0x0F) ++ DecodeSwappedBCD data)%string
  end.

Definition MNCLengthFromEFAD (efAD : bytes) : option Z :=
  if bool_decide (len efAD < 4) then None
  else
    let n := nth 3 efAD 0 in
    if bool_decide (n = 2) || bool_decide (n = 3) then Some n else None.

Definition three_digit_mnc : list string :=
  [ "302"; "308"; "310"; "311"; "312"; "313"; "314"; "315"; "316"; "332"; "318"; "319"; "334"; "350";
    "338"; "348"; "342"; "344"; "346"; "354"; "356"; "358"; "360"; "362"; "364"; "365"; "366"; "368"; "370";
    "372"; "374"; "376"; "405"; "406"; "716"; "722"; "730"; "732"; "736"; "740"; "744"; "746"; "748"; "750" ].

(** [s[i:]] and [s[i:j]] of a string whose length was checked. *)
Definition from_ (i : nat) (s : string) : string := substring i (String.length s - i) s.

Definition parseMCCMNCFromIMSI (imsi : string) : string * string :=
  let imsi := TrimSpace imsi in
  if (String.length imsi <? 5)%nat then ("", "")
  else
    let mcc := substring 0 3 imsi in
    let mncLen := if bool_decide (mcc ∈ three_digit_mnc) then 3%nat else 2%nat in
    if (String.length imsi <? 3 + mncLen)%nat then (mcc, from_ 3 imsi) else (mcc, substring 3 mncLen imsi).

Inductive plmn_source := IMSI_EFAD | IMSIHeuristic.

Definition HomeMCCMNCFromIMSIAndEFAD (imsi : string) (efAD : bytes) : go sim_error (string * string * Z * plmn_source) :=
  let imsi := TrimSpace imsi in
  if (String.length imsi <? 5)%nat then Err SIMError
  else
    match MNCLengthFromEFAD efAD with
    | Some resolvedLen =>
        if bool_decide (Z.of_nat (String.length imsi) < 3 + resolvedLen) then Err SIMError
        else Ok (substring 0 3 imsi, substring 3 (Z.to_nat resolvedLen) imsi, resolvedLen, IMSI_EFAD)
    | None =>
        let '(mcc, mnc) := parseMCCMNCFromIMSI imsi in
        if bool_decide (mcc = "") || bool_decide (mnc = "") then Err SIMError
        else Ok (mcc, mnc, Z.of_nat (String.length mnc), IMSIHeuristic)
    end.
