(* ===== verification/SimFilesProofs.v ===== *)
(** * Properties of the decoders of SIM files

    No decoder panics, whatever the card holds; records that follow the
    specification decode to what was encoded. *)

From Stdlib Require Import Ascii String.
From S2P Require Import Prelude GoText GoUnicode SmsCodec SmsCodecProofs Lines DeviceIdentity SimFiles.
From stdpp Require Import strings.

#[local] Open Scope string_scope.
#[local] Open Scope Z_scope.

Import Identity.

(** ** Padding *)

Lemma padding_spec b : padding b = true ↔ b = 0xFF ∨ b = 0.
Proof. unfold padding. by rewrite orb_true_iff, !bool_decide_eq_true. Qed.

Lemma trim_end_spec data : ∀ e, (e ≤ List.length data)%nat →
  (trim_end data e ≤ e)%nat ∧
  (∀ i, (trim_end data e ≤ i < e)%nat → padding (nth i data 0) = true) ∧
  (trim_end data e = O ∨ padding (nth (pred (trim_end data e)) data 0) = false).
Proof.
  induction e as [|e IH]; intros He; cbn [trim_end]; [split_and!; [lia|intros; lia|by left]|].
  destruct (padding (nth e data 0)) eqn:E.
  - destruct (IH ltac:(lia)) as (H1 & H2 & H3). split_and!; [lia| |done].
    intros i Hi. destruct (decide (i = e)) as [->|]; [done|]. apply H2. lia.
  - split_and!; [lia|intros; lia|by right].
Qed.

Lemma trimSPNPadding_eq data : trimSPNPadding data = trimSIMPadding data.
Proof. done. Qed.

(** What is cut off is padding, and what is left does not end with it. *)
Definition trimmed (l : bytes) : Prop := l = [] ∨ ∃ l' x, l = (l' ++ [x])%list ∧ padding x = false.

Lemma trim_padding l p : trimmed l → Forall (λ b, padding b = true) p → trimSIMPadding (l ++ p) = l.
Proof.
  intros Hl Hp. unfold trimSIMPadding.
  destruct (trim_end_spec (l ++ p) _ (le_n _)) as (H1 & H2 & H3).
  set (e := trim_end _ _) in *. rewrite length_app in *.
  assert (e = List.length l) as ->; [|by rewrite take_app_length].
  destruct (decide (e < List.length l)%nat) as [Hlt|Hge].
  - exfalso. destruct Hl as [->|(l' & x & -> & Hx)]; [cbn in *; lia|]. rewrite length_app in *. cbn in *.
    specialize (H2 (List.length l') ltac:(lia)). rewrite <-app_assoc, app_nth2, Nat.sub_diag in H2 by lia. cbn in H2. congruence.
  - destruct (decide (e = List.length l)); [done|exfalso].
    destruct H3 as [|H3]; [lia|]. rewrite app_nth2 in H3 by lia.
    rewrite Forall_forall in Hp. rewrite Hp in H3; [done|]. apply list_elem_of_In, nth_In. lia.
Qed.

Lemma trim_trimmed data : trimmed (trimSIMPadding data) ∧ ∃ p, data = (trimSIMPadding data ++ p)%list ∧ Forall (λ b, padding b = true) p.
Proof.
  unfold trimSIMPadding. destruct (trim_end_spec data _ (le_n _)) as (H1 & H2 & H3). set (e := trim_end _ _) in *. split.
  - destruct e as [|e']; [by left|right]. destruct H3 as [H3|H3]; [done|]. cbn in H3.
    exists (take e' data), (nth e' data 0). split; [|done].
    destruct (lookup_lt_is_Some_2 data e' ltac:(lia)) as [x Hx]. erewrite take_S_r, nth_lookup, Hx by done. done.
  - exists (drop e data). split; [by rewrite take_drop|]. apply Forall_lookup. intros i x Hx. rewrite lookup_drop in Hx.
    pose proof (lookup_lt_Some _ _ _ Hx). specialize (H2 (e + i)%nat ltac:(lia)). by rewrite nth_lookup, Hx in H2.
Qed.

Lemma trimmed_app l1 l2 : l2 ≠ [] → trimmed l2 → trimmed (l1 ++ l2).
Proof. intros Hne [->|(l & x & -> & Hx)]; [done|]. right. exists (l1 ++ l)%list, x. by rewrite app_assoc. Qed.

Lemma trim_len data : len (trimSIMPadding data) ≤ len data.
Proof. unfold trimSIMPadding. rewrite len_take. lia. Qed.

Lemma trim_id l : trimmed l → trimSIMPadding l = l.
Proof. intros Hl. rewrite <-(app_nil_r l) at 1. by apply trim_padding. Qed.

Lemma trim_idemp l : trimSIMPadding (trimSIMPadding l) = trimSIMPadding l.
Proof. apply trim_id, trim_trimmed. Qed.

Lemma trim_bytes_ok l : bytes_ok l → bytes_ok (trimSIMPadding l).
Proof. apply bytes_ok_take. Qed.

Lemma trim_all p : Forall (λ b, padding b = true) p → trimSIMPadding p = [].
Proof. intros Hp. rewrite <-(app_nil_l p). apply trim_padding; [by left|done]. Qed.

(** ** No decoder panics *)

(** One step of a computation of type [go]: what it reads is in range. *)
Ltac safely :=
  repeat match goal with
  | |- safe (if isPrintableASCII ?d then _ else _) => destruct (isPrintableASCII d)
  | |- safe (if ?a || ?b then _ else _) => destruct (a || b)
  | |- safe (if _ then _ else _) => case_bool_decide
  | |- safe (Ok _) => apply safe_Ok
  | |- safe (Err _) => apply safe_Err
  | |- safe (_ ≫= _) => apply safe_bind; [|intros ? ?]
  | |- safe (idx _ _) => apply safe_idx; lia
  | |- safe (slice _ _ _) => apply safe_slice; lia
  | |- safe (slice_from _ _) => apply safe_slice_from; lia
  end.

Lemma decodeSPNUCS2_safe data : safe (decodeSPNUCS2 data).
Proof. unfold decodeSPNUCS2. cbv zeta. safely. Qed.

Section Safety.
Context (gsm7_decode : bytes → option bytes).

Lemma decodeSPNGSM_safe data : safe (decodeSPNGSM gsm7_decode data).
Proof. unfold decodeSPNGSM. destruct (gsm7_decode data); safely. Qed.

Lemma compressed_text_safe base payload : ∀ b, safe (compressed_text gsm7_decode base payload b).
Proof.
  induction payload as [|c payload IH]; intros b; cbn [compressed_text]; safely; [apply decodeSPNGSM_safe| |]; apply IH.
Qed.

Lemma decodeSPNCompressedUCS2_safe data n :
  bytes_ok data → n = 1 ∨ n = 2 → safe (decodeSPNCompressedUCS2 gsm7_decode data n).
Proof.
  intros Hb Hn. unfold decodeSPNCompressedUCS2. cbv zeta. safely; [|apply compressed_text_safe].
  apply safe_slice; [pose proof (idx_byte _ _ _ Hb H0)|]; lia.
Qed.

Lemma clean_name_safe s : safe (clean_name s).
Proof. unfold clean_name. cbv zeta. safely. Qed.

Lemma slice_from_bytes_ok {E} b i r : bytes_ok b → slice_from (E:=E) b i = Ok r → bytes_ok r.
Proof. intros Hb. apply slice_bytes_ok. exact Hb. Qed.

Hint Resolve decodeSPNGSM_safe decodeSPNUCS2_safe clean_name_safe : go.

Lemma DecodeEFSPN_safe data : bytes_ok data → safe (DecodeEFSPN gsm7_decode data).
Proof.
  intros Hb. unfold DecodeEFSPN. cbv zeta. safely; auto with go.
  all: pose proof (len_nonneg (trimSPNPadding a)); safely; auto with go.
  all: apply decodeSPNCompressedUCS2_safe; [|tauto].
  all: rewrite trimSPNPadding_eq; apply trim_bytes_ok.
  all: first [by eapply slice_from_bytes_ok|by simplify_eq].
Qed.

Lemma decodeSIMAlphaIdentifier_safe data : bytes_ok data → safe (decodeSIMAlphaIdentifier gsm7_decode data).
Proof.
  intros Hb. unfold decodeSIMAlphaIdentifier. cbv zeta. pose proof (len_nonneg (trimSIMPadding data)).
  safely; auto with go.
  all: apply decodeSPNCompressedUCS2_safe; [by apply trim_bytes_ok|tauto].
Qed.

Lemma decodePNNNetworkName_safe data : bytes_ok data → safe (decodePNNNetworkName gsm7_decode data).
Proof.
  intros Hb. unfold decodePNNNetworkName, decodePackedGSM7. cbv zeta. pose proof (len_nonneg (trimSIMPadding data)).
  safely; auto using decodeSIMAlphaIdentifier_safe, trim_bytes_ok with go.
Qed.

(** The loops over the elements stay inside the record and their fuel is enough. *)
Lemma tlv_length_loop_range data : bytes_ok data → ∀ fuel i e, 0 ≤ e ≤ i → i ≤ len data →
  ∃ n, tlv_length_loop fuel data i e = Ok n ∧ 0 ≤ n ≤ len data.
Proof.
  intros Hb. induction fuel as [|fuel IH]; intros i e He Hi; cbn [tlv_length_loop]; [exists e; split; [done|lia]|].
  case_bool_decide; [|exists e; split; [done|lia]].
  destruct (idx_Ok (E:=sim_error) data i ltac:(lia)) as (t & _ & Et). rewrite Et. cbn.
  destruct (_ || _); [exists e; split; [done|lia]|]. destruct (_ && _); [exists e; split; [done|lia]|].
  destruct (idx_Ok (E:=sim_error) data (i + 1) ltac:(lia)) as (l & _ & El). rewrite El. cbn.
  pose proof (idx_byte _ _ _ Hb El). destruct (_ || _) eqn:E; [exists e; split; [done|lia]|].
  apply orb_false_iff in E as [E1 E2]. apply bool_decide_eq_false in E1, E2. apply IH; lia.
Qed.

Lemma pnnTLVLength_range data : bytes_ok data → ∃ n, pnnTLVLength data = Ok n ∧ 0 ≤ n ≤ len data.
Proof.
  intros Hb. unfold pnnTLVLength. cbv zeta.
  destruct (tlv_length_loop_range _ (trim_bytes_ok _ Hb) (List.length (trimSIMPadding data)) 0 0) as (n & E & Hn); [lia|apply len_nonneg|].
  exists n. split; [done|]. pose proof (trim_len data). lia.
Qed.

Lemma pnn_loop_safe data : bytes_ok data → ∀ fuel i out, 0 ≤ i ≤ len data → safe (pnn_loop gsm7_decode fuel data i out).
Proof.
  intros Hb. induction fuel as [|fuel IH]; intros i out Hi; cbn [pnn_loop]; [apply safe_Ok|]. cbv zeta. safely.
  - pose proof (idx_byte _ _ _ Hb H1). apply safe_slice; lia.
  - unfold set_name. apply safe_match; [|intros; safely|intros; safely].
    apply decodePNNNetworkName_safe. by eapply slice_bytes_ok.
  - pose proof (idx_byte _ _ _ Hb H1). apply IH. lia.
Qed.

Lemma DecodePNNRecord_safe r data : bytes_ok data → safe (DecodePNNRecord gsm7_decode r data).
Proof.
  intros Hb. unfold DecodePNNRecord, trimPNNTLVRecord. cbv zeta.
  destruct (pnnTLVLength_range data Hb) as (n & En & Hn). rewrite En. cbn [mbind go_bind].
  safely; (apply pnn_loop_safe; [|pose proof (len_nonneg a); lia]).
  - by simplify_eq.
  - by eapply slice_bytes_ok.
Qed.
End Safety.

Lemma DecodeOPLRecord_safe r data : safe (DecodeOPLRecord r data).
Proof.
  unfold DecodeOPLRecord, decodeOPLPLMN, be_u16. cbv zeta. safely.
  all: repeat match goal with H : slice _ _ _ = Ok _ |- _ => apply slice_len in H end; safely.
Qed.

(** ** Network names

    A record as the card application writes it: elements with the full and the
    short name, and padding up to the length of the record. *)

Definition element : Type := Z * bytes.
Definition element_bytes (e : element) : bytes := e.1 :: len e.2 :: e.2.
Definition pnn_bytes (l : list element) : bytes := List.concat (element_bytes <$> l).
Definition element_ok (e : element) : Prop := (e.1 = tag_full ∨ e.1 = tag_short) ∧ e.2 ≠ [] ∧ len e.2 < 256 ∧ bytes_ok e.2.

Lemma pnn_bytes_cons e l : pnn_bytes (e :: l) = (element_bytes e ++ pnn_bytes l)%list.
Proof. done. Qed.

Lemma len_element e : len (element_bytes e) = 2 + len e.2.
Proof. unfold element_bytes. rewrite !len_cons. lia. Qed.

Lemma pnn_bytes_ok l : Forall element_ok l → bytes_ok (pnn_bytes l).
Proof.
  induction 1 as [|[t v] l (Ht & Hv & Hl & Hb) _ IH]; [constructor|]. rewrite pnn_bytes_cons. apply bytes_ok_app. split; [|done].
  pose proof (len_nonneg v). cbn [fst snd] in *. unfold tag_full, tag_short in Ht. constructor; [red; cbn; lia|]. by constructor.
Qed.

Lemma pnn_bytes_length l : (List.length l ≤ List.length (pnn_bytes l))%nat.
Proof. induction l as [|e l IH]; [done|]. rewrite pnn_bytes_cons, length_app. cbn. lia. Qed.

Section Element.
Context (pre : bytes) (e : element) (rest : bytes).
Let data := (pre ++ element_bytes e ++ rest)%list.

Lemma element_tag : idx (E:=sim_error) data (len pre) = Ok e.1.
Proof. unfold data, element_bytes. by apply idx_mid. Qed.

Lemma element_length : idx (E:=sim_error) data (len pre + 1) = Ok (len e.2).
Proof.
  unfold data, element_bytes. cbn [app]. rewrite (cons_middle e.1), app_assoc.
  apply idx_mid. rewrite len_app, len_cons, len_nil. lia.
Qed.

Lemma element_value : slice (E:=sim_error) data (len pre + 2) (len pre + 2 + len e.2) = Ok e.2.
Proof.
  unfold data, element_bytes. replace (pre ++ (e.1 :: len e.2 :: e.2) ++ rest)%list
    with ((pre ++ [e.1; len e.2]) ++ e.2 ++ rest)%list by by rewrite <-!app_assoc.
  apply slice_mid; rewrite len_app, !len_cons, len_nil; lia.
Qed.

Lemma element_room : len data = len pre + 2 + len e.2 + len rest.
Proof. unfold data. rewrite !len_app, len_element. lia. Qed.
End Element.

Lemma tlv_length_elements l : Forall element_ok l → ∀ pre fuel,
  (List.length l ≤ fuel)%nat →
  tlv_length_loop fuel (pre ++ pnn_bytes l) (len pre) (len pre) = Ok (len (pre ++ pnn_bytes l)).
Proof.
  induction 1 as [|e l (Ht & Hv & Hl & Hb) Hall IH]; intros pre fuel Hf.
  { unfold pnn_bytes. cbn [fmap list_fmap List.concat]. rewrite app_nil_r. destruct fuel; cbn [tlv_length_loop]; [done|]. by rewrite bool_decide_eq_false_2 by lia. }
  destruct fuel as [|fuel]; [cbn in Hf; lia|]. rewrite pnn_bytes_cons. cbn [tlv_length_loop].
  pose proof (element_room pre e (pnn_bytes l)). pose proof (len_nonneg (pnn_bytes l)). pose proof (len_pos e.2 Hv).
  rewrite bool_decide_eq_true_2 by lia. rewrite element_tag. cbn [mbind go_bind].
  assert (bool_decide (e.1 = 0) || bool_decide (e.1 = 255) = false) as ->.
  { unfold tag_full, tag_short in Ht. by rewrite !bool_decide_eq_false_2 by lia. }
  assert (bool_decide (e.1 ≠ tag_full) && bool_decide (e.1 ≠ tag_short) = false) as ->.
  { apply andb_false_iff. rewrite !bool_decide_eq_false. tauto. }
  rewrite element_length. cbn [mbind go_bind].
  rewrite !bool_decide_eq_false_2 by lia. cbn [orb].
  replace (len pre + 2 + len e.2) with (len (pre ++ element_bytes e)) by (rewrite len_app, len_element; lia).
  rewrite app_assoc. apply IH. cbn in Hf. lia.
Qed.

Section NetworkNames.
Context (gsm7_decode : bytes → option bytes).

(** The last element of a kind whose text can be read gives the name. *)
Definition name_of (tag : Z) (l : list element) (d : string) : string :=
  foldl (λ name e, if bool_decide (e.1 = tag) then
      match decodePNNNetworkName gsm7_decode e.2 with Ok n => n | _ => name end else name) d l.

Lemma pnn_loop_elements l : Forall element_ok l → ∀ pre fuel out,
  (List.length l ≤ fuel)%nat →
  pnn_loop gsm7_decode fuel (pre ++ pnn_bytes l) (len pre) out =
  Ok (mkPNN (pnn_Record out) (name_of tag_full l (FullName out)) (name_of tag_short l (ShortName out)) (pnn_RawHex out)).
Proof.
  induction 1 as [|e l (Ht & Hv & Hl & Hb) Hall IH]; intros pre fuel out Hf.
  { unfold pnn_bytes. cbn [fmap list_fmap List.concat]. rewrite app_nil_r. destruct out, fuel; cbn [pnn_loop]; [done|]. by rewrite bool_decide_eq_false_2 by lia. }
  destruct fuel as [|fuel]; [cbn in Hf; lia|]. rewrite pnn_bytes_cons. cbn [pnn_loop].
  pose proof (element_room pre e (pnn_bytes l)). pose proof (len_nonneg (pnn_bytes l)). pose proof (len_pos e.2 Hv).
  rewrite bool_decide_eq_true_2 by lia. rewrite element_tag. cbn [mbind go_bind].
  rewrite element_length. cbn [mbind go_bind]. rewrite bool_decide_eq_false_2 by lia.
  rewrite element_value. cbn [mbind go_bind].
  assert (bool_decide (e.1 = tag_full) || bool_decide (e.1 = tag_short) = true) as ->.
  { apply orb_true_iff. by rewrite !bool_decide_eq_true. }
  pose proof (decodePNNNetworkName_safe gsm7_decode _ Hb) as Hs.
  replace (len pre + 2 + len e.2) with (len (pre ++ element_bytes e)) by (rewrite len_app, len_element; lia).
  rewrite app_assoc. cbn in Hf. specialize (IH (pre ++ element_bytes e)%list fuel).
  generalize dependent ((pre ++ element_bytes e) ++ pnn_bytes l)%list.
  generalize dependent (len (pre ++ element_bytes e)). intros pos data IH. unfold name_of. cbn [foldl]. fold (name_of tag_full l) (name_of tag_short l).
  destruct (decodePNNNetworkName gsm7_decode e.2) as [n|er|] eqn:E; [| |done].
  - destruct Ht as [-> | ->].
    + change (set_name tag_full (Ok n) out) with (Ok (E:=sim_error) (mkPNN (pnn_Record out) n (ShortName out) (pnn_RawHex out))).
      cbn [mbind go_bind]. by rewrite IH by lia.
    + change (set_name tag_short (Ok n) out) with (Ok (E:=sim_error) (mkPNN (pnn_Record out) (FullName out) n (pnn_RawHex out))).
      cbn [mbind go_bind]. by rewrite IH by lia.
  - cbn [set_name mbind go_bind]. rewrite IH by lia. by destruct Ht as [-> | ->].
Qed.

Lemma DecodePNNRecord_elements r l p :
  Forall element_ok l → l ≠ [] → trimmed (pnn_bytes l) → Forall (λ b, padding b = true) p →
  DecodePNNRecord gsm7_decode r (pnn_bytes l ++ p) =
  Ok (Some (mkPNN r (name_of tag_full l "") (name_of tag_short l "") (HexUpper (pnn_bytes l)))).
Proof.
  intros Hl Hne Ht Hp. unfold DecodePNNRecord, trimPNNTLVRecord, pnnTLVLength. cbv zeta.
  rewrite trim_padding by done. pose proof (pnn_bytes_length l).
  pose proof (tlv_length_elements l Hl [] (List.length (pnn_bytes l)) ltac:(lia)) as E. cbn [app] in E.
  change (len (@nil Z)) with 0 in E. rewrite E. cbn [mbind go_bind].
  destruct l as [|e l]; [done|]. assert (0 < len (pnn_bytes (e :: l))).
  { rewrite pnn_bytes_cons, len_app, len_element. pose proof (len_nonneg e.2). pose proof (len_nonneg (pnn_bytes l)). lia. }
  rewrite bool_decide_eq_false_2 by lia. pose proof (slice_mid (E:=sim_error) [] (pnn_bytes (e :: l)) p 0 (len (pnn_bytes (e :: l))) eq_refl eq_refl) as E2.
  cbn [app] in E2. rewrite E2. cbn [mbind go_bind]. rewrite bool_decide_eq_false_2 by lia.
  pose proof (pnn_loop_elements (e :: l) Hl [] (List.length (pnn_bytes (e :: l)))) as E3. cbn [app] in E3.
  change (len (@nil Z)) with 0 in E3. rewrite E3 by lia. cbn [mbind go_bind pnn_Record FullName ShortName pnn_RawHex].
  unfold simRawHex. rewrite trim_id by done. cbv zeta. rewrite (bool_decide_eq_false_2 (len _ = 0)) by lia.
  rewrite (bool_decide_eq_true_2 (HexUpper _ ≠ "")) by done. by rewrite orb_true_r.
Qed.
End NetworkNames.

(** ** Packed septets

    The loop that unpacks them gives the digits, in base 128, of the number that
    the octets stand for in base 256, the lowest first. *)

Definition septet (v : Z) (k : nat) : Z := (v / 2 ^ (7 * Z.of_nat k)) `mod` 128.
Definition septets_of (v : Z) (m : nat) : bytes := septet v <$> seq 0 m.

Lemma septets_S v m : septets_of v (S m) = (septets_of v m ++ [septet v m])%list.
Proof. unfold septets_of. rewrite seq_S, fmap_app. done. Qed.

Lemma length_septets v m : List.length (septets_of v m) = m.
Proof. unfold septets_of. by rewrite length_fmap, length_seq. Qed.

Lemma le_val_snoc p b : le_val (p ++ [b]) = le_val p + 2 ^ (8 * len p) * b.
Proof.
  induction p as [|x p IH]; cbn [app le_val]; [change (len (@nil Z)) with 0; lia|].
  rewrite IH, len_cons. replace (8 * (1 + len p)) with (8 + 8 * len p) by lia.
  pose proof (len_nonneg p). rewrite Z.pow_add_r by lia. change (2 ^ 8) with 256. lia.
Qed.

(** Septets below the end of the bits that are known do not change. *)
Lemma septets_stable v b n m : 7 * Z.of_nat m ≤ n → 0 ≤ v → septets_of (v + 2 ^ n * b) m = septets_of v m.
Proof.
  intros Hm Hv. unfold septets_of. apply list_fmap_ext. intros i k Hk. apply lookup_seq in Hk as [-> Hi]. unfold septet. rewrite Nat.add_0_l.
  replace n with (7 * Z.of_nat i + (7 + (n - 7 * Z.of_nat i - 7))) by lia. rewrite 2!Z.pow_add_r by lia.
  replace (v + 2 ^ (7 * Z.of_nat i) * (2 ^ 7 * 2 ^ (n - 7 * Z.of_nat i - 7)) * b)
    with (v + (2 ^ (n - 7 * Z.of_nat i - 7) * b * 128) * 2 ^ (7 * Z.of_nat i)) by (change (2 ^ 7) with 128; ring).
  rewrite Z.div_add by (apply Z.pow_nonzero; lia). by rewrite Z.mod_add by lia.
Qed.

Lemma lor_shiftl a b n : 0 ≤ n → 0 ≤ a < 2 ^ n → Z.lor a (Z.shiftl b n) = a + b * 2 ^ n.
Proof.
  intros Hn Ha. rewrite <-Z.shiftl_mul_pow2 by lia. rewrite Z.add_nocarry_lxor, <-Z.lxor_lor; [done|..].
  all: apply Z.bits_inj'; intros i Hi; rewrite Z.land_spec, Z.bits_0, Z.shiftl_spec by lia.
  all: destruct (decide (i < n)); [rewrite (Z.testbit_neg_r b) by lia; apply andb_false_r|].
  all: by rewrite <-(Z.mod_small a (2 ^ n)), Z.mod_pow2_bits_high by lia.
Qed.

Definition unpacked_ok (septets : Z) (p : bytes) (buf bits : Z) (u : bytes) : Prop :=
  let m := List.length u in
  len u ≤ septets ∧ 0 ≤ bits ∧ bits = 8 * len p - 7 * len u ∧ buf = le_val p / 2 ^ (7 * len u) ∧ u = septets_of (le_val p) m.

Lemma unpack_bits_ok septets p fuel : ∀ buf bits u, unpacked_ok septets p buf bits u → bits < 7 * Z.of_nat fuel ∨ len u = septets →
  ∃ buf' bits' u', unpack_bits fuel septets buf bits u = (buf', bits', u') ∧
    unpacked_ok septets p buf' bits' u' ∧ (bits' < 7 ∨ len u' = septets).
Proof.
  induction fuel as [|fuel IH]; intros buf bits u Hok Hf; cbn [unpack_bits].
  { exists buf, bits, u. split; [done|]. split; [done|]. destruct Hok as (?&?&?). destruct Hf; [lia|by right]. }
  destruct Hok as (H1 & H2 & H3 & H4 & H5). destruct (bool_decide (bits >= 7) && bool_decide (len u < septets)) eqn:E.
  - apply andb_true_iff in E as [E1%bool_decide_eq_true E2%bool_decide_eq_true]. apply IH; [|lia].
    assert (Hn : List.length u = Z.to_nat (len u)) by apply length_len. pose proof (len_nonneg u).
    repeat split; rewrite ?len_app, ?len_cons, ?len_nil; [lia..| |].
    + rewrite Z.shiftr_div_pow2, H4, Z.div_div by (try apply Z.pow_pos_nonneg; lia). f_equal. rewrite <-Z.pow_add_r by lia. f_equal. lia.
    + rewrite length_app. cbn [List.length]. rewrite Nat.add_1_r, septets_S, <-H5. do 2 f_equal.
      change 127 with (Z.ones 7). rewrite Z.land_ones, H4 by lia. unfold septet. rewrite Hn, Z2Nat.id by lia. done.
  - exists buf, bits, u. split; [done|]. split; [done|]. apply andb_false_iff in E as [E%bool_decide_eq_false|E%bool_decide_eq_false]; lia.
Qed.

Lemma unpack_bytes_ok septets rest : ∀ p buf bits u,
  bytes_ok (p ++ rest) → unpacked_ok septets p buf bits u → bits < 7 ∨ len u = septets →
  7 * septets ≤ 8 * len (p ++ rest) →
  unpack_bytes rest septets buf bits u = septets_of (le_val (p ++ rest)) (Z.to_nat septets).
Proof.
  induction rest as [|b rest IH]; intros p buf bits u Hb Hok Hfull Hs; cbn [unpack_bytes].
  - rewrite app_nil_r in *. destruct Hok as (H1 & H2 & H3 & _ & H5). rewrite H5 at 1. f_equal. rewrite length_len. f_equal. lia.
  - assert (Hp : bytes_ok p) by by apply bytes_ok_app in Hb as [? _].
    assert (Hbb : byte_ok b) by (apply bytes_ok_app in Hb as [_ Hb]; by apply Forall_inv in Hb).
    pose proof (le_val_bound p Hp) as Hv. change 256 with (2 ^ 8) in Hv. rewrite <-Z.pow_mul_r in Hv by (try apply len_nonneg; lia).
    assert (Hok' : unpacked_ok septets (p ++ [b]) (Z.lor buf (Z.shiftl b bits)) (bits + 8) u).
    { destruct Hok as (H1 & H2 & H3 & H4 & H5). pose proof (len_nonneg u).
      repeat split; rewrite ?len_app, ?len_cons, ?len_nil; [lia..| |].
      - rewrite le_val_snoc. replace (8 * len p) with (bits + 7 * len u) by lia. rewrite Z.pow_add_r by lia.
        replace (le_val p + 2 ^ bits * 2 ^ (7 * len u) * b) with (le_val p + (b * 2 ^ bits) * 2 ^ (7 * len u)) by ring.
        rewrite Z.div_add by (apply Z.pow_nonzero; lia). rewrite <-H4.
        assert (0 ≤ buf < 2 ^ bits).
        { rewrite H4. split; [apply Z.div_pos; [lia|apply Z.pow_pos_nonneg; lia]|].
          apply Z.div_lt_upper_bound; [apply Z.pow_pos_nonneg; lia|]. rewrite <-Z.pow_add_r by lia. replace (7 * len u + bits) with (8 * len p) by lia. lia. }
        by apply lor_shiftl.
      - rewrite le_val_snoc, septets_stable; [done|fold (len u); lia|lia]. }
    destruct (unpack_bits_ok septets (p ++ [b]) 3 _ _ _ Hok') as (buf' & bits' & u' & E & Hok2 & Hf2).
    { destruct Hfull; [left; cbn; lia|by right]. }
    rewrite E. rewrite (cons_middle b p rest), app_assoc in *. by apply IH.
Qed.

(** The number that septets stand for, and their octets. *)
Definition septets_val (s : bytes) : Z := foldr (λ x v, x + 128 * v) 0 s.

Lemma septets_val_cons x s : septets_val (x :: s) = x + 128 * septets_val s.
Proof. done. Qed.

Definition septet_ok (x : Z) : Prop := 0 ≤ x < 128.

Lemma septets_val_bound s : Forall septet_ok s → 0 ≤ septets_val s < 2 ^ (7 * len s).
Proof.
  induction 1 as [|x s Hx _ IH]; [split; [apply Z.le_refl|reflexivity]|]. rewrite len_cons. pose proof (len_nonneg s).
  replace (7 * (1 + len s)) with (7 + 7 * len s) by lia. rewrite Z.pow_add_r by lia. change (2 ^ 7) with 128.
  unfold septet_ok in Hx. rewrite septets_val_cons. lia.
Qed.

Lemma septets_of_val s : Forall septet_ok s → septets_of (septets_val s) (List.length s) = s.
Proof.
  intros Hs. apply list_eq. intros i. unfold septets_of. rewrite list_lookup_fmap.
  destruct (decide (i < List.length s)%nat) as [Hi|Hi].
  2: { rewrite !lookup_ge_None_2 by (rewrite ?length_seq; lia). done. }
  rewrite lookup_seq_lt by done. cbn [fmap option_fmap option_map]. rewrite Nat.add_0_l.
  revert s Hs Hi. induction i as [|i IH]; intros s Hs Hi; (destruct Hs as [|x s Hx Hs]; [cbn in Hi; lia|]); unfold septet_ok in Hx.
  - cbn [lookup list_lookup]. unfold septet. rewrite septets_val_cons. f_equal. change (7 * Z.of_nat 0) with 0. rewrite Z.pow_0_r, Z.div_1_r. zdiv.
  - cbn [lookup list_lookup]. rewrite <-IH by (done || cbn in Hi; lia). f_equal. unfold septet. rewrite septets_val_cons.
    replace (7 * Z.of_nat (S i)) with (7 + 7 * Z.of_nat i) by lia. rewrite Z.pow_add_r, <-Z.div_div by (try (apply Z.pow_pos_nonneg); lia).
    change (2 ^ 7) with 128. f_equal. f_equal. zdiv.
Qed.

Section TextOfNames.
Context (gsm7_decode : bytes → option bytes).

Lemma packed_text s n :
  Forall septet_ok s → s ≠ [] → 8 * Z.of_nat n - 7 < 7 * len s ≤ 8 * Z.of_nat n →
  decodePackedGSM7 gsm7_decode (le_bytes n (septets_val s)) (8 * Z.of_nat n - 7 * len s) =
  (decoded ← decodeSPNGSM gsm7_decode s; clean_name decoded).
Proof.
  intros Hs Hne Hn. unfold decodePackedGSM7. rewrite (bool_decide_eq_false_2 (_ < 0)), (bool_decide_eq_false_2 (_ > 7)) by lia. cbn [orb]. cbv zeta.
  rewrite len_le_bytes. replace (Z.of_nat n * 8 - (8 * Z.of_nat n - 7 * len s)) with (len s * 7) by lia.
  rewrite Z.quot_mul by lia. pose proof (len_pos s Hne). rewrite bool_decide_eq_false_2 by lia. do 2 f_equal.
  rewrite (unpack_bytes_ok (len s) _ []); cbn [app].
  - rewrite le_val_le_bytes, Z.mod_small, <-length_len; [by apply septets_of_val|].
    pose proof (septets_val_bound s Hs). replace (256 ^ Z.of_nat n) with (2 ^ (8 * Z.of_nat n)) by (rewrite Z.pow_mul_r by lia; done).
    pose proof (Z.pow_le_mono_r 2 (7 * len s) (8 * Z.of_nat n) ltac:(lia) ltac:(lia)). lia.
  - apply bytes_ok_le_bytes.
  - unfold unpacked_ok. rewrite len_nil. split_and!; [lia|lia|lia|done|done].
  - left. lia.
  - rewrite len_le_bytes. lia.
Qed.

Lemma header_bits x : 0 ≤ x < 8 → Z.land (Z.shiftr (0x80 + x) 4) 7 = 0 ∧ Z.land (0x80 + x) 7 = x.
Proof. intros Hx. assert (x = 0 ∨ x = 1 ∨ x = 2 ∨ x = 3 ∨ x = 4 ∨ x = 5 ∨ x = 6 ∨ x = 7) as Hc by lia. by destruct_or! Hc; subst. Qed.

(** A network name in the GSM alphabet: the spare bits of the last octet are in
    the first one. *)
Lemma gsm_network_name s n :
  Forall septet_ok s → s ≠ [] → 8 * Z.of_nat n - 7 < 7 * len s ≤ 8 * Z.of_nat n →
  let value := (0x80 + (8 * Z.of_nat n - 7 * len s)) :: le_bytes n (septets_val s) in
  trimmed value →
  decodePNNNetworkName gsm7_decode value = (decoded ← decodeSPNGSM gsm7_decode s; clean_name decoded).
Proof.
  intros Hs Hne Hn value Ht. unfold decodePNNNetworkName. rewrite trim_id by done. cbv zeta.
  pose proof (len_pos s Hne). assert (Hl : len value = 1 + Z.of_nat n) by (unfold value; rewrite len_cons, len_le_bytes; lia).
  rewrite (bool_decide_eq_false_2 (len value = 0)), (bool_decide_eq_true_2 (len value >= 2)) by lia. unfold value.
  change (idx (E:=sim_error) (?x :: ?l) 0) with (Ok (E:=sim_error) x).
  rewrite slice_from_drop by (rewrite len_cons, len_le_bytes; lia). cbn [mbind go_bind].
  destruct (header_bits (8 * Z.of_nat n - 7 * len s) ltac:(lia)) as [-> ->]. cbn [drop]. by apply packed_text.
Qed.

(** A network name in UCS2. *)
Definition be_bytes (us : list Z) : bytes := List.concat ((λ u, [u / 256; u `mod` 256]) <$> us).

Lemma be_units_bytes us : be_units (be_bytes us) = us.
Proof. induction us as [|u us IH]; [done|]. unfold be_bytes in *. cbn. rewrite IH. f_equal. zdiv. Qed.

Lemma len_be_bytes us : len (be_bytes us) = 2 * len us.
Proof. induction us as [|u us IH]; [done|]. unfold be_bytes in *. cbn [fmap list_fmap List.concat app]. rewrite !len_cons, IH. lia. Qed.

Lemma utf16_nonempty rs : rs ≠ [] → utf16_encode rs ≠ [].
Proof. destruct rs as [|r rs]; [done|]. intros _. unfold utf16_encode. cbn. unfold utf16_rune. repeat case_bool_decide; done. Qed.

Lemma ucs2_text rs :
  Forall (λ r, scalar r = true) rs → rs ≠ [] → trimmed (be_bytes (utf16_encode rs)) →
  decodeSPNUCS2 (be_bytes (utf16_encode rs)) = Ok (string_of (utf8_encode rs)).
Proof.
  intros Hs Hne Ht. unfold decodeSPNUCS2. rewrite trimSPNPadding_eq, trim_id by done. cbv zeta. rewrite len_be_bytes.
  pose proof (len_pos _ (utf16_nonempty _ Hne)). rewrite bool_decide_eq_false_2 by lia. rewrite bool_decide_eq_false_2.
  - by rewrite be_units_bytes, utf16_roundtrip.
  - rewrite Z.mul_comm, Z.mod_mul by lia. lia.
Qed.

Lemma ucs2_network_name rs :
  Forall (λ r, scalar r = true) rs → rs ≠ [] → trimmed (be_bytes (utf16_encode rs)) →
  decodePNNNetworkName gsm7_decode (0x90 :: be_bytes (utf16_encode rs)) = Ok (string_of (utf8_encode rs)).
Proof.
  intros Hs Hne Ht. unfold decodePNNNetworkName. pose proof (len_nonneg (utf16_encode rs)).
  assert (be_bytes (utf16_encode rs) ≠ []).
  { intros E. pose proof (len_be_bytes (utf16_encode rs)) as E2. rewrite E in E2. pose proof (len_pos _ (utf16_nonempty _ Hne)). change (len (@nil Z)) with 0 in E2. lia. }
  rewrite trim_id by by apply (trimmed_app [0x90]). cbv zeta. rewrite len_cons, len_be_bytes.
  pose proof (len_pos _ (utf16_nonempty _ Hne)). rewrite bool_decide_eq_false_2, bool_decide_eq_true_2 by lia.
  change (idx (E:=sim_error) (0x90 :: ?l) 0) with (Ok (E:=sim_error) 0x90).
  rewrite slice_from_drop by (rewrite len_cons, len_be_bytes; lia). cbn [mbind go_bind drop Z.to_nat Pos.to_nat].
  by apply ucs2_text.
Qed.
End TextOfNames.

(** A name whose last character ends in a zero octet, like U+4E00, is lost with
    the whole record: the octet is taken for padding. *)
Lemma name_ending_in_zero_lost gsm7_decode p :
  Forall (λ b, padding b = true) p →
  DecodePNNRecord gsm7_decode 1 ([0x43; 5; 0x90; 0x7E; 0xDF; 0x4E; 0x00] ++ p) = Ok None ∧
  decodePNNNetworkName gsm7_decode (0x90 :: be_bytes [0x7EDF; 0x4E00]) = Err SIMError.
Proof.
  intros Hp. split; [|reflexivity]. unfold DecodePNNRecord, trimPNNTLVRecord, pnnTLVLength.
  replace ([0x43; 5; 0x90; 0x7E; 0xDF; 0x4E; 0x00] ++ p)%list with ([0x43; 5; 0x90; 0x7E; 0xDF; 0x4E] ++ 0x00 :: p)%list by done.
  rewrite (trim_padding [0x43; 5; 0x90; 0x7E; 0xDF; 0x4E]); [reflexivity| |by constructor].
  right. exists [0x43; 5; 0x90; 0x7E; 0xDF], 0x4E. done.
Qed.

(** ** Operator list *)

(** Five or six digits in three octets. *)
Definition plmn_bytes (mcc mnc : list Z) : bytes :=
  match mcc, mnc with
  | [a; b; c], [x; y] => [a + 16 * b; c + 16 * 0xF; x + 16 * y]
  | [a; b; c], [x; y; z] => [a + 16 * b; c + 16 * z; x + 16 * y]
  | _, _ => []
  end.
Definition digits_text (ds : list Z) : string := string_of_list_ascii ((λ d, char (48 + d)) <$> ds).
Definition digit_ok (d : Z) : Prop := 0 ≤ d < 10.

Lemma nibbles_land a b : 0 ≤ a < 16 → Z.land (a + 16 * b) 0x0F = a.
Proof. intros Ha. change 0x0F with (Z.ones 4). rewrite Z.land_ones by lia. change (2 ^ 4) with 16. zdiv. Qed.

Lemma nibbles_shift a b : 0 ≤ a < 16 → Z.shiftr (a + 16 * b) 4 = b.
Proof. intros Ha. rewrite Z.shiftr_div_pow2 by lia. change (2 ^ 4) with 16. zdiv. Qed.

Lemma digit_not_x d : digit_ok d → Ascii.eqb (char (48 + d)) "x"%char = false.
Proof.
  intros Hd. assert (d = 0 ∨ d = 1 ∨ d = 2 ∨ d = 3 ∨ d = 4 ∨ d = 5 ∨ d = 6 ∨ d = 7 ∨ d = 8 ∨ d = 9) as Hc by (unfold digit_ok in Hd; lia).
  by destruct_or! Hc; subst.
Qed.

Lemma digits_free_of_x ds : Forall digit_ok ds → free_of "x"%char (digits_text ds).
Proof.
  intros Hd. unfold free_of, digits_text. rewrite list_ascii_of_string_of_list_ascii, Forall_fmap.
  eapply Forall_impl; [exact Hd|]. intros d H%digit_not_x. cbn. by apply Ascii.eqb_neq.
Qed.

Lemma digits_text_cons d ds : digits_text (d :: ds) = String (char (48 + d)) (digits_text ds).
Proof. done. Qed.

Lemma plmn_digits_text ds rest : Forall digit_ok ds → ∀ b, plmn_digits (ds ++ rest) b = plmn_digits rest (b +:+ digits_text ds).
Proof.
  induction 1 as [|d ds Hd _ IH]; intros b; [cbn [app]; by rewrite append_nil_r|]. unfold digit_ok in Hd.
  cbn [app plmn_digits]. rewrite !bool_decide_eq_false_2 by lia. rewrite IH, digits_text_cons. f_equal.
  by rewrite <-append_assoc.
Qed.

Lemma plmn_decoded mcc mnc :
  List.length mcc = 3%nat → List.length mnc = 2%nat ∨ List.length mnc = 3%nat → Forall digit_ok mcc → Forall digit_ok mnc →
  decodeOPLPLMN (plmn_bytes mcc mnc) = Ok (digits_text (mcc ++ mnc)).
Proof.
  intros Hl Hm Hc Hn. assert (Hall : Forall digit_ok (mcc ++ mnc)) by by apply Forall_app.
  pose proof (TrimRightChar_free _ _ (digits_free_of_x _ Hall)) as [Ht Htx].
  assert (Hr : ∀ d, digit_ok d → 0 ≤ d < 16) by (unfold digit_ok; lia).
  destruct mcc as [|a [|b [|c [|? ?]]]]; try done.
  apply Forall_cons in Hc as [Ha [Hb [Hc _]%Forall_cons]%Forall_cons].
  destruct mnc as [|x [|y [|z [|? ?]]]]; cbn in Hm; try lia; clear Hm Hl.
  all: apply Forall_cons in Hn as [Hx [Hy Hn]%Forall_cons]; cbn [plmn_bytes]; unfold decodeOPLPLMN.
  all: rewrite bool_decide_eq_false_2 by (rewrite !len_cons, len_nil; lia).
  all: change (idx (E:=sim_error) [?p; ?q; ?r] 0) with (Ok (E:=sim_error) p); change (idx (E:=sim_error) [?p; ?q; ?r] 1) with (Ok (E:=sim_error) q);
    change (idx (E:=sim_error) [?p; ?q; ?r] 2) with (Ok (E:=sim_error) r); cbn [mbind go_bind]; cbv zeta; rewrite !nibbles_land, !nibbles_shift by auto.
  - rewrite (plmn_digits_text [a; b; c; x; y] [15]) by done. cbn [plmn_digits]. rewrite bool_decide_eq_true_2 by done. cbn [app] in Htx |- *. by rewrite append_nil, Htx.
  - rewrite (plmn_digits_text [a; b; c; x; y; z] []) by done. cbn [plmn_digits]. cbn [app] in Ht |- *. by rewrite append_nil, Ht.
Qed.

(** A record whose padding-like last octet does not make it too short: the
    number of the name is neither 0 nor 255. *)
Lemma opl_decoded r mcc mnc first last n :
  List.length mcc = 3%nat → List.length mnc = 2%nat ∨ List.length mnc = 3%nat → Forall digit_ok mcc → Forall digit_ok mnc →
  0 ≤ first < 2 ^ 16 → 0 ≤ last < 2 ^ 16 → 0 < n < 255 →
  let data := (plmn_bytes mcc mnc ++ be_bytes [first; last] ++ [n])%list in
  DecodeOPLRecord r data = Ok (Some (mkOPL r (digits_text (mcc ++ mnc)) first last n (HexUpper data))).
Proof.
  intros Hl Hm Hc Hn Hf Hla Hnn data. pose proof (plmn_decoded mcc mnc Hl Hm Hc Hn) as Hp.
  assert (Hlen : len (plmn_bytes mcc mnc) = 3).
  { destruct mcc as [|? [|? [|? [|]]]], mnc as [|? [|? [|? [|]]]]; try done; cbn in Hm; lia. }
  assert (Htr : trimSIMPadding data = data).
  { apply trim_id. right. exists (plmn_bytes mcc mnc ++ be_bytes [first; last])%list, n. split; [unfold data; by rewrite app_assoc|].
    apply not_true_is_false. rewrite padding_spec. lia. }
  assert (Hd : len data = 8) by (unfold data; rewrite !len_app, Hlen, len_be_bytes, !len_cons, len_nil; lia).
  assert (Hraw : simRawHex data = HexUpper data) by (unfold simRawHex; rewrite Htr, Hd; done).
  unfold DecodeOPLRecord. rewrite Htr, Hraw, Hd. cbv zeta. rewrite bool_decide_eq_false_2 by lia.
  assert (Hx : HexUpper data ≠ "").
  { intros E. apply (f_equal String.length) in E. unfold HexUpper in E. destruct data; [done|]. cbn in E. lia. }
  clear Hraw Htr Hd. unfold data in *. destruct (plmn_bytes mcc mnc) as [|p0 [|p1 [|p2 [|p3 l]]]]; try done.
  2: { rewrite !len_cons in Hlen. pose proof (len_nonneg l). lia. }
  change (slice (E:=sim_error) ([p0; p1; p2] ++ be_bytes [first; last] ++ [n]) 0 3) with (Ok (E:=sim_error) [p0; p1; p2]).
  cbn [mbind go_bind]. rewrite Hp. cbn [mbind go_bind].
  change (slice (E:=sim_error) ([p0; p1; p2] ++ be_bytes [first; last] ++ [n]) 3 5) with (Ok (E:=sim_error) [first / 256; first `mod` 256]).
  change (slice (E:=sim_error) ([p0; p1; p2] ++ be_bytes [first; last] ++ [n]) 5 7) with (Ok (E:=sim_error) [last / 256; last `mod` 256]).
  change (idx (E:=sim_error) ([p0; p1; p2] ++ be_bytes [first; last] ++ [n]) 7) with (Ok (E:=sim_error) n).
  cbn [mbind go_bind]. unfold be_u16.
  change (idx (E:=sim_error) [?p; ?q] 0) with (Ok (E:=sim_error) p). change (idx (E:=sim_error) [?p; ?q] 1) with (Ok (E:=sim_error) q).
  cbn [mbind go_bind PLMN opl_RawHex]. rewrite (bool_decide_eq_true_2 (HexUpper _ ≠ "")), orb_true_r by done. do 3 f_equal; zdiv.
Qed.

(** A record without a name of its own in EF_PNN, whose number is 0, is refused. *)
Lemma opl_without_name_refused r :
  DecodeOPLRecord r (plmn_bytes [4; 6; 0] [0; 1] ++ be_bytes [0; 0xFFFE] ++ [0])%list = Ok None.
Proof. reflexivity. Qed.

(** ** Service table *)

Lemma byte_services_spec b i s : byte_ok b →
  s ∈ byte_services i b ↔ ∃ bit, 0 ≤ bit < 8 ∧ s = Z.of_nat i * 8 + bit + 1 ∧ Z.testbit b bit = true.
Proof.
  intros Hb. unfold byte_services. rewrite list_elem_of_fmap. split.
  - intros (bit & -> & Hbit). apply list_elem_of_In, filter_In in Hbit as [Hin Ht]. apply in_seq in Hin.
    exists (Z.of_nat bit). split_and!; [lia|lia|done|]. apply negb_true_iff, bool_decide_eq_false in Ht.
    apply not_false_is_true. intros Hf. apply Ht. apply Z.bits_inj'. intros j Hj. rewrite Z.land_spec, Z.bits_0, Z.shiftl_spec by lia.
    destruct (decide (j = Z.of_nat bit)) as [->|]; [by rewrite Hf|]. 
    destruct (decide (j < Z.of_nat bit)); [rewrite (Z.testbit_neg_r 1) by lia; apply andb_false_r|].
    rewrite (Z.bits_above_log2 1) by (cbn; lia). apply andb_false_r.
  - intros (bit & Hbit & -> & Ht). exists (Z.to_nat bit). split; [lia|]. apply list_elem_of_In, filter_In. split; [apply in_seq; lia|].
    apply negb_true_iff, bool_decide_eq_false. intros E. apply (f_equal (λ z, Z.testbit z bit)) in E.
    rewrite Z.land_spec, Z.bits_0, Ht, Z.shiftl_spec in E by lia. replace (bit - Z.of_nat (Z.to_nat bit)) with 0 in E by lia. done.
Qed.

(** Service [s] is enabled when its bit is set: the services of the first octet
    are 1 to 8, from the lowest bit. *)
Lemma service_enabled kind data t s : bytes_ok data → DecodeSIMServiceTable kind data = Some t →
  s ∈ EnabledServices t ↔
  ∃ b, 1 ≤ s ∧ trimSIMPadding data !! Z.to_nat ((s - 1) / 8) = Some b ∧ Z.testbit b ((s - 1) `mod` 8) = true.
Proof.
  intros Hb. unfold DecodeSIMServiceTable. cbv zeta. case_bool_decide; [done|]. intros [= <-]. cbn [EnabledServices].
  pose proof (trim_bytes_ok _ Hb) as Ht. rewrite list_elem_of_In, in_concat. split.
  - intros (l & Hl%list_elem_of_In & Hs%list_elem_of_In). apply elem_of_lookup_imap in Hl as (i & b & -> & Hi).
    pose proof (Forall_lookup_1 _ _ _ _ Ht Hi) as Hbb. apply byte_services_spec in Hs as (bit & Hbit & -> & Hbt); [|done].
    exists b. split; [lia|]. replace (Z.of_nat i * 8 + bit + 1 - 1) with (bit + Z.of_nat i * 8) by lia.
    rewrite Z.div_add, Z.mod_add, Z.div_small, Z.mod_small, Z.add_0_l, Nat2Z.id by lia. done.
  - intros (b & Hs & Hi & Hbt). exists (byte_services (Z.to_nat ((s - 1) / 8)) b). pose proof (Forall_lookup_1 _ _ _ _ Ht Hi) as Hbb.
    rewrite <-!list_elem_of_In. split; [apply elem_of_lookup_imap; by eauto|]. apply byte_services_spec; [done|].
    exists ((s - 1) `mod` 8). split_and!; [zdiv|zdiv| |done]. rewrite Z2Nat.id by (apply Z.div_pos; lia). zdiv.
Qed.

(** ** Subscriber *)

(** EF_IMSI: the number of octets that follow, and the digits with the lower
    half first, after a half octet with the parity. *)
Fixpoint swap_nibbles (ns : list Z) : bytes :=
  match ns with
  | a :: b :: ns => (a + 16 * b) :: swap_nibbles ns
  | [a] => [a + 16 * 0xF]
  | [] => []
  end.

Lemma bcd_decoded ns : Forall digit_ok ns → DecodeSwappedBCD (swap_nibbles ns) = digits_text ns.
Proof.
  induction ns as [ns IH] using (induction_ltof1 _ (@List.length Z)). unfold ltof in IH. intros H.
  assert (Hd : ∀ d, digit_ok d → bcd_digit d = String (char (48 + d)) "") by (intros d Hd; unfold bcd_digit; unfold digit_ok in Hd; by rewrite bool_decide_eq_true_2 by lia).
  assert (Hl : ∀ d, digit_ok d → Z.land d 15 = d) by (intros d Hd'; unfold digit_ok in Hd'; change 15 with (Z.ones 4); rewrite Z.land_ones by lia; apply Z.mod_small; cbn; lia).
  assert (Hr : ∀ d, digit_ok d → 0 ≤ d < 16) by (unfold digit_ok; lia).
  destruct ns as [|a [|b ns]]; [done| |]; apply Forall_cons in H as [Ha H].
  - cbn [swap_nibbles DecodeSwappedBCD]. rewrite nibbles_land, nibbles_shift, Hd by auto. done.
  - apply Forall_cons in H as [Hb H]. cbn [swap_nibbles DecodeSwappedBCD]. rewrite nibbles_land, nibbles_shift, Hl, !Hd, IH by (auto; cbn; lia). done.
Qed.

Lemma MNCLength_two_three efAD n : MNCLengthFromEFAD efAD = Some n → n = 2 ∨ n = 3.
Proof. unfold MNCLengthFromEFAD. case_bool_decide; [done|]. cbv zeta. repeat case_bool_decide; naive_solver. Qed.

Lemma substring_whole n m s : (n = 0)%nat → (String.length s ≤ m)%nat → substring n m s = s.
Proof.
  intros ->. revert m. induction s as [|a s IH]; intros m Hm; [by destruct m|].
  destruct m; [cbn in Hm; lia|]. cbn in *. rewrite IH by lia. done.
Qed.

Lemma substring_skip n s m : (n ≤ String.length s)%nat → (String.length s ≤ n + m)%nat → substring n m s = substring n (String.length s - n) s.
Proof.
  revert n m. induction s as [|a s IH]; intros n m Hn Hm; [cbn in Hn; assert (n = 0%nat) as -> by lia; by destruct m|].
  destruct n as [|n].
  - rewrite !substring_whole by (cbn in *; lia). done.
  - cbn in *. apply IH; lia.
Qed.

Lemma length_substring n m s : (n + m ≤ String.length s)%nat → String.length (substring n m s) = m.
Proof.
  revert n m. induction s as [|a s IH]; intros n m H; [cbn in H; assert (n = 0%nat ∧ m = 0%nat) as [-> ->] by lia; done|].
  destruct n as [|n]; cbn in *; [destruct m; [done|cbn; rewrite IH by lia; done]|apply IH; lia].
Qed.

(** The home network is the first three digits and the next two or three: as
    many as EF_AD says, or, without it, as the list of countries says. *)
Lemma home_plmn imsi efAD mcc mnc n source :
  HomeMCCMNCFromIMSIAndEFAD imsi efAD = Ok (mcc, mnc, n, source) →
  mcc = substring 0 3 (TrimSpace imsi) ∧ mnc = substring 3 (Z.to_nat n) (TrimSpace imsi) ∧ (n = 2 ∨ n = 3) ∧
  (Z.of_nat (String.length mnc) = n) ∧
  match source with
  | IMSI_EFAD => 4 <= len efAD ∧ n = nth 3 efAD 0
  | IMSIHeuristic => MNCLengthFromEFAD efAD = None ∧ (n = 3 ↔ mcc ∈ three_digit_mnc ∧ String.length (TrimSpace imsi) ≠ 5%nat)
  end.
Proof.
  unfold HomeMCCMNCFromIMSIAndEFAD, parseMCCMNCFromIMSI. cbv zeta. rewrite TrimSpace_idem. set (t := TrimSpace imsi).
  destruct (String.length t <? 5)%nat eqn:E5; [done|]. apply Nat.ltb_ge in E5.
  destruct (MNCLengthFromEFAD efAD) as [k|] eqn:Ek.
  { case_bool_decide; [done|]. intros [= <- <- <- <-]. pose proof (MNCLength_two_three _ _ Ek) as Hk.
    unfold MNCLengthFromEFAD in Ek. case_bool_decide; [done|]. cbv zeta in Ek. destruct (_ || _) in Ek; [|done]. injection Ek as <-.
    rewrite length_substring by lia. split_and!; first [done|lia]. }
  set (three := bool_decide (substring 0 3 t ∈ three_digit_mnc)).
  assert (Hne : substring 0 3 t ≠ "").
  { intros E. apply (f_equal String.length) in E. rewrite length_substring in E by lia. done. }
  destruct three eqn:E3; unfold three in E3; [apply bool_decide_eq_true in E3|apply bool_decide_eq_false in E3]; cbn [Nat.add].
  - destruct (String.length t <? 6)%nat eqn:E6; [apply Nat.ltb_lt in E6|apply Nat.ltb_ge in E6].
    + unfold from_. replace (String.length t - 3)%nat with 2%nat by lia. destruct (_ || _); [done|]. intros [= <- <- <- <-].
      rewrite length_substring by lia. split_and!; try done; [lia|]. split; [done|]. intros [_ H]. lia.
    + destruct (_ || _); [done|]. intros [= <- <- <- <-].
      rewrite length_substring by lia. split_and!; try done; [lia|]. split; [split; [done|lia]|done].
  - destruct (String.length t <? 5)%nat eqn:E6; [apply Nat.ltb_lt in E6; lia|]. destruct (_ || _); [done|]. intros [= <- <- <- <-].
    rewrite length_substring by lia. split_and!; try done; [lia|]. split; [done|]. by intros [H _].
Qed.

(** ** The decoders together *)

(** C21: The decoders of the files with the network names, the operator list, the
    service table and the provider's name never panic, whatever the card
    answers.  A record of network names decodes to its names and its padding is
    ignored, when its last octet is not padding itself; a name in the GSM alphabet
    or in UCS2 that does not end like padding decodes to what was encoded
    (otherwise it is cut: [name_ending_in_zero_lost]); a record of the operator
    list with a name number from 1 to 254 decodes to its network, areas and number
    (the number 0 is refused: [opl_without_name_refused]); a service is reported
    exactly when its bit is set.  The home network is the first three digits of the
    IMSI and the next two or three: the fourth octet of EF_AD says how many, and
    when EF_AD does not say, three exactly for the listed countries, unless the
    IMSI has only five digits. *)
Theorem sim_files_decoded gsm7_decode :
  (∀ r data, bytes_ok data →
    safe (DecodePNNRecord gsm7_decode r data) ∧ safe (DecodeOPLRecord r data) ∧ safe (DecodeEFSPN gsm7_decode data)) ∧
  (∀ r l p, Forall element_ok l → l ≠ [] → trimmed (pnn_bytes l) → Forall (λ b, padding b = true) p →
    DecodePNNRecord gsm7_decode r (pnn_bytes l ++ p) =
    Ok (Some (mkPNN r (name_of gsm7_decode tag_full l "") (name_of gsm7_decode tag_short l "") (HexUpper (pnn_bytes l))))) ∧
  (∀ s n, Forall septet_ok s → s ≠ [] → 8 * Z.of_nat n - 7 < 7 * len s ≤ 8 * Z.of_nat n →
    let value := (0x80 + (8 * Z.of_nat n - 7 * len s)) :: le_bytes n (septets_val s) in
    trimmed value →
    decodePNNNetworkName gsm7_decode value = (decoded ← decodeSPNGSM gsm7_decode s; clean_name decoded)) ∧
  (∀ rs, Forall (λ r, scalar r = true) rs → rs ≠ [] → trimmed (be_bytes (utf16_encode rs)) →
    decodePNNNetworkName gsm7_decode (0x90 :: be_bytes (utf16_encode rs)) = Ok (string_of (utf8_encode rs))) ∧
  (∀ r mcc mnc first last n,
    List.length mcc = 3%nat → List.length mnc = 2%nat ∨ List.length mnc = 3%nat → Forall digit_ok mcc → Forall digit_ok mnc →
    0 ≤ first < 2 ^ 16 → 0 ≤ last < 2 ^ 16 → 0 < n < 255 →
    let data := (plmn_bytes mcc mnc ++ be_bytes [first; last] ++ [n])%list in
    DecodeOPLRecord r data = Ok (Some (mkOPL r (digits_text (mcc ++ mnc)) first last n (HexUpper data)))) ∧
  (∀ kind data t s, bytes_ok data → DecodeSIMServiceTable kind data = Some t →
    s ∈ EnabledServices t ↔
    ∃ b, 1 ≤ s ∧ trimSIMPadding data !! Z.to_nat ((s - 1) / 8) = Some b ∧ Z.testbit b ((s - 1) `mod` 8) = true) ∧
  (∀ imsi efAD mcc mnc n source, HomeMCCMNCFromIMSIAndEFAD imsi efAD = Ok (mcc, mnc, n, source) →
    mcc = substring 0 3 (TrimSpace imsi) ∧ mnc = substring 3 (Z.to_nat n) (TrimSpace imsi) ∧ (n = 2 ∨ n = 3) ∧
    Z.of_nat (String.length mnc) = n ∧
    match source with
    | IMSI_EFAD => 4 ≤ len efAD ∧ n = nth 3 efAD 0
    | IMSIHeuristic => MNCLengthFromEFAD efAD = None ∧ (n = 3 ↔ mcc ∈ three_digit_mnc ∧ String.length (TrimSpace imsi) ≠ 5%nat)
    end).
Proof.
  split_and!.
  - intros. split_and!; [by apply DecodePNNRecord_safe|apply DecodeOPLRecord_safe|by apply DecodeEFSPN_safe].
  - intros. by apply DecodePNNRecord_elements.
  - intros. by apply gsm_network_name.
  - intros. by apply ucs2_network_name.
  - intros. by apply opl_decoded.
  - intros. by eapply service_enabled.
  - intros * H. by apply home_plmn.
Qed.

(** The names of China Mobile in UCS2 and of CMCC in the GSM alphabet, and a
    padded record of them. *)
Lemma sim_files_decoded_witness :
  let short := (0x84 :: le_bytes 4 (septets_val [67; 77; 67; 67])) in
  let l := [(tag_full, 0x90 :: be_bytes (utf16_encode [0x4E2D; 0x56FD])); (tag_short, short)] in
  DecodePNNRecord Some 1 (pnn_bytes l ++ [0xFF; 0xFF]) =
    Ok (Some (mkPNN 1 (string_of (utf8_encode [0x4E2D; 0x56FD])) "CMCC" (HexUpper (pnn_bytes l)))) ∧
  decodePNNNetworkName Some (0x90 :: be_bytes (utf16_encode [0x4E2D; 0x56FD])) = Ok (string_of (utf8_encode [0x4E2D; 0x56FD])) ∧
  DecodeOPLRecord 2 (plmn_bytes [4; 6; 0] [0; 1] ++ be_bytes [1; 0xFFFE] ++ [3]) =
    Ok (Some (mkOPL 2 "46001" 1 0xFFFE 3 "64F0100001FFFE03")) ∧
  HomeMCCMNCFromIMSIAndEFAD "310260123456789" [0; 0; 0; 3] = Ok ("310", "260", 3, IMSI_EFAD) ∧ 3 = nth 3 [0; 0; 0; 3] 0.
Proof.
  intros short l. destruct (sim_files_decoded Some) as (_ & Hp & Hg & Hu & Ho & _ & Hh). split_and!.
  - rewrite (Hp 1 l [0xFF; 0xFF]); [reflexivity|..].
    + assert (Hb : ∀ b, forallb (λ x, (0 <=? x) && (x <? 256)) b = true → bytes_ok b).
      { intros b Hb. apply Forall_forall. intros x Hx%list_elem_of_In. rewrite forallb_forall in Hb. specialize (Hb x Hx). red. lia. }
      apply Forall_cons. split; [split_and!; [by left|done|reflexivity|by apply Hb]|].
      apply Forall_singleton. split_and!; [by right|done|reflexivity|by apply Hb].
    + done.
    + right. exists (removelast (pnn_bytes l)), 8. by split; vm_compute.
    + by repeat constructor.
  - apply Hu; [by repeat constructor|done|]. right. exists [0x4E; 0x2D; 0x56], 0xFD. done.
  - rewrite (Ho 2 [4; 6; 0] [0; 1] 1 0xFFFE 3); [reflexivity|done|by left|..]; try (repeat constructor; unfold digit_ok; lia); lia.
  - vm_compute. reflexivity.
  - by destruct (Hh "310260123456789" [0; 0; 0; 3] "310" "260" 3 IMSI_EFAD) as (_ & _ & _ & _ & _ & Hn); [vm_compute; reflexivity|].
Defined.
