(* ===== verification/AtParse.v ===== *)
(** * The answers of a modem to AT commands (internal/modem)

    The parsers of at_parse.go, the unsolicited codes of urc_format.go, the
    names of operators of operator_name.go and the redaction of at_redaction.go.
    Case tables beyond ASCII are parameters, and so is the alphabet of a data
    coding scheme, which the trimming of PDUs needs. *)

From Stdlib Require Import Ascii String.
From S2P Require Import Prelude GoText SmsCodec SimIdentity.
From stdpp Require Import strings.

#[local] Open Scope string_scope.
#[local] Open Scope Z_scope.




(** ** Lines and fields *)

Definition splitLines (resp : string) : list string := TrimSpace <$> split_char (ascii_of_nat 10) (remove_char (ascii_of_nat 13) resp).

Definition findLineWithPrefix (resp prefix : string) : option string :=
  List.find (λ line, HasPrefix line prefix) (splitLines resp).

(** [strings.IndexByte]: what stands before and after the character. *)
Fixpoint cut_char (c : ascii) (s : string) : option (string * string) :=
  match s with
  | EmptyString => None
  | String a s =>
      if Ascii.eqb a c then Some (EmptyString, s)
      else match cut_char c s with Some (f, r) => Some (String a f, r) | None => None end
  end.

Definition extractFirstQuoted (resp : string) : option string :=
  match cut_char quote resp with
  | Some (_, rest) => match cut_char quote rest with Some (f, _) => Some f | None => None end
  | None => None
  end.

(** A turn takes two marks: the length of the text is enough fuel. *)
Fixpoint quoted_fields (fuel : nat) (s : string) : list string :=
  match fuel with
  | O => []
  | S fuel =>
      match cut_char quote s with
      | None => []
      | Some (_, s) =>
          match cut_char quote s with
          | None => []
          | Some (f, s) => f :: quoted_fields fuel s
          end
      end
  end.
Definition extractQuotedFields (resp : string) : list string := quoted_fields (String.length resp) resp.

(** [fmt.Sscanf] with the verb %d on a text that was trimmed: a sign and decimal
    digits, which may be followed by anything; [None] is an error. *)
Fixpoint leading_digits (s : string) : list ascii :=
  match s with
  | String a s => if is_digit a then a :: leading_digits s else []
  | EmptyString => []
  end.

Definition Sscanf_d (s : string) : option Z :=
  let '(negative, rest) :=
    match s with
    | String a r => if Ascii.eqb a "-"%char then (true, r) else if Ascii.eqb a "+"%char then (false, r) else (false, s)
    | EmptyString => (false, s)
    end in
  let digits := leading_digits rest in
  if bool_decide (digits = []) then None
  else
    n ← decimal digits 0;
    let n := if negative : bool then - n else n in
    if bool_decide (- 2 ^ 63 <= n < 2 ^ 63) then Some n else None.

(** [strconv.ParseUint(s, 10, 32)] *)
Definition ParseUint32 (s : string) : option Z :=
  if bool_decide (s = "") then None
  else
    n ← decimal (list_ascii_of_string s) 0;
    if bool_decide (n < 2 ^ 32) then Some n else None.

Definition TrimPrefix (s p : string) : string := default s (cut_prefix p s).
Definition TrimSuffix (s p : string) : string := rev_string (TrimPrefix (rev_string s) (rev_string p)).

(** [strings.SplitN] at a character. *)
Fixpoint split_n (n : nat) (c : ascii) (s : string) : list string :=
  match n with
  | O => []
  | 1%nat => [s]
  | S n => match cut_char c s with Some (f, r) => f :: split_n n c r | None => [s] end
  end.

(** [strings.Split] at a separator that is not empty. *)
Fixpoint cut_string (sep s : string) : option (string * string) :=
  match cut_prefix sep s with
  | Some r => Some (EmptyString, r)
  | None =>
      match s with
      | EmptyString => None
      | String a s => match cut_string sep s with Some (f, r) => Some (String a f, r) | None => None end
      end
  end.
Fixpoint split_loop (fuel : nat) (sep s : string) : list string :=
  match fuel with
  | O => [s]
  | S fuel => match cut_string sep s with Some (f, r) => f :: split_loop fuel sep r | None => [s] end
  end.
Definition split_string (sep s : string) : list string := split_loop (String.length s) sep s.

(** [strings.ReplaceAll] of a text that is not empty by nothing. *)
Definition remove_all (old s : string) : string := String.concat "" (split_string old s).

Definition digits_only (s : string) : bool := forallb is_digit (list_ascii_of_string s).
Definition part (parts : list string) (i : nat) : string := nth i parts "".
Definition comma : ascii := ","%char.

(** ** Identity *)

Definition parseIMEI (resp : string) : string :=
  default "" (List.find (λ line, (String.length line =? 15)%nat && digits_only line) (splitLines resp)).

Definition parseFirmware (resp : string) : string :=
  default "" (List.find (λ line, negb (bool_decide (line = "")) && negb (bool_decide (line = "OK")) && negb (HasPrefix line "+"))
    (splitLines resp)).

Definition imsi_of (line : string) : string :=
  let s := TrimSpace line in if HasPrefix s "+CIMI:" then TrimSpace (TrimPrefix s "+CIMI:") else s.

Definition parseIMSI (resp : string) : string :=
  default "" (List.find (λ s, (14 <=? String.length s)%nat && (String.length s <=? 15)%nat && digits_only s)
    (imsi_of <$> splitLines resp)).

Definition parseQCCID (resp : string) : string :=
  match findLineWithPrefix resp "+QCCID:" with
  | None => ""
  | Some line => match cut_char ":"%char line with Some (_, r) => CanonicalICCID r | None => "" end
  end.

Record ATIdentity := mkIdentity { IMEI : string; IMSI : string; ICCID : string }.

Definition parseATIdentity (resp : string) : ATIdentity :=
  let imei := parseIMEI resp in
  let imsiSrc := if bool_decide (imei ≠ "") then remove_all imei resp else resp in
  mkIdentity imei (parseIMSI imsiSrc) (parseQCCID resp).

Definition hasSIM (id : ATIdentity) : bool :=
  bool_decide (TrimSpace (IMSI id) ≠ "") || bool_decide (TrimSpace (ICCID id) ≠ "").
Definition hasCompleteSIM (id : ATIdentity) : bool :=
  bool_decide (TrimSpace (IMSI id) ≠ "") && bool_decide (TrimSpace (ICCID id) ≠ "").

Definition parseQSIMSTATInserted (resp : string) : option bool :=
  match findLineWithPrefix resp "+QSIMSTAT:" with
  | None => None
  | Some line =>
      let parts := split_char comma line in
      if (List.length parts <? 2)%nat then None
      else inserted ← Sscanf_d (TrimSpace (part parts 1)); Some (bool_decide (inserted = 1))
  end.

Section Case.
Context (unicode_upper unicode_lower : string → string).

Definition parseCPINInserted (resp : string) : option bool :=
  let s := ToUpper unicode_upper resp in
  if Contains s "READY" then Some true
  else if Contains s "NOT INSERTED" then Some false
  else None.
End Case.

(** ** Operators and registration *)

Definition servingOperatorNameByPLMN : list (string * string) :=
  [ ("46000", "中国移动"); ("46002", "中国移动"); ("46004", "中国移动"); ("46007", "中国移动");
    ("46008", "中国移动"); ("46013", "中国移动"); ("46001", "中国联通"); ("46006", "中国联通");
    ("46009", "中国联通"); ("46003", "中国电信"); ("46005", "中国电信"); ("46011", "中国电信");
    ("46015", "中国广电"); ("45400", "CSL"); ("45402", "CSL"); ("45410", "CSL");
    ("45418", "CSL"); ("45403", "电讯盈科"); ("45416", "电讯盈科"); ("45419", "电讯盈科");
    ("45404", "3 HK"); ("45406", "数码通"); ("45415", "数码通"); ("45407", "中国移动香港");
    ("45412", "中国联通香港"); ("46601", "远传电信"); ("46602", "远传电信"); ("46605", "亚太电信");
    ("46689", "台湾之星"); ("46692", "中华电信"); ("46693", "台湾大哥大"); ("46697", "台湾大哥大");
    ("46699", "台湾大哥大") ].

Definition normalizeOperatorCode (code : string) : string := trim_quotes (TrimSpace code).

Definition ServingRegistrationCurrent (regStatus : Z) : bool := bool_decide (regStatus = 1) || bool_decide (regStatus = 5).

Definition LookupServingOperatorNameFromPLMN (plmn : string) : option string :=
  let plmn := normalizeOperatorCode plmn in
  if bool_decide (plmn = "") then None
  else snd <$> List.find (λ e, bool_decide (e.1 = plmn)) servingOperatorNameByPLMN.

Definition ResolveServingOperatorNameFromPLMN (plmn : string) : string :=
  let plmn := normalizeOperatorCode plmn in
  if bool_decide (plmn = "") then ""
  else default plmn (LookupServingOperatorNameFromPLMN plmn).

Definition parseCOPSOperator (resp : string) : string :=
  match findLineWithPrefix resp "+COPS:" with
  | None => ""
  | Some line => match extractQuotedFields line with [] => "" | f :: _ => ResolveServingOperatorNameFromPLMN f end
  end.

Definition parseCOPSAct (resp : string) : option string :=
  let line := default (TrimSpace resp) (findLineWithPrefix resp "+COPS:") in
  actStr ← after_last_comma line;
  act ← Sscanf_d (TrimSpace actStr);
  if bool_decide (act = 0) then Some "GSM"
  else if bool_decide (act = 2) then Some "WCDMA"
  else if bool_decide (act = 7) then Some "LTE"
  else if bool_decide (act = 10) then Some "NR"
  else None.

Definition parseCREG (resp : string) : option (Z * string * string) :=
  line ← findLineWithPrefix resp "+CREG:";
  let parts := split_char comma line in
  if (List.length parts <? 2)%nat then None
  else
    regStatus ← Sscanf_d (TrimSpace (part parts 1));
    if (4 <=? List.length parts)%nat
    then Some (regStatus, trim_quotes (TrimSpace (part parts 2)), trim_quotes (TrimSpace (part parts 3)))
    else Some (regStatus, "", "").

Definition getRegStatusText (status : Z) : string :=
  if bool_decide (status = 0) then "未注册"
  else if bool_decide (status = 1) then "已注册(本地)"
  else if bool_decide (status = 2) then "搜索中"
  else if bool_decide (status = 3) then "注册被拒"
  else if bool_decide (status = 4) then "未知"
  else if bool_decide (status = 5) then "已注册(漫游)"
  else "未知".

Record OperatorScanEntry := mkScan { Status : Z; LongName : string; ShortName : string; sc_PLMN : string; sc_Act : Z }.
#[global] Instance scan_eq_dec : EqDecision OperatorScanEntry.
Proof. solve_decision. Defined.

Definition scan_entry (p : string) : option OperatorScanEntry :=
  let p := TrimSuffix (TrimPrefix p "(") ")" in
  let fields := split_char comma p in
  if (4 <=? List.length fields)%nat then
    stat ← Atoi (part fields 0);
    let plmn := trim_quotes (part fields 3) in
    let act := if (5 <=? List.length fields)%nat then AtoiValue (part fields 4) else 0 in
    if bool_decide (plmn = "") then None
    else Some (mkScan stat (trim_quotes (part fields 1)) (trim_quotes (part fields 2)) plmn act)
  else None.

Definition parseCOPSScan (resp : string) : list OperatorScanEntry :=
  match findLineWithPrefix resp "+COPS: " with
  | None => []
  | Some line => omap scan_entry (split_string "),(" (substring 7 (String.length line - 7) line))
  end.

Record OperatorSelectionState := mkSelection { Mode : Z; Format : Z; sel_PLMN : string; sel_Act : Z; HasAct : bool }.
#[global] Instance selection_eq_dec : EqDecision OperatorSelectionState.
Proof. solve_decision. Defined.

Definition parseCOPSSelection (resp : string) : option OperatorSelectionState :=
  line ← findLineWithPrefix resp "+COPS: ";
  let fields := split_char comma (substring 7 (String.length line - 7) line) in
  mode ← Atoi (part fields 0);
  let '(format, plmn) :=
    if (3 <=? List.length fields)%nat then (default 0 (Atoi (part fields 1)), trim_quotes (part fields 2)) else (0, "") in
  match (if (4 <=? List.length fields)%nat then Atoi (part fields 3) else None) with
  | Some act => Some (mkSelection mode format plmn act true)
  | None => Some (mkSelection mode format plmn 0 false)
  end.

(** ** Signal and cell *)

Definition parseCSQ (resp : string) : option (Z * Z) :=
  line ← findLineWithPrefix resp "+CSQ:";
  let parts := split_char comma (TrimSpace (TrimPrefix line "+CSQ:")) in
  if (List.length parts <? 1)%nat then None
  else
    rssi ← Sscanf_d (TrimSpace (part parts 0));
    Some (rssi, if bool_decide (0 <= rssi) && bool_decide (rssi <= 31) then -113 + rssi * 2 else -999).

Record ServingCellLTEInfo := mkCell { RSRP : Z; RSRQ : Z; SINR : Z; Duplex : string; Band : string; Channel : Z }.

Definition parseServingCellLTEInfo (resp : string) : option ServingCellLTEInfo :=
  line ← findLineWithPrefix resp "+QENG:";
  if negb (Contains line "LTE") then None
  else
    let parts := split_char comma line in
    if (List.length parts <? 10)%nat then None
    else
      let duplex := trim_quotes (TrimSpace (part parts 3)) in
      let channel := default 0 (ParseUint32 (TrimSpace (part parts 8))) in
      let band := TrimSpace (part parts 9) in
      let band := if bool_decide (band ≠ "") then ("LTE BAND " ++ trim_quotes band)%string else "" in
      parsed ← mapM (λ p, Sscanf_d (TrimSpace p)) (drop (List.length parts - 5) parts);
      match parsed with
      | [rsrp; rsrq; _; sinr; _] =>
          if bool_decide (rsrp < -140) || bool_decide (rsrp > -40) then None
          else if bool_decide (rsrq < -30) || bool_decide (rsrq > 0) then None
          else Some (mkCell rsrp rsrq sinr duplex band channel)
      | _ => None
      end.

Definition parseAPN (resp : string) : string :=
  default "" (List.hd_error (omap (λ line,
    if HasPrefix line "+CGDCONT:"
    then match extractQuotedFields line with _ :: apn :: _ => Some apn | _ => None end
    else None) (splitLines resp))).

Definition parseQIMS (resp : string) : option Z :=
  line ← findLineWithPrefix resp "+QIMS:";
  '(_, r) ← cut_char ":"%char line;
  Sscanf_d (TrimSpace r).

(** The channel is the text after the last comma, when it is not empty. *)
Definition parseQNWInfoRadio (resp : string) : string * string * string * Z :=
  match findLineWithPrefix resp "+QNWINFO:" with
  | None => ("", "", "", 0)
  | Some line =>
      let fields := extractQuotedFields line in
      match fields with
      | [] => ("", "", "", 0)
      | f :: _ =>
          let mode := TrimSpace f in
          let '(mode, duplex) :=
            if bool_decide (mode = "FDD LTE") then ("LTE", "FDD")
            else if bool_decide (mode = "TDD LTE") then ("LTE", "TDD") else (mode, "") in
          let band := if (3 <=? List.length fields)%nat then TrimSpace (part fields 2) else "" in
          let channel :=
            match after_last_comma line with
            | Some v => if bool_decide (v ≠ "") then default 0 (ParseUint32 (TrimSpace v)) else 0
            | None => 0
            end in
          (mode, duplex, band, channel)
      end
  end.

Definition parseQNWInfoModeAndDuplex (resp : string) : string * string :=
  let '(mode, duplex, _, _) := parseQNWInfoRadio resp in (mode, duplex).

Definition parseQNWINFO (resp : string) : string :=
  let '(mode, duplex) := parseQNWInfoModeAndDuplex resp in
  if bool_decide (mode = "") then ""
  else if bool_decide (duplex ≠ "") then (duplex ++ " " ++ mode)%string else mode.

(** ** Messages *)

Definition parseURCAfterColon (line : string) : string :=
  match cut_char ":"%char line with Some (_, r) => TrimSpace r | None => "" end.

Definition parseCommaFields (s : string) : list string :=
  if bool_decide (s = "") then [] else (λ p, trim_quotes (TrimSpace p)) <$> split_char comma s.

(** The line after one with the prefix, unless it is empty or OK. *)
Definition content (next : string) : option string :=
  let next := TrimSpace next in
  if bool_decide (next ≠ "") && bool_decide (next ≠ "OK") then Some next else None.

Fixpoint next_line_after (prefix : string) (lines : list string) : option string :=
  match lines with
  | [] => None
  | l :: rest =>
      if HasPrefix l prefix then match rest with next :: _ => content next | [] => None end
      else next_line_after prefix rest
  end.
Definition extractNextLineAfterPrefix (resp prefix : string) : option string := next_line_after prefix (splitLines resp).

Fixpoint all_next_lines (prefix : string) (lines : list string) : list string :=
  match lines with
  | [] => []
  | l :: rest =>
      if HasPrefix l prefix then
        match rest with
        | next :: rest => option_list (content next) ++ all_next_lines prefix rest
        | [] => []
        end
      else all_next_lines prefix rest
  end.
Definition extractAllNextLinesAfterPrefix (resp prefix : string) : list string := all_next_lines prefix (splitLines resp).

Record SMSPDURecord := mkRecord { Index : Z; PDU : string }.
#[global] Instance record_eq_dec : EqDecision SMSPDURecord.
Proof. solve_decision. Defined.

Section Messages.
Context (Alphabet : Z → option alphabet).

Fixpoint pdu_after (prefix : string) (lines : list string) : go codec_error (option string) :=
  match lines with
  | [] => Ok None
  | l :: rest =>
      if HasPrefix l prefix then
        match rest with
        | [] => Ok None
        | next :: _ =>
            match content next with
            | None => Ok None
            | Some next => pdu ← TrimFullPDUHexByATHeader Alphabet next l; Ok (Some pdu.1)
            end
        end
      else pdu_after prefix rest
  end.
Definition extractSMSPDUAfterPrefix (resp prefix : string) : go codec_error (option string) := pdu_after prefix (splitLines resp).

(** The header of a message, and the line after it. *)
Definition sms_record (header next : string) : go codec_error (list SMSPDURecord) :=
  match content next with
  | None => Ok []
  | Some next =>
      match parseCommaFields (parseURCAfterColon header) with
      | [] => Ok []
      | f :: _ =>
          match Atoi (TrimSpace f) with
          | Some index => pdu ← TrimFullPDUHexByATHeader Alphabet next header; Ok [mkRecord index pdu.1]
          | None => Ok []
          end
      end
  end.

Fixpoint sms_records (prefix : string) (lines : list string) : go codec_error (list SMSPDURecord) :=
  match lines with
  | [] => Ok []
  | l :: rest =>
      if HasPrefix l prefix then
        match rest with
        | next :: rest => out ← sms_record l next; more ← sms_records prefix rest; Ok (out ++ more)%list
        | [] => Ok []
        end
      else sms_records prefix rest
  end.
Definition extractSMSPDURecordsAfterPrefix (resp prefix : string) : go codec_error (list SMSPDURecord) :=
  sms_records prefix (splitLines resp).

Definition extractAllSMSPDUsAfterPrefix (resp prefix : string) : go codec_error (list string) :=
  records ← extractSMSPDURecordsAfterPrefix resp prefix; Ok (List.map PDU records).
End Messages.

(** ** Numbers *)

Definition parseCSCA (resp : string) : string :=
  default "" (line ← findLineWithPrefix resp "+CSCA:"; v ← extractFirstQuoted line; Some (TrimSpace v)).

(** [strings.EqualFold] with a text of ASCII letters other than k and s. *)
Definition equal_fold (s t : string) : bool :=
  bool_decide (ascii_lower <$> list_ascii_of_string s = ascii_lower <$> list_ascii_of_string t).

Section Numbers.
Context (unicode_upper unicode_lower : string → string).

Definition canonicalPhoneCandidate (v : string) : string :=
  let s := TrimSpace v in
  if bool_decide (s = "") then ""
  else
    let upper := ToUpper unicode_upper s in
    if bool_decide (upper = "FFFFFFFF") || bool_decide (upper = "00000000000") then ""
    else if equal_fold s "Own Number" then ""
    else
      let s := TrimSpace (TrimPrefix (ToLower unicode_lower s) "tel:") in
      let s := if HasPrefix (ToLower unicode_lower v) "tel:" then TrimSpace (substring 4 (String.length v - 4) v) else s in
      let s := remove_char ")"%char (remove_char "("%char (remove_char "-"%char (remove_char " "%char s))) in
      if bool_decide (s = "") then ""
      else
        let digits := TrimPrefix s "+" in
        if (String.length digits <? 6)%nat then ""
        else if digits_only digits then s else "".

Definition parseCNUM (resp : string) : string :=
  default "" (List.find (λ c, negb (bool_decide (c = "")))
    (canonicalPhoneCandidate <$> List.concat (extractQuotedFields <$> List.filter (λ line, HasPrefix line "+CNUM:") (splitLines resp)))).
End Numbers.

(** [for i, r := range smsc]: a plus sign may come first. *)
Definition validSMSCNumber (smsc : string) : bool :=
  if bool_decide (smsc = "") then false
  else digits_only (TrimPrefix smsc "+") && negb (bool_decide (smsc = "+")).

(** ** Card and device *)

Definition parseUSBNet (resp : string) : option Z :=
  line ← findLineWithPrefix resp "+QCFG:";
  if negb (Contains line (String quote ("usbnet" ++ String quote ""))%string) then None
  else
    let parts := split_char comma line in
    if (List.length parts <? 2)%nat then None else Sscanf_d (TrimSpace (part parts 1)).

Definition parseCCHO (resp : string) : option Z :=
  line ← findLineWithPrefix resp "+CCHO:";
  let parts := split_char ":"%char line in
  if (List.length parts <? 2)%nat then None else Sscanf_d (TrimSpace (part parts 1)).

Definition parseCGLA (resp : string) : option string := line ← findLineWithPrefix resp "+CGLA:"; extractFirstQuoted line.
Definition parseCSIM (resp : string) : option string := line ← findLineWithPrefix resp "+CSIM:"; extractFirstQuoted line.

Definition ParseCRSM (resp : string) : option (Z * Z * string) :=
  line ← findLineWithPrefix resp "+CRSM:";
  let parts := split_n 3 comma (TrimSpace (TrimPrefix line "+CRSM:")) in
  if (List.length parts <? 2)%nat then None
  else
    let data := if (List.length parts =? 3)%nat then trim_quotes (TrimSpace (part parts 2)) else "" in
    Some (default 0 (Sscanf_d (TrimSpace (part parts 0))), default 0 (Sscanf_d (TrimSpace (part parts 1))), data).

(** ** Unsolicited codes *)

Inductive urcLogLevel := urcLogDebug | urcLogInfo | urcLogWarn.
Inductive any := AString (s : string) | AInt (n : Z).
Record urcFormatResult := mkURC {
  Level : urcLogLevel; Key : string; Msg : string; Fields : list (string * any); CMTIIndex : string; CMTIStorage : string }.

(** [strings.IndexAny] of a space or a comma: what stands before it. *)
Fixpoint before_any (s : string) : option string :=
  match s with
  | EmptyString => None
  | String a s =>
      if Ascii.eqb a " "%char || Ascii.eqb a comma then Some ""
      else match before_any s with Some f => Some (String a f) | None => None end
  end.

(** [s[:i]] where [i] must be positive. *)
Definition positive_part (o : option string) : option string :=
  match o with Some f => if bool_decide (f = "") then None else Some f | None => None end.

Definition bare_urc_keys : list string := ["NO CARRIER"; "NO ANSWER"; "SMS Ready"; "Call Ready"; "NORMAL POWER DOWN"].

Definition urcKey (line : string) : string :=
  let s := TrimSpace line in
  if bool_decide (s = "") then ""
  else if HasPrefix s "+" || HasPrefix s "^" || HasPrefix s "$" then
    match positive_part (fst <$> cut_char ":"%char s) with
    | Some k => k
    | None => default s (positive_part (before_any s))
    end
  else if bool_decide (s ∈ bare_urc_keys) then s
  else default s (positive_part (fst <$> cut_char " "%char s)).

Definition parseCMTI (line : string) : option (string * string) :=
  let s := TrimSpace line in
  if negb (HasPrefix s "+CMTI:") then None
  else
    let parts := split_char comma (TrimSpace (TrimPrefix s "+CMTI:")) in
    if (List.length parts <? 2)%nat then None
    else
      let storage := trim_quotes (TrimSpace (part parts 0)) in
      let index := TrimSpace (part parts 1) in
      if bool_decide (storage = "") || bool_decide (index = "") then None else Some (storage, index).

Definition parseInt (s : string) : option Z := Sscanf_d (TrimSpace s).

(** [strings.FieldsFunc] at line ends and bars, with the empty fields that it
    leaves out. *)
Definition response_lines (response : string) : list string :=
  List.concat (split_char "|"%char <$> split_char (ascii_of_nat 10) response).

Section URC.
Context (unicode_upper : string → string).

Definition hasADBAuthResponse (response : string) : bool :=
  Contains (ToUpper unicode_upper response) "QADBKEY" ||
  existsb (λ line, let line := TrimSpace line in (String.length line =? 8)%nat && digits_only line) (response_lines response).

Definition isADBAuthCommand (command : string) : bool := HasPrefix (ToUpper unicode_upper (TrimSpace command)) "AT+QADBKEY".

Definition logATCommand (command : string) : string :=
  if isADBAuthCommand command then "AT+QADBKEY [redacted]" else command.

Definition logATResponse (command response : string) : string :=
  if isADBAuthCommand command || hasADBAuthResponse response then "[ADB authorization redacted]" else response.

(** The number of the second field, -1 when there is none. *)
Definition second_number (fields : list string) : Z :=
  if (2 <=? List.length fields)%nat then default (-1) (parseInt (part fields 1)) else -1.

Definition event_keys : list string :=
  ["RING"; "RDY"; "SMS Ready"; "Call Ready"; "NORMAL POWER DOWN"; "NO CARRIER"; "BUSY"; "NO ANSWER"].

Definition formatURC (line : string) : urcFormatResult :=
  let s := TrimSpace line in
  if hasADBAuthResponse s then mkURC urcLogDebug "QADBKEY" "URC: ADB authorization [redacted]" [] "" ""
  else if bool_decide (s = "") then mkURC urcLogDebug "" "URC" [] "" ""
  else
    let key := urcKey s in
    let info msg fields := mkURC urcLogInfo key msg (("type", AString key) :: fields) "" "" in
    let rest := parseURCAfterColon s in
    let fields := parseCommaFields rest in
    let n := List.length fields in
    if bool_decide (key = "+CMTI") then
      match parseCMTI s with
      | Some (st, idx) =>
          mkURC urcLogInfo key "URC: 新短信通知" [("type", AString key); ("storage", AString st); ("index", AString idx)] idx st
      | None => info "URC: 新短信通知" [("raw", AString s)]
      end
    else if bool_decide (key ∈ ["+CREG"; "+CGREG"; "+CEREG"]) then
      let stat := second_number fields in
      info "URC: 注册状态变更"
        ([("domain", AString (TrimPrefix key "+")); ("stat", AInt stat)] ++
         (if bool_decide (0 <= stat) && bool_decide (key = "+CREG") then [("stat_text", AString (getRegStatusText stat))] else []) ++
         (if (4 <=? n)%nat then [("lac", AString (part fields 2)); ("cell_id", AString (part fields 3))] else []) ++
         (if (5 <=? n)%nat then [("act", AString (part fields 4))] else []))%list
    else if bool_decide (key = "+CPIN") then info "URC: SIM 状态" [("state", AString (trim_quotes (TrimSpace rest)))]
    else if bool_decide (key = "+QSIMSTAT") then info "URC: SIM 插拔" [("inserted", AInt (second_number fields))]
    else if bool_decide (key ∈ ["+QIURC"; "+QIND"]) then
      let name := part (extractQuotedFields rest) 0 in
      info "URC: Quectel 事件" ((if bool_decide (name ≠ "") then [("event", AString name)] else []) ++ [("raw", AString s)])%list
    else if bool_decide (key = "+CUSD") then
      let number i := if (i <? n)%nat then default 0 (parseInt (part fields i)) else -1 in
      info "URC: USSD" [("n", AInt (number 0%nat)); ("dcs", AInt (number 2%nat)); ("text", AString (part fields 1))]
    else if bool_decide (key = "+CLIP") then
      let number := part (extractQuotedFields rest) 0 in
      info "URC: 来电显示" ((if bool_decide (number ≠ "") then [("number", AString number)] else []) ++ [("raw", AString s)])%list
    else if bool_decide (key = "+QPCMV") then info "URC: PCM 流控" [("state", AString (TrimSpace rest))]
    else if bool_decide (s ∈ event_keys) then info "URC: 事件" [("raw", AString s)]
    else mkURC urcLogDebug key "URC: 未分类" [("type", AString key); ("raw", AString s)] "" "".
End URC.
