(* ===== verification/AtParseProofs.v ===== *)
(** * Properties of the parsers of modem answers

    Answers that are printed in the form that the commands prescribe are read
    back, and what is read wrongly. *)

From Stdlib Require Import Ascii String.
From S2P Require Import Prelude GoText SmsCodec SmsCodecProofs Lines SimIdentity AtParse.
From stdpp Require Import strings.

#[local] Open Scope string_scope.
#[local] Open Scope Z_scope.

(** A text in quotation marks. *)
Definition q (s : string) : string := String quote (s +:+ String quote "").

(** ** What is read wrongly *)

(** A card that is not ready counts as inserted. *)
Lemma not_ready_is_inserted unicode_upper : parseCPINInserted unicode_upper (crlf ["+CPIN: NOT READY"; ""; "OK"]) = Some true.
Proof. reflexivity. Qed.

(** When the modem does not answer AT+CGSN, the subscriber is taken for the
    device, and then not found. *)
Lemma imsi_taken_for_imei :
  parseATIdentity (crlf ["AT+CGSN"; "ERROR"; "AT+CIMI"; "460010123456789"; "OK"]) = mkIdentity "460010123456789" "" "".
Proof. reflexivity. Qed.

(** The identity is read after each piece of the answer: a piece that ends inside
    the ICCID completes it. *)
Lemma cut_iccid_accepted :
  let resp := crlf ["860000000000001"; "OK"; "460010123456789"; "OK"; "+QCCID: 8986000000000000001"] in
  let piece := substring 0 60 resp in
  hasCompleteSIM (parseATIdentity piece) = true ∧ ICCID (parseATIdentity piece) = "8986000000" ∧
  ICCID (parseATIdentity resp) = "8986000000000000001".
Proof. vm_compute. done. Qed.

(** The last operator of a scan is followed by the supported modes: its access
    technology is lost, and it is reported with GSM. *)
Lemma last_operator_act_lost :
  parseCOPSScan (crlf [("+COPS: (2," ++ q "CHN-UNICOM" ++ "," ++ q "UNICOM" ++ "," ++ q "46001" ++ ",7),(3," ++ q "CHINA MOBILE" ++ "," ++
    q "CMCC" ++ "," ++ q "46000" ++ ",7),,(0,1,2,3,4),(0,1,2)")%string; ""; "OK"]) =
  [mkScan 2 "CHN-UNICOM" "UNICOM" "46001" 7; mkScan 3 "CHINA MOBILE" "CMCC" "46000" 0].
Proof. vm_compute. done. Qed.

(** An operator whose name has a comma gets the rest of its name for a network. *)
Lemma comma_in_name_shifts_fields :
  parseCOPSScan (crlf [("+COPS: (1," ++ q "Telco, Inc" ++ "," ++ q "TEL" ++ "," ++ q "00101" ++ ",7)")%string]) =
  [mkScan 1 "Telco" (" Inc") "TEL" 0].
Proof. vm_compute. done. Qed.

(** ** Lines of an answer *)

(** A line that the modem may print: no line end inside, no white space around. *)
Definition line_ok (l : string) : Prop := TrimSpace l = l ∧ free_of CR l ∧ free_of LF l.

Lemma splitLines_crlf lines : Forall line_ok lines → splitLines (crlf lines) = (lines ++ [""])%list.
Proof.
  intros H. unfold splitLines. change (ascii_of_nat 10) with LF. change (ascii_of_nat 13) with CR. rewrite split_crlf.
  - rewrite fmap_app. f_equal. rewrite <-(list_fmap_id lines) at 2. apply list_fmap_ext. intros i l Hl.
    by destruct (Forall_lookup_1 _ _ _ _ H Hl).
  - eapply Forall_impl; [exact H|]. by intros l (_ & ?).
Qed.

Lemma find_app {A} (f : A → bool) l1 x l2 : Forall (λ y, f y = false) l1 → f x = true → List.find f (l1 ++ x :: l2) = Some x.
Proof. induction 1 as [|y l1 Hy _ IH]; intros Hx; cbn; [by rewrite Hx|rewrite Hy; by apply IH]. Qed.

(** The answer to a command: one line with its prefix, and others around it. *)
Definition answer_ok (prefix : string) (noise : list string) (line : string) : Prop :=
  Forall line_ok noise ∧ Forall (λ l, HasPrefix l prefix = false) noise ∧ line_ok line ∧ HasPrefix line prefix = true.

Lemma answer_line prefix noise line rest :
  answer_ok prefix noise line → Forall line_ok rest → findLineWithPrefix (crlf (noise ++ line :: rest)) prefix = Some line.
Proof.
  intros (Hn & Hp & Hl & Hx) Hr. unfold findLineWithPrefix. rewrite splitLines_crlf by by apply Forall_app; split; [|constructor].
  rewrite <-app_assoc. by apply find_app.
Qed.

(** *** Fields *)

Lemma split_char_last c s : free_of c s → split_char c s = [s].
Proof. induction s as [|a s IH]; [done|]. intros [Ha H]%Forall_cons. cbn. by rewrite ascii_eqb_neq, IH. Qed.

Lemma cut_char_app c s t : free_of c s → cut_char c (s +:+ String c t) = Some (s, t).
Proof.
  induction s as [|a s IH]; intros H; [rewrite append_nil; cbn; by rewrite Ascii.eqb_refl|].
  apply Forall_cons in H as [Ha H]. rewrite append_cons. cbn [cut_char]. by rewrite ascii_eqb_neq, IH.
Qed.

Lemma cut_char_none c s : free_of c s → cut_char c s = None.
Proof. induction s as [|a s IH]; [done|]. intros [Ha H]%Forall_cons. cbn. by rewrite ascii_eqb_neq, IH. Qed.

(** Fields in quotation marks, each after a text without any. *)
Fixpoint quoted_text (fs : list (string * string)) (tail : string) : string :=
  match fs with
  | [] => tail
  | (gap, f) :: fs => (gap +:+ String quote (f +:+ String quote (quoted_text fs tail)))%string
  end.

Lemma quoted_fields_text fs tail : Forall (λ gf, free_of quote gf.1 ∧ free_of quote gf.2) fs → free_of quote tail →
  ∀ fuel, (List.length fs ≤ fuel)%nat → quoted_fields fuel (quoted_text fs tail) = fs.*2.
Proof.
  induction 1 as [|[g f] fs [Hg Hf] _ IH]; intros Ht fuel Hfuel.
  - destruct fuel; [done|]. cbn. by rewrite cut_char_none.
  - destruct fuel as [|fuel]; [cbn in Hfuel; lia|]. cbn [quoted_text quoted_fields].
    rewrite cut_char_app by done. rewrite cut_char_app by done. cbn. f_equal. apply IH; [done|cbn in Hfuel; lia].
Qed.

Lemma string_app_length s t : String.length (s +:+ t) = (String.length s + String.length t)%nat.
Proof. rewrite <-!list_ascii_length, list_ascii_app, length_app. done. Qed.

Lemma extractQuotedFields_text fs tail : Forall (λ gf, free_of quote gf.1 ∧ free_of quote gf.2) fs → free_of quote tail →
  extractQuotedFields (quoted_text fs tail) = fs.*2.
Proof.
  intros H Ht. apply quoted_fields_text; [done|done|]. clear.
  induction fs as [|[g f] fs IH]; cbn; [lia|]. rewrite !string_app_length. cbn. rewrite string_app_length. cbn. lia.
Qed.

Lemma extractFirstQuoted_text gap f tail : free_of quote gap → free_of quote f →
  extractFirstQuoted (gap +:+ String quote (f +:+ String quote tail)) = Some f.
Proof. intros Hg Hf. unfold extractFirstQuoted. by rewrite !cut_char_app. Qed.

Lemma trim_quotes_text f : free_of quote f → trim_quotes (String quote (f +:+ String quote "")) = f ∧ trim_quotes f = f.
Proof.
  intros Hf. destruct (TrimRightChar_free quote f Hf) as [H1 H2]. unfold trim_quotes, TrimLeftChar. split.
  - change (trim_front_char quote (String quote (f +:+ String quote ""))) with (trim_front_char quote (f +:+ String quote "")).
    destruct f as [|a f]; [reflexivity|]. rewrite append_cons. cbn [trim_front_char].
    rewrite ascii_eqb_neq by by apply Forall_inv in Hf. exact H2.
  - by rewrite trim_front_char_free.
Qed.

Lemma leading_digits_all s : Forall (λ a, is_digit a = true) (list_ascii_of_string s) → leading_digits s = list_ascii_of_string s.
Proof. induction s as [|a s IH]; [done|]. cbn. intros [Ha H]%Forall_cons. by rewrite Ha, IH. Qed.

Lemma Sscanf_decimal s n : decimal_text s n → Sscanf_d (TrimSpace s) = Some n.
Proof.
  intros H. pose proof (Atoi_decimal s n H) as E. destruct H as (Hne & Hd & Hn & Hmax). 
  rewrite TrimSpace_visible in * by (eapply Forall_impl; [exact Hd|apply digit_visible]).
  pose proof (decimal_nonneg _ _ _ (Z.le_refl 0) Hn). unfold Sscanf_d. destruct s as [|a s]; [done|]. cbn [list_ascii_of_string] in *.
  assert (Ha : is_digit a = true) by by apply Forall_inv in Hd.
  assert (Ascii.eqb a "-" = false ∧ Ascii.eqb a "+" = false) as [-> ->].
  { clear -Ha. destruct a as [[] [] [] [] [] [] [] []]; (discriminate Ha || done). }
  rewrite leading_digits_all by done. cbn [list_ascii_of_string]. rewrite bool_decide_eq_false_2 by done. rewrite Hn. cbn.
  by rewrite bool_decide_eq_true_2 by lia.
Qed.

Lemma decimal_trim s n : decimal_text s n → TrimSpace s = s.
Proof. intros (_ & Hd & _). apply TrimSpace_visible. eapply Forall_impl; [exact Hd|apply digit_visible]. Qed.

Lemma free_of_cons c a s : a ≠ c → free_of c s → free_of c (String a s).
Proof. intros. by constructor. Qed.

(** ** Answers as they are printed *)

Definition csq_line (rssi ber : string) : string := ("+CSQ: " +:+ rssi) +:+ String comma ber.
Definition creg_line (mode stat lac ci : string) : string :=
  ("+CREG: " +:+ mode) +:+ String comma (stat +:+ String comma (q lac +:+ String comma (q ci))).
Definition crsm_line (sw1 sw2 data : string) : string :=
  ("+CRSM: " +:+ sw1) +:+ String comma (sw2 +:+ String comma (q data)).
Definition apdu_line (prefix n apdu : string) : string := (prefix +:+ n) +:+ String comma (q apdu).
Definition cops_line (mode format plmn act : string) : string :=
  ("+COPS: " +:+ mode) +:+ String comma (format +:+ String comma (q plmn +:+ String comma act)).

(** A field without commas, quotation marks and line ends. *)
Definition field_ok (f : string) : Prop := Forall (λ c, free_of c f) [comma; quote; CR; LF].

Lemma field_free f c : field_ok f → c ∈ [comma; quote; CR; LF] → free_of c f.
Proof. unfold field_ok. rewrite Forall_forall. auto. Qed.

Lemma decimal_field s n : decimal_text s n → field_ok s.
Proof. intros H. unfold field_ok. repeat constructor; by eapply digits_free. Qed.

Lemma q_ends f : ends_visible (q f).
Proof. unfold q. apply ends_visible_cons, ends_visible_app. by exists quote, "". Qed.

Lemma q_visible f : TrimSpace (q f) = q f.
Proof. apply TrimSpace_ends; [done|]. exact (q_ends f). Qed.

Lemma printed_line_ok a p body :
  visible a = true → free_of CR (String a p) → free_of LF (String a p) → free_of CR body → free_of LF body → ends_visible body →
  line_ok (String a p +:+ body).
Proof.
  intros Ha ?? ?? Hb. split_and!; [|by apply free_of_app..].
  rewrite append_cons. apply TrimSpace_ends; [done|]. rewrite <-append_cons. by apply (ends_visible_app (String a p)).
Qed.

Ltac free_tac :=
  repeat first
    [ eassumption
    | progress unfold q
    | apply free_of_app
    | apply free_of_cons; [by vm_compute|]
    | by apply field_free; [eassumption|set_solver]
    | by eapply field_free; [eapply decimal_field; eassumption|set_solver]
    | by repeat constructor ].

Lemma trim_q f : free_of quote f → trim_quotes (q f) = f.
Proof. intros Hf. apply trim_quotes_text. exact Hf. Qed.

Section Answers.
(** Other lines before and after the answer: the echo, empty lines, other codes. *)
Context (noise rest : list string).
Context (Hrest : Forall line_ok rest).

Definition quiet (prefix : string) : Prop := Forall line_ok noise ∧ Forall (λ l, HasPrefix l prefix = false) noise.

Lemma found prefix line : quiet prefix → line_ok line → HasPrefix line prefix = true →
  findLineWithPrefix (crlf (noise ++ line :: rest)) prefix = Some line.
Proof using Hrest. intros [??] ??. by apply answer_line. Qed.

Lemma csq_read rssi ber n : quiet "+CSQ:" → decimal_text rssi n → field_ok ber → ends_visible ber →
  parseCSQ (crlf (noise ++ csq_line rssi ber :: rest)) = Some (n, if bool_decide (0 <= n) && bool_decide (n <= 31) then -113 + n * 2 else -999).
Proof using Hrest.
  intros Hq Hr Hb He. unfold parseCSQ. rewrite found; [|done| |reflexivity].
  2: { unfold csq_line. rewrite <-append_assoc. apply printed_line_ok; [done|by repeat constructor..| | |]; [free_tac..|].
       by apply ends_visible_app, ends_visible_cons. }
  cbn [mbind option_bind]. change (TrimPrefix (csq_line rssi ber) "+CSQ:") with (String " " (rssi +:+ String comma ber)).
  assert (TrimSpace (String " " (rssi +:+ String comma ber)) = rssi +:+ String comma ber) as ->.
  { destruct rssi as [|a r]; [by destruct Hr|]. rewrite append_cons. apply TrimSpace_one.
    - destruct Hr as (_ & Hd & _). apply Forall_inv in Hd. by apply digit_visible.
    - change (ends_visible (String a (r +:+ String comma ber))). by apply ends_visible_cons, ends_visible_app, ends_visible_cons. }
  rewrite split_char_app, split_char_last by free_tac. cbn [List.length Nat.ltb Nat.leb part nth].
  by rewrite (Sscanf_decimal _ _ Hr).
Qed.

Lemma creg_read mode stat lac ci m n : quiet "+CREG:" → decimal_text mode m → decimal_text stat n → field_ok lac → field_ok ci →
  parseCREG (crlf (noise ++ creg_line mode stat lac ci :: rest)) = Some (n, lac, ci).
Proof using Hrest.
  intros Hq Hm Hs Hl Hc. unfold parseCREG. rewrite found; [|done| |reflexivity].
  2: { unfold creg_line. rewrite <-append_assoc. apply printed_line_ok; [done|by repeat constructor..| | |]; [free_tac..|].
       by repeat first [apply q_ends|apply ends_visible_app|apply ends_visible_cons]. }
  cbn [mbind option_bind]. unfold creg_line. rewrite !split_char_app, split_char_last by free_tac.
  cbn [List.length Nat.ltb Nat.leb part nth]. rewrite (Sscanf_decimal _ _ Hs). cbn [mbind option_bind].
  rewrite !q_visible. by rewrite !trim_q by free_tac.
Qed.

Lemma crsm_read sw1 sw2 data m n : quiet "+CRSM:" → decimal_text sw1 m → decimal_text sw2 n → field_ok data →
  ParseCRSM (crlf (noise ++ crsm_line sw1 sw2 data :: rest)) = Some (m, n, data).
Proof using Hrest.
  intros Hq Hm Hs Hd. unfold ParseCRSM. rewrite found; [|done| |reflexivity].
  2: { unfold crsm_line. rewrite <-append_assoc. apply printed_line_ok; [done|by repeat constructor..| | |]; [free_tac..|].
       by repeat first [apply q_ends|apply ends_visible_app|apply ends_visible_cons]. }
  cbn [mbind option_bind]. change (TrimPrefix (crsm_line sw1 sw2 data) "+CRSM:") with (String " " (sw1 +:+ String comma (sw2 +:+ String comma (q data)))).
  assert (TrimSpace (String " " (sw1 +:+ String comma (sw2 +:+ String comma (q data)))) = sw1 +:+ String comma (sw2 +:+ String comma (q data))) as ->.
  { destruct sw1 as [|a r]; [by destruct Hm|]. rewrite append_cons. apply TrimSpace_one.
    - destruct Hm as (_ & Hx & _). apply Forall_inv in Hx. by apply digit_visible.
    - change (ends_visible (String a (r +:+ String comma (sw2 +:+ String comma (q data))))).
      by repeat first [apply q_ends|apply ends_visible_app|apply ends_visible_cons]. }
  cbn [split_n]. rewrite !cut_char_app by free_tac. cbn [List.length Nat.ltb Nat.leb Nat.eqb part nth].
  rewrite (Sscanf_decimal _ _ Hm), (Sscanf_decimal _ _ Hs), q_visible. by rewrite trim_q by free_tac.
Qed.

Lemma apdu_read p n apdu m : p = "+CGLA: " ∨ p = "+CSIM: " → quiet (if bool_decide (p = "+CGLA: ") then "+CGLA:" else "+CSIM:") →
  decimal_text n m → field_ok apdu →
  (if bool_decide (p = "+CGLA: ") then parseCGLA else parseCSIM) (crlf (noise ++ apdu_line p n apdu :: rest)) = Some apdu.
Proof using Hrest.
  intros Hp Hq Hn Ha. assert (Hok : line_ok (apdu_line p n apdu)).
  { unfold apdu_line. rewrite <-append_assoc. destruct Hp as [-> | ->].
    all: (apply printed_line_ok; [done|by repeat constructor..| | |]; [free_tac..|]).
    all: by repeat first [apply q_ends|apply ends_visible_app|apply ends_visible_cons]. }
  assert (He : extractFirstQuoted (apdu_line p n apdu) = Some apdu).
  { unfold apdu_line. replace ((p +:+ n) +:+ String comma (q apdu)) with (((p +:+ n) +:+ String comma "") +:+ String quote (apdu +:+ String quote "")) by by rewrite <-append_assoc.
    apply extractFirstQuoted_text; [|free_tac]. destruct Hp as [-> | ->]; free_tac. }
  destruct Hp as [-> | ->]; [rewrite bool_decide_eq_true_2 in * by done|rewrite bool_decide_eq_false_2 in * by done].
  all: by unfold parseCGLA, parseCSIM; rewrite found.
Qed.

Lemma substring_skip_app p t : substring (String.length p) (String.length (p +:+ t) - String.length p) (p +:+ t) = t.
Proof using.
  induction p as [|a p IH]; [rewrite append_nil, Nat.sub_0_r; apply substring_all|]. rewrite append_cons. cbn. exact IH.
Qed.

Lemma cops_read mode format plmn act m f a : quiet "+COPS: " →
  decimal_text mode m → decimal_text format f → decimal_text act a → field_ok plmn →
  parseCOPSSelection (crlf (noise ++ cops_line mode format plmn act :: rest)) = Some (mkSelection m f plmn a true).
Proof using Hrest.
  intros Hq Hm Hf Ha Hp. unfold parseCOPSSelection. rewrite found; [|done| |].
  3: { unfold cops_line. rewrite <-append_assoc. apply HasPrefix_app. }
  2: { unfold cops_line. rewrite <-append_assoc. apply printed_line_ok; [done|by repeat constructor..| | |]; [free_tac..|].
       by repeat first [by eapply decimal_ends|apply q_ends|apply ends_visible_app|apply ends_visible_cons]. }
  cbn [mbind option_bind]. unfold cops_line. rewrite <-append_assoc.
  pose proof (substring_skip_app "+COPS: ") as Hs. cbn [String.length] in Hs. rewrite Hs.
  rewrite !split_char_app, split_char_last by free_tac. cbn [List.length Nat.ltb Nat.leb part nth].
  pose proof (Atoi_decimal _ _ Hm) as Em. pose proof (Atoi_decimal _ _ Hf) as Ef. pose proof (Atoi_decimal _ _ Ha) as Ea.
  rewrite (decimal_trim _ _ Hm) in Em. rewrite (decimal_trim _ _ Hf) in Ef. rewrite (decimal_trim _ _ Ha) in Ea.
  rewrite trim_q by free_tac. by rewrite Em, Ef, Ea.
Qed.
End Answers.

(** ** Lists of messages *)

Definition cmgl_line (index tail : string) : string := "+CMGL: " +:+ (index +:+ String comma tail).

(** A listing: messages of two lines each, among lines that say nothing of them. *)
Inductive listing : list string → list (string * Z * string) → Prop :=
  | listing_end : listing [] []
  | listing_skip l lines ms : line_ok l → HasPrefix l "+CMGL:" = false → listing lines ms → listing (l :: lines) ms
  | listing_message index n tail pdu lines ms :
      decimal_text index n → free_of CR tail → free_of LF tail → ends_visible tail →
      line_ok pdu → pdu ≠ "" → pdu ≠ "OK" → listing lines ms →
      listing (cmgl_line index tail :: pdu :: lines) ((cmgl_line index tail, n, pdu) :: ms).

Lemma cmgl_line_ok index n tail : decimal_text index n → free_of CR tail → free_of LF tail → ends_visible tail →
  line_ok (cmgl_line index tail).
Proof.
  intros Hi ?? He. unfold cmgl_line. apply printed_line_ok; [done|by repeat constructor..| | |]; [free_tac..|].
  by apply ends_visible_app, ends_visible_cons.
Qed.

Lemma listing_lines_ok lines ms : listing lines ms → Forall line_ok lines.
Proof. induction 1; [by constructor|by constructor|]. constructor; [by eapply cmgl_line_ok|by constructor]. Qed.

Section Listing.
Context (Alphabet : Z → option alphabet).

(** The record of a message: its index, and its PDU without what follows the
    length in the header. *)
Definition record_of (m : string * Z * string) : go codec_error SMSPDURecord :=
  let '(header, n, pdu) := m in p ← TrimFullPDUHexByATHeader Alphabet pdu header; Ok (mkRecord n p.1).

Lemma sms_record_read index n tail pdu : decimal_text index n → ends_visible tail → TrimSpace pdu = pdu → pdu ≠ "" → pdu ≠ "OK" →
  sms_record Alphabet (cmgl_line index tail) pdu = (r ← record_of (cmgl_line index tail, n, pdu); Ok [r]).
Proof.
  intros Hi He Ht H1 H2. unfold sms_record, content. rewrite Ht. rewrite !bool_decide_eq_true_2 by done. cbn [andb].
  assert (parseURCAfterColon (cmgl_line index tail) = index +:+ String comma tail) as ->.
  { unfold parseURCAfterColon. change (cut_char ":" (cmgl_line index tail)) with (Some ("+CMGL", String " " (index +:+ String comma tail))). cbn match.
    destruct index as [|a r]; [by destruct Hi|]. rewrite append_cons. apply TrimSpace_one.
    - destruct Hi as (_ & Hx & _). apply Forall_inv in Hx. by apply digit_visible.
    - change (ends_visible (String a (r +:+ String comma tail))). by apply ends_visible_cons, ends_visible_app, ends_visible_cons. }
  unfold parseCommaFields. rewrite bool_decide_eq_false_2.
  2: { destruct index; [by destruct Hi|done]. }
  rewrite split_char_app by by eapply digits_free. cbn [fmap list_fmap].
  rewrite (decimal_trim _ _ Hi), (proj2 (trim_quotes_text _ (digits_free _ _ quote Hi eq_refl))).
  rewrite (Atoi_decimal _ _ Hi). unfold record_of. by destruct (TrimFullPDUHexByATHeader _ _ _).
Qed.

Lemma sms_records_listing lines ms : listing lines ms →
  sms_records Alphabet "+CMGL:" (lines ++ [""]) = mapM record_of ms.
Proof.
  induction 1 as [|l lines ms Hl Hp _ IH|index n tail pdu lines ms Hi Hc Hlf He (Ht & _) H1 H2 _ IH].
  - reflexivity.
  - cbn [app sms_records]. by rewrite Hp.
  - cbn [app sms_records]. change (HasPrefix (cmgl_line index tail) "+CMGL:") with true. cbn match.
    rewrite (sms_record_read _ n) by done. rewrite IH. cbn [mapM]. destruct (record_of _) as [r|?|]; [|done..]. cbn.
    by destruct (mapM record_of ms).
Qed.
End Listing.

(** ** Redaction *)

Lemma redacted_command unicode_upper command response :
  isADBAuthCommand unicode_upper command = true →
  logATCommand unicode_upper command = "AT+QADBKEY [redacted]" ∧ logATResponse unicode_upper command response = "[ADB authorization redacted]".
Proof. intros H. unfold logATCommand, logATResponse. by rewrite H. Qed.

(** A challenge of eight digits on a line of its own. *)
Lemma challenge_seen unicode_upper before_ code_ after_ :
  Forall (λ l, free_of LF l) before_ → free_of LF code_ → free_of "|"%char code_ → 
  String.length code_ = 8%nat → digits_only code_ = true →
  hasADBAuthResponse unicode_upper (foldr (λ l s, (l +:+ String LF s)%string) (code_ +:+ String LF after_) before_) = true.
Proof.
  intros Hb Hlf Hbar Hlen Hd. unfold hasADBAuthResponse. apply orb_true_iff. right. apply existsb_exists. exists code_. split.
  - unfold response_lines. change (ascii_of_nat 10) with LF. apply in_concat. exists (split_char "|" code_). split.
    + apply in_map_iff. exists code_. split; [done|].
      induction Hb as [|l before_ Hl _ IH]; cbn [foldr]; rewrite split_char_app by done; [by left|by right].
    + rewrite split_char_last by done. by left.
  - assert (TrimSpace code_ = code_) as ->.
    { apply TrimSpace_visible. unfold digits_only in Hd. rewrite forallb_forall in Hd. apply Forall_forall. intros a Ha%list_elem_of_In. apply digit_visible. auto. }
    cbv zeta. by rewrite Hlen, Hd.
Qed.

(** ** The parsers together *)

(** C23: Among any other lines, the answers to AT+CSQ, AT+CREG?, AT+CRSM, AT+CGLA,
    AT+CSIM and AT+COPS? are read back: the signal as printed and in dBm, the
    registration with its cell, the status words with the data, the answer of
    the card, and the operator that was selected. *)
Theorem answers_read noise rest :
  Forall line_ok rest →
  (∀ rssi ber n, quiet noise "+CSQ:" → decimal_text rssi n → field_ok ber → ends_visible ber →
    parseCSQ (crlf (noise ++ csq_line rssi ber :: rest)) =
    Some (n, if bool_decide (0 <= n) && bool_decide (n <= 31) then -113 + n * 2 else -999)) ∧
  (∀ mode stat lac ci m n, quiet noise "+CREG:" → decimal_text mode m → decimal_text stat n → field_ok lac → field_ok ci →
    parseCREG (crlf (noise ++ creg_line mode stat lac ci :: rest)) = Some (n, lac, ci)) ∧
  (∀ sw1 sw2 data m n, quiet noise "+CRSM:" → decimal_text sw1 m → decimal_text sw2 n → field_ok data →
    ParseCRSM (crlf (noise ++ crsm_line sw1 sw2 data :: rest)) = Some (m, n, data)) ∧
  (∀ p n apdu m, p = "+CGLA: " ∨ p = "+CSIM: " → quiet noise (if bool_decide (p = "+CGLA: ") then "+CGLA:" else "+CSIM:") →
    decimal_text n m → field_ok apdu →
    (if bool_decide (p = "+CGLA: ") then parseCGLA else parseCSIM) (crlf (noise ++ apdu_line p n apdu :: rest)) = Some apdu) ∧
  (∀ mode format plmn act m f a, quiet noise "+COPS: " →
    decimal_text mode m → decimal_text format f → decimal_text act a → field_ok plmn →
    parseCOPSSelection (crlf (noise ++ cops_line mode format plmn act :: rest)) = Some (mkSelection m f plmn a true)).
Proof.
  intros Hr. split_and!; intros; [by apply csq_read|by eapply creg_read|by apply crsm_read|by eapply apdu_read|by apply cops_read].
Qed.

Lemma decimal_text_14 : decimal_text "14" 14 ∧ decimal_text "0" 0 ∧ decimal_text "144" 144 ∧ decimal_text "1" 1 ∧ decimal_text "7" 7.
Proof. split_and!; (split; [done|split; [by repeat constructor|split; [reflexivity|lia]]]). Qed.

Lemma answers_read_witness :
  parseCSQ (crlf (["AT+CSQ"] ++ csq_line "14" "99" :: [""; "OK"])) = Some (14, -85) ∧
  parseCREG (crlf (["AT+CSQ"] ++ creg_line "0" "1" "1A2B" "00C0FFEE" :: [""; "OK"])) = Some (1, "1A2B", "00C0FFEE") ∧
  ParseCRSM (crlf (["AT+CSQ"] ++ crsm_line "144" "0" "082984021385481729" :: [""; "OK"])) = Some (144, 0, "082984021385481729") ∧
  parseCOPSSelection (crlf (["AT+CSQ"] ++ cops_line "1" "0" "46001" "7" :: [""; "OK"])) = Some (mkSelection 1 0 "46001" 7 true).
Proof.
  destruct decimal_text_14 as (H14 & H0 & H144 & H1 & H7).
  assert (Hf : ∀ f, forallb (λ a, negb (existsb (Ascii.eqb a) [comma; quote; CR; LF])) (list_ascii_of_string f) = true → field_ok f).
  { intros f H. rewrite forallb_forall in H. unfold field_ok, free_of. apply Forall_forall. intros c Hc. apply Forall_forall.
    intros a Ha%list_elem_of_In ->. specialize (H c Ha). apply negb_true_iff in H. rewrite (proj2 (existsb_exists _ _)) in H; [done|].
    exists c. split; [by apply list_elem_of_In|apply Ascii.eqb_refl]. }
  assert (Hq : ∀ p, HasPrefix "AT+CSQ" p = false → quiet ["AT+CSQ"] p).
  { intros p Hp. split; repeat constructor; try done; vm_compute; intuition congruence. }
  destruct (answers_read ["AT+CSQ"] [""; "OK"]) as (A1 & A2 & A3 & _ & A5).
  { repeat constructor; vm_compute; intuition congruence. }
  split_and!.
  - apply (A1 "14" "99" 14); [by apply Hq|done|by apply Hf|]. exists "9"%char, "9". done.
  - apply (A2 "0" "1" "1A2B" "00C0FFEE" 0 1); [by apply Hq|done|done|by apply Hf|by apply Hf].
  - apply (A3 "144" "0" "082984021385481729" 144 0); [by apply Hq|done|done|by apply Hf].
  - apply (A5 "1" "0" "46001" "7" 1 0 7); [by apply Hq|done|done|done|by apply Hf].
Defined.

(** C22: A list of messages is read completely: among any other lines, each
    message gives a record, in the order of the list, with the index of its
    header and its PDU trimmed to the length of the header. *)
Theorem sms_listing_read Alphabet lines ms :
  listing lines ms →
  extractSMSPDURecordsAfterPrefix Alphabet (crlf lines) "+CMGL:" = mapM (record_of Alphabet) ms.
Proof.
  intros H. unfold extractSMSPDURecordsAfterPrefix. rewrite splitLines_crlf by by eapply listing_lines_ok.
  by apply sms_records_listing.
Qed.

Lemma sms_listing_read_witness :
  extractSMSPDURecordsAfterPrefix (λ _, None) (crlf ["AT+CMGL=4"; cmgl_line "1" "1,,3"; "000B0C0DFF"; cmgl_line "7" "1,,2"; "00AABB"; ""; "OK"]) "+CMGL:" =
  Ok [mkRecord 1 "000B0C0D"; mkRecord 7 "00AABB"].
Proof.
  destruct decimal_text_14 as (_ & _ & _ & H1 & H7).
  rewrite (sms_listing_read (λ _, None) _ [(cmgl_line "1" "1,,3", 1, "000B0C0DFF"); (cmgl_line "7" "1,,2", 7, "00AABB")]); [vm_compute; reflexivity|].
  assert (Hok : ∀ l, l ∈ ["AT+CMGL=4"; "000B0C0DFF"; "00AABB"; ""; "OK"] → line_ok l).
  { apply Forall_forall. repeat constructor; discriminate. }
  apply listing_skip; [apply Hok; set_solver|done|].
  apply listing_message; [done|by repeat constructor|by repeat constructor|by exists "3"%char, ",,1"|apply Hok; set_solver|done|done|].
  apply listing_message; [done|by repeat constructor|by repeat constructor|by exists "2"%char, ",,1"|apply Hok; set_solver|done|done|].
  apply listing_skip; [apply Hok; set_solver|done|]. apply listing_skip; [apply Hok; set_solver|done|]. constructor.
Defined.

(** What belongs to the authorization of ADB is not logged: a command and its
    answer, and a challenge of eight digits in any answer or code. *)
Lemma adb_secret_hidden unicode_upper command response line code_ :
  (isADBAuthCommand unicode_upper command = true →
    logATCommand unicode_upper command = "AT+QADBKEY [redacted]" ∧ logATResponse unicode_upper command response = "[ADB authorization redacted]") ∧
  (hasADBAuthResponse unicode_upper response = true → logATResponse unicode_upper command response = "[ADB authorization redacted]") ∧
  (TrimSpace line = code_ → String.length code_ = 8%nat → digits_only code_ = true →
    formatURC unicode_upper line = mkURC urcLogDebug "QADBKEY" "URC: ADB authorization [redacted]" [] "" "").
Proof.
  split_and!.
  - apply redacted_command.
  - intros H. unfold logATResponse. rewrite H. by rewrite orb_true_r.
  - intros Ht Hl Hd. unfold formatURC. rewrite Ht. cbv zeta.
    assert (Hf : ∀ c, is_digit c = false → free_of c code_).
    { intros c Hc. unfold digits_only in Hd. rewrite forallb_forall in Hd. apply Forall_forall. intros a Ha%list_elem_of_In ->. by rewrite (Hd _ Ha) in Hc. }
    assert (hasADBAuthResponse unicode_upper code_ = true) as ->; [|done].
    unfold hasADBAuthResponse. apply orb_true_iff. right. apply existsb_exists. exists code_. split.
    + unfold response_lines. change (ascii_of_nat 10) with LF. rewrite split_char_last by by apply Hf. cbn. rewrite split_char_last by by apply Hf. by left.
    + cbv zeta. rewrite <-Ht, TrimSpace_idem, Ht. by rewrite Hl, Hd.
Qed.
