(* ===== verification/AtPort.v ===== *)
(** * The serial port of a modem (internal/modem/manager.go)

    [readLoop] turns what the port delivers into lines; [handleCommand] writes a
    command and takes the lines up to the end of its answer, handing
    unsolicited codes on; and file_upload.go, which sends a file between two
    lines of the modem.

    A command is a function of what its channel delivers until the timer fires.
    Logging is left out, and so are the callbacks behind [handleURC]. *)

From Stdlib Require Import Ascii String.
From S2P Require Import Prelude GoText SmsCodec SimIdentity AtParse Interaction.
From stdpp Require Import strings pretty.

#[local] Open Scope string_scope.
#[local] Open Scope Z_scope.

(** ** Reading lines *)

Module Reader.
(** [rxMsg] *)
Inductive rxMsg := Data (line : string) | DisconnectedEOF | ReadFailed.

(** What [m.port.Read] returns: bytes, nothing, a timeout, the end of the file or
    another error. *)
Inductive read := Bytes (data : string) | Timeout | EOF | Failure.

Record reader := mkReader { eofCount : Z; lineBuf : string }.
Definition init : reader := mkReader 0 "".

(** The complete lines of the buffer and what is left of it. *)
Fixpoint complete_lines (fuel : nat) (data : string) : list rxMsg * string :=
  match fuel with
  | O => ([], data)
  | S fuel =>
      match cut_char (ascii_of_nat 10) data with
      | None => ([], data)
      | Some (l, rest) =>
          let line := TrimSpace l in
          let '(out, data) := complete_lines fuel rest in
          ((if bool_decide (line ≠ "") then [Data line] else []) ++ out, data)%list
      end
  end.

Definition HasSuffix (s suffix : string) : bool := HasPrefix (rev_string s) (rev_string suffix).

(** One turn of [readLoop]: the reader, or [None] when it ends, and what it
    delivers. *)
Definition read_step (r : reader) (x : read) : option reader * list rxMsg :=
  match x with
  | Timeout => (Some r, [])
  | EOF =>
      let n := eofCount r + 1 in
      if bool_decide (30 <= n) then (None, [DisconnectedEOF]) else (Some (mkReader n (lineBuf r)), [])
  | Failure => (None, [ReadFailed])
  | Bytes data =>
      if bool_decide (data = "") then (Some r, [])
      else
        let buf := (lineBuf r ++ data)%string in
        let '(out, rest) := complete_lines (String.length buf) buf in
        if HasSuffix rest "> " || HasSuffix rest ">" then (Some (mkReader 0 ""), out ++ [Data "> "])%list
        else (Some (mkReader 0 rest), out)
  end.

Fixpoint readLoop (r : reader) (xs : list read) : option reader * list rxMsg :=
  match xs with
  | [] => (Some r, [])
  | x :: xs =>
      match read_step r x with
      | (None, out) => (None, out)
      | (Some r, out) => let '(r, more) := readLoop r xs in (r, out ++ more)%list
      end
  end.
End Reader.

(** ** Commands *)

Module Command.
Record commandRequest := mkRequest {
  cmd : string; cancelled : bool; barrier : bool; highPriority : bool;
  interactive : bool; waitPrompt : bool; followUp : string }.

Inductive at_error :=
  | ContextDone | WriteError (fatal : bool) | TimedOut | PortError (fatal : bool)
  | Rejected (line : string) | DeviceError (text : string).
Inductive reply := Response (text : string) | Failed (e : at_error).

(** What a command does besides its reply: bytes that are written, codes that
    are dispatched, and the recovery that is asked for. *)
Inductive effect := Wrote (s : string) | URC (line : string) | Disconnect (reason : string).

(** [m.rxChan], with the kind of an error that [isFatalSerialRuntimeErr] sees. *)
Inductive event := Line (line : string) | PortLost (fatal : bool).

Definition atTimeoutWatchdogThreshold : Z := 5.

Definition not_urc_prefixes : list string := ["+CSIM:"; "+CGLA:"; "+CCHO:"; "+CMGR:"; "+CMGS:"; "+QENG:"].

Definition isURC (line : string) : bool :=
  let s := TrimSpace line in
  if bool_decide (s = "") then false
  else if existsb (HasPrefix s) not_urc_prefixes then false
  else if HasPrefix s "+" || HasPrefix s "^" || HasPrefix s "$" then true
  else bool_decide (s ∈ event_keys).

Definition isPureAsyncURC (s : string) : bool :=
  bool_decide (urcKey s ∈ ["+CUSD"; "+CMTI"; "RING"; "+CLIP"; "+QSIMSTAT"; "+QSTKURC"; "+QPCMV"]).

Section Handler.
Context (unicode_upper : string → string).

Definition isVoiceCommandFailure (command response : string) : bool :=
  let command := ToUpper unicode_upper (TrimSpace command) in
  let voice := bool_decide (command = "ATA") || (HasPrefix command "ATD" && Reader.HasSuffix command ";") in
  voice && bool_decide (TrimSpace response ∈ ["NO CARRIER"; "BUSY"; "NO ANSWER"; "NO DIALTONE"]).

(** [m.atTimeoutStreak], and the watchdog after a timeout. *)
Definition recordATTimeout (req : commandRequest) (streak : Z) : Z * bool :=
  if highPriority req then (streak, false)
  else (streak + 1, bool_decide (streak + 1 >= atTimeoutWatchdogThreshold)).

Definition handleFatalSerialRuntimeErr (running fatal : bool) : list effect :=
  if fatal && running then [Disconnect "serial_runtime_error"] else [].

Definition join_lines (sep : string) (lines : list string) : string := String.concat sep lines.

Record result := mkResult { effects : list effect; answer_ : reply; streak_ : Z; rest : list event }.

(** [RespLoop]: [full] is the answer so far.  When nothing more comes, the timer
    fires. *)
Fixpoint resp_loop (running : bool) (req : commandRequest) (prompt : bool) (full : list string) (streak : Z) (events : list event) : result :=
  match events with
  | [] =>
      let '(streak, tripped) := recordATTimeout req streak in
      mkResult (Wrote (String (ascii_of_nat 27) "") :: (if tripped && running then [Disconnect "at_timeout_threshold"] else []))
        (Failed TimedOut) streak []
  | PortLost fatal :: events =>
      mkResult (handleFatalSerialRuntimeErr running fatal) (Failed (PortError fatal)) streak events
  | Line line :: events =>
      if isVoiceCommandFailure (cmd req) line then mkResult [URC line] (Failed (Rejected line)) 0 events
      else if bool_decide (line = "OK") then
        mkResult [] (Response (join_lines (String (ascii_of_nat 10) "") full)) 0 events
      else if Contains line "ERROR" then
        mkResult [] (Failed (DeviceError (logATResponse unicode_upper (cmd req) (join_lines (String (ascii_of_nat 10) "") (full ++ [line])%list)))) 0 events
      else if Contains line ">" then
        let full := (full ++ [line])%list in
        if interactive req && prompt && bool_decide (followUp req ≠ "") then
          let r := resp_loop running req false full 0 events in
          mkResult (Wrote (followUp req) :: effects r) (answer_ r) (streak_ r) (rest r)
        else mkResult [] (Response "> ") 0 events
      else if isURC line then
        let full := if negb (isPureAsyncURC line) then (full ++ [line])%list else full in
        let r := resp_loop running req prompt full streak events in
        mkResult (URC line :: effects r) (answer_ r) (streak_ r) (rest r)
      else resp_loop running req prompt (full ++ [line])%list streak events
  end.

(** [written] is the result of writing the command: [Some] of an error that is
    fatal or not. *)
Definition handleCommand (running : bool) (written : option bool) (req : commandRequest) (streak : Z) (events : list event) : result :=
  if cancelled req then mkResult [] (Failed ContextDone) streak events
  else if barrier req then mkResult [] (Response "") streak events
  else
    match written with
    | Some fatal => mkResult (handleFatalSerialRuntimeErr running fatal) (Failed (WriteError fatal)) streak events
    | None =>
        let r := resp_loop running req (waitPrompt req) [] streak events in
        mkResult (Wrote (cmd req ++ String (ascii_of_nat 13) (String (ascii_of_nat 10) "")) :: effects r) (answer_ r) (streak_ r) (rest r)
    end.

(** [m.rxChan] between [readLoop] and the command; [fatal] says whether the text of
    a read error is one of those of [isFatalSerialRuntimeErr]. *)
Definition event_of (fatal : bool) (m : Reader.rxMsg) : event :=
  match m with
  | Reader.Data line => Line line
  | Reader.DisconnectedEOF => PortLost false
  | Reader.ReadFailed => PortLost fatal
  end.

(** What [runLoop] does with a line while no command runs. *)
Definition idle (e : event) : list effect :=
  match e with
  | Line line => if isURC line then [URC line] else []
  | PortLost _ => [Disconnect "serial_read_error"]
  end.
End Handler.
End Command.

(** ** Uploading a file *)

Module Upload.
Inductive upload_error := InvalidRequest | Synchronization | Refused | WrongFormat | WrongLength | WrongChecksum | Unconfirmed.

(** [wire.write] gives the number of bytes that were taken and whether it failed;
    [wire.line] gives a line, or nothing when it fails. *)
Inductive request := Write (chunk : bytes) | ReadLine | Unsolicited (line : string).
#[export] Instance answers : Requests request := λ c,
  match c with Write _ => (Z * bool)%type | ReadLine => option string | Unsolicited _ => unit end.

Definition fileUploadChunkBytes : nat := 1024.
Definition fileUploadIdleTimeout : Z := 10.

(** Every turn writes a byte or more: the length of the data is enough fuel.
    [io.Writer] takes no more than it was given. *)
Fixpoint writeUploadBytes (fuel : nat) (data : bytes) : prog request bool :=
  match fuel with
  | O => Ret true
  | S fuel =>
      if bool_decide (data = []) then Ret true
      else
        let chunk := take fileUploadChunkBytes data in
        Do (Write chunk) (λ r : Z * bool,
          if r.2 then Ret false
          else if bool_decide (r.1 <= 0) then Ret false
          else writeUploadBytes fuel (drop (Z.to_nat r.1) data))
  end.

(** [data[i]] in the high half of a word for an even [i]. *)
Definition uploadChecksum (data : bytes) : Z :=
  foldl (λ result ib, Z.lxor result (if Nat.even ib.1 then Z.shiftl ib.2 8 else ib.2)) 0 (imap (λ i b, (i, b)) data).

(** [strconv.ParseUint(s, 16, 16)] *)
Definition ParseHex16 (s : string) : option Z :=
  if bool_decide (s = "") then None
  else
    n ← foldl (λ acc a, n ← acc; d ← hex_value a; Some (16 * n + d)) (Some 0) (list_ascii_of_string s);
    if bool_decide (n < 2 ^ 16) then Some n else None.

(** [fmt.Sprintf("%d", n)] *)
Definition show (n : Z) : string := pretty n.

Definition crlf_ : string := String (ascii_of_nat 13) (String (ascii_of_nat 10) "").
Definition upload_command (name : string) (data : bytes) : string :=
  ("AT+QFUPL=" ++ String quote (name ++ String quote ("," ++ show (len data) ++ "," ++ show fileUploadIdleTimeout ++ crlf_)))%string.

Definition bad_name_chars : list ascii := [quote; ascii_of_nat 92; ascii_of_nat 13; ascii_of_nat 10; ascii_of_nat 0].

Definition name_ok (name : string) : bool :=
  HasPrefix name "RAM:hideck-" && forallb (λ a, negb (existsb (Ascii.eqb a) bad_name_chars)) (list_ascii_of_string name).

(** A line with the result: it confirms the upload, or says what is wrong. *)
Definition confirmation (line : string) (data : bytes) : option upload_error :=
  match split_char comma (TrimSpace (TrimPrefix line "+QFUPL:")) with
  | [size; sum] =>
      match Atoi (TrimSpace size) with
      | Some n => if bool_decide (n = len data) then
          match ParseHex16 (TrimPrefix (TrimSpace sum) "0x") with
          | Some c => if bool_decide (c = uploadChecksum data) then None else Some WrongChecksum
          | None => Some WrongChecksum
          end else Some WrongLength
      | None => Some WrongLength
      end
  | _ => Some WrongFormat
  end.

(** The lines up to the end of the transfer; the deadline passes when the fuel,
    the number of lines that come before it, is used up. *)
Fixpoint upload_loop (fuel : nat) (data : bytes) (sent confirmed : bool) (resultErr : option upload_error) : prog request (option upload_error) :=
  match fuel with
  | O => Ret (Some Synchronization)
  | S fuel =>
      Do ReadLine (λ l : option string,
        match l with
        | None => Ret (Some Synchronization)
        | Some line =>
            let line := TrimSpace line in
            if bool_decide (line = "CONNECT") then
              if sent then Ret (Some Synchronization)
              else bind (writeUploadBytes (List.length data) data) (λ ok : bool,
                if ok then upload_loop fuel data true confirmed resultErr else Ret (Some Synchronization))
            else if HasPrefix line "+QFUPL:" then
              match confirmation line data with
              | None => upload_loop fuel data sent true resultErr
              | Some e => upload_loop fuel data sent confirmed (Some e)
              end
            else if bool_decide (line = "OK") then
              match resultErr with
              | Some e => Ret (Some e)
              | None => if negb sent || negb confirmed then Ret (Some Unconfirmed) else Ret None
              end
            else if bool_decide (line = "ERROR") || HasPrefix line "+CME ERROR" then Ret (Some Refused)
            else Do (Unsolicited line) (λ _ : unit, upload_loop fuel data sent confirmed resultErr)
        end)
  end.

Definition uploadFile (fuel : nat) (name : string) (data : bytes) : prog request (option upload_error) :=
  if negb (name_ok name) || bool_decide (data = []) then Ret (Some InvalidRequest)
  else
    let command := bytes_of (upload_command name data) in
    bind (writeUploadBytes (List.length command) command) (λ ok : bool,
      if ok then upload_loop fuel data false false None else Ret (Some Synchronization)).

(** What the modem's queue does with an upload: when it does not know whether the
    port takes commands again, it waits longer than the modem does and stops.
    The lines of [Unsolicited] that are codes are dispatched. *)
Definition handleFileUpload (fuel : nat) (name : string) (data : bytes) : prog request (list Command.effect * option upload_error) :=
  bind (uploadFile fuel name data) (λ r : option upload_error,
    Ret (match r with Some Synchronization => [Command.Disconnect "file_upload_unsynchronized"] | _ => [] end, r)).
End Upload.
