(* ===== verification/AtPortProofs.v ===== *)
(** * Properties of the serial port of a modem

    The lines do not depend on how the port cuts the bytes; a command gets the
    answer that follows it, and unsolicited codes are handed on; an upload
    succeeds only when the modem confirms it. *)

From Stdlib Require Import Ascii String.
From S2P Require Import Prelude GoText SmsCodec SmsCodecProofs Lines SimIdentity AtParse AtParseProofs Interaction AtPort.
From stdpp Require Import strings pretty.

#[local] Open Scope string_scope.
#[local] Open Scope Z_scope.

(** ** Lines from pieces *)

Module ReaderProofs.
Import Reader.

(** The complete lines of a text that are not empty, and what follows the last
    line end. *)
Definition delivered (s : string) : list string :=
  List.filter (λ l, negb (bool_decide (l = ""))) (TrimSpace <$> removelast (split_char LF s)).
Definition pending (s : string) : string := List.last (split_char LF s) "".

Lemma split_char_cut c s f r : cut_char c s = Some (f, r) → split_char c s = f :: split_char c r.
Proof.
  revert f. induction s as [|a s IH]; intros f; cbn; [done|]. destruct (Ascii.eqb a c); [by intros [= <- <-]|].
  destruct (cut_char c s) as [[f' r']|]; [|done]. intros [= <- <-]. by rewrite (IH f').
Qed.

Lemma split_char_uncut c s : cut_char c s = None → split_char c s = [s].
Proof.
  induction s as [|a s IH]; cbn; [done|]. destruct (Ascii.eqb a c); [done|].
  destruct (cut_char c s) as [[f' r']|]; [done|]. intros _. by rewrite IH.
Qed.

Lemma split_char_nonempty c s : split_char c s ≠ [].
Proof. destruct s as [|a s]; cbn; [done|]. destruct (Ascii.eqb a c); [done|]. by destruct (split_char c s). Qed.

Lemma cut_char_length c s f r : cut_char c s = Some (f, r) → (String.length r < String.length s)%nat.
Proof.
  revert f. induction s as [|a s IH]; intros f; cbn; [done|]. destruct (Ascii.eqb a c); [intros [= <- <-]; lia|].
  destruct (cut_char c s) as [[f' r']|]; [|done]. intros [= <- <-]. specialize (IH f' eq_refl). lia.
Qed.

Lemma removelast_cons {A} (x : A) l : l ≠ [] → removelast (x :: l) = x :: removelast l.
Proof. by destruct l. Qed.

Lemma complete_lines_spec fuel : ∀ s, (String.length s ≤ fuel)%nat →
  complete_lines fuel s = (Data <$> delivered s, pending s).
Proof.
  induction fuel as [|fuel IH]; intros s Hf; cbn [complete_lines]; unfold delivered, pending.
  - by destruct s; [|cbn in Hf; lia].
  - change (ascii_of_nat 10) with LF. destruct (cut_char LF s) as [[l rest]|] eqn:E; [|by rewrite split_char_uncut].
    pose proof (cut_char_length _ _ _ _ E).
    rewrite IH by lia. rewrite (split_char_cut _ _ _ _ E). pose proof (split_char_nonempty LF rest).
    rewrite removelast_cons by done. cbn [fmap list_fmap List.filter]. unfold delivered, pending.
    destruct (split_char LF rest) eqn:Er; [done|]. cbn [List.last]. destruct (decide (TrimSpace l = "")) as [He|He].
    + by rewrite (bool_decide_eq_true_2 (_ = "")), (bool_decide_eq_false_2 (_ ≠ "")) by tauto.
    + by rewrite (bool_decide_eq_false_2 (_ = "")), (bool_decide_eq_true_2 (_ ≠ "")) by tauto.
Qed.

Lemma split_char_app_pending c s t :
  split_char c (s +:+ t) = (removelast (split_char c s) ++ split_char c (List.last (split_char c s) "" +:+ t))%list.
Proof.
  induction s as [|a s IH]; [cbn; by rewrite append_nil|]. rewrite append_cons. cbn [split_char].
  pose proof (split_char_nonempty c s). destruct (Ascii.eqb a c) eqn:Ea.
  - rewrite IH, removelast_cons by done. destruct (split_char c s); done.
  - rewrite IH. destruct (split_char c s) as [|f l] eqn:E; [done|]. destruct l as [|g l].
    + cbn [removelast List.last app]. rewrite append_cons. cbn [split_char]. by rewrite Ea.
    + cbn [removelast List.last app]. done.
Qed.

Lemma split_last_one c s : split_char c (List.last (split_char c s) "") = [List.last (split_char c s) ""].
Proof.
  induction s as [|a s IH]; [done|]. cbn [split_char]. pose proof (split_char_nonempty c s). destruct (Ascii.eqb a c) eqn:Ea.
  - destruct (split_char c s); [done|]. exact IH.
  - destruct (split_char c s) as [|f l] eqn:E; [done|]. destruct l as [|g l]; [|exact IH].
    cbn [List.last] in *. cbn [split_char]. by rewrite Ea, IH.
Qed.

Lemma last_app_nonempty {A} (l k : list A) d : k ≠ [] → List.last (l ++ k) d = List.last k d.
Proof. intros Hk. induction l as [|x l IH]; [done|]. cbn [app]. rewrite <-IH. by destruct l, k. Qed.

Lemma delivered_app s t : delivered (s +:+ t) = (delivered s ++ delivered (pending s +:+ t))%list.
Proof.
  unfold delivered, pending. rewrite split_char_app_pending, removelast_app by apply split_char_nonempty.
  by rewrite fmap_app, List.filter_app.
Qed.

Lemma pending_app s t : pending (s +:+ t) = pending (pending s +:+ t).
Proof.
  unfold pending. rewrite split_char_app_pending. by rewrite last_app_nonempty by apply split_char_nonempty.
Qed.

Lemma pending_free c s : free_of c s → free_of c (pending s).
Proof.
  intros Hs. unfold pending. induction s as [|a s IH]; [done|]. apply Forall_cons in Hs as [Ha Hs]. specialize (IH Hs).
  cbn [split_char]. pose proof (split_char_nonempty LF s). destruct (Ascii.eqb a LF); destruct (split_char LF s) as [|f l]; try done.
  destruct l; [|exact IH]. cbn in *. by apply free_of_cons.
Qed.

(** *** Any pieces *)

Lemma no_prompt s : free_of ">"%char s → HasSuffix s "> " = false ∧ HasSuffix s ">" = false.
Proof.
  intros Hs. assert (Hr : free_of ">"%char (rev_string s)) by (unfold free_of; rewrite rev_string_list; by apply Forall_rev).
  unfold HasSuffix. change (rev_string "> ") with " >". change (rev_string ">") with ">".
  destruct (rev_string s) as [|a [|b t]]; [done|..].
  - apply Forall_cons in Hr as [Ha _]. cbn beta in Ha. unfold HasPrefix. cbn [String.prefix].
    destruct (ascii_dec " " a), (ascii_dec ">" a); subst; by try congruence.
  - apply Forall_cons in Hr as [Ha [Hb _]%Forall_cons]. cbn beta in Ha, Hb. unfold HasPrefix. cbn [String.prefix].
    destruct (ascii_dec " " a), (ascii_dec ">" a), (ascii_dec ">" b); subst; by try congruence.
Qed.

(** A run of reads: pieces of a text and timeouts between them. *)
Definition piece (x : read) : option string := match x with Bytes s => Some s | Timeout => Some "" | _ => None end.

Lemma append_empty s t : s +:+ t = "" → t = "".
Proof. by destruct s. Qed.

Lemma pieces_read xs ps : mapM piece xs = Some ps → ∀ r, free_of ">"%char (lineBuf r) → Forall (free_of ">"%char) ps →
  pending (lineBuf r) = lineBuf r →
  ∃ r', readLoop r xs = (Some r', Data <$> delivered (lineBuf r +:+ String.concat "" ps)) ∧
    lineBuf r' = pending (lineBuf r +:+ String.concat "" ps).
Proof.
  revert ps. induction xs as [|x xs IH]; intros ps Hps r Hb Hf Hp.
  - injection Hps as <-. exists r. cbn [String.concat readLoop]. rewrite append_nil_r. split; [|by rewrite Hp].
    unfold delivered. unfold pending in Hp. rewrite <-Hp, split_last_one. done.
  - cbn [mapM] in Hps. destruct (piece x) as [p|] eqn:Ep; [|done]. cbn in Hps. destruct (mapM piece xs) as [qs|] eqn:Eq; [|done].
    injection Hps as <-. apply Forall_cons in Hf as [Hfp Hf]. rewrite SmsCodecProofs.concat_cons. cbn [readLoop].
    destruct x as [data| | |]; try done; injection Ep as <-.
    + cbn [read_step]. case_bool_decide as He.
      { subst data. rewrite append_nil. destruct (IH qs eq_refl r Hb Hf Hp) as (r' & E & E'). exists r'. by rewrite E. }
      assert (Hfb : free_of ">"%char (lineBuf r +:+ data)) by by apply free_of_app.
      rewrite complete_lines_spec by done.
      destruct (no_prompt _ (pending_free _ _ Hfb)) as [-> ->]. cbn [orb].
      destruct (IH qs eq_refl (mkReader 0 (pending (lineBuf r +:+ data)))) as (r' & E & E').
      * by apply pending_free.
      * done.
      * cbn. unfold pending at 1. by rewrite split_last_one.
      * exists r'. rewrite E. cbn [lineBuf] in *. rewrite append_assoc, (delivered_app (lineBuf r +:+ data)), fmap_app, E'. by rewrite <-pending_app.
    + cbn [read_step]. rewrite append_nil. destruct (IH qs eq_refl r Hb Hf Hp) as (r' & E & E'). exists r'. by rewrite E.
Qed.

(** *** Lines on the wire *)

(** A line that is printed: empty, or visible at both ends, and without a prompt. *)
Definition wire_line (l : string) : Prop :=
  (l = "" ∨ (∃ a s, l = String a s ∧ visible a = true) ∧ ends_visible l) ∧ free_of CR l ∧ free_of LF l ∧ free_of ">"%char l.

Lemma trim_cr l : l = "" ∨ (∃ a s, l = String a s ∧ visible a = true) ∧ ends_visible l → TrimSpace (l +:+ String CR "") = l.
Proof.
  intros [->|[(a & s & -> & Ha) (b & u & Hr & Hb)]]; [reflexivity|]. unfold TrimSpace.
  assert (TrimLeftSpace (String a s +:+ String CR "") = String a s +:+ String CR "") as ->.
  { rewrite append_cons. by apply trim_front_id, first_cut_visible. }
  unfold TrimRightSpace. assert (Hl : ∃ n, String.length (String a s +:+ String CR "") = S n) by (rewrite append_cons; by eexists).
  destruct Hl as [n ->]. rewrite rev_string_app. change (rev_string (String CR "")) with (String CR "").
  rewrite append_cons, append_nil, Hr.
  cbn [trim_front]. change (first_cut (rev_string <$> space_runes) (String CR (String b u))) with (Some (String b u)). cbn match.
  rewrite trim_front_id by by apply first_cut_visible_rev. by rewrite <-Hr, rev_string_involutive.
Qed.

Definition nonempty (lines : list string) : list string := List.filter (λ l, negb (bool_decide (l = ""))) lines.

Lemma split_wire lines : Forall wire_line lines →
  split_char LF (crlf lines) = (((λ l, l +:+ String CR "") <$> lines) ++ [""])%list.
Proof.
  induction 1 as [|l lines (_ & _ & Hlf & _) _ IH]; [done|]. cbn [crlf fmap list_fmap app].
  replace (l +:+ String CR (String LF (crlf lines))) with ((l +:+ String CR "") +:+ String LF (crlf lines)) by by rewrite <-append_assoc.
  rewrite split_char_app; [by rewrite IH|]. apply free_of_app; [done|]. by repeat constructor.
Qed.

Lemma wire_delivered lines : Forall wire_line lines → delivered (crlf lines) = nonempty lines ∧ pending (crlf lines) = "".
Proof.
  intros H. unfold delivered, pending, nonempty. rewrite split_wire by done. rewrite removelast_last, List.last_last. split; [|done].
  f_equal. rewrite <-list_fmap_compose. transitivity (id <$> lines); [|apply list_fmap_id]. apply list_fmap_ext. intros i l Hl. cbn.
  apply trim_cr. by destruct (Forall_lookup_1 _ _ _ _ H Hl).
Qed.

Lemma wire_free lines : Forall wire_line lines → free_of ">"%char (crlf lines).
Proof.
  induction 1 as [|l lines (_ & _ & _ & Hg) _ IH]; [constructor|]. cbn [crlf]. apply free_of_app; [done|]. by repeat constructor.
Qed.

End ReaderProofs.

(** ** The answer of a command *)

Module CommandProofs.
Import Command ReaderProofs.

Section Handler.
Context (unicode_upper : string → string).

(** A line that does not end the answer to a command. *)
Definition plain (req : commandRequest) (line : string) : Prop :=
  isVoiceCommandFailure unicode_upper (cmd req) line = false ∧ line ≠ "OK" ∧ Contains line "ERROR" = false ∧ Contains line ">" = false.

(** What belongs to the answer: everything but the codes that only tell an event. *)
Definition kept (line : string) : bool := negb (isURC line && isPureAsyncURC line).
Definition codes (lines : list string) : list effect := URC <$> List.filter isURC lines.

Lemma ok_not_failure command : isVoiceCommandFailure unicode_upper command "OK" = false.
Proof. unfold isVoiceCommandFailure. cbv zeta. rewrite (bool_decide_eq_false_2 (TrimSpace "OK" ∈ _)); [apply andb_false_r|]. vm_compute. set_solver. Qed.

Lemma resp_loop_plain running req prompt lines : Forall (plain req) lines → ∀ full streak events,
  resp_loop unicode_upper running req prompt full streak ((Line <$> lines) ++ events) =
  let r := resp_loop unicode_upper running req prompt (full ++ List.filter kept lines) streak events in
  mkResult (codes lines ++ effects r) (answer_ r) (streak_ r) (rest r).
Proof.
  induction 1 as [|line lines (H1 & H2 & H3 & H4) _ IH]; intros full streak events.
  { cbn [fmap list_fmap app List.filter]. rewrite app_nil_r. by destruct (resp_loop _ _ _ _ _ _ _). }
  cbn [fmap list_fmap app resp_loop]. rewrite H1, H3, H4. rewrite (bool_decide_eq_false_2 (line = "OK")) by done.
  unfold codes, kept. cbn [List.filter]. destruct (isURC line) eqn:Eu; cbn [andb negb].
  - destruct (isPureAsyncURC line) eqn:Ep; cbn [negb]; rewrite IH; cbv zeta; [done|]. by rewrite <-app_assoc.
  - rewrite IH. cbv zeta. by rewrite <-app_assoc.
Qed.

(** The end of the answer. *)
Lemma resp_loop_ok running req prompt full streak events :
  resp_loop unicode_upper running req prompt full streak (Line "OK" :: events) =
  mkResult [] (Response (join_lines (String LF "") full)) 0 events.
Proof. cbn [resp_loop]. by rewrite ok_not_failure. Qed.

Lemma answered running req streak lines events :
  cancelled req = false → barrier req = false → Forall (plain req) lines →
  handleCommand unicode_upper running None req streak ((Line <$> lines) ++ Line "OK" :: events) =
  mkResult (Wrote (cmd req ++ String CR (String LF "")) :: codes lines) (Response (join_lines (String LF "") (List.filter kept lines))) 0 events.
Proof.
  intros Hc Hb Hl. unfold handleCommand. rewrite Hc, Hb. rewrite resp_loop_plain by done. cbv zeta. rewrite resp_loop_ok. cbn. by rewrite app_nil_r.
Qed.

(** Without an end the timer fires: the command fails, its codes were handed on,
    and the watchdog counts. *)
Lemma timed_out running req streak lines :
  cancelled req = false → barrier req = false → Forall (plain req) lines →
  let r := handleCommand unicode_upper running None req streak (Line <$> lines) in
  answer_ r = Failed TimedOut ∧
  (Disconnect "at_timeout_threshold" ∈ effects r ↔ running = true ∧ highPriority req = false ∧ atTimeoutWatchdogThreshold <= streak + 1) ∧
  streak_ r = (if highPriority req then streak else streak + 1).
Proof.
  intros Hc Hb Hl. unfold handleCommand. rewrite Hc, Hb. rewrite <-(app_nil_r (Line <$> lines)), resp_loop_plain by done. cbv zeta.
  cbn [resp_loop]. unfold recordATTimeout.
  assert (Hno : ∀ r, Disconnect r ∉ codes lines).
  { intros r Hr. unfold codes in Hr. apply list_elem_of_fmap in Hr as (? & ? & ?). done. }
  destruct (highPriority req); cbn [effects answer_ streak_].
  - split; [done|]. split; [|done]. split; [|by intros (_ & ? & _)]. rewrite !elem_of_cons, elem_of_app, !elem_of_cons. intros [|[|[|[]%not_elem_of_nil]]]; try done. by apply Hno in H.
  - split; [done|]. split; [|done]. rewrite !elem_of_cons, elem_of_app, elem_of_cons. case_bool_decide as Hs; destruct running; cbn.
    + split; [intros _; split_and!; [done|done|lia]|]. intros _. right. right. right. by left.
    + split; [|by intros (? & _)]. intros [|[|[|[]%not_elem_of_nil]]]; try done. by apply Hno in H.
    + split; [|intros (_ & _ & ?); lia]. intros [|[|[|[]%not_elem_of_nil]]]; try done. by apply Hno in H.
    + split; [|by intros (? & _)]. intros [|[|[|[]%not_elem_of_nil]]]; try done. by apply Hno in H.
Qed.
End Handler.

(** *** The text of the answer *)

Lemma remove_char_free c s : free_of c s → remove_char c s = s.
Proof. intros H. rewrite <-(append_nil_r s) at 1. rewrite remove_char_app by done. cbn. by rewrite append_nil_r. Qed.

Lemma join_cons sep l k lines : join_lines sep (l :: k :: lines) = l +:+ (sep +:+ join_lines sep (k :: lines)).
Proof. done. Qed.

Lemma splitLines_join lines : lines ≠ [] → Forall line_ok lines → splitLines (join_lines (String LF "") lines) = lines.
Proof.
  intros Hne H. unfold splitLines. change (ascii_of_nat 10) with LF. change (ascii_of_nat 13) with CR.
  assert (E : split_char LF (remove_char CR (join_lines (String LF "") lines)) = lines).
  { induction H as [|l lines (Ht & Hc & Hl) H IH]; [done|]. destruct lines as [|k lines].
    - cbn. rewrite remove_char_free by done. by apply split_char_last.
    - rewrite join_cons, append_cons, append_nil, remove_char_app by done. cbn [remove_char].
      change (Ascii.eqb LF CR) with false. cbn match. rewrite split_char_app by done. by rewrite IH. }
  rewrite E. rewrite <-(list_fmap_id lines) at 2. apply list_fmap_ext. intros i l Hl. by destruct (Forall_lookup_1 _ _ _ _ H Hl).
Qed.

Lemma wire_line_ok l : wire_line l → line_ok l.
Proof.
  intros ([->|[(a & s & -> & Ha) He]] & Hc & Hl & _); [by split|]. split_and!; [|done|done]. by apply TrimSpace_ends.
Qed.

Lemma Contains_free c l : free_of c l → Contains l (String c "") = false.
Proof.
  induction l as [|a l IH]; [done|]. intros [Ha H]%Forall_cons. cbn [Contains]. rewrite IH by done. rewrite orb_false_r.
  cbn [String.prefix]. destruct (ascii_dec c a); [congruence|done].
Qed.

Lemma nonempty_app l k : nonempty (l ++ k) = (nonempty l ++ nonempty k)%list.
Proof. apply List.filter_app. Qed.

Section Exchange.
Context (unicode_upper : string → string) (running fatal : bool) (req : commandRequest) (streak : Z).
Context (lines later : list string).

(** The modem prints some lines, OK and what comes later, and the port delivers
    the bytes in any pieces. *)
Definition printed (xs : list Reader.read) : Prop :=
  ∃ ps, mapM piece xs = Some ps ∧ String.concat "" ps = crlf (lines ++ "OK" :: later).

Lemma pieces_free ps s : String.concat "" ps = s → free_of ">"%char s → Forall (free_of ">"%char) ps.
Proof using.
  revert s. induction ps as [|p ps IH]; intros s E Hs; [constructor|]. rewrite SmsCodecProofs.concat_cons in E. subst s.
  unfold free_of in Hs. rewrite list_ascii_app in Hs. apply Forall_app in Hs as [H1 H2]. constructor; [done|]. by apply (IH _ eq_refl).
Qed.

Lemma exchanged xs : printed xs → Forall wire_line lines → Forall wire_line later → Forall (plain unicode_upper req) (nonempty lines) →
  cancelled req = false → barrier req = false →
  ∃ r' out, Reader.readLoop Reader.init xs = (Some r', out) ∧ Reader.lineBuf r' = "" ∧
    handleCommand unicode_upper running None req streak (event_of fatal <$> out) =
    mkResult (Wrote (cmd req ++ String CR (String LF "")) :: codes (nonempty lines))
      (Response (join_lines (String LF "") (List.filter kept (nonempty lines)))) 0 (Line <$> nonempty later).
Proof using.
  intros (ps & Hps & Hcat) Hw Hl Hp Hc Hb.
  assert (Hw' : Forall wire_line (lines ++ "OK" :: later)).
  { apply Forall_app. split; [done|]. constructor; [|done]. split; [right; split; [by eexists _, _|by exists "K"%char, "O"]|].
    by repeat constructor. }
  destruct (pieces_read xs ps Hps Reader.init) as (r' & E & E').
  - constructor.
  - eapply pieces_free; [exact Hcat|by apply wire_free].
  - done.
  - cbn [Reader.lineBuf Reader.init] in *. rewrite append_nil, Hcat in E, E'. destruct (wire_delivered _ Hw') as [Hd Hpe].
    rewrite Hd in E. rewrite Hpe in E'. exists r', (Reader.Data <$> nonempty (lines ++ "OK" :: later)). split; [done|]. split; [done|].
    rewrite nonempty_app, !fmap_app, <-!list_fmap_compose. change (nonempty ("OK" :: later)) with ("OK" :: nonempty later). cbn [fmap list_fmap event_of].
    by apply (answered _ running req streak (nonempty lines)).
Qed.
End Exchange.

(** C25: A command that the modem answers with OK gets the lines that the modem
    printed before it.  The queue was empty and no part of a line was waiting;
    the modem prints lines, OK and perhaps more lines; no line has the mark of a
    prompt or white space at its ends, and those before OK do not end a command
    themselves.  Then, in whatever pieces the port delivered the bytes: the codes
    among the lines are handed on in order, those that only tell of an event are
    left out of the answer, the watchdog is reset, no part of a line is left, and
    what was printed after OK waits in the queue, whole and in order.  The parsers
    find their lines in the answer.  (A code with a mark or with the word ERROR
    ends the command, [marked_code_lost], a piece that ends after a mark cuts its
    line, [cut_after_mark], and the next command takes what was left in the queue,
    [late_answer_taken].) *)
Theorem command_answered unicode_upper running fatal req streak lines later xs :
  printed lines later xs → Forall wire_line lines → Forall wire_line later → Forall (plain unicode_upper req) (nonempty lines) →
  cancelled req = false → barrier req = false →
  ∃ r' out text, Reader.readLoop Reader.init xs = (Some r', out) ∧ Reader.lineBuf r' = "" ∧
    handleCommand unicode_upper running None req streak (event_of fatal <$> out) =
      mkResult (Wrote (cmd req ++ String CR (String LF "")) :: codes (nonempty lines)) (Response text) 0 (Line <$> nonempty later) ∧
    (List.filter kept (nonempty lines) ≠ [] → splitLines text = List.filter kept (nonempty lines)) ∧
    (∀ prefix, prefix ≠ "" → findLineWithPrefix text prefix = List.find (λ l, HasPrefix l prefix) (List.filter kept (nonempty lines))).
Proof.
  intros Hpr Hw Hla Hp Hc Hb. destruct (exchanged unicode_upper running fatal req streak lines later xs Hpr Hw Hla Hp Hc Hb) as (r' & out & E & Eb & Eh).
  exists r', out, (join_lines (String LF "") (List.filter kept (nonempty lines))).
  assert (Hok : Forall line_ok (List.filter kept (nonempty lines))).
  { apply Forall_forall. intros l Hl. apply list_elem_of_In, filter_In in Hl as [Hl _]. apply filter_In in Hl as [Hl _].
    apply wire_line_ok. rewrite Forall_forall in Hw. apply Hw. by apply list_elem_of_In. }
  assert (Hs : List.filter kept (nonempty lines) ≠ [] → splitLines (join_lines (String LF "") (List.filter kept (nonempty lines))) = List.filter kept (nonempty lines)).
  { intros Hne. by apply splitLines_join. }
  split_and!; [done|done|done|done|]. intros prefix Hpre. unfold findLineWithPrefix.
  destruct (decide (List.filter kept (nonempty lines) = [])) as [->|Hne]; [|by rewrite Hs].
  destruct prefix; [done|reflexivity].
Qed.

(** The registration, split in the middle of its line, with a message announced
    in between and a call that comes after OK. *)
Lemma command_answered_witness :
  let req := mkRequest "AT+CREG?" false false false false false "" in
  let xs := [Reader.Bytes (String CR (String LF "+CREG: 0,")); Reader.Timeout;
    Reader.Bytes ("5" ++ String CR (String LF ("+CMTI: " ++ q "ME" ++ ",3" ++ String CR (String LF "O"))));
    Reader.Bytes ("K" ++ String CR (String LF ("RING" ++ String CR (String LF ""))))] in
  ∃ r' out text, Reader.readLoop Reader.init xs = (Some r', out) ∧ Reader.lineBuf r' = "" ∧
    handleCommand id true None req 3 (event_of false <$> out) =
      mkResult [Wrote ("AT+CREG?" ++ String CR (String LF "")); URC "+CREG: 0,5"; URC ("+CMTI: " ++ q "ME" ++ ",3")] (Response text) 0 [Line "RING"] ∧
    parseCREG text = Some (5, "", "").
Proof.
  intros req xs.
  destruct (command_answered id true false req 3 [""; "+CREG: 0,5"; "+CMTI: " ++ q "ME" ++ ",3"] ["RING"] xs) as (r' & out & text & E & Eb & Eh & Hs & _).
  - exists [String CR (String LF "+CREG: 0,"); ""; "5" ++ String CR (String LF ("+CMTI: " ++ q "ME" ++ ",3" ++ String CR (String LF "O"))); "K" ++ String CR (String LF ("RING" ++ String CR (String LF "")))].
    split; reflexivity.
  - constructor; [split; [by left|by repeat constructor]|]. constructor; [split; [right|by repeat constructor]|].
    { split; [by eexists _, _|]. by exists "5"%char, ",0 :GERC+". }
    constructor; [|done]. split; [right|by repeat constructor].
    split; [by eexists _, _|]. by exists "3"%char, (String "," (String quote ("EM" ++ String quote " :ITMC+"))).
  - constructor; [split; [right|by repeat constructor]|done]. split; [by eexists _, _|]. by exists "G"%char, "NIR".
  - repeat constructor; vm_compute; done.
  - done.
  - done.
  - exists r', out, text. split_and!; [done|done|exact Eh|]. unfold parseCREG, findLineWithPrefix. rewrite Hs by (vm_compute; done). reflexivity.
Defined.

(** ** What is lost *)

(** A code whose text has the word ERROR or a prompt ends the command that is
    running: it is not handed on, and the answer is lost. *)
Lemma marked_code_lost unicode_upper running streak events :
  let req := mkRequest "AT+CSQ" false false false false false "" in
  let ussd := "+CUSD: 0," ++ q "1> Balance" ++ ",15" in
  resp_loop unicode_upper running req false [] streak (Line ussd :: Line "+CSQ: 20,99" :: Line "OK" :: events) =
    mkResult [] (Response "> ") 0 (Line "+CSQ: 20,99" :: Line "OK" :: events).
Proof.
  intros req ussd. cbn [resp_loop]. assert (isVoiceCommandFailure unicode_upper (cmd req) ussd = false) as -> by (vm_compute; reflexivity).
  reflexivity.
Qed.

(** The next command then gets the rest of that answer. *)
Lemma late_answer_taken unicode_upper running streak events :
  let req := mkRequest "AT+CIMI" false false false false false "" in
  answer_ (handleCommand unicode_upper running None req streak (Line "+CSQ: 20,99" :: Line "OK" :: Line "460010123456789" :: Line "OK" :: events)) =
    Response "+CSQ: 20,99".
Proof. by vm_compute. Qed.

(** A piece that ends after a mark is taken for a prompt: the line is cut, and
    its beginning is lost. *)
Lemma cut_after_mark :
  let whole := ("+CUSD: 0," ++ q "1> Balance" ++ ",15" ++ String CR (String LF ""))%string in
  (Reader.readLoop Reader.init [Reader.Bytes whole]).2 = [Reader.Data ("+CUSD: 0," ++ q "1> Balance" ++ ",15")] ∧
  (Reader.readLoop Reader.init [Reader.Bytes (substring 0 12 whole); Reader.Bytes (substring 12 100 whole)]).2 =
    [Reader.Data "> "; Reader.Data ("Balance" ++ String quote ",15")].
Proof. split; vm_compute; reflexivity. Qed.
End CommandProofs.

(** ** Uploads *)

Module UploadProofs.
Import Upload.

Definition step_of : Type := @exchange request answers.

(** The bytes that the port took, and the lines that it gave. *)
Definition taken (x : step_of) : bytes :=
  match x with
  | mkExchange c r =>
      match c return answer c → bytes with
      | Write chunk => λ r : Z * bool, if r.2 then [] else take (Z.to_nat r.1) chunk
      | _ => λ _, []
      end r
  end.
Definition line_of (x : step_of) : list string :=
  match x with
  | mkExchange c r =>
      match c return answer c → list string with
      | ReadLine => λ r : option string, match r with Some l => [TrimSpace l] | None => [] end
      | _ => λ _, []
      end r
  end.
Definition written (t : list step_of) : bytes := List.concat (taken <$> t).
Definition lines_read (t : list step_of) : list string := List.concat (line_of <$> t).

(** A writer takes no more than it is given. *)
Definition writer_ok (x : step_of) : Prop :=
  match x with
  | mkExchange c r =>
      match c return answer c → Prop with
      | Write chunk => λ r : Z * bool, r.1 <= len chunk
      | _ => λ _, True
      end r
  end.

Lemma written_app t1 t2 : written (t1 ++ t2) = (written t1 ++ written t2)%list.
Proof. unfold written. by rewrite fmap_app, List.concat_app. Qed.
Lemma lines_app t1 t2 : lines_read (t1 ++ t2) = (lines_read t1 ++ lines_read t2)%list.
Proof. unfold lines_read. by rewrite fmap_app, List.concat_app. Qed.

Lemma all_written fuel : ∀ data t ok, (List.length data ≤ fuel)%nat → Forall writer_ok t →
  exec (writeUploadBytes fuel data) t ok → lines_read t = [] ∧ (ok = true → written t = data).
Proof.
  induction fuel as [|fuel IH]; intros data t ok Hf Hw; cbn [writeUploadBytes exec].
  - intros [-> ->]. destruct data; [done|cbn in Hf; lia].
  - case_bool_decide as Hd; [by intros [-> ->]; subst data|]. cbn [exec]. intros ([n failed] & t' & -> & Hx).
    apply Forall_cons in Hw as [Hn Hw]. cbn [fst snd writer_ok] in *. destruct failed; [by destruct Hx as [-> ->]|].
    case_bool_decide as Hpos; [by destruct Hx as [-> ->]|].
    assert (Hl : (List.length (drop (Z.to_nat n) data) ≤ fuel)%nat).
    { rewrite length_drop. assert (List.length data ≠ 0%nat) by (by intros ?%nil_length_inv). lia. }
    destruct (IH _ _ _ Hl Hw Hx) as [Hlines Hwr]. split; [exact Hlines|].
    intros Hok. change (written (_ :: t')) with (take (Z.to_nat n) (take fileUploadChunkBytes data) ++ written t')%list.
    rewrite (Hwr Hok). rewrite take_take, Nat.min_l; [apply take_drop|]. rewrite len_take in Hn. lia.
Qed.

Definition terminal (line : string) : Prop := line = "OK" ∨ line = "ERROR" ∨ HasPrefix line "+CME ERROR" = true.
Definition confirms (data : bytes) (line : string) : Prop := HasPrefix line "+QFUPL:" = true ∧ confirmation line data = None.

Definition ended (data : bytes) (sent confirmed : bool) (resultErr : option upload_error) (t : list step_of) (r : option upload_error) : Prop :=
  match r with
  | None =>
      written t = (if sent then [] else data) ∧ (sent = true ∨ "CONNECT" ∈ lines_read t) ∧
      (confirmed = true ∨ Exists (confirms data) (lines_read t)) ∧ resultErr = None ∧ ∃ before_, lines_read t = (before_ ++ ["OK"])%list
  | Some Synchronization => True
  | Some _ => ∃ before_ l, lines_read t = (before_ ++ [l])%list ∧ terminal l
  end.

(** A line that does not end the transfer. *)
Lemma ended_line data sent confirmed resultErr (x : step_of) t r l sent' confirmed' resultErr' :
  line_of x = [l] → taken x = [] →
  ended data sent' confirmed' resultErr' t r →
  (sent' = sent) → (confirmed' = true → confirmed = true ∨ confirms data l) → (resultErr' = None → resultErr = None) →
  ended data sent confirmed resultErr (x :: t) r.
Proof.
  intros Hl Ht He -> Hc Hr. unfold ended in *.
  change (lines_read (x :: t)) with (line_of x ++ lines_read t)%list. change (written (x :: t)) with (taken x ++ written t)%list.
  rewrite Hl, Ht. cbn [app]. destruct r as [[]|]; try done.
  1-6: destruct He as (b & k & -> & Hk); by exists (l :: b), k.
  destruct He as (Hw & Hs & Hcf & Hre & (b & Hb)). split_and!; [done| | |by apply Hr|exists (l :: b); by rewrite Hb].
  - destruct Hs as [|Hs]; [by left|]. right. apply elem_of_cons. by right.
  - destruct Hcf as [Hcf|Hcf]; [destruct (Hc Hcf); [by left|]|]; right; apply Exists_cons; tauto.
Qed.

Lemma upload_loop_ended fuel data : ∀ sent confirmed resultErr t r, Forall writer_ok t →
  exec (upload_loop fuel data sent confirmed resultErr) t r → ended data sent confirmed resultErr t r.
Proof.
  induction fuel as [|fuel IH]; intros sent confirmed resultErr t r Hw; cbn [upload_loop exec]; [by intros [-> ->]|].
  intros (l & t' & -> & Hx). apply Forall_cons in Hw as [_ Hw]. destruct l as [line|]; [|by destruct Hx as [-> ->]].
  revert Hx. set (l := TrimSpace line). set (x := @mkExchange request answers ReadLine (Some line)).
  assert (Hlx : line_of x = [l]) by done. assert (Htx : taken x = []) by done.
  case_bool_decide as Hcn.
  { destruct sent; [by intros [-> ->]|]. intros (t1 & t2 & ok & -> & H1 & H2)%exec_bind. apply Forall_app in Hw as [Hw1 Hw2].
    destruct (all_written _ _ _ _ (le_n _) Hw1 H1) as [Hl1 Hd]. destruct ok; [|by destruct H2 as [-> ->]].
    specialize (IH _ _ _ _ _ Hw2 H2). unfold ended in *.
    change (lines_read (x :: t1 ++ t2)) with (line_of x ++ lines_read (t1 ++ t2))%list. change (written (x :: t1 ++ t2)) with (taken x ++ written (t1 ++ t2))%list.
    rewrite Hlx, Htx, written_app, lines_app, Hl1, (Hd eq_refl). cbn [app]. destruct r as [[]|]; try done.
    1-6: destruct IH as (b & k & -> & Hk); by exists (l :: b), k.
    destruct IH as (-> & _ & Hc & Hr & (b & Hb)). rewrite app_nil_r, elem_of_cons, Exists_cons, Hcn.
    split_and!; [done|by right; left|tauto|done|exists ("CONNECT" :: b); by rewrite Hb]. }
  destruct (HasPrefix l "+QFUPL:") eqn:Hq.
  { destruct (confirmation l data) as [e|] eqn:Ec; intros Hx; specialize (IH _ _ _ _ _ Hw Hx).
    - eapply (ended_line data sent confirmed resultErr x); [done|done|exact IH|done|by left|done].
    - eapply (ended_line data sent confirmed resultErr x); [done|done|exact IH|done|by right|done]. }
  case_bool_decide as Hok.
  { destruct resultErr as [e|].
    - intros [-> ->]. unfold ended. change (lines_read [x]) with [l]. destruct e; try done; by exists [], l; (split; [done|by left]).
    - destruct sent, confirmed; cbn [negb orb]; intros [-> ->]; unfold ended; change (lines_read [x]) with [l]; rewrite ?Hok.
      + split_and!; [done|by left|by left|done|by exists []].
      + exists [], "OK". split; [done|by left].
      + exists [], "OK". split; [done|by left].
      + exists [], "OK". split; [done|by left]. }
  destruct (bool_decide (l = "ERROR") || HasPrefix l "+CME ERROR") eqn:Ht.
  { intros [-> ->]. unfold ended. exists [], l. split; [done|]. apply orb_true_iff in Ht as [Ht%bool_decide_eq_true|Ht]; unfold terminal; tauto. }
  intros ([] & t2 & -> & Hx). apply Forall_cons in Hw as [_ Hw]. specialize (IH _ _ _ _ _ Hw Hx).
  eapply (ended_line data sent confirmed resultErr x); [done|done| |done|by left|done].
  unfold ended in *. exact IH.
Qed.

(** C12: A file is reported as uploaded only when the whole command and the whole
    file were written, in this order, after the modem asked for it, and the
    modem confirmed the length and the checksum before its final OK.  Any other
    failure is reported after a line that ends the transfer, so that the next
    command does not write into the file, or the modem is stopped. *)
Theorem upload_confirmed fuel name data t fx r :
  Forall writer_ok t → exec (handleFileUpload fuel name data) t (fx, r) →
  match r with
  | None => fx = [] ∧ written t = (bytes_of (upload_command name data) ++ data)%list ∧ "CONNECT" ∈ lines_read t ∧
      Exists (confirms data) (lines_read t) ∧ ∃ before_, lines_read t = (before_ ++ ["OK"])%list
  | Some Synchronization => fx = [Command.Disconnect "file_upload_unsynchronized"]
  | Some e => fx = [] ∧ (t = [] ∧ e = InvalidRequest ∨ ∃ before_ l, lines_read t = (before_ ++ [l])%list ∧ terminal l)
  end.
Proof.
  intros Hw (t0 & tn & r' & -> & Hx & [-> [= -> ->]])%exec_bind. rewrite app_nil_r in *.
  revert Hx. unfold uploadFile. destruct (_ || _); [by intros [-> ->]; split; [|left]|]. cbv zeta.
  intros (t1 & t2 & ok & -> & H1 & H2)%exec_bind. apply Forall_app in Hw as [Hw1 Hw2].
  destruct (all_written _ _ _ _ (le_n _) Hw1 H1) as [Hl1 Hd]. destruct ok; [|by destruct H2 as [-> ->]].
  pose proof (upload_loop_ended _ _ _ _ _ _ _ Hw2 H2) as He. rewrite lines_app, written_app, Hl1, (Hd eq_refl). cbn [app].
  unfold ended in He. destruct r' as [[]|]; try done; try (split; [done|by right]).
  destruct He as (-> & [|Hs] & [|Hc] & _ & Hb); try done.
Qed.

(** A modem that takes at most [size] bytes at a time and prints these lines. *)
Definition modem (size : Z) (lines : list string) (c : request) : answer c * list string :=
  match c return answer c * list string with
  | Write chunk => ((Z.min size (len chunk), false), lines)
  | ReadLine => (head lines, tail lines)
  | Unsolicited _ => (tt, lines)
  end.

(** Two bytes at a time, and a message announced during the upload. *)
Lemma upload_confirmed_witness :
  let program := handleFileUpload 6 "RAM:hideck-a" [1; 2; 3] in
  let x := run_on (modem 2) program [crlf_; ("CONNECT" ++ crlf_)%string; "+CMTI: 1,2"; "+QFUPL: 3,202"; "OK"] in
  x.1.2 = ([], None) ∧ written x.1.1 = (bytes_of (upload_command "RAM:hideck-a" [1; 2; 3]) ++ [1; 2; 3])%list ∧
  List.length (lines_read x.1.1) = 5%nat.
Proof.
  intros program x. assert (Hx : x.1.2 = ([], None)) by (vm_compute; reflexivity). split; [exact Hx|].
  assert (Hw : Forall writer_ok x.1.1) by (vm_compute; repeat constructor; discriminate).
  assert (He : exec program x.1.1 ([], None)) by (rewrite <-Hx; exact (run_exec _ program _)).
  destruct (upload_confirmed 6 "RAM:hideck-a" [1; 2; 3] x.1.1 [] None Hw He) as (_ & Hd & _). split; [exact Hd|]. vm_compute. reflexivity.
Defined.

(** Whatever the sizes of the pieces that the port takes, a modem that asks for
    the file, confirms it and ends gets it. *)
Lemma run_on_bind {S A B} (device : S → ∀ c, answer c * S) (p : prog request A) (f : A → prog request B) s :
  (run_on device (bind p f) s).1.2 = (run_on device (f (run_on device p s).1.2) (run_on device p s).2).1.2.
Proof.
  revert s. induction p as [a|c k IH]; intros s; cbn [bind run_on]; [done|].
  destruct (device s c) as [r s1]. specialize (IH r s1).
  destruct (run_on device (bind (k r) f) s1) as [[t1 b1] s2], (run_on device (k r) s1) as [[t2 a2] s3]. exact IH.
Qed.

Lemma run_on_do {S A} (device : S → ∀ c, answer c * S) c (k : answer c → prog request A) s :
  (run_on device (Do c k) s).1.2 = (run_on device (k (device s c).1) (device s c).2).1.2.
Proof. cbn [run_on]. destruct (device s c) as [r s1]. cbn [fst snd]. by destruct (run_on device (k r) s1) as [[t b] s2]. Qed.

Lemma modem_takes size lines fuel : ∀ data, 0 < size → (List.length data ≤ fuel)%nat →
  (run_on (modem size) (writeUploadBytes fuel data) lines).1.2 = true ∧
  (run_on (modem size) (writeUploadBytes fuel data) lines).2 = lines.
Proof.
  induction fuel as [|fuel IH]; intros data Hs Hf; cbn [writeUploadBytes run_on]; [done|].
  case_bool_decide as Hd; [done|]. cbn [run_on modem fst snd].
  assert (Hp : List.length data ≠ 0%nat) by (by intros ?%nil_length_inv).
  assert (Hn : 0 < Z.min size (len (take fileUploadChunkBytes data))).
  { rewrite len_take. unfold len, fileUploadChunkBytes. lia. }
  rewrite bool_decide_false by lia.
  specialize (IH (drop (Z.to_nat (Z.min size (len (take fileUploadChunkBytes data)))) data) Hs ltac:(rewrite length_drop; lia)).
  by destruct (run_on _ _ lines) as [[t b] s].
Qed.

Lemma upload_accepted size name data line more fuel : 0 < size → name_ok name = true → data ≠ [] →
  confirms data (TrimSpace line) → TrimSpace line ≠ "CONNECT" → (3 ≤ fuel)%nat →
  (run_on (modem size) (uploadFile fuel name data) ("CONNECT" :: line :: "OK" :: more)).1.2 = None.
Proof.
  intros Hs Hn Hd [Hq Hc] Hl Hf. unfold uploadFile. rewrite Hn, bool_decide_false by done. cbn [negb orb].
  rewrite run_on_bind. destruct (modem_takes size ("CONNECT" :: line :: "OK" :: more) _ (bytes_of (upload_command name data)) Hs (le_n _)) as [-> ->].
  destruct fuel as [|[|[|fuel]]]; [lia..|]. cbn [upload_loop].
  rewrite run_on_do. cbn [modem head tail fst snd]. rewrite bool_decide_true by reflexivity. rewrite run_on_bind.
  destruct (modem_takes size (line :: "OK" :: more) _ data Hs (le_n _)) as [-> ->].
  rewrite run_on_do. cbn [modem head tail fst snd]. rewrite bool_decide_false, Hq, Hc by done.
  rewrite run_on_do. cbn [modem head tail fst snd]. by vm_compute.
Qed.
End UploadProofs.
