(* ===== verification/Mbn.v ===== *)
(** * Carrier profiles of a modem (internal/mbn)

    The answers of a modem about its profiles (protocol.go), and the operations on
    them (service.go, operation_start.go, operations.go, trial.go, preflight.go,
    policy.go, policy_recovery.go, assets.go): what is checked before a service is
    stopped, what is written, read back and restored, and what is recorded at each
    stage.  The store, the files, the modem and its session answer requests; an
    operation runs in its own goroutine, and everything else may happen between
    two of its requests.

    An error is the list of what [errors.Is] finds in it.  Parameters: the digest
    of a file, the parser of URLs, and [strings.ToLower] beyond ASCII. *)

From Stdlib Require Import Ascii String.
From S2P Require Import Prelude GoText SmsCodec SimIdentity AtParse Interaction.
From S2P Require ModemVoice.
From stdpp Require Import strings pretty.

#[local] Open Scope string_scope.
#[local] Open Scope Z_scope.

(** ** Data (types.go) *)

Inductive cause := OwnerChanged | Conflict | NotFound | NeedsAttention | Canceled | DeadlineExceeded | RegistrationGoal.
#[global] Instance cause_eq_dec : EqDecision cause.
Proof. solve_decision. Defined.

Definition error := list cause.
(** [errors.New], [errors.Is], and [errors.Join] of two errors that may be nil. *)
Definition New : error := [].
Definition Is (e : error) (c : cause) : bool := bool_decide (c ∈ e).
Definition Join (a b : option error) : option error :=
  match a, b with
  | None, None => None
  | _, _ => Some (default [] a ++ default [] b)%list
  end.

Definition Second : Z := 1000000000.
Definition DefaultRecovery : Z := 180 * Second.
Definition DefaultRegistration : Z := 120 * Second.
Definition DefaultStability : Z := 30 * Second.

Record Owner := mkOwner {
  DeviceID : string; IMEI : string; ICCID : string; Model : string; Firmware : string; Generation : Z; IdentityGeneration : Z }.
#[global] Instance owner_eq_dec : EqDecision Owner.
Proof. solve_decision. Defined.
Definition no_owner : Owner := mkOwner "" "" "" "" "" 0 0.

Record Profile := mkProfile {
  Index : Z; Selected : bool; Activated : bool; Name : string; Version : string; Date : string; Origin : string }.

Record Capabilities := mkCapabilities { c_List : bool; c_Select : bool; c_AutoSel : bool; c_Add : bool; c_Delete : bool; c_Raw : string }.
Definition no_capabilities : Capabilities := mkCapabilities false false false false false "".

Record Snapshot := mkSnapshot { s_Owner : Owner; s_Capabilities : Capabilities; AutoSel : bool; Profiles : list Profile }.
Definition no_snapshot : Snapshot := mkSnapshot no_owner no_capabilities false [].

Definition Active (s : Snapshot) : string :=
  match List.find Activated (Profiles s) with Some p => Name p | None => "" end.

Record Asset := mkAsset { a_ID : string; a_Name : string; SHA256 : string; Size : Z; a_Model : string; a_Firmware : string; Source : string }.

Record Policy := mkPolicy {
  SessionGeneration : Z; SessionIdentityGeneration : Z; Key : string; Mode : string; p_Model : string; p_Firmware : string;
  p_Profile : string; p_Version : string; p_AssetID : string; AllowImport : bool; UpdatedAt : Z }.

Record Request := mkRequest {
  r_ExpectedOwner : option Owner; RequestID : string; Kind : string; r_Profile : string; r_Version : string; r_AutoSel : bool; AssetID : string;
  ConfirmName : string; AcceptNoBackup : bool; AcceptUnknownCompatibility : bool; Replacement : string; Candidates : list string; Goal : string;
  ProbeURL : string; AllowData : bool; AllowNativeIMS : bool; TargetPLMN : string; RecoverySeconds : Z; RegistrationSeconds : Z; StabilitySeconds : Z;
  RestoreOperation : string }.
#[global] Instance request_eq_dec : EqDecision Request.
Proof. solve_decision. Defined.

Record TrialResult := mkTrial { t_Profile : string; StartedAt : Z; EndedAt : Z; Passed : bool; t_Error : option error; t_PLMN : string }.

Record Operation := mkOperation {
  RecoveryOf : list string; ExpectedOwner : Owner; ID : string; o_DeviceID : string; o_RequestID : string; o_Request : Request;
  Original : Snapshot; Current : Snapshot; Status : string; Stage : string; Error : option error; Warning : string;
  CancelRequested : bool; Results : list TrialResult }.

Definition with_status (status : string) (op : Operation) : Operation :=
  let '(mkOperation ro eo i d ri r orig cur _ stage e w c res) := op in mkOperation ro eo i d ri r orig cur status stage e w c res.
Definition with_stage (stage : string) (op : Operation) : Operation :=
  let '(mkOperation ro eo i d ri r orig cur status _ e w c res) := op in mkOperation ro eo i d ri r orig cur status stage e w c res.
Definition with_error (e : option error) (op : Operation) : Operation :=
  let '(mkOperation ro eo i d ri r orig cur status stage _ w c res) := op in mkOperation ro eo i d ri r orig cur status stage e w c res.
Definition with_warning (w : string) (op : Operation) : Operation :=
  let '(mkOperation ro eo i d ri r orig cur status stage e _ c res) := op in mkOperation ro eo i d ri r orig cur status stage e w c res.
Definition with_cancel (c : bool) (op : Operation) : Operation :=
  let '(mkOperation ro eo i d ri r orig cur status stage e w _ res) := op in mkOperation ro eo i d ri r orig cur status stage e w c res.
Definition with_original (orig : Snapshot) (op : Operation) : Operation :=
  let '(mkOperation ro eo i d ri r _ cur status stage e w c res) := op in mkOperation ro eo i d ri r orig cur status stage e w c res.
Definition with_current (cur : Snapshot) (op : Operation) : Operation :=
  let '(mkOperation ro eo i d ri r orig _ status stage e w c res) := op in mkOperation ro eo i d ri r orig cur status stage e w c res.
Definition with_result (t : TrialResult) (op : Operation) : Operation :=
  let '(mkOperation ro eo i d ri r orig cur status stage e w c res) := op in mkOperation ro eo i d ri r orig cur status stage e w c (res ++ [t])%list.

Definition Running (o : Operation) : bool :=
  bool_decide (Status o = "queued") || bool_decide (Status o = "running") || bool_decide (Status o = "cancelling").

Record Registration := mkRegistration { Registered : bool; Attached : bool; IMS : bool; PLMN : string }.

(** ** Names and answers (protocol.go) *)

(** [strings.ContainsAny] *)
Definition contains_any (s : string) (chars : list ascii) : bool := existsb (λ a, existsb (Ascii.eqb a) chars) (list_ascii_of_string s).

Definition name_delimiters : list ascii := [quote; ascii_of_nat 92; ascii_of_nat 13; ascii_of_nat 10; ascii_of_nat 0].

(** A rune below 32, or 127, is the byte. *)
Definition ValidateName (name : string) : bool :=
  negb (bool_decide (TrimSpace name = "") || contains_any name name_delimiters) &&
  forallb (λ a, negb (Nat.ltb (nat_of_ascii a) 32 || Nat.eqb (nat_of_ascii a) 127)) (list_ascii_of_string name).

Definition quoted_text (s : string) : string := String quote (s ++ String quote "").
Definition qmbncfg (action : string) : string := ("AT+QMBNCFG=" ++ quoted_text action)%string.

Definition NamedCommand (action name : string) : option string :=
  if negb (bool_decide (action ∈ ["Select"; "Delete"; "Add"])) then None
  else if negb (ValidateName name) then None
  else Some (qmbncfg action ++ "," ++ quoted_text name)%string.

Definition rejected (line : string) : bool :=
  let line := TrimSpace line in bool_decide (line = "ERROR") || HasPrefix line "+CME ERROR" || HasPrefix line "+CMS ERROR".

Definition CheckResponse (response : string) (err : option error) : option error :=
  match err with
  | Some e => Some e
  | None => if existsb rejected (split_char (ascii_of_nat 10) response) then Some New else None
  end.

Definition parseBit (s : string) : option bool :=
  let s := TrimSpace s in
  if bool_decide (s = "0") then Some false else if bool_decide (s = "1") then Some true else None.

(** [strings.EqualFold] with a text of ASCII letters: U+017F folds to s and U+212A
    to k. *)
Fixpoint fold_text (l : list ascii) : list ascii :=
  match l with
  | a :: ((b :: rest) as tail) =>
      if Nat.eqb (nat_of_ascii a) 197 && Nat.eqb (nat_of_ascii b) 191 then "s"%char :: fold_text rest
      else match rest with
           | c :: rest' =>
               if Nat.eqb (nat_of_ascii a) 226 && Nat.eqb (nat_of_ascii b) 132 && Nat.eqb (nat_of_ascii c) 170 then "k"%char :: fold_text rest'
               else ascii_lower a :: fold_text tail
           | [] => ascii_lower a :: fold_text tail
           end
  | [a] => [ascii_lower a]
  | [] => []
  end.
Definition EqualFold (s t : string) : bool := bool_decide (fold_text (list_ascii_of_string s) = ascii_lower <$> list_ascii_of_string t).

(** [strings.FieldsFunc] for the marks that separate the words of the answer. *)
Definition separator (a : ascii) : bool := existsb (Ascii.eqb a) [quote; comma; "("%char; ")"%char].
Fixpoint words (l : list ascii) (word : list ascii) : list string :=
  match l with
  | [] => match word with [] => [] | _ => [string_of_list_ascii word] end
  | a :: l =>
      if separator a then (match word with [] => [] | _ => [string_of_list_ascii word] end ++ words l [])%list
      else words l (word ++ [a])%list
  end.

Section Answers.
Context (unicode_lower : string → string).

Definition answer_line (line : string) : bool := HasPrefix (ToLower unicode_lower (TrimSpace line)) "+qmbncfg:".
Definition answer_lines (response : string) : list string := List.filter answer_line (split_char (ascii_of_nat 10) response).

Definition capability (c : Capabilities) (token : string) : Capabilities :=
  let '(mkCapabilities l s a d e r) := c in
  let t := TrimSpace token in
  if bool_decide (t = "list") then mkCapabilities true s a d e r
  else if bool_decide (t = "select") then mkCapabilities l true a d e r
  else if bool_decide (t = "autosel") then mkCapabilities l s true d e r
  else if bool_decide (t = "add") then mkCapabilities l s a true e r
  else if bool_decide (t = "delete") then mkCapabilities l s a d true r
  else c.

Definition ParseCapabilities (response : string) : Capabilities * option error :=
  let c := mkCapabilities false false false false false response in
  match CheckResponse response None with
  | Some e => (c, Some e)
  | None =>
      let tokens := line ← answer_lines response; words (list_ascii_of_string (ToLower unicode_lower line)) [] in
      let c := foldl capability c tokens in
      if negb (c_List c) then (c, Some New) else (c, None)
  end.

Definition responseFields (line : string) : option (list string) :=
  match cut_char ":"%char (TrimSpace line) with
  | None => None
  | Some (_, rest) => ModemVoice.csv_read (TrimSpace rest)
  end.

(** A record of the list: [None] is an error. *)
Definition list_profile (fields : list string) : option Profile :=
  let f := part fields in
  if bool_decide (List.length fields < 5)%nat then None
  else
    index ← Atoi (f 1%nat);
    if bool_decide (index < 0) then None
    else
      selected ← parseBit (f 2%nat);
      activated ← parseBit (f 3%nat);
      if negb (ValidateName (f 4%nat)) then None
      else Some (mkProfile index selected activated (f 4%nat) (f 5%nat) (f 6%nat) "unknown").

Fixpoint list_profiles (lines : list string) : option (list Profile) :=
  match lines with
  | [] => Some []
  | line :: lines =>
      fields ← responseFields line;
      if bool_decide (fields = []) || negb (EqualFold (part fields 0%nat) "list") then list_profiles lines
      else p ← list_profile fields; ps ← list_profiles lines; Some (p :: ps)
  end.

Definition ParseList (response : string) : option (list Profile) :=
  match CheckResponse response None with
  | Some _ => None
  | None =>
      profiles ← list_profiles (answer_lines response);
      if bool_decide (List.length profiles = 0%nat) then None else Some profiles
  end.

Fixpoint autosel_line (lines : list string) : option bool :=
  match lines with
  | [] => None
  | line :: lines =>
      fields ← responseFields line;
      if bool_decide (List.length fields = 2%nat) && EqualFold (part fields 0%nat) "autosel" then parseBit (part fields 1%nat)
      else autosel_line lines
  end.

Definition ParseAutoSel (response : string) : option bool :=
  match CheckResponse response None with Some _ => None | None => autosel_line (answer_lines response) end.
End Answers.

(** ** Requests *)

Record operationStart := mkStart { deviceID : string; start_request : Request; policy : bool }.

(** [detached]: with a context that the end of the service does not cancel. *)
Inductive request :=
  (* the store *)
  | LoadOperation (id : string) | LoadOperations (device : string) | FindRequest (device id : string)
  | SaveOperation (op : Operation) (detached : bool)
  | LoadPolicies | StorePolicy (p : Policy) | LoadAssets | SaveAsset (a : Asset) | RemoveAsset (id : string)
  (* the files *)
  | PutFile (digest : string) (data : bytes) | ReadFile (digest : string) | DeleteFile (digest : string)
  (* the modem and its session *)
  | Identity (device : string) | Open (device : string) (writable : bool)
  | SessionOwner | Prepare (r : Request) | Execute (command : string) (detached : bool) | Upload (path : string) (data : bytes)
  | Reboot (timeout : Z) | GetRegistration | Probe (url : string) | Close | Resume
  (* the contexts and the clock *)
  | CtxErr | ObserveErr | ObserveDone | Now
  (* the service *)
  | KeepChoice (p : Policy) | NewID | Finish (device : string)
  | AskBusy (device : string) | AskPolicy (owner : Owner) | AskStart (input : operationStart).

(** [Open] gives a session or an error.  The last three are sections of the
    service; [AskStart] tells whether a goroutine was started.  [ObserveDone] is the end of the
    observation before the next tick. *)
#[export] Instance mbn_answer : Requests request := λ c,
  match c with
  | LoadOperation _ | FindRequest _ _ => (Operation + error)%type
  | LoadOperations _ => (list Operation + error)%type
  | LoadPolicies => (list Policy + error)%type
  | LoadAssets => (list Asset + error)%type
  | ReadFile _ => (bytes + error)%type
  | Identity _ => (Owner + error)%type
  | SessionOwner => Owner
  | Execute _ _ => (string * option error)%type
  | GetRegistration => (Registration + error)%type
  | ObserveDone => bool
  | Now => Z
  | NewID => string
  | KeepChoice _ | Finish _ => unit
  | AskBusy _ => bool
  | AskPolicy _ => (Policy + error)%type
  | AskStart _ => ((Operation * bool) + error)%type
  | _ => option error
  end.

(** What an operation gives: itself and its error. *)
Definition task := prog request (Operation * option error).

(** [if err := p; err != nil { return err }] *)
Definition ensure (p : task) (k : Operation → task) : task :=
  bind p (λ '(op, err), match err with Some e => Ret (op, Some e) | None => k op end).
Definition call (op : Operation) (c : prog request (option error)) (k : task) : task :=
  bind c (λ err : option error, match err with Some e => Ret (op, Some e) | None => k end).

Notation "'try!' op ':=' p 'in' k" := (ensure p (λ op, k)) (at level 200, op name, p at level 100, k at level 200, right associativity).
Notation "'call!' op '⇐' c 'in' k" := (call op c k) (at level 200, op at level 99, c at level 100, k at level 200, right associativity).

(** ** Stages (service.go) *)

Definition duration (seconds defaultValue : Z) : Z := if bool_decide (seconds = 0) then defaultValue else i64 (seconds * Second).

Definition checkpoint (op : Operation) (stage : string) : task :=
  let? r := ask (LoadOperation (ID op)) in
  match r with
  | inr e => Ret (op, Some e)
  | inl current =>
      let op := with_stage stage (with_cancel (CancelRequested current) op) in
      let op := if CancelRequested op then with_status "cancelling" op else op in
      let? err := ask (SaveOperation op false) in
      Ret (op, err : option error)
  end.

Definition cancelled (op : Operation) : task :=
  try! op := checkpoint op (Stage op) in
  if CancelRequested op then Ret (op, Some [Canceled])
  else let? err := ask CtxErr in Ret (op, err : option error).

Definition execute (command : string) : prog request (string * option error) :=
  let? r := ask (Execute command false) in
  Ret (r.1, CheckResponse r.1 r.2).

Section Operations.
Context (unicode_lower : string → string) (sha256_hex : bytes → string).

Definition query_capabilities : string := "AT+QMBNCFG=?".
Definition query_list : string := qmbncfg "List".
Definition query_autosel : string := qmbncfg "AutoSel".

Definition inspect : prog request (Snapshot * option error) :=
  let? owner := ask SessionOwner in
  let snap := mkSnapshot owner no_capabilities false [] in
  let? r := execute query_capabilities in
  match r with
  | (_, Some e) => Ret (snap, Some e)
  | (raw, None) =>
      let '(c, err) := ParseCapabilities unicode_lower raw in
      let snap := mkSnapshot owner c false [] in
      match err with
      | Some e => Ret (snap, Some e)
      | None =>
          let? r := execute query_list in
          match r with
          | (_, Some e) => Ret (snap, Some e)
          | (raw, None) =>
              match ParseList unicode_lower raw with
              | None => Ret (snap, Some New)
              | Some ps =>
                  let snap := mkSnapshot owner c false ps in
                  let? r := execute query_autosel in
                  match r with
                  | (_, Some e) => Ret (snap, Some e)
                  | (raw, None) =>
                      match ParseAutoSel unicode_lower raw with
                      | None => Ret (snap, Some New)
                      | Some auto => Ret (mkSnapshot owner c auto ps, None)
                      end
                  end
              end
          end
      end
  end.

(** ** Owners, profiles, and what a session keeps *)

Definition sameOwner (a b : Owner) : bool :=
  bool_decide (IMEI a ≠ "") && bool_decide (ICCID a ≠ "") && bool_decide (IMEI a = IMEI b) && bool_decide (ICCID a = ICCID b)
  && bool_decide (Model a = Model b) && bool_decide (Firmware a = Firmware b).

Definition sameGeneration (a b : Owner) : bool :=
  bool_decide (DeviceID a = DeviceID b) && bool_decide (IMEI a ≠ "") && bool_decide (ICCID a ≠ "") && bool_decide (IMEI a = IMEI b)
  && bool_decide (ICCID a = ICCID b) && bool_decide (Generation a = Generation b) && bool_decide (IdentityGeneration a = IdentityGeneration b).

Definition hasProfile (s : Snapshot) (name : string) : bool := existsb (λ p, bool_decide (Name p = name)) (Profiles s).
Definition activeProfile (s : Snapshot) (name : string) : bool :=
  existsb (λ p, bool_decide (Name p = name) && Selected p && Activated p) (Profiles s).

Definition session_choice (s : Snapshot) : Policy :=
  let o := s_Owner s in
  mkPolicy (Generation o) (IdentityGeneration o) ("sim:" ++ ICCID o) (if AutoSel s then "autosel" else "fixed") (Model o) (Firmware o) (Active s) "" "" false 0.
Definition keepSessionChoice (s : Snapshot) : prog request unit := ask (KeepChoice (session_choice s)).

(** ** What is checked before anything is stopped (preflight.go) *)

Definition validateApply (current : Snapshot) (name : string) (auto : bool) (version : string) : option error :=
  let c := s_Capabilities current in
  if negb (c_AutoSel c) || (negb auto && negb (c_Select c)) then Some New
  else if auto then None
  else
    match List.find (λ p, bool_decide (Name p = name)) (Profiles current) with
    | None => Some New
    | Some p => if bool_decide (version ≠ "") && bool_decide (Version p ≠ version) then Some New else None
    end.

(** [Service.Asset] *)
Definition asset (id : string) : prog request ((Asset * bytes) + error) :=
  let? r := ask LoadAssets in
  match r with
  | inr e => Ret (inr e)
  | inl assets =>
      match List.find (λ a, bool_decide (a_ID a = id)) assets with
      | None => Ret (inr [NotFound])
      | Some a => let? f := ask (ReadFile (SHA256 a)) in Ret (match (f : bytes + error) with inl data => inl (a, data) | inr e => inr e end)
      end
  end.

Definition validateImport (owner : Owner) (r : Request) (current : Snapshot) : prog request (option error) :=
  if negb (c_Add (s_Capabilities current)) then Ret (Some New)
  else
    let? f := asset (AssetID r) in
    match f with
    | inr e => Ret (Some e)
    | inl (a, _) =>
        if (bool_decide (a_Model a ≠ "") && bool_decide (a_Model a ≠ Model owner)) || (bool_decide (a_Firmware a ≠ "") && bool_decide (a_Firmware a ≠ Firmware owner))
        then Ret (Some New)
        else if negb (AcceptUnknownCompatibility r) then Ret (Some New) else Ret None
    end.

Definition validateDelete (op : Operation) : prog request (option error) :=
  let r := o_Request op in
  if negb (c_Delete (s_Capabilities (Original op))) || negb (hasProfile (Original op) (r_Profile r)) then Ret (Some New)
  else
    let? ps := ask LoadPolicies in
    match ps with
    | inr e => Ret (Some e)
    | inl policies =>
        let owner := s_Owner (Original op) in
        if existsb (λ p, bool_decide (Mode p = "fixed") && bool_decide (p_Profile p = r_Profile r) && bool_decide (p_Model p = Model owner) && bool_decide (p_Firmware p = Firmware owner)) policies
        then Ret (Some New)
        else
          match List.find (λ p, bool_decide (Name p = r_Profile r) && (Selected p || Activated p)) (Profiles (Original op)) with
          | None => Ret None
          | Some p =>
              if bool_decide (Replacement r = Name p) then Ret (Some New)
              else Ret (validateApply (Original op) (Replacement r) false "")
          end
    end.

(** The first candidate that cannot be applied. *)
Fixpoint validate_candidates (current : Snapshot) (names : list string) : option error :=
  match names with
  | [] => None
  | name :: names => match validateApply current name false "" with Some e => Some e | None => validate_candidates current names end
  end.

Definition preflight (op : Operation) : prog request (option error) :=
  let r := o_Request op in let current := Original op in
  let kind := Kind r in
  if bool_decide (kind = "apply") then
    if negb (r_AutoSel r) && negb (hasProfile current (r_Profile r)) && bool_decide (AssetID r ≠ "")
    then let? owner := ask SessionOwner in validateImport owner r current
    else Ret (validateApply current (r_Profile r) (r_AutoSel r) (r_Version r))
  else if bool_decide (kind = "import") then let? owner := ask SessionOwner in validateImport owner r current
  else if bool_decide (kind = "trial") then
    if negb (AutoSel current) && bool_decide (Active current = "") then Ret (Some New) else Ret (validate_candidates current (Candidates r))
  else if bool_decide (kind = "delete") then validateDelete op
  else if bool_decide (kind = "restore") then
    let? p := ask (LoadOperation (RestoreOperation r)) in
    match p with
    | inr e => Ret (Some e)
    | inl previous =>
        let? owner := ask SessionOwner in
        if negb (sameOwner (s_Owner (Original previous)) owner) then Ret (Some [OwnerChanged])
        else Ret (validateApply current (Active (Original previous)) (AutoSel (Original previous)) "")
    end
  else Ret None.

(** ** Writing (operations.go) *)

Definition read_back (op : Operation) : task := let? r := inspect in Ret (with_current r.1 op, r.2).

Definition execute_ (command : string) : prog request (option error) := let? r := execute command in Ret r.2.
Definition named (action name : string) : prog request (option error) :=
  match NamedCommand action name with None => Ret (Some New) | Some command => execute_ command end.
Definition autosel_command (auto : bool) : string := (query_autosel ++ "," ++ (if auto then "1" else "0"))%string.
Definition reboot (op : Operation) : prog request (option error) := ask (Reboot (duration (RecoverySeconds (o_Request op)) DefaultRecovery)).

Definition shows (s : Snapshot) (name : string) (auto : bool) : bool := Bool.eqb (AutoSel s) auto && (auto || activeProfile s name).

Definition apply (op : Operation) (name : string) (auto : bool) : task :=
  let? r := inspect in
  match r with
  | (_, Some e) => Ret (op, Some e)
  | (current, None) =>
      let version := if bool_decide (Stage op = "restoring") then "" else r_Version (o_Request op) in
      match validateApply current name auto version with
      | Some e => Ret (op, Some e)
      | None =>
          if shows current name auto then Ret (with_current current op, None)
          else
            try! op := checkpoint op "applying" in
            call! op ⇐ execute_ (autosel_command auto) in
            call! op ⇐ (if auto then Ret None else named "Select" name) in
            try! op := checkpoint op "waiting_reboot" in
            call! op ⇐ reboot op in
            try! op := checkpoint op "verifying" in
            try! op := read_back op in
            Ret (op, if shows (Current op) name auto then None else Some New)
      end
  end.

Definition restore (op : Operation) (original : Snapshot) : task :=
  let? owner := ask SessionOwner in
  if negb (sameOwner (s_Owner original) owner) then Ret (op, Some [OwnerChanged])
  else
    try! op := checkpoint op "restoring" in
    let? r := apply op (Active original) (AutoSel original) in
    match r with
    | (op, Some e) => Ret (with_stage "restoring" op, Some e)
    | (op, None) => let? _ := keepSessionChoice (Current op) in Ret (with_stage "restored" op, None)
    end.

(** The loop over the records of one name. *)
Fixpoint replace_profiles (name : string) (ps : list Profile) (op : Operation) : task :=
  match ps with
  | [] => Ret (op, None)
  | p :: ps =>
      if bool_decide (Name p ≠ name) || (negb (Selected p) && negb (Activated p)) then replace_profiles name ps op
      else
        let replacement := Replacement (o_Request op) in
        if bool_decide (replacement = "") || bool_decide (replacement = name) then Ret (op, Some New)
        else try! op := apply op replacement false in replace_profiles name ps op
  end.

Definition deleteProfile (op : Operation) : task :=
  call! op ⇐ validateDelete op in
  let name := r_Profile (o_Request op) in
  try! op := replace_profiles name (Profiles (Original op)) op in
  try! op := cancelled op in
  try! op := checkpoint op "deleting" in
  call! op ⇐ named "Delete" name in
  call! op ⇐ reboot op in
  try! op := read_back op in
  if hasProfile (Current op) name then Ret (op, Some New)
  else let? _ := keepSessionChoice (Current op) in Ret (op, None).

(** ** Importing (assets.go) *)

Definition modem_path (op : Operation) : string := ("RAM:hideck-" ++ ID op ++ ".mbn")%string.
Definition cleanup_failed : string := "临时文件清理失败: ".

Definition new_profiles (original current : Snapshot) : bool := existsb (λ p, negb (hasProfile original (Name p))) (Profiles current).

Definition import_uploaded (op : Operation) (path : string) : task :=
  try! op := cancelled op in
  try! op := checkpoint op "importing" in
  call! op ⇐ named "Add" path in
  try! op := read_back op in
  Ret (op, if new_profiles (Original op) (Current op) then None else Some New).

Definition importFile (op : Operation) : task :=
  let? owner := ask SessionOwner in
  call! op ⇐ validateImport owner (o_Request op) (Original op) in
  let? f := asset (AssetID (o_Request op)) in
  match f with
  | inr e => Ret (op, Some e)
  | inl (a, data) =>
      if bool_decide (sha256_hex data ≠ SHA256 a) then Ret (op, Some New)
      else
        try! op := checkpoint op "uploading_to_modem" in
        let path := modem_path op in
        call! op ⇐ ask (Upload path data) in
        let? r := import_uploaded op path in
        let? c := ask (Execute ("AT+QFDEL=" ++ quoted_text path) true) in
        match CheckResponse c.1 c.2 with
        | None => Ret r
        | Some _ => Ret (with_warning cleanup_failed r.1, r.2)
        end
  end.

(** ** Trials (trial.go) *)

(** [Join(errRegistrationGoal, err)] *)
Definition goal_missed (err : option error) : option error := Join (Some [RegistrationGoal]) err.

Definition goal_met (r : Request) (g : Registration) : bool :=
  Registered g && (bool_decide (TargetPLMN r = "") || bool_decide (PLMN g = TargetPLMN r))
  && (negb (bool_decide (Goal r = "ims")) || IMS g) && (negb (bool_decide (Goal r = "data")) || Attached g).

(** [ticks] bounds the turns before the deadline of the observation. *)
Fixpoint observe_loop (ticks : nat) (op : Operation) (since : option Z) : prog request (Operation * string * option error) :=
  let r := o_Request op in
  let stable := duration (StabilitySeconds r) DefaultStability in
  let? c := cancelled op in
  match c with
  | (op, Some e) => Ret (op, "", Some e)
  | (op, None) =>
      let? g := ask GetRegistration in
      match g with
      | inr e =>
          let? late := ask ObserveErr in
          if (match (late : option error) with Some d => Is d DeadlineExceeded | None => false end) && Is e DeadlineExceeded
          then let? stopped := ask CtxErr in Ret (op, "", match stopped with None => goal_missed (Some e) | Some _ => Some e end)
          else Ret (op, "", Some e)
      | inl registration =>
          let? since :=
            if negb (goal_met r registration) then Ret None
            else match since with Some t => Ret (Some t) | None => let? now := ask Now in Ret (Some now) end in
          let? settled := match since with None => Ret false | Some t => let? now := ask Now in Ret (bool_decide (stable <= now - t)) end in
          if settled then
            if bool_decide (Goal r = "data")
            then let? err := ask (Probe (ProbeURL r)) in Ret (op, PLMN registration, match err with Some e => goal_missed (Some e) | None => None end)
            else Ret (op, PLMN registration, None)
          else
            let missed := let? err := ask ObserveErr in Ret (op, "", goal_missed err) in
            match ticks with
            | O => missed
            | S ticks => let? done := ask ObserveDone in if (done : bool) then missed else observe_loop ticks op since
            end
      end
  end.

Definition observe (ticks : nat) (op : Operation) : prog request (Operation * string * option error) :=
  let? c := checkpoint op "observing_registration" in
  match c with
  | (op, Some e) => Ret (op, "", Some e)
  | (op, None) => observe_loop ticks op None
  end.

Definition try_candidate (ticks : nat) (op : Operation) (name : string) : prog request (Operation * string * option error) :=
  let? r := apply op name false in
  match r with (op, Some e) => Ret (op, "", Some e) | (op, None) => observe ticks op end.

(** [inl]: [trial] returns; [inr]: the loop is left with this failure. *)
Fixpoint trial_loop (ticks : nat) (names : list string) (failure : option error) (op : Operation) : prog request (Operation * (option error + option error)) :=
  match names with
  | [] => Ret (op, inr failure)
  | name :: names =>
      let? c := cancelled op in
      match c with
      | (op, Some e) => Ret (op, inr (Some e))
      | (op, None) =>
          let? started := ask Now in
          let? o := try_candidate ticks op name in
          let '(op, plmn, failure) := o in
          let? ended := ask Now in
          let? c := checkpoint (with_result (mkTrial name started ended (bool_decide (failure = None)) failure plmn) op) "candidate_complete" in
          match c with
          | (op, Some e) => Ret (op, inl (Some e))
          | (op, None) =>
              match failure with
              | None => let? _ := keepSessionChoice (Current op) in Ret (with_warning "已达到所选目标；通话和短信未测试。尚未绑定 SIM 策略。" op, inl None)
              | Some e => if Is e RegistrationGoal then trial_loop ticks names failure op else Ret (op, inr failure)
              end
          end
      end
  end.

Definition trial (ticks : nat) (op : Operation) : task :=
  if existsb (λ name, negb (hasProfile (Original op) name)) (Candidates (o_Request op)) then Ret (op, Some New)
  else
    let? l := trial_loop ticks (Candidates (o_Request op)) None op in
    match l with
    | (op, inl err) => Ret (op, err)
    | (op, inr failure) =>
        let? r := restore op (Original op) in
        Ret (r.1, Join (Some (default New failure)) r.2)
    end.

(** ** One operation *)

Definition applied_warning : string := "已在模组生效；当前会话保留选择。要跨启动和切卡托管，请保存模组默认或 SIM 策略。".

Definition apply_request (r : Request) (op : Operation) : task :=
  try! op := (if negb (r_AutoSel r) && negb (hasProfile (Original op) (r_Profile r)) && bool_decide (AssetID r ≠ "") then importFile op else Ret (op, None)) in
  try! op := apply op (r_Profile r) (r_AutoSel r) in
  let? _ := keepSessionChoice (Current op) in
  Ret (with_warning applied_warning op, None).

(** The restoration of the original of an earlier operation. *)
Definition restore_request (r : Request) (op : Operation) : task :=
  let? p := ask (LoadOperation (RestoreOperation r)) in
  match p with
  | inr e => Ret (op, Some e)
  | inl previous =>
      let? owner := ask SessionOwner in
      if negb (sameOwner (s_Owner (Original previous)) owner) then Ret (op, Some [OwnerChanged]) else restore op (Original previous)
  end.

Definition perform (ticks : nat) (op : Operation) : task :=
  let r := o_Request op in let kind := Kind r in
  try! op := cancelled op in
  call! op ⇐ preflight op in
  try! op := checkpoint op "preparing" in
  call! op ⇐ ask (Prepare r) in
  if bool_decide (kind = "apply") then apply_request r op
  else if bool_decide (kind = "import") then importFile op
  else if bool_decide (kind = "delete") then deleteProfile op
  else if bool_decide (kind = "trial") then trial ticks op
  else if bool_decide (kind = "restore") then restore_request r op
  else Ret (op, Some New).

Definition work (ticks : nat) (op : Operation) : task :=
  let? r := inspect in
  let op := with_original r.1 op in
  match r.2 with
  | Some e => Ret (op, Some e)
  | None =>
      let owner := s_Owner (Original op) in
      if negb (sameGeneration (ExpectedOwner op) owner) then Ret (op, Some [OwnerChanged])
      else if match r_ExpectedOwner (o_Request op) with Some o => negb (sameOwner o owner) | None => false end then Ret (op, Some [OwnerChanged])
      else try! op := checkpoint op "original_saved" in perform ticks op
  end.

Definition close_session (op : Operation) (err : option error) : task :=
  let resume := bool_decide (err = None) || bool_decide (Stage op = "restored") in
  let? closed := ask Close in
  let? closed :=
    if bool_decide (closed = None) && resume
    then let? stopped := ask CtxErr in if bool_decide (stopped = None) then ask Resume else Ret closed
    else Ret closed in
  match closed with
  | None => Ret (op, err)
  | Some e => Ret (with_stage "resuming" op, Join err (Some e))
  end.

(** The stages after which the state of the modem is not known. *)
Definition uncertain_stages : list string := ["restoring"; "resuming"; "waiting_reboot"; "applying"; "preparing"; "verifying"; "deleting"; "importing"].

Definition final_status (op : Operation) (err : option error) : Operation :=
  match err with
  | None => with_status "succeeded" op
  | Some e =>
      let op := with_error err op in
      if Is e OwnerChanged || bool_decide (Stage op ∈ uncertain_stages) then with_status "needs_attention" op
      else if Is e Canceled then with_status "cancelled" op
      else with_status "failed" op
  end.

(** The session of an operation; the deadline of the wait for it is part of
    [Open]. *)
Definition run_session (ticks : nat) (op : Operation) : task :=
  try! op := checkpoint (with_status "running" op) "reading_original" in
  call! op ⇐ ask (Open (o_DeviceID op) true) in
  let? w := work ticks op in
  close_session w.1 w.2.

Definition run (ticks : nat) (op : Operation) : prog request Operation :=
  let? r := run_session ticks op in
  let op := final_status r.1 r.2 in
  let? _ := ask (SaveOperation op true) in
  let? _ := ask (Finish (o_DeviceID op)) in
  Ret op.

(** ** The service (service.go, operation_start.go, policy.go, policy_recovery.go)

    [active] and [overrides] change under the lock of the service only, so a
    section takes them and gives them back. *)

Record Service := mkService { active : gmap string string; overrides : gmap string Policy; policySessionID : string }.
Definition set_active (a : gmap string string) (s : Service) : Service := mkService a (overrides s) (policySessionID s).
Definition set_overrides (o : gmap string Policy) (s : Service) : Service := mkService (active s) o (policySessionID s).

Definition Busy (s : Service) (deviceID : string) : bool := bool_decide (default "" (active s !! deviceID) ≠ "").
(** The deferred section at the end of [run]. *)
Definition finished (deviceID : string) (s : Service) : Service := set_active (delete deviceID (active s)) s.

Definition seconds_ok (seconds : Z) : bool := bool_decide (0 <= seconds) && bool_decide (seconds <= (2 ^ 63 - 1) `div` Second `div` 2).

(** What [url.Parse] gives of a text. *)
Record URL := mkURL { Scheme : string; Host : string; User : bool }.
Context (url_Parse : string → option URL).

Definition probe_url_ok (text : string) : bool :=
  match url_Parse text with
  | None => false
  | Some u => bool_decide (Host u ≠ "") && (bool_decide (Scheme u = "https") || bool_decide (Scheme u = "http")) && negb (User u)
  end.

Definition plmn_ok (plmn : string) : bool :=
  (Nat.eqb (String.length plmn) 5 || Nat.eqb (String.length plmn) 6) && digits_only plmn.

Fixpoint candidates_ok (seen : list string) (names : list string) : bool :=
  match names with
  | [] => true
  | name :: names => ValidateName name && negb (bool_decide (name ∈ seen)) && candidates_ok (name :: seen) names
  end.

Definition validateRequest (r : Request) : bool :=
  let kind := Kind r in
  bool_decide (RequestID r ≠ "") && seconds_ok (RecoverySeconds r) && seconds_ok (RegistrationSeconds r) && seconds_ok (StabilitySeconds r) &&
  if bool_decide (kind = "apply") then r_AutoSel r || ValidateName (r_Profile r)
  else if bool_decide (kind = "import") then bool_decide (AssetID r ≠ "")
  else if bool_decide (kind = "delete") then ValidateName (r_Profile r) && bool_decide (ConfirmName r = r_Profile r) && AcceptNoBackup r
  else if bool_decide (kind = "restore") then bool_decide (RestoreOperation r ≠ "")
  else if bool_decide (kind = "trial") then
    negb (bool_decide (Candidates r = []))
    && (bool_decide (TargetPLMN r = "") || plmn_ok (TargetPLMN r))
    && bool_decide (Goal r ∈ [""; "registration"; "ims"; "data"])
    && (negb (bool_decide (Goal r = "ims")) || AllowNativeIMS r)
    && (negb (bool_decide (Goal r = "data")) || (AllowData r && probe_url_ok (ProbeURL r)))
    && candidates_ok [] (Candidates r)
  else false.

Definition recoveryKind (kind : string) : bool := bool_decide (kind = "apply") || bool_decide (kind = "restore") || bool_decide (kind = "trial").

Definition samePolicyRecoveryOwner (a b : Owner) : bool :=
  bool_decide (IMEI a ≠ "") && bool_decide (ICCID a ≠ "") && bool_decide (IMEI a = IMEI b) && bool_decide (ICCID a = ICCID b).

Definition verifiedRecovery (op : Operation) (owner : Owner) : bool :=
  if bool_decide (Status op ≠ "succeeded") && negb ((bool_decide (Status op = "failed") || bool_decide (Status op = "cancelled")) && bool_decide (Stage op = "restored"))
  then false
  else recoveryKind (Kind (o_Request op)) && samePolicyRecoveryOwner (s_Owner (Current op)) owner
       && (AutoSel (Current op) || activeProfile (Current op) (Active (Current op))).

(** The identifiers of the map that are true. *)
Definition resolvedPolicyRecovery (operations : list Operation) (owner : Owner) : list string :=
  op ← List.filter (λ op, samePolicyRecoveryOwner (ExpectedOwner op) owner && verifiedRecovery op owner) operations; RecoveryOf op.

Fixpoint pending_loop (resolved : list string) (owner : Owner) (operations : list Operation) (pending : list string) : list string + error :=
  match operations with
  | [] => inl pending
  | op :: operations =>
      if negb (samePolicyRecoveryOwner (ExpectedOwner op) owner) then pending_loop resolved owner operations pending
      else if Running op then inr [Conflict]
      else pending_loop resolved owner operations (if bool_decide (Status op = "needs_attention") && negb (bool_decide (ID op ∈ resolved)) then pending ++ [ID op] else pending)%list
  end.

Definition pendingPolicyRecovery (owner : Owner) : prog request (list string + error) :=
  let? r := ask (LoadOperations "") in
  match r with
  | inr e => Ret (inr e)
  | inl operations => Ret (pending_loop (resolvedPolicyRecovery operations owner) owner operations [])
  end.

Definition recoveryForStart (owner : Owner) (input : operationStart) : prog request (list string + error) :=
  if negb (policy input) && negb (recoveryKind (Kind (start_request input))) then Ret (inl [])
  else
    let? p := pendingPolicyRecovery owner in
    match p with
    | inr e => Ret (inr e)
    | inl pending => if policy input && bool_decide (pending ≠ []) then Ret (inr [NeedsAttention]) else Ret (inl pending)
    end.

(** Requests are compared by what [json.Marshal] writes: for texts in UTF-8 that
    is the request. *)
Definition replayOperation (device : string) (r : Request) : prog request (option (Operation + error)) :=
  let? p := ask (FindRequest device (RequestID r)) in
  match p with
  | inr e => Ret (if Is e NotFound then None else Some (inr e))
  | inl previous => Ret (Some (if bool_decide (o_Request previous = r) then inl previous else inr [Conflict]))
  end.

Definition queued (id : string) (owner : Owner) (input : operationStart) (recoveryOf : list string) : Operation :=
  mkOperation recoveryOf owner id (deviceID input) (RequestID (start_request input)) (start_request input) no_snapshot no_snapshot "queued" "queued" None "" false [].

(** The operation, and whether [run] was started for it. *)
Definition start (s : Service) (input : operationStart) : prog request (Service * ((Operation * bool) + error)) :=
  let r := start_request input in
  if negb (validateRequest r) then Ret (s, inr New)
  else
    let? p := replayOperation (deviceID input) r in
    match p with
    | Some (inl previous) => Ret (s, inl (previous, false))
    | Some (inr e) => Ret (s, inr e)
    | None =>
        if Busy s (deviceID input) then Ret (s, inr [Conflict])
        else
          let? o := ask (Identity (deviceID input)) in
          match o with
          | inr e => Ret (s, inr e)
          | inl owner =>
              if match r_ExpectedOwner r with Some expected => negb (sameGeneration expected owner) | None => false end then Ret (s, inr [OwnerChanged])
              else
                let? id := ask NewID in
                let? p := recoveryForStart owner input in
                match p with
                | inr e => Ret (s, inr e)
                | inl recoveryOf =>
                    let op := queued id owner input recoveryOf in
                    let? err := ask (SaveOperation op false) in
                    match err with
                    | Some e => Ret (s, inr e)
                    | None => Ret (set_active (<[deviceID input := id]> (active s)) s, inl (op, true))
                    end
                end
          end
    end.

Definition Start (s : Service) (device : string) (r : Request) := start s (mkStart device r false).

Definition Cancel (id : string) : task :=
  let? r := ask (LoadOperation id) in
  match r with
  | inr e => Ret (mkOperation [] no_owner "" "" "" (mkRequest None "" "" "" "" false "" "" false false "" [] "" "" false false "" 0 0 0 "") no_snapshot no_snapshot "" "" None "" false [], Some e)
  | inl op =>
      if negb (Running op) then Ret (op, Some [Conflict])
      else
        let op := with_status "cancelling" (with_cancel true op) in
        let? err := ask (SaveOperation op false) in Ret (op, err)
  end.

(** [Recover], after the service was started again. *)
Fixpoint recover_loop (operations : list Operation) : prog request (option error) :=
  match operations with
  | [] => Ret None
  | op :: operations =>
      if negb (Running op) then recover_loop operations
      else
        let? err := ask (SaveOperation (with_error (Some New) (with_status "needs_attention" op)) false) in
        match err with Some e => Ret (Some e) | None => recover_loop operations end
  end.
Definition Recover : prog request (option error) :=
  let? r := ask (LoadOperations "") in
  match r with inr e => Ret (Some e) | inl operations => recover_loop operations end.

(** ** Policies *)

Definition choice_key (owner : Owner) : string := (IMEI owner ++ ":" ++ ICCID owner)%string.

(** The device's own policy, unless one of the card decides. *)
Fixpoint policy_for (owner : Owner) (policies : list Policy) (devicePolicy : Policy) : Policy :=
  match policies with
  | [] => devicePolicy
  | p :: policies =>
      if bool_decide (Key p = ("sim:" ++ ICCID owner)%string) && bool_decide (Mode p ≠ "inherit") then p
      else policy_for owner policies (if bool_decide (Key p = ("device:" ++ IMEI owner)%string) then p else devicePolicy)
  end.

Definition inherited : Policy := mkPolicy 0 0 "" "inherit" "" "" "" "" "" false 0.

Definition EffectivePolicy (s : Service) (owner : Owner) : prog request (Service * (Policy + error)) :=
  let key := choice_key owner in
  let kept := match overrides s !! key with
              | Some o => if bool_decide (SessionGeneration o ≠ Generation owner) || bool_decide (SessionIdentityGeneration o ≠ IdentityGeneration owner) then None else Some o
              | None => None
              end in
  match kept with
  | Some o => Ret (s, inl o)
  | None =>
      let s := set_overrides (delete key (overrides s)) s in
      let? r := ask LoadPolicies in
      Ret (s, match (r : list Policy + error) with inl policies => inl (policy_for owner policies inherited) | inr e => inr e end)
  end.

Definition keep_choice (owner : Owner) (p : Policy) (s : Service) : Service := set_overrides (<[choice_key owner := p]> (overrides s)) s.

Definition policy_target (p : Policy) : string := TrimSpace (nth 1 (split_n 2 ":"%char (Key p)) "").

(** What is stored: a policy that names no profile has nothing else. *)
Definition normal_policy (p : Policy) : option Policy :=
  let '(mkPolicy sg si key mode m f pr v a ai u) := p in
  if negb (HasPrefix key "sim:") && negb (HasPrefix key "device:") then None
  else if bool_decide (policy_target p = "") then None
  else if bool_decide (mode = "inherit") || bool_decide (mode = "autosel") then Some (mkPolicy sg si key mode m f "" "" "" false u)
  else if bool_decide (mode = "fixed") then
    if negb (ValidateName pr) || bool_decide (m = "") || bool_decide (f = "") || (ai && bool_decide (a = "")) then None else Some p
  else None.

Definition SavePolicy (s : Service) (p : Policy) : prog request (Service * option error) :=
  match normal_policy p with
  | None => Ret (s, Some New)
  | Some p =>
      let? missing := if bool_decide (p_AssetID p = "") then Ret None
                      else let? f := asset (p_AssetID p) in Ret (match (f : Asset * bytes + error) with inl _ => None | inr e => Some e end) in
      match missing with
      | Some e => Ret (s, Some e)
      | None =>
          let? err := ask (StorePolicy p) in
          match err with
          | Some e => Ret (s, Some e)
          | None => Ret (set_overrides (base.filter (λ kv, Key kv.2 ≠ Key p) (overrides s)) s, None)
          end
      end
  end.

(** [SavePolicy], [EffectivePolicy] and [start] are sections of the service, which
    may change between two of those that [Reconcile] calls. *)
Definition Inspect (device : string) : prog request (Snapshot * option error) :=
  let? busy := ask (AskBusy device) in
  if (busy : bool) then Ret (no_snapshot, Some [Conflict])
  else
    let? o := ask (Open device false) in
    match o with
    | Some e => Ret (no_snapshot, Some e)
    | None => let? r := inspect in let? _ := ask Close in Ret r
    end.

Definition version_matches (p : Policy) (current : Snapshot) : bool :=
  bool_decide (p_Version p = "") || existsb (λ q, bool_decide (Name q = p_Profile p) && bool_decide (Version q = p_Version p)) (Profiles current).

(** What an automatic change of the modem needs: [inl None] when the policy holds. *)
Definition policy_request (session : string) (owner : Owner) (p : Policy) (current : Snapshot) : option Request + error :=
  let fixed := bool_decide (Mode p = "fixed") in
  let o := s_Owner current in
  let id := ("policy-" ++ session ++ "-" ++ IMEI owner ++ "-" ++ ICCID owner ++ "-" ++ pretty (Generation owner) ++ "-" ++ pretty (IdentityGeneration owner) ++ "-" ++ pretty (UpdatedAt p))%string in
  let request asset imported := mkRequest (Some o) id "apply" (p_Profile p) (p_Version p) (bool_decide (Mode p = "autosel")) asset "" false imported "" [] "" "" false false "" 0 0 0 "" in
  if fixed then
    if bool_decide (p_Model p ≠ Model o) || bool_decide (p_Firmware p ≠ Firmware o) then inr New
    else if hasProfile current (p_Profile p) && negb (version_matches p current) then inr New
    else if activeProfile current (p_Profile p) && negb (AutoSel current) then inl None
    else if hasProfile current (p_Profile p) then inl (Some (request "" false))
    else if negb (AllowImport p) then inr New
    else inl (Some (request (p_AssetID p) true))
  else if AutoSel current then inl None
  else inl (Some (request "" false)).

Definition Reconcile (session : string) (owner : Owner) : prog request (bool + error) :=
  let? p := ask (AskPolicy owner) in
  match p with
  | inr e => Ret (inr e)
  | inl p =>
      if bool_decide (Mode p = "inherit") then Ret (inl false)
      else
        let? busy := ask (AskBusy (DeviceID owner)) in
        if (busy : bool) then Ret (inl true)
        else
          let? r := Inspect (DeviceID owner) in
          match r with
          | (_, Some e) => Ret (inr e)
          | (current, None) =>
              if negb (sameGeneration owner (s_Owner current)) then Ret (inr [OwnerChanged])
              else
                match policy_request session owner p current with
                | inr e => Ret (inr e)
                | inl None => Ret (inl false)
                | inl (Some r) =>
                    let? o := ask (AskStart (mkStart (DeviceID owner) r true)) in
                    match o with
                    | inr e => Ret (inr e)
                    | inl (op, _) => Ret (if Running op then inl true else inr New)
                    end
                end
          end
  end.

(** ** Files (assets.go) *)

(** [filepath.Base] and [filepath.Ext], of a path between slashes. *)
Definition slash : ascii := "/"%char.
Definition Base (path : string) : string :=
  if bool_decide (path = "") then "."
  else
    let p := TrimRightChar slash path in
    if bool_decide (p = "") then "/" else List.last (split_char slash p) "".
Definition Ext (path : string) : string :=
  let name := List.last (split_char slash path) "" in
  match split_char "."%char name with
  | _ :: (_ :: _) as parts => String "." (List.last parts "")
  | _ => ""
  end.

Definition no_asset : Asset := mkAsset "" "" "" 0 "" "" "".

Definition with_digest (digest : string) (size : Z) (a : Asset) : Asset :=
  let '(mkAsset _ name _ _ m f src) := a in mkAsset digest name digest size m f src.

Fixpoint existing_asset (digest name : string) (assets : list Asset) : option (Asset + error) :=
  match assets with
  | [] => None
  | a :: assets =>
      if bool_decide (SHA256 a = digest) then Some (inl a)
      else if bool_decide (a_Name a = name) then Some (inr [Conflict])
      else existing_asset digest name assets
  end.

Definition UploadAsset (a : Asset) (data : bytes) : prog request (Asset * option error) :=
  if bool_decide (data = []) then Ret (a, Some New)
  else if bool_decide (Base (a_Name a) ≠ a_Name a) || negb (EqualFold (Ext (a_Name a)) ".mbn") then Ret (a, Some New)
  else
    let a := with_digest (sha256_hex data) (len data) a in
    let? r := ask LoadAssets in
    match r with
    | inr e => Ret (a, Some e)
    | inl assets =>
        match existing_asset (SHA256 a) (a_Name a) assets with
        | Some (inl existing) => Ret (existing, None)
        | Some (inr e) => Ret (a, Some e)
        | None =>
            let? err := ask (PutFile (SHA256 a) data) in
            match err with
            | Some e => Ret (a, Some e)
            | None =>
                let? err := ask (SaveAsset a) in
                match err with
                | Some e => let? d := ask (DeleteFile (SHA256 a)) in Ret (a, Join (Some e) d)
                | None => Ret (a, None)
                end
            end
        end
    end.

Definition DeleteAsset (id : string) : prog request (option error) :=
  let? r := ask LoadPolicies in
  match r with
  | inr e => Ret (Some e)
  | inl policies =>
      if existsb (λ p, bool_decide (p_AssetID p = id)) policies then Ret (Some [Conflict])
      else
        let? r := ask (LoadOperations "") in
        match r with
        | inr e => Ret (Some e)
        | inl jobs =>
            if existsb (λ j, Running j && bool_decide (AssetID (o_Request j) = id)) jobs then Ret (Some [Conflict])
            else
              let? f := asset id in
              match f with
              | inr e => Ret (Some e)
              | inl (a, data) =>
                  let? err := ask (DeleteFile (SHA256 a)) in
                  match err with
                  | Some e => Ret (Some e)
                  | None =>
                      let? err := ask (RemoveAsset id) in
                      match err with
                      | Some e => let? p := ask (PutFile (SHA256 a) data) in Ret (Join (Some e) p)
                      | None => Ret None
                      end
                  end
              end
        end
  end.
End Operations.
