(* ===== verification/MbnProofs.v ===== *)
(** * Properties of the operations on carrier profiles

    The monitor follows one operation: whether the session is open, what was
    recorded, whether the modem was written to and what it answered since. *)

From Stdlib Require Import Ascii String.
From S2P Require Import Prelude GoText SmsCodec Lines SimIdentity AtParse Interaction Mbn.
From stdpp Require Import strings pretty.

#[local] Open Scope string_scope.
#[local] Open Scope Z_scope.

(** [v_stage]: what the store holds; [v_failed]: the store failed; [v_list] and
    [v_auto]: what the modem answered after it was written to last. *)
Record view := mkView {
  v_open : bool; v_closed : bool; v_saved : bool; v_prepared : bool; v_stage : string; v_touched : bool; v_failed : bool;
  v_list : option (list Profile); v_auto : option bool; v_final : option Operation; v_finished : bool }.
Definition before : view := mkView false false false false "queued" false false None None None false.

Definition allow (b : bool) (s : view) : option view := if b then Some s else None.

(** The commands that change the profiles of the modem. *)
Definition writes : list string := [query_autosel ++ ","; qmbncfg "Select" ++ ","; qmbncfg "Delete" ++ ","; qmbncfg "Add" ++ ","].
Definition mutating (command : string) : bool := existsb (HasPrefix command) writes.

Section Run.
Context (unicode_lower : string → string) (sha256_hex : bytes → string).

(** A write needs the session, the original in the store, the service stopped,
    and a stage in the store that tells that the modem may have changed. *)
Definition run_step (s : view) (x : exchange request) : option view :=
  let '(mkView opened closed saved prepared stage touched failed l a final over) := s in
  let inside := opened && negb closed in
  let writing := inside && saved && prepared && bool_decide (stage ∈ uncertain_stages) in
  let written := mkView opened closed saved prepared stage true failed None None final over in
  match x_request x as c return answer c → option view with
  | LoadOperation _ => λ r, Some (mkView opened closed saved prepared stage touched (failed || match r with inr _ => true | inl _ => false end) l a final over)
  | SaveOperation op false => λ r,
      allow (Running op && negb closed && bool_decide (final = None))
        (match r with
         | None => mkView opened closed (saved || bool_decide (Stage op = "original_saved")) prepared (Stage op) touched failed l a final over
         | Some _ => mkView opened closed saved prepared stage touched true l a final over
         end)
  | SaveOperation op true => λ _, allow (bool_decide (final = None) && Bool.eqb opened closed && negb (Running op)) (mkView opened closed saved prepared stage touched failed l a (Some op) over)
  | Finish _ => λ _, allow (bool_decide (final ≠ None) && negb over) (mkView opened closed saved prepared stage touched failed l a final true)
  | Open _ writable => λ r, allow (negb opened && writable) (mkView (bool_decide (r = None)) closed saved prepared stage touched failed l a final over)
  | Close => λ _, allow inside (mkView opened true saved prepared stage touched failed l a final over)
  | Resume => λ _, allow closed s
  | Prepare _ => λ r, allow (inside && saved && negb prepared) (mkView opened closed saved (bool_decide (r = None)) stage touched failed l a final over)
  | Execute command _ => λ r,
      if mutating command then allow writing written
      else
        allow inside
          (match CheckResponse r.1 r.2 with
           | Some _ => s
           | None =>
               if bool_decide (command = query_list) then mkView opened closed saved prepared stage touched failed (ParseList unicode_lower r.1) a final over
               else if bool_decide (command = query_autosel) then mkView opened closed saved prepared stage touched failed l (ParseAutoSel unicode_lower r.1) final over
               else s
           end)
  | Reboot _ => λ _, allow writing written
  | Upload _ _ => λ _, allow (inside && prepared) s
  | SessionOwner | GetRegistration | Probe _ => λ _, allow inside s
  | KeepChoice p => λ _, allow (inside && prepared) s
  | Identity _ | AskStart _ | AskBusy _ | AskPolicy _ | StorePolicy _ | SaveAsset _ | RemoveAsset _ | PutFile _ _ | DeleteFile _ | NewID => λ _, None
  | _ => λ _, Some s
  end (x_answer x).

Notation T s p Q := (triple run_step (eq s) p Q).

Definition seen (s : view) (snap : Snapshot) : Prop := v_list s = Some (Profiles snap) ∧ v_auto s = Some (AutoSel snap).

(** What each kind of request changes of the view. *)
Definition reading (l : option (list Profile)) (a : option bool) (s : view) : view :=
  mkView (v_open s) (v_closed s) (v_saved s) (v_prepared s) (v_stage s) (v_touched s) (v_failed s) l a (v_final s) (v_finished s).
Definition failing (b : bool) (s : view) : view :=
  mkView (v_open s) (v_closed s) (v_saved s) (v_prepared s) (v_stage s) (v_touched s) (v_failed s || b) (v_list s) (v_auto s) (v_final s) (v_finished s).
Definition storing (stage : string) (s : view) : view :=
  mkView (v_open s) (v_closed s) (v_saved s || bool_decide (stage = "original_saved")) (v_prepared s) stage (v_touched s) (v_failed s) (v_list s) (v_auto s) (v_final s) (v_finished s).
Definition touching (s : view) : view :=
  mkView (v_open s) (v_closed s) (v_saved s) (v_prepared s) (v_stage s) true (v_failed s) None None (v_final s) (v_finished s).

Definition inside (s : view) : Prop := v_open s = true ∧ v_closed s = false ∧ v_final s = None.
Definition ready (s : view) : Prop := inside s ∧ v_saved s = true ∧ v_prepared s = true.
(** What an operation keeps of itself. *)
Definition kept (op op' : Operation) : Prop :=
  Running op' = true ∧ o_Request op' = o_Request op ∧ Original op' = Original op ∧ o_DeviceID op' = o_DeviceID op.

Lemma triple_mono {A} s (p : prog request A) (Q Q' : A → view → Prop) : T s p Q → (∀ a s', Q a s' → Q' a s') → T s p Q'.
Proof. intros Hp HQ. by eapply triple_conseq; [exact Hp|intros ? ?|exact HQ]. Qed.

(** ** Reading *)

Ltac view_of s := destruct s as [v_o v_c v_s v_p v_st v_t v_fa v_l v_a v_fi v_ov].

Lemma query_ok s command : inside s → mutating command = false →
  T s (execute command) (λ r s', match r.2 with
    | Some _ => s' = s
    | None => s' = if bool_decide (command = query_list) then reading (ParseList unicode_lower r.1) (v_auto s) s
                   else if bool_decide (command = query_autosel) then reading (v_list s) (ParseAutoSel unicode_lower r.1) s else s
    end).
Proof.
  intros (H1 & H2 & H3) Hm. view_of s. cbn in H1, H2, H3. subst. unfold execute, ask. cbn [bind]. apply triple_next. intros [raw err].
  unfold run_step. cbn [x_request x_answer]. rewrite Hm. cbn [fst snd andb negb allow]. eexists. split; [reflexivity|].
  apply triple_done. cbn [fst snd]. destruct (CheckResponse raw err); [done|]. by repeat case_match.
Qed.

Lemma inspect_ok s : inside s →
  T s (inspect unicode_lower) (λ r s', ∃ l a, s' = reading l a s ∧ (r.2 = None → l = Some (Profiles r.1) ∧ a = Some (AutoSel r.1))).
Proof.
  intros Hi. unfold inspect, ask. cbn [bind]. apply triple_next. intros owner. exists s. split.
  { destruct Hi as (H1 & H2 & H3). view_of s. cbn in *. by subst. }
  assert (Hsame : s = reading (v_list s) (v_auto s) s) by (by destruct s).
  eapply triple_call; [apply query_ok; [done|by vm_compute]|]. intros [raw [e|]] s' Hs'; cbn [fst snd] in Hs'.
  { apply triple_done. subst s'. exists (v_list s), (v_auto s). by split. }
  change (bool_decide (query_capabilities = query_list)) with false in Hs'. change (bool_decide (query_capabilities = query_autosel)) with false in Hs'. subst s'.
  destruct (ParseCapabilities unicode_lower raw) as [c [e|]].
  { apply triple_done. exists (v_list s), (v_auto s). by split. }
  eapply triple_call; [apply query_ok; [done|by vm_compute]|]. intros [raw' [e|]] s' Hs'; cbn [fst snd] in Hs'.
  { apply triple_done. subst s'. exists (v_list s), (v_auto s). by split. }
  change (bool_decide (query_list = query_list)) with true in Hs'. subst s'. cbv iota.
  destruct (ParseList unicode_lower raw') as [ps|].
  2: { apply triple_done. by eexists None, (v_auto s). }
  eapply triple_call; [apply query_ok; [done|by vm_compute]|]. intros [raw2 [e|]] s' Hs'; cbn [fst snd] in Hs'.
  { apply triple_done. subst s'. by exists (Some ps), (v_auto s). }
  change (bool_decide (query_autosel = query_list)) with false in Hs'. change (bool_decide (query_autosel = query_autosel)) with true in Hs'. subst s'. cbv iota.
  destruct (ParseAutoSel unicode_lower raw2) as [auto|]; apply triple_done; [by exists (Some ps), (Some auto)|by exists (Some ps), None].
Qed.

(** ** Stages *)

Lemma with_stage_kept stage op : kept op (with_stage stage op) ↔ Running op = true.
Proof. destruct op. unfold kept. cbn. tauto. Qed.

Lemma checkpoint_ok s op stage : v_closed s = false → v_final s = None → Running op = true →
  T s (checkpoint op stage) (λ r s',
    kept op r.1 ∧ Current r.1 = Current op ∧ Results r.1 = Results op ∧ Error r.1 = Error op ∧
    match r.2 with
    | None => s' = storing stage s ∧ Stage r.1 = stage
    | Some _ => s' = failing true s ∧ (Stage r.1 = Stage op ∨ Stage r.1 = stage)
    end).
Proof.
  intros Hc Hf Hr. view_of s. cbn in Hc, Hf. subst. unfold checkpoint, ask. cbn [bind]. apply triple_next. intros [current|e]; eexists; (split; [reflexivity|]).
  2: { apply triple_done. cbn. split_and!; try done. by left. }
  rewrite orb_false_r. set (op' := if CancelRequested (with_stage stage (with_cancel (CancelRequested current) op)) then _ else _).
  assert (Hop : kept op op' ∧ Current op' = Current op ∧ Results op' = Results op ∧ Error op' = Error op ∧ Stage op' = stage).
  { subst op'. destruct op. unfold kept. cbn in *. destruct (Mbn.CancelRequested current); by split_and!. }
  clearbody op'. destruct Hop as (Hk & Hop). cbn [bind]. apply triple_next. intros err. cbn. pose proof (proj1 Hk) as Hrun. rewrite Hrun. cbn [andb negb allow]. rewrite ?bool_decide_true by done.
    eexists. split; [reflexivity|]. apply triple_done. cbn [fst snd]. destruct Hop as (Hc & Hres & Her & <-).
    split; [exact Hk|]. split_and!; try done. destruct err; cbn; [split; [unfold failing; cbn; by rewrite orb_true_r|by right]|done].
Qed.

Lemma kept_refl op : Running op = true → kept op op.
Proof. by repeat split. Qed.
Lemma kept_trans a b c : kept a b → kept b c → kept a c.
Proof. intros (_ & H1 & H2 & H3) (Hr & H4 & H5 & H6). repeat split; congruence. Qed.

(** What a part of an operation leaves: the session as it was, and a failure of
    the store remembered. *)
Definition still (s s' : view) : Prop := ready s' ∧ (v_failed s = true → v_failed s' = true).
Lemma still_refl s : ready s → still s s.
Proof. by split. Qed.
Lemma still_trans s1 s2 s3 : still s1 s2 → still s2 s3 → still s1 s3.
Proof. intros [_ H1] [H2 H3]. split; auto. Qed.

Lemma reading_still l a s : ready s → still s (reading l a s).
Proof. by view_of s. Qed.
Lemma touching_still s : ready s → still s (touching s).
Proof. by view_of s. Qed.
Lemma failing_still b s : ready s → still s (failing b s).
Proof. view_of s. intros H. split; [exact H|]. cbn. by intros ->. Qed.
Lemma storing_still stage s : ready s → still s (storing stage s).
Proof. view_of s. intros (H & H1 & H2). cbn in H1. subst v_s. by split. Qed.
#[local] Hint Resolve still_refl reading_still touching_still failing_still storing_still kept_refl : mbn.

Lemma mbn_ensure_ok s (p : task) k (R Q : Operation * option error → view → Prop) :
  T s p R → (∀ op s', R (op, None) s' → T s' (k op) Q) → (∀ op e s', R (op, Some e) s' → Q (op, Some e) s') → T s (ensure p k) Q.
Proof. intros Hp Hk He. eapply triple_call; [exact Hp|]. intros [op [e|]] s' HR; [apply triple_done; by apply He|by apply Hk]. Qed.

Lemma call_ok s op (c : prog request (option error)) k (R : option error → view → Prop) Q :
  T s c R → (∀ s', R None s' → T s' k Q) → (∀ e s', R (Some e) s' → Q (op, Some e) s') → T s (call op c k) Q.
Proof. intros Hp Hk He. eapply triple_call; [exact Hp|]. intros [e|] s' HR; [apply triple_done; by apply He|by apply Hk]. Qed.

(** ** Writing *)

Lemma write_ok s command : ready s → mutating command = true → v_stage s ∈ uncertain_stages →
  T s (execute_ command) (λ _ s', s' = touching s).
Proof.
  intros ((H1 & H2 & H3) & H4 & H5) Hm Hst. view_of s. cbn in H1, H2, H3, H4, H5, Hst. subst. unfold execute_, execute, ask. cbn [bind]. apply triple_next. intros [raw err].
  unfold run_step. cbn [x_request x_answer]. rewrite Hm, bool_decide_true by done. eexists. split; [reflexivity|]. by apply triple_done.
Qed.

Lemma reboot_ok s op : ready s → v_stage s ∈ uncertain_stages → T s (reboot op) (λ _ s', s' = touching s).
Proof.
  intros ((H1 & H2 & H3) & H4 & H5) Hst. view_of s. cbn in H1, H2, H3, H4, H5, Hst. subst. unfold reboot, ask. apply triple_next. intros err.
  unfold run_step. cbn [x_request x_answer]. rewrite bool_decide_true by done. eexists. split; [reflexivity|]. by apply triple_done.
Qed.

Lemma named_ok s action name : action ∈ ["Select"; "Delete"; "Add"] → ready s → v_stage s ∈ uncertain_stages →
  T s (named action name) (λ err s', s' = touching s ∨ s' = s ∧ err ≠ None).
Proof.
  intros Ha Hr Hst. unfold named. destruct (NamedCommand action name) as [c|] eqn:Ec; [|apply triple_done; by right].
  eapply triple_mono; [apply write_ok; [done| |done]|by left].
  unfold NamedCommand in Ec. destruct (negb (bool_decide _)); [done|]. destruct (negb _); [done|]. injection Ec as <-.
  repeat (apply elem_of_cons in Ha as [->|Ha]); [by vm_compute..|]. by apply elem_of_nil in Ha.
Qed.

Lemma autosel_writes auto : mutating (autosel_command auto) = true.
Proof. by destruct auto. Qed.

(** A stage of an operation that is ready. *)
Lemma stage_ok s op stage : ready s → Running op = true →
  T s (checkpoint op stage) (λ r s', kept op r.1 ∧ still s s' ∧ Current r.1 = Current op ∧ v_touched s' = v_touched s ∧ v_list s' = v_list s ∧ v_auto s' = v_auto s ∧
    match r.2 with
    | None => v_stage s' = stage ∧ Stage r.1 = stage ∧ v_failed s' = v_failed s
    | Some _ => v_failed s' = true ∧ (Stage r.1 = Stage op ∨ Stage r.1 = stage)
    end).
Proof.
  intros Hr Hop. pose proof Hr as ((_ & H2 & H3) & _). eapply triple_mono; [by apply checkpoint_ok|].
  intros [op' [e|]] s' (Hk & Hc & _ & _ & -> & Hs); cbn [fst snd] in *; (split; [done|]); (split; [by auto with mbn|]); split_and!; try done.
  by destruct s; cbn; rewrite orb_true_r.
Qed.

Lemma cancelled_inside s op : inside s → Running op = true →
  T s (cancelled op) (λ r s', kept op r.1 ∧ Stage r.1 = Stage op ∧ Current r.1 = Current op ∧ (s' = storing (Stage op) s ∨ s' = failing true s ∧ r.2 ≠ None)).
Proof.
  intros (_ & H2 & H3) Hop. unfold cancelled. eapply mbn_ensure_ok; [by apply checkpoint_ok| |].
  - intros op' s' (Hk & Hc & _ & _ & -> & Hst). cbn [fst snd] in *. destruct (CancelRequested op').
    + apply triple_done. split_and!; auto.
    + unfold ask. cbn [bind]. apply triple_next. intros err. exists (storing (Stage op) s). split; [done|]. apply triple_done. split_and!; auto.
  - intros op' e s' (Hk & Hc & _ & _ & -> & Hst). cbn [fst snd] in *. split_and!; auto. by destruct Hst.
Qed.

Lemma cancelled_ok s op : ready s → Running op = true →
  T s (cancelled op) (λ r s', kept op r.1 ∧ still s s' ∧ Stage r.1 = Stage op ∧ Current r.1 = Current op ∧ v_touched s' = v_touched s ∧ v_list s' = v_list s ∧ v_auto s' = v_auto s).
Proof.
  intros Hr Hop. eapply triple_mono; [apply cancelled_inside; [apply Hr|done]|].
  intros r s' (Hk & Hst & Hc & [->|[-> _]]); split_and!; auto with mbn.
Qed.

Lemma read_back_ok s op : ready s → Running op = true →
  T s (read_back unicode_lower op) (λ r s', kept op r.1 ∧ still s s' ∧ Stage r.1 = Stage op ∧ v_touched s' = v_touched s ∧ (r.2 = None → seen s' (Current r.1))).
Proof.
  intros Hr Hop. unfold read_back. eapply triple_call; [apply inspect_ok, Hr|]. intros [snap err] s' (l & a & -> & Hl). apply triple_done. cbn [fst snd] in *.
  split_and!; try by destruct op. all: auto with mbn. all: try (intros ->; destruct (Hl eq_refl) as [-> ->]; by destruct op).
Qed.

Definition quiet_or_uncertain (op : Operation) (s : view) (op' : Operation) (s' : view) : Prop :=
  Stage op' ∈ uncertain_stages ∨ Stage op' = Stage op ∧ v_touched s' = v_touched s.

Lemma mbn_apply_ok s op name auto : ready s → Running op = true →
  T s (Mbn.apply unicode_lower op name auto) (λ r s', kept op r.1 ∧ still s s' ∧ quiet_or_uncertain op s r.1 s' ∧
    (r.2 = None → shows (Current r.1) name auto = true ∧ seen s' (Current r.1))).
Proof.
  intros Hr Hop. unfold Mbn.apply. eapply triple_call; [apply inspect_ok, Hr|]. intros [current [e|]] s1 (l & a & -> & Hl); cbn [fst snd] in Hl.
  { apply triple_done. split_and!; auto with mbn; [by right; split|done]. }
  destruct (Hl eq_refl) as [-> ->]. clear Hl. set (s1 := reading _ _ s). assert (H1 : still s s1) by (by apply reading_still). assert (Ht1 : v_touched s1 = v_touched s) by done.
  destruct (validateApply _ _ _ _) as [e|].
  { apply triple_done. split_and!; auto with mbn; [by right; split|done]. }
  destruct (shows current name auto) eqn:Hsh.
  { apply triple_done. cbn [fst snd]. destruct op. split_and!; try done. by right. }
  assert (Hs1 : v_list s1 = Some (Profiles current)) by done. clearbody s1.
  eapply mbn_ensure_ok; [apply stage_ok; [by apply H1|done]| |].
  2: { intros op' e s' (Hk & Hs & _ & Ht & _ & _ & _ & Hst). cbn [fst snd] in *. split_and!; [done|by eapply still_trans| |done].
       destruct Hst as [Hst|Hst]; [right; split; congruence|left; rewrite Hst; by repeat constructor]. }
  intros op2 s2 (Hk2 & Hs2 & _ & _ & _ & _ & Hst2 & Ho2 & _). cbn [fst snd] in *. assert (H2 : still s s2) by (by eapply still_trans).
  assert (Hu : "applying" ∈ uncertain_stages) by (by repeat constructor).
  assert (Hout : ∀ op' e s', kept op2 op' → still s2 s' → Stage op' ∈ uncertain_stages →
    kept op (op', Some e).1 ∧ still s s' ∧ quiet_or_uncertain op s (op', Some e).1 s' ∧ ((op', Some e).2 = (None : option error) → shows (Current (op', Some e).1) name auto = true ∧ seen s' (Current (op', Some e).1))).
  { intros op' e s' Hk Hs Hst. split_and!; [by eapply kept_trans|by eapply still_trans|by left|done]. }
  assert (Hk22 : kept op2 op2) by (apply kept_refl, Hk2).
  eapply call_ok; [apply write_ok; [apply H2|apply autosel_writes|by rewrite Hst2]| |].
  2: { intros e s' ->. cbn [fst snd]. apply Hout; [done|apply touching_still, H2|by rewrite Ho2]. }
  intros s3 ->. assert (H3 : still s2 (touching s2)) by (apply touching_still, H2). assert (Hst3 : v_stage (touching s2) = "applying") by done. set (s3 := touching s2) in *. clearbody s3.
  eapply (call_ok _ _ _ _ (λ _ s', still s2 s')); [| |intros e s' Hs'; cbn [fst snd]; apply Hout; [done|done|by rewrite Ho2]].
  { destruct auto; [by apply triple_done|]. eapply triple_mono; [apply named_ok; [by repeat constructor|apply H3|by rewrite Hst3]|].
    intros err s' [->|[-> _]]; [|done]. eapply still_trans; [exact H3|]. apply touching_still, H3. }
  intros s4 H4. eapply mbn_ensure_ok; [apply stage_ok; [apply H4|apply Hk2]| |].
  2: { intros op' e s' (Hk & Hs & _ & _ & _ & _ & _ & Hst). cbn [fst snd] in *. apply Hout; [done|by eapply still_trans|].
       destruct Hst as [->| ->]; [by rewrite Ho2|by repeat constructor]. }
  intros op5 s5 (Hk5 & Hs5 & _ & _ & _ & _ & Hst5 & Ho5 & _). cbn [fst snd] in *. assert (H5 : still s2 s5) by (by eapply still_trans).
  eapply call_ok; [apply reboot_ok; [apply H5|rewrite Hst5; by repeat constructor]| |].
  2: { intros e s' ->. cbn [fst snd]. apply Hout; [done|eapply still_trans; [exact H5|apply touching_still, H5]|rewrite Ho5; by repeat constructor]. }
  intros s6 ->. assert (H6 : still s2 (touching s5)) by (eapply still_trans; [exact H5|apply touching_still, H5]). set (s6 := touching s5) in *. clearbody s6.
  eapply mbn_ensure_ok; [apply stage_ok; [apply H6|apply Hk5]| |].
  2: { intros op' e s' (Hk & Hs & _ & _ & _ & _ & _ & Hst). cbn [fst snd] in *. apply Hout; [by eapply kept_trans|by eapply still_trans|].
       destruct Hst as [->| ->]; [rewrite Ho5|]; by repeat constructor. }
  intros op7 s7 (Hk7 & Hs7 & _ & _ & _ & _ & Hst7 & Ho7 & _). cbn [fst snd] in *.
  assert (H7 : still s2 s7) by (by eapply still_trans). assert (Hk27 : kept op2 op7) by (by eapply kept_trans).
  assert (Hv : "verifying" ∈ uncertain_stages) by (by repeat constructor).
  eapply mbn_ensure_ok; [apply read_back_ok; [apply H7|apply Hk7]| |].
  2: { intros op' e s' (Hk & Hs & Hst & _). cbn [fst snd] in *. apply Hout; [by eapply kept_trans|by eapply still_trans|]. by rewrite Hst, Ho7. }
  intros op8 s8 (Hk8 & Hs8 & Hst8 & _ & Hseen). cbn [fst snd] in *. apply triple_done. cbn [fst snd].
  split_and!; [eapply kept_trans; [exact Hk2|]; by eapply kept_trans|eapply still_trans; [exact H2|]; by eapply still_trans|left; by rewrite Hst8, Ho7|].
  destruct (shows (Current op8) name auto) eqn:Hsh8; [|done]. intros _. split; [done|by apply Hseen].
Qed.

Lemma shows_uncertain op s op' s' : quiet_or_uncertain op s op' s' → Stage op ∈ uncertain_stages → Stage op' ∈ uncertain_stages.
Proof. intros [H|[-> _]]; done. Qed.

Lemma kept_stage op op' stage : kept op op' → kept op (with_stage stage op').
Proof. intros (H1 & H2 & H3 & H4). destruct op'. by repeat split. Qed.
Lemma kept_warning op op' w : kept op op' → kept op (with_warning w op').
Proof. intros (H1 & H2 & H3 & H4). destruct op'. by repeat split. Qed.

Lemma keep_ok {A} s snap (k : prog request A) Q : ready s → T s k Q → T s (let? _ := keepSessionChoice snap in k) Q.
Proof.
  intros ((H1 & H2 & H3) & H4 & H5) Hk. unfold keepSessionChoice, ask. cbn [bind]. apply triple_next. intros r. exists s.
  split; [|exact Hk]. view_of s. cbn in H1, H2, H5. by subst.
Qed.

Lemma owner_ok {A} s (k : Owner → prog request A) Q : inside s → (∀ owner, T s (k owner) Q) → T s (let? owner := ask SessionOwner in k owner) Q.
Proof. intros (H1 & H2 & H3) Hk. unfold ask. cbn [bind]. apply triple_next. intros owner. exists s. split; [|exact (Hk owner)]. view_of s. cbn in H1, H2. by subst. Qed.

Lemma mbn_restore_ok s op original : ready s → Running op = true →
  T s (restore unicode_lower op original) (λ r s', kept op r.1 ∧ still s s' ∧
    match r.2 with
    | None => Stage r.1 = "restored" ∧ shows (Current r.1) (Active original) (AutoSel original) = true ∧ seen s' (Current r.1)
    | Some e => Stage r.1 = "restoring" ∨ Stage r.1 = Stage op ∧ (Is e OwnerChanged = true ∨ v_failed s' = true)
    end).
Proof.
  intros Hr Hop. unfold restore. apply owner_ok; [apply Hr|]. intros owner. destruct (negb _).
  { apply triple_done. split_and!; auto with mbn. by right; split; [|left]. }
  eapply mbn_ensure_ok; [by apply stage_ok| |].
  2: { intros op' e s' (Hk & Hs & _ & _ & _ & _ & Hf & Hst). cbn [fst snd] in *. split_and!; [done|done|]. destruct Hst; [right|by left]. split; [done|by right]. }
  intros op2 s2 (Hk & Hs & _ & _ & _ & _ & _ & Hst & _). cbn [fst snd] in *.
  eapply triple_call; [apply mbn_apply_ok; [apply Hs|apply Hk]|]. intros [op3 [e|]] s3 (Hk3 & Hs3 & _ & Hsh); cbn [fst snd] in *.
  - apply triple_done. split_and!; [apply kept_stage; by eapply kept_trans|by eapply still_trans|left; by destruct op3].
  - apply keep_ok; [apply Hs3|]. apply triple_done. split_and!; [apply kept_stage; by eapply kept_trans|by eapply still_trans|]. cbn [fst snd].
    destruct (Hsh eq_refl). by destruct op3.
Qed.

(** ** Checks *)

(** Requests that only ask. *)
Definition consult (c : request) : Prop :=
  match c with
  | LoadOperation _ | LoadPolicies | LoadAssets | ReadFile _ | SessionOwner | CtxErr => True
  | _ => False
  end.

Lemma consult_ok {A} s (p : prog request A) : inside s → asks_only consult p → T s p (λ _ s', ∃ b, s' = failing b s).
Proof.
  intros (H1 & H2 & H3) Hp. apply (triple_at run_step (λ s', ∃ b, s' = failing b s)).
  2: { exists false. destruct s. unfold failing. cbn. f_equal. by rewrite orb_false_r. }
  apply (asks_only_triple run_step _ consult); [|done]. intros s' c r [b ->] Hc. view_of s. cbn in H1, H2, H3. subst.
  destruct c; try done; eexists; (split; [reflexivity|]); unfold failing; cbn; try by exists b.
  exists (b || match (r : Operation + error) with inr _ => true | inl _ => false end). by rewrite orb_assoc.
Qed.

Ltac consults := repeat match goal with
  | |- asks_only _ (Ret _) => exact I
  | |- asks_only _ (Do _ _) => split; [exact I|intros ?]
  | |- asks_only _ (bind _ _) => apply asks_only_bind; [|intros ?]
  | |- asks_only _ (ask _) => split; [exact I|intros ?; exact I]
  | |- asks_only _ (if ?b then _ else _) => destruct b
  | |- asks_only _ (match ?x with _ => _ end) => destruct x
  end.

Lemma asset_asks id : asks_only consult (asset id).
Proof. unfold asset. consults. Qed.
Lemma import_asks owner r current : asks_only consult (validateImport owner r current).
Proof. unfold validateImport. consults. apply asset_asks. Qed.
Lemma delete_asks op : asks_only consult (validateDelete op).
Proof. unfold validateDelete. consults. Qed.
Lemma preflight_asks op : asks_only consult (preflight op).
Proof. unfold preflight. consults; solve [apply import_asks|apply delete_asks]. Qed.

(** A check goes before the rest of the operation. *)
Lemma checked_ok {A} s (c : prog request A) B (k : A → prog request B) Q :
  ready s → asks_only consult c → (∀ a s', still s s' → v_touched s' = v_touched s → T s' (k a) Q) → T s (bind c k) Q.
Proof.
  intros Hr Hc Hk. eapply triple_call; [by apply consult_ok; [apply Hr|]|]. intros a s' [b ->]. apply Hk; auto with mbn.
Qed.

(** ** Deleting and importing *)

Lemma replace_ok name ps : ∀ s op, ready s → Running op = true → Stage op ∈ uncertain_stages →
  T s (replace_profiles unicode_lower name ps op) (λ r s', kept op r.1 ∧ still s s' ∧ Stage r.1 ∈ uncertain_stages).
Proof.
  induction ps as [|p ps IH]; intros s op Hr Hop Hu; cbn [replace_profiles]; [apply triple_done; split_and!; auto with mbn|].
  destruct (_ || _); [by apply IH|]. destruct (_ || _); [apply triple_done; split_and!; auto with mbn|].
  eapply mbn_ensure_ok; [by apply mbn_apply_ok| |].
  - intros op' s' (Hk & Hs & Hq & _). cbn [fst snd] in *. eapply triple_mono; [apply IH; [apply Hs|apply Hk|by eapply shows_uncertain]|].
    intros r s2 (Hk2 & Hs2 & Hu2). split_and!; [by eapply kept_trans|by eapply still_trans|done].
  - intros op' e s' (Hk & Hs & Hq & _). cbn [fst snd] in *. split_and!; [done|done|by eapply shows_uncertain].
Qed.

Lemma mbn_delete_ok s op : ready s → Running op = true → Stage op ∈ uncertain_stages →
  T s (deleteProfile unicode_lower op) (λ r s', kept op r.1 ∧ still s s' ∧ Stage r.1 ∈ uncertain_stages ∧
    (r.2 = None → hasProfile (Current r.1) (r_Profile (o_Request op)) = false ∧ seen s' (Current r.1))).
Proof.
  intros Hr Hop Hu. unfold deleteProfile, call at 1. apply checked_ok; [done|apply delete_asks|]. intros [e|] s1 H1 _.
  { apply triple_done. split_and!; auto with mbn; done. }
  assert (Hout : ∀ op' e s', kept op op' → still s1 s' → Stage op' ∈ uncertain_stages →
    kept op op' ∧ still s s' ∧ Stage op' ∈ uncertain_stages ∧ (Some e = (None : option error) → hasProfile (Current op') (r_Profile (o_Request op)) = false ∧ seen s' (Current op'))).
  { intros op' e s' Hk Hs Hst. split_and!; [done|by eapply still_trans|done|done]. }
  eapply mbn_ensure_ok; [apply replace_ok; [apply H1|done|done]| |].
  2: { intros op' e s' (Hk & Hs & Hst). cbn [fst snd] in *. by apply Hout. }
  intros op2 s2 (Hk2 & Hs2 & Hu2). cbn [fst snd] in *.
  eapply mbn_ensure_ok; [apply cancelled_ok; [apply Hs2|apply Hk2]| |].
  2: { intros op' e s' (Hk & Hs & Hst & _). cbn [fst snd] in *. apply Hout; [by eapply kept_trans|by eapply still_trans|by rewrite Hst]. }
  intros op3 s3 (Hk3 & Hs3 & Hst3 & _). cbn [fst snd] in *. assert (H3 : still s1 s3) by (by eapply still_trans). assert (K3 : kept op op3) by (by eapply kept_trans).
  assert (Hd : "deleting" ∈ uncertain_stages) by (by repeat constructor).
  eapply mbn_ensure_ok; [apply stage_ok; [apply H3|apply K3]| |].
  2: { intros op' e s' (Hk & Hs & _ & _ & _ & _ & _ & Hst). cbn [fst snd] in *. apply Hout; [by eapply kept_trans|by eapply still_trans|]. destruct Hst as [->| ->]; [by rewrite Hst3|done]. }
  intros op4 s4 (Hk4 & Hs4 & _ & _ & _ & _ & Hst4 & Ho4 & _). cbn [fst snd] in *. assert (H4 : still s1 s4) by (by eapply still_trans). assert (K4 : kept op op4) by (by eapply kept_trans).
  eapply call_ok; [apply named_ok; [by repeat constructor|apply H4|by rewrite Hst4]| |].
  2: { intros e s' Hs'. cbn [fst snd]. apply Hout; [done| |by rewrite Ho4]. destruct Hs' as [->|[-> _]]; [|done]. eapply still_trans; [exact H4|]. apply touching_still, H4. }
  intros s5 [->|[_ ?]]; [|done]. assert (H5 : still s1 (touching s4)) by (eapply still_trans; [exact H4|]; apply touching_still, H4).
  eapply call_ok; [apply reboot_ok; [apply H5|by rewrite <-Hst4 in Hd]| |].
  2: { intros e s' ->. cbn [fst snd]. apply Hout; [done| |by rewrite Ho4]. eapply still_trans; [exact H5|]. apply touching_still, H5. }
  intros s6 ->. assert (H6 : still s1 (touching (touching s4))) by (eapply still_trans; [exact H5|]; apply touching_still, H5).
  eapply mbn_ensure_ok; [apply read_back_ok; [apply H6|apply K4]| |].
  2: { intros op' e s' (Hk & Hs & Hst & _). cbn [fst snd] in *. apply Hout; [by eapply kept_trans|by eapply still_trans|by rewrite Hst, Ho4]. }
  intros op7 s7 (Hk7 & Hs7 & Hst7 & _ & Hseen). cbn [fst snd] in *. assert (H7 : still s1 s7) by (by eapply still_trans). assert (K7 : kept op op7) by (by eapply kept_trans).
  assert (U7 : Stage op7 ∈ uncertain_stages) by (by rewrite Hst7, Ho4).
  destruct (hasProfile (Current op7) _) eqn:Hh; [apply triple_done; by apply Hout|]. apply keep_ok; [apply H7|]. apply triple_done. cbn [fst snd].
  split_and!; [done|by eapply still_trans|done|]. intros _. split; [done|by apply Hseen].
Qed.

(** An import fails before it writes, or at a stage that tells of a write. *)
Definition harmless (s : view) (op' : Operation) (s' : view) : Prop := Stage op' ∈ uncertain_stages ∨ v_touched s' = v_touched s.

Lemma uploaded_ok s op path : ready s → Running op = true →
  T s (import_uploaded unicode_lower op path) (λ r s', kept op r.1 ∧ still s s' ∧ harmless s r.1 s' ∧
    (r.2 = None → Stage r.1 ∈ uncertain_stages ∧ new_profiles (Original op) (Current r.1) = true ∧ seen s' (Current r.1))).
Proof.
  intros Hr Hop. assert (Hi : "importing" ∈ uncertain_stages) by (by repeat constructor).
  unfold import_uploaded. eapply mbn_ensure_ok; [by apply cancelled_ok| |].
  2: { intros op' e s' (Hk & Hs & _ & _ & Ht & _). cbn [fst snd] in *. split_and!; [done|done|by right|done]. }
  intros op1 s1 (Hk1 & Hs1 & _ & _ & Ht1 & _). cbn [fst snd] in *.
  eapply mbn_ensure_ok; [apply stage_ok; [apply Hs1|apply Hk1]| |].
  2: { intros op' e s' (Hk & Hs & _ & Ht & _). cbn [fst snd] in *. split_and!; [by eapply kept_trans|by eapply still_trans|right; congruence|done]. }
  intros op2 s2 (Hk2 & Hs2 & _ & Ht2 & _ & _ & Hst2 & Ho2 & _). cbn [fst snd] in *.
  assert (H2 : still s s2) by (by eapply still_trans). assert (K2 : kept op op2) by (by eapply kept_trans).
  eapply call_ok; [apply named_ok; [by repeat constructor|apply H2|by rewrite Hst2]| |].
  2: { intros e s' Hs'. cbn [fst snd]. split_and!; [done| |left; by rewrite Ho2|done]. destruct Hs' as [->|[-> _]]; [|done]. eapply still_trans; [exact H2|]. apply touching_still, H2. }
  intros s3 [->|[_ ?]]; [|done]. assert (H3 : still s (touching s2)) by (eapply still_trans; [exact H2|]; apply touching_still, H2).
  eapply mbn_ensure_ok; [apply read_back_ok; [apply H3|apply K2]| |].
  2: { intros op' e s' (Hk & Hs & Hst & _). cbn [fst snd] in *. split_and!; [by eapply kept_trans|by eapply still_trans|left; by rewrite Hst, Ho2|done]. }
  intros op4 s4 (Hk4 & Hs4 & Hst4 & _ & Hseen). cbn [fst snd] in *. assert (K4 : kept op op4) by (by eapply kept_trans).
  apply triple_done. cbn [fst snd]. replace (Original op4) with (Original op) by (symmetry; apply K4).
  split_and!; [done|by eapply still_trans|left; by rewrite Hst4, Ho2|].
  destruct (new_profiles (Original op) (Current op4)) eqn:Hn; [|done]. intros _. split_and!; [by rewrite Hst4, Ho2|done|by apply Hseen].
Qed.

Lemma cleanup_ok {A} s path (k : answer (Execute ("AT+QFDEL=" ++ quoted_text path) true) → prog request A) Q :
  inside s → (∀ r, T s (k r) Q) → T s (bind (ask (Execute ("AT+QFDEL=" ++ quoted_text path) true)) k) Q.
Proof.
  intros (H1 & H2 & H3) Hk. unfold ask. cbn [bind]. apply triple_next. intros [raw err]. exists s. split; [|apply Hk].
  view_of s. cbn in H1, H2, H3. subst. unfold run_step. cbn [x_request x_answer].
  assert (mutating ("AT+QFDEL=" ++ quoted_text path) = false) as -> by (by vm_compute). cbn [andb negb allow fst snd].
  destruct (CheckResponse raw err); [done|]. rewrite !bool_decide_false by (by vm_compute). done.
Qed.

Lemma import_ok s op : ready s → Running op = true →
  T s (importFile unicode_lower sha256_hex op) (λ r s', kept op r.1 ∧ still s s' ∧ harmless s r.1 s' ∧
    (r.2 = None → Stage r.1 ∈ uncertain_stages ∧ new_profiles (Original op) (Current r.1) = true ∧ seen s' (Current r.1))).
Proof.
  intros Hr Hop. assert (Hfail : ∀ e s', still s s' → v_touched s' = v_touched s →
    kept op (op, Some e).1 ∧ still s s' ∧ harmless s (op, Some e).1 s' ∧ ((op, Some e).2 = (None : option error) → Stage (op, Some e).1 ∈ uncertain_stages ∧ new_profiles (Original op) (Current (op, Some e).1) = true ∧ seen s' (Current (op, Some e).1))).
  { intros e s' Hs Ht. split_and!; [by apply kept_refl|done|by right|done]. }
  unfold importFile. apply owner_ok; [apply Hr|]. intros owner. unfold call at 1. apply checked_ok; [done|apply import_asks|].
  intros [e|] s1 H1 T1; [apply triple_done; by apply Hfail|]. apply checked_ok; [apply H1|apply asset_asks|].
  intros [[a data]|e] s2 H2 T2; [|apply triple_done; apply Hfail; [by eapply still_trans|congruence]].
  assert (H12 : still s s2) by (by eapply still_trans). assert (T12 : v_touched s2 = v_touched s) by congruence.
  destruct (bool_decide _); [apply triple_done; by apply Hfail|].
  eapply mbn_ensure_ok; [apply stage_ok; [apply H12|done]| |].
  2: { intros op' e s' (Hk & Hs & _ & Ht & _). cbn [fst snd] in *. split_and!; [done|by eapply still_trans|right; congruence|done]. }
  intros op3 s3 (Hk3 & Hs3 & _ & Ht3 & _). cbn [fst snd] in *. assert (H3 : still s s3) by (by eapply still_trans).
  unfold call at 1, ask at 1. cbn [bind]. apply triple_next. intros err. exists s3. split.
  { destruct H3 as (((E1 & E2 & E3) & E4 & E5) & _). destruct s3. cbn in *. by subst. }
  destruct err as [e|]; [apply triple_done; split_and!; [done|done|right; cbn; congruence|done]|].
  eapply triple_call; [apply uploaded_ok; [apply H3|apply Hk3]|]. intros [op4 err] s4 (Hk4 & Hs4 & Hh4 & Hd4). cbn [fst snd] in *.
  assert (H4 : still s s4) by (by eapply still_trans). assert (K4 : kept op op4) by (by eapply kept_trans).
  replace (Original op3) with (Original op) in Hd4 by (symmetry; apply Hk3).
  apply cleanup_ok; [apply H4|]. intros c. destruct (CheckResponse c.1 c.2); apply triple_done; cbn [fst snd].
  all: split_and!; [first [done|by apply kept_warning]|done| |done || (by destruct op4)].
  all: unfold harmless in *; destruct Hh4; [left|right; congruence]; first [done|by destruct op4].
Qed.

(** ** Trials *)

(** What an observation keeps: it writes nothing. *)
Definition watching (op : Operation) (s : view) (op' : Operation) (s' : view) : Prop :=
  kept op op' ∧ still s s' ∧ Current op' = Current op ∧ v_touched s' = v_touched s ∧ v_list s' = v_list s ∧ v_auto s' = v_auto s.

Lemma watching_refl op s : ready s → Running op = true → watching op s op s.
Proof. intros Hr Hop. split_and!; try done; auto with mbn. Qed.
Lemma watching_trans op s op1 s1 op2 s2 : watching op s op1 s1 → watching op1 s1 op2 s2 → watching op s op2 s2.
Proof. intros (H1 & H2 & H3 & H4 & H5 & H6) (G1 & G2 & G3 & G4 & G5 & G6). split_and!; [by eapply kept_trans|by eapply still_trans|congruence..]. Qed.

(** A request of an observation. *)
Definition observes (c : request) : Prop :=
  match c with GetRegistration | Probe _ | CtxErr | ObserveErr | ObserveDone | Now => True | _ => False end.
Lemma observes_ok {A} s (p : prog request A) : ready s → asks_only observes p → T s p (λ _ s', s' = s).
Proof.
  intros ((H1 & H2 & H3) & _) Hp. apply (triple_at run_step (λ s', s' = s)); [|done].
  apply (asks_only_triple run_step _ observes); [|done]. intros s' c r -> Hc. exists s. split; [|done]. view_of s. cbn in H1, H2. subst. by destruct c.
Qed.
Lemma observes_then {A B} s (p : prog request A) (k : A → prog request B) Q :
  ready s → asks_only observes p → (∀ a, T s (k a) Q) → T s (bind p k) Q.
Proof. intros Hr Hp Hk. eapply triple_call; [by apply observes_ok|]. by intros a s' ->. Qed.

Ltac observing := repeat match goal with
  | |- triple _ _ (Ret _) _ => by apply triple_done
  | |- triple _ _ (bind _ _) _ => apply observes_then; [eassumption|by consults|intros ?]
  | |- triple _ _ (if ?b then _ else _) _ => destruct b
  | |- triple _ _ (match ?x with _ => _ end) _ => destruct x
  end.

Lemma observe_loop_ok ticks : ∀ s op since, ready s → Running op = true →
  T s (observe_loop ticks op since) (λ r s', watching op s r.1.1 s').
Proof.
  induction ticks as [|ticks IH]; intros s op since Hr Hop; cbn [observe_loop].
  all: eapply triple_call; [by apply cancelled_ok|]; intros [op1 err] s1 (Hk & Hs & Hst & Hc & Ht & Hl & Ha); cbn [fst snd] in *.
  all: assert (Hw : watching op s op1 s1) by (by split_and!); assert (Hr1 : ready s1) by apply Hs; destruct err as [e|]; [by apply triple_done|].
  all: cbv zeta; observing.
  eapply triple_mono; [apply IH; [done|apply Hk]|]. intros res s2 Hw2. by eapply watching_trans.
Qed.

Lemma observe_ok s ticks op : ready s → Running op = true →
  T s (observe ticks op) (λ r s', watching op s r.1.1 s').
Proof.
  intros Hr Hop. unfold observe. eapply triple_call; [by apply stage_ok|]. intros [op1 err] s1 (Hk & Hs & Hc & Ht & Hl & Ha & _). cbn [fst snd] in *.
  assert (Hw : watching op s op1 s1) by (by split_and!). destruct err as [e|]; [by apply triple_done|].
  eapply triple_mono; [apply observe_loop_ok; [apply Hs|apply Hk]|]. intros r s2 Hw2. by eapply watching_trans.
Qed.

Definition chosen (names : list string) (op : Operation) (s : view) : Prop :=
  (∃ name, name ∈ names ∧ shows (Current op) name false = true) ∧ seen s (Current op).

Lemma kept_result op op' t : kept op op' → kept op (with_result t op').
Proof. intros (H1 & H2 & H3 & H4). destruct op'. by repeat split. Qed.

(** One candidate: applied and observed. *)
Lemma candidate_ok s ticks name op : ready s → Running op = true →
  T s (try_candidate unicode_lower ticks op name) (λ r s', kept op r.1.1 ∧ still s s' ∧ (r.2 = None → shows (Current r.1.1) name false = true ∧ seen s' (Current r.1.1))).
Proof.
  intros Hr Hop. unfold try_candidate. eapply triple_call; [by apply mbn_apply_ok|]. intros [op1 [e|]] s1 (Hk1 & Hs1 & _ & Hsh); cbn [fst snd] in *.
  { by apply triple_done. }
  destruct (Hsh eq_refl) as (Hsh1 & Hl1 & Ha1).
  eapply triple_mono; [apply observe_ok; [apply Hs1|apply Hk1]|]. intros [[op2 plmn] err] s2 (Hk2 & Hs2 & Hc2 & _ & Hl2 & Ha2). cbn [fst snd] in *.
  split_and!; [by eapply kept_trans|by eapply still_trans|]. intros _. rewrite Hc2. split; [done|]. split; congruence.
Qed.

Lemma trial_loop_ok ticks names : ∀ s failure op, ready s → Running op = true →
  T s (trial_loop unicode_lower ticks names failure op) (λ r s', kept op r.1 ∧ still s s' ∧
    match r.2 with inl None => chosen names r.1 s' | inl (Some _) => v_failed s' = true | inr _ => True end).
Proof.
  induction names as [|name names IH]; intros s failure op Hr Hop; cbn [trial_loop]; [apply triple_done; split_and!; [by apply kept_refl|by apply still_refl|done]|].
  eapply triple_call; [by apply cancelled_ok|]. intros [op1 [e|]] s1 (Hk1 & Hs1 & _); cbn [fst snd] in *; [by apply triple_done|].
  apply observes_then; [apply Hs1|by consults|]. intros started.
  eapply triple_call; [apply candidate_ok; [apply Hs1|apply Hk1]|]. intros [[op2 plmn] f] s2 (Hk2 & Hs2 & Hsh). cbn [fst snd] in *.
  assert (K2 : kept op op2) by (by eapply kept_trans). assert (H2 : still s s2) by (by eapply still_trans).
  apply observes_then; [apply H2|by consults|]. intros ended.
  eapply triple_call; [apply stage_ok; [apply H2|exact (proj1 (kept_result _ _ _ K2))]|]. intros [op3 [e|]] s3 (Hk3 & Hs3 & Hc3 & _ & Hl3 & Ha3 & Hst3); cbn [fst snd] in *.
  { apply triple_done. split_and!; [|by eapply still_trans|apply Hst3]. eapply kept_trans; [|exact Hk3]. by apply kept_result. }
  assert (K3 : kept op op3) by (eapply kept_trans; [|exact Hk3]; by apply kept_result). assert (H3 : still s s3) by (by eapply still_trans).
  destruct f as [e|].
  - destruct (Is e RegistrationGoal); [|by apply triple_done].
    eapply triple_mono; [apply IH; [apply H3|apply K3]|]. intros [op4 [[e'|]|f]] s4 (Hk4 & Hs4 & Hr4); cbn [fst snd] in *; (split_and!; [by eapply kept_trans|by eapply still_trans|try done]).
    destruct Hr4 as ((n & Hn & Hshn) & Hseen). split; [|done]. exists n. split; [by right|done].
  - apply keep_ok; [apply H3|]. apply triple_done. cbn [fst snd]. destruct (Hsh eq_refl) as (Hshn & Hl & Ha).
    assert (Hcur : Current op3 = Current op2) by (rewrite Hc3; by destruct op2).
    split_and!; [by apply kept_warning|done|]. assert (Current (with_warning "已达到所选目标；通话和短信未测试。尚未绑定 SIM 策略。" op3) = Current op2) as Hw by (by destruct op3).
    unfold chosen. rewrite Hw. split; [exists name; split; [by left|done]|]. split; congruence.
Qed.

Lemma Is_join f e c : Is e c = true → Is (f ++ e)%list c = true.
Proof. unfold Is. rewrite !bool_decide_eq_true. intros He. apply elem_of_app. by right. Qed.

(** How an operation may end with an error: nothing was written; the stage tells
    that the modem may have changed; the card is another one; or a trial either
    restored the original or lost the store. *)
Definition settled (s : view) (op : Operation) (e : error) : Prop :=
  v_touched s = false ∨ Stage op ∈ uncertain_stages ∨ Is e OwnerChanged = true ∨ Kind (o_Request op) = "trial" ∧ (Stage op = "restored" ∨ v_failed s = true).

Lemma trial_ok s ticks op : ready s → Running op = true → v_touched s = false → Kind (o_Request op) = "trial" →
  T s (trial unicode_lower ticks op) (λ r s', kept op r.1 ∧ still s s' ∧
    match r.2 with None => chosen (Candidates (o_Request op)) r.1 s' | Some e => settled s' r.1 e end).
Proof.
  intros Hr Hop Ht Hkind. unfold trial. destruct (existsb _ _); [apply triple_done; split_and!; [by apply kept_refl|by apply still_refl|by left]|].
  eapply triple_call; [by apply trial_loop_ok|]. intros [op1 [[e|]|f]] s1 (Hk1 & Hs1 & Hr1); cbn [fst snd] in *.
  1,2: apply triple_done; cbn [fst snd]; split_and!; try done. { do 3 right. destruct Hk1 as (_ & -> & _). split; [done|by right]. }
  eapply triple_call; [apply mbn_restore_ok; [apply Hs1|apply Hk1]|]. intros [op2 err] s2 (Hk2 & Hs2 & Hr2). apply triple_done. cbn [fst snd] in *.
  assert (K2 : kept op op2) by (by eapply kept_trans). assert (Hkind2 : Kind (o_Request op2) = "trial") by (by destruct K2 as (_ & -> & _)).
  split_and!; [done|by eapply still_trans|]. destruct err as [e|]; cbn [Mbn.Join default].
  - destruct Hr2 as [Hst|(_ & [Hown|Hf])]; unfold settled.
    + right; left. rewrite Hst. by repeat constructor.
    + right; right; left. by apply Is_join.
    + do 3 right. split; [done|by right].
  - destruct Hr2 as (Hst & _). do 3 right. split; [done|by left].
Qed.

(** What an operation that succeeded saw in the modem after its last write. *)
Definition achieved (s : view) (op : Operation) : Prop :=
  let r := o_Request op in let c := Current op in
  seen s c ∧
  (Kind r = "apply" → shows c (r_Profile r) (r_AutoSel r) = true) ∧
  (Kind r = "import" → new_profiles (Original op) c = true) ∧
  (Kind r = "delete" → hasProfile c (r_Profile r) = false) ∧
  (Kind r = "trial" → ∃ name, name ∈ Candidates r ∧ shows c name false = true) ∧
  (Kind r = "restore" → ∃ name auto, shows c name auto = true).

Definition outcome (op : Operation) (s : view) (r : Operation * option error) (s' : view) : Prop :=
  kept op r.1 ∧ match r.2 with None => achieved s' r.1 | Some e => settled s' r.1 e end.

Lemma kinds (op op' : Operation) (k : string) : kept op op' → Kind (o_Request op) = k → Kind (o_Request op') = k.
Proof. by intros (_ & -> & _). Qed.

Lemma prepare_ok s (r : Request) : inside s → v_saved s = true → v_prepared s = false →
  T s (ask (Prepare r)) (λ err s', v_touched s' = v_touched s ∧ inside s' ∧ (err = None → ready s')).
Proof.
  intros (H1 & H2 & H3) H4 H5. apply triple_next. intros err. view_of s. cbn in H1, H2, H3, H4, H5. subst. eexists. split; [reflexivity|].
  apply triple_done. split_and!; try done. by intros ->.
Qed.

(** The part of [perform] for each kind. *)
Lemma apply_outcome s op r : ready s → Running op = true → Stage op ∈ uncertain_stages → v_touched s = false → o_Request op = r → Kind r = "apply" →
  T s (apply_request unicode_lower sha256_hex r op) (λ x s', outcome op s x s' ∧ still s s').
Proof.
  intros Hr Hop Hu Ht Hreq Hkind. unfold apply_request.
  eapply (mbn_ensure_ok _ _ _ (λ x s', kept op x.1 ∧ still s s' ∧ match x.2 with None => Stage x.1 ∈ uncertain_stages | Some e => settled s' x.1 e end)).
  { destruct (_ && _); [|apply triple_done; split_and!; [by apply kept_refl|by apply still_refl|done]].
    eapply triple_mono; [by apply import_ok|]. intros [op' [e|]] s' (Hk & Hs & Hh & Hd); cbn [fst snd] in *; split_and!; try done.
    - destruct Hh as [Hh|Hh]; [by right; left|left; congruence].
    - by apply Hd. }
  2: { intros op' e s' (Hk & Hs & Hset). by split. }
  intros op1 s1 (Hk1 & Hs1 & Hu1). cbn [fst snd] in *.
  eapply mbn_ensure_ok; [apply mbn_apply_ok; [apply Hs1|apply Hk1]| |].
  2: { intros op' e s' (Hk & Hs & Hq & _). cbn [fst snd] in *. split; [split; [by eapply kept_trans|]|by eapply still_trans]. right; left. by eapply shows_uncertain. }
  intros op2 s2 (Hk2 & Hs2 & _ & Hsh). cbn [fst snd] in *. destruct (Hsh eq_refl) as [Hsh1 Hseen]. assert (K2 : kept op op2) by (by eapply kept_trans).
  apply keep_ok; [apply Hs2|]. apply triple_done. split; [split; [by apply kept_warning|]|by eapply still_trans]. cbn [fst snd].
  assert (Hw : o_Request (with_warning applied_warning op2) = r) by (destruct K2 as (_ & <- & _) in Hreq |- *; by destruct op2).
  unfold achieved. rewrite Hw, Hkind. assert (Current (with_warning applied_warning op2) = Current op2) as -> by (by destruct op2). split_and!; done.
Qed.

Lemma restore_outcome s op r : ready s → Running op = true → Stage op ∈ uncertain_stages → v_touched s = false → o_Request op = r → Kind r = "restore" →
  T s (restore_request unicode_lower r op) (λ x s', outcome op s x s' ∧ still s s').
Proof.
  intros Hr Hop Hu Ht Hreq Hkind. unfold restore_request.
  apply (checked_ok _ (ask (LoadOperation (RestoreOperation r)))); [done|split; [exact I|done]|]. intros [previous|e] s1 Hs1 Ht1.
  2: { apply triple_done. split; [split; [by apply kept_refl|]|done]. right; by left. }
  apply owner_ok; [apply Hs1|]. intros owner. destruct (negb _).
  { apply triple_done. split; [split; [by apply kept_refl|]|done]. right; by left. }
  eapply triple_mono; [apply mbn_restore_ok; [apply Hs1|done]|]. intros [op2 [e|]] s2 (Hk2 & Hs2 & Hr2); cbn [fst snd] in *.
  - split; [split; [done|]|by eapply still_trans]. right; left. cbn [fst snd]. destruct Hr2 as [->|[-> _]]; [by repeat constructor|done].
  - split; [split; [done|]|by eapply still_trans]. destruct Hr2 as (_ & Hsh & Hseen). unfold achieved. cbn [fst snd].
    rewrite (kinds _ _ _ Hk2 (eq_trans (f_equal Kind Hreq) Hkind)). split_and!; try done. intros _. by eexists _, _.
Qed.

Lemma delete_outcome s op r : ready s → Running op = true → Stage op ∈ uncertain_stages → o_Request op = r → Kind r = "delete" →
  T s (deleteProfile unicode_lower op) (λ x s', outcome op s x s' ∧ still s s').
Proof.
  intros Hr Hop Hu Hreq Hkind. eapply triple_mono; [by apply mbn_delete_ok|]. intros [op2 [e|]] s2 (Hk2 & Hs2 & Hu2 & Hd); cbn [fst snd] in *.
  - split; [split; [done|]|done]. by right; left.
  - destruct (Hd eq_refl) as [Hh Hseen]. split; [split; [done|]|done]. unfold achieved. cbn [fst snd].
    rewrite (kinds _ _ _ Hk2 (eq_trans (f_equal Kind Hreq) Hkind)). destruct Hk2 as (_ & -> & _). by split_and!.
Qed.

Lemma import_outcome s op r : ready s → Running op = true → v_touched s = false → o_Request op = r → Kind r = "import" →
  T s (importFile unicode_lower sha256_hex op) (λ x s', outcome op s x s' ∧ still s s').
Proof.
  intros Hr Hop Ht Hreq Hkind. eapply triple_mono; [by apply import_ok|]. intros [op2 [e|]] s2 (Hk2 & Hs2 & Hh & Hd); cbn [fst snd] in *.
  - split; [split; [done|]|done]. destruct Hh as [Hh|Hh]; [by right; left|left; cbn; congruence].
  - destruct (Hd eq_refl) as (_ & Hn & Hseen). split; [split; [done|]|done]. unfold achieved. cbn [fst snd].
    rewrite (kinds _ _ _ Hk2 (eq_trans (f_equal Kind Hreq) Hkind)). destruct Hk2 as (_ & _ & -> & _). by split_and!.
Qed.

Lemma trial_outcome s ticks op r : ready s → Running op = true → v_touched s = false → o_Request op = r → Kind r = "trial" →
  T s (trial unicode_lower ticks op) (λ x s', outcome op s x s' ∧ still s s').
Proof.
  intros Hr Hop Ht Hreq Hkind. eapply triple_mono; [apply trial_ok; [done|done|done|congruence]|]. intros [op2 [e|]] s2 (Hk2 & Hs2 & Hd); cbn [fst snd] in *.
  - by split; [split|].
  - split; [split; [done|]|done]. destruct Hd as [Hname Hseen]. unfold achieved. cbn [fst snd].
    rewrite (kinds _ _ _ Hk2 (eq_trans (f_equal Kind Hreq) Hkind)). destruct Hk2 as (_ & -> & _). by split_and!.
Qed.

(** ** One operation *)

(** Before the service is stopped nothing was written. *)
Definition early (s : view) : Prop := inside s ∧ v_saved s = true ∧ v_prepared s = false ∧ v_touched s = false.
Lemma early_failing b s : early s → early (failing b s).
Proof. by destruct s. Qed.
Lemma early_storing stage s : early s → early (storing stage s).
Proof. view_of s. intros ((H1 & H2 & H3) & H4 & H5 & H6). cbn in H4. split_and!; try done. cbn. by rewrite H4. Qed.

Lemma mbn_perform_ok s ticks op : early s → Running op = true →
  T s (perform unicode_lower sha256_hex ticks op) (λ x s', outcome op s x s' ∧ inside s').
Proof.
  intros He Hop. unfold perform.
  assert (Hfail : ∀ op' e s', kept op op' → early s' → outcome op s (op', Some e) s' ∧ inside s').
  { intros op' e s' Hk (Hi & _ & _ & Ht). by split; [split; [|left]|]. }
  eapply mbn_ensure_ok; [apply cancelled_inside; [apply He|done]| |].
  2: { intros op' e s' (Hk & _ & _ & Hs). cbn [fst snd] in *. apply Hfail; [done|]. destruct Hs as [->|[-> _]]; [by apply early_storing|by apply early_failing]. }
  intros op1 s1 (Hk1 & _ & _ & Hs1). cbn [fst snd] in *. assert (E1 : early s1) by (destruct Hs1 as [->|[_ ?]]; [by apply early_storing|done]). clear Hs1.
  unfold call at 1. eapply triple_call; [apply consult_ok; [apply E1|apply preflight_asks]|]. intros err s2 [b ->]. apply (early_failing b) in E1.
  destruct err as [e|]; [apply triple_done; by apply Hfail|].
  eapply mbn_ensure_ok; [apply checkpoint_ok; [apply E1|apply E1|apply Hk1]| |].
  2: { intros op' e s' (Hk & _ & _ & _ & -> & _). cbn [fst snd] in *. apply Hfail; [by eapply kept_trans|by apply early_failing]. }
  intros op3 s3 (Hk3 & _ & _ & _ & -> & Hst3). cbn [fst snd] in *. apply (early_storing "preparing") in E1. revert E1. generalize (storing "preparing" (failing b s1)). intros s3 E3.
  assert (K3 : kept op op3) by (by eapply kept_trans). assert (Hreq : o_Request op3 = o_Request op) by apply K3.
  assert (Hu : Stage op3 ∈ uncertain_stages) by (rewrite Hst3; by repeat constructor).
  unfold call at 1. eapply triple_call; [apply prepare_ok; apply E3|]. intros err s4 (Ht4 & Hi4 & Hr4).
  assert (T4 : v_touched s4 = false) by (rewrite Ht4; apply E3).
  destruct err as [e|]; [apply triple_done; split; [split; [done|]|done]; by left|]. specialize (Hr4 eq_refl).
  assert (Hlift : ∀ x s', outcome op3 s4 x s' ∧ still s4 s' → outcome op s x s' ∧ inside s').
  { intros x s' ((Hk & Ho) & Hs). split; [split; [by eapply kept_trans|done]|apply Hs]. }
  assert (Hrun : Running op3 = true) by apply K3.
  repeat (case_bool_decide as Hkind; [eapply triple_mono; [|exact Hlift]; by first [apply (apply_outcome _ _ (o_Request op))|apply (import_outcome _ _ (o_Request op))|apply (delete_outcome _ _ (o_Request op))|apply (trial_outcome _ _ _ (o_Request op))|apply (restore_outcome _ _ (o_Request op))]|]; clear Hkind).
  apply triple_done. split; [split; [done|]|done]. by left.
Qed.

Lemma work_ok s ticks op : inside s → v_prepared s = false → v_touched s = false → Running op = true →
  T s (work unicode_lower sha256_hex ticks op) (λ x s',
    Running x.1 = true ∧ o_Request x.1 = o_Request op ∧ o_DeviceID x.1 = o_DeviceID op ∧ inside s' ∧
    match x.2 with None => achieved s' x.1 | Some e => settled s' x.1 e end).
Proof.
  intros Hi Hp Ht Hop. unfold work. eapply triple_call; [by apply inspect_ok|]. intros [snap err] s1 (l & a & -> & _). cbn [fst snd].
  assert (Hop1 : Running (with_original snap op) = true ∧ o_Request (with_original snap op) = o_Request op ∧ o_DeviceID (with_original snap op) = o_DeviceID op) by (by destruct op).
  revert Hop1. generalize (with_original snap op). intros op1 (Hr1 & Hq1 & Hd1). set (s1 := reading l a s).
  assert (Hout : ∀ e, Running (op1, Some e : option error).1 = true ∧ o_Request (op1, Some e : option error).1 = o_Request op ∧ o_DeviceID (op1, Some e : option error).1 = o_DeviceID op ∧ inside s1 ∧ settled s1 (op1, Some e : option error).1 e).
  { intros e. split_and!; try done. by left. }
  destruct err as [e|]; [by apply triple_done|]. destruct (negb _); [by apply triple_done|]. destruct (match r_ExpectedOwner (o_Request op1) with Some o => negb (sameOwner o (s_Owner (Original op1))) | None => false end); [by apply triple_done|].
  eapply mbn_ensure_ok; [apply checkpoint_ok; [apply Hi|apply Hi|done]| |].
  2: { intros op' e s' (Hk & _ & _ & _ & -> & _). cbn [fst snd] in *. destruct Hk as (? & -> & _ & ->). split_and!; try done. by left. }
  intros op2 s2 (Hk2 & _ & _ & _ & -> & _). cbn [fst snd] in *.
  eapply triple_mono; [apply mbn_perform_ok; [|apply Hk2]|].
  { split; [apply Hi|]. split_and!; try done. cbn. by rewrite orb_true_r. }
  intros [op3 err] s3 ((Hk3 & Ho3) & Hi3). cbn [fst snd] in *. destruct Hk2 as (_ & E1 & _ & E2), Hk3 as (? & E3 & _ & E4). split_and!; try done; congruence.
Qed.

Definition closing (s : view) : view :=
  mkView (v_open s) true (v_saved s) (v_prepared s) (v_stage s) (v_touched s) (v_failed s) (v_list s) (v_auto s) (v_final s) (v_finished s).

Lemma close_ok s op err : inside s →
  T s (close_session op err) (λ x s', s' = closing s ∧ (x = (op, err) ∨ x.2 ≠ None ∧ x.1 = with_stage "resuming" op)).
Proof.
  intros (H1 & H2 & H3). view_of s. cbn in H1, H2, H3. subst. unfold close_session, ask. cbn [bind]. apply triple_next. intros c. eexists. split; [reflexivity|].
  assert (Hend : ∀ c : option error, T (closing (mkView true false v_s v_p v_st v_t v_fa v_l v_a None v_ov))
    (match c with None => Ret (op, err) | Some e => Ret (with_stage "resuming" op, Mbn.Join err (Some e)) end : task)
    (λ x s', s' = closing (mkView true false v_s v_p v_st v_t v_fa v_l v_a None v_ov) ∧ (x = (op, err) ∨ x.2 ≠ None ∧ x.1 = with_stage "resuming" op))).
  { intros [e|]; apply triple_done; (split; [done|]); [right|by left]. split; [by destruct err|done]. }
  destruct (_ && _); cbn [bind]; [|by apply Hend]. apply triple_next. intros stopped. eexists. split; [reflexivity|].
  destruct (bool_decide _); cbn [bind]; [|by apply Hend]. apply triple_next. intros r. eexists. split; [reflexivity|]. by apply Hend.
Qed.

Lemma final_status_keeps op err : o_Request (final_status op err) = o_Request op ∧ Original (final_status op err) = Original op ∧
  Current (final_status op err) = Current op ∧ Stage (final_status op err) = Stage op ∧ o_DeviceID (final_status op err) = o_DeviceID op ∧ Running (final_status op err) = false.
Proof. destruct op, err as [e|]; cbn; [|by split_and!]. by repeat case_match. Qed.

Lemma final_settled s op e : settled s op e → v_touched s = true →
  Status (final_status op (Some e)) = "failed" ∨ Status (final_status op (Some e)) = "cancelled" →
  Kind (o_Request op) = "trial" ∧ (Stage op = "restored" ∨ v_failed s = true).
Proof.
  intros Hs Ht Hst. unfold final_status in Hst. assert (Hsame : Stage (with_error (Some e) op) = Stage op) by (by destruct op). rewrite Hsame in Hst.
  destruct Hs as [|[Hu|[Ho|Htr]]]; [congruence| | |done].
  - rewrite (bool_decide_true _ Hu), orb_true_r in Hst. destruct op. by destruct Hst.
  - rewrite Ho in Hst. destruct op. by destruct Hst.
Qed.

(** The goroutine ends once. *)
Definition unfinished (s : view) : Prop := v_final s = None → v_finished s = false.
Lemma unfinished_step s x s' : unfinished s → run_step s x = Some s' → unfinished s'.
Proof.
  intros Hs. view_of s. unfold unfinished in *. cbn in Hs. destruct x as [c r]. destruct c; cbn; unfold allow; repeat case_match; try done; intros [= <-]; cbn; try done; auto.
  intros ->. by rewrite bool_decide_false in H by tauto.
Qed.
Lemma unfinished_triple {A} s (p : prog request A) Q : unfinished s → T s p Q → T s p (λ a s', Q a s' ∧ unfinished s').
Proof.
  intros Hu Hp s0 t a <- Hx. destruct (Hp s t a eq_refl Hx) as (s' & Hw & HQ). exists s'. split; [done|]. split; [done|]. clear Hx HQ Hp.
  revert s Hu Hw. induction t as [|x t IH]; intros s Hu; cbn [watch]; [by intros [= <-]|].
  destruct (run_step s x) as [s1|] eqn:E; [|done]. apply IH. by eapply unfinished_step.
Qed.

Lemma session_ok ticks op :
  T before (run_session unicode_lower sha256_hex ticks op) (λ x s', v_final s' = None ∧ v_closed s' = v_open s' ∧ o_Request x.1 = o_Request op ∧
    match x.2 with None => achieved s' x.1 | Some e => settled s' x.1 e end).
Proof.
  assert (Hop : Running (with_status "running" op) = true ∧ o_Request (with_status "running" op) = o_Request op) by (by destruct op).
  unfold run_session. revert Hop. generalize (with_status "running" op). intros op0 (Hr0 & Hq0).
  unfold ensure, call. eapply triple_call; [by apply checkpoint_ok|]. intros [op1 [e|]] s1 (Hk1 & _ & _ & _ & Hs1); cbn [fst snd] in *.
  { destruct Hs1 as [-> _]. apply triple_done. split_and!; try done; [|by left]. destruct Hk1 as (_ & E & _). by rewrite <-Hq0. }
  destruct Hs1 as [-> _]. assert (Hq1 : o_Request op1 = o_Request op) by (destruct Hk1 as (_ & E & _); by rewrite <-Hq0).
  unfold ask. cbn [bind]. apply triple_next. intros [e|]; eexists; (split; [reflexivity|]).
  { apply triple_done. split_and!; try done. by left. }
  rewrite bool_decide_true by done. eapply triple_call; [apply work_ok; try done; apply Hk1|]. intros [op2 err] s2 (Hr2 & Hq2 & _ & Hi2 & Ho2). cbn [fst snd] in *.
  eapply triple_mono; [by apply close_ok|]. intros [op3 err3] s3 (-> & Hx). cbn [fst snd] in *.
  assert (Hq3 : o_Request op3 = o_Request op). { destruct Hx as [[= -> _]|[_ ->]]; [congruence|]. rewrite <-Hq1, <-Hq2. by destruct op2. }
  split_and!; [apply Hi2|symmetry; apply Hi2|exact Hq3|]. cbn [fst snd].
  destruct Hx as [[= -> ->]|[Herr ->]]; [by destruct err|]. destruct err3 as [e|]; [|done]. right; left. cbn. replace (Stage (with_stage "resuming" op2)) with "resuming" by (by destruct op2).
  by repeat constructor.
Qed.

(** C15: Whatever the modem, the store and the card do: the modem is written to only
    while the session is open, the original is in the store, the service is
    stopped, and the store holds a stage that tells of a write, so that a crash is
    found by [Recover]; the session that was opened is closed; the last thing
    stored is a final status.  An operation that is said to have succeeded read
    its result back from the modem after the last write.  One that is said to
    have failed or to be cancelled wrote nothing, or is a trial that restored the
    original or lost the store. *)
Theorem operation_recorded ticks op t op' :
  exec (run unicode_lower sha256_hex ticks op) t op' →
  ∃ s, watch run_step before t = Some s ∧ v_final s = Some op' ∧ v_finished s = true ∧ v_closed s = v_open s ∧ Running op' = false ∧
    o_Request op' = o_Request op ∧
    (Status op' = "succeeded" → achieved s op') ∧
    (v_touched s = true → Status op' = "failed" ∨ Status op' = "cancelled" →
      Kind (o_Request op) = "trial" ∧ (Stage op' = "restored" ∨ v_failed s = true)).
Proof.
  set (post := λ (op' : Operation) s, v_final s = Some op' ∧ v_finished s = true ∧ v_closed s = v_open s ∧ Running op' = false ∧
    o_Request op' = o_Request op ∧ (Status op' = "succeeded" → achieved s op') ∧
    (v_touched s = true → Status op' = "failed" ∨ Status op' = "cancelled" → Kind (o_Request op) = "trial" ∧ (Stage op' = "restored" ∨ v_failed s = true))).
  intros Hx. cut (T before (run unicode_lower sha256_hex ticks op) post). { intros Ht. destruct (Ht before t op' eq_refl Hx) as (s & Hw & Hp). by exists s. }
  clear Hx t op'. unfold run. eapply triple_call; [apply unfinished_triple; [done|apply session_ok]|].
  intros [op1 err] s1 ((Hf1 & Hc1 & Hq1 & Hr1) & Hu1). cbn [fst snd] in *. specialize (Hu1 Hf1).
  pose proof (final_status_keeps op1 err) as (K1 & K2 & K3 & K4 & K5 & K6).
  assert (Hach : Status (final_status op1 err) = "succeeded" → ∀ s, v_list s = v_list s1 → v_auto s = v_auto s1 → achieved s (final_status op1 err)).
  { intros Hst s E1 E2. unfold achieved, seen. rewrite K1, K2, K3, E1, E2. destruct err as [e|]; [|exact Hr1].
    exfalso. revert Hst. unfold final_status. destruct op1. cbn. by repeat case_match. }
  assert (Hset : v_touched s1 = true → Status (final_status op1 err) = "failed" ∨ Status (final_status op1 err) = "cancelled" →
    Kind (o_Request op) = "trial" ∧ (Stage (final_status op1 err) = "restored" ∨ v_failed s1 = true)).
  { intros Ht Hst. rewrite <-Hq1, K4. destruct err as [e|]; [by apply (final_settled _ _ e)|]. destruct op1. by destruct Hst. }
  revert K1 K5 K6 Hach Hset. generalize (final_status op1 err). intros op2 K1 K5 K6 Hach Hset.
  unfold ask. cbn [bind]. apply triple_next. intros r. view_of s1. cbn in *. subst. rewrite K6, eqb_reflx. eexists. split; [reflexivity|].
  apply triple_next. intros r'. eexists. split; [reflexivity|]. apply triple_done. unfold post. cbn. split_and!; try done; [congruence|].
  intros Hst. by apply Hach.
Qed.
End Run.

(** ** A modem with two profiles *)

(** The profile that is selected, the store, the clock, and how many requests to
    the store are answered before the service is stopped. *)
Record modem := mkModem { m_profile : string; m_auto : bool; m_stored : Operation; m_clock : Z; m_left : nat }.

Definition demo_owner : Owner := mkOwner "usb1" "860000000000001" "89860000000000000001" "EC25" "R06" 1 1.
Definition bit (b : bool) : string := if b then "1" else "0".
Definition list_line (index name : string) (on : bool) : string :=
  ("+QMBNCFG: " ++ quoted_text "List" ++ "," ++ index ++ "," ++ bit on ++ "," ++ bit on ++ "," ++ quoted_text name)%string.
Definition modem_answer (m : modem) (command : string) : string :=
  if bool_decide (command = query_capabilities) then "+QMBNCFG: (List,Select,AutoSel,Add,Delete)"
  else if bool_decide (command = query_list) then (list_line "0" "A" (bool_decide (m_profile m = "A")) ++ String LF (list_line "1" "B" (bool_decide (m_profile m = "B"))))%string
  else if bool_decide (command = query_autosel) then ("+QMBNCFG: " ++ quoted_text "AutoSel" ++ "," ++ bit (m_auto m))%string
  else "".
Definition after_command (m : modem) (command : string) : modem :=
  let '(mkModem p a st c l) := m in
  if bool_decide (command = autosel_command true) then mkModem p true st c l
  else if bool_decide (command = autosel_command false) then mkModem p false st c l
  else if bool_decide (command = (qmbncfg "Select" ++ "," ++ quoted_text "A")%string) then mkModem "A" a st c l
  else if bool_decide (command = (qmbncfg "Select" ++ "," ++ quoted_text "B")%string) then mkModem "B" a st c l
  else m.

Definition stopped (m : modem) : option error := match m_left m with O => Some [Canceled] | _ => None end.
Definition used (m : modem) : modem := let '(mkModem p a st c l) := m in mkModem p a st c (pred l).
Definition kept_in_store (op : Operation) (m : modem) : modem := let '(mkModem p a _ c l) := m in mkModem p a op c l.

Definition simulate (m : modem) (c : request) : answer c * modem :=
  match c return answer c * modem with
  | LoadOperation _ => (match stopped m with None => inl (m_stored m) | Some e => inr e end, used m)
  | SaveOperation op detached => (if detached then None else stopped m, if detached then kept_in_store op m else match stopped m with None => kept_in_store op (used m) | Some _ => m end)
  | LoadOperations _ => (inl [m_stored m], m)
  | FindRequest _ _ => (inr [NotFound], m)
  | LoadPolicies => (inl [], m) | LoadAssets => (inl [], m) | ReadFile _ => (inr New, m)
  | Identity _ => (inl demo_owner, m) | SessionOwner => (demo_owner, m)
  | Execute command _ => ((modem_answer m command, None), after_command m command)
  | GetRegistration => (inl (mkRegistration true true false "23415"), m)
  | CtxErr => (stopped m, m)
  | ObserveDone => (false, m)
  | Now => (m_clock m, let '(mkModem p a st c l) := m in mkModem p a st (c + 20 * Second) l)
  | NewID => ("id", m)
  | KeepChoice _ => (tt, m) | Finish _ => (tt, m)
  | AskBusy _ => (false, m) | AskPolicy _ => (inr New, m) | AskStart _ => (inr New, m)
  | StorePolicy _ | SaveAsset _ | RemoveAsset _ | PutFile _ _ | DeleteFile _ | Open _ _ | Prepare _ | Upload _ _ | Reboot _ | Probe _ | Close | Resume | ObserveErr => (None, m)
  end.

Definition demo_request (kind : string) : Request :=
  mkRequest None "r1" kind "B" "" false "" "" false false "" ["B"] "registration" "" false false "" 0 0 0 "".
Definition demo_operation (kind : string) : Operation := queued "id" demo_owner (mkStart "usb1" (demo_request kind) false) [].
Definition demo_modem (kind : string) (left : nat) : modem := mkModem "A" false (demo_operation kind) 0 left.
Definition digest (_ : bytes) : string := "".
Definition demo_run (kind : string) (left : nat) := run_on simulate (run id digest 5 (demo_operation kind)) (demo_modem kind left).

(** An application that succeeds, with a service that goes on. *)
Lemma operation_recorded_witness :
  let r := demo_run "apply" 100 in
  Status r.1.2 = "succeeded" ∧ m_profile r.2 = "B" ∧
  ∃ s, watch (run_step id) before r.1.1 = Some s ∧ v_touched s = true ∧ achieved s r.1.2 ∧ v_closed s = true.
Proof.
  intros r. assert (Hst : Status r.1.2 = "succeeded") by (vm_compute; reflexivity).
  split; [exact Hst|]. split; [vm_compute; reflexivity|].
  destruct (operation_recorded id digest 5 (demo_operation "apply") r.1.1 r.1.2 (run_exec simulate _ (demo_modem "apply" 100))) as (s & Hw & _ & _ & _ & _ & _ & Ha & _).
  exists s. split; [exact Hw|]. assert (Hs : watch (run_step id) before r.1.1 = Some s → v_touched s = true ∧ v_closed s = true) by (vm_compute; intros [= <-]; by split).
  destruct (Hs Hw) as [H1 H2]. split; [exact H1|]. split; [exact (Ha Hst)|exact H2].
Defined.

(** A trial whose service is stopped while the network is observed: it is said to
    be cancelled, the candidate stays in the modem, and no operation counts as
    unresolved, so that a policy may write again. *)
Lemma stopped_trial_unnoticed :
  let r := demo_run "trial" 20 in
  Status r.1.2 = "cancelled" ∧ Stage r.1.2 = "observing_registration" ∧ m_profile (demo_modem "trial" 20) = "A" ∧ m_profile r.2 = "B" ∧
  pending_loop (resolvedPolicyRecovery [r.1.2] demo_owner) demo_owner [r.1.2] [] = inl [].
Proof. by vm_compute. Qed.
