(* ===== verification/MbnServiceProofs.v ===== *)
(** * Properties of the service of carrier profiles

    Which operations are started, one per modem, and what an automatic one waits
    for; the durations; and the list of profiles as the modem prints it. *)

From Stdlib Require Import Ascii String.
From S2P Require Import Prelude GoText SmsCodec SmsCodecProofs Lines SimIdentity AtParse Interaction Mbn MbnProofs.
From S2P Require ModemVoice ModemVoiceProofs AtParseProofs.
From stdpp Require Import strings pretty.

#[local] Open Scope string_scope.
#[local] Open Scope Z_scope.

Section Service.
Context (unicode_lower : string → string) (sha256_hex : bytes → string) (url_Parse : string → option URL).

Notation start := (start url_Parse).

(** ** What holds back an automatic change *)

(** An operation on this card whose outcome is known: it has ended, and when it
    needs attention one that was verified later says so. *)
Definition resolved_in (operations : list Operation) (owner : Owner) (o : Operation) : Prop :=
  Running o = false ∧
  (Status o = "needs_attention" → ∃ o', o' ∈ operations ∧ samePolicyRecoveryOwner (ExpectedOwner o') owner = true ∧ verifiedRecovery o' owner = true ∧ ID o ∈ RecoveryOf o').

Lemma resolved_elem operations owner id : id ∈ resolvedPolicyRecovery operations owner →
  ∃ o, o ∈ operations ∧ samePolicyRecoveryOwner (ExpectedOwner o) owner = true ∧ verifiedRecovery o owner = true ∧ id ∈ RecoveryOf o.
Proof.
  unfold resolvedPolicyRecovery. rewrite list_elem_of_bind. intros (o & Hid & Ho). exists o.
  apply list_elem_of_In, filter_In in Ho as [Ho Hb]. apply andb_true_iff in Hb as [H1 H2]. split; [by apply list_elem_of_In|done].
Qed.

Lemma pending_none resolved owner operations : ∀ pending, pending_loop resolved owner operations pending = inl [] →
  pending = [] ∧ ∀ o, o ∈ operations → samePolicyRecoveryOwner (ExpectedOwner o) owner = true →
    Running o = false ∧ (Status o = "needs_attention" → ID o ∈ resolved).
Proof.
  induction operations as [|o operations IH]; intros pending; cbn [pending_loop]; [intros [= ->]; split; [done|]; intros o Ho; by apply elem_of_nil in Ho|].
  destruct (samePolicyRecoveryOwner (ExpectedOwner o) owner) eqn:Hs; cbn [negb].
  2: { intros [-> Hall]%IH. split; [done|]. intros o' [->|Ho]%elem_of_cons; [by rewrite Hs|by apply Hall]. }
  destruct (Running o) eqn:Hrun; [done|]. intros [Hp Hall]%IH.
  destruct (bool_decide (Status o = "needs_attention") && negb (bool_decide (ID o ∈ resolved))) eqn:Hb; [by destruct pending|].
  split; [done|]. intros o' [->|Ho]%elem_of_cons; [|by apply Hall]. intros _. split; [done|]. intros Hst.
  rewrite (bool_decide_true _ Hst) in Hb. cbn in Hb. apply negb_false_iff, bool_decide_eq_true in Hb. done.
Qed.

(** What is known of a new operation: the requests that came before it. *)
Definition admitted (input : operationStart) (op : Operation) (t : list (@exchange request mbn_answer)) : Prop :=
  let r := start_request input in let owner := ExpectedOwner op in
  validateRequest url_Parse r = true ∧
  op = queued (ID op) owner input (RecoveryOf op) ∧
  (∀ expected, r_ExpectedOwner r = Some expected → sameGeneration expected owner = true) ∧
  mkExchange (Identity (deviceID input)) (inl owner) ∈ t ∧
  List.last t (mkExchange Now 0) = mkExchange (SaveOperation op false) None ∧
  (policy input = true → ∃ operations, mkExchange (LoadOperations "") (inl operations) ∈ t ∧
    ∀ o, o ∈ operations → samePolicyRecoveryOwner (ExpectedOwner o) owner = true → resolved_in operations owner o).

Definition replayed (input : operationStart) (op : Operation) (t : list (@exchange request mbn_answer)) : Prop :=
  mkExchange (FindRequest (deviceID input) (RequestID (start_request input))) (inl op) ∈ t ∧ o_Request op = start_request input.

Lemma recovery_exec owner input t p : exec (recoveryForStart owner input) t (inl p) → policy input = true →
  p = [] ∧ ∃ operations, mkExchange (LoadOperations "") (inl operations) ∈ t ∧
    ∀ o, o ∈ operations → samePolicyRecoveryOwner (ExpectedOwner o) owner = true → resolved_in operations owner o.
Proof.
  intros Hx Hp. unfold recoveryForStart in Hx. rewrite Hp in Hx. cbn [negb andb] in Hx.
  apply exec_bind in Hx as (t1 & t2 & q & -> & H1 & H2). unfold pendingPolicyRecovery, ask in H1. cbn [bind exec] in H1. destruct H1 as (ops & t1' & -> & H1).
  destruct ops as [ops|e]; destruct H1 as [-> ->]; [|by destruct H2 as [_ [=]]].
  destruct (pending_loop _ _ _ _) as [pending|e] eqn:Hl; [|by destruct H2 as [_ [=]]].
  destruct (bool_decide (pending ≠ [])) eqn:Hb; destruct H2 as [-> Hq]; [done|]. injection Hq as ->. apply bool_decide_eq_false in Hb.
  assert (pending = []) as -> by (by destruct pending; [|exfalso; apply Hb]). split; [done|]. exists ops. split; [by left|].
  apply pending_none in Hl as [_ Hl]. intros o Ho Hs. destruct (Hl o Ho Hs) as [Hr Hn]. split; [done|]. intros Hst.
  by apply resolved_elem, Hn.
Qed.

Lemma start_exec s input t s' r : exec (start s input) t (s', r) →
  match r with
  | inl (op, true) => Busy s (deviceID input) = false ∧ s' = set_active (<[deviceID input := ID op]> (active s)) s ∧ admitted input op t
  | inl (op, false) => s' = s ∧ replayed input op t
  | inr _ => s' = s
  end.
Proof.
  unfold Mbn.start. destruct (negb (validateRequest _ _)) eqn:Hv; [by intros [_ [= -> ->]]|]. apply negb_false_iff in Hv.
  intros (t1 & t2 & p & -> & H1 & H2)%exec_bind. unfold replayOperation, ask in H1. cbn [bind exec] in H1. destruct H1 as (f & t1' & -> & H1).
  destruct f as [previous|e]; destruct H1 as [-> ->].
  { destruct (bool_decide _) eqn:Hreq; destruct H2 as [-> [= -> ->]]; [|done]. apply bool_decide_eq_true in Hreq. split; [done|]. split; [by left|done]. }
  destruct (Is e NotFound); [|by destruct H2 as [_ [= -> ->]]].
  destruct (Busy s (deviceID input)) eqn:Hb; [by destruct H2 as [_ [= -> ->]]|].
  unfold ask in H2. cbn [bind exec] in H2. destruct H2 as ([owner|e'] & t3 & -> & H2); [|by destruct H2 as [_ [= -> ->]]].
  destruct (match r_ExpectedOwner _ with Some expected => negb (sameGeneration expected owner) | None => false end) eqn:Ho; [by destruct H2 as [_ [= -> ->]]|].
  cbn [exec] in H2. destruct H2 as (id & t4 & -> & (t5 & t6 & [p|e'] & -> & H3 & H4)%exec_bind); [|by destruct H4 as [_ [= -> ->]]].
  cbn [exec] in H4. destruct H4 as (err & t7 & -> & H4). destruct err as [e'|]; destruct H4 as [-> [= -> ->]]; [done|].
  split; [done|]. split; [done|]. unfold admitted. cbn [ID ExpectedOwner RecoveryOf queued].
  split_and!; [done|done| | |cbn [app]; by rewrite !app_comm_cons, List.last_last|].
  - intros expected E. rewrite E in Ho. by apply negb_false_iff.
  - right. by left.
  - intros Hp. destruct (recovery_exec owner input t5 p H3 Hp) as (_ & ops & Hin & Hall). exists ops. split; [|done].
    do 3 right. apply elem_of_app. by left.
Qed.

(** ** The service over time *)

(** The operations whose goroutine runs.  [NewID] gives 32 digits. *)
Inductive service_step : Service * list Operation → Service * list Operation → Prop :=
  | started s runs input t s' op :
      exec (start s input) t (s', inl (op, true)) → ID op ≠ "" → service_step (s, runs) (s', op :: runs)
  | ended s runs1 op runs2 : service_step (s, (runs1 ++ op :: runs2)%list) (finished (o_DeviceID op) s, runs1 ++ runs2)%list
  | answered_only s runs input t s' r :
      exec (start s input) t (s', r) → (∀ op, r ≠ inl (op, true)) → service_step (s, runs) (s', runs)
  | policy_saved s runs p t s' err : exec (SavePolicy s p) t (s', err) → service_step (s, runs) (s', runs)
  | policy_read s runs owner t s' r : exec (EffectivePolicy s owner) t (s', r) → service_step (s, runs) (s', runs)
  | choice_kept s runs owner p : service_step (s, runs) (keep_choice owner p s, runs).

Inductive reached : Service * list Operation → Prop :=
  | at_start session : reached (mkService ∅ ∅ session, [])
  | then_step x y : reached x → service_step x y → reached y.

Lemma policy_sections_active s p t s' err : exec (SavePolicy s p) t (s', err) → active s' = active s.
Proof.
  unfold SavePolicy. destruct (normal_policy p) as [p'|]; [|by intros [_ [= -> ->]]].
  intros (t1 & t2 & [e|] & -> & _ & H2)%exec_bind; [by destruct H2 as [_ [= -> ->]]|].
  unfold ask in H2. cbn [bind exec] in H2. destruct H2 as ([e|] & t3 & -> & _ & [= -> ->]); done.
Qed.

Lemma effective_active s owner t s' r : exec (EffectivePolicy s owner) t (s', r) → active s' = active s.
Proof.
  unfold EffectivePolicy. cbv zeta. destruct (match overrides s !! choice_key owner with Some o => _ | None => None end) as [o|]; [by intros [_ [= -> ->]]|].
  unfold ask. cbn [bind exec]. by intros (x & t3 & -> & _ & [= -> ->]).
Qed.

(** The devices that are busy are those of the operations that run, one each. *)
Definition exclusive (x : Service * list Operation) : Prop :=
  NoDup (o_DeviceID <$> x.2) ∧ ∀ d, Busy x.1 d = true ↔ d ∈ o_DeviceID <$> x.2.

Lemma exclusive_step x y : exclusive x → service_step x y → exclusive y.
Proof.
  intros [Hn Hb] Hs. destruct Hs as [s runs input t s' op Hx Hid|s runs1 op runs2|s runs input t s' r Hx Hr|s runs p t s' err Hx|s runs owner t s' r Hx|s runs owner p]; unfold exclusive; cbn [fst snd] in *.
  - apply start_exec in Hx as (Hbusy & -> & Hadm). destruct Hadm as (_ & -> & _). cbn [ID o_DeviceID queued] in *. split.
    + rewrite fmap_cons. apply NoDup_cons. split; [|done]. intros Hin. apply Hb in Hin. cbn in Hin. congruence.
    + intros d. rewrite fmap_cons, elem_of_cons. cbn [o_DeviceID queued]. unfold Busy, set_active. cbn [active]. destruct (decide (d = deviceID input)) as [->|Hd].
      * rewrite lookup_insert_eq. cbn. rewrite bool_decide_true by done. by split; [left|].
      * rewrite lookup_insert_ne by done. specialize (Hb d). unfold Busy in Hb. rewrite Hb. split; [by right|by intros [?|?]].
  - rewrite fmap_app, fmap_cons in *. apply NoDup_app in Hn as (N1 & N2 & N3). apply NoDup_cons in N3 as [N3 N4]. split.
    + rewrite ?fmap_app. apply NoDup_app. split_and!; [done| |done]. intros d Hd Hd'. apply (N2 d Hd). by right.
    + intros d. rewrite ?fmap_app, elem_of_app. specialize (Hb d). rewrite elem_of_app, elem_of_cons in Hb. unfold Busy, finished, set_active in *. cbn [active]. destruct (decide (d = o_DeviceID op)) as [->|Hd].
      * rewrite lookup_delete_eq. cbn. split; [done|]. intros [H1|H1]; [|done]. exfalso. apply (N2 _ H1). by left.
      * rewrite lookup_delete_ne by done. rewrite Hb. split; [intros [?|[?|?]]; [by left|done|by right]|intros [?|?]; [by left|by right; right]].
  - apply start_exec in Hx. destruct r as [[op []]|e]; [by destruct (Hr op)|destruct Hx as [-> _]; by split|subst s'; by split].
  - apply policy_sections_active in Hx. split; [done|]. intros d. rewrite <-(Hb d). unfold Busy. by rewrite Hx.
  - apply effective_active in Hx. split; [done|]. intros d. rewrite <-(Hb d). unfold Busy. by rewrite Hx.
  - split; [done|]. intros d. by rewrite <-(Hb d).
Qed.

(** C28: However the sections of the service interleave: at any time at most one
    operation runs for a modem, and the modem counts as busy exactly then.  A new
    one is stored before it runs, for the card that is in the modem and that the
    request expects; one that a policy asks for is started only when every
    earlier operation on that modem and card has ended, and each that needs
    attention was resolved by a later one that was verified. *)
Theorem one_operation_per_modem s runs input t s' op :
  reached (s, runs) → exec (start s input) t (s', inl (op, true)) →
  NoDup (o_DeviceID <$> runs) ∧ (∀ d, Busy s d = true ↔ d ∈ o_DeviceID <$> runs) ∧
  o_DeviceID op ∉ o_DeviceID <$> runs ∧ o_DeviceID op = deviceID input ∧ admitted input op t.
Proof.
  intros Hreach Hx. assert (He : exclusive (s, runs)).
  { remember (s, runs) as x eqn:E. clear E Hx. induction Hreach as [session|x y Hr IH Hs]; [|by eapply exclusive_step].
    split; [constructor|]. intros d. cbn. unfold Busy. cbn. rewrite lookup_empty. split; [done|by intros ?%elem_of_nil]. }
  destruct He as [Hn Hb]. apply start_exec in Hx as (Hbusy & _ & Ha). split; [done|]. split; [done|].
  assert (Hd : o_DeviceID op = deviceID input) by (destruct Ha as (_ & -> & _); done).
  split_and!; [|done|done]. rewrite Hd. intros Hin. apply Hb in Hin. cbn in Hin. congruence.
Qed.

(** ** Durations *)

Lemma duration_bounds seconds d : seconds_ok seconds = true → 0 <= d <= DefaultRecovery →
  0 <= duration seconds d <= (2 ^ 63 - 1) `div` 2 ∧ (seconds ≠ 0 → duration seconds d = seconds * Second).
Proof.
  unfold seconds_ok. rewrite andb_true_iff, !bool_decide_eq_true. intros [H1 H2] Hd. unfold duration.
  assert (Hs : seconds * Second <= (2 ^ 63 - 1) `div` 2) by (unfold Second in *; Z.to_euclidean_division_equations; lia).
  case_bool_decide as Hz; [subst; split; [unfold DefaultRecovery, Second in Hd; Z.to_euclidean_division_equations; lia|done]|].
  assert (i64 (seconds * Second) = seconds * Second) as ->; [|split; [unfold Second in *; lia|done]].
  apply signed_id; unfold Second in *; Z.to_euclidean_division_equations; lia.
Qed.

(** The durations of a request that is accepted are those that it asks for, in
    nanoseconds, and the deadline of an observation, their sum, does not wrap
    around. *)
Theorem durations_fit r : validateRequest url_Parse r = true →
  let wait := duration (RegistrationSeconds r) DefaultRegistration in
  let stable := duration (StabilitySeconds r) DefaultStability in
  0 <= wait ∧ 0 <= stable ∧ i64 (wait + stable) = wait + stable ∧
  (RegistrationSeconds r ≠ 0 → wait = RegistrationSeconds r * Second) ∧ (StabilitySeconds r ≠ 0 → stable = StabilitySeconds r * Second).
Proof.
  unfold validateRequest. cbv zeta. rewrite !andb_true_iff. intros ((((_ & _) & H1) & H2) & _).
  destruct (duration_bounds _ DefaultRegistration H1) as [Hw Hw']; [by vm_compute|].
  destruct (duration_bounds _ DefaultStability H2) as [Hs Hs']; [by vm_compute|].
  split_and!; [lia|lia| |done|done]. apply signed_id; [lia|]. Z.to_euclidean_division_equations. lia.
Qed.

(** ** The list of profiles *)

Lemma split_join lines : lines ≠ [] → Forall (free_of LF) lines → split_char LF (String.concat (String LF "") lines) = lines.
Proof.
  intros Hne Hf. destruct lines as [|l lines]; [done|]. clear Hne. revert l Hf. induction lines as [|k lines IH]; intros l [Hl Hf]%Forall_cons.
  - cbn. rewrite <-(append_nil l) at 1. by apply AtParseProofs.split_char_last.
  - change (String.concat (String LF "") (l :: k :: lines)) with (l +:+ String LF (String.concat (String LF "") (k :: lines)))%string.
    rewrite split_char_app by done. by rewrite (IH k Hf).
Qed.

(** A line that the modem prints of a profile, with the digits of its index. *)
Definition list_text (index : string) (p : Profile) : string :=
  ("+QMBNCFG: " ++ quoted_text "List" ++ "," ++ index ++ "," ++ bit (Selected p) ++ "," ++ bit (Activated p) ++ "," ++
   quoted_text (Name p) ++ "," ++ quoted_text (Version p) ++ "," ++ quoted_text (Date p))%string.

Definition unmarked (s : string) : Prop := Forall (λ c, free_of c s) [quote; LF].

Definition printable (index : string) (p : Profile) : Prop :=
  decimal_text index (Index p) ∧ ValidateName (Name p) = true ∧ unmarked (Version p) ∧ unmarked (Date p) ∧ Origin p = "unknown" ∧
  is_ascii (list_text index p) = true.

(** The records among other lines, none of which refuses the command. *)
Inductive listing : list string → list Profile → Prop :=
  | no_lines : listing [] []
  | other_line l lines ps : answer_line unicode_lower l = false → rejected l = false → free_of LF l → listing lines ps → listing (l :: lines) ps
  | profile_line index p lines ps : printable index p → listing lines ps → listing (list_text index p :: lines) (p :: ps).

Lemma quoted_then f rest : (quoted_text f +:+ "," +:+ rest)%string = String quote (f +:+ String quote (String "," rest)).
Proof. unfold quoted_text. rewrite append_cons, <-append_assoc, append_cons. done. Qed.

Lemma quoted_end f : free_of quote f → ModemVoice.quoted (f +:+ String quote "") = Some (f, None).
Proof.
  induction f as [|a f IH]; [done|]. intros [Hq Hq']%Forall_cons. rewrite append_cons. cbn [ModemVoice.quoted]. by rewrite ascii_eqb_neq, IH by done.
Qed.

Lemma csv_quoted_end fuel f : free_of quote f → ModemVoice.csv_fields (S fuel) (quoted_text f) = Some [f].
Proof.
  intros Hf. cbn [ModemVoice.csv_fields]. unfold quoted_text. rewrite TrimLeft_visible by done. change (Ascii.eqb quote ModemVoice.quote) with true. by rewrite quoted_end.
Qed.

Lemma bit_text b : decimal_text (bit b) (if b then 1 else 0).
Proof. destruct b; repeat split; by repeat constructor. Qed.
Lemma bit_read b : parseBit (bit b) = Some b.
Proof. by destruct b. Qed.

Lemma name_unmarked name : ValidateName name = true → unmarked name.
Proof.
  unfold ValidateName. rewrite andb_true_iff, negb_true_iff, orb_false_iff. intros [[_ Hc] _].
  assert (Hall : ∀ c, c ∈ name_delimiters → free_of c name).
  { intros c Hin. apply Forall_forall. intros a Ha ->. rewrite <-not_true_iff_false in Hc. apply Hc. unfold contains_any. apply existsb_exists. exists c.
    split; [by apply list_elem_of_In|]. apply existsb_exists. exists c. split; [by apply list_elem_of_In|apply Ascii.eqb_refl]. }
  repeat constructor; apply Hall; by repeat constructor.
Qed.

Definition listed (index : string) (p : Profile) : list string := ["List"; index; bit (Selected p); bit (Activated p); Name p; Version p; Date p].

Lemma list_csv index p : printable index p →
  ModemVoice.csv_read (quoted_text "List" +:+ "," +:+ index +:+ "," +:+ bit (Selected p) +:+ "," +:+ bit (Activated p) +:+ "," +:+
   quoted_text (Name p) +:+ "," +:+ quoted_text (Version p) +:+ "," +:+ quoted_text (Date p)) = Some (listed index p).
Proof.
  intros (Hi & Hn%name_unmarked & Hv & Hd & _). apply Forall_cons in Hn as [Hn _], Hv as [Hv _], Hd as [Hd _].
  unfold ModemVoice.csv_read. rewrite !quoted_then, bool_decide_false by done.
  repeat match goal with |- context [("," +:+ ?r)%string] => change ("," +:+ r)%string with (String "," r) end.
  set (line := String quote _). assert (Hlen : (7 <= S (String.length line))%nat).
  { subst line. unfold quoted_text. repeat (rewrite ?ModemVoiceProofs.slen_app; cbn [String.length]). lia. }
  destruct (String.length line) as [|[|[|[|[|[|k]]]]]]; try lia. subst line.
  rewrite ModemVoiceProofs.csv_quoted by by repeat constructor. rewrite (ModemVoiceProofs.csv_digits _ _ _ _ Hi).
  rewrite (ModemVoiceProofs.csv_digits _ _ _ _ (bit_text _)), (ModemVoiceProofs.csv_digits _ _ _ _ (bit_text _)).
  rewrite !ModemVoiceProofs.csv_quoted by done. by rewrite csv_quoted_end.
Qed.

Definition csv_part (index : string) (p : Profile) : string :=
  (quoted_text "List" +:+ "," +:+ index +:+ "," +:+ bit (Selected p) +:+ "," +:+ bit (Activated p) +:+ "," +:+
   quoted_text (Name p) +:+ "," +:+ quoted_text (Version p) +:+ "," +:+ quoted_text (Date p)).

Lemma quoted_visible s : ends_visible (quoted_text s).
Proof. unfold quoted_text. apply ends_visible_cons, ends_visible_app. by exists quote, "". Qed.

Lemma csv_part_ends index p : ends_visible (csv_part index p).
Proof. unfold csv_part. repeat first [apply quoted_visible|apply ends_visible_app]. Qed.

Lemma list_text_trimmed index p : TrimSpace (list_text index p) = list_text index p.
Proof. apply TrimSpace_ends; [done|]. do 10 apply ends_visible_cons. exact (csv_part_ends index p). Qed.

Lemma list_fields index p : printable index p → responseFields (list_text index p) = Some (listed index p).
Proof.
  intros Hp. unfold responseFields. rewrite list_text_trimmed. change (list_text index p) with ("+QMBNCFG" +:+ String ":" (String " " (csv_part index p)))%string.
  cbn [cut_char]. change (cut_char ":" ("+QMBNCFG" +:+ String ":" (String " " (csv_part index p)))) with (Some ("+QMBNCFG"%string, String " " (csv_part index p))).
  cbv beta iota. assert (TrimSpace (String " " (csv_part index p)) = csv_part index p) as ->; [|by apply list_csv].
  apply TrimSpace_one; [done|]. exact (csv_part_ends index p).
Qed.

Lemma unmarked_app s t : unmarked s → unmarked t → unmarked (s +:+ t).
Proof. unfold unmarked. rewrite !Forall_forall. intros Hs Ht c Hc. apply free_of_app; auto. Qed.

Lemma LF_app s t : free_of LF s → free_of LF t → free_of LF (s +:+ t).
Proof. apply free_of_app. Qed.

Lemma list_text_free index p : printable index p → free_of LF (list_text index p).
Proof.
  intros (Hi & Hn%name_unmarked & Hv & Hd & _). apply (Forall_cons_1 _ _ _) in Hn as [_ [Hn _]%Forall_cons], Hv as [_ [Hv _]%Forall_cons], Hd as [_ [Hd _]%Forall_cons].
  assert (Hi' : free_of LF index) by (by eapply digits_free). assert (Hb : ∀ b, free_of LF (bit b)) by (intros []; by repeat constructor).
  assert (Hq : ∀ s, free_of LF s → free_of LF (quoted_text s)). { intros s Hs. unfold quoted_text. constructor; [done|]. apply LF_app; [done|by repeat constructor]. }
  unfold list_text. repeat first [assumption|apply Hb|apply LF_app|apply Hq]; by repeat constructor.
Qed.

Lemma list_text_answers index p : printable index p → answer_line unicode_lower (list_text index p) = true ∧ rejected (list_text index p) = false.
Proof.
  intros (_ & _ & _ & _ & _ & Ha). unfold answer_line, rejected, ToLower. rewrite list_text_trimmed, Ha. split; reflexivity.
Qed.

Lemma list_record index p : printable index p → list_profile (listed index p) = Some p.
Proof.
  intros (Hi & Hn & _ & _ & Ho & _). unfold list_profile, part, listed. cbn [List.length nth]. rewrite bool_decide_false by lia.
  assert (Atoi index = Some (Index p)) as ->.
  { rewrite <-(Atoi_decimal index (Index p) Hi), TrimSpace_visible; [done|]. destruct Hi as (_ & Hd & _). eapply Forall_impl; [exact Hd|apply digit_visible]. }
  cbn [mbind option_bind]. assert (0 <= Index p) by (destruct Hi as (_ & _ & Hd & _); by eapply decimal_nonneg).
  rewrite bool_decide_false, !bit_read by lia. cbn [mbind option_bind]. rewrite Hn. destruct p. cbn in *. by subst.
Qed.

Lemma listing_read lines ps : listing lines ps →
  Forall (free_of LF) lines ∧ existsb rejected lines = false ∧ list_profiles (List.filter (answer_line unicode_lower) lines) = Some ps.
Proof.
  induction 1 as [|l lines ps Ha Hr Hf _ (IH1 & IH2 & IH3)|index p lines ps Hp _ (IH1 & IH2 & IH3)]; [by repeat split| |].
  - split_and!; [by constructor|cbn; by rewrite Hr|]. cbn [List.filter]. by rewrite Ha.
  - destruct (list_text_answers index p Hp) as [Ha Hr]. split_and!; [constructor; [by apply list_text_free|done]|cbn [existsb]; by rewrite Hr|].
    cbn [List.filter]. rewrite Ha. cbn [list_profiles]. rewrite (list_fields index p Hp). cbn [mbind option_bind].
    change (bool_decide (listed index p = []) || negb (EqualFold (part (listed index p) 0) "list")) with false. cbv iota.
    by rewrite (list_record index p Hp), IH3.
Qed.

(** The list of profiles that the modem prints is read back, in its order and
    among any other lines that do not refuse the command; a list without a
    profile is refused. *)
Theorem profiles_read lines ps : listing lines ps →
  ParseList unicode_lower (String.concat (String LF "") lines) = if bool_decide (ps = []) then None else Some ps.
Proof.
  intros Hl. destruct (listing_read lines ps Hl) as (Hf & Hr & Hp). unfold ParseList, CheckResponse, answer_lines.
  destruct (decide (lines = [])) as [->|Hne].
  { inversion Hl. by vm_compute. }
  change (ascii_of_nat 10) with LF. rewrite (split_join lines Hne Hf), Hr, Hp. cbn [mbind option_bind]. destruct ps; [done|].
  cbn [List.length]. by rewrite !bool_decide_false.
Qed.
End Service.

(** A policy changes a modem whose earlier operation has succeeded. *)
Definition policy_modem : modem := mkModem "A" false (with_status "succeeded" (demo_operation "apply")) 0 10.
Definition policy_input : operationStart := mkStart "usb1" (demo_request "apply") true.
Definition policy_started := run_on simulate (start (λ _, None) (mkService ∅ ∅ "p") policy_input) policy_modem.

Lemma one_operation_per_modem_witness :
  ∃ op, policy_started.1.2.2 = inl (op, true) ∧ o_DeviceID op = "usb1" ∧ admitted (λ _, None) policy_input op policy_started.1.1.
Proof.
  assert (Hr : ∃ op, policy_started.1.2.2 = inl (op, true)) by (eexists; vm_compute; reflexivity). destruct Hr as [op Hop]. exists op. split; [exact Hop|].
  assert (Hx : exec (start (λ _, None) (mkService ∅ ∅ "p") policy_input) policy_started.1.1 (policy_started.1.2.1, inl (op, true))).
  { rewrite <-Hop, <-surjective_pairing. exact (run_exec simulate _ policy_modem). }
  destruct (one_operation_per_modem (λ _, None) (mkService ∅ ∅ "p") [] policy_input policy_started.1.1 policy_started.1.2.1 op (at_start _ "p") Hx) as (_ & _ & _ & Hd & Ha).
  split; [exact Hd|exact Ha].
Defined.

Lemma durations_fit_witness :
  let r := demo_request "apply" in validateRequest (λ _, None) r = true ∧ i64 (duration (RegistrationSeconds r) DefaultRegistration + duration (StabilitySeconds r) DefaultStability) = 150 * Second.
Proof.
  intros r. assert (Hv : validateRequest (λ _, None) r = true) by (vm_compute; reflexivity). split; [exact Hv|].
  destruct (durations_fit (λ _, None) r Hv) as (_ & _ & E & _). exact E.
Defined.

Lemma profiles_read_witness :
  ParseList id ("AT+QMBNCFG=" ++ quoted_text "List" ++ String LF (list_text "0" (mkProfile 0 true true "ROW_Generic" "0501" "2020" "unknown"))) =
    Some [mkProfile 0 true true "ROW_Generic" "0501" "2020" "unknown"].
Proof.
  refine (profiles_read id ["AT+QMBNCFG=" ++ quoted_text "List"; list_text "0" (mkProfile 0 true true "ROW_Generic" "0501" "2020" "unknown")] [mkProfile 0 true true "ROW_Generic" "0501" "2020" "unknown"] _).
  apply other_line; [reflexivity|reflexivity|repeat constructor; discriminate|]. apply profile_line; [|apply no_lines].
  repeat split; try reflexivity; try discriminate; repeat constructor; discriminate.
Defined.
