(* ===== verification/Provision.v ===== *)
(** * Provisioning a modem for voice over LTE (internal/volte)

    The answers of a modem about its IMS, USB and carrier profile settings
    (at.go), the retries of a command (at_exec.go), the profile of an operator
    (profile.go), and the provisioning itself (provision.go) as programs over the
    commands, the store of snapshots and the wait for the modem after a restart.
    Where the clock and the texts of errors do not decide anything they are left
    out.  The profiles are those of Mbn.v.

    Parameters: [strings.ToLower] and [strings.ToUpper] beyond ASCII. *)

From Stdlib Require Import Ascii String.
From S2P Require Import Prelude GoText SmsCodec SimIdentity AtParse Interaction.
From S2P Require Mbn.
From stdpp Require Import strings.

#[local] Open Scope string_scope.
#[local] Open Scope Z_scope.

(** ** Commands (at.go) *)

Definition qcfg (key : string) : string := ("AT+QCFG=" ++ Mbn.quoted_text key)%string.
Definition digit (b : bool) : string := if b then "1" else "0".

Definition IMSSetCommands (imsEnabled volteEnabled : bool) : list string :=
  [(qcfg "ims" ++ "," ++ digit imsEnabled ++ "," ++ digit volteEnabled)%string; (qcfg "ims" ++ "," ++ digit imsEnabled)%string].
Definition IMSQueryCommand : string := (qcfg "ims" ++ "?")%string.
Definition USBConfigQueryCommand : string := (qcfg "usbcfg" ++ "?")%string.
Definition IMEIQueryCommands : list string := ["AT+CGSN"; "AT+GSN"].
Definition MBNAutoSelQueryCommand : string := Mbn.qmbncfg "autosel".
Definition MBNListQueryCommand : string := Mbn.qmbncfg "list".
Definition MBNAutoSelSetCommand (enabled : bool) : string := (Mbn.qmbncfg "autosel" ++ "," ++ digit enabled)%string.
Definition MBNSelectCommand (name : string) : string := (Mbn.qmbncfg "select" ++ "," ++ Mbn.quoted_text (TrimSpace name))%string.
Definition MBNActivateCommand : string := Mbn.qmbncfg "activate".

Definition quoteUSBCFG (parts : list string) : list string := Mbn.quoted_text "usbcfg" :: parts.
Definition USBConfigSetCommand (fields : list string) : string := ("AT+QCFG=" ++ String.concat "," (quoteUSBCFG fields))%string.

(** ** Answers (at.go) *)

(** [strings.Fields]: the length of the text is enough fuel. *)
Fixpoint up_to_space (fuel : nat) (s : string) : string * string :=
  match fuel with
  | O => ("", s)
  | S fuel =>
      match s with
      | EmptyString => ("", "")
      | String a rest => match first_cut space_runes s with Some rest => ("", rest) | None => let '(w, r) := up_to_space fuel rest in (String a w, r) end
      end
  end.
Fixpoint fields_loop (fuel : nat) (s : string) : list string :=
  match fuel with
  | O => []
  | S fuel =>
      let s := TrimLeftSpace s in
      if bool_decide (s = "") then [] else let '(w, rest) := up_to_space (String.length s) s in w :: fields_loop fuel rest
  end.
Definition Fields (s : string) : list string := fields_loop (String.length s) s.
Definition compactAT (resp : string) : string := String.concat " " (Fields resp).

Record IMSConfig := mkIMS { ims_on : bool; volte_on : bool }.
Record USBConfig := mkUSB { u_VID : string; u_PID : string; u_Fields : list string; u_UAC : bool; EnableCommand : string }.
Definition no_usb : USBConfig := mkUSB "" "" [] false "".

Record MBNEntry := mkEntry { e_Index : Z; e_Selected : bool; e_Activated : bool; e_Name : string }.

Definition lf : ascii := ascii_of_nat 10.

Definition splitQCFGArgs (args : string) : list string := TrimSpace <$> split_char comma args.

Definition parse01 (v : string) : option bool :=
  n ← Atoi (TrimSpace v);
  if bool_decide (n = 0) then Some false else if bool_decide (n = 1) then Some true else None.

Section Answers.
Context (unicode_lower unicode_upper : string → string).

Definition lower := ToLower unicode_lower.
Definition upper := ToUpper unicode_upper.

(** What follows the first comma of the first line of the answer that is about
    [key]. *)
Definition findQCFGLine (resp key : string) : option string :=
  let prefix := ("+qcfg: " ++ Mbn.quoted_text (lower (TrimSpace key)))%string in
  line ← List.find (λ raw, HasPrefix (lower (TrimSpace raw)) prefix) (split_char lf resp);
  '(_, rest) ← cut_char comma (TrimSpace line);
  Some (TrimSpace rest).

Definition findPrefixedArgs (resp prefix key : string) : option string :=
  let key := lower (TrimSpace key) in
  line ← List.find (λ raw, HasPrefix (lower (TrimSpace raw)) (lower prefix) && Contains (lower (TrimSpace raw)) (Mbn.quoted_text key)) (split_char lf resp);
  '(_, rest) ← cut_char comma (TrimSpace line);
  Some (TrimSpace rest).

Definition ParseIMSConfig (resp : string) : option IMSConfig :=
  line ← findQCFGLine resp "ims";
  match splitQCFGArgs line with
  | [] => None
  | ims :: rest =>
      imsOn ← parse01 ims;
      match rest with
      | [] => Some (mkIMS imsOn imsOn)
      | volte :: _ => volteOn ← parse01 volte; Some (mkIMS imsOn volteOn)
      end
  end.

Definition withUACFields (fields : list string) (enabled : bool) : list string :=
  match fields with [] => [] | _ => (removelast fields ++ [digit enabled])%list end.

Definition ParseUSBConfig (resp : string) : option USBConfig :=
  line ← findQCFGLine resp "usbcfg";
  let parts := splitQCFGArgs line in
  if bool_decide (List.length parts < 3)%nat then None
  else
    let uac := bool_decide (TrimSpace (List.last parts "") = "1") in
    Some (mkUSB (part parts 0) (part parts 1) parts uac (if uac then "" else USBConfigSetCommand (withUACFields parts true))).

Definition imei_line (raw : string) : option string :=
  let line := TrimSpace raw in
  if bool_decide (line = "") || Mbn.EqualFold line "OK" || Mbn.EqualFold line "ERROR" then None
  else
    let up := upper line in
    if HasPrefix up "AT+" then None
    else
      let line := if HasPrefix up "+CGSN:" then TrimSpace (substring 6 (String.length line) line)
                  else if HasPrefix up "+GSN:" then TrimSpace (substring 5 (String.length line) line) else line in
      let digits := List.filter is_digit (list_ascii_of_string line) in
      if bool_decide (List.length digits = 15%nat) then Some (string_of_list_ascii digits) else None.
Fixpoint first_imei (lines : list string) : option string :=
  match lines with
  | [] => None
  | l :: lines => match imei_line l with Some i => Some i | None => first_imei lines end
  end.
Definition ParseIMEI (resp : string) : option string := first_imei (split_char lf resp).

Definition ParseMBNAutoSel (resp : string) : option bool :=
  line ← findPrefixedArgs resp "+qmbncfg:" "autosel";
  match splitQCFGArgs line with [] => None | p :: _ => parse01 p end.

Definition ParseMBNList (resp : string) : option (list MBNEntry) :=
  match Mbn.ParseList unicode_lower resp with
  | None => None
  | Some profiles => Some ((λ p, mkEntry (Mbn.Index p) (Mbn.Selected p) (Mbn.Activated p) (Mbn.Name p)) <$> profiles)
  end.

Definition SelectedMBN (entries : list MBNEntry) : option MBNEntry :=
  match List.find (λ e, e_Selected e && e_Activated e) entries with
  | Some e => Some e
  | None => List.find e_Selected entries
  end.

Definition canonHexID (v : string) : string :=
  let s := TrimLeftChar "0"%char (TrimPrefix (TrimSpace (lower v)) "0x") in
  ("0x" ++ upper (if bool_decide (s = "") then "0" else s))%string.

Definition isATError (resp : string) : bool :=
  existsb (λ raw, let up := upper (TrimSpace raw) in bool_decide (up = "ERROR") || HasPrefix up "+CME ERROR" || HasPrefix up "+CMS ERROR") (split_char lf resp).
Definition IMEITail (imei : string) : string :=
  let imei := TrimSpace imei in
  if bool_decide (String.length imei <= 4)%nat then imei else substring (String.length imei - 4) 4 imei.

(** ** The profile of an operator (profile.go) *)

Definition two_digits (mnc : string) : string :=
  let m := TrimLeftChar "0"%char (TrimSpace mnc) in
  let m := if bool_decide (m = "") then "0" else m in
  if bool_decide (String.length m = 1%nat) then ("0" ++ m)%string else m.
Definition profileNamesForPLMN (mcc mnc : string) : list string :=
  let mnc := two_digits mnc in
  if bool_decide (TrimSpace mcc = "460") then
    if bool_decide (mnc ∈ ["00"; "02"; "04"; "07"; "08"]) then ["Volte_OpenMkt-Commercial-CMCC"]
    else if bool_decide (mnc ∈ ["03"; "05"; "11"]) then ["VoLTE_OPNMKT_CT"]
    else if bool_decide (mnc ∈ ["01"; "06"; "09"]) then ["CU-VoLTE"]
    else if bool_decide (mnc = "15") then
      ["Volte_OpenMkt-Commercial-CBN"; "VoLTE_OpenMkt-Commercial-CBN"; "VoLTE_OPNMKT_CBN"; "CBN-VoLTE"; "VoLTE-CBN"; "Volte_OpenMkt-Commercial-CMCC"]
    else []
  else [].

Definition named_entry (entries : list MBNEntry) (want : string) : option MBNEntry :=
  List.find (λ e, Mbn.EqualFold (TrimSpace (e_Name e)) want) entries.
Fixpoint first_named (entries : list MBNEntry) (wants : list string) : option string :=
  match wants with
  | [] => None
  | want :: wants => match named_entry entries want with Some e => Some (e_Name e) | None => first_named entries wants end
  end.
Definition UniqueMBN (mcc mnc : string) (entries : list MBNEntry) : option string := first_named entries (profileNamesForPLMN mcc mnc).

(** ** Requests *)

Inductive stage := StageIdentity | StageSnapshot | StageApplyIMS | StageApplyUSBCFG | StageApplyMBN | StageVerify | StageReenumerate
  | StageRestoreIdentity | StageRestoreWrite | StageRestoreVerify.
#[global] Instance stage_eq_dec : EqDecision stage.
Proof. solve_decision. Defined.

(** An error by its sentinel, and the text of one that comes from a command.  A
    stage error wraps another. *)
Inductive error :=
  | ATFailed (text : string) | Malformed | ErrRebootRequired | ErrFieldDrift | ErrIMEIMismatch | ErrVIDPIDMismatch | ErrNoUniqueProfile
  | ErrSnapshotNotFound | StoreFailed | ManagedFailed | WaitFailed | Refused | StageError (s : stage) (e : error).

Record VoiceSettings := mkSettings {
  IMSEnabled : bool; VoLTEEnabled : bool; USBFields : list string; UACEnabled : bool; VID : string; PID : string;
  MBNAutoSel : bool; MBNName : string; MBNIndex : Z }.
Definition no_settings : VoiceSettings := mkSettings false false [] false "" "" false "" 0.

Record Snapshot := mkSnapshot {
  Schema : string; CapturedAt : string; s_IMEI : string; s_VID : string; s_PID : string; s_Original : VoiceSettings; s_Target : VoiceSettings; DeviceHint : string }.

(** [None] for a nil pointer. *)
Record Desired := mkDesired {
  d_IMS : option bool; d_VoLTE : option bool; d_UAC : option bool; d_AutoSel : option bool; d_Select : option string; MCC : string; MNC : string }.

Record Result := mkResult {
  Stage : stage; DeviceID : string; r_IMEITail : string; SnapshotPath : string; Original : VoiceSettings; Current : VoiceSettings; Target : VoiceSettings;
  Written : list string; Drift : list string; RebootRequired : bool; Verified : bool; Restored : bool; OK : bool }.

Record options := mkOptions { Reboot : bool; WaitReenumerate : Z; has_waiter : bool; has_managed : bool }.

Inductive request :=
  | ExecuteAT (device command : string) (timeout : Z) | Pause
  | SaveSnapshot (s : Snapshot) | LoadSnapshot (imei : string) | PathFor (imei : string)
  | MBNManaged (device : string) | WaitByIMEI (imei : string) (wait : Z) | Now.

(** A command gives its answer and the text of its error. *)
#[export] Instance provision_answer : Requests request := λ c,
  match c with
  | ExecuteAT _ _ _ => (string * option string)%type
  | Pause => unit
  | SaveSnapshot _ => (string + error)%type
  | LoadSnapshot _ => ((Snapshot * string) + error)%type
  | PathFor _ => option string
  | MBNManaged _ => (bool + error)%type
  | WaitByIMEI _ _ => (string + error)%type
  | Now => string
  end.

Definition Second : Z := 1000000000.
Definition defaultATTimeout : Z := 8 * Second.
Definition mbnListTimeout : Z := 30 * Second.
Definition defaultWaitReenum : Z := 45 * Second.
Definition atTimeoutRetries : nat := 1.

(** ** Executing a command (at_exec.go) *)

Definition atTimeout (cmd : string) : Z :=
  if bool_decide (TrimSpace cmd ∈ [MBNListQueryCommand; MBNActivateCommand]) then mbnListTimeout else defaultATTimeout.

(** [atResult]: the text of the error. *)
Definition atResult (resp : string) (err : option string) : option string :=
  match err with
  | Some e => Some e
  | None => if isATError resp then Some ("AT ERROR (" ++ compactAT resp ++ ")")%string else None
  end.

Definition isATTimeout (text : string) : bool := let msg := lower text in Contains msg "timeout" || Contains msg "timed out".

Fixpoint exec_attempts (retries : nat) (deviceID cmd : string) : prog request (string + error) :=
  let? r := ask (ExecuteAT deviceID cmd (atTimeout cmd)) in
  match atResult r.1 r.2 with
  | None => Ret (inl r.1)
  | Some text =>
      match retries with
      | O => Ret (inr (ATFailed text))
      | S retries => if isATTimeout text then let? _ := ask Pause in exec_attempts retries deviceID cmd else Ret (inr (ATFailed text))
      end
  end.
Definition exec (deviceID cmd : string) : prog request (string + error) := exec_attempts atTimeoutRetries deviceID cmd.

(** ** Reading the settings (provision.go) *)

Fixpoint try_imei (deviceID : string) (cmds : list string) (last : error) : prog request (string + error) :=
  match cmds with
  | [] => Ret (inr last)
  | cmd :: cmds =>
      let? r := exec deviceID cmd in
      match r with
      | inr e => try_imei deviceID cmds e
      | inl resp => match ParseIMEI resp with Some imei => Ret (inl imei) | None => try_imei deviceID cmds Malformed end
      end
  end.
Definition readIMEI (deviceID : string) : prog request (string + error) := try_imei deviceID IMEIQueryCommands Malformed.

(** [v, err := f(resp)] of the answer to a command. *)
Definition query {A} (deviceID cmd : string) (parse : string → option A) : prog request (A + error) :=
  let? r := exec deviceID cmd in
  Ret (match r with inr e => inr e | inl resp => match parse resp with Some a => inl a | None => inr Malformed end end).

(** A modem that does not answer about its USB settings has none. *)
Definition readUSB (deviceID : string) : prog request (USBConfig + error) :=
  let? r := exec deviceID USBConfigQueryCommand in
  Ret (match r with inr _ => inl no_usb | inl resp => match ParseUSBConfig resp with Some u => inl u | None => inr Malformed end end).

Definition ok {A B} (r : A + error) (k : A → prog request (B + error)) : prog request (B + error) :=
  match r with inl a => k a | inr e => Ret (inr e) end.

Definition readSettings (deviceID : string) : prog request ((VoiceSettings * string * list MBNEntry) + error) :=
  let? r := readIMEI deviceID in ok r (λ imei,
  let? r := query deviceID IMSQueryCommand ParseIMSConfig in ok r (λ ims,
  let? r := readUSB deviceID in ok r (λ usb,
  let? r := query deviceID MBNAutoSelQueryCommand ParseMBNAutoSel in ok r (λ autoSel,
  let? r := query deviceID MBNListQueryCommand ParseMBNList in ok r (λ entries,
  let selected := default (mkEntry 0 false false "") (SelectedMBN entries) in
  Ret (inl (mkSettings (ims_on ims) (volte_on ims) (u_Fields usb) (u_UAC usb) (u_VID usb) (u_PID usb) autoSel (e_Name selected) (e_Index selected), imei, entries))))))).

(** ** Comparing settings *)

Definition sameIdentity (v1 p1 v2 p2 : string) : bool := bool_decide (canonHexID v1 = canonHexID v2) && bool_decide (canonHexID p1 = canonHexID p2).

Definition overlayDesired (c : VoiceSettings) (d : Desired) : VoiceSettings :=
  let uac := if bool_decide (3 <= List.length (USBFields c))%nat then d_UAC d else None in
  mkSettings (default (IMSEnabled c) (d_IMS d)) (default (VoLTEEnabled c) (d_VoLTE d))
    (match uac with Some b => withUACFields (USBFields c) b | None => USBFields c end) (default (UACEnabled c) uac) (VID c) (PID c)
    (default (MBNAutoSel c) (d_AutoSel d)) (match d_Select d with Some n => TrimSpace n | None => MBNName c end) (MBNIndex c).

Definition drift_if (b : bool) (name : string) : list string := if b then [name] else [].
Definition desiredDrift (current target : VoiceSettings) (pendingReboot : bool) : list string :=
  (drift_if (negb (Bool.eqb (IMSEnabled current) (IMSEnabled target))) "ims" ++
   drift_if (negb (Bool.eqb (VoLTEEnabled current) (VoLTEEnabled target))) "volte" ++
   drift_if (negb pendingReboot && negb (Bool.eqb (UACEnabled current) (UACEnabled target))) "usbcfg" ++
   drift_if (bool_decide (MBNName current ≠ MBNName target)) "mbn" ++
   drift_if (negb pendingReboot && negb (Bool.eqb (MBNAutoSel current) (MBNAutoSel target)) && bool_decide (MBNName current = MBNName target)) "mbn_autosel")%list.

Definition settingsEqual (a b : VoiceSettings) : bool :=
  Bool.eqb (IMSEnabled a) (IMSEnabled b) && Bool.eqb (VoLTEEnabled a) (VoLTEEnabled b) && Bool.eqb (UACEnabled a) (UACEnabled b) &&
  Bool.eqb (MBNAutoSel a) (MBNAutoSel b) && bool_decide (MBNName a = MBNName b) && sameIdentity (VID a) (PID a) (VID b) (PID b).
Definition diffSettings (a b : VoiceSettings) : list string := desiredDrift a b false.

Definition appendUnique (l : list string) (v : string) : list string := if bool_decide (v ∈ l) then l else (l ++ [v])%list.

(** The texts of a snapshot that [%#v] prints, whose escapes are left out. *)
Definition settings_texts (v : VoiceSettings) : list string := (USBFields v ++ [VID v; PID v; MBNName v])%list.
Definition snapshot_texts (s : Snapshot) : list string :=
  ([Schema s; CapturedAt s; s_IMEI s; s_VID s; s_PID s] ++ settings_texts (s_Original s) ++ settings_texts (s_Target s) ++ [DeviceHint s])%list.
Definition containsSecret (s : Snapshot) : bool :=
  let has mark := existsb (λ t, Contains (lower t) mark) (snapshot_texts s) in
  has "/dev/" || has "ttyusb" || has "cdc-wdm" || (has "adb" && has "password").

(** ** A result on its way *)

Definition with_stage (x : stage) (r : Result) : Result :=
  let '(mkResult _ d i p o c t w dr rb v rs k) := r in mkResult x d i p o c t w dr rb v rs k.
Definition with_current (x : VoiceSettings) (r : Result) : Result :=
  let '(mkResult s d i p o _ t w dr rb v rs k) := r in mkResult s d i p o x t w dr rb v rs k.
Definition with_original (x : VoiceSettings) (r : Result) : Result :=
  let '(mkResult s d i p _ c t w dr rb v rs k) := r in mkResult s d i p x c t w dr rb v rs k.
Definition with_target (x : VoiceSettings) (r : Result) : Result :=
  let '(mkResult s d i p o c _ w dr rb v rs k) := r in mkResult s d i p o c x w dr rb v rs k.
Definition with_path (x : string) (r : Result) : Result :=
  let '(mkResult s d i _ o c t w dr rb v rs k) := r in mkResult s d i x o c t w dr rb v rs k.
Definition with_tail (x : string) (r : Result) : Result :=
  let '(mkResult s d _ p o c t w dr rb v rs k) := r in mkResult s d x p o c t w dr rb v rs k.
Definition with_device (x : string) (r : Result) : Result :=
  let '(mkResult s _ i p o c t w dr rb v rs k) := r in mkResult s x i p o c t w dr rb v rs k.
Definition wrote (x : string) (r : Result) : Result :=
  let '(mkResult s d i p o c t w dr rb v rs k) := r in mkResult s d i p o c t (appendUnique w x) dr rb v rs k.
Definition with_drift (x : list string) (r : Result) : Result :=
  let '(mkResult s d i p o c t w _ rb v rs k) := r in mkResult s d i p o c t w x rb v rs k.
Definition with_reboot (x : bool) (r : Result) : Result :=
  let '(mkResult s d i p o c t w dr _ v rs k) := r in mkResult s d i p o c t w dr x v rs k.
Definition with_done (verified restored okay : bool) (r : Result) : Result :=
  let '(mkResult s d i p o c t w dr rb _ _ _) := r in mkResult s d i p o c t w dr rb verified restored okay.

(** What a step gives: the result so far, and its error. *)
Definition step := prog request (Result * option error).

(** [p.fail]: the copy of the result inside the error is left out. *)
Definition fail (res : Result) (s : stage) (e : error) : step := Ret (res, Some (StageError s e)).
Definition good {A} (res : Result) (s : stage) (p : prog request (A + error)) (k : A → step) : step :=
  let? r := p in match r with inl a => k a | inr e => fail res s e end.
Definition andThen (p : step) (k : Result → step) : step :=
  bind p (λ '(res, err), match err with Some e => Ret (res, Some e) | None => k res end).

Fixpoint set_ims (deviceID : string) (cmds : list string) (last : option error) : prog request (option error) :=
  match cmds with
  | [] => Ret last
  | cmd :: cmds =>
      let? r := exec deviceID cmd in
      match r with inl _ => Ret None | inr e => set_ims deviceID cmds (Some e) end
  end.

Definition applyIMS (deviceID : string) (res : Result) : step :=
  let res := with_stage StageApplyIMS res in
  let c := Current res in let t := Target res in
  if Bool.eqb (IMSEnabled c) (IMSEnabled t) && Bool.eqb (VoLTEEnabled c) (VoLTEEnabled t) then Ret (res, None)
  else
    let? last := set_ims deviceID (IMSSetCommands (IMSEnabled t) (VoLTEEnabled t)) None in
    match last with
    | Some e => fail res StageApplyIMS e
    | None =>
        let res := wrote "ims" res in
        good res StageApplyIMS (readSettings deviceID) (λ '(current, _, _),
          let res := with_current current res in
          if negb (Bool.eqb (IMSEnabled current) (IMSEnabled t)) then fail (with_drift (appendUnique (Drift res) "ims") res) StageApplyIMS ErrFieldDrift
          else if negb (Bool.eqb (VoLTEEnabled current) (VoLTEEnabled t)) then fail (with_drift (appendUnique (Drift res) "volte") res) StageApplyIMS ErrFieldDrift
          else Ret (wrote "volte" res, None))
    end.

Definition select_mbn (deviceID : string) (res : Result) : step :=
  good res StageApplyMBN (exec deviceID (MBNAutoSelSetCommand false)) (λ _,
  good res StageApplyMBN (exec deviceID (MBNSelectCommand (MBNName (Target res)))) (λ _,
  good res StageApplyMBN (exec deviceID MBNActivateCommand) (λ _,
  Ret (with_reboot true (wrote "mbn" res), None)))).

Definition applyMBN (deviceID : string) (res : Result) : step :=
  let res := with_stage StageApplyMBN res in
  let c := Current res in let t := Target res in
  let named := bool_decide (MBNName c = MBNName t) in
  if Bool.eqb (MBNAutoSel c) (MBNAutoSel t) && named then Ret (res, None)
  else if negb named && bool_decide (TrimSpace (MBNName t) = "") then fail res StageApplyMBN Refused
  else
    andThen (if negb named then select_mbn deviceID res else Ret (res, None)) (λ res,
    andThen (if negb (Bool.eqb (MBNAutoSel c) (MBNAutoSel t)) && named
             then good res StageApplyMBN (exec deviceID (MBNAutoSelSetCommand (MBNAutoSel t))) (λ _, Ret (wrote "mbn_autosel" res, None))
             else Ret (res, None)) (λ res,
    good res StageApplyMBN (readSettings deviceID) (λ '(current, _, _), Ret (with_current current res, None)))).

(** [fields[0] = ...; fields[1] = ...] *)
Definition own_identity (fields from : list string) : list string :=
  match fields with _ :: _ :: rest => part from 0%nat :: part from 1%nat :: rest | _ => fields end.

Definition applyUSBCFG (deviceID : string) (res : Result) : step :=
  let res := with_stage StageApplyUSBCFG res in
  let c := Current res in let t := Target res in
  if negb (sameIdentity (VID c) (PID c) (VID t) (PID t)) then fail res StageApplyUSBCFG ErrVIDPIDMismatch
  else if Bool.eqb (UACEnabled c) (UACEnabled t) && bool_decide (String.concat "," (USBFields c) = String.concat "," (USBFields t)) then Ret (res, None)
  else
    let fields := withUACFields (USBFields c) (UACEnabled t) in
    if bool_decide (List.length fields < 3)%nat then Ret (res, None)
    else
      good res StageApplyUSBCFG (exec deviceID (USBConfigSetCommand (own_identity fields (USBFields c)))) (λ _,
      let res := with_reboot true (wrote "usbcfg" res) in
      good res StageApplyUSBCFG (readSettings deviceID) (λ '(current, _, _), Ret (with_current current res, None))).

Section Provisioner.
Context (opts : options).

Definition restart (res : Result) : step :=
  if RebootRequired res && Reboot opts
  then good res StageReenumerate (exec (DeviceID res) "AT+CFUN=1,1") (λ _, Ret (res, None))
  else Ret (res, None).

Definition wait_restarted (imei : string) (res : Result) : step :=
  if RebootRequired res && has_waiter opts then
    let wait := if bool_decide (WaitReenumerate opts <= 0) then defaultWaitReenum else WaitReenumerate opts in
    let? r := ask (WaitByIMEI imei wait) in
    match r with
    | inr e => fail (with_done false false false (with_stage StageReenumerate res)) StageReenumerate e
    | inl id => Ret (with_device id res, None)
    end
  else Ret (res, None).

Definition verify (imei : string) (res : Result) : step :=
  good res StageVerify (readSettings (DeviceID res)) (λ '(current, live, _),
  if bool_decide (live ≠ imei) then fail res StageVerify ErrIMEIMismatch
  else
    let unseen := RebootRequired res && negb (has_waiter opts) in
    let res := with_stage StageVerify (with_drift (desiredDrift current (Target res) unseen) (with_current current res)) in
    if bool_decide (Drift res ≠ []) then fail (with_done false false false res) StageVerify ErrFieldDrift
    else if unseen then fail (with_done false (Restored res) false res) StageVerify ErrRebootRequired
    else Ret (with_done true (Restored res) true (with_reboot (negb (Bool.eqb (UACEnabled current) (UACEnabled (Target res)))) res), None)).

(** [haveLive] is always true: both callers pass what they have read. *)
Definition apply (deviceID : string) (snap : Snapshot) (live : VoiceSettings) : step :=
  let? path := ask (PathFor (s_IMEI snap)) in
  let res := mkResult StageIdentity deviceID (IMEITail (s_IMEI snap)) (default "" path) (s_Original snap) live (s_Target snap) [] [] false false false false in
  andThen (applyIMS deviceID res) (λ res,
  andThen (applyMBN deviceID res) (λ res,
  andThen (applyUSBCFG deviceID res) (λ res,
  andThen (restart res) (λ res,
  andThen (wait_restarted (s_IMEI snap) res) (λ res,
  verify (s_IMEI snap) res))))).

Definition managed (deviceID : string) : prog request (bool + error) := if has_managed opts then ask (MBNManaged deviceID) else Ret (inl false).
Definition unmanaged (d : Desired) : Desired := mkDesired (d_IMS d) (d_VoLTE d) (d_UAC d) None None "" "".

Definition choose_profile (d : Desired) (entries : list MBNEntry) : Desired + error :=
  if bool_decide (TrimSpace (MCC d) ≠ "") && bool_decide (d_Select d = None) then
    match UniqueMBN (MCC d) (MNC d) entries with
    | None => inr ErrNoUniqueProfile
    | Some name => inl (mkDesired (d_IMS d) (d_VoLTE d) (d_UAC d) (Some (default false (d_AutoSel d))) (Some name) (MCC d) (MNC d))
    end
  else inl d.

Definition SnapshotSchema : string := "hideck.volte.provision.v1".

(** What is kept of an earlier snapshot: the original settings and their time. *)
Definition keep_original (snap existing : Snapshot) : Snapshot :=
  mkSnapshot (Schema snap) (if bool_decide (CapturedAt existing = "") then CapturedAt snap else CapturedAt existing) (s_IMEI snap) (s_VID snap) (s_PID snap)
    (s_Original existing) (s_Target snap) (DeviceHint snap).
Definition is_earlier (imei : string) (existing : Snapshot) : bool := bool_decide (s_IMEI existing = imei) && bool_decide (s_VID existing ≠ "").

Definition not_found (e : error) : bool := match e with ErrSnapshotNotFound => true | _ => false end.

(** The snapshot of a capture is [Some] without an error. *)
Definition capture (deviceID : string) (desired : Desired) : prog request (Result * (Snapshot + error)) :=
  let res := mkResult StageIdentity deviceID "" "" no_settings no_settings no_settings [] [] false false false false in
  let? m := managed deviceID in
  match m with
  | inr e => Ret (res, inr e)
  | inl is_managed =>
      let desired := if (is_managed : bool) then unmanaged desired else desired in
      let? r := readSettings deviceID in
      match r with
      | inr e => Ret (res, inr (StageError StageIdentity e))
      | inl (current, imei, entries) =>
          let res := with_original current (with_current current (with_tail (IMEITail imei) res)) in
          match choose_profile desired entries with
          | inr e => Ret (res, inr (StageError StageIdentity e))
          | inl desired =>
              let target := overlayDesired current desired in
              if negb (sameIdentity (VID target) (PID target) (VID current) (PID current)) then Ret (res, inr (StageError StageIdentity ErrVIDPIDMismatch))
              else
                let res := with_stage StageSnapshot (with_target target res) in
                let? now := ask Now in
                let? loaded := ask (LoadSnapshot imei) in
                let snap := mkSnapshot SnapshotSchema now imei (VID current) (PID current) current target deviceID in
                let saving (snap : Snapshot) (res : Result) :=
                  let? saved := ask (SaveSnapshot snap) in
                  match saved with
                  | inr e => Ret (res, inr (StageError StageSnapshot e))
                  | inl path =>
                      let res := with_path path res in
                      if containsSecret snap then Ret (res, inr (StageError StageSnapshot Refused)) else Ret (res, inl snap)
                  end in
                match loaded with
                | inl (existing, _) => if is_earlier imei existing then saving (keep_original snap existing) (with_original (s_Original existing) res) else saving snap res
                | inr e => if not_found e then saving snap res else Ret (res, inr (StageError StageSnapshot e))
                end
          end
      end
  end.

Definition Ensure (deviceID : string) (desired : Desired) : step :=
  let? c := capture deviceID desired in
  match c with
  | (res, inr e) => Ret (res, Some e)
  | (res, inl snap) => apply deviceID snap (Current res)
  end.

Definition restore_stage (s : stage) : stage :=
  match s with
  | StageApplyIMS | StageApplyUSBCFG | StageApplyMBN => StageRestoreWrite
  | StageVerify | StageReenumerate => StageRestoreVerify
  | s => s
  end.

(** A managed modem keeps the profile that it has. *)
Definition keep_profile (current original : VoiceSettings) : VoiceSettings :=
  mkSettings (IMSEnabled original) (VoLTEEnabled original) (USBFields original) (UACEnabled original) (VID original) (PID original)
    (MBNAutoSel current) (MBNName current) (MBNIndex current).

Definition Restore (deviceID : string) : step :=
  let res := mkResult StageRestoreIdentity deviceID "" "" no_settings no_settings no_settings [] [] false false false false in
  good res StageRestoreIdentity (readSettings deviceID) (λ '(current, imei, _),
  let res := with_current current (with_tail (IMEITail imei) res) in
  good res StageRestoreIdentity (ask (LoadSnapshot imei)) (λ '(snap, path),
  let res := with_path path res in
  let? m := managed deviceID in
  match m with
  | inr e => Ret (res, Some e)
  | inl is_managed =>
      let original := if (is_managed : bool) then keep_profile current (s_Original snap) else s_Original snap in
      let res := with_target original (with_original original res) in
      if bool_decide (s_IMEI snap ≠ imei) then fail res StageRestoreIdentity ErrIMEIMismatch
      else if negb (sameIdentity (s_VID snap) (s_PID snap) (VID current) (PID current)) then fail res StageRestoreIdentity ErrVIDPIDMismatch
      else
        let? a := apply deviceID (mkSnapshot (Schema snap) (CapturedAt snap) (s_IMEI snap) (s_VID snap) (s_PID snap) original original (DeviceHint snap)) current in
        match a with
        | (applied, Some e) => let s := restore_stage (Stage applied) in fail (with_stage s (with_done (Verified applied) false (OK applied) applied)) s e
        | (applied, None) =>
            if negb (settingsEqual (Current applied) original)
            then fail (with_drift (diffSettings (Current applied) original) (with_stage StageRestoreVerify (with_done (Verified applied) false false applied))) StageRestoreVerify ErrFieldDrift
            else Ret (with_stage StageRestoreVerify (with_done (Verified applied) true true applied), None)
        end
  end)).
End Provisioner.
End Answers.
