(* ===== verification/ProvisionProofs.v ===== *)
(** * Properties of provisioning

    What a run that succeeds has read, what a run may write and when, and the
    runs on a modem that show what is lost. *)

From Stdlib Require Import Ascii String.
From S2P Require Import Prelude GoText SmsCodec SimIdentity AtParse Interaction Provision.
From S2P Require Mbn MbnProofs.
From stdpp Require Import strings.

#[local] Open Scope string_scope.
#[local] Open Scope Z_scope.

(** ** Results *)

Section Results.
Context (unicode_lower unicode_upper : string → string) (opts : options).

Notation readSettings := (readSettings unicode_lower unicode_upper).
Notation trace := (list (@exchange request provision_answer)).
Notation exec := Interaction.exec.

Lemma andThen_exec (p : step) k t x : exec (andThen p k) t x →
  ∃ t1 t2 r, t = (t1 ++ t2)%list ∧ exec p t1 r ∧ match r with (res, None) => exec (k res) t2 x | (res, Some e) => x = (res, Some e) ∧ t2 = [] end.
Proof.
  intros (t1 & t2 & [res [e|]] & -> & H1 & H2)%exec_bind; exists t1, t2; eexists; split_and!; [done|exact H1| |done|exact H1|exact H2].
  by destruct H2 as [-> ->].
Qed.

Lemma good_exec {A} res s (p : prog request (A + error)) k t x : exec (good res s p k) t x →
  ∃ t1 t2 r, t = (t1 ++ t2)%list ∧ exec p t1 r ∧ match r with inl a => exec (k a) t2 x | inr e => x = (res, Some (StageError s e)) ∧ t2 = [] end.
Proof.
  intros (t1 & t2 & [a|e] & -> & H1 & H2)%exec_bind; exists t1, t2; eexists; (split_and!; [done|exact H1|]); [done|]. by destruct H2 as [-> ->].
Qed.

(** The last thing that was read: the settings [c] of the modem [imei]. *)
Definition just_read (deviceID imei : string) (c : VoiceSettings) (t : trace) : Prop :=
  ∃ t1 t2 entries, t = (t1 ++ t2)%list ∧ exec (readSettings deviceID) t2 (inl (c, imei, entries)).

Lemma just_read_app d i c t0 t : just_read d i c t → just_read d i c (t0 ++ t).
Proof. intros (t1 & t2 & es & -> & H). exists (t0 ++ t1)%list, t2, es. by rewrite app_assoc. Qed.

(** The settings that are provisioned agree. *)
Definition agrees (c target : VoiceSettings) : Prop :=
  IMSEnabled c = IMSEnabled target ∧ VoLTEEnabled c = VoLTEEnabled target ∧ UACEnabled c = UACEnabled target ∧
  MBNName c = MBNName target ∧ MBNAutoSel c = MBNAutoSel target.

Lemma no_drift c target : desiredDrift c target false = [] → agrees c target.
Proof.
  unfold desiredDrift. intros [H1 [H2 [H3 [H4 H5]%app_nil]%app_nil]%app_nil]%app_nil.
  assert (Hd : ∀ b n, drift_if b n = [] → b = false) by (by intros []). apply Hd in H1, H2, H3, H4, H5.
  apply negb_false_iff, eqb_prop in H1, H2, H3. apply bool_decide_eq_false, dec_stable in H4.
  rewrite (bool_decide_true _ H4), andb_true_r in H5. apply negb_false_iff, eqb_prop in H5. by split_and!.
Qed.

Lemma verify_exec imei res t r : exec (verify unicode_lower unicode_upper opts imei res) t (r, None) →
  just_read (DeviceID r) imei (Current r) t ∧ agrees (Current r) (Target r) ∧ Verified r = true ∧ OK r = true ∧
  Target r = Target res ∧ Original r = Original res.
Proof.
  intros (t1 & t2 & [[[c live] es]|e] & -> & H1 & H2)%good_exec; [|by destruct H2 as [[=] _]].
  cbv beta iota in H2. destruct (bool_decide (live ≠ imei)) eqn:Hi; [by destruct H2 as [_ [=]]|]. apply bool_decide_eq_false, dec_stable in Hi. subst live.
  cbv zeta in H2. set (unseen := RebootRequired res && negb (has_waiter opts)) in *.
  destruct (bool_decide _) eqn:Hd; [by destruct H2 as [_ [=]]|]. apply bool_decide_eq_false, dec_stable in Hd.
  destruct unseen; [by destruct H2 as [_ [=]]|]. destruct H2 as [-> [= ->]]. rewrite app_nil_r.
  destruct res. cbn in *. split_and!; try done; [by exists [], t1, es|by apply no_drift].
Qed.

(** Every result of a program satisfies [Q]. *)
Fixpoint gives {A} (Q : A → Prop) (p : prog request A) : Prop :=
  match p with Ret a => Q a | Do c k => ∀ r, gives Q (k r) end.

Lemma gives_exec {A} (Q : A → Prop) p t a : gives Q p → exec p t a → Q a.
Proof. revert t. induction p as [b|c k IH]; intros t Hp; [by intros [_ ->]|]. intros (r & t' & _ & Hx). by eapply IH. Qed.
Lemma gives_bind {A B} (Q : B → Prop) (p : prog request A) (f : A → prog request B) : (∀ a, gives Q (f a)) → gives Q (bind p f).
Proof. intros Hf. induction p as [a|c k IH]; cbn; [apply Hf|done]. Qed.
Lemma gives_seq {A B} (P : A → Prop) (Q : B → Prop) (p : prog request A) (f : A → prog request B) :
  gives P p → (∀ a, P a → gives Q (f a)) → gives Q (bind p f).
Proof. intros Hp Hf. induction p as [a|c k IH]; cbn in *; [by apply Hf|auto]. Qed.

(** The aim of a result. *)
Definition aims (res : Result) (x : Result * option error) : Prop := Target x.1 = Target res ∧ Original x.1 = Original res.

Lemma aims_step res p k : gives (aims res) p → (∀ res', Target res' = Target res → Original res' = Original res → gives (aims res) (k res')) → gives (aims res) (andThen p k).
Proof. intros Hp Hk. eapply gives_seq; [exact Hp|]. intros [res' [e|]] [H1 H2]; [by split|]. by apply Hk. Qed.

Ltac aimed := repeat match goal with
  | |- gives _ (Ret _) => solve [by split | by destruct_all; split]
  | |- gives _ (fail ?r _ _) => unfold fail
  | |- gives _ (good ?r _ _ _) => unfold good
  | |- gives _ (bind _ _) => apply gives_bind; intros ?
  | |- gives _ (if ?b then _ else _) => destruct b
  | |- gives _ (match ?x with _ => _ end) => destruct x
  end
with destruct_all := repeat match goal with r : Result |- _ => destruct r end; cbn in *; try congruence.

Lemma ims_aims d res : gives (aims res) (applyIMS unicode_lower unicode_upper d res).
Proof. unfold applyIMS. cbv zeta. aimed. Qed.
Lemma select_aims d res : gives (aims res) (select_mbn unicode_lower unicode_upper d res).
Proof. unfold select_mbn. aimed. Qed.

Lemma aims_same res res' p : Target res' = Target res → Original res' = Original res → gives (aims res') p → gives (aims res) p.
Proof. intros H1 H2. induction p as [a|c k IH]; cbn; [unfold aims; by rewrite H1, H2|auto]. Qed.

Lemma mbn_aims d res : gives (aims res) (applyMBN unicode_lower unicode_upper d res).
Proof.
  unfold applyMBN. cbv zeta. set (res0 := with_stage _ res).
  apply (aims_same res res0); [by destruct res|by destruct res|]. clearbody res0. destruct (_ && _); [aimed|]. destruct (_ && _); [aimed|].
  apply aims_step; [destruct (negb _); [apply select_aims|aimed]|]. intros res1 T1 O1. eapply aims_same; [exact T1|exact O1|].
  apply aims_step; [aimed|]. intros res2 T2 O2. eapply aims_same; [exact T2|exact O2|]. aimed.
Qed.

Lemma usb_aims d res : gives (aims res) (applyUSBCFG unicode_lower unicode_upper d res).
Proof. unfold applyUSBCFG. cbv zeta. aimed. Qed.
Lemma restart_aims res : gives (aims res) (restart unicode_lower unicode_upper opts res).
Proof. unfold restart. aimed. Qed.
Lemma wait_aims imei res : gives (aims res) (wait_restarted opts imei res).
Proof. unfold wait_restarted. cbv zeta. aimed. Qed.

Lemma aims_chain res p k t r : gives (aims res) p → exec (andThen p k) t (r, None) →
  ∃ t1 t2 res1, t = (t1 ++ t2)%list ∧ Target res1 = Target res ∧ Original res1 = Original res ∧ exec (k res1) t2 (r, None).
Proof.
  intros Hg (t1 & t2 & [res1 [e|]] & -> & H1 & H2)%andThen_exec; [by destruct H2 as [[=] _]|]. destruct (gives_exec _ _ _ _ Hg H1) as [HT HO].
  by exists t1, t2, res1.
Qed.

Lemma apply_exec d snap live t r : exec (Provision.apply unicode_lower unicode_upper opts d snap live) t (r, None) →
  just_read (DeviceID r) (s_IMEI snap) (Current r) t ∧ agrees (Current r) (s_Target snap) ∧ Verified r = true ∧ OK r = true ∧
  Target r = s_Target snap ∧ Original r = s_Original snap.
Proof.
  unfold Provision.apply. intros (t0 & t' & path & -> & _ & Hx)%exec_bind. set (res0 := mkResult _ _ _ _ _ _ _ _ _ _ _ _ _) in Hx.
  assert (T0 : Target res0 = s_Target snap) by done. assert (O0 : Original res0 = s_Original snap) by done. clearbody res0.
  apply (aims_chain res0) in Hx as (t1 & u1 & res1 & -> & T1 & O1 & Hx); [|apply ims_aims].
  apply (aims_chain res1) in Hx as (t2 & u2 & res2 & -> & T2 & O2 & Hx); [|apply mbn_aims].
  apply (aims_chain res2) in Hx as (t3 & u3 & res3 & -> & T3 & O3 & Hx); [|apply usb_aims].
  apply (aims_chain res3) in Hx as (t4 & u4 & res4 & -> & T4 & O4 & Hx); [|apply restart_aims].
  apply (aims_chain res4) in Hx as (t5 & u5 & res5 & -> & T5 & O5 & Hx); [|apply wait_aims].
  apply verify_exec in Hx as (Hread & Hagree & Hv & Hok & HT & HO).
  assert (HTs : Target r = s_Target snap) by congruence. rewrite <- HTs. split_and!; try done; [by repeat apply just_read_app|congruence].
Qed.

(** What the caller desires, with the profile of the operator of the card. *)
Definition asked (desired : Desired) (entries : list MBNEntry) (desired' : Desired) : Prop :=
  ∃ is_managed : bool, choose_profile (if is_managed then unmanaged desired else desired) entries = inl desired'.

Lemma capture_exec d desired t res snap : exec (capture unicode_lower unicode_upper opts d desired) t (res, inl snap) →
  ∃ c imei entries desired' path t1 t2 t3,
    t = (t1 ++ t2 ++ t3)%list ∧ exec (readSettings d) t2 (inl (c, imei, entries)) ∧ asked desired entries desired' ∧ mkExchange (SaveSnapshot snap) (inl path) ∈ t3 ∧
    s_IMEI snap = imei ∧ s_Target snap = overlayDesired c desired' ∧ containsSecret unicode_lower snap = false ∧ Current res = c ∧
    (s_Original snap = c ∨ ∃ existing p, mkExchange (LoadSnapshot imei) (inl (existing, p)) ∈ t3 ∧ is_earlier imei existing = true ∧ s_Original snap = s_Original existing).
Proof.
  unfold capture. intros (t1 & t' & [m|e] & -> & H1 & Hx)%exec_bind; [|by destruct Hx as [_ [=]]].
  apply exec_bind in Hx as (t2 & t3 & [[[c imei] es]|e] & -> & H2 & Hx); [|by destruct Hx as [_ [=]]].
  destruct (choose_profile _ _) as [desired'|e] eqn:Hch; [|by destruct Hx as [_ [=]]]. assert (Hask : asked desired es desired') by (by exists m). clear Hch. cbv zeta in Hx.
  destruct (negb _); [by destruct Hx as [_ [=]]|]. unfold ask in Hx. cbn [bind Interaction.exec] in Hx. destruct Hx as (now & t4 & -> & loaded & t5 & -> & Hx).
  set (res1 := with_stage _ _) in Hx. assert (Hc : Current res1 = c) by done.
  set (snap0 := mkSnapshot _ now imei _ _ c _ d) in Hx.
  assert (Hsave : ∀ (s0 : Snapshot) res0, exec (Do (SaveSnapshot s0) (λ saved : string + error, match saved with inr e => Ret (res0, inr (StageError StageSnapshot e)) | inl path => if containsSecret unicode_lower s0 then Ret (with_path path res0, inr (StageError StageSnapshot Refused)) else Ret (with_path path res0, inl s0) end)) t5 (res, inl snap) →
    ∃ path, t5 = [mkExchange (SaveSnapshot s0) (inl path)] ∧ snap = s0 ∧ containsSecret unicode_lower s0 = false ∧ res = with_path path res0).
  { intros s0 res0. cbn [Interaction.exec]. intros (saved & t6 & -> & Hy). destruct saved as [path|e]; [|by destruct Hy as [_ [=]]].
    destruct (containsSecret unicode_lower s0); destruct Hy as [-> Hy]; [done|]. injection Hy as -> ->. by exists path. }
  exists c, imei, es, desired'.
  destruct loaded as [[existing p]|e].
  - destruct (is_earlier imei existing) eqn:He; apply Hsave in Hx as (path & -> & -> & Hsec & ->); exists path, t1, t2; eexists; (split_and!; [done|done|done|right; right; by left|done|done|done|by destruct res1|]); [right; exists existing, p; split_and!; [right; by left|done|done]|by left].
  - destruct (not_found e); [|by destruct Hx as [_ [=]]]. apply Hsave in Hx as (path & -> & -> & Hsec & ->). exists path, t1, t2. eexists.
    split_and!; [done|done|done|right; right; by left|done|done|done|by destruct res1|by left].
Qed.

(** ** Writes *)

(** The commands that only read. *)
Definition readings : list string := (IMEIQueryCommands ++ [IMSQueryCommand; USBConfigQueryCommand; MBNAutoSelQueryCommand; MBNListQueryCommand])%list.
Definition reads (c : request) : Prop := match c with ExecuteAT _ command _ => command ∈ readings | _ => True end.

Lemma reads_exec d command : command ∈ readings → asks_only reads (Provision.exec unicode_lower unicode_upper d command).
Proof.
  intros Hc. unfold Provision.exec. generalize atTimeoutRetries. intros n. induction n as [|n IH]; (split; [done|]); intros r; cbn;
    repeat case_match; try done; by split.
Qed.

Lemma reads_imei d cmds e : Forall (λ c, c ∈ readings) cmds → asks_only reads (try_imei unicode_lower unicode_upper d cmds e).
Proof.
  revert e. induction cmds as [|c cmds IH]; intros e Hf; [done|]. inversion_clear Hf as [|? ? Hc Hf']. cbn [try_imei].
  apply asks_only_bind; [by apply reads_exec|]. intros [resp|e']; [|by apply IH]. destruct (ParseIMEI _ _); [done|by apply IH].
Qed.

Lemma reads_query {A} d command (parse : string → option A) : command ∈ readings → asks_only reads (query unicode_lower unicode_upper d command parse).
Proof. intros Hc. apply asks_only_bind; [by apply reads_exec|]. done. Qed.

Lemma reads_ok {A B} (r : A + error) (k : A → prog request (B + error)) : (∀ a, asks_only reads (k a)) → asks_only reads (ok r k).
Proof. by destruct r; cbn. Qed.

Ltac reading := unfold readings, IMEIQueryCommands; set_solver.

Lemma reads_settings d : asks_only reads (readSettings d).
Proof.
  unfold Provision.readSettings. apply asks_only_bind; [apply reads_imei; repeat constructor; reading|]. intros r. apply reads_ok. intros imei.
  apply asks_only_bind; [apply reads_query; reading|]. intros r1. apply reads_ok. intros ims.
  apply asks_only_bind; [apply asks_only_bind; [apply reads_exec; reading|done]|]. intros r2. apply reads_ok. intros usb.
  apply asks_only_bind; [apply reads_query; reading|]. intros r3. apply reads_ok. intros auto.
  apply asks_only_bind; [apply reads_query; reading|]. intros r4. by apply reads_ok.
Qed.

Lemma reads_capture d desired : asks_only reads (capture unicode_lower unicode_upper opts d desired).
Proof.
  unfold capture. apply asks_only_bind; [unfold managed; by destruct (has_managed opts)|]. intros [m|e]; [|done]. apply asks_only_bind; [apply reads_settings|].
  intros [[[c imei] es]|e]; [|done]. destruct (choose_profile _ _); [|done]. cbv zeta. destruct (negb _); [done|].
  split; [done|]. intros now. split; [done|]. intros [[existing p]|e]; cbn; [destruct (is_earlier imei existing)|destruct (not_found e); [|done]];
    (split; [done|]; intros [path|e']; [|done]; by destruct (containsSecret _ _)).
Qed.

Lemma asks_only_exec {A} (P : request → Prop) (p : prog request A) t a : asks_only P p → exec p t a → Forall (λ x, P (x_request x)) t.
Proof.
  revert t. induction p as [b|c k IH]; intros t Hp; cbn; [by intros [-> _]|]. destruct Hp as [Hc Hk].
  intros (r & t' & -> & Hx). constructor; [done|]. by eapply IH.
Qed.

(** A command that writes comes after what was only read. *)
Lemma past_reads (t1 t2 u1 u2 : trace) x : (t1 ++ t2)%list = (u1 ++ x :: u2)%list → Forall (λ x, reads (x_request x)) t1 → ¬ reads (x_request x) →
  ∃ v, u1 = (t1 ++ v)%list.
Proof.
  revert u1. induction t1 as [|y t1 IH]; intros u1 He Hf Hx; [by exists u1|]. inversion_clear Hf as [|? ? Hy Hf'].
  destruct u1 as [|z u1]; cbn in He; injection He as -> He; [done|]. destruct (IH u1 He Hf' Hx) as (v & ->). by exists v.
Qed.

(** What the snapshot [snap] of the modem holds: what was read in [t], or the
    original of an earlier snapshot that the store gave. *)
Definition original_of (t : trace) (d : string) (snap : Snapshot) : Prop :=
  (∃ t1 t2 t3 entries, t = (t1 ++ t2 ++ t3)%list ∧ exec (readSettings d) t2 (inl (s_Original snap, s_IMEI snap, entries))) ∨
  (∃ existing p, mkExchange (LoadSnapshot (s_IMEI snap)) (inl (existing, p)) ∈ t ∧ is_earlier (s_IMEI snap) existing = true ∧ s_Original snap = s_Original existing).

Lemma ensure_saves_first d desired t t1 t2 x out : exec (Ensure unicode_lower unicode_upper opts d desired) t out →
  t = (t1 ++ x :: t2)%list → ¬ reads (x_request x) →
  ∃ snap path, mkExchange (SaveSnapshot snap) (inl path) ∈ t1 ∧ original_of t1 d snap ∧ containsSecret unicode_lower snap = false.
Proof.
  unfold Ensure. intros (u1 & u2 & [res [snap|e]] & -> & H1 & H2)%exec_bind Ht Hx.
  - pose proof (asks_only_exec _ _ _ _ (reads_capture d desired) H1) as Hr. destruct (past_reads _ _ _ _ _ Ht Hr Hx) as (v & ->).
    apply capture_exec in H1 as (c & imei & es & desired' & path & v1 & v2 & v3 & -> & Hread & _ & Hsave & Hi & _ & Hsec & _ & Ho).
    exists snap, path. split; [|split; [|done]]; [set_solver|]. destruct Ho as [Ho|(existing & p & Hl & He & Ho)].
    + left. exists v1, v2, (v3 ++ v)%list, es. rewrite Ho, Hi, !app_assoc. done.
    + right. exists existing, p. rewrite Hi. split_and!; [set_solver|done|done].
  - destruct H2 as [-> ->]. rewrite app_nil_r in Ht. pose proof (asks_only_exec _ _ _ _ (reads_capture d desired) H1) as Hr.
    rewrite Ht, Forall_app, Forall_cons in Hr. tauto.
Qed.

Lemma ensure_result d desired t res : exec (Ensure unicode_lower unicode_upper opts d desired) t (res, None) →
  ∃ snap path c entries desired', mkExchange (SaveSnapshot snap) (inl path) ∈ t ∧
    (∃ t1 t2 t3, t = (t1 ++ t2 ++ t3)%list ∧ exec (readSettings d) t2 (inl (c, s_IMEI snap, entries))) ∧
    asked desired entries desired' ∧ Target res = overlayDesired c desired' ∧ just_read (DeviceID res) (s_IMEI snap) (Current res) t ∧ agrees (Current res) (Target res) ∧
    Verified res = true ∧ OK res = true.
Proof.
  unfold Ensure. intros (t1 & t2 & [r0 [snap|e]] & -> & H1 & H2)%exec_bind; [|by destruct H2 as [_ [=]]].
  apply apply_exec in H2 as (Hread & Hagree & Hv & Hok & HT & HO).
  apply capture_exec in H1 as (c & imei & es & desired' & path & v1 & v2 & v3 & -> & Hfirst & Hask & Hsave & Hi & Htar & _).
  exists snap, path, c, es, desired'. rewrite HT. split_and!; [set_solver| |done|done|by apply just_read_app|done|done|done].
  exists v1, v2, (v3 ++ t2)%list. rewrite Hi, !app_assoc. done.
Qed.

(** C40: Whatever the modem and the store answer: every command of [Ensure] that is
    not a query comes after a snapshot was saved whose original settings are those
    read from the modem, or those of an earlier snapshot of the same modem, so that
    [Restore] can find them.  [Ensure] reports success only when the settings that
    it read last, from the modem with the IMEI of the snapshot after every write
    and restart, agree with the target: what the caller desires, with the profile
    of the operator, laid over what was read first. *)
Theorem provisioning_recorded d desired t out : exec (Ensure unicode_lower unicode_upper opts d desired) t out →
  (∀ t1 x t2, t = (t1 ++ x :: t2)%list → ¬ reads (x_request x) →
    ∃ snap path, mkExchange (SaveSnapshot snap) (inl path) ∈ t1 ∧ original_of t1 d snap ∧ containsSecret unicode_lower snap = false) ∧
  (out.2 = None →
    ∃ snap path c entries desired', mkExchange (SaveSnapshot snap) (inl path) ∈ t ∧
      (∃ t1 t2 t3, t = (t1 ++ t2 ++ t3)%list ∧ exec (readSettings d) t2 (inl (c, s_IMEI snap, entries))) ∧
      asked desired entries desired' ∧ Target out.1 = overlayDesired c desired' ∧
      just_read (DeviceID out.1) (s_IMEI snap) (Current out.1) t ∧ agrees (Current out.1) (Target out.1) ∧ Verified out.1 = true ∧ OK out.1 = true).
Proof.
  intros Hx. split.
  - intros t1 x t2 Ht Hw. by eapply ensure_saves_first.
  - destruct out as [res err]. cbn [fst snd]. intros ->. by eapply ensure_result.
Qed.

(** C0: [Restore] reports success only when the store held a snapshot of this
    very modem and the settings that it read last agree with the original ones of
    that snapshot; a modem whose profiles are managed elsewhere keeps those that
    it has. *)
Theorem restore_result d t res : exec (Restore unicode_lower unicode_upper opts d) t (res, None) →
  ∃ snap path c is_managed, mkExchange (LoadSnapshot (s_IMEI snap)) (inl (snap, path)) ∈ t ∧
    sameIdentity unicode_lower unicode_upper (s_VID snap) (s_PID snap) (VID c) (PID c) = true ∧
    let original := if (is_managed : bool) then keep_profile c (s_Original snap) else s_Original snap in
    just_read (DeviceID res) (s_IMEI snap) (Current res) t ∧ agrees (Current res) original ∧
    sameIdentity unicode_lower unicode_upper (VID (Current res)) (PID (Current res)) (VID original) (PID original) = true ∧ Restored res = true.
Proof.
  unfold Restore. intros (t1 & t2 & [[[c imei] es]|e] & -> & H1 & H2)%good_exec; [|by destruct H2 as [[=] _]].
  apply good_exec in H2 as (t3 & t4 & [[snap path]|e] & -> & H3 & H4); [|by destruct H4 as [[=] _]]. cbv zeta in H4.
  apply exec_bind in H4 as (t5 & t6 & [m|e] & -> & H5 & H6); [|by destruct H6 as [_ [=]]].
  destruct (bool_decide (s_IMEI snap ≠ imei)) eqn:Hi; [by destruct H6 as [_ [=]]|]. apply bool_decide_eq_false, dec_stable in Hi. subst imei.
  destruct (negb _) eqn:Hid; [by destruct H6 as [_ [=]]|]. apply negb_false_iff in Hid.
  apply exec_bind in H6 as (t7 & t8 & [r1 [e|]] & -> & H7 & H8); [by destruct H8 as [_ [=]]|].
  apply apply_exec in H7 as (Hread & Hagree & Hv & Hok & HT & HO). cbn [s_IMEI s_Target s_Original] in *.
  destruct (settingsEqual _ _ _ _) eqn:Heq; cbn in H8; [|by destruct H8 as [_ [=]]]. destruct H8 as [-> [= ->]].
  exists snap, path, c, m. destruct H3 as (r & t' & -> & -> & [= ->]). destruct r1. cbn in *. split_and!; try done; [set_solver| |].
  - rewrite app_nil_r. apply just_read_app, (just_read_app _ _ _ [_]), just_read_app. done.
  - unfold settingsEqual in Heq. by apply andb_prop in Heq as [_ Heq].
Qed.
End Results.

(** ** A modem with two profiles *)

(** [b_usb]: it answers about its USB settings; [b_uac]: the sound card as it is,
    [b_next]: as it will be after a restart; the store. *)
Record modem := mkModem {
  b_ims : bool; b_volte : bool; b_usb : bool; b_uac : bool; b_next : bool; b_auto : bool; b_profile : string; b_store : option Snapshot }.

Definition demo_imei : string := "860000000000001".
Definition usb_fields (uac : bool) : list string := ["0x2C7C"; "0x0125"; "1"; digit uac].
Definition modem_answer (m : modem) (command : string) : string :=
  let on := MbnProofs.bit in
  if bool_decide (command ∈ IMEIQueryCommands) then demo_imei
  else if bool_decide (command = IMSQueryCommand) then ("+QCFG: " ++ Mbn.quoted_text "ims" ++ "," ++ on (b_ims m) ++ "," ++ on (b_volte m))%string
  else if bool_decide (command = USBConfigQueryCommand) then
    if b_usb m then ("+QCFG: " ++ Mbn.quoted_text "usbcfg" ++ "," ++ String.concat "," (usb_fields (b_uac m)))%string else "ERROR"
  else if bool_decide (command = MBNAutoSelQueryCommand) then ("+QMBNCFG: " ++ Mbn.quoted_text "AutoSel" ++ "," ++ on (b_auto m))%string
  else if bool_decide (command = MBNListQueryCommand) then
    (MbnProofs.list_line "0" "A" (bool_decide (b_profile m = "A")) ++ String lf (MbnProofs.list_line "1" "B" (bool_decide (b_profile m = "B"))))%string
  else "OK".
Definition after_command (m : modem) (command : string) : modem :=
  let '(mkModem ims volte usb uac next auto name store) := m in
  if bool_decide (command = part (IMSSetCommands true true) 0) then mkModem true true usb uac next auto name store
  else if bool_decide (command = part (IMSSetCommands false false) 0) then mkModem false false usb uac next auto name store
  else if bool_decide (command = USBConfigSetCommand (usb_fields true)) then mkModem ims volte usb uac true auto name store
  else if bool_decide (command = USBConfigSetCommand (usb_fields false)) then mkModem ims volte usb uac false auto name store
  else if bool_decide (command = MBNAutoSelSetCommand true) then mkModem ims volte usb uac next true name store
  else if bool_decide (command = MBNAutoSelSetCommand false) then mkModem ims volte usb uac next false name store
  else if bool_decide (command = MBNSelectCommand "A") then mkModem ims volte usb uac next auto "A" store
  else if bool_decide (command = MBNSelectCommand "B") then mkModem ims volte usb uac next auto "B" store
  else if bool_decide (command = "AT+CFUN=1,1") then mkModem ims volte usb next next auto name store
  else m.
Definition keeping (s : Snapshot) (m : modem) : modem :=
  let '(mkModem ims volte usb uac next auto name _) := m in mkModem ims volte usb uac next auto name (Some s).

Definition simulate (m : modem) (c : request) : answer c * modem :=
  match c return answer c * modem with
  | ExecuteAT _ command _ => ((modem_answer m command, None), after_command m command)
  | Pause => (tt, m)
  | SaveSnapshot s => (inl "path", keeping s m)
  | LoadSnapshot _ => (match b_store m with Some s => inl (s, "path") | None => inr ErrSnapshotNotFound end, m)
  | PathFor _ => (Some "path", m)
  | MBNManaged _ => (inl false, m)
  | WaitByIMEI _ _ => (inl "usb1", m)
  | Now => ("now", m)
  end.

Definition demo_options : options := mkOptions true 0 true false.
Definition demo_desired : Desired := mkDesired (Some true) (Some true) (Some true) (Some false) (Some "B") "" "".
Definition new_modem (usb : bool) : modem := mkModem false false usb false false true "A" None.
Definition demo_ensure (m : modem) := run_on simulate (Ensure id id demo_options "usb1" demo_desired) m.
Definition demo_restore (m : modem) := run_on simulate (Restore id id demo_options "usb1") m.
Definition settled (m : modem) : bool * bool * bool * bool * string := (b_ims m, b_volte m, b_uac m, b_auto m, b_profile m).

(** The modem is set up and restarted; the first write, of the settings of IMS,
    comes after nine requests. *)
Lemma provisioning_recorded_witness :
  let r := demo_ensure (new_modem true) in let t := r.1.1 in
  r.1.2.2 = None ∧ settled r.2 = (true, true, true, false, "B") ∧ agrees (Current r.1.2.1) (Target r.1.2.1) ∧
  (∃ imei, just_read id id "usb1" imei (Current r.1.2.1) t) ∧
  ∃ x, t = (take 9 t ++ x :: drop 10 t)%list ∧ x_request x = ExecuteAT "usb1" (part (IMSSetCommands true true) 0) defaultATTimeout ∧
  ∃ snap path, mkExchange (SaveSnapshot snap) (inl path) ∈ take 9 t ∧ original_of id id (take 9 t) "usb1" snap.
Proof.
  intros r t. assert (Hn : r.1.2.2 = None) by (vm_compute; reflexivity). split; [exact Hn|]. split; [vm_compute; reflexivity|].
  destruct (provisioning_recorded id id demo_options "usb1" demo_desired t r.1.2 (run_exec simulate _ (new_modem true))) as [Hw Hok].
  destruct (Hok Hn) as (snap & path & c & es & d & _ & _ & _ & _ & Hread & Hagree & _). split; [exact Hagree|].
  split; [exists (s_IMEI snap); exact Hread|]. clear Hok Hread Hagree snap path c es d.
  exists (List.nth 9 t (mkExchange Pause tt)). assert (Hsplit : t = (take 9 t ++ List.nth 9 t (mkExchange Pause tt) :: drop 10 t)%list) by (vm_compute; reflexivity).
  assert (Hreq : x_request (List.nth 9 t (mkExchange Pause tt)) = ExecuteAT "usb1" (part (IMSSetCommands true true) 0) defaultATTimeout) by (vm_compute; reflexivity).
  split; [exact Hsplit|]. split; [exact Hreq|].
  destruct (Hw _ _ _ Hsplit) as (snap & path & Hs & Ho & _).
  { rewrite Hreq. assert (Hb : bool_decide (part (IMSSetCommands true true) 0 ∈ readings) = false) by (vm_compute; reflexivity). exact (bool_decide_eq_false_1 _ Hb). }
  exists snap, path. split; [exact Hs|exact Ho].
Defined.

(** What was set up is undone, in two runs: the first does not let the modem
    choose its profile again, because it selects the profile, and fails. *)
Theorem restore_twice :
  let m0 := new_modem true in let m1 := (demo_ensure m0).2 in let r1 := demo_restore m1 in let r2 := demo_restore r1.2 in
  settled m0 = (false, false, false, true, "A") ∧ settled m1 = (true, true, true, false, "B") ∧
  r1.1.2.2 = Some (StageError StageRestoreVerify (StageError StageVerify ErrFieldDrift)) ∧ Drift r1.1.2.1 = ["mbn_autosel"] ∧
  settled r1.2 = (false, false, false, false, "A") ∧ r2.1.2.2 = None ∧ settled r2.2 = settled m0.
Proof. by vm_compute. Qed.

(** A modem that does not answer about its USB settings: the second run saves
    what the first one wrote as the original. *)
Theorem original_lost :
  let m0 := new_modem false in let m1 := (demo_ensure m0).2 in let m2 := (demo_ensure m1).2 in
  (IMSEnabled ∘ s_Original <$> b_store m1) = Some false ∧ (IMSEnabled ∘ s_Original <$> b_store m2) = Some true ∧
  settled m0 = (false, false, false, true, "A") ∧ settled (demo_restore m2).2 = (true, true, false, false, "B") ∧ (demo_restore m2).1.2.2 = None.
Proof. by vm_compute. Qed.

(** A snapshot with a path of a device in it is refused once it is in the store. *)
Theorem refused_after_saving :
  let r := run_on simulate (Ensure id id demo_options "/dev/ttyUSB2" demo_desired) (new_modem true) in
  r.1.2.2 = Some (StageError StageSnapshot Refused) ∧ (DeviceHint <$> b_store r.2) = Some "/dev/ttyUSB2".
Proof. by vm_compute. Qed.

(** A second run of [Restore]: the modem is as it was at first. *)
Lemma restore_result_witness :
  let m0 := new_modem true in let m2 := (demo_restore (demo_ensure m0).2).2 in let r := demo_restore m2 in
  r.1.2.2 = None ∧ settled r.2 = settled m0 ∧
  ∃ snap path imei original, mkExchange (LoadSnapshot imei) (inl (snap, path)) ∈ r.1.1 ∧ agrees (Current r.1.2.1) original ∧ Restored r.1.2.1 = true.
Proof.
  intros m0 m2 r. assert (Hn : r.1.2 = (r.1.2.1, None)) by (vm_compute; reflexivity). split; [by rewrite Hn|]. split; [vm_compute; reflexivity|].
  pose proof (run_exec simulate (Restore id id demo_options "usb1") m2) as Hx. change (run_on _ _ _) with r in Hx. rewrite Hn in Hx.
  destruct (restore_result id id demo_options "usb1" r.1.1 r.1.2.1 Hx) as (snap & path & c & managed & Hl & _ & _ & Hagree & _ & Hr).
  exists snap, path, (s_IMEI snap), (if managed then keep_profile c (s_Original snap) else s_Original snap). split; [exact Hl|]. split; [exact Hagree|exact Hr].
Defined.
