(* ===== verification/Udev.v ===== *)
(** * Hotplug events (internal/device, udev.go and udev_debounce.go)

    Which events of the kernel are about a modem, and the scheduler that turns
    bursts of them, the waves, into scans of the devices.  A critical section
    under the mutex is a function of the clock and the scheduler.  [act] is the
    scheduler with its clock, its timers, the goroutines of timers that expired
    and have not got the mutex yet, and the goroutine that scans.  The socket is
    not modelled. *)

From Stdlib Require Import Ascii String.
From S2P Require Import Prelude GoText.
From stdpp Require Import strings.

#[local] Open Scope string_scope.
#[local] Open Scope Z_scope.

(** ** Events *)

Inductive udevEventKind := udevEventNone | udevEventAdd | udevEventRemove.
#[global] Instance kind_eq_dec : EqDecision udevEventKind.
Proof. solve_decision. Defined.

Definition parseUdevEventKind (s : string) : udevEventKind :=
  let hasAdd := Contains s "ACTION=add" in
  let hasRemove := Contains s "ACTION=remove" in
  if hasRemove && negb hasAdd then udevEventRemove else if hasAdd && negb hasRemove then udevEventAdd else udevEventNone.

Definition udevEventHasControlPath (s : string) : bool :=
  if Contains s "SUBSYSTEM=usbmisc" && Contains s "cdc-wdm" then true
  else Contains s "SUBSYSTEM=wwan" && (Contains s "qmi" || Contains s "cdc-wdm").

Definition isModemEvent (s : string) : bool :=
  if negb (Contains s "ACTION=add") && negb (Contains s "ACTION=remove") then false
  else if existsb (λ x, Contains s ("SUBSYSTEM=" ++ x)%string) ["usb"; "net"; "tty"; "usbmisc"; "wwan"] then
    if Contains s "SUBSYSTEM=net" && negb (Contains s "wwan") then false
    else negb (Contains s "SUBSYSTEM=tty" && negb (Contains s "ttyUSB"))
  else false.

(** ** The scheduler *)

Definition Millisecond : Z := 1000000.
Definition udevRescanCooldown : Z := 300 * Millisecond.

Record udevDebounceTiming := mkTiming { addQuiet : Z; addMax : Z; removeQuiet : Z; removeMax : Z }.
Definition defaultUdevDebounceTiming : udevDebounceTiming := mkTiming (400 * Millisecond) (1200 * Millisecond) (200 * Millisecond) (600 * Millisecond).
Definition windows (t : udevDebounceTiming) (kind : udevEventKind) : Z * Z :=
  if bool_decide (kind = udevEventRemove) then (removeQuiet t, removeMax t) else (addQuiet t, addMax t).

(** A timer that is running: it expires at [deadline] and fires the wave [t_gen]. *)
Record timer := mkTimer { deadline : Z; t_gen : Z }.

Record udevRescanScheduler := mkScheduler {
  timing : udevDebounceTiming; stopped : bool; waveKind : udevEventKind; waveSawControl : bool; waveGen : Z;
  quietTimer : option timer; maxTimer : option timer; firedAt : option Z; firedKind : udevEventKind; rescanRunning : bool; rescanPending : bool }.
Definition newUdevRescanSchedulerWithTiming (t : udevDebounceTiming) : udevRescanScheduler :=
  mkScheduler t false udevEventNone false 0 None None None udevEventNone false false.
Definition newUdevRescanScheduler : udevRescanScheduler := newUdevRescanSchedulerWithTiming defaultUdevDebounceTiming.

Definition udevSwallowAfterFire (firedAt : option Z) (now : Z) (firedKind incoming : udevEventKind) (incomingControl : bool) : bool :=
  match firedAt with
  | None => false
  | Some at_ =>
      if bool_decide (incoming = udevEventNone) || bool_decide (incoming ≠ firedKind) then false
      else if bool_decide (incoming = udevEventAdd) && incomingControl then false
      else now <? at_ + udevRescanCooldown
  end.

Definition stopWaveLocked (s : udevRescanScheduler) : udevRescanScheduler :=
  let '(mkScheduler t st _ _ g _ _ fa fk rr rp) := s in mkScheduler t st udevEventNone false g None None fa fk rr rp.

Definition startWaveLocked (now : Z) (kind : udevEventKind) (controlReady : bool) (s : udevRescanScheduler) : udevRescanScheduler :=
  let '(mkScheduler t st _ _ g q _ fa fk rr rp) := s in
  let '(quiet, max) := windows t kind in
  let gen := u64 (g + 1) in
  mkScheduler t st kind controlReady gen (if bool_decide (kind = udevEventRemove) || controlReady then Some (mkTimer (now + quiet) gen) else q)
    (Some (mkTimer (now + max) gen)) fa fk rr rp.

Definition resetQuietTimerLocked (now : Z) (kind : udevEventKind) (s : udevRescanScheduler) : udevRescanScheduler :=
  let '(mkScheduler t st k c g _ m fa fk rr rp) := s in
  mkScheduler t st k c g (Some (mkTimer (now + (windows t kind).1) g)) m fa fk rr rp.

Definition saw_control (b : bool) (s : udevRescanScheduler) : udevRescanScheduler :=
  let '(mkScheduler t st k c g q m fa fk rr rp) := s in mkScheduler t st k (c || b) g q m fa fk rr rp.

(** The event is not dropped. *)
Definition accepted (now : Z) (kind : udevEventKind) (controlReady : bool) (s : udevRescanScheduler) : bool :=
  negb (bool_decide (kind = udevEventNone)) && negb (stopped s) && negb (udevSwallowAfterFire (firedAt s) now (firedKind s) kind controlReady).

Definition Schedule (now : Z) (kind : udevEventKind) (controlReady : bool) (s : udevRescanScheduler) : udevRescanScheduler :=
  if negb (accepted now kind controlReady s) then s
  else
    let s := if negb (bool_decide (waveKind s = udevEventNone)) && negb (bool_decide (kind = waveKind s)) then stopWaveLocked s else s in
    if bool_decide (waveKind s = udevEventNone) then startWaveLocked now kind controlReady s
    else
      let s := saw_control controlReady s in
      if bool_decide (kind = udevEventAdd) && negb (waveSawControl s) then s else resetQuietTimerLocked now kind s.

(** The result is [true] when the caller goes on to scan. *)
Definition tryFire (now gen : Z) (s : udevRescanScheduler) : udevRescanScheduler * bool :=
  if stopped s || negb (gen =? waveGen s) || bool_decide (waveKind s = udevEventNone) then (s, false)
  else
    let '(mkScheduler t st _ _ g _ _ _ _ rr rp) := s in
    if rr then (mkScheduler t st udevEventNone false g None None (Some now) (waveKind s) rr true, false)
    else (mkScheduler t st udevEventNone false g None None (Some now) (waveKind s) true rp, true).

(** The section of [runRescans] after a scan: whether it scans again. *)
Definition scanned (s : udevRescanScheduler) : udevRescanScheduler * bool :=
  let '(mkScheduler t st k c g q m fa fk _ rp) := s in
  if st || negb rp then (mkScheduler t st k c g q m fa fk false false, false)
  else (mkScheduler t st k c g q m fa fk (rescanRunning s) false, true).

Definition Stop (s : udevRescanScheduler) : udevRescanScheduler :=
  let '(mkScheduler t _ k c g q m fa fk rr _) := s in stopWaveLocked (mkScheduler t true k c g q m fa fk rr false).

(** What the loop of the watcher does with a payload. *)
Definition on_payload (now : Z) (payload : string) (s : udevRescanScheduler) : udevRescanScheduler :=
  let kind := parseUdevEventKind payload in
  if negb (bool_decide (kind = udevEventNone)) && isModemEvent payload then Schedule now kind (udevEventHasControlPath payload) s else s.

(** ** The scheduler at work *)

(** [calls]: the goroutines of expired timers, by their generation; [scans]: the
    goroutines that scan; [since]: when the wave started; [owed]: an event was
    accepted after the last scan began; [begun]: how many scans began. *)
Record world := mkWorld { clock : Z; sched : udevRescanScheduler; calls : list Z; scans : nat; since : Z; owed : bool; begun : nat }.
Definition start (t : udevDebounceTiming) : world := mkWorld 0 (newUdevRescanSchedulerWithTiming t) [] 0 0 false 0.

Inductive action :=
  | Pass (d : Z)
  | QuietExpires | MaxExpires
  | Event (kind : udevEventKind) (controlReady : bool)
  | Called (gen : Z)
  | Scanned
  | Stopped.

Definition without_quiet (s : udevRescanScheduler) : udevRescanScheduler :=
  let '(mkScheduler t st k c g _ m fa fk rr rp) := s in mkScheduler t st k c g None m fa fk rr rp.
Definition without_max (s : udevRescanScheduler) : udevRescanScheduler :=
  let '(mkScheduler t st k c g q _ fa fk rr rp) := s in mkScheduler t st k c g q None fa fk rr rp.

(** Removing one of the goroutines with a generation. *)
Fixpoint remove_call (gen : Z) (l : list Z) : option (list Z) :=
  match l with
  | [] => None
  | g :: l => if g =? gen then Some l else l' ← remove_call gen l; Some (g :: l')
  end.

(** [None]: the action cannot happen now. *)
Definition act (a : action) (w : world) : option world :=
  let '(mkWorld now s calls scans since owed begun) := w in
  match a with
  | Pass d => if 0 <=? d then Some (mkWorld (now + d) s calls scans since owed begun) else None
  | QuietExpires =>
      t ← quietTimer s;
      if deadline t <=? now then Some (mkWorld now (without_quiet s) (t_gen t :: calls) scans since owed begun) else None
  | MaxExpires =>
      t ← maxTimer s;
      if deadline t <=? now then Some (mkWorld now (without_max s) (t_gen t :: calls) scans since owed begun) else None
  | Event kind c =>
      let s' := Schedule now kind c s in
      Some (mkWorld now s' calls scans (if waveGen s' =? waveGen s then since else now) (owed || accepted now kind c s) begun)
  | Called gen =>
      calls ← remove_call gen calls;
      let '(s, scan) := tryFire now gen s in
      Some (if (scan : bool) then mkWorld now s calls (S scans) since false (S begun) else mkWorld now s calls scans since owed begun)
  | Scanned =>
      match scans with
      | O => None
      | S rest => let '(s, again) := scanned s in
          Some (if (again : bool) then mkWorld now s calls scans since false (S begun) else mkWorld now s calls rest since owed begun)
      end
  | Stopped => Some (mkWorld now (Stop s) calls scans since owed begun)
  end.

Fixpoint acts (l : list action) (w : world) : option world :=
  match l with [] => Some w | a :: l => w ← act a w; acts l w end.
