(* ===== verification/UdevProofs.v ===== *)
(** * Properties of the scheduler of scans

    The invariant of its runs, that an event that was accepted is followed by a
    scan when timers are on time and its wave is not ended by an event of the
    other kind, and two runs in which devices are missed. *)

From Stdlib Require Import Ascii String.
From S2P Require Import Prelude GoText Udev.
From stdpp Require Import strings.

#[local] Open Scope string_scope.
#[local] Open Scope Z_scope.

(** ** The invariant *)

(** The wave has the timer of its cap, or a goroutine that fires it. *)
Definition capped (w : world) : Prop :=
  let s := sched w in
  (∃ t, maxTimer s = Some t ∧ t_gen t = waveGen s ∧ deadline t = since w + (windows (timing s) (waveKind s)).2) ∨ waveGen s ∈ calls w.

Record invariant (t0 : udevDebounceTiming) (w : world) : Prop := mkInvariant {
  i_timing : timing (sched w) = t0;
  i_scans : scans w = if rescanRunning (sched w) then 1%nat else O;
  i_pending : rescanPending (sched w) = true → rescanRunning (sched w) = true ∧ stopped (sched w) = false;
  i_idle : waveKind (sched w) = udevEventNone → quietTimer (sched w) = None ∧ maxTimer (sched w) = None;
  i_wave : waveKind (sched w) ≠ udevEventNone → stopped (sched w) = false ∧ capped w;
  i_quiet : ∀ t, quietTimer (sched w) = Some t → t_gen t = waveGen (sched w) ∧ (waveKind (sched w) = udevEventAdd → waveSawControl (sched w) = true);
  i_owed : owed w = true → stopped (sched w) = true ∨ waveKind (sched w) ≠ udevEventNone ∨ rescanPending (sched w) = true }.

Lemma invariant_start t0 : invariant t0 (start t0).
Proof. by split. Qed.

(** Removing one call keeps the others. *)
Lemma remove_call_spec gen l l' g : remove_call gen l = Some l' → g ∈ l → g = gen ∨ g ∈ l'.
Proof.
  revert l'. induction l as [|x l IH]; intros l' Hr Hin; [done|]. cbn in Hr. destruct (x =? gen) eqn:E.
  - injection Hr as <-. apply Z.eqb_eq in E. subst x. by apply elem_of_cons in Hin.
  - destruct (remove_call gen l) as [l1|]; [|done]. injection Hr as <-. apply elem_of_cons in Hin as [->|Hin]; [right; by left|].
    destruct (IH l1 eq_refl Hin); [by left|right; by right].
Qed.

Lemma remove_call_some gen l : gen ∈ l → ∃ l', remove_call gen l = Some l'.
Proof.
  induction l as [|x l IH]; intros Hin; [by apply not_elem_of_nil in Hin|]. cbn. destruct (x =? gen) eqn:E; [by eexists|].
  apply elem_of_cons in Hin as [->|Hin]; [by rewrite Z.eqb_refl in E|]. destruct (IH Hin) as (l' & ->). by eexists.
Qed.

(** An event either joins the wave or starts one. *)
Lemma joined now kind c s : accepted now kind c s = true → waveKind s = kind →
  ∃ q, Schedule now kind c s = mkScheduler (timing s) (stopped s) kind (waveSawControl s || c) (waveGen s) q (maxTimer s) (firedAt s) (firedKind s) (rescanRunning s) (rescanPending s) ∧
    ∀ t, q = Some t → quietTimer s = Some t ∨ t_gen t = waveGen s ∧ (kind = udevEventAdd → (waveSawControl s || c) = true).
Proof.
  intros Ha Hk. unfold Schedule. rewrite Ha. cbn [negb]. assert (Hn : kind ≠ udevEventNone).
  { intros ->. by unfold accepted in Ha. }
  rewrite Hk, !(bool_decide_false _ Hn), (bool_decide_true _ (eq_refl kind)). cbn [negb andb]. rewrite Hk, (bool_decide_false _ Hn).
  destruct s as [t st k sc g q m fa fk rr rp]. cbn in *. subst k. destruct (bool_decide (kind = udevEventAdd) && negb (sc || c)) eqn:E.
  - exists q. split; [done|]. auto.
  - eexists. split; [done|]. intros ? [= <-]. right. split; [done|]. intros ->. by apply negb_false_iff in E.
Qed.

Lemma started now kind c s : accepted now kind c s = true → waveKind s ≠ kind → quietTimer s = None ∨ waveKind s ≠ udevEventNone →
  let gen := u64 (waveGen s + 1) in
  Schedule now kind c s =
    mkScheduler (timing s) (stopped s) kind c gen (if bool_decide (kind = udevEventRemove) || c then Some (mkTimer (now + (windows (timing s) kind).1) gen) else None)
      (Some (mkTimer (now + (windows (timing s) kind).2) gen)) (firedAt s) (firedKind s) (rescanRunning s) (rescanPending s).
Proof.
  intros Ha Hk Hq. unfold Schedule. rewrite Ha. cbn [negb]. assert (Hk' : kind ≠ waveKind s) by congruence. rewrite (bool_decide_false _ Hk').
  destruct s as [t st k sc g q m fa fk rr rp]. cbn in *. destruct (bool_decide (k = udevEventNone)) eqn:E; cbn.
  - rewrite E. apply bool_decide_eq_true in E. subst k. destruct Hq as [->|Hq]; [|done]. by destruct (windows t kind).
  - by destruct (windows t kind).
Qed.

Lemma next_gen g : (u64 (g + 1) =? g) = false.
Proof.
  apply Z.eqb_neq. unfold u64. intros He. pose proof (Z.div_mod (g + 1) (2 ^ 64)) as Hd. rewrite He in Hd. nia.
Qed.

Lemma event_invariant t0 w kind c w' : invariant t0 w → act (Event kind c) w = Some w' → invariant t0 w'.
Proof.
  destruct w as [now s calls sc si ow bg]. intros [H1 H2 H3 H4 H5 H6 H7] [= <-]. cbn in *.
  destruct (accepted now kind c s) eqn:Ha; [|unfold Schedule; rewrite Ha; cbn; rewrite Z.eqb_refl, orb_false_r; by split].
  assert (Hn : kind ≠ udevEventNone) by (intros ->; by unfold accepted in Ha).
  assert (Hst : stopped s = false).
  { unfold accepted in Ha. apply andb_prop in Ha as [Ha _]. apply andb_prop in Ha as [_ Ha]. by apply negb_true_iff in Ha. }
  destruct (decide (waveKind s = kind)) as [Hk|Hk].
  - destruct (joined now kind c s Ha Hk) as (q & -> & Hq). cbn. rewrite Z.eqb_refl. assert (Hw : waveKind s ≠ udevEventNone) by congruence.
    destruct (H5 Hw) as [_ Hc]. split; cbn; auto; [intros E; congruence| |].
    + intros _. split; [done|]. unfold capped in *. cbn in *. by rewrite <-Hk.
    + intros t Ht. destruct (Hq t Ht) as [Hq'|Hq']; [|done]. destruct (H6 t Hq') as [G1 G2]. split; [done|]. intros ->. by rewrite (G2 Hk).
  - assert (Hq : quietTimer s = None ∨ waveKind s ≠ udevEventNone).
    { destruct (decide (waveKind s = udevEventNone)) as [E|E]; [left; by apply H4|by right]. }
    rewrite (started now kind c s Ha Hk Hq). cbn. rewrite next_gen. split; cbn; auto; [intros E; congruence| |].
    + intros _. split; [done|]. left. by eexists.
    + intros t Ht. destruct (bool_decide _ || c) eqn:E; [|done]. injection Ht as <-. split; [done|]. intros ->. exact E.
Qed.

Lemma call_invariant t0 w gen w' : invariant t0 w → act (Called gen) w = Some w' → invariant t0 w'.
Proof.
  destruct w as [now s calls sc si ow bg]. intros [H1 H2 H3 H4 H5 H6 H7] Hx. cbn in Hx. destruct (remove_call gen calls) as [calls'|] eqn:Hr; [|done]. cbn in Hx.
  unfold tryFire in Hx. destruct (stopped s || negb (gen =? waveGen s) || bool_decide (waveKind s = udevEventNone)) eqn:E.
  - injection Hx as <-. split; cbn in *; auto. intros Hw. destruct (H5 Hw) as [Hst [Hc|Hc]]; (split; [done|]); [by left|].
    rewrite Hst, (bool_decide_false _ Hw), orb_false_r in E. cbn in E. apply negb_true_iff, Z.eqb_neq in E.
    destruct (remove_call_spec gen calls calls' (waveGen s) Hr Hc) as [G|G]; [congruence|by right].
  - apply orb_false_iff in E as [[E1 E2]%orb_false_iff E3]. destruct s as [t st k co g q m fa fk rr rp]. cbn in *. subst st.
    destruct rr; injection Hx as <-; split; cbn in *; auto; try done.
Qed.

Lemma step_invariant t0 w a w' : invariant t0 w → act a w = Some w' → invariant t0 w'.
Proof.
  intros Hi Hx. destruct a as [d| | |kind c|gen| |]; [| | |by eapply event_invariant|by eapply call_invariant| |];
    destruct w as [now s calls sc si ow bg]; destruct Hi as [H1 H2 H3 H4 H5 H6 H7]; cbn in *.
  - destruct (0 <=? d); [|done]. injection Hx as <-. by split.
  - destruct s as [t st k co g [q|] m fa fk rr rp]; [|done]. cbn in *. destruct (deadline q <=? now); [|done]. injection Hx as <-.
    split; cbn in *; auto; [intros Hk; by destruct (H4 Hk)| |done]. intros Hk. destruct (H5 Hk) as [Hs [Hc|Hc]]; (split; [done|]); [by left|right; by right].
  - destruct s as [t st k co g q [m|] fa fk rr rp]; [|done]. cbn in *. destruct (deadline m <=? now); [|done]. injection Hx as <-.
    split; cbn in *; auto; [intros Hk; by destruct (H4 Hk)|]. intros Hk. destruct (H5 Hk) as [Hs [(t' & [= <-] & Hg & _)|Hc]]; (split; [done|]); right; cbn in *; [rewrite Hg; by left|by right].
  - destruct sc as [|sc]; [done|]. destruct s as [t st k co g q m fa fk rr rp]. cbn in *. destruct rr; [|done]. injection H2 as ->.
    destruct (st || negb rp) eqn:E; injection Hx as <-; split; cbn in *; auto; try done.
    intros Ho. destruct (H7 Ho) as [?|[?|?]]; auto. apply orb_true_iff in E as [E|E]; [by left|]. subst rp. done.
  - injection Hx as <-. destruct s as [t st k co g q m fa fk rr rp]. split; cbn in *; auto; done.
Qed.

Lemma acts_invariant t0 l w w' : invariant t0 w → acts l w = Some w' → invariant t0 w'.
Proof.
  revert w. induction l as [|a l IH]; intros w Hi Hx; cbn in Hx; [by injection Hx as <-|].
  destruct (act a w) as [w1|] eqn:E; [|done]. cbn in Hx. eapply IH; [|exact Hx]. by eapply step_invariant.
Qed.

(** ** An event that was accepted is followed by a scan *)

(** What there is at this moment for an event that waits for a scan: another
    scan that follows the one that runs; or the goroutine of the wave, which
    begins one or leaves one to follow; or the timer of the cap of the wave. *)
Definition arranged (w : world) : Prop :=
  (rescanPending (sched w) = true ∧ ∃ w', act Scanned w = Some w' ∧ begun w' = S (begun w) ∧ owed w' = false) ∨
  (∃ w', act (Called (waveGen (sched w))) w = Some w' ∧ (begun w' = S (begun w) ∧ owed w' = false ∨ rescanPending (sched w') = true)) ∨
  (∃ t, maxTimer (sched w) = Some t ∧ t_gen t = waveGen (sched w) ∧ deadline t = since w + (windows (timing (sched w)) (waveKind (sched w))).2).

(** The timers that run. *)
Definition timers (w : world) : list timer := (option_list (quietTimer (sched w)) ++ option_list (maxTimer (sched w)))%list.

(** What happens in a run where no timer is later than [lag], no time passes
    while the goroutine of a timer waits for the mutex, the scheduler is not
    stopped, and no event of the other kind ends a wave. *)
Definition undisturbed (lag : Z) (a : action) (w : world) : bool :=
  match a with
  | Pass d => (d =? 0) || bool_decide (calls w = []) && forallb (λ t, clock w + d <=? deadline t + lag) (timers w)
  | Event kind c => negb (accepted (clock w) kind c (sched w)) || bool_decide (waveKind (sched w) = udevEventNone) || bool_decide (kind = waveKind (sched w))
  | Stopped => false
  | _ => true
  end.
Fixpoint timely (lag : Z) (l : list action) (w : world) : option world :=
  match l with [] => Some w | a :: l => if undisturbed lag a w then w ← act a w; timely lag l w else None end.

(** The end of the cap of the wave. *)
Definition cap (w : world) : Z := since w + (windows (timing (sched w)) (waveKind (sched w))).2.

(** A scan began after the first [n], or another follows the one that runs, or
    the wave lasts and it is not later than [until]. *)
Definition waits (lag : Z) (n : nat) (until : Z) (w : world) : Prop :=
  (n ≤ begun w)%nat ∧
  ((n < begun w)%nat ∨ rescanPending (sched w) = true ∨ waveKind (sched w) ≠ udevEventNone ∧ clock w ≤ until ∧ cap w + lag ≤ until).

Lemma pending_scans t0 w : invariant t0 w → rescanPending (sched w) = true → ∃ w', act Scanned w = Some w' ∧ begun w' = S (begun w) ∧ owed w' = false.
Proof.
  destruct w as [now s calls sc si ow bg]. intros [_ H2 H3 _ _ _ _] Hp. destruct (H3 Hp) as [Hr Hs]. cbn in *. rewrite Hr in H2. subst sc.
  destruct s as [t st k co g q m fa fk rr rp]. cbn in *. subst. cbn. by eexists.
Qed.

Lemma call_scans w : waveGen (sched w) ∈ calls w → stopped (sched w) = false → waveKind (sched w) ≠ udevEventNone →
  ∃ w', act (Called (waveGen (sched w))) w = Some w' ∧ (begun w' = S (begun w) ∧ owed w' = false ∨ rescanPending (sched w') = true).
Proof.
  destruct w as [now s calls sc si ow bg]. cbn. intros Hc Hs Hk. destruct (remove_call_some _ _ Hc) as (calls' & ->). cbn. unfold tryFire.
  rewrite Hs, Z.eqb_refl, (bool_decide_false _ Hk). cbn. destruct s as [t st k co g q m fa fk [] rp]; cbn; eexists; (split; [reflexivity|]); auto.
Qed.

Lemma waits_event lag n until t0 w kind c w' :
  invariant t0 w → undisturbed lag (Event kind c) w = true → act (Event kind c) w = Some w' → waits lag n until w → waits lag n until w'.
Proof.
  destruct w as [now s calls sc si ow bg]. intros Hi Hu [= <-] [Hn Hw]. cbn in *. split; [done|]. cbn. destruct Hw as [Hw|[Hw|(Hk & Hc & Hl)]]; [by left| |].
  - right. left. cbn. unfold Schedule. destruct (accepted now kind c s); [|done]. cbn [negb].
    destruct s as [t st k co g q m fa fk rr rp]. cbn in *. subst rp. destruct (negb _ && negb _); cbn; destruct (windows t kind);
      (destruct (bool_decide _); [done|]); cbn; by destruct (_ && _).
  - right. right. unfold cap in *. cbn in *. rewrite (bool_decide_false _ Hk), orb_false_r in Hu. destruct (accepted now kind c s) eqn:Ha.
    + cbn in Hu. apply bool_decide_eq_true in Hu. destruct (joined now kind c s Ha (eq_sym Hu)) as (q & -> & _). cbn. rewrite Z.eqb_refl. subst kind. auto.
    + unfold Schedule. rewrite Ha. cbn. rewrite Z.eqb_refl. auto.
Qed.

Lemma waits_pass lag n until t0 w d w' :
  invariant t0 w → undisturbed lag (Pass d) w = true → act (Pass d) w = Some w' → waits lag n until w → waits lag n until w'.
Proof.
  intros Hi Hu Hx [Hn Hw]. assert (Hk' : waveKind (sched w) ≠ udevEventNone → d = 0 ∨ clock w + d ≤ cap w + lag).
  { intros Hk. unfold undisturbed in Hu. apply orb_true_iff in Hu as [Hu|[Hu1 Hu2]%andb_prop]; [left; lia|right]. apply bool_decide_eq_true in Hu1.
    destruct (i_wave _ _ Hi Hk) as [_ [(t & Ht & _ & Hd)|Hc]]; [|rewrite Hu1 in Hc; by apply not_elem_of_nil in Hc].
    unfold timers in Hu2. rewrite forallb_app, Ht in Hu2. cbn in Hu2. apply andb_prop in Hu2 as [_ Hu2]. rewrite andb_true_r in Hu2. unfold cap. lia. }
  destruct w as [now s calls sc si ow bg]. unfold cap in *. cbn in *. destruct (0 <=? d); [|done]. injection Hx as <-. split; [done|]. cbn.
  destruct Hw as [Hw|[Hw|(Hk & Hc & Hl)]]; [by left|by right; left|]. right. right. split_and!; [done| |done]. destruct (Hk' Hk); lia.
Qed.

Lemma waits_step lag n until t0 w a w' :
  invariant t0 w → undisturbed lag a w = true → act a w = Some w' → waits lag n until w → waits lag n until w'.
Proof.
  intros Hi Hu Hx Hw. destruct a as [d| | |kind c|gen| |]; [by eapply waits_pass| | |by eapply waits_event| | |done];
    destruct Hw as [Hn Hw]; destruct w as [now [t st k co g q m fa fk rr rp] calls sc si ow bg]; unfold waits, cap in *; cbn in *.
  - destruct q as [q|]; [|done]. cbn in Hx. destruct (deadline q <=? now); [|done]. by injection Hx as <-.
  - destruct m as [m|]; [|done]. cbn in Hx. destruct (deadline m <=? now); [|done]. by injection Hx as <-.
  - destruct (remove_call gen calls) as [calls'|]; [|done]. cbn in Hx. unfold tryFire in Hx. cbn in Hx.
    destruct (st || negb (gen =? g) || bool_decide (k = udevEventNone)); [by injection Hx as <-|]. destruct rr; injection Hx as <-; cbn; auto with lia.
  - destruct sc as [|sc]; [done|]. destruct (st || negb rp) eqn:E; injection Hx as <-; cbn; [|auto with lia].
    destruct Hw as [Hw|[->|Hw]]; auto. pose proof (proj2 (i_pending _ _ Hi eq_refl)) as Hs. cbn in Hs. by subst st.
Qed.

Lemma timely_waits lag n until t0 l w w' : invariant t0 w → timely lag l w = Some w' → waits lag n until w → invariant t0 w' ∧ waits lag n until w'.
Proof.
  revert w. induction l as [|a l IH]; intros w Hi Hx Hw; cbn in Hx; [by injection Hx as <-|]. destruct (undisturbed lag a w) eqn:Hu; [|done].
  destruct (act a w) as [w1|] eqn:E; [|done]. cbn in Hx. eapply IH; [|exact Hx|]; [by eapply step_invariant|by eapply waits_step].
Qed.

Lemma owed_is_scanned t0 lag l w w' : invariant t0 w → owed w = true → stopped (sched w) = false →
  timely lag l w = Some w' → clock w < clock w' → cap w + lag < clock w' →
  (begun w < begun w')%nat ∨ rescanPending (sched w') = true ∧ ∃ w'', act Scanned w' = Some w'' ∧ begun w'' = S (begun w') ∧ owed w'' = false.
Proof.
  intros Hi Ho Hs Hx Hc1 Hc2. destruct (timely_waits lag (begun w) (clock w `max` (cap w + lag)) t0 l w w' Hi Hx) as [Hi' [_ [Hw|[Hw|(_ & Hw & _)]]]].
  - split; [done|]. right. destruct (i_owed _ _ Hi Ho) as [Hs'|[Hk|Hp]]; [congruence|right; split; [done|lia]|by left].
  - by left.
  - right. split; [done|]. by eapply pending_scans.
  - lia.
Qed.

(** C33: However events, timers, their goroutines and scans interleave: at most one
    scan runs at a time.  For an event that was accepted and not followed by a
    scan yet there is, unless the scheduler is stopped, a scan arranged to follow
    the one that runs, or the goroutine of the wave, or the timer of its cap, which
    does not move while the wave lasts.  And it is scanned: when from then on no
    timer is later than a bound, time does not pass while a goroutine waits for
    the mutex, the scheduler is not stopped and no event of the other kind ends a
    wave, then by the end of the cap plus that bound a scan has begun, or begins
    at the end of the one that runs.  (An event of the other kind ends the wave
    together with its cap, and can put the scan off for ever: [scan_put_off].)  An
    event is dropped only after a scan that the same kind of event began less than
    300 ms ago, and never when it adds a control path; without a control path a
    wave of additions waits for the cap. *)
Theorem scan_owed t0 l w : acts l (start t0) = Some w →
  (scans w ≤ 1)%nat ∧ (owed w = true → stopped (sched w) = true ∨ arranged w) ∧
  (∀ lag l' w', owed w = true → stopped (sched w) = false → timely lag l' w = Some w' → clock w < clock w' → cap w + lag < clock w' →
    (begun w < begun w')%nat ∨ rescanPending (sched w') = true ∧ ∃ w'', act Scanned w' = Some w'' ∧ begun w'' = S (begun w') ∧ owed w'' = false) ∧
  (∀ kind c, kind ≠ udevEventNone → accepted (clock w) kind c (sched w) = false →
    stopped (sched w) = true ∨ ∃ t, firedAt (sched w) = Some t ∧ clock w < t + udevRescanCooldown ∧ firedKind (sched w) = kind ∧ (kind = udevEventAdd → c = false)) ∧
  (waveKind (sched w) = udevEventAdd → waveSawControl (sched w) = false → quietTimer (sched w) = None).
Proof.
  intros Hx. pose proof (acts_invariant t0 _ _ _ (invariant_start t0) Hx) as Hi. split_and!.
  - rewrite (i_scans _ _ Hi). destruct (rescanRunning _); lia.
  - intros Ho. destruct (i_owed _ _ Hi Ho) as [Hs|[Hk|Hp]]; [by left| |].
    + destruct (i_wave _ _ Hi Hk) as [Hs [Hc|Hc]]; right; right; [by right|left]. by apply call_scans.
    + right. left. split; [done|]. by eapply pending_scans.
  - intros. by eapply owed_is_scanned.
  - intros kind c Hn Ha. unfold accepted in Ha. rewrite (bool_decide_false _ Hn) in Ha. cbn in Ha. destruct (stopped (sched w)); [by left|]. cbn in Ha.
    apply negb_false_iff in Ha. unfold udevSwallowAfterFire in Ha. destruct (firedAt (sched w)) as [t|]; [|done]. rewrite (bool_decide_false _ Hn) in Ha. cbn in Ha.
    destruct (bool_decide (kind ≠ firedKind (sched w))) eqn:Hf; [done|]. apply bool_decide_eq_false, dec_stable in Hf.
    destruct (bool_decide (kind = udevEventAdd) && c) eqn:E; [done|]. right. exists t. split_and!; [done|by apply Z.ltb_lt|done|].
    intros ->. rewrite (bool_decide_true _ (eq_refl udevEventAdd)) in E. exact E.
  - intros Hk Hc. destruct (quietTimer (sched w)) as [t|] eqn:Hq; [|done]. destruct (i_quiet _ _ Hi t Hq) as [_ Hs]. by rewrite (Hs Hk) in Hc.
Qed.

(** ** Two runs *)

(** A modem is plugged in: its tty comes first and its control path 100 ms later;
    the scan begins 400 ms after that. *)
Definition plugged : list action :=
  [Event udevEventAdd false; Pass (100 * Millisecond); Event udevEventAdd true; Pass (400 * Millisecond); QuietExpires; Called 1].

Lemma scan_owed_witness :
  ∃ w w', acts (take 3 plugged) (start defaultUdevDebounceTiming) = Some w ∧ owed w = true ∧ stopped (sched w) = false ∧
  timely (10 * Millisecond) (drop 3 plugged ++ [Pass (800 * Millisecond)])%list w = Some w' ∧ clock w < clock w' ∧ cap w + 10 * Millisecond < clock w' ∧
  ((begun w < begun w')%nat ∨ rescanPending (sched w') = true ∧ ∃ w'', act Scanned w' = Some w'' ∧ begun w'' = S (begun w') ∧ owed w'' = false) ∧
  rescanPending (sched w') = false.
Proof.
  eexists _, _. split; [vm_compute; reflexivity|]. split; [vm_compute; reflexivity|]. split; [vm_compute; reflexivity|]. split; [vm_compute; reflexivity|].
  split; [vm_compute; reflexivity|]. split; [vm_compute; reflexivity|]. split; [|vm_compute; reflexivity].
  apply (scan_owed defaultUdevDebounceTiming (take 3 plugged)) with (lag := 10 * Millisecond) (l' := (drop 3 plugged ++ [Pass (800 * Millisecond)])%list); vm_compute; reflexivity.
Defined.

(** A timer or a goroutine is due. *)
Definition due (w : world) : bool :=
  existsb (λ t, match t with Some t => deadline t <=? clock w | None => false end) [quietTimer (sched w); maxTimer (sched w)] || negb (bool_decide (calls w = [])).
(** A run in which nothing that is due is left waiting. *)
Fixpoint on_time (l : list action) (w : world) : option world :=
  if due w then None else match l with [] => Some w | a :: l => w ← act a w; on_time l w end.

(** A modem that comes for 0.3 s and goes for 0.1 s. *)
Definition flap : list action := [Event udevEventAdd true; Pass (300 * Millisecond); Event udevEventRemove false; Pass (100 * Millisecond)].

(** The scheduler between two rounds. *)
Definition flapping (w : world) : Prop :=
  calls w = [] ∧ begun w = O ∧ stopped (sched w) = false ∧ firedAt (sched w) = None ∧ timing (sched w) = defaultUdevDebounceTiming ∧
  waveKind (sched w) ≠ udevEventAdd ∧ (waveKind (sched w) = udevEventNone → quietTimer (sched w) = None) ∧
  ∀ t, quietTimer (sched w) = Some t ∨ maxTimer (sched w) = Some t → clock w < deadline t.

Lemma on_time_app l1 l2 w w1 : on_time l1 w = Some w1 → on_time (l1 ++ l2) w = on_time l2 w1.
Proof.
  revert w. induction l1 as [|a l1 IH]; intros w Hx; cbn in Hx.
  - destruct (due w); [done|]. by injection Hx as ->.
  - cbn. destruct (due w); [done|]. destruct (act a w) as [w'|]; [|done]. cbn in *. by apply IH.
Qed.

Lemma not_due w : calls w = [] → (∀ t, quietTimer (sched w) = Some t ∨ maxTimer (sched w) = Some t → clock w < deadline t) → due w = false.
Proof.
  intros Hc Ht. unfold due. rewrite Hc, (bool_decide_true _ (eq_refl [])). cbn. rewrite !orb_false_r. apply orb_false_iff.
  split; [destruct (quietTimer (sched w)) as [t|]|destruct (maxTimer (sched w)) as [t|]]; try done; apply Z.leb_gt, Ht; auto.
Qed.

Ltac bound := lazymatch goal with |- context [Some ?x ≫= ?f] => change (Some x ≫= f) with (f x); cbv beta end.

Lemma flap_round w : flapping w → ∃ w', on_time flap w = Some w' ∧ flapping w' ∧ clock w' = clock w + 400 * Millisecond ∧ owed w' = true.
Proof.
  intros (Hc & Hb & Hs & Hf & Ht & Hk & Hq & Hd). cbn [on_time flap]. rewrite (not_due w Hc Hd).
  destruct w as [now s calls sc si ow bg]. cbn in Hc, Hb, Hs, Hf, Ht, Hk, Hq, Hd. subst calls bg.
  assert (Ha : accepted now udevEventAdd true s = true) by (unfold accepted; by rewrite Hs, Hf).
  assert (Hq' : quietTimer s = None ∨ waveKind s ≠ udevEventNone) by (destruct (decide (waveKind s = udevEventNone)); auto).
  pose proof (started now udevEventAdd true s Ha Hk Hq') as Hadd. cbn zeta in Hadd.
  set (s1 := Schedule now udevEventAdd true s) in *. change (act (Event udevEventAdd true) (mkWorld now s [] sc si ow 0)) with
    (Some (mkWorld now s1 [] sc (if waveGen s1 =? waveGen s then si else now) (ow || accepted now udevEventAdd true s) 0)).
  rewrite Ha, orb_true_r. bound. rewrite Hs, Hf, Ht in Hadd. clearbody s1.
  rewrite not_due; [|done|cbn; rewrite Hadd; cbn; intros t [[= <-]|[= <-]]; cbn; unfold Millisecond; lia].
  cbn [act]. change (0 <=? 300 * Millisecond) with true. cbn iota. bound.
  rewrite not_due; [|done|cbn; rewrite Hadd; cbn; intros t [[= <-]|[= <-]]; cbn; unfold Millisecond; lia].
  set (now1 := now + 300 * Millisecond). assert (Ha1 : accepted now1 udevEventRemove false s1 = true) by (unfold accepted; by rewrite Hadd).
  assert (Hk1 : waveKind s1 ≠ udevEventRemove) by by rewrite Hadd. assert (Hq1 : quietTimer s1 = None ∨ waveKind s1 ≠ udevEventNone) by (right; by rewrite Hadd).
  pose proof (started now1 udevEventRemove false s1 Ha1 Hk1 Hq1) as Hrem. cbn zeta in Hrem.
  set (s2 := Schedule now1 udevEventRemove false s1) in *. cbn [act]. fold now1. fold s2. rewrite Ha1. bound. rewrite Hadd in Hrem. cbn in Hrem. clearbody s2.
  rewrite not_due; [|done|cbn; rewrite Hrem; cbn; intros t [[= <-]|[= <-]]; cbn; unfold Millisecond; lia].
  cbn [act]. change (0 <=? 100 * Millisecond) with true. cbn iota. bound.
  rewrite not_due; [|done|cbn; rewrite Hrem; cbn; unfold now1; intros t [[= <-]|[= <-]]; cbn; unfold Millisecond; lia].
  eexists. split; [reflexivity|]. cbn. unfold now1. split; [|split; [unfold Millisecond; lia|done]]. unfold flapping. cbn. rewrite Hrem. cbn. split_and!; try done.
  unfold now1. intros t [[= <-]|[= <-]]; cbn; unfold Millisecond; lia.
Qed.

Fixpoint flaps (n : nat) : list action := match n with O => [] | S n => (flap ++ flaps n)%list end.

(** Events of both kinds in turn put the scan off for ever, although no timer is
    late: the cap of a wave ends with the wave. *)
Theorem scan_put_off n :
  ∃ w, on_time (flaps n) (start defaultUdevDebounceTiming) = Some w ∧ clock w = Z.of_nat n * 400 * Millisecond ∧ begun w = O ∧ (n ≠ O → owed w = true).
Proof.
  assert (Hgen : ∀ n w0, flapping w0 → (n = O → due w0 = false) → ∃ w, on_time (flaps n) w0 = Some w ∧ clock w = clock w0 + Z.of_nat n * 400 * Millisecond ∧ begun w = O ∧ (n ≠ O → owed w = true)).
  { clear n. induction n as [|n IH]; intros w0 Hw Hd.
    - exists w0. cbn [flaps on_time]. rewrite (Hd eq_refl). split_and!; [done|lia|by destruct Hw as (_ & -> & _)|done].
    - destruct (flap_round w0 Hw) as (w1 & H1 & Hw1 & Hc1 & Ho1). destruct (IH w1 Hw1) as (w & H2 & Hc & Hb & Ho).
      { intros ->. by apply not_due; apply Hw1. }
      exists w. cbn [flaps]. rewrite (on_time_app _ _ _ _ H1). split_and!; [done|lia|done|]. intros _.
      destruct n; [|by apply Ho]. cbn in H2. destruct (due w1); [done|]. by injection H2 as <-. }
  apply Hgen; [|done]. unfold flapping. cbn. split_and!; try done. by intros t [?|?].
Qed.

(** A second modem is unplugged 250 ms after the scan that the first one began:
    its event is dropped, and nothing is going to scan again. *)
Theorem second_removal_missed :
  let l := [Event udevEventRemove false; Pass (200 * Millisecond); QuietExpires; Called 1; Pass (150 * Millisecond); Scanned; Pass (100 * Millisecond); Event udevEventRemove false] in
  ∃ w, acts l (start defaultUdevDebounceTiming) = Some w ∧ begun w = 1%nat ∧ scans w = O ∧ waveKind (sched w) = udevEventNone ∧ calls w = [] ∧
    quietTimer (sched w) = None ∧ maxTimer (sched w) = None.
Proof. eexists. split; [vm_compute; reflexivity|]. by vm_compute. Qed.
